(* ===== verification/_CoqProject ===== *)
-Q . S2P
Prelude.v
GoString.v
GoFmt.v
Float.v
GoMath.v
Duration.v
StrUtil.v
Pattern.v
Lexer.v
LexerFacts.v
Labels.v
LabelsFacts.v
Ast.v
Quantile.v
Value.v
Printer.v
Parser.v
ParserFacts.v
TypeFacts.v
ParseSpec.v
Relabel.v
MapRelabel.v
Heap.v
GoTime.v
Buffer.v
Window.v
Evaluator.v
RangeFuncs.v
SelectFacts.v
Binop.v
BinopFacts.v
GroupBy.v
Aggregate.v
AggregateFacts.v
Functions.v
Engine.v
FunctionFacts.v
Agree.v
EngineFacts.v
Prepare.v
QueryFacts.v
Gate.v
Merge.v
TextParse.v
TextFacts.v
Storage.v
Fanout.v
Alerting.v
RuleFmt.v
Rules.v
RulesFacts.v
ReloadFacts.v
Target.v
Scrape.v
ScrapePool.v
ScrapeFacts.v
TargetFacts.v
Discovery.v
DiscoveryFacts.v
FileSD.v
FileSDFacts.v
Marathon.v
Dns.v
Kubernetes.v
KubernetesFacts.v
Notifier.v
NotifierFacts.v
TextCreate.v
TextWrite.v
TextRead.v
TextTrip.v
Queue.v
QueueFacts.v
Remote.v
RemoteFacts.v
RemoteTrip.v
RemoteStorage.v
RemoteStorageFacts.v
Config.v
ConfigFacts.v
