(* ===== verification/Prelude.v ===== *)
(** Verification of the Prometheus server's core, the tree under
    src/monitoring/prometheus/busybox-prometheus/.

    * The program and the parts that are modelled

    A Prometheus server scrapes samples, stores them, evaluates PromQL
    expressions over them, turns alerting rules into alerts, and forwards the
    samples to remote storages.  Paths below are relative to the tree named
    above; the copy of the common/model package is the one under
    src/redis/redis_exporter/vendor/github.com/prometheus/common/model/.

    - Text and numbers.  [GoString] and [GoFmt] are what the code uses of Go's
      strings, unicode/utf8, strconv and fmt packages; [Float] is float64
      arithmetic on the Standard Library's SpecFloat, with the staleness marker
      of pkg/value and strconv's reading and printing, [GoMath] the functions of
      package math, [GoTime] the calendar of package time; [Duration] is
      model/time.go; [StrUtil] is util/strutil/quote.go.
    - Labels.  [Labels] is pkg/labels/labels.go and matcher.go: label sets, their
      builder (with the aliasing of [Del], which removes elements of the slice
      it ranges over) and matchers.  [LabelsFacts] relates them to finite maps.
    - Relabelling.  [Relabel] is pkg/relabel/relabel.go, which works on label
      sets through the builder; [MapRelabel] is relabel/relabel.go, the copy
      for Go maps that the remote write queue calls.
    - The query language.  [Lexer] is promql/lex.go, a state machine whose
      states are the functions of the code and whose items are those sent on
      its channel; [LexerFacts] holds its invariants.  [Ast] is promql/ast.go
      with the types of promql/value.go and the signatures of
      promql/functions.go; [Printer] is promql/printer.go.  [Parser] is
      promql/parse.go: recursive descent in a state and error monad, operator
      precedence by [balance], and the type checker.  [ParserFacts] is a
      weakest-precondition calculus for the monad and the specification of
      every parsing function, [TypeFacts] the typing relation and its relation
      to the checker, [ParseSpec] the theorems about the entry points.
      [Quantile] is promql/quantile.go.
    - Query evaluation.  [Value] is promql/value.go.  promql/engine.go is spread
      over [Evaluator] (errors, the context, the selectors over buffered
      iterators), [Binop] (operators and vector matching), [Aggregate], with
      the sample heaps of promql/functions.go, [Engine] (evaluation of every
      node, the preparation of a query and its execution, instant or over a
      range) and [Gate] (the gate that bounds the queries in execution, as a
      system of steps); [RangeFuncs] and [Functions] are promql/functions.go.
      Evaluation is a computation in a state and error monad over any state
      with selectors (the class [Selectors]): the engine's own state holds the
      iterators of the query's selectors, the reference one the samples
      themselves.  [SelectFacts], [BinopFacts], [AggregateFacts] and
      [FunctionFacts] hold the specifications of the parts, on [Window]
      (look-back windows of samples) and [GroupBy] (maps from hashes to
      groups); [Agree] is the relation between two evaluations that
      [EngineFacts] lifts to every expression, [Prepare] the specification of
      query preparation, and [QueryFacts] relates whole queries to their
      meaning.
    - Storage.  [Buffer] is storage/buffer.go: the ring of recent samples and the
      iterator that keeps it, over a [SeriesIterator] class whose laws are its
      contract.  [Heap] is the part of container/heap that storage/fanout.go
      and the aggregations use, [Merge] its merging iterators over a store of cursors (iterators
      are pointers in the code; the heap holds their indices), and [Fanout]
      the storage that forwards to several others, against the classes
      [Storage], [Querier] and [Appender] of storage/interface.go.
    - The exposition format.  [TextParse] is pkg/textparse: the automaton that
      golex generates, state by state, and the parser above it; [TextFacts]
      holds its invariants.  [TextCreate] is the writer that the exporters vendor,
      expfmt/text_create.go of the client library; [TextWrite], [TextRead] and
      [TextTrip] relate the two.
    - Rules.  [Alerting] is rules/alerting.go: the state machine of the alerts
      of a rule; it uses the labels' builder and prints the expression it
      queries.  [RuleFmt] is pkg/rulefmt, the validation of rule files; [Rules] is
      rules/recording.go and manager.go: recording rules, the evaluation of a
      group against an appender, and the manager that loads groups and carries
      their state over a reload.  [RulesFacts] and [ReloadFacts] hold the
      theorems.
    - Scraping.  [Target] is scrape/target.go with populateLabels and the
      limiting appenders, [Scrape] the cache and the loop of scrape/scrape.go,
      against any [Appender], and [ScrapePool] its pools and scrape/manager.go.
      [ScrapeFacts] and [TargetFacts] hold the theorems.
    - Discovery.  [Discovery] is discovery/manager.go: the goroutines that take
      the updates of the mechanisms and pass the groups of all jobs on, as a
      system of steps that interleave; what they send is what
      [ScrapePool.reload] receives.  Of the mechanisms, [FileSD] is
      discovery/file, [Dns] discovery/dns, [Marathon] discovery/marathon and
      [Kubernetes] discovery/kubernetes, where the five kinds of objects are
      instances of one class and share a controller, which knows the objects of
      the namespace that its informer lists; what they send is what
      [Discovery.updateGroup] is given.  [DiscoveryFacts], [FileSDFacts] and
      [KubernetesFacts] hold the theorems, [Dns] and [Marathon] their own.
    - Notification.  [Notifier] is notifier/notifier.go and sendAlerts of
      cmd/prometheus/main.go: the queue of alerts, the loop that sends them, as
      steps that interleave with its callers, and the sets of Alertmanagers.
      [NotifierFacts] holds the theorems.
    - Remote storage.  [Queue] is storage/remote/queue_manager.go and ewma.go:
      the sharded queue, with one step for every atomic action of its goroutines
      and of its callers; [QueueFacts] proves its invariant over any
      interleaving of steps.  It relabels with [MapRelabel].  [Remote] is
      codec.go, client.go and read.go: the messages, the client, and the queriers
      that stand between the engine and an endpoint; [RemoteStorage] is
      storage.go and write.go, the storage that starts and stops a queue for
      each endpoint.  [RemoteFacts] and [RemoteStorageFacts] hold the theorems,
      and [RemoteTrip] follows a sample from the queue to the endpoint and back.
    - Configuration.  [Config] is config/config.go: the checks and defaults of
      every section and the resolution of paths; its constant patterns, and
      those of [FileSD], are terms of [Pattern], regular expressions with a
      matcher by derivatives.  [ConfigFacts] shows what the managers above may
      rely on.

    State that a Go method updates through its receiver is passed and returned
    explicitly, under the field names of the struct; a method keeps its name
    (with the type in front where two types have the same method, as
    [ItemType_String], and with a trailing underscore where Rocq reserves the
    word).  Errors are the [Err] of [result]; a run-time panic is [None], an
    error of its own in the parser's monad, or the outcome [Panic] of a step.
    Integers are [Z], with the wrap-around of [int32], [int64] and [uint64]
    written out where a computation can leave the range.

    * What the theorems show

    - Query evaluation: a range query, from its text and its storage to its
      result, always returns, and its result is made of the values of the
      instant query at each step ([Exec_range], [Exec_instant]); evaluation
      over buffered iterators refines evaluation over samples, with values of
      the type the checker gave and no error but those a query may end with
      ([eval_refines]); selectors return the most recent sample or the window
      ([vectorSelector_spec], [matrixSelector_spec]), and the querier is asked
      for a time range that covers them all ([querier_covers],
      [populate_spec]); vector matching, set operators, aggregations and the
      functions with a logic of their own agree with their declarative
      descriptions ([VectorBinop_spec], [resultMetric_spec],
      [set_operations_spec], [aggregate_summary], [aggregate_ranking],
      [label_replace_spec], [label_join_spec], [histogram_quantile_groups],
      [holt_winters_smooths], [sort_functions], [extremes_over_time],
      [date_fields]), or do not ([rate_of_parentheses], [unary_minus]); the
      gate admits no more queries than it was made for
      ([queryGate_bounds]).
    - Query language: the scanner ends and its items tile the input
      ([lex_total], [lex_lossless], [lex_balanced]); every entry point of the
      parser ends with a value or an error of its own, never a run-time panic
      ([parse_total]); what it returns is well formed, well typed
      ([ParseExpr_sound]) and grouped by precedence in the only possible way
      ([ParseExpr_precedence], [balance_spec]); the type checker decides the
      typing relation ([checkType_decides]); quoting and durations read back
      ([Unquote_Quote], [ParseDuration_String]); [Inspect] visits every
      selector outside aggregation parameters ([Inspect_selectors],
      [Inspect_skips_param]).
    - Labels: the builder and both relabelling routines refine updates of finite
      maps ([builder_refines], [Process_refines], [relabel_copies_agree]);
      conversions, comparison and hashing respect equality
      ([labels_map_roundtrip], [Compare_total_order], [hash_bytes_injective]).
    - Storage: the ring buffer refines a queue ([sampleRing_refines]); seeking
      keeps exactly the look-back window ([Seek_buffers]); merging is sorted
      and complete ([mergeIterator_sorted], [mergeSeriesSet_groups],
      [mergeStringSlices_union]); the fanout commits in order and rolls back
      after a failure ([fanout_Commit_spec]).
    - The exposition format: reading ends on every input, with at most as many
      samples as bytes, and no slice is out of range ([textparse_total]); what
      the client library writes, of families within the format's limits, is read
      back, sample for sample ([exposition_round_trip]).
    - Rules: the alerts of a rule are a function of the history of the query's
      results ([alerting_history]), from which an alert fires exactly when its
      element was returned without interruption for the hold duration
      ([alerting_fires_iff]); what a group appends over its evaluations, with the
      staleness markers, is a function of its history too ([group_history]);
      validation decides the rules that can be evaluated, but for
      [nameless_rule_fails] ([Validate_decides]); loading and reloading keep the
      state of unchanged groups ([loadGroups_loads], [reload_unchanged]).
    - Scraping: the samples and staleness markers that a history of scrapes
      writes ([scrape_history]), within the limits ([limits_enforced]), and where
      one bad sample fails a scrape ([late_sample_fails_scrape]); the labels of
      targets and samples ([populateLabels_spec], [mutateSampleLabels_spec]); a
      pool runs exactly one loop for every target that is wanted
      ([Sync_matches], [manager_current]).
    - Discovery: however its goroutines interleave, the manager ends up having
      sent the latest group of every source ([discovery_delivers]); a job that
      loses its providers is not stopped ([emptied_job_keeps_targets]), and
      a cancelled provider can still write ([stale_groups_return]); after any
      sequence of refreshes the manager holds exactly the groups of the files
      that file discovery knows, if no file matches two patterns
      ([file_discovery_current]); once a Kubernetes controller is idle, what the
      objects say that its informer lists, with the pods that endpoints refer to
      as they were at some time since the endpoints changed
      ([kubernetes_current]; with several namespaces all informers list the
      last, [namespaces_lost]); the apps of the last list that Marathon gave
      ([marathon_current]) and the records of the last DNS lookup that did not
      fail ([dns_discovery_current]), which asks each server in turn, and over
      TCP when an answer was truncated ([dns_lookup_outcomes]).
    - Notification: the queue keeps the newest alerts in order and a signal is
      never lost ([notifier_queue], [sendAlerts_keeps_newest]), so that it is
      drained when nothing is added ([notifier_drains]); the Alertmanagers are
      those of the latest groups ([am_sync_spec]).
    - Remote storage: samples of a series are sent in order and none is lost by
      batching, resharding or shutdown ([queue_order], [queue_drained]), within
      the configured bounds ([queue_bounds], [sendSamplesWithBackoff_spec]) and
      without a panic before [Stop] ([queue_no_panic]); every sample that is
      added goes to the queue of every endpoint, over any number of
      reconfigurations ([remote_storage_forwards]); what went through a queue to
      an endpoint is read again without the external labels
      ([remote_write_read]), by exactly the queries that select it
      ([remote_read_select]), but for the slice that queries share
      ([required_matchers_once]) and, in the example
      [external_labels_break_order], the order that external labels break.
    - Configuration: what is accepted satisfies what the relabelling, scraping
      and discovery theorems assume ([loaded_config_valid]), so that the remote
      storage runs without a panic under any sequence of reloads
      ([loaded_configs_run]), but for what is not checked: null items, which make
      it panic, and the settings of queues (the examples [null_endpoint_accepted]
      and [queue_settings_unchecked]); paths end up absolute ([LoadFile_paths]).

    * Fuel

    Loops that are not structural take fuel, and a theorem shows that it is
    enough: [lex_fuel] is four states per byte ([lex_total]); [parse_fuel] is
    eight calls per token ([parse_total], where running out of fuel would be an
    error of its own); the loop of [Seek] gets one step per sample of the series
    ([Seek_buffers]) and that of [sampleRing.add] one per cell of the buffer
    ([sampleRing_refines]); [mergeStringSlices] halves its argument
    ([mergeStringSlices_union]); [sort.Search] halves its interval
    ([Search_first]); [eval] gets the depth of the expression and the loop over
    the steps of a query their number ([eval_refines], [Exec_range]); reading a
    series set takes as many steps as it has series ([Exec_range]), and
    converting a result to its message that and the samples of a series
    ([remote_codec_roundtrip]).  The automaton of the exposition format moves
    forward with every step but the last: [run] gets two more than the bytes
    that are left, the lexer twice the length and two, the loop over the samples
    the length and one ([textparse_total]).  [SanitizeLabelName] takes a step per
    rune, of which there are no more than bytes.

    * Parameters and what is not modelled

    Code that is not in the tree is a parameter: the tables of printable runes
    ([UnicodeTables]), regular expressions from a configuration or a query
    ([Regexp], [RegexpReplace]), the xxhash and MD5 digests ([XXHash], [MD5]),
    the transcendental functions of package math ([MathLib]), the storages behind
    a fanout and behind a scrape, printing a URL, and reflect's DeepEqual of
    configurations (an [EqDecision]).  So are what comes from outside: the
    answers to HTTP requests, the file system, decoding YAML and JSON, template
    expansion, the query function that rules are given, the clients of the
    remote endpoints, the wire format of protocol buffers, exchanges with DNS
    servers, the keys, work queue and constants of the Kubernetes client library,
    whose informers keep a store and call a handler some time after it changed,
    and what the other discovery mechanisms send.  The order in which Go iterates
    a map is a parameter too where a result could depend on it ([MapOrder]), and
    so is the result of converting a float to an [int] that cannot hold it
    ([IntOverflow]).  Theorems about groups of samples assume that the digests
    of the label sets at hand do not collide, as the code does.  Go sorts label sets
    and buckets with an unstable sort; here elements with equal keys keep their
    order.

    Of the engine, timers, metrics, the pools that recycle slices and the
    repeated evaluation of one parsed query are left out.  Not modelled are the
    discovery mechanisms for Azure, Consul, EC2, GCE, OpenStack, Triton and
    ZooKeeper, the adapter of the tsdb library, the templates of package
    template, the linter of metric
    names, the commands, the language of promql/test.go and the generated code
    of the protocol buffers: they call libraries that are not in the tree or
    format text for people.  Neither are locks, logging and metrics, except where
    a step of a system stands for what happens under a lock.  Memory is taken
    to suffice: a query over so many steps that the room for a series' points
    cannot be allocated panics.  A list of pointers in a configuration is a list
    of options in [Config] and [RemoteStorage]; the other components have the
    items of a list without nil ones, at which the code would panic.  A queue of capacity
    zero, whose channel would hand samples over directly, always drops in the
    model; the start of a queue manager is one step, where the code launches
    its loops just before its shards; a queue that is stopped is given its
    steps until it has sent what it holds, where the code waits for it.  The rest
    of the repository (container images, charts and the sources of other
    operators) is outside this development. *)

From stdpp Require Export base numbers list gmap strings.
From Stdlib Require Export ZArith Lia.
From Stdlib Require Ascii.
Export Stdlib.Strings.Ascii (ascii(..), ascii_of_N, N_of_ascii, ascii_N_embedding, N_ascii_embedding).
Export (notations) Stdlib.Strings.Ascii.

#[global] Open Scope Z_scope.
#[global] Set Default Goal Selector "!".
#[global] Generalizable All Variables.

(** * Results of fallible Go functions: a value, or an [error] *)

Inductive result (E A : Type) : Type :=
| Ok (a : A)
| Err (e : E).
Arguments Ok {E A} a.
Arguments Err {E A} e.

#[export] Instance result_ret E : MRet (result E) := fun A a => Ok a.
#[export] Instance result_bind E : MBind (result E) := fun A B f r =>
  match r with Ok a => f a | Err e => Err e end.
#[export] Instance result_fmap E : FMap (result E) := fun A B f r =>
  match r with Ok a => Ok (f a) | Err e => Err e end.

#[export] Instance result_eq_dec E A `{EqDecision E, EqDecision A} : EqDecision (result E A).
Proof. solve_decision. Defined.

Definition is_Ok {E A} (r : result E A) : Prop := exists a, r = Ok a.

(** * Fixed-width integers: the wrap-around of Go's conversions *)

Definition u32 (z : Z) : Z := z `mod` 2 ^ 32.
Definition u64 (z : Z) : Z := z `mod` 2 ^ 64.
Definition i32 (z : Z) : Z := (z + 2 ^ 31) `mod` 2 ^ 32 - 2 ^ 31.
Definition i64 (z : Z) : Z := (z + 2 ^ 63) `mod` 2 ^ 64 - 2 ^ 63.

Definition max_int64 : Z := 2 ^ 63 - 1.
Definition min_int64 : Z := - 2 ^ 63.

Lemma i64_id z : min_int64 <= z <= max_int64 -> i64 z = z.
Proof. unfold i64, min_int64, max_int64. intros. rewrite Z.mod_small; lia. Qed.

Lemma i32_id z : - 2 ^ 31 <= z < 2 ^ 31 -> i32 z = z.
Proof. unfold i32. intros. rewrite Z.mod_small; lia. Qed.

Lemma u32_id z : 0 <= z < 2 ^ 32 -> u32 z = z.
Proof. unfold u32. apply Z.mod_small. Qed.

Lemma i64_range z : min_int64 <= i64 z <= max_int64.
Proof.
  unfold i64, min_int64, max_int64.
  pose proof (Z.mod_pos_bound (z + 2 ^ 63) (2 ^ 64) ltac:(lia)). lia.
Qed.

(** * Decisions *)

(** Two tests of equivalent propositions agree, whatever decides them. *)
Lemma bool_decide_if {A} (P Q : Prop) `{Decision P, Decision Q} (x y : A) :
  (P <-> Q) -> (if bool_decide P then x else y) = (if bool_decide Q then x else y).
Proof. intros E. by rewrite (bool_decide_ext P Q E). Qed.

(** * Lists *)

Lemma foldl_map {A B C} (f : A -> C -> A) (g : B -> C) a l : foldl f a (map g l) = foldl (fun a x => f a (g x)) a l.
Proof. revert a. induction l; intros a'; cbn; auto. Qed.

Lemma foldl_append {A} (h l : list A) : foldl (fun h x => h ++ [x]) h l = h ++ l.
Proof. revert h. induction l as [|x l IH]; intros h; cbn; [by rewrite app_nil_r|]. by rewrite IH, <- app_assoc. Qed.

Lemma filter_all {A} (f : A -> bool) l : (forall a, a ∈ l -> f a = true) -> List.filter f l = l.
Proof.
  induction l as [|a l IH]; intros F; cbn; [done|]. rewrite F by left. f_equal. apply IH. intros. apply F. by right.
Qed.
Lemma filter_none {A} (f : A -> bool) l : (forall a, a ∈ l -> f a = false) -> List.filter f l = [].
Proof.
  induction l as [|a l IH]; intros F; cbn; [done|]. rewrite F by left. apply IH. intros. apply F. by right.
Qed.

(** A list with some elements at the front, in order, and others behind them in
    any order. *)
Definition laid_out {A} (l : list A) (parts : list A * list A) : Prop := exists t, l = parts.1 ++ t /\ t ≡ₚ parts.2.

Lemma laid_out_all {A} (l : list A) : laid_out l (l, []).
Proof. exists []. by rewrite app_nil_r. Qed.

Lemma laid_out_length {A} (l : list A) parts : laid_out l parts -> length l = (length parts.1 + length parts.2)%nat.
Proof. intros (t & -> & P). by rewrite length_app, P. Qed.

Lemma laid_out_lengths {A} (ls : list (list A)) ps :
  Forall2 laid_out ls ps -> map length ls = map (fun p => length p.1 + length p.2)%nat ps.
Proof. induction 1 as [|l p ls ps P _ IH]; [done|]. cbn. by rewrite (laid_out_length _ _ P), IH. Qed.

Lemma list_lookup_map {A B} (f : A -> B) (l : list A) i : map f l !! i = f <$> l !! i.
Proof. apply list_lookup_fmap. Qed.
Lemma list_elem_of_map {A B} (f : A -> B) (l : list A) y : y ∈ map f l <-> exists x, y = f x /\ x ∈ l.
Proof. apply list_elem_of_fmap. Qed.
Lemma Forall2_right {A B} (P : A -> B -> Prop) (Q : B -> Prop) l k : Forall2 P l k -> (forall x y, P x y -> Q y) -> Forall Q k.
Proof. intros F H. induction F; constructor; eauto. Qed.

(** * Go maps *)

(** The order in which Go ranges over a map. *)
Class MapOrder := {
  map_order : forall K `{Countable K} A, gmap K A -> list (K * A);
  map_order_perm : forall K `{Countable K} A (m : gmap K A), map_order K A m ≡ₚ map_to_list m
}.
Arguments map_order {_ K _ _ A} m.

(** One such order. *)
Definition tree_order : MapOrder :=
  {| map_order K _ _ A m := map_to_list m; map_order_perm K _ _ A m := reflexivity _ |}.

Lemma elem_of_map_order `{MapOrder} `{Countable K} {A} (m : gmap K A) k a : (k, a) ∈ map_order m <-> m !! k = Some a.
Proof. by rewrite map_order_perm, elem_of_map_to_list. Qed.

(** * Tactics *)

(** Case analysis on the boolean comparisons of a goal or hypothesis, with
    the arithmetic fact recorded. *)
Ltac bool_prop :=
  repeat match goal with
  | H : (_ =? _)%Z = true |- _ => apply Z.eqb_eq in H
  | H : (_ =? _)%Z = false |- _ => apply Z.eqb_neq in H
  | H : (_ <=? _)%Z = true |- _ => apply Z.leb_le in H
  | H : (_ <=? _)%Z = false |- _ => apply Z.leb_gt in H
  | H : (_ <? _)%Z = true |- _ => apply Z.ltb_lt in H
  | H : (_ <? _)%Z = false |- _ => apply Z.ltb_ge in H
  | H : (_ =? _)%nat = true |- _ => apply Nat.eqb_eq in H
  | H : (_ =? _)%nat = false |- _ => apply Nat.eqb_neq in H
  | H : (_ <=? _)%nat = true |- _ => apply Nat.leb_le in H
  | H : (_ <=? _)%nat = false |- _ => apply Nat.leb_gt in H
  | H : (_ <? _)%nat = true |- _ => apply Nat.ltb_lt in H
  | H : (_ <? _)%nat = false |- _ => apply Nat.ltb_ge in H
  | H : (_ && _)%bool = true |- _ => apply andb_true_iff in H as [? ?]
  | H : (_ || _)%bool = false |- _ => apply orb_false_iff in H as [? ?]
  | H : negb _ = true |- _ => apply negb_true_iff in H
  | H : negb _ = false |- _ => apply negb_false_iff in H
  | H : (_ && _)%bool = false |- _ => apply andb_false_iff in H
  | H : (_ || _)%bool = true |- _ => apply orb_true_iff in H
  end.

(** Splits on the first [if] or [match] of the goal. *)
Ltac case_if :=
  match goal with
  | |- context [if ?b then _ else _] => destruct b eqn:?
  end.

Create Rewrite HintDb str.
