(* ===== verification/GoString.v ===== *)
(** Go strings as [String.string] (a sequence of bytes): slicing, the rune
    decoding and encoding of unicode/utf8, and the helpers of the strings
    package that the modelled code uses. *)

From S2P Require Import Prelude.

(** * Bytes and runes *)

(** The value of a byte literal, also the rune of an ASCII character. *)
Definition rune (c : ascii) : Z := Z.of_N (N_of_ascii c).
Arguments rune _%_char_scope.

(** [byte(z)]: the conversion keeps the low eight bits. *)
Definition byte_of (z : Z) : ascii := ascii_of_N (Z.to_N (z `mod` 256)).

Definition RuneError : Z := 0xFFFD.
Definition MaxRune : Z := 0x10FFFF.
Definition RuneSelf : Z := 0x80.

(** * Slicing *)

(** [s[n:]] *)
Fixpoint str_drop (n : nat) (s : string) : string :=
  match n, s with
  | O, _ => s
  | S n', String _ s' => str_drop n' s'
  | S _, EmptyString => EmptyString
  end.

(** [s[:n]] *)
Fixpoint str_take (n : nat) (s : string) : string :=
  match n, s with
  | O, _ => EmptyString
  | S n', String c s' => String c (str_take n' s')
  | S _, EmptyString => EmptyString
  end.

(** [s[i:j]] *)
Definition str_slice (i j : nat) (s : string) : string :=
  str_take (j - i) (str_drop i s).

(** * unicode/utf8 *)

Definition is_cont (b : Z) : bool := (0x80 <=? b) && (b <=? 0xBF).

(** The [first] and [acceptRanges] tables: size of the sequence a lead byte
    opens and the range of the second byte. *)
Definition utf8_lead (b0 : Z) : option (nat * Z * Z) :=
  if (0xC2 <=? b0) && (b0 <=? 0xDF) then Some (2%nat, 0x80, 0xBF)
  else if b0 =? 0xE0 then Some (3%nat, 0xA0, 0xBF)
  else if b0 =? 0xED then Some (3%nat, 0x80, 0x9F)
  else if (0xE1 <=? b0) && (b0 <=? 0xEF) then Some (3%nat, 0x80, 0xBF)
  else if b0 =? 0xF0 then Some (4%nat, 0x90, 0xBF)
  else if (0xF1 <=? b0) && (b0 <=? 0xF3) then Some (4%nat, 0x80, 0xBF)
  else if b0 =? 0xF4 then Some (4%nat, 0x80, 0x8F)
  else None.

Definition in_range (b lo hi : Z) : bool := (lo <=? b) && (b <=? hi).

(** [utf8.DecodeRuneInString]: the first rune and its width in bytes;
    [(RuneError, 0)] on the empty string, [(RuneError, 1)] on an invalid
    encoding. *)
Definition DecodeRuneInString (s : string) : Z * nat :=
  match s with
  | EmptyString => (RuneError, 0%nat)
  | String c0 s1 =>
    let b0 := rune c0 in
    if b0 <? RuneSelf then (b0, 1%nat)
    else match utf8_lead b0, s1 with
    | Some (2%nat, lo, hi), String c1 _ =>
      if in_range (rune c1) lo hi
      then ((b0 - 0xC0) * 64 + (rune c1 - 0x80), 2%nat)
      else (RuneError, 1%nat)
    | Some (3%nat, lo, hi), String c1 (String c2 _) =>
      if in_range (rune c1) lo hi && is_cont (rune c2)
      then ((b0 - 0xE0) * 4096 + (rune c1 - 0x80) * 64 + (rune c2 - 0x80), 3%nat)
      else (RuneError, 1%nat)
    | Some (4%nat, lo, hi), String c1 (String c2 (String c3 _)) =>
      if in_range (rune c1) lo hi && is_cont (rune c2) && is_cont (rune c3)
      then ((b0 - 0xF0) * 262144 + (rune c1 - 0x80) * 4096
            + (rune c2 - 0x80) * 64 + (rune c3 - 0x80), 4%nat)
      else (RuneError, 1%nat)
    | _, _ => (RuneError, 1%nat)
    end
  end.

Definition str_of_bytes (bs : list Z) : string :=
  foldr (fun b s => String (byte_of b) s) EmptyString bs.

(** [utf8.EncodeRune]: surrogates and values out of range are encoded as
    [RuneError]. *)
Definition EncodeRune (r : Z) : string :=
  let enc3 r := str_of_bytes [0xE0 + r / 4096; 0x80 + (r / 64) `mod` 64; 0x80 + r `mod` 64] in
  if (0 <=? r) && (r <=? 0x7F) then str_of_bytes [r]
  else if (0 <=? r) && (r <=? 0x7FF) then str_of_bytes [0xC0 + r / 64; 0x80 + r `mod` 64]
  else if (r <? 0) || (MaxRune <? r) || ((0xD800 <=? r) && (r <=? 0xDFFF)) then enc3 RuneError
  else if r <=? 0xFFFF then enc3 r
  else str_of_bytes [0xF0 + r / 262144; 0x80 + (r / 4096) `mod` 64;
                     0x80 + (r / 64) `mod` 64; 0x80 + r `mod` 64].

(** * Helpers of the strings package *)

(** [strings.ContainsRune] for a set of ASCII characters; [-1] (the lexer's
    [eof]) and [RuneError] are in no such set. *)
Fixpoint ContainsRune (s : string) (r : Z) : bool :=
  match s with
  | EmptyString => false
  | String c s' => (rune c =? r) || ContainsRune s' r
  end.

(** Membership of a byte. *)
Fixpoint contains_byte (s : string) (b : Z) : bool :=
  match s with
  | EmptyString => false
  | String c s' => (rune c =? b) || contains_byte s' b
  end.

Fixpoint str_forall (p : Z -> bool) (s : string) : bool :=
  match s with
  | EmptyString => true
  | String c s' => p (rune c) && str_forall p s'
  end.

(** [strings.Count(s, "\n")]-style counting of one byte. *)
Fixpoint count_byte (s : string) (b : Z) : nat :=
  match s with
  | EmptyString => 0
  | String c s' => (if (rune c =? b)%Z then 1 else 0) + count_byte s' b
  end%nat.

(** [strings.LastIndex] of a one-byte string; [-1] when absent. *)
Fixpoint last_index (s : string) (b : Z) : Z :=
  match s with
  | EmptyString => -1
  | String c s' =>
    let k := last_index s' b in
    if 0 <=? k then k + 1 else if rune c =? b then 0 else -1
  end.

(** [strings.ToLower] of an ASCII string. *)
Definition lower_byte (c : ascii) : ascii :=
  if (rune "A" <=? rune c) && (rune c <=? rune "Z") then byte_of (rune c + 32) else c.
Fixpoint ToLower (s : string) : string :=
  match s with
  | EmptyString => EmptyString
  | String c s' => String (lower_byte c) (ToLower s')
  end.

(** [strings.Join] *)
Fixpoint str_join (sep : string) (l : list string) : string :=
  match l with
  | [] => ""
  | [x] => x
  | x :: l' => x +:+ sep +:+ str_join sep l'
  end.

(** [utf8.ValidString]; each iteration consumes a byte. *)
Fixpoint valid_loop (fuel : nat) (s : string) : bool :=
  match s, fuel with
  | EmptyString, _ => true
  | _, O => false
  | _, S fuel =>
    let (r, w) := DecodeRuneInString s in
    negb ((r =? RuneError) && (w =? 1)%nat) && valid_loop fuel (str_drop w s)
  end.
Definition ValidString (s : string) : bool := valid_loop (String.length s) s.

(** * Lemmas on bytes *)

Lemma rune_range c : 0 <= rune c <= 255.
Proof. by destruct c as [[] [] [] [] [] [] [] []]; compute. Qed.

Lemma byte_of_rune c : byte_of (rune c) = c.
Proof. by destruct c as [[] [] [] [] [] [] [] []]. Qed.

Lemma rune_byte_of z : 0 <= z <= 255 -> rune (byte_of z) = z.
Proof.
  intros Hz. unfold rune, byte_of. rewrite Z.mod_small by lia.
  rewrite N_ascii_embedding by lia. lia.
Qed.

Lemma rune_inj c d : rune c = rune d -> c = d.
Proof. intros H. by rewrite <- (byte_of_rune c), H, byte_of_rune. Qed.

Lemma byte_of_mod z : byte_of (z `mod` 256) = byte_of z.
Proof. unfold byte_of. by rewrite Z.mod_mod by lia. Qed.

(** * Lemmas on strings *)

Lemma str_app_nil_l s : "" +:+ s = s.
Proof. done. Qed.

Lemma str_app_nil_r s : s +:+ "" = s.
Proof. induction s as [|c s IH]; [done|]. change (String c (s +:+ "") = String c s). by rewrite IH. Qed.

Lemma str_app_cons c s t : String c s +:+ t = String c (s +:+ t).
Proof. done. Qed.

Lemma str_app_assoc s t u : (s +:+ t) +:+ u = s +:+ (t +:+ u).
Proof. induction s as [|c s IH]; [done|]. rewrite !str_app_cons. by rewrite IH. Qed.

Lemma str_length_app s t : String.length (s +:+ t) = (String.length s + String.length t)%nat.
Proof. induction s as [|c s IH]; [done|]. rewrite str_app_cons. simpl. by rewrite IH. Qed.

Lemma str_take_drop n s : str_take n s +:+ str_drop n s = s.
Proof.
  revert s. induction n as [|n IH]; intros [|c s]; try done.
  simpl. rewrite str_app_cons. by rewrite IH.
Qed.

Lemma str_length_drop n s : String.length (str_drop n s) = (String.length s - n)%nat.
Proof. revert s. induction n as [|n IH]; intros [|c s]; try done. simpl. by rewrite IH. Qed.

Lemma str_length_take n s : String.length (str_take n s) = (n `min` String.length s)%nat.
Proof. revert s. induction n as [|n IH]; intros [|c s]; try done. simpl. by rewrite IH. Qed.

Lemma str_drop_drop i j s : str_drop i (str_drop j s) = str_drop (j + i) s.
Proof. revert s. induction j as [|j IH]; intros [|c s]; try done; [by destruct i|]. simpl. apply IH. Qed.

Lemma str_drop_all n s : (String.length s <= n)%nat -> str_drop n s = "".
Proof. revert s. induction n as [|n IH]; intros [|c s] H; simpl in *; try done; [lia|]. apply IH. lia. Qed.

Lemma str_take_all n s : (String.length s <= n)%nat -> str_take n s = s.
Proof.
  revert s. induction n as [|n IH]; intros [|c s] H; simpl in *; try done; [lia|].
  rewrite IH by lia. done.
Qed.

Lemma str_take_plus i j s : str_take (i + j) s = str_take i s +:+ str_take j (str_drop i s).
Proof.
  revert s. induction i as [|i IH]; intros s; [done|].
  destruct s as [|c s]; [by destruct j|]. simpl. rewrite IH. by rewrite str_app_cons.
Qed.

(** The slices of a string at increasing offsets concatenate. *)
Lemma str_take_slice i j s : (i <= j)%nat -> str_take i s +:+ str_slice i j s = str_take j s.
Proof. intros H. unfold str_slice. rewrite <- str_take_plus. f_equal. lia. Qed.

Lemma str_slice_empty i s : str_slice i i s = "".
Proof. unfold str_slice. by rewrite Nat.sub_diag. Qed.

Lemma str_slice_app i j k s :
  (i <= j <= k)%nat -> str_slice i j s +:+ str_slice j k s = str_slice i k s.
Proof.
  intros H. unfold str_slice.
  replace (k - i)%nat with ((j - i) + (k - j))%nat by lia.
  rewrite str_take_plus, str_drop_drop. do 2 f_equal. f_equal. lia.
Qed.

Lemma str_length_slice i j s :
  (i <= j <= String.length s)%nat -> String.length (str_slice i j s) = (j - i)%nat.
Proof. intros H. unfold str_slice. rewrite str_length_take, str_length_drop. lia. Qed.

Lemma last_index_bound s b : -1 <= last_index s b < Z.of_nat (String.length s).
Proof. induction s as [|c s IH]; cbn [last_index String.length]; [lia|]. destruct (Z.leb_spec 0 (last_index s b)), (rune c =? b); lia. Qed.
Lemma last_index_app s t b :
  last_index (s +:+ t) b = if 0 <=? last_index t b then Z.of_nat (String.length s) + last_index t b else last_index s b.
Proof.
  induction s as [|c s IH].
  - rewrite str_app_nil_l. cbn. pose proof (last_index_bound t b). destruct (Z.leb_spec 0 (last_index t b)); lia.
  - rewrite str_app_cons. cbn [last_index String.length]. rewrite IH.
    destruct (Z.leb_spec 0 (last_index t b)); [|done]. rewrite (proj2 (Z.leb_le 0 _)) by lia. lia.
Qed.
Lemma str_drop_length_app s t : str_drop (String.length s) (s +:+ t) = t.
Proof. induction s as [|c s IH]; [done|]. rewrite str_app_cons. apply IH. Qed.

Lemma str_take_length_app s t : str_take (String.length s) (s +:+ t) = s.
Proof. induction s as [|c s IH]; [by destruct t|]. rewrite str_app_cons. simpl. by rewrite IH. Qed.

Lemma str_forall_app p s t : str_forall p (s +:+ t) = str_forall p s && str_forall p t.
Proof. induction s as [|c s IH]; [done|]. rewrite str_app_cons. simpl. by rewrite IH, andb_assoc. Qed.

Lemma contains_byte_app s t b : contains_byte (s +:+ t) b = contains_byte s b || contains_byte t b.
Proof. induction s as [|c s IH]; [done|]. rewrite str_app_cons. simpl. by rewrite IH, orb_assoc. Qed.

Lemma contains_byte_forall s b : contains_byte s b = negb (str_forall (fun c => negb (c =? b)) s).
Proof. induction s as [|c s IH]; [done|]. simpl. rewrite IH. by destruct (rune c =? b). Qed.

#[export] Hint Rewrite str_app_cons str_app_nil_l str_app_nil_r str_app_assoc
  str_length_app str_forall_app contains_byte_app : str.

(** * UTF-8: every decoded sequence is the encoding of its rune *)

(** The width of a rune read from a non-empty string is between 1 and 4 and
    within the string. *)
Lemma decode_width c s r w :
  DecodeRuneInString (String c s) = (r, w) -> (1 <= w <= S (String.length s))%nat.
Proof.
  unfold DecodeRuneInString. intros H.
  destruct (rune c <? RuneSelf); [injection H as <- <-; simpl; lia|].
  destruct (utf8_lead (rune c)) as [[[n lo] hi]|]; [|injection H as <- <-; simpl; lia].
  destruct n as [|[|[|[|[|n]]]]]; destruct s as [|c1 [|c2 [|c3 s]]];
    repeat case_match; simplify_eq; simpl; lia.
Qed.

Lemma is_cont_spec b : is_cont b = true <-> 0x80 <= b <= 0xBF.
Proof. unfold is_cont. rewrite andb_true_iff, !Z.leb_le. lia. Qed.

Lemma in_range_spec b lo hi : in_range b lo hi = true <-> lo <= b <= hi.
Proof. unfold in_range. rewrite andb_true_iff, !Z.leb_le. lia. Qed.

(** What the table of lead bytes says, as arithmetic. *)
Lemma utf8_lead_spec b n lo hi :
  utf8_lead b = Some (n, lo, hi) ->
  0x80 <= lo /\ hi <= 0xBF /\
  ((n = 2%nat /\ 0xC2 <= b <= 0xDF) \/
   (n = 3%nat /\ 0xE0 <= b <= 0xEF /\ (b = 0xE0 -> lo = 0xA0) /\ (b = 0xED -> hi = 0x9F)) \/
   (n = 4%nat /\ 0xF0 <= b <= 0xF4 /\ (b = 0xF0 -> lo = 0x90) /\ (b = 0xF4 -> hi = 0x8F))).
Proof.
  unfold utf8_lead. intros H.
  repeat case_match; simplify_eq; bool_prop; lia.
Qed.

Ltac eval_cmp :=
  repeat match goal with
  | |- context [(?a <=? ?b)%Z] =>
    first [rewrite (proj2 (Z.leb_le a b)) by lia | rewrite (proj2 (Z.leb_gt a b)) by lia]
  | |- context [(?a <? ?b)%Z] =>
    first [rewrite (proj2 (Z.ltb_lt a b)) by lia | rewrite (proj2 (Z.ltb_ge a b)) by lia]
  | |- context [(?a =? ?b)%Z] =>
    first [rewrite (proj2 (Z.eqb_eq a b)) by lia | rewrite (proj2 (Z.eqb_neq a b)) by lia]
  end; cbn [andb orb negb].

(** Evaluates the comparisons of closed numbers and character literals. *)
Ltac eval_closed_in b :=
  let v := eval vm_compute in b in
  lazymatch v with true => change b with true | false => change b with false end.
Ltac eval_runes :=
  repeat match goal with
  | |- context [(?a =? ?b)%Z] => eval_closed_in (a =? b)%Z; cbn [andb orb negb]
  | |- context [(?a <=? ?b)%Z] => eval_closed_in (a <=? b)%Z; cbn [andb orb negb]
  | |- context [(?a <? ?b)%Z] => eval_closed_in (a <? b)%Z; cbn [andb orb negb]
  end.

(** Replaces character literals by their codes. *)
Ltac dischars :=
  repeat match goal with
  | |- context [rune ?c] => let v := eval vm_compute in (rune c) in
      lazymatch v with Zpos _ => change (rune c) with v | Z0 => change (rune c) with v end
  | H : context [rune ?c] |- _ => let v := eval vm_compute in (rune c) in
      lazymatch v with Zpos _ => change (rune c) with v in H | Z0 => change (rune c) with v in H end
  end.

Lemma str_of_bytes_runes cs :
  str_of_bytes (map rune cs) = foldr String EmptyString cs.
Proof. unfold str_of_bytes. induction cs as [|c cs IH]; [done|]. cbn. by rewrite byte_of_rune, IH. Qed.

Ltac divlia := Z.to_euclidean_division_equations; lia.

Lemma EncodeRune_1 r : 0 <= r <= 0x7F -> EncodeRune r = str_of_bytes [r].
Proof. intros. unfold EncodeRune. by eval_cmp. Qed.

Lemma EncodeRune_2 r :
  0x80 <= r <= 0x7FF -> EncodeRune r = str_of_bytes [0xC0 + r / 64; 0x80 + r `mod` 64].
Proof. intros. unfold EncodeRune. by eval_cmp. Qed.

Lemma EncodeRune_3 r :
  0x800 <= r <= 0xFFFF -> ~ (0xD800 <= r <= 0xDFFF) ->
  EncodeRune r = str_of_bytes [0xE0 + r / 4096; 0x80 + (r / 64) `mod` 64; 0x80 + r `mod` 64].
Proof.
  intros. unfold EncodeRune, MaxRune.
  assert ((0xD800 <=? r) && (r <=? 0xDFFF) = false) as -> by (apply not_true_iff_false; intros ?; bool_prop; lia).
  by eval_cmp.
Qed.

Lemma EncodeRune_4 r :
  0x10000 <= r <= MaxRune ->
  EncodeRune r = str_of_bytes [0xF0 + r / 262144; 0x80 + (r / 4096) `mod` 64;
                               0x80 + (r / 64) `mod` 64; 0x80 + r `mod` 64].
Proof. unfold EncodeRune, MaxRune. intros. by eval_cmp. Qed.

(** A sequence that decodes is the encoding of the decoded rune, unless the
    decoder reported an invalid byte. *)
Lemma encode_decode c s r w :
  DecodeRuneInString (String c s) = (r, w) ->
  (w <> 1%nat \/ r <> RuneError) ->
  EncodeRune r = str_take w (String c s) /\ 0 <= r <= MaxRune /\ ~ (0xD800 <= r <= 0xDFFF).
Proof.
  pose proof (rune_range c) as Hc. unfold DecodeRuneInString, RuneSelf. intros H Hok.
  destruct (rune c <? 0x80) eqn:E0; bool_prop.
  { simplify_eq. unfold MaxRune. split; [|lia]. rewrite EncodeRune_1 by lia. cbn. by rewrite byte_of_rune. }
  destruct (utf8_lead (rune c)) as [[[n lo] hi]|] eqn:Elead; [|simplify_eq; by destruct Hok].
  apply utf8_lead_spec in Elead as (Hlo & Hhi & [[-> Hb]|[(-> & Hb & H1 & H2)|(-> & Hb & H1 & H2)]]);
    destruct s as [|c1 [|c2 [|c3 s]]]; simplify_eq; try (by destruct Hok);
    repeat case_match; simplify_eq; try (by destruct Hok); bool_prop;
    repeat match goal with
    | H : in_range _ _ _ = true |- _ => apply in_range_spec in H
    | H : is_cont _ = true |- _ => apply is_cont_spec in H end;
    cbn [str_take]; clear Hok; (split; [|unfold MaxRune; lia]);
    first [rewrite EncodeRune_2 by lia | rewrite EncodeRune_3 by lia
          | rewrite EncodeRune_4 by (unfold MaxRune; lia)];
    match goal with
    | |- _ = String ?a (String ?b "") => etrans; [|apply (str_of_bytes_runes [a; b])]
    | |- _ = String ?a (String ?b (String ?d "")) => etrans; [|apply (str_of_bytes_runes [a; b; d])]
    | |- _ = String ?a (String ?b (String ?d (String ?e ""))) =>
      etrans; [|apply (str_of_bytes_runes [a; b; d; e])]
    end; cbn [map]; repeat f_equal; divlia.
Qed.

(** An encoded rune decodes to itself whatever follows it. *)
Lemma decode_encode r t :
  0 <= r <= MaxRune -> ~ (0xD800 <= r <= 0xDFFF) ->
  DecodeRuneInString (EncodeRune r +:+ t) = (r, String.length (EncodeRune r)).
Proof.
  intros Hr Hs.
  assert (r <= 0x7F \/ 0x80 <= r <= 0x7FF \/ 0x800 <= r <= 0xFFFF \/ 0x10000 <= r) as [?|[?|[?|?]]] by lia;
  [rewrite EncodeRune_1 by lia | rewrite EncodeRune_2 by lia | rewrite EncodeRune_3 by lia | rewrite EncodeRune_4 by lia];
  unfold str_of_bytes; cbn [foldr]; autorewrite with str; unfold DecodeRuneInString, utf8_lead, in_range, is_cont, RuneSelf;
  cbn [String.length]; rewrite !rune_byte_of by (unfold MaxRune in *; divlia).
  - by eval_cmp.
  - unfold MaxRune in *. assert (0xC2 <= 0xC0 + r / 64 <= 0xDF) by divlia.
    assert (0x80 <= 0x80 + r `mod` 64 <= 0xBF) by divlia. do 2 eval_cmp. f_equal. divlia.
  - assert (0xE0 <= 0xE0 + r / 4096 <= 0xEF) by divlia.
    assert (0x80 <= 0x80 + r `mod` 64 <= 0xBF) by divlia.
    assert (0x80 <= 0x80 + (r / 64) `mod` 64 <= 0xBF) by divlia.
    repeat case_match; simplify_eq; bool_prop; first [f_equal; divlia | exfalso; divlia].
  - unfold MaxRune in *. assert (0xF0 <= 0xF0 + r / 262144 <= 0xF4) by divlia.
    assert (0x80 <= 0x80 + r `mod` 64 <= 0xBF) by divlia.
    assert (0x80 <= 0x80 + (r / 64) `mod` 64 <= 0xBF) by divlia.
    assert (0x80 <= 0x80 + (r / 4096) `mod` 64 <= 0xBF) by divlia.
    repeat case_match; simplify_eq; bool_prop; first [f_equal; divlia | exfalso; divlia].
Qed.

Lemma contains_byte_cons c s b : contains_byte (String c s) b = (rune c =? b) || contains_byte s b.
Proof. done. Qed.

(** The encoding of a rune outside ASCII holds no ASCII byte. *)
Lemma EncodeRune_high r b :
  0x80 <= r <= MaxRune -> ~ (0xD800 <= r <= 0xDFFF) -> b < 0x80 ->
  contains_byte (EncodeRune r) b = false.
Proof.
  unfold MaxRune. intros Hr Hs Hb.
  assert (r <= 0x7FF \/ 0x800 <= r <= 0xFFFF \/ 0x10000 <= r) as [?|[?|?]] by lia;
  [rewrite EncodeRune_2 by lia | rewrite EncodeRune_3 by lia | rewrite EncodeRune_4 by (unfold MaxRune; lia)];
  unfold str_of_bytes; cbn [foldr]; rewrite !contains_byte_cons, !rune_byte_of by divlia;
  cbn [contains_byte]; rewrite !(fun z => proj2 (Z.eqb_neq z b)) by divlia; done.
Qed.

(** Strings that agree up to the first occurrence of a byte. *)
Lemma split_at_byte (x : ascii) (a b c d : string) :
  contains_byte a (rune x) = false -> contains_byte b (rune x) = false ->
  a +:+ String x c = b +:+ String x d -> a = b /\ c = d.
Proof.
  revert b. induction a as [|y a IH]; intros [|z b]; cbn [String.append]; rewrite ?contains_byte_cons.
  - intros _ _ [= ->]. done.
  - intros _ H [= <- _]. by rewrite Z.eqb_refl in H.
  - intros H _ [= -> _]. by rewrite Z.eqb_refl in H.
  - intros [_ H1]%orb_false_iff [_ H2]%orb_false_iff [= <- E]. by destruct (IH b H1 H2 E) as [-> ->].
Qed.
