(* ===== verification/GoFmt.v ===== *)
(** The parts of strconv and fmt that the modelled code uses: quoting
    ([strconv.Quote], [%q], [%#U]), decimal formatting and integer parsing. *)

From S2P Require Import Prelude GoString.

(** * Quoting *)

(** The tables of the unicode package that decide whether a rune above
    Latin-1 is printable are data generated by the Go project, not code of
    this repository: they are a parameter. *)
Class UnicodeTables := { is_print_high : Z -> bool }.

Section quote.
Context `{UnicodeTables}.

(** [strconv.IsPrint] *)
Definition IsPrint (r : Z) : bool :=
  if r <=? 0xFF then
    ((0x20 <=? r) && (r <=? 0x7E)) || ((0xA1 <=? r) && (r <=? 0xFF) && negb (r =? 0xAD))
  else is_print_high r.

(** The digits of [lowerhex]. *)
Definition hex_digit (d : Z) : Z := if d <? 10 then rune "0" + d else rune "a" + d - 10.

(** [n] hexadecimal digits of [r], most significant first. *)
Fixpoint hex_digits (n : nat) (r : Z) : string :=
  match n with
  | O => ""
  | S n' => String (byte_of (hex_digit ((r / 16 ^ Z.of_nat n') `mod` 16))) (hex_digits n' r)
  end.

(** [strconv.appendEscapedRune], with [ASCIIonly] and [graphicOnly] false. *)
Definition escaped_rune (r quote : Z) : string :=
  if (r =? quote) || (r =? rune "\") then str_of_bytes [rune "\"; r]
  else if IsPrint r then EncodeRune r
  else if r =? 7 then "\a" else if r =? 8 then "\b" else if r =? 12 then "\f"
  else if r =? 10 then "\n" else if r =? 13 then "\r" else if r =? 9 then "\t"
  else if r =? 11 then "\v"
  else if r <? 0x20 then "\x" +:+ hex_digits 2 r
  else if MaxRune <? r then "\u" +:+ hex_digits 4 0xFFFD
  else if r <? 0x10000 then "\u" +:+ hex_digits 4 r
  else "\U" +:+ hex_digits 8 r.

(** One iteration of the loop of [appendQuotedWith]: the text emitted for the
    first rune of [c s] and the number of bytes consumed. *)
Definition quote_step (c : ascii) (s : string) (quote : Z) : string * nat :=
  let (r, width) := if rune c <? RuneSelf then (rune c, 1%nat)
                    else DecodeRuneInString (String c s) in
  if (width =? 1)%nat && (r =? RuneError) then ("\x" +:+ hex_digits 2 (rune c), 1%nat)
  else (escaped_rune r quote, width).

Fixpoint quote_body (fuel : nat) (s : string) (quote : Z) : string :=
  match fuel, s with
  | _, EmptyString => ""
  | O, _ => ""
  | S fuel', String c s' =>
    let (out, width) := quote_step c s' quote in
    out +:+ quote_body fuel' (str_drop width s) quote
  end.

Definition quote_with (q : ascii) (s : string) : string :=
  String q (quote_body (String.length s) s (rune q) +:+ String q "").

(** [strconv.Quote], also [fmt]'s [%q] of a string. *)
Definition Quote (s : string) : string := quote_with "034" s.

(** [%q] of a rune: values above [MaxRune], and negative ones seen as
    unsigned, print as [RuneError]. *)
Definition fmt_q_rune (r : Z) : string :=
  let r := if (r <? 0) || (MaxRune <? r) then RuneError else r in
  "'" +:+ escaped_rune r (rune "'") +:+ "'".

(** The first [n] runes of a string, as [%.nq] takes them. *)
Fixpoint take_runes (n : nat) (s : string) : string :=
  match n with
  | O => ""
  | S n' => let w := snd (DecodeRuneInString s) in str_take w s +:+ take_runes n' (str_drop w s)
  end.

Definition fmt_q_prec (n : nat) (s : string) : string := Quote (take_runes n s).

End quote.

(** * Decimal formatting *)

Definition digit (d : Z) : ascii := byte_of (rune "0" + d).

(** The decimal digits of [z], [fuel] at most. *)
Fixpoint itoa_pos (fuel : nat) (z : Z) (acc : string) : string :=
  match fuel with
  | O => acc
  | S f => let acc' := String (digit (z `mod` 10)) acc in
           if z <? 10 then acc' else itoa_pos f (z / 10) acc'
  end.

(** [strconv.Itoa] / [%d]: a number below [2^n] has at most [n] digits. *)
Definition Itoa (z : Z) : string :=
  let f := S (Z.to_nat (Z.log2 (Z.abs z))) in
  if z <? 0 then String "-" (itoa_pos f (- z) "") else itoa_pos f z "".

(** [%#U] of a rune: [U+XXXX] in upper case, at least four digits, with the
    character itself when it is printable. *)
Definition hex_upper (d : Z) : Z := if d <? 10 then rune "0" + d else rune "A" + d - 10.
Fixpoint hex_digits_upper (n : nat) (r : Z) : string :=
  match n with
  | O => ""
  | S n' => String (byte_of (hex_upper ((r / 16 ^ Z.of_nat n') `mod` 16))) (hex_digits_upper n' r)
  end.
Definition fmt_U `{UnicodeTables} (r : Z) : string :=
  let u := if r <? 0 then u64 r else r in
  let n := Nat.max 4 (S (Z.to_nat (Z.log2 u / 4))) in
  "U+" +:+ hex_digits_upper n u +:+
  (if (u <=? MaxRune) && IsPrint u then " '" +:+ EncodeRune u +:+ "'" else "").

(** * Parsing of integers *)

Definition digit_val (c : ascii) : option Z :=
  let r := rune c in
  if (rune "0" <=? r) && (r <=? rune "9") then Some (r - rune "0")
  else if (rune "a" <=? r) && (r <=? rune "z") then Some (r - rune "a" + 10)
  else if (rune "A" <=? r) && (r <=? rune "Z") then Some (r - rune "A" + 10)
  else None.

Inductive num_error := ErrSyntax_num | ErrRange.
#[export] Instance num_error_eq_dec : EqDecision num_error.
Proof. solve_decision. Defined.

(** [strconv.NumError.Error] *)
Definition num_error_msg `{UnicodeTables} (fn s : string) (e : num_error) : string :=
  "strconv." +:+ fn +:+ ": parsing " +:+ Quote s +:+ ": " +:+
  match e with ErrSyntax_num => "invalid syntax" | ErrRange => "value out of range" end.

(** The loop of [ParseUint] with [bitSize] 64: the digits of a base, up to the
    first one that is out of place or that overflows. *)
Fixpoint parse_digits (base : Z) (s : string) (acc : Z) : result num_error Z :=
  match s with
  | EmptyString => Ok acc
  | String c s' =>
    match digit_val c with
    | None => Err ErrSyntax_num
    | Some d => if negb (d <? base) then Err ErrSyntax_num
                else if acc * base + d <? 2 ^ 64 then parse_digits base s' (acc * base + d)
                else Err ErrRange
    end
  end.

(** [strconv.ParseUint(s, 10, 64)] *)
Definition ParseUint10 (s : string) : result num_error Z :=
  match s with
  | EmptyString => Err ErrSyntax_num
  | _ => parse_digits 10 s 0
  end.

(** [strconv.ParseUint(s, 0, 64)]: the base is chosen by the prefix. *)
Definition ParseUint0 (s : string) : result num_error Z :=
  match s with
  | EmptyString => Err ErrSyntax_num
  | String c0 s1 =>
    if rune c0 =? rune "0" then
      match s1 with
      | String c1 s2 =>
        if (rune c1 =? rune "x") || (rune c1 =? rune "X") then
          match s2 with EmptyString => Err ErrSyntax_num | _ => parse_digits 16 s2 0 end
        else parse_digits 8 s1 0
      | EmptyString => Ok 0
      end
    else parse_digits 10 s 0
  end.

(** [strconv.ParseInt(s, 0, 64)] of an unsigned literal: the tokens the lexer
    produces carry no sign. *)
Definition ParseInt0 (s : string) : result num_error Z :=
  match ParseUint0 s with
  | Err e => Err e
  | Ok v => if v <? 2 ^ 63 then Ok v else Err ErrRange
  end.

(** [strconv.Atoi] of an unsigned literal; on a range error the value is the
    largest [int]. *)
Definition Atoi (s : string) : Z * option num_error :=
  match ParseUint10 s with
  | Ok v => if v <? 2 ^ 63 then (v, None) else (max_int64, Some ErrRange)
  | Err ErrRange => (max_int64, Some ErrRange)
  | Err e => (0, Some e)
  end.
