(* ===== verification/Float.v ===== *)
(** float64 values: the IEEE 754 arithmetic of the Standard Library's
    [SpecFloat] at the binary64 format, the staleness marker of pkg/value, and
    strconv's reading and shortest printing of floats. *)

From S2P Require Import Prelude GoString GoFmt.
From Stdlib Require Export Floats.SpecFloat.

(** * Values *)

Definition prec64 : Z := 53.
Definition emax64 : Z := 1024.

(** A float64, with the one NaN whose bits the code looks at kept apart from
    the others: [StaleNaN], bits 0x7ff0000000000002. *)
Inductive float64 := Num (f : spec_float) | StaleNaN.

#[export] Instance spec_float_eq_dec : EqDecision spec_float.
Proof. solve_decision. Defined.
#[export] Instance float64_eq_dec : EqDecision float64.
Proof. solve_decision. Defined.

(** [value.IsStaleNaN]: equality of bit patterns. *)
Definition IsStaleNaN (v : float64) : bool :=
  match v with StaleNaN => true | Num _ => false end.

(** The number an arithmetic operation sees: a signalling NaN is a NaN. *)
Definition num (v : float64) : spec_float :=
  match v with Num f => f | StaleNaN => S754_nan end.

Definition NaN : float64 := Num S754_nan.
Definition Inf (neg : bool) : float64 := Num (S754_infinity neg).

Definition fadd (a b : float64) : float64 := Num (SFadd prec64 emax64 (num a) (num b)).
Definition fsub (a b : float64) : float64 := Num (SFsub prec64 emax64 (num a) (num b)).
Definition fmul (a b : float64) : float64 := Num (SFmul prec64 emax64 (num a) (num b)).
Definition fdiv (a b : float64) : float64 := Num (SFdiv prec64 emax64 (num a) (num b)).
Definition flt (a b : float64) : bool := SFltb (num a) (num b).
Definition fle (a b : float64) : bool := SFleb (num a) (num b).
Definition feq (a b : float64) : bool := SFeqb (num a) (num b).
Definition IsNaN (a : float64) : bool := match num a with S754_nan => true | _ => false end.

(** [float64(z)], rounded to nearest even. *)
Definition of_Z (z : Z) : float64 := Num (binary_normalize prec64 emax64 z 0 false).

(** The float64 nearest to [n / d], ties to even. *)
Definition of_frac (neg : bool) (n d : Z) : float64 :=
  if n =? 0 then Num (S754_zero neg)
  else let '(m, e, loc) := SFdiv_core_binary prec64 emax64 n 0 d 0 in
       Num (binary_round_aux prec64 emax64 neg m e loc).

(** [m * 10^e] *)
Definition of_decimal (neg : bool) (m e : Z) : float64 :=
  if 0 <=? e then of_frac neg (m * 10 ^ e) 1 else of_frac neg m (10 ^ (- e)).

(** * [strconv.ParseFloat(s, 64)] of an unsigned literal *)

(** The digits at the head of [s]: their value, their number, what follows. *)
Fixpoint read_digits (s : string) (acc : Z) (n : nat) : Z * nat * string :=
  match s with
  | String c s' =>
    if (rune "0" <=? rune c) && (rune c <=? rune "9")
    then read_digits s' (acc * 10 + (rune c - rune "0")) (S n)
    else (acc, n, s)
  | EmptyString => (acc, n, s)
  end.

(** The exponent's digits, with the code's guard against overflow. *)
Fixpoint read_exp (s : string) (e : Z) : Z * string :=
  match s with
  | String c s' =>
    if (rune "0" <=? rune c) && (rune c <=? rune "9")
    then read_exp s' (if e <? 10000 then e * 10 + (rune c - rune "0") else e)
    else (e, s)
  | EmptyString => (e, s)
  end.

(** [readFloat] and [decimal.set]: mantissa and exponent of the literal. *)
Definition read_decimal (s : string) : option (Z * Z) :=
  let '(m, n, s) := read_digits s 0 0 in
  let '(m, n, f, s) :=
    match s with
    | String c s' => if rune c =? rune "." then let '(m', n', s'') := read_digits s' m n in (m', n', (n' - n)%nat, s'')
                     else (m, n, O, s)
    | EmptyString => (m, n, O, s)
    end in
  if (n =? 0)%nat then None
  else match s with
       | EmptyString => Some (m, - Z.of_nat f)
       | String c s1 =>
         if (rune c =? rune "e") || (rune c =? rune "E") then
           let '(esign, s2) :=
             match s1 with
             | String c1 s2 => if rune c1 =? rune "+" then (1, s2)
                               else if rune c1 =? rune "-" then (-1, s2) else (1, s1)
             | EmptyString => (1, s1)
             end in
           match s2 with
           | String c2 _ =>
             if (rune "0" <=? rune c2) && (rune c2 <=? rune "9") then
               let '(e, s3) := read_exp s2 0 in
               match s3 with
               | EmptyString => Some (m, e * esign - Z.of_nat f)
               | _ => None
               end
             else None
           | EmptyString => None
           end
         else None
       end.

Definition ParseFloat (s : string) : result num_error float64 :=
  let l := ToLower s in
  if (l =? "inf")%string || (l =? "infinity")%string then Ok (Inf false)
  else if (l =? "nan")%string then Ok NaN
  else match read_decimal s with
       | None => Err ErrSyntax_num
       | Some (m, e) =>
         match of_decimal false m e with
         | Num (S754_infinity _) => Err ErrRange
         | f => Ok f
         end
       end.

(** [strconv.ParseFloat(s, 64)] in full: a sign may precede the number or the
    infinity, but not [nan]. *)
Definition fneg (a : float64) : float64 := Num (SFopp (num a)).

Definition ParseFloat_signed (s : string) : result num_error float64 :=
  match s with
  | String c s' =>
    if (rune c =? rune "+") || (rune c =? rune "-") then
      if (ToLower s' =? "nan")%string then Err ErrSyntax_num
      else match ParseFloat s' with
           | Ok f => Ok (if rune c =? rune "-" then fneg f else f)
           | Err e => Err e
           end
    else ParseFloat s
  | EmptyString => ParseFloat s
  end.

(** * [strconv.FormatFloat(f, 'g', -1, 64)], which [fmt.Sprint] uses *)

(** The number of decimal digits of [z > 0]. *)
Definition ndigits (z : Z) : Z := Z.of_nat (String.length (Itoa z)).

(** The shortest decimal that reads back as [f = n/d]: for a growing number of
    digits, the truncation and its successor are tried, and the nearer one is
    taken when both read back.  [dp] is the position of the decimal point.
    17 digits always suffice. *)
Fixpoint shortest (fuel : nat) (k : Z) (f : float64) (n d dp : Z) : Z * Z :=
  (* scale so that the truncation has [k] digits *)
  let p := dp - k in
  let '(n', d') := if 0 <=? p then (n, d * 10 ^ p) else (n * 10 ^ (- p), d) in
  let down := n' / d' in
  let okdown := bool_decide (of_decimal false down p = f) in
  let okup := bool_decide (of_decimal false (down + 1) p = f) in
  let nearer := if 2 * (n' mod d') <? d' then down
                else if d' <? 2 * (n' mod d') then down + 1
                else if Z.even down then down else down + 1 in
  match fuel with
  | O => (down, p)
  | S fuel' =>
    if okdown && okup then (nearer, p)
    else if okdown then (down, p)
    else if okup then (down + 1, p)
    else shortest fuel' (k + 1) f n d dp
  end.

(** Drops the trailing zeros a carry leaves. *)
Fixpoint strip_zeros (fuel : nat) (m e : Z) : Z * Z :=
  match fuel with
  | O => (m, e)
  | S fuel' => if (m =? 0) || negb (m mod 10 =? 0) then (m, e) else strip_zeros fuel' (m / 10) (e + 1)
  end.

Definition zeros (n : nat) : string := str_of_bytes (repeat (rune "0") n).

(** [%e] and [%f] of the digits [m] with exponent [e]. *)
Definition fmt_e (m e : Z) : string :=
  let ds := Itoa m in
  let x := e + Z.of_nat (String.length ds) - 1 in
  let frac := str_drop 1 ds in
  str_take 1 ds +:+ (if (String.length frac =? 0)%nat then "" else "." +:+ frac) +:+
  (if x <? 0 then "e-" else "e+") +:+ (if Z.abs x <? 10 then "0" else "") +:+ Itoa (Z.abs x).

Definition fmt_f (m e : Z) : string :=
  let ds := Itoa m in
  let dp := e + Z.of_nat (String.length ds) in
  if 0 <=? e then ds +:+ zeros (Z.to_nat e)
  else if 0 <? dp then str_take (Z.to_nat dp) ds +:+ "." +:+ str_drop (Z.to_nat dp) ds
  else "0." +:+ zeros (Z.to_nat (- dp)) +:+ ds.

(** The shortest digits of [m * 2^e], without trailing zeros, and their
    exponent. *)
Definition shortest_digits (m e : Z) : Z * Z :=
  let (n, d) := if 0 <=? e then (m * 2 ^ e, 1) else (m, 2 ^ (- e)) in
  (* the exact power of ten just above n/d *)
  let dp := if d <=? n then ndigits (n / d)
            else let g := - ndigits (d / n) in if n * 10 ^ (- g) <? d then g else g + 1 in
  let (ds, x) := shortest 17 1 (Num (S754_finite false (Z.to_pos m) e)) n d dp in
  strip_zeros 20 ds x.

Definition format_finite (m e : Z) : string :=
  let (ds, x) := shortest_digits m e in
  let nd := ndigits ds in
  let exp := x + nd - 1 in
  if (exp <? -4) || (6 <=? exp) then fmt_e ds x else fmt_f ds x.

(** [FormatFloat] given the format of the finite numbers. *)
Definition format_with (finite : Z -> Z -> string) (v : float64) : string :=
  match num v with
  | S754_nan => "NaN"
  | S754_infinity false => "+Inf"
  | S754_infinity true => "-Inf"
  | S754_zero s => (if s then "-" else "") +:+ finite 0 0
  | S754_finite s m e => (if s then "-" else "") +:+ finite (Z.pos m) e
  end.

(** [strconv.FormatFloat(v, 'f', -1, 64)] *)
Definition FormatFloat_f (v : float64) : string :=
  format_with (fun m e => if m =? 0 then "0" else let (ds, x) := shortest_digits m e in fmt_f ds x) v.

(** [fmt]'s [%f]: six decimals, rounded to nearest even. *)
Definition Sprintf_f (v : float64) : string :=
  format_with (fun m e =>
    let (n, d) := if 0 <=? e then (m * 2 ^ e * 10 ^ 6, 1) else (m * 10 ^ 6, 2 ^ (- e)) in
    let q := n / d in let r := 2 * (n mod d) in
    let q := if (d <? r) || ((r =? d) && Z.odd q) then q + 1 else q in
    let frac := Itoa (q mod 10 ^ 6) in
    Itoa (q / 10 ^ 6) +:+ "." +:+ zeros (6 - String.length frac) +:+ frac) v.

Definition Sprint_float (v : float64) : string :=
  match num v with
  | S754_nan => "NaN"
  | S754_infinity false => "+Inf"
  | S754_infinity true => "-Inf"
  | S754_zero s => if s then "-0" else "0"
  | S754_finite s m e => (if s then "-" else "") +:+ format_finite (Z.pos m) e
  end.

Example format_floats :
  (map FormatFloat_f [of_decimal true 15 (-1); of_decimal false 1 21; of_Z 0; NaN; Inf false],
   map Sprintf_f [of_decimal false 5 (-1); of_decimal true 12345678 (-7); of_Z 7]) =
  (["-1.5"; "1000000000000000000000"; "0"; "NaN"; "+Inf"], ["0.500000"; "-1.234568"; "7.000000"]).
Proof. vm_compute. reflexivity. Qed.

Section examples.
Definition reprint (s : string) : string :=
  match ParseFloat s with Ok f => Sprint_float f | Err _ => "error" end.

Example reprint_floats :
  map reprint ["0.1"; "123456789"; "100000"; "9007199254740993"; "5e-324"; "1e309"; "0.00012"; "Inf"; "1e"] =
  ["0.1"; "1.23456789e+08"; "100000"; "9.007199254740992e+15"; "5e-324"; "error"; "0.00012"; "+Inf"; "error"].
Proof. vm_compute. reflexivity. Qed.
End examples.
