(* ===== verification/GoMath.v ===== *)
(** The parts of Go's math package that the query engine uses, on the floats
    of [Float].  The functions defined by exact rounding or by comparisons are
    definitions; those whose last bit Go does not specify are parameters. *)

From S2P Require Import Prelude GoString GoFmt Float.

(** [math.Pow], [Exp], [Log], [Log2] and [Log10]: Go implements them in
    assembly on some platforms and promises no rounding. *)
Class MathLib := {
  math_Pow : float64 -> float64 -> float64;
  math_Exp : float64 -> float64;
  math_Log : float64 -> float64;
  math_Log2 : float64 -> float64;
  math_Log10 : float64 -> float64
}.

(** What converting a float that no [int64] represents gives is left to the
    implementation. *)
Class IntOverflow := { int_overflow : float64 -> Z }.

Definition is_zero (f : float64) : bool := match num f with S754_zero _ => true | _ => false end.
Definition Signbit (f : float64) : bool :=
  match num f with
  | S754_zero s | S754_infinity s => s
  | S754_finite s _ _ => s
  | S754_nan => false
  end.
(** [math.IsInf(f, sign)] for a positive and a negative [sign]. *)
Definition IsInf_pos (f : float64) : bool := match num f with S754_infinity false => true | _ => false end.
Definition IsInf_neg (f : float64) : bool := match num f with S754_infinity true => true | _ => false end.

Definition Abs (f : float64) : float64 := Num (SFabs (num f)).
Definition Sqrt (f : float64) : float64 := Num (SFsqrt prec64 emax64 (num f)).

(** * Rounding to integers *)

(** The integer below, and the one towards zero, of a finite number. *)
Definition floor (f : float64) : option Z :=
  match num f with
  | S754_zero _ => Some 0
  | S754_finite s m e =>
    let v := if s then Z.neg m else Z.pos m in
    Some (if 0 <=? e then v * 2 ^ e else v / 2 ^ (- e))
  | _ => None
  end.
Definition trunc (f : float64) : option Z :=
  match num f with
  | S754_zero _ => Some 0
  | S754_finite s m e =>
    let v := if s then Z.neg m else Z.pos m in
    Some (if 0 <=? e then v * 2 ^ e else Z.quot v (2 ^ (- e)))
  | _ => None
  end.

Definition Floor (f : float64) : float64 :=
  match num f, floor f with S754_finite _ _ _, Some z => of_Z z | _, _ => f end.
Definition Ceil (f : float64) : float64 := fneg (Floor (fneg f)).

(** [int64(f)] *)
Definition to_int64 `{IntOverflow} (f : float64) : Z :=
  match trunc f with
  | Some z => if (min_int64 <=? z) && (z <=? max_int64) then z else int_overflow f
  | None => int_overflow f
  end.

(** * [math.Max], [math.Min], [math.Mod] *)

Definition Max (x y : float64) : float64 :=
  if IsInf_pos x || IsInf_pos y then Inf false
  else if IsNaN x || IsNaN y then NaN
  else if is_zero x && feq x y then if Signbit x then y else x
  else if flt y x then x else y.

Definition Min (x y : float64) : float64 :=
  if IsInf_neg x || IsInf_neg y then Inf true
  else if IsNaN x || IsNaN y then NaN
  else if is_zero x && feq x y then if Signbit x then x else y
  else if flt x y then x else y.

(** The remainder is exact and has the sign of [x]. *)
Definition Mod (x y : float64) : float64 :=
  match num x, num y with
  | S754_nan, _ | _, S754_nan | S754_infinity _, _ | _, S754_zero _ => NaN
  | S754_zero _, _ | _, S754_infinity _ => x
  | S754_finite s m1 e1, S754_finite _ m2 e2 =>
    let e := Z.min e1 e2 in
    let r := (Z.pos m1 * 2 ^ (e1 - e)) mod (Z.pos m2 * 2 ^ (e2 - e)) in
    Num (binary_normalize prec64 emax64 (if s then - r else r) e s)
  end.

Example math_values :
  (Mod (of_Z (-7)) (of_Z 3), Mod (of_Z 7) (of_decimal false 25 (-1)), Mod (of_Z (-4)) (of_Z 2),
   Ceil (of_decimal true 5 (-1)), Floor (of_decimal true 5 (-1)), Max (of_Z 0) (fneg (of_Z 0)),
   Min NaN (Inf true), Sqrt (of_Z 9), trunc (of_decimal true 79 (-1))) =
  (of_Z (-1), of_Z 2, fneg (of_Z 0), fneg (of_Z 0), of_Z (-1), of_Z 0, Inf true, of_Z 3, Some (-7)).
Proof. vm_compute. reflexivity. Qed.

(** * Order *)

Lemma fle_flt_total a b : IsNaN a = false -> IsNaN b = false -> fle a b = negb (flt b a).
Proof.
  unfold fle, flt, SFleb, SFltb, IsNaN. intros A B.
  assert (S : SFcompare (num b) (num a) = option_map CompOpp (SFcompare (num a) (num b))).
  { destruct (num a) as [s|s| |s m e], (num b) as [s'|s'| |s' m' e']; try done; try destruct s; try destruct s'; try done;
      cbn; rewrite (Z.compare_antisym e e'); destruct (e ?= e'); cbn; try done;
      rewrite (Pos.compare_cont_antisym m m'); cbn; try done; by rewrite ?CompOpp_involutive. }
  rewrite S. destruct (SFcompare (num a) (num b)) as [[]|] eqn:E; try done.
  exfalso. destruct (num a) as [s|s| |s m e], (num b) as [s'|s'| |s' m' e']; try done; try destruct s; try destruct s'; try done;
    cbn in E; destruct (e ?= e'); done.
Qed.
