(* ===== verification/Duration.v ===== *)
(** The duration type of the common/model package
    (src/redis/redis_exporter/vendor/github.com/prometheus/common/model/time.go
    is the copy of it in the repository): its parser and printer, with the
    64-bit wrap-around of [time.Duration]. *)

From S2P Require Import Prelude GoString GoFmt.

(** Nanoseconds, an [int64]. *)
Notation Duration := Z (only parsing).

Definition Millisecond : Z := 1000000.
Definition Second : Z := 1000 * Millisecond.
Definition Minute : Z := 60 * Second.

Definition is_digit (r : Z) : bool := (rune "0" <=? r) && (r <=? rune "9").

(** The groups of [durationRE], ^([0-9]+)(y|w|d|h|m|s|ms)$: the longest run of
    digits, and the unit. *)
Fixpoint split_digits (s : string) : string * string :=
  match s with
  | String c s' => if is_digit (rune c) then let (d, r) := split_digits s' in (String c d, r)
                   else ("", s)
  | EmptyString => ("", "")
  end.

(** The factor, in milliseconds, of each unit. *)
Definition unit_factors : list (string * Z) :=
  [("y", 1000 * 60 * 60 * 24 * 365); ("w", 1000 * 60 * 60 * 24 * 7); ("d", 1000 * 60 * 60 * 24);
   ("h", 1000 * 60 * 60); ("m", 1000 * 60); ("s", 1000); ("ms", 1)].

Fixpoint unit_factor (u : string) (l : list (string * Z)) : option Z :=
  match l with
  | [] => None
  | (x, f) :: l' => if (x =? u)%string then Some f else unit_factor u l'
  end.

Definition durationRE (s : string) : option (string * string * Z) :=
  let (ds, u) := split_digits s in
  match ds, unit_factor u unit_factors with
  | String _ _, Some f => Some (ds, u, f)
  | _, _ => None
  end.

(** [ParseDuration]: the error of [Atoi] is dropped, so a number out of range
    counts as the largest [int], and the products wrap. *)
Definition ParseDuration `{UnicodeTables} (s : string) : result string Duration :=
  match durationRE s with
  | None => Err ("not a valid duration string: " +:+ Quote s)
  | Some (ds, _, f) => let n := fst (Atoi ds) in Ok (i64 (i64 (n * Millisecond) * f))
  end.

(** The first unit of the [switch] that divides the milliseconds. *)
Fixpoint pick_unit (ms : Z) (l : list (string * Z)) : string * Z :=
  match l with
  | [] => ("ms", 1)
  | (u, f) :: l' => if Z.rem ms f =? 0 then (u, f) else pick_unit ms l'
  end.

Definition Duration_String (d : Duration) : string :=
  let ms := Z.quot d Millisecond in
  let (u, f) := pick_unit ms unit_factors in
  Itoa (Z.quot ms f) +:+ u.

(** * Printing and reading back *)

Lemma digit_val_digit d : 0 <= d < 10 -> digit_val (digit d) = Some d.
Proof.
  intros. unfold digit_val, digit. dischars. rewrite rune_byte_of by lia.
  eval_cmp. f_equal. lia.
Qed.

Lemma digit_is_digit d : 0 <= d < 10 -> is_digit (rune (digit d)) = true.
Proof.
  intros. unfold is_digit, digit. dischars. rewrite rune_byte_of by lia.
  by eval_cmp.
Qed.

Lemma itoa_pos_parse f z acc :
  0 <= z < 10 ^ Z.of_nat f -> z < 2 ^ 64 ->
  parse_digits 10 (itoa_pos f z acc) 0 = parse_digits 10 acc z.
Proof.
  revert z acc. induction f as [|f IH]; intros z acc Hz Hb.
  - change (10 ^ Z.of_nat 0) with 1 in Hz. assert (z = 0) as -> by lia. done.
  - rewrite Nat2Z.inj_succ, Z.pow_succ_r in Hz by lia. cbn [itoa_pos].
    pose proof (Z.mod_pos_bound z 10 ltac:(lia)). pose proof (Z.div_mod z 10 ltac:(lia)).
    assert (S : forall a, a = z / 10 -> parse_digits 10 (String (digit (z mod 10)) acc) a = parse_digits 10 acc z).
    { intros a ->. cbn [parse_digits]. rewrite digit_val_digit by lia.
      replace (z / 10 * 10 + z mod 10) with z by lia.
      by rewrite (proj2 (Z.ltb_lt (z mod 10) 10)), (proj2 (Z.ltb_lt z (2 ^ 64))) by lia. }
    destruct (Z.ltb_spec z 10).
    + apply S. rewrite Z.div_small; lia.
    + rewrite IH; [by apply S| |]; [split; [apply Z.div_pos; lia|apply Z.div_lt_upper_bound; lia]|].
      apply Z.div_lt_upper_bound; lia.
Qed.

Lemma itoa_pos_digits f z acc :
  0 <= z -> str_forall is_digit acc = true -> str_forall is_digit (itoa_pos f z acc) = true.
Proof.
  revert z acc. induction f as [|f IH]; intros z acc Hz Ha; [done|]. cbn [itoa_pos].
  pose proof (Z.mod_pos_bound z 10 ltac:(lia)).
  assert (str_forall is_digit (String (digit (z mod 10)) acc) = true)
    by (cbn [str_forall]; by rewrite digit_is_digit, Ha by lia).
  destruct (z <? 10); [done|]. apply IH; [apply Z.div_pos; lia|done].
Qed.

Lemma itoa_pos_nonempty f z acc : exists c s, itoa_pos (S f) z acc = String c s.
Proof.
  revert z acc. induction f as [|f IH]; intros z acc.
  - cbn [itoa_pos]. case_if; eauto.
  - cbn [itoa_pos] in IH |- *. destruct (z <? 10); [eauto|]. apply IH.
Qed.

Lemma Itoa_nonneg z : 0 <= z -> Itoa z = itoa_pos (S (Z.to_nat (Z.log2 z))) z "".
Proof. intros. unfold Itoa. rewrite (proj2 (Z.ltb_ge z 0)), Z.abs_eq by lia. done. Qed.

Lemma Itoa_parse z : 0 <= z < 2 ^ 64 -> ParseUint10 (Itoa z) = Ok z.
Proof.
  intros Hz. rewrite Itoa_nonneg by lia.
  destruct (itoa_pos_nonempty (Z.to_nat (Z.log2 z)) z "") as (c & s & E).
  unfold ParseUint10. rewrite E, <- E. rewrite itoa_pos_parse; [done| |lia].
  split; [lia|]. rewrite Nat2Z.inj_succ, Z2Nat.id by apply Z.log2_nonneg.
  destruct (Z.eq_dec z 0) as [->|]; [done|].
  pose proof (Z.log2_spec z ltac:(lia)) as [_ L]. pose proof (Z.log2_nonneg z).
  eapply Z.lt_le_trans; [exact L|]. apply Z.pow_le_mono_l. lia.
Qed.

Lemma split_digits_app ds c u :
  str_forall is_digit ds = true -> is_digit (rune c) = false ->
  split_digits (ds +:+ String c u) = (ds, String c u).
Proof.
  intros D C. induction ds as [|x ds IH].
  - change ("" +:+ String c u) with (String c u). cbn [split_digits]. by rewrite C.
  - rewrite str_app_cons. cbn [split_digits]. cbn [str_forall] in D. apply andb_true_iff in D as [D1 D2]. by rewrite D1, IH.
Qed.

Lemma unit_factors_digits : Forall (fun p => match p.1 with
  | String c _ => is_digit (rune c) = false | EmptyString => False end) unit_factors.
Proof. repeat constructor. Qed.

Lemma pick_unit_spec ms l u f :
  pick_unit ms (l ++ [("ms", 1)]) = (u, f) -> In (u, f) (l ++ [("ms", 1)]) /\ Z.rem ms f = 0.
Proof.
  induction l as [|[v g] l IH]; cbn.
  - rewrite Z.rem_1_r. cbn. intros [= <- <-]. auto using Z.rem_1_r.
  - destruct (Z.eqb_spec (Z.rem ms g) 0); [intros [= <- <-]; auto|]. naive_solver.
Qed.

Lemma unit_factor_in u f : In (u, f) unit_factors -> unit_factor u unit_factors = Some f.
Proof.
  intros H. repeat (destruct H as [[= <- <-]|H]; [reflexivity|]). destruct H.
Qed.

Lemma unit_factors_pos u f : In (u, f) unit_factors -> 0 < f.
Proof. intros H. repeat (destruct H as [[= <- <-]|H]; [lia|]). destruct H. Qed.

(** [ParseDuration] reads back what [Duration.String] prints, for every
    non-negative duration that is a whole number of milliseconds. *)
Theorem ParseDuration_String `{UnicodeTables} (ms : Z)
  (Hms : 0 <= ms * Millisecond <= max_int64) :
  ParseDuration (Duration_String (ms * Millisecond)) = Ok (ms * Millisecond).
Proof.
  assert (M : 0 < Millisecond) by done.
  unfold Duration_String. rewrite Z.quot_mul by lia.
  destruct (pick_unit ms unit_factors) as [u f] eqn:E.
  apply (pick_unit_spec ms (take 6 unit_factors)) in E as [I R].
  change (take 6 unit_factors ++ _) with unit_factors in I.
  pose proof (unit_factors_pos _ _ I) as F.
  pose proof (proj1 (List.Forall_forall _ _) unit_factors_digits _ I) as U.
  cbn [fst] in U. destruct u as [|c u]; [done|].
  set (n := Z.quot ms f). assert (ms = n * f) as Hn.
  { unfold n. pose proof (Z.quot_rem' ms f). lia. }
  unfold max_int64 in Hms.
  assert (N : 0 <= n * Millisecond <= max_int64) by (unfold max_int64; nia).
  assert (0 <= n) by nia. unfold max_int64 in N.
  unfold ParseDuration, durationRE.
  pose proof (Itoa_nonneg n ltac:(lia)) as I1.
  rewrite split_digits_app; [|rewrite I1; by apply itoa_pos_digits|done].
  rewrite (unit_factor_in _ _ I).
  destruct (itoa_pos_nonempty (Z.to_nat (Z.log2 n)) n "") as (d & s & I2).
  rewrite I1, I2, <- I2, <- I1. unfold Atoi. unfold Millisecond in *.
  rewrite Itoa_parse by lia. rewrite (proj2 (Z.ltb_lt n (2 ^ 63))) by lia. cbn [fst].
  rewrite (i64_id (n * _)) by (unfold min_int64, max_int64; lia).
  rewrite i64_id by (unfold min_int64, max_int64; nia). f_equal. nia.
Qed.

Lemma ParseDuration_String_witness :
  let _ := {| is_print_high _ := true |} in
  ParseDuration (Duration_String (5400000 * Millisecond)) = Ok (5400000 * Millisecond) /\
  Duration_String (5400000 * Millisecond) = "90m".
Proof.
  intros tables. split; [|vm_compute; reflexivity].
  apply (ParseDuration_String 5400000). unfold Millisecond, max_int64. lia.
Defined.

(** A range of 300 years does not fit in an [int64] of nanoseconds: the
    product wraps to a negative duration and no error is reported. *)
Theorem ParseDuration_wraps `{UnicodeTables} :
  ParseDuration "300y" = Ok (-8985944073709551616).
Proof. vm_compute. reflexivity. Qed.
