(* ===== verification/StrUtil.v ===== *)
(** util/strutil/quote.go: [Unquote] and its helpers, with the round trip
    against the quoting of the standard library, which the printers use. *)

From S2P Require Import Prelude GoString GoFmt.

(** * Definitions (util/strutil/quote.go) *)

Definition ErrSyntax : string := "invalid syntax".

(** Reports whether the string contains the byte [c]. *)
Definition contains (s : string) (c : Z) : bool := contains_byte s c.

Definition unhex (b : Z) : option Z :=
  if (rune "0" <=? b) && (b <=? rune "9") then Some (b - rune "0")
  else if (rune "a" <=? b) && (b <=? rune "f") then Some (b - rune "a" + 10)
  else if (rune "A" <=? b) && (b <=? rune "F") then Some (b - rune "A" + 10)
  else None.

(** The loop [for j := 0; j < n; j++] over the hexadecimal digits of an escape;
    [v] is an [int32], so [v<<4 | x] wraps. *)
Fixpoint unhex_loop (n : nat) (s : string) (v : Z) : option Z :=
  match n, s with
  | O, _ => Some v
  | S n', String b s' =>
    match unhex (rune b) with
    | Some x => unhex_loop n' s' (i32 (Z.lor (Z.shiftl v 4) x))
    | None => None
    end
  | S _, EmptyString => None
  end.

(** The loop over the two octal digits after the first one. *)
Fixpoint octal_loop (n : nat) (s : string) (v : Z) : option Z :=
  match n, s with
  | O, _ => Some v
  | S n', String b s' =>
    let x := rune b - rune "0" in
    if (x <? 0) || (7 <? x) then None
    else octal_loop n' s' (Z.lor (Z.shiftl v 3) x)
  | S _, EmptyString => None
  end.

(** The value, whether it needs a multibyte encoding, and the rest. *)
Definition unquoteChar (s : string) (quote : Z) : result string (Z * bool * string) :=
  match s with
  | EmptyString => Err ErrSyntax
  | String c0 s1 =>
    let c := rune c0 in
    if (c =? quote) && ((quote =? rune "'") || (quote =? rune "034")) then Err ErrSyntax
    else if RuneSelf <=? c then
      let (r, size) := DecodeRuneInString s in Ok (r, true, str_drop size s)
    else if negb (c =? rune "\") then Ok (c, false, s1)
    else match s1 with
    | EmptyString => Err ErrSyntax
    | String c1 s2 =>
      let c := rune c1 in
      if c =? rune "a" then Ok (7, false, s2)
      else if c =? rune "b" then Ok (8, false, s2)
      else if c =? rune "f" then Ok (12, false, s2)
      else if c =? rune "n" then Ok (10, false, s2)
      else if c =? rune "r" then Ok (13, false, s2)
      else if c =? rune "t" then Ok (9, false, s2)
      else if c =? rune "v" then Ok (11, false, s2)
      else if (c =? rune "x") || (c =? rune "u") || (c =? rune "U") then
        let n := if c =? rune "x" then 2%nat else if c =? rune "u" then 4%nat else 8%nat in
        if (String.length s2 <? n)%nat then Err ErrSyntax
        else match unhex_loop n s2 0 with
        | None => Err ErrSyntax
        | Some v =>
          let s3 := str_drop n s2 in
          if c =? rune "x" then Ok (v, false, s3)
          else if MaxRune <? v then Err ErrSyntax
          else Ok (v, true, s3)
        end
      else if (rune "0" <=? c) && (c <=? rune "7") then
        if (String.length s2 <? 2)%nat then Err ErrSyntax
        else match octal_loop 2 s2 (c - rune "0") with
        | None => Err ErrSyntax
        | Some v => if 255 <? v then Err ErrSyntax else Ok (v, false, str_drop 2 s2)
        end
      else if c =? rune "\" then Ok (rune "\", false, s2)
      else if (c =? rune "'") || (c =? rune "034") then
        if negb (c =? quote) then Err ErrSyntax else Ok (c, false, s2)
      else Err ErrSyntax
    end
  end.

(** The loop of [Unquote]; every iteration consumes a byte, so the length of
    the string is enough fuel. *)
Fixpoint unquote_loop (fuel : nat) (s : string) (quote : Z) (buf : string) : result string string :=
  match s, fuel with
  | EmptyString, _ => Ok buf
  | _, O => Err "out of fuel"
  | _, S fuel' =>
    match unquoteChar s quote with
    | Err e => Err e
    | Ok (c, multibyte, ss) =>
      let out := if (c <? RuneSelf) || negb multibyte then String (byte_of c) "" else EncodeRune c in
      unquote_loop fuel' ss quote (buf +:+ out)
    end
  end.

Definition last_byte (s : string) : option ascii := String.get (String.length s - 1) s.

Definition Unquote (s : string) : result string string :=
  let n := String.length s in
  if (n <? 2)%nat then Err ErrSyntax
  else match s, last_byte s with
  | String q _, Some l =>
    let quote := rune q in
    if negb (quote =? rune l) then Err ErrSyntax
    else
      let s := str_slice 1 (n - 1) s in
      if quote =? rune "`" then
        if contains s (rune "`") then Err ErrSyntax else Ok s
      else if negb (quote =? rune "034") && negb (quote =? rune "'") then Err ErrSyntax
      else if contains s 10 then Err ErrSyntax
      else if negb (contains s (rune "\")) && negb (contains s quote) then Ok s
      else unquote_loop (String.length s) s quote ""
  | _, _ => Err ErrSyntax
  end.

(** * Proofs *)

(** ** Hexadecimal digits *)

Lemma unhex_hex_digit d : 0 <= d < 16 -> unhex (rune (byte_of (hex_digit d))) = Some d.
Proof.
  intros Hd. assert (d ∈ seqZ 0 16) as Hin by (apply elem_of_seqZ; lia).
  revert d Hin Hd. apply (Forall_forall (fun d => 0 <= d < 16 -> _)).
  cbn. repeat constructor.
Qed.

Lemma land_shiftl_small v k x : 0 <= k -> 0 <= x < 2 ^ k -> Z.land (v * 2 ^ k) x = 0.
Proof.
  intros Hk Hx. apply Z.bits_inj_iff. intros i. rewrite Z.land_spec, Z.bits_0.
  destruct (Z.ltb_spec i k).
  - by rewrite Z.mul_pow2_bits_low by lia.
  - destruct (decide (x = 0)) as [->|]; [by rewrite Z.bits_0, andb_false_r|].
    rewrite (Z.bits_above_log2 x i); [by rewrite andb_false_r|lia|].
    apply Z.log2_lt_pow2; [lia|]. pose proof (Z.pow_le_mono_r 2 k i). lia.
Qed.

Lemma lor_shiftl_add v k x :
  0 <= k -> 0 <= x < 2 ^ k -> Z.lor (Z.shiftl v k) x = v * 2 ^ k + x.
Proof.
  intros Hk Hx. rewrite Z.shiftl_mul_pow2 by lia.
  pose proof (land_shiftl_small v k x Hk Hx) as Hl.
  by rewrite <- Z.lxor_lor, <- Z.add_nocarry_lxor.
Qed.

(** Reading back [n] hexadecimal digits, whatever follows them. *)
Lemma unhex_loop_hex_digits n r v rest :
  0 <= v -> v * 16 ^ Z.of_nat n + r `mod` 16 ^ Z.of_nat n < 2 ^ 31 ->
  unhex_loop n (hex_digits n r +:+ rest) v = Some (v * 16 ^ Z.of_nat n + r `mod` 16 ^ Z.of_nat n).
Proof.
  revert v. induction n as [|n IH]; intros v Hv Hb.
  { change (Z.of_nat 0) with 0. simpl. rewrite Z.mod_1_r. f_equal. lia. }
  cbn [hex_digits unhex_loop]. rewrite str_app_cons.
  set (d := (r / 16 ^ Z.of_nat n) `mod` 16).
  assert (0 <= d < 16) as Hd by (apply Z.mod_pos_bound; lia).
  rewrite unhex_hex_digit, lor_shiftl_add by lia.
  rewrite Nat2Z.inj_succ, Z.pow_succ_r in * by lia.
  assert (0 < 16 ^ Z.of_nat n) as Hp by (apply Z.pow_pos_nonneg; lia).
  pose proof (Z.mod_pos_bound r (16 ^ Z.of_nat n) Hp) as Hm.
  rewrite (Z.mul_comm 16), Z.rem_mul_r in * by lia. fold d in Hb |- *.
  change (2 ^ 4) with 16. rewrite i32_id by nia. rewrite IH by nia. f_equal. nia.
Qed.

Lemma length_hex_digits n r : String.length (hex_digits n r) = n.
Proof. induction n as [|n IH]; [done|]. simpl. by rewrite IH. Qed.

(** Hexadecimal digits contain neither a newline nor a backslash. *)
Lemma hex_digit_plain d b : 0 <= d < 16 -> b < 48 \/ b = 92 -> rune (byte_of (hex_digit d)) <> b.
Proof.
  intros Hd Hb. unfold hex_digit. change (rune "0") with 48. change (rune "a") with 97.
  destruct (d <? 10) eqn:E; bool_prop; rewrite rune_byte_of by lia; lia.
Qed.

Lemma hex_digits_plain n r b : b < 48 \/ b = 92 -> contains_byte (hex_digits n r) b = false.
Proof.
  intros Hb. induction n as [|n IH]; [done|]. simpl. rewrite IH, orb_false_r.
  apply Z.eqb_neq, hex_digit_plain; [|done]. apply Z.mod_pos_bound. lia.
Qed.

(** ** One rune: what [Quote] writes, [unquoteChar] reads back *)

(** The text [out] stands for the bytes [bs] of a quoted string. *)
Definition reads_as (out bs : string) : Prop :=
  (forall rest, exists c mb,
     unquoteChar (out +:+ rest) (rune "034") = Ok (c, mb, rest) /\
     (if (c <? RuneSelf) || negb mb then String (byte_of c) "" else EncodeRune c) = bs) /\
  out <> "" /\ contains_byte out 10 = false /\
  (contains_byte out (rune "\") = false -> out = bs).

Section roundtrip.
Context `{UnicodeTables}.

(** The escapes [\x], [\u] and [\U]. *)
Lemma unquoteChar_hex (e : ascii) n r rest q :
  (e = "x"%char /\ n = 2%nat) \/ (e = "u"%char /\ n = 4%nat) \/ (e = "U"%char /\ n = 8%nat) ->
  0 <= r <= MaxRune -> r < 16 ^ Z.of_nat n -> q <> rune "\" ->
  unquoteChar (String "\" (String e (hex_digits n r +:+ rest))) q
  = Ok (r, bool_decide (n <> 2%nat), rest).
Proof.
  unfold MaxRune. intros He Hr Hn Hq.
  assert (String.length (hex_digits n r +:+ rest) <? n = false)%nat as Hlen.
  { apply Nat.ltb_ge. rewrite str_length_app, length_hex_digits. lia. }
  assert (str_drop n (hex_digits n r +:+ rest) = rest) as Hdrop.
  { rewrite <- (length_hex_digits n r) at 1. apply str_drop_length_app. }
  assert (unhex_loop n (hex_digits n r +:+ rest) 0 = Some r) as Hloop.
  { rewrite unhex_loop_hex_digits; rewrite ?Z.mod_small by lia; try done; lia. }
  unfold unquoteChar. rewrite (proj2 (Z.eqb_neq (rune "\") q)) by congruence.
  destruct He as [[-> ->]|[[-> ->]|[-> ->]]]; eval_runes;
    rewrite Hlen, Hloop, ?Hdrop; [done|..]; unfold MaxRune; by eval_cmp.
Qed.

(** An escape of one character. *)
Lemma unquoteChar_simple (e : ascii) v rest :
  (e, v) ∈ [("a"%char, 7); ("b"%char, 8); ("f"%char, 12); ("n"%char, 10); ("r"%char, 13);
            ("t"%char, 9); ("v"%char, 11); ("\"%char, 92); ("034"%char, 34)] ->
  unquoteChar (String "\" (String e rest)) (rune "034") = Ok (v, false, rest).
Proof.
  intros Hin. repeat (apply elem_of_cons in Hin as [[= -> ->]|Hin]; [unfold unquoteChar; by eval_runes|]).
  by apply elem_of_nil in Hin.
Qed.

Lemma reads_as_simple e v :
  (e, v) ∈ [("a"%char, 7); ("b"%char, 8); ("f"%char, 12); ("n"%char, 10); ("r"%char, 13);
            ("t"%char, 9); ("v"%char, 11); ("\"%char, 92); ("034"%char, 34)] ->
  reads_as (String "\" (String e "")) (String (byte_of v) "").
Proof.
  intros Hin. split; [|split; [done|split; [|done]]].
  - intros rest. exists v, false. split; [by apply unquoteChar_simple|].
    by rewrite orb_true_r.
  - repeat (apply elem_of_cons in Hin as [[= -> ->]|Hin]; [done|]). by apply elem_of_nil in Hin.
Qed.

Lemma reads_as_hex (e : ascii) n r :
  (e = "x"%char /\ n = 2%nat) \/ (e = "u"%char /\ n = 4%nat) \/ (e = "U"%char /\ n = 8%nat) ->
  0 <= r <= MaxRune -> r < 16 ^ Z.of_nat n ->
  reads_as (String "\" (String e (hex_digits n r)))
    (if (r <? RuneSelf) || bool_decide (n = 2%nat) then String (byte_of r) "" else EncodeRune r).
Proof.
  intros He Hr Hn. split; [|split; [done|split]].
  - intros rest. rewrite !str_app_cons. exists r, (bool_decide (n <> 2%nat)).
    rewrite unquoteChar_hex by (done || lia). split; [done|].
    by rewrite bool_decide_not, negb_involutive.
  - rewrite !contains_byte_cons. destruct He as [[-> ->]|[[-> ->]|[-> ->]]]; eval_runes; apply hex_digits_plain; lia.
  - rewrite contains_byte_cons. by eval_runes.
Qed.

(** A printed character that stands for itself. *)
Lemma reads_as_plain c s r w :
  DecodeRuneInString (String c s) = (r, w) -> (w <> 1%nat \/ r <> RuneError) ->
  r <> 10 -> r <> rune "034" -> r <> rune "\" ->
  reads_as (EncodeRune r) (EncodeRune r).
Proof.
  intros Hdec Hok H10 Hq Hb. destruct (encode_decode c s r w Hdec Hok) as (Henc & Hr & Hs).
  dischars.
  assert (r < 0x80 \/ 0x80 <= r) as [Hlt|Hge] by lia.
  - rewrite EncodeRune_1 by lia. cbn [str_of_bytes foldr]. split; [|split; [done|split; [|done]]].
    + intros rest. exists r, false. rewrite orb_true_r. split; [|done].
      rewrite str_app_cons. unfold unquoteChar. rewrite rune_byte_of by lia. dischars. unfold RuneSelf. by eval_cmp.
    + cbn. rewrite rune_byte_of by lia. by eval_cmp.
  - split; [|split; [|split; [|done]]].
    + intros rest. exists r, true. rewrite orb_false_r. unfold RuneSelf. eval_cmp. split; [|done].
      pose proof (decode_encode r rest Hr Hs) as Hde.
      rewrite Henc in *. destruct (decode_width _ _ _ _ Hdec) as [Hw1 Hw2].
      destruct w as [|w]; [lia|]. cbn [str_take] in *. rewrite str_app_cons in *.
      assert (0x80 <= rune c) as Hc.
      { apply Z.nlt_ge. intros Hc. unfold DecodeRuneInString, RuneSelf in Hdec.
        rewrite (proj2 (Z.ltb_lt _ _) Hc) in Hdec. simplify_eq. lia. }
      unfold unquoteChar. rewrite Hde. unfold RuneSelf. dischars. eval_cmp.
      f_equal. f_equal.
      rewrite <- str_app_cons. apply str_drop_length_app.
    + rewrite Henc. destruct (decode_width _ _ _ _ Hdec). by destruct w; [lia|].
    + apply EncodeRune_high; lia.
Qed.

(** Every branch of [escaped_rune], for a rune that decodes. *)
Lemma escaped_rune_reads_as c s r w :
  DecodeRuneInString (String c s) = (r, w) -> (w <> 1%nat \/ r <> RuneError) ->
  reads_as (escaped_rune r (rune "034")) (str_take w (String c s)).
Proof.
  intros Hdec Hok. destruct (encode_decode c s r w Hdec Hok) as (<- & Hr & Hs).
  assert (forall v, 0 <= v <= 0x7F -> EncodeRune v = String (byte_of v) "") as H1 by (intros; by rewrite EncodeRune_1).
  unfold escaped_rune, MaxRune in *. dischars.
  destruct (r =? 34) eqn:E34; bool_prop; [subst; apply (reads_as_simple "034" 34); set_solver|].
  destruct (r =? 92) eqn:E92; bool_prop; [subst; apply (reads_as_simple "\" 92); set_solver|]. cbn [orb].
  destruct (IsPrint r) eqn:Eprint.
  { apply (reads_as_plain c s r w); try done. intros ->. vm_compute in Eprint. done. }
  destruct (r =? 7) eqn:E7; bool_prop; [subst; apply (reads_as_simple "a" 7); set_solver|].
  destruct (r =? 8) eqn:E8; bool_prop; [subst; apply (reads_as_simple "b" 8); set_solver|].
  destruct (r =? 12) eqn:E12; bool_prop; [subst; apply (reads_as_simple "f" 12); set_solver|].
  destruct (r =? 10) eqn:E10; bool_prop; [subst; apply (reads_as_simple "n" 10); set_solver|].
  destruct (r =? 13) eqn:E13; bool_prop; [subst; apply (reads_as_simple "r" 13); set_solver|].
  destruct (r =? 9) eqn:E9; bool_prop; [subst; apply (reads_as_simple "t" 9); set_solver|].
  destruct (r =? 11) eqn:E11; bool_prop; [subst; apply (reads_as_simple "v" 11); set_solver|].
  destruct (r <? 32) eqn:E32; bool_prop.
  { rewrite H1 by lia. pose proof (reads_as_hex "x" 2 r) as Hx. rewrite orb_true_r in Hx.
    apply Hx; unfold MaxRune; [by left|lia|cbn; lia]. }
  eval_cmp.
  assert (EncodeRune r = if r <? 0x80 then String (byte_of r) "" else EncodeRune r) as ->.
  { destruct (r <? 0x80) eqn:E; bool_prop; [rewrite H1 by lia|]; done. }
  destruct (r <? 0x10000) eqn:E16; bool_prop.
  - pose proof (reads_as_hex "u" 4 r) as Hx. rewrite orb_false_r in Hx.
    apply Hx; unfold MaxRune; [by right; left|lia|cbn; lia].
  - pose proof (reads_as_hex "U" 8 r) as Hx. rewrite orb_false_r in Hx.
    apply Hx; unfold MaxRune; [by right; right|lia|cbn; lia].
Qed.

Lemma quote_step_reads_as c s out w :
  quote_step c s (rune "034") = (out, w) ->
  reads_as out (str_take w (String c s)) /\ (1 <= w <= S (String.length s))%nat.
Proof.
  unfold quote_step. intros Hq. pose proof (rune_range c) as Hc.
  destruct (if rune c <? RuneSelf then _ else _) as [r w'] eqn:Hdec.
  assert (DecodeRuneInString (String c s) = (r, w')) as Hdec'.
  { destruct (rune c <? RuneSelf) eqn:E; [|done]. simplify_eq. unfold DecodeRuneInString. by rewrite E. }
  destruct ((w' =? 1)%nat && (r =? RuneError)) eqn:Ebad; simplify_eq.
  - split; [|simpl; lia].
    pose proof (reads_as_hex "x" 2 (rune c)) as Hx. rewrite orb_true_r, byte_of_rune in Hx.
    apply Hx; unfold MaxRune; [by left|lia|cbn; lia].
  - split; [|by eapply decode_width].
    eapply escaped_rune_reads_as; [done|]. bool_prop. naive_solver.
Qed.

(** The loop of [Unquote] undoes the loop of [Quote]. *)
Lemma unquote_loop_quote_body fuel fuel' s buf :
  (String.length s <= fuel)%nat ->
  (String.length (quote_body fuel s (rune "034")) <= fuel')%nat ->
  unquote_loop fuel' (quote_body fuel s (rune "034")) (rune "034") buf = Ok (buf +:+ s).
Proof.
  revert fuel' s buf. induction fuel as [|fuel IH]; intros fuel' s buf Hf Hf'.
  { destruct s; [|simpl in *; lia]. simpl. destruct fuel'; by rewrite str_app_nil_r. }
  destruct s as [|c s]; [simpl; destruct fuel'; by rewrite str_app_nil_r|].
  cbn [quote_body] in *. destruct (quote_step c s (rune "034")) as [out w] eqn:Hq.
  destruct (quote_step_reads_as _ _ _ _ Hq) as [(Hread & Hne & _) Hw].
  destruct (Hread (quote_body fuel (str_drop w (String c s)) (rune "034"))) as (ch & mb & Huq & Hout).
  destruct out as [|o out]; [done|].
  assert (String.length (str_drop w (String c s)) <= fuel)%nat as Hlen.
  { rewrite str_length_drop. simpl in *. lia. }
  rewrite str_app_cons in *. destruct fuel' as [|fuel']; [simpl in Hf'; lia|].
  cbn [unquote_loop]. rewrite Huq, Hout. cbn [String.length] in Hf'. rewrite str_length_app in Hf'.
  rewrite IH by lia. by rewrite str_app_assoc, str_take_drop.
Qed.

Lemma quote_body_no_newline fuel s : contains_byte (quote_body fuel s (rune "034")) 10 = false.
Proof.
  revert s. induction fuel as [|fuel IH]; intros [|c s]; try done. cbn [quote_body].
  destruct (quote_step c s (rune "034")) as [out w] eqn:Hq.
  destruct (quote_step_reads_as _ _ _ _ Hq) as [(_ & _ & Hn & _) _].
  by rewrite contains_byte_app, Hn, IH.
Qed.

Lemma quote_body_plain fuel s :
  (String.length s <= fuel)%nat ->
  contains_byte (quote_body fuel s (rune "034")) (rune "\") = false ->
  quote_body fuel s (rune "034") = s.
Proof.
  revert s. induction fuel as [|fuel IH]; intros [|c s] Hf Hb; try done; [simpl in *; lia|].
  cbn [quote_body] in *. destruct (quote_step c s (rune "034")) as [out w] eqn:Hq.
  destruct (quote_step_reads_as _ _ _ _ Hq) as [(_ & _ & _ & Hp) Hw].
  rewrite contains_byte_app in Hb. apply orb_false_iff in Hb as [Hb1 Hb2].
  rewrite (Hp Hb1). rewrite IH; [apply str_take_drop| |done].
  rewrite str_length_drop. simpl in *. lia.
Qed.

Lemma last_byte_snoc s c : last_byte (s +:+ String c "") = Some c.
Proof.
  unfold last_byte. rewrite str_length_app. simpl String.length.
  replace (String.length s + 1 - 1)%nat with (String.length s) by lia.
  induction s as [|d s IH]; [done|]. rewrite str_app_cons. apply IH.
Qed.

(** C40: reading a quoted string back gives the string: for every Go string,
    valid UTF-8 or not, [strutil.Unquote] inverts the quoting ([%q]) that the
    printers of matchers, labels and string literals use. *)
Theorem Unquote_Quote (s : string) : Unquote (Quote s) = Ok s.
Proof.
  unfold Unquote, Quote, quote_with. set (body := quote_body _ s _).
  assert (String.length (String "034" (body +:+ String "034" "")) = S (S (String.length body))) as Hlen.
  { simpl. rewrite str_length_app. simpl. lia. }
  rewrite Hlen. cbn [Nat.ltb Nat.leb]. 
  assert (last_byte (String "034" (body +:+ String "034" "")) = Some "034"%char) as ->.
  { rewrite <- str_app_cons. apply last_byte_snoc. }
  rewrite Z.eqb_refl.
  assert (str_slice 1 (S (S (String.length body)) - 1) (String "034" (body +:+ String "034" "")) = body) as ->.
  { unfold str_slice. cbn [str_drop].
    replace (S (S (String.length body)) - 1 - 1)%nat with (String.length body) by lia.
    apply str_take_length_app. }
  eval_runes. unfold contains.
  pose proof (quote_body_no_newline (String.length s) s) as Hn. fold body in Hn. rewrite Hn.
  destruct (contains_byte body (rune "\")) eqn:Eb; cbn [negb andb].
  - by apply unquote_loop_quote_body.
  - pose proof (quote_body_plain (String.length s) s (Nat.le_refl _) Eb) as Hp. fold body in Hp.
    destruct (contains_byte body (rune "034")); cbn [negb]; [by apply unquote_loop_quote_body|by rewrite Hp].
Qed.

(** ** Quoted strings at the front of a text *)

(** Reading characters up to the closing quote; also returns what is left. *)
Fixpoint read_quoted (fuel : nat) (s buf : string) : string * string :=
  match fuel with
  | O => (buf, s)
  | S fuel =>
    match unquoteChar s (rune "034") with
    | Err _ => (buf, s)
    | Ok (c, multibyte, ss) =>
      read_quoted fuel ss (buf +:+ (if (c <? RuneSelf) || negb multibyte then String (byte_of c) "" else EncodeRune c))
    end
  end.

Lemma read_quoted_body fuel fuel' s buf rest :
  (String.length s <= fuel)%nat -> (String.length (quote_body fuel s (rune "034")) < fuel')%nat ->
  read_quoted fuel' (quote_body fuel s (rune "034") +:+ String "034" rest) buf = (buf +:+ s, String "034" rest).
Proof.
  revert fuel' s buf. induction fuel as [|fuel IH]; intros [|fuel'] [|c s] buf Hf Hf'; cbn [quote_body String.length] in *; try lia;
    [by rewrite str_app_nil_r..|].
  destruct (quote_step c s (rune "034")) as [out w] eqn:Hq.
  destruct (quote_step_reads_as _ _ _ _ Hq) as [(Hread & Hne & _) Hw]. rewrite str_app_assoc. cbn [read_quoted].
  destruct (Hread (quote_body fuel (str_drop w (String c s)) (rune "034") +:+ String "034" rest)) as (ch & mb & -> & ->).
  rewrite str_length_app in Hf'. assert (0 < String.length out)%nat by (destruct out; [done|cbn; lia]).
  rewrite IH; [by rewrite str_app_assoc, str_take_drop|rewrite str_length_drop; cbn [String.length]; lia|lia].
Qed.

(** Where a quoted string ends is determined by its text. *)
Lemma Quote_prefix_free s s' r r' : Quote s +:+ r = Quote s' +:+ r' -> s = s' /\ r = r'.
Proof.
  unfold Quote, quote_with. cbn [String.append]. intros [= E]. rewrite !str_app_assoc, !str_app_cons, !str_app_nil_l in E.
  set (n := S (String.length (quote_body (String.length s) s (rune "034")) +
               String.length (quote_body (String.length s') s' (rune "034")))).
  pose proof (read_quoted_body (String.length s) n s "" r (Nat.le_refl _) ltac:(lia)) as R.
  pose proof (read_quoted_body (String.length s') n s' "" r' (Nat.le_refl _) ltac:(lia)) as R'.
  rewrite E in R. rewrite R, !str_app_nil_l in R'. by injection R' as -> ->.
Qed.
End roundtrip.
