(* ===== verification/Pattern.v ===== *)
(** The constant regular expressions of the program: their syntax, the strings
    they match, and a matcher by derivatives that decides it.

    Expressions that come from a configuration file are a parameter of the
    development ([Regexp] in Labels); those that the code compiles once, from a
    literal, are written out as terms of [re].  They are anchored at both ends,
    and their classes only tell ASCII characters apart, so that bytes can be
    matched in the place of runes. *)

From S2P Require Import Prelude GoString.

Inductive re := Void | Eps | Chr (p : Z -> bool) | Seq (r1 r2 : re) | Alt (r1 r2 : re) | Star (r : re).

(** ** The language of an expression *)

Inductive lang : re -> string -> Prop :=
| lang_eps : lang Eps ""
| lang_chr p c : p (rune c) = true -> lang (Chr p) (String c "")
| lang_seq r1 r2 s1 s2 : lang r1 s1 -> lang r2 s2 -> lang (Seq r1 r2) (s1 +:+ s2)
| lang_alt_l r1 r2 s : lang r1 s -> lang (Alt r1 r2) s
| lang_alt_r r1 r2 s : lang r2 s -> lang (Alt r1 r2) s
| lang_star_nil r : lang (Star r) ""
| lang_star_app r s1 s2 : lang r s1 -> lang (Star r) s2 -> lang (Star r) (s1 +:+ s2).
#[export] Hint Constructors lang : core.

(** ** The matcher *)

Fixpoint nullable (r : re) : bool :=
  match r with
  | Void | Chr _ => false
  | Eps | Star _ => true
  | Seq r1 r2 => nullable r1 && nullable r2
  | Alt r1 r2 => nullable r1 || nullable r2
  end.

(** Constructors that simplify, so that derivatives stay small. *)
Definition alt (r1 r2 : re) : re :=
  match r1, r2 with Void, r | r, Void => r | _, _ => Alt r1 r2 end.
Definition seq (r1 r2 : re) : re :=
  match r1, r2 with Void, _ | _, Void => Void | Eps, r => r | _, _ => Seq r1 r2 end.

Fixpoint deriv (b : Z) (r : re) : re :=
  match r with
  | Void | Eps => Void
  | Chr p => if p b then Eps else Void
  | Seq r1 r2 => alt (seq (deriv b r1) r2) (if nullable r1 then deriv b r2 else Void)
  | Alt r1 r2 => alt (deriv b r1) (deriv b r2)
  | Star r' => seq (deriv b r') r
  end.

(** [MatchString] *)
Fixpoint matches (r : re) (s : string) : bool :=
  match s with EmptyString => nullable r | String c s => matches (deriv (rune c) r) s end.

(** ** The classes and operators of the syntax *)

Definition lit (c : ascii) : re := Chr (fun b => b =? rune c).
Definition not_lit (c : ascii) : re := Chr (fun b => negb (b =? rune c)).
Definition lower (b : Z) : bool := (rune "a" <=? b) && (b <=? rune "z").
Definition upper (b : Z) : bool := (rune "A" <=? b) && (b <=? rune "Z").
Definition dec (b : Z) : bool := (rune "0" <=? b) && (b <=? rune "9").
Definition letter_ (b : Z) : bool := lower b || upper b || (b =? rune "_").
(** [\w] *)
Definition word (b : Z) : bool := letter_ b || dec b.
Definition plus (r : re) : re := Seq r (Star r).
Definition opt (r : re) : re := Alt r Eps.
Fixpoint text (s : string) : re := match s with EmptyString => Eps | String c s => Seq (lit c) (text s) end.
Definition one_of (ss : list string) : re := foldr (fun s r => Alt (text s) r) Void ss.

(** * The matcher decides the language *)

Lemma lang_alt r1 r2 s : lang (Alt r1 r2) s <-> lang r1 s \/ lang r2 s.
Proof. split; [inversion 1; subst; auto|intros [A|A]; auto]. Qed.

Lemma lang_seq_iff r1 r2 s : lang (Seq r1 r2) s <-> exists s1 s2, s = s1 +:+ s2 /\ lang r1 s1 /\ lang r2 s2.
Proof. split; [inversion 1; subst; eauto|intros (s1 & s2 & -> & A & B); auto]. Qed.

Lemma nullable_spec r : nullable r = true <-> lang r "".
Proof.
  induction r as [| |p|r1 IH1 r2 IH2|r1 IH1 r2 IH2|r IH]; cbn; try (split; [done|by inversion 1]); try by split; auto.
  - rewrite andb_true_iff, IH1, IH2, lang_seq_iff. split; [intros [A B]; by exists "", ""|].
    intros ([|] & [|] & E & A & B); by try discriminate E.
  - by rewrite orb_true_iff, IH1, IH2, lang_alt.
Qed.

Lemma lang_void s : lang Void s <-> False.
Proof. split; [inversion 1|done]. Qed.

Lemma lang_eps_iff s : lang Eps s <-> s = "".
Proof. split; [by inversion 1|by intros ->]. Qed.

Lemma lang_alt_smart r1 r2 s : lang (alt r1 r2) s <-> lang r1 s \/ lang r2 s.
Proof. unfold alt. destruct r1, r2; rewrite ?lang_alt, ?lang_void; tauto. Qed.

Lemma lang_seq_smart r1 r2 s : lang (seq r1 r2) s <-> exists s1 s2, s = s1 +:+ s2 /\ lang r1 s1 /\ lang r2 s2.
Proof.
  assert (forall r : re, lang Void s <-> exists s1 s2, s = s1 +:+ s2 /\ lang Void s1 /\ lang r s2) as V1.
  { intros r. rewrite lang_void. split; [done|]. intros (? & ? & _ & A & _). by apply lang_void in A. }
  assert (forall r : re, lang Void s <-> exists s1 s2, s = s1 +:+ s2 /\ lang r s1 /\ lang Void s2) as V2.
  { intros r. rewrite lang_void. split; [done|]. intros (? & ? & _ & _ & A). by apply lang_void in A. }
  assert (forall r : re, lang r s <-> exists s1 s2, s = s1 +:+ s2 /\ lang Eps s1 /\ lang r s2) as E.
  { intros r. split; [intros A; exists "", s; auto|]. intros (s1 & s2 & -> & A & B). by apply lang_eps_iff in A as ->. }
  unfold seq. destruct r1, r2; solve [apply V1 | apply V2 | apply E | apply lang_seq_iff].
Qed.

(** A non-empty string of a repetition starts with a non-empty piece. *)
Lemma lang_star_cons r c s : lang (Star r) (String c s) <-> exists s1 s2, s = s1 +:+ s2 /\ lang r (String c s1) /\ lang (Star r) s2.
Proof.
  split; [|intros (s1 & s2 & E & A & B); rewrite E; exact (lang_star_app r (String c s1) s2 A B)].
  remember (Star r) as q eqn:Q. remember (String c s) as t eqn:T. intros L.
  revert c s T.
  induction L as [| | | | | |r' s1 s2 A _ B IH]; intros d u T; try discriminate.
  injection Q as ->. destruct s1 as [|c1 s1]; [by apply IH|]. rewrite ?str_app_cons in T. injection T as -> <-. eauto.
Qed.

Lemma deriv_spec r c s : lang (deriv (rune c) r) s <-> lang r (String c s).
Proof.
  revert s. induction r as [| |p|r1 IH1 r2 IH2|r1 IH1 r2 IH2|r IH]; intros s; cbn [deriv].
  - rewrite !lang_void. done.
  - rewrite lang_void. split; [done|]. by inversion 1.
  - destruct (p (rune c)) eqn:P.
    + rewrite lang_eps_iff. split; [intros ->; auto|]. by inversion 1.
    + rewrite lang_void. split; [done|]. inversion 1; congruence.
  - rewrite lang_alt_smart, lang_seq_smart, lang_seq_iff. setoid_rewrite IH1. split.
    + intros [(s1 & s2 & -> & A & B)|A]; [by exists (String c s1), s2|].
      destruct (nullable r1) eqn:N; [|by apply lang_void in A].
      exists "", (String c s). by rewrite <- nullable_spec, <- IH2.
    + intros ([|c1 s1] & s2 & E & A & B).
      * apply nullable_spec in A. rewrite A. right. rewrite IH2, E. exact B.
      * left. rewrite str_app_cons in E. injection E as -> ->. by exists s1, s2.
  - by rewrite lang_alt_smart, lang_alt, IH1, IH2.
  - rewrite lang_seq_smart, lang_star_cons. by setoid_rewrite IH.
Qed.

Theorem matches_lang r s : matches r s = true <-> lang r s.
Proof.
  revert r. induction s as [|c s IH]; intros r; cbn; [apply nullable_spec|]. by rewrite IH, deriv_spec.
Qed.

(** ** Literal text *)

Lemma lang_lit c s : lang (lit c) s <-> s = String c "".
Proof.
  split; [|intros ->; apply lang_chr; apply Z.eqb_refl]. inversion 1 as [|? d P| | | | |]; subst.
  apply Z.eqb_eq in P. f_equal. by apply rune_inj.
Qed.

Lemma lang_text t s : lang (text t) s <-> s = t.
Proof.
  revert s. induction t as [|c t IH]; intros s; cbn [text]; [apply lang_eps_iff|]. rewrite lang_seq_iff. setoid_rewrite lang_lit. setoid_rewrite IH.
  split; [by intros (? & ? & -> & -> & ->)|]. intros ->. by exists (String c ""), t.
Qed.

Lemma lang_one_of ts s : lang (one_of ts) s <-> s ∈ ts.
Proof.
  induction ts as [|t ts IH]; cbn [one_of foldr]; [rewrite lang_void; by rewrite elem_of_nil|].
  by rewrite lang_alt, lang_text, IH, elem_of_cons.
Qed.

#[export] Hint Rewrite lang_alt lang_seq_iff lang_lit lang_text lang_one_of lang_eps_iff lang_void : lang.
