(* ===== verification/Lexer.v ===== *)
(** promql/lex.go: the items of the query language and the scanner that
    produces them, as a state machine whose states are the [stateFn]s.

    The scanner runs in its own goroutine and sends items over an unbuffered
    channel; it never reads anything the parser writes except [seriesDesc], so
    the sequence of items does not depend on the interleaving.  [lex] computes
    that sequence to its end; [nextItem] consumes it.  Positions are [nat]: the
    code only moves [pos] back by the width just read (see [lexer_wf]). *)

From S2P Require Import Prelude GoString GoFmt.

(** * Items *)

Inductive ItemType : Set :=
| itemError | itemEOF | itemComment | itemIdentifier | itemMetricIdentifier
| itemLeftParen | itemRightParen | itemLeftBrace | itemRightBrace
| itemLeftBracket | itemRightBracket | itemComma | itemAssign | itemSemicolon
| itemString | itemNumber | itemDuration | itemBlank | itemTimes
| operatorsStart
| itemSUB | itemADD | itemMUL | itemMOD | itemDIV | itemLAND | itemLOR | itemLUnless
| itemEQL | itemNEQ | itemLTE | itemLSS | itemGTE | itemGTR | itemEQLRegex | itemNEQRegex
| itemPOW
| operatorsEnd
| aggregatorsStart
| itemAvg | itemCount | itemSum | itemMin | itemMax | itemStddev | itemStdvar
| itemTopK | itemBottomK | itemCountValues | itemQuantile
| aggregatorsEnd
| keywordsStart
| itemAlert | itemIf | itemFor | itemLabels | itemAnnotations | itemOffset | itemBy
| itemWithout | itemOn | itemIgnoring | itemGroupLeft | itemGroupRight | itemBool
| keywordsEnd.

#[export] Instance ItemType_eq_dec : EqDecision ItemType.
Proof. solve_decision. Defined.

(** The constants in declaration order: [iota] numbers them. *)
Definition item_types : list ItemType :=
  [itemError; itemEOF; itemComment; itemIdentifier; itemMetricIdentifier;
   itemLeftParen; itemRightParen; itemLeftBrace; itemRightBrace;
   itemLeftBracket; itemRightBracket; itemComma; itemAssign; itemSemicolon;
   itemString; itemNumber; itemDuration; itemBlank; itemTimes;
   operatorsStart;
   itemSUB; itemADD; itemMUL; itemMOD; itemDIV; itemLAND; itemLOR; itemLUnless;
   itemEQL; itemNEQ; itemLTE; itemLSS; itemGTE; itemGTR; itemEQLRegex; itemNEQRegex;
   itemPOW;
   operatorsEnd; aggregatorsStart;
   itemAvg; itemCount; itemSum; itemMin; itemMax; itemStddev; itemStdvar;
   itemTopK; itemBottomK; itemCountValues; itemQuantile;
   aggregatorsEnd; keywordsStart;
   itemAlert; itemIf; itemFor; itemLabels; itemAnnotations; itemOffset; itemBy;
   itemWithout; itemOn; itemIgnoring; itemGroupLeft; itemGroupRight; itemBool;
   keywordsEnd].

Fixpoint index_of (t : ItemType) (l : list ItemType) (n : Z) : Z :=
  match l with
  | [] => n
  | x :: l' => if decide (x = t) then n else index_of t l' (n + 1)
  end.

Definition iota (t : ItemType) : Z := index_of t item_types 0.

Definition isOperator (i : ItemType) : bool :=
  (iota operatorsStart <? iota i) && (iota i <? iota operatorsEnd).
Definition isAggregator (i : ItemType) : bool :=
  (iota aggregatorsStart <? iota i) && (iota i <? iota aggregatorsEnd).
Definition isKeyword (i : ItemType) : bool :=
  (iota keywordsStart <? iota i) && (iota i <? iota keywordsEnd).

Definition isAggregatorWithParam (i : ItemType) : bool :=
  match i with
  | itemTopK | itemBottomK | itemCountValues | itemQuantile => true
  | _ => false
  end.

Definition isComparisonOperator (i : ItemType) : bool :=
  match i with
  | itemEQL | itemNEQ | itemLTE | itemLSS | itemGTE | itemGTR => true
  | _ => false
  end.

Definition isSetOperator (i : ItemType) : bool :=
  match i with itemLAND | itemLOR | itemLUnless => true | _ => false end.

Definition LowestPrec : Z := 0.

Definition precedence (i : ItemType) : Z :=
  match i with
  | itemLOR => 1
  | itemLAND | itemLUnless => 2
  | itemEQL | itemNEQ | itemLTE | itemLSS | itemGTE | itemGTR => 3
  | itemADD | itemSUB => 4
  | itemMUL | itemDIV | itemMOD => 5
  | itemPOW => 6
  | _ => LowestPrec
  end.

Definition isRightAssociative (i : ItemType) : bool :=
  match i with itemPOW => true | _ => false end.

(** The literal of [var key]. *)
Definition key_literal : list (string * ItemType) :=
  [("and", itemLAND); ("or", itemLOR); ("unless", itemLUnless);
   ("sum", itemSum); ("avg", itemAvg); ("count", itemCount); ("min", itemMin);
   ("max", itemMax); ("stddev", itemStddev); ("stdvar", itemStdvar); ("topk", itemTopK);
   ("bottomk", itemBottomK); ("count_values", itemCountValues); ("quantile", itemQuantile);
   ("alert", itemAlert); ("if", itemIf); ("for", itemFor); ("labels", itemLabels);
   ("annotations", itemAnnotations); ("offset", itemOffset); ("by", itemBy);
   ("without", itemWithout); ("on", itemOn); ("ignoring", itemIgnoring);
   ("group_left", itemGroupLeft); ("group_right", itemGroupRight); ("bool", itemBool)].

(** [key] after [init], which adds the special numbers. *)
Definition key : gmap string ItemType :=
  <["nan" := itemNumber]> (<["inf" := itemNumber]> (list_to_map key_literal)).

(** The literal of [var itemTypeStr]. *)
Definition itemTypeStr_literal (t : ItemType) : option string :=
  match t with
  | itemLeftParen => Some "(" | itemRightParen => Some ")"
  | itemLeftBrace => Some "{" | itemRightBrace => Some "}"
  | itemLeftBracket => Some "[" | itemRightBracket => Some "]"
  | itemComma => Some "," | itemAssign => Some "=" | itemSemicolon => Some ";"
  | itemBlank => Some "_" | itemTimes => Some "x"
  | itemSUB => Some "-" | itemADD => Some "+" | itemMUL => Some "*" | itemMOD => Some "%"
  | itemDIV => Some "/" | itemEQL => Some "==" | itemNEQ => Some "!=" | itemLTE => Some "<="
  | itemLSS => Some "<" | itemGTE => Some ">=" | itemGTR => Some ">" | itemEQLRegex => Some "=~"
  | itemNEQRegex => Some "!~" | itemPOW => Some "^"
  | _ => None
  end.

(** [itemTypeStr] after [init], which adds the keywords of [key]. *)
Definition itemTypeStr (t : ItemType) : option string :=
  match list_find (fun p => p.2 = t) key_literal with
  | Some (_, (s, _)) => Some s
  | None => itemTypeStr_literal t
  end.

(** [ItemType.String] *)
Definition ItemType_String (i : ItemType) : string :=
  match itemTypeStr i with
  | Some s => s
  | None => "<item " +:+ Itoa (iota i) +:+ ">"
  end.

Record item := Item { typ : ItemType; pos : nat; val : string }.

#[export] Instance item_eq_dec : EqDecision item.
Proof. solve_decision. Defined.

Section messages.
Context `{UnicodeTables}.

(** [item.String] *)
Definition item_String (i : item) : string :=
  if decide (typ i = itemEOF) then "EOF"
  else if decide (typ i = itemError) then val i
  else if decide (typ i = itemIdentifier \/ typ i = itemMetricIdentifier) then Quote (val i)
  else if isKeyword (typ i) then "<" +:+ val i +:+ ">"
  else if isOperator (typ i) then "<op:" +:+ val i +:+ ">"
  else if isAggregator (typ i) then "<aggr:" +:+ val i +:+ ">"
  else if (10 <? String.length (val i))%nat then fmt_q_prec 10 (val i) +:+ "..."
  else Quote (val i).

(** [ItemType.desc] *)
Definition ItemType_desc (i : ItemType) : string :=
  match i with
  | itemError => "error"
  | itemEOF => "end of input"
  | itemComment => "comment"
  | itemIdentifier => "identifier"
  | itemMetricIdentifier => "metric identifier"
  | itemString => "string"
  | itemNumber => "number"
  | itemDuration => "duration"
  | _ => Quote (ItemType_String i)
  end.

(** [item.desc] *)
Definition item_desc (i : item) : string :=
  match itemTypeStr (typ i) with
  | Some _ => item_String i
  | None => if decide (typ i = itemEOF) then ItemType_desc (typ i)
            else ItemType_desc (typ i) +:+ " " +:+ item_String i
  end.
End messages.

(** * Character classes *)

Definition eof : Z := -1.

Definition isSpace (r : Z) : bool := (r =? 32) || (r =? 9) || (r =? 10) || (r =? 13).
Definition isEndOfLine (r : Z) : bool := (r =? 13) || (r =? 10).
Definition isDigit (r : Z) : bool := (rune "0" <=? r) && (r <=? rune "9").
Definition isAlpha (r : Z) : bool :=
  (r =? rune "_") || ((rune "a" <=? r) && (r <=? rune "z")) || ((rune "A" <=? r) && (r <=? rune "Z")).
Definition isAlphaNumeric (r : Z) : bool := isAlpha r || isDigit r.

(** [isLabel]: the loop [for _, c := range s[1:]] decodes runes; a byte of
    128 and above starts a rune that is not alphanumeric, so looking at bytes
    gives the same answer. *)
Definition isLabel (s : string) : bool :=
  match s with
  | EmptyString => false
  | String c s' => isAlpha (rune c) && str_forall isAlphaNumeric s'
  end.

Definition digitVal (ch : Z) : Z :=
  if (rune "0" <=? ch) && (ch <=? rune "9") then ch - rune "0"
  else if (rune "a" <=? ch) && (ch <=? rune "f") then ch - rune "a" + 10
  else if (rune "A" <=? ch) && (ch <=? rune "F") then ch - rune "A" + 10
  else 16.

(** * The scanner *)

(** The state functions of the code.  [lexNumber] is only ever called, never
    returned as a state. *)
Inductive stateFn :=
| st_lexStatements | st_lexInsideBraces | st_lexValueSequence | st_lexString
| st_lexRawString | st_lexSpace | st_lexLineComment | st_lexDuration
| st_lexNumberOrDuration | st_lexIdentifier | st_lexKeywordOrIdentifier.

#[export] Instance stateFn_eq_dec : EqDecision stateFn.
Proof. solve_decision. Defined.

Record lexer := Lexer {
  input : string;
  l_pos : nat;
  start : nat;
  width : nat;
  items : list item;      (* what has been sent on the channel, oldest first *)
  parenDepth : Z;
  braceOpen : bool;
  bracketOpen : bool;
  stringOpen : Z;
  seriesDesc : bool
}.

Definition set_pos_width (l : lexer) (p w : nat) : lexer :=
  Lexer (input l) p (start l) w (items l) (parenDepth l) (braceOpen l) (bracketOpen l)
        (stringOpen l) (seriesDesc l).
Definition set_start (l : lexer) (n : nat) : lexer :=
  Lexer (input l) (l_pos l) n (width l) (items l) (parenDepth l) (braceOpen l) (bracketOpen l)
        (stringOpen l) (seriesDesc l).
Definition push_item (l : lexer) (i : item) : lexer :=
  Lexer (input l) (l_pos l) (start l) (width l) (items l ++ [i]) (parenDepth l) (braceOpen l)
        (bracketOpen l) (stringOpen l) (seriesDesc l).
Definition set_parenDepth (l : lexer) (d : Z) : lexer :=
  Lexer (input l) (l_pos l) (start l) (width l) (items l) d (braceOpen l) (bracketOpen l)
        (stringOpen l) (seriesDesc l).
Definition set_braceOpen (l : lexer) (b : bool) : lexer :=
  Lexer (input l) (l_pos l) (start l) (width l) (items l) (parenDepth l) b (bracketOpen l)
        (stringOpen l) (seriesDesc l).
Definition set_bracketOpen (l : lexer) (b : bool) : lexer :=
  Lexer (input l) (l_pos l) (start l) (width l) (items l) (parenDepth l) (braceOpen l) b
        (stringOpen l) (seriesDesc l).
Definition set_stringOpen (l : lexer) (q : Z) : lexer :=
  Lexer (input l) (l_pos l) (start l) (width l) (items l) (parenDepth l) (braceOpen l)
        (bracketOpen l) q (seriesDesc l).

(** [l.input[l.pos:]] *)
Definition rest (l : lexer) : string := str_drop (l_pos l) (input l).

Definition next (l : lexer) : Z * lexer :=
  if (String.length (input l) <=? l_pos l)%nat then (eof, set_pos_width l (l_pos l) 0)
  else let (r, w) := DecodeRuneInString (rest l) in
       (r, set_pos_width l (l_pos l + w) w).

Definition backup (l : lexer) : lexer := set_pos_width l (l_pos l - width l) (width l).

Definition peek (l : lexer) : Z * lexer :=
  let (r, l) := next l in (r, backup l).

Definition emit (t : ItemType) (l : lexer) : lexer :=
  let l := push_item l (Item t (start l) (str_slice (start l) (l_pos l) (input l))) in
  set_start l (l_pos l).

Definition ignore (l : lexer) : lexer := set_start l (l_pos l).

Definition accept (valid : string) (l : lexer) : bool * lexer :=
  let (r, l) := next l in
  if ContainsRune valid r then (true, l) else (false, backup l).

(** The loops [for p(l.next()) { }]; the fuel is the number of bytes left,
    plus one for the call that ends the loop. *)
Fixpoint next_while (fuel : nat) (p : Z -> bool) (l : lexer) : lexer :=
  match fuel with
  | O => l
  | S fuel' => let (r, l) := next l in
               if p r then next_while fuel' p l else l
  end.

Definition fuel_of (l : lexer) : nat := S (String.length (input l) - l_pos l).

Definition acceptRun (valid : string) (l : lexer) : lexer :=
  backup (next_while (fuel_of l) (ContainsRune valid) l).

(** [errorf]: sends the message and ends the scan by returning no state. *)
Definition errorf (msg : string) (l : lexer) : option stateFn * lexer :=
  (None, push_item l (Item itemError (start l) msg)).

Definition lineComment : string := "#".

Definition has_comment (l : lexer) : bool := String.prefix lineComment (rest l).

Section states.
Context `{UnicodeTables}.

(** [fmt.Sprintf("%q", l.input[l.start:l.pos])] *)
Definition fmt_pending (l : lexer) : string := Quote (str_slice (start l) (l_pos l) (input l)).

(** [for isSpace(l.peek()) { l.next() }] *)
Fixpoint space_loop (fuel : nat) (l : lexer) : lexer :=
  match fuel with
  | O => l
  | S fuel' => let (r, l) := peek l in
               if isSpace r then space_loop fuel' (snd (next l)) else l
  end.

Definition lexSpace (l : lexer) : option stateFn * lexer :=
  (Some st_lexStatements, ignore (space_loop (fuel_of l) l)).

Definition lexLineComment (l : lexer) : option stateFn * lexer :=
  let l := set_pos_width l (l_pos l + String.length lineComment) (width l) in
  let l := next_while (fuel_of l) (fun r => negb (isEndOfLine r) && negb (r =? eof)) l in
  (Some st_lexStatements, emit itemComment (backup l)).

Definition scanNumber (l : lexer) : bool * lexer :=
  let '(hex, l) :=
    if seriesDesc l then (false, l)
    else let (zero, l) := accept "0" l in
         if zero then accept "xX" l else (false, l) in
  let digits := if hex : bool then "0123456789abcdefABCDEF" else "0123456789" in
  let l := acceptRun digits l in
  let (dot, l) := accept "." l in
  let l := if dot then acceptRun digits l else l in
  let (e, l) := accept "eE" l in
  let l := if e then acceptRun "0123456789" (snd (accept "+-" l)) else l in
  let (r, l) := peek l in
  (((seriesDesc l && (r =? rune "x")) || negb (isAlphaNumeric r)), l).

(** The common tail of [lexDuration] and [lexNumberOrDuration]: a unit and a
    non-alphanumeric. *)
Definition lex_unit (err : string) (l : lexer) : option stateFn * lexer :=
  let (unit, l) := accept "smhdwy" l in
  if unit then
    let (r, l) := next l in
    if isAlphaNumeric r then errorf (err +:+ ": " +:+ fmt_pending l) l
    else (Some st_lexStatements, emit itemDuration (backup l))
  else errorf (err +:+ ": " +:+ fmt_pending l) l.

Definition lexDuration (l : lexer) : option stateFn * lexer :=
  let (isnum, l) := scanNumber l in
  if isnum then errorf "missing unit character in duration" l
  else lex_unit "bad duration syntax" l.

Definition lexNumber (l : lexer) : option stateFn * lexer :=
  let (isnum, l) := scanNumber l in
  if negb isnum then errorf ("bad number syntax: " +:+ fmt_pending l) l
  else (Some st_lexStatements, emit itemNumber l).

Definition lexNumberOrDuration (l : lexer) : option stateFn * lexer :=
  let (isnum, l) := scanNumber l in
  if isnum then (Some st_lexStatements, emit itemNumber l)
  else lex_unit "bad number or duration syntax" l.

Definition lexIdentifier (l : lexer) : option stateFn * lexer :=
  let l := next_while (fuel_of l) isAlphaNumeric l in
  (Some st_lexStatements, emit itemIdentifier (backup l)).

Definition lexKeywordOrIdentifier (l : lexer) : option stateFn * lexer :=
  let l := backup (next_while (fuel_of l) (fun r => isAlphaNumeric r || (r =? rune ":")) l) in
  let word := str_slice (start l) (l_pos l) (input l) in
  let l := match key !! ToLower word with
           | Some kw => emit kw l
           | None => if negb (contains_byte word (rune ":")) then emit itemIdentifier l
                     else emit itemMetricIdentifier l
           end in
  if seriesDesc l then
    let (r, l) := peek l in
    if negb (r =? rune "{") then (Some st_lexValueSequence, l) else (Some st_lexStatements, l)
  else (Some st_lexStatements, l).

(** The digit loop of [lexEscape]: an illegal digit is reported but does not
    stop the loop, and [x] is a [uint32]. *)
Fixpoint escape_loop (n : nat) (base x ch : Z) (l : lexer) : Z * lexer :=
  match n with
  | O => (x, l)
  | S n' =>
    let d := u32 (digitVal ch) in
    let l := if base <=? d then
               let l := if ch =? eof then snd (errorf "escape sequence not terminated" l) else l in
               snd (errorf ("illegal character " +:+ fmt_U ch +:+ " in escape sequence") l)
             else l in
    let x := u32 (x * base + d) in
    let (ch, l) := next l in
    escape_loop n' base x ch l
  end.

(** What follows the [switch] of [lexEscape], for the [n], [base] and [max] it
    chose. *)
Definition escape_tail (n : nat) (base max ch : Z) (l : lexer) : lexer :=
  let (x, l) := escape_loop n base 0 ch l in
  if (max <? x) || ((0xD800 <=? x) && (x <? 0xE000))
  then snd (errorf "escape sequence is an invalid Unicode code point" l)
  else l.

Definition lexEscape (l : lexer) : lexer :=
  let (ch, l) := next l in
  if ContainsRune "abfnrtv\" ch || (ch =? stringOpen l) then l
  else if ContainsRune "01234567" ch then escape_tail 3 8 255 ch l
  else if ch =? rune "x" then let (ch, l) := next l in escape_tail 2 16 255 ch l
  else if ch =? rune "u" then let (ch, l) := next l in escape_tail 4 16 MaxRune ch l
  else if ch =? rune "U" then let (ch, l) := next l in escape_tail 8 16 MaxRune ch l
  else if ch =? eof then escape_tail 0 0 0 ch (snd (errorf "escape sequence not terminated" l))
  else escape_tail 0 0 0 ch (snd (errorf ("unknown escape sequence " +:+ fmt_U ch) l)).

(** [None] would be a loop cut short by the fuel. *)
Fixpoint string_loop (fuel : nat) (l : lexer) : option (option stateFn * lexer) :=
  match fuel with
  | O => None
  | S fuel' =>
    let (r, l) := next l in
    if r =? rune "\" then string_loop fuel' (lexEscape l)
    else if r =? RuneError then Some (errorf "invalid UTF-8 rune" l)
    else if (r =? eof) || (r =? 10) then Some (errorf "unterminated quoted string" l)
    else if r =? stringOpen l then Some (Some st_lexStatements, emit itemString l)
    else string_loop fuel' l
  end.

Definition lexString (l : lexer) : option (option stateFn * lexer) := string_loop (fuel_of l) l.

Fixpoint raw_string_loop (fuel : nat) (l : lexer) : option (option stateFn * lexer) :=
  match fuel with
  | O => None
  | S fuel' =>
    let (r, l) := next l in
    if r =? RuneError then Some (errorf "invalid UTF-8 rune" l)
    else if r =? eof then Some (errorf "unterminated raw string" l)
    else if r =? stringOpen l then Some (Some st_lexStatements, emit itemString l)
    else raw_string_loop fuel' l
  end.

Definition lexRawString (l : lexer) : option (option stateFn * lexer) :=
  raw_string_loop (fuel_of l) l.


Definition lexInsideBraces (l : lexer) : option stateFn * lexer :=
  if has_comment l then (Some st_lexLineComment, l)
  else
  let again l := (Some st_lexInsideBraces, l) in
  let (r, l) := next l in
  if r =? eof then errorf "unexpected end of input inside braces" l
  else if isSpace r then (Some st_lexSpace, l)
  else if isAlpha r then (Some st_lexIdentifier, backup l)
  else if r =? rune "," then again (emit itemComma l)
  else if (r =? rune "034") || (r =? rune "'") then (Some st_lexString, set_stringOpen l r)
  else if r =? rune "`" then (Some st_lexRawString, set_stringOpen l r)
  else if r =? rune "=" then
    let (r, l) := next l in
    if r =? rune "~" then again (emit itemEQLRegex l)
    else again (emit itemEQL (backup l))
  else if r =? rune "!" then
    let (nr, l) := next l in
    if nr =? rune "~" then again (emit itemNEQRegex l)
    else if nr =? rune "=" then again (emit itemNEQ l)
    else errorf ("unexpected character after '!' inside braces: " +:+ fmt_q_rune nr) l
  else if r =? rune "{" then errorf ("unexpected left brace " +:+ fmt_q_rune r) l
  else if r =? rune "}" then
    let l := set_braceOpen (emit itemRightBrace l) false in
    if seriesDesc l then (Some st_lexValueSequence, l) else (Some st_lexStatements, l)
  else errorf ("unexpected character inside braces: " +:+ fmt_q_rune r) l.

Definition lexValueSequence (l : lexer) : option stateFn * lexer :=
  let again l := (Some st_lexValueSequence, l) in
  let number l := again (snd (lexNumber (backup l))) in
  let (r, l) := next l in
  if r =? eof then (Some st_lexStatements, l)
  else if isSpace r then again (snd (lexSpace l))
  else if r =? rune "+" then again (emit itemADD l)
  else if r =? rune "-" then again (emit itemSUB l)
  else if r =? rune "x" then again (emit itemTimes l)
  else if r =? rune "_" then again (emit itemBlank l)
  else if isDigit r then number l
  else
    (* the second disjunct of the case peeks only after a dot *)
    let (dot, l) := if r =? rune "." then let (t, l) := peek l in (isDigit t, l) else (false, l) in
    if dot then number l
    else if isAlpha r then (Some st_lexKeywordOrIdentifier, backup l)
    else errorf ("unexpected character in series sequence: " +:+ fmt_q_rune r) l.

(** The cases of [lexStatements] after the number case. *)
Definition lexStatements_rest (r : Z) (l : lexer) : option stateFn * lexer :=
  let again l := (Some st_lexStatements, l) in
  if (r =? rune "034") || (r =? rune "'") then (Some st_lexString, set_stringOpen l r)
  else if r =? rune "`" then (Some st_lexRawString, set_stringOpen l r)
  else if isAlpha r || (r =? rune ":") then (Some st_lexKeywordOrIdentifier, backup l)
  else if r =? rune "(" then
    let l := emit itemLeftParen l in again (set_parenDepth l (parenDepth l + 1))
  else if r =? rune ")" then
    let l := emit itemRightParen l in
    let l := set_parenDepth l (parenDepth l - 1) in
    if parenDepth l <? 0 then errorf ("unexpected right parenthesis " +:+ fmt_q_rune r) l
    else again l
  else if r =? rune "{" then
    lexInsideBraces (set_braceOpen (emit itemLeftBrace l) true)
  else if r =? rune "[" then
    if bracketOpen l then errorf ("unexpected left bracket " +:+ fmt_q_rune r) l
    else (Some st_lexDuration, set_bracketOpen (emit itemLeftBracket l) true)
  else if r =? rune "]" then
    if negb (bracketOpen l) then errorf ("unexpected right bracket " +:+ fmt_q_rune r) l
    else again (set_bracketOpen (emit itemRightBracket l) false)
  else errorf ("unexpected character: " +:+ fmt_q_rune r) l.

Definition lexStatements (l : lexer) : option stateFn * lexer :=
  if braceOpen l then (Some st_lexInsideBraces, l)
  else if has_comment l then (Some st_lexLineComment, l)
  else
  let again l := (Some st_lexStatements, l) in
  let (r, l) := next l in
  if r =? eof then
    if negb (parenDepth l =? 0) then errorf "unclosed left parenthesis" l
    else if bracketOpen l then errorf "unclosed left bracket" l
    else (None, emit itemEOF l)
  else if r =? rune "," then again (emit itemComma l)
  else if isSpace r then (Some st_lexSpace, l)
  else if r =? rune "*" then again (emit itemMUL l)
  else if r =? rune "/" then again (emit itemDIV l)
  else if r =? rune "%" then again (emit itemMOD l)
  else if r =? rune "+" then again (emit itemADD l)
  else if r =? rune "-" then again (emit itemSUB l)
  else if r =? rune "^" then again (emit itemPOW l)
  else if r =? rune "=" then
    let (t, l) := peek l in
    if t =? rune "=" then again (emit itemEQL (snd (next l)))
    else if t =? rune "~" then errorf ("unexpected character after '=': " +:+ fmt_q_rune t) l
    else again (emit itemAssign l)
  else if r =? rune "!" then
    let (t, l) := next l in
    if t =? rune "=" then again (emit itemNEQ l)
    else errorf ("unexpected character after '!': " +:+ fmt_q_rune t) l
  else if r =? rune "<" then
    let (t, l) := peek l in
    if t =? rune "=" then again (emit itemLTE (snd (next l))) else again (emit itemLSS l)
  else if r =? rune ">" then
    let (t, l) := peek l in
    if t =? rune "=" then again (emit itemGTE (snd (next l))) else again (emit itemGTR l)
  else if isDigit r then (Some st_lexNumberOrDuration, backup l)
  else
    let (dot, l) := if r =? rune "." then let (t, l) := peek l in (isDigit t, l) else (false, l) in
    if dot then (Some st_lexNumberOrDuration, backup l)
    else lexStatements_rest r l.

(** One iteration of [run]: [l.state = l.state(l)]. *)
Definition run_state (s : stateFn) (l : lexer) : option (option stateFn * lexer) :=
  match s with
  | st_lexStatements => Some (lexStatements l)
  | st_lexInsideBraces => Some (lexInsideBraces l)
  | st_lexValueSequence => Some (lexValueSequence l)
  | st_lexString => lexString l
  | st_lexRawString => lexRawString l
  | st_lexSpace => Some (lexSpace l)
  | st_lexLineComment => Some (lexLineComment l)
  | st_lexDuration => Some (lexDuration l)
  | st_lexNumberOrDuration => Some (lexNumberOrDuration l)
  | st_lexIdentifier => Some (lexIdentifier l)
  | st_lexKeywordOrIdentifier => Some (lexKeywordOrIdentifier l)
  end.

(** [run]; [None] would be a run cut short by the fuel. *)
Fixpoint run (fuel : nat) (s : stateFn) (l : lexer) : option lexer :=
  match fuel with
  | O => None
  | S fuel' =>
    match run_state s l with
    | None => None
    | Some (None, l) => Some l
    | Some (Some s, l) => run fuel' s l
    end
  end.

Definition new_lexer (s : string) (series : bool) : lexer :=
  Lexer s 0 0 0 [] 0 false false 0 series.

(** Four states per byte suffice (theorem [lex_total]). *)
Definition lex_fuel (s : string) : nat := 4 * String.length s + 4.

(** The items sent on the channel for an input. *)
Definition lex (s : string) (series : bool) : option (list item) :=
  items <$> run (lex_fuel s) st_lexStatements (new_lexer s series).

End states.

(** * The receiving end: the position of the last item, for error messages *)

Record lexHandle := LexHandle {
  lh_input : string;
  lh_items : list item;   (* not yet received *)
  lastPos : nat
}.

(** [nextItem]; a receive from the closed channel gives the zero item. *)
Definition nextItem (h : lexHandle) : item * lexHandle :=
  match lh_items h with
  | [] => (Item itemError 0 "", LexHandle (lh_input h) [] 0)
  | i :: more => (i, LexHandle (lh_input h) more (pos i))
  end.

Definition lineNumber (h : lexHandle) : Z :=
  1 + Z.of_nat (count_byte (str_take (lastPos h) (lh_input h)) 10).

Definition linePosition (h : lexHandle) : Z :=
  let lb := last_index (str_take (lastPos h) (lh_input h)) 10 in
  if lb =? -1 then 1 + Z.of_nat (lastPos h) else 1 + Z.of_nat (lastPos h) - lb.

(** Examples: the shapes of lex_test.go. *)
Section examples.
#[local] Instance ascii_tables : UnicodeTables := {| is_print_high _ := true |}.

Example lex_sum :
  (map (fun i => (typ i, val i)) <$> lex "sum(rate(x{a=~'b'}[5m])) # c" false)
  = Some [(itemSum, "sum"); (itemLeftParen, "("); (itemIdentifier, "rate"); (itemLeftParen, "(");
          (itemIdentifier, "x"); (itemLeftBrace, "{"); (itemIdentifier, "a"); (itemEQLRegex, "=~");
          (itemString, "'b'"); (itemRightBrace, "}"); (itemLeftBracket, "["); (itemDuration, "5m");
          (itemRightBracket, "]"); (itemRightParen, ")"); (itemRightParen, ")"); (itemComment, "# c");
          (itemEOF, "")].
Proof. vm_compute. reflexivity. Qed.

Example lex_unbalanced :
  (map typ <$> lex "(1" false) = Some [itemLeftParen; itemNumber; itemError].
Proof. vm_compute. reflexivity. Qed.

Example lex_series :
  (map (fun i => (typ i, val i)) <$> lex "{} 1+2x3 _" true)
  = Some [(itemLeftBrace, "{"); (itemRightBrace, "}"); (itemNumber, "1"); (itemADD, "+"); (itemNumber, "2");
          (itemTimes, "x"); (itemNumber, "3"); (itemBlank, "_"); (itemEOF, "")].
Proof. vm_compute. reflexivity. Qed.
End examples.
