(* ===== verification/LexerFacts.v ===== *)
(** Properties of the scanner of Lexer.v: it terminates on every input with an
    EOF or an error item, its items tile the input up to white space, and a
    stream that reaches EOF is balanced. *)

From S2P Require Import Prelude GoString GoFmt Lexer.

(** * The abstract specification of a token stream *)

Definition spaces (s : string) : bool := str_forall isSpace s.

(** The items cover [s] from offset [from] to offset [upto]: each value is the
    slice of the input at the item's position, and what lies between two items
    is white space. *)
Fixpoint covers (s : string) (from : nat) (its : list item) (upto : nat) : Prop :=
  match its with
  | [] => (from <= upto)%nat /\ spaces (str_slice from upto s) = true
  | i :: its' =>
    (from <= pos i)%nat /\ spaces (str_slice from (pos i) s) = true /\
    val i = str_slice (pos i) (pos i + String.length (val i)) s /\
    covers s (pos i + String.length (val i)) its' upto
  end.

(** Nesting depth of a pair of delimiters in a stream. *)
Fixpoint depth (o c : ItemType) (its : list item) : Z :=
  match its with
  | [] => 0
  | i :: its' => (if decide (typ i = o) then 1 else if decide (typ i = c) then -1 else 0) + depth o c its'
  end.

(** Every prefix has a depth between 0 and [hi], and the whole stream ends at
    depth [d]. *)
Definition nested (o c : ItemType) (hi : option Z) (d : Z) (its : list item) : Prop :=
  depth o c its = d /\
  forall n, 0 <= depth o c (take n its) /\ (forall h, hi = Some h -> depth o c (take n its) <= h).

Definition no_error (its : list item) : Prop := Forall (fun i => typ i <> itemError) its.

(** * Lemmas on the specification *)

Lemma covers_snoc s f its n m t :
  covers s f its n -> (n <= m <= String.length s)%nat ->
  covers s f (its ++ [Item t n (str_slice n m s)]) m.
Proof.
  revert f. induction its as [|i its IH]; intros f; simpl.
  - intros [? ?] ?. rewrite str_length_slice by lia.
    replace (n + (m - n))%nat with m by lia. repeat split; try done. by rewrite str_slice_empty.
  - intros (? & ? & ? & ?) ?. eauto.
Qed.

Lemma covers_space s f its n m :
  covers s f its n -> (n <= m)%nat -> spaces (str_slice n m s) = true -> covers s f its m.
Proof.
  revert f. induction its as [|i its IH]; intros f; simpl.
  - intros [? Hs] ? Hs'. split; [lia|]. unfold spaces in *.
    rewrite <- (str_slice_app f n m) by lia. by rewrite str_forall_app, Hs, Hs'.
  - intros (? & ? & ? & ?) ? ?. eauto.
Qed.

Lemma depth_app o c its its' : depth o c (its ++ its') = depth o c its + depth o c its'.
Proof. induction its as [|i its IH]; [done|]. simpl. lia. Qed.

Lemma nested_nil o c hi : (forall h, hi = Some h -> 0 <= h) -> nested o c hi 0 [].
Proof. intros Hh. split; [done|]. intros n. rewrite take_nil. simpl. split; [lia|]. intros. by apply Hh. Qed.

Lemma nested_snoc o c hi d its i :
  nested o c hi d its -> 0 <= d + depth o c [i] ->
  (forall h, hi = Some h -> d + depth o c [i] <= h) ->
  nested o c hi (d + depth o c [i]) (its ++ [i]).
Proof.
  intros [Hd Hn] H0 Hh. split; [by rewrite depth_app, Hd|]. intros n.
  destruct (decide (n <= length its)%nat).
  - rewrite take_app_le by done. apply Hn.
  - rewrite take_ge by (rewrite length_app; simpl; lia). rewrite depth_app, Hd. auto.
Qed.

Lemma nested_snoc_other o c hi d its i :
  nested o c hi d its -> typ i <> o -> typ i <> c -> nested o c hi d (its ++ [i]).
Proof.
  intros Hn Ho Hc. replace d with (d + depth o c [i]) by (simpl; rewrite !decide_False by done; lia).
  apply nested_snoc; [done|..]; simpl; rewrite !decide_False by done; destruct Hn as [Hd Hn];
    specialize (Hn (length its)); rewrite firstn_all in Hn; [|intros h Hh; specialize (proj2 Hn h Hh)]; lia.
Qed.

Lemma no_error_snoc its i : no_error (its ++ [i]) <-> no_error its /\ typ i <> itemError.
Proof. unfold no_error. rewrite Forall_app, Forall_singleton. done. Qed.

(** * Well-formed scanner states and the invariant *)

Definition lexer_wf (l : lexer) : Prop :=
  (start l <= l_pos l <= String.length (input l))%nat.

Definition delims (l : lexer) : Prop :=
  nested itemLeftParen itemRightParen None (parenDepth l) (items l) /\
  nested itemLeftBrace itemRightBrace (Some 1) (if braceOpen l then 1 else 0) (items l) /\
  nested itemLeftBracket itemRightBracket (Some 1) (if bracketOpen l then 1 else 0) (items l).

(** Holds until an error has been reported: what was scanned up to [start] is
    covered by the items sent, and the three nesting states are the depths of
    the stream. *)
Definition Inv (l : lexer) : Prop :=
  no_error (items l) -> covers (input l) 0 (items l) (start l) /\ delims l.

(** A step keeps the input and the mode, stays well formed and keeps [Inv]. *)
Record good (l l' : lexer) : Prop := Good {
  good_input : input l' = input l;
  good_series : seriesDesc l' = seriesDesc l;
  good_wf : lexer_wf l';
  good_inv : Inv l -> Inv l'
}.

Lemma good_refl l : lexer_wf l -> good l l.
Proof. by constructor. Qed.

Lemma good_trans l1 l2 l3 : good l1 l2 -> good l2 l3 -> good l1 l3.
Proof. intros [] []. constructor; [congruence..|done|auto]. Qed.

Definition plain (t : ItemType) : Prop :=
  t ∉ [itemError; itemLeftParen; itemRightParen; itemLeftBrace; itemRightBrace;
       itemLeftBracket; itemRightBracket].

Lemma delims_emit t l : plain t -> delims l -> delims (emit t l).
Proof.
  intros Hp (H1 & H2 & H3). unfold plain in Hp.
  unfold delims, emit. simpl. split; [|split]; apply nested_snoc_other; try done; simpl; set_solver.
Qed.

Lemma good_emit t l : plain t -> lexer_wf l -> good l (emit t l).
Proof.
  intros Hp Hwf. constructor; try done; [by unfold lexer_wf in *; simpl in *; lia|].
  intros HI Hne. apply no_error_snoc in Hne as [Hne _]. destruct (HI Hne) as [Hc Hd].
  split; [|by apply delims_emit]. apply covers_snoc; [done|]. unfold lexer_wf in Hwf. simpl. lia.
Qed.

Lemma good_error msg l : lexer_wf l -> good l (snd (errorf msg l)).
Proof. intros Hwf. constructor; try done. intros _ Hne. apply no_error_snoc in Hne as [_ Hne]. done. Qed.

Lemma good_stringOpen l q : lexer_wf l -> good l (set_stringOpen l q).
Proof. intros Hwf. constructor; try done. Qed.

Lemma good_ignore l :
  lexer_wf l -> (no_error (items l) -> spaces (str_slice (start l) (l_pos l) (input l)) = true) ->
  good l (ignore l).
Proof.
  intros Hwf Hs. constructor; try done; [unfold lexer_wf in *; simpl; lia|].
  intros HI Hne. destruct (HI Hne) as [Hc Hd]. split; [|done].
  eapply covers_space; [done| |by apply Hs]. simpl. unfold lexer_wf in Hwf. lia.
Qed.

(** * Moves of the cursor *)

(** The rune under the cursor and its width. *)
Definition cur (l : lexer) : Z * nat :=
  if (String.length (input l) <=? l_pos l)%nat then (eof, 0%nat) else DecodeRuneInString (rest l).

Lemma next_cur l : next l = (fst (cur l), set_pos_width l (l_pos l + snd (cur l)) (snd (cur l))).
Proof.
  unfold next, cur. case_match; [by rewrite Nat.add_0_r|]. by destruct (DecodeRuneInString _).
Qed.

Lemma peek_cur l : peek l = (fst (cur l), set_pos_width l (l_pos l) (snd (cur l))).
Proof. unfold peek. rewrite next_cur. unfold backup, set_pos_width. simpl. by rewrite Nat.add_sub. Qed.

(** The cursor is at the end of the input, or on a rune that is not [eof]. *)
Lemma cur_spec l :
  (l_pos l <= String.length (input l))%nat ->
  (l_pos l = String.length (input l) /\ cur l = (eof, 0%nat)) \/
  (0 <= fst (cur l) /\ (1 <= snd (cur l) /\ l_pos l + snd (cur l) <= String.length (input l))%nat).
Proof.
  intros Hl. unfold cur. case_match; bool_prop; [left; split; [lia|done]|right].
  assert (String.length (rest l) = String.length (input l) - l_pos l)%nat as Hr by apply str_length_drop.
  destruct (rest l) as [|c s]; [simpl in Hr; lia|].
  destruct (DecodeRuneInString (String c s)) as [r w] eqn:Hd.
  pose proof (decode_width _ _ _ _ Hd) as Hw. simpl in *. split; [|lia].
  destruct (decide (w <> 1%nat \/ r <> RuneError)) as [Hok|Hno].
  - by destruct (encode_decode _ _ _ _ Hd Hok) as (_ & ? & _); lia.
  - destruct (decide (r = RuneError)) as [->|]; [done|]. naive_solver.
Qed.

(** [cur] looks only at the input and the position. *)
Lemma cur_set_pos_width l p w w' : cur (set_pos_width l p w) = cur (set_pos_width l p w').
Proof. done. Qed.

Lemma set_pos_width_twice l p w q v : set_pos_width (set_pos_width l p w) q v = set_pos_width l q v.
Proof. done. Qed.

(** [l'] is [l] with the cursor at least [k] bytes further. *)
Definition adv (k : nat) (l l' : lexer) : Prop :=
  exists q w, l' = set_pos_width l q w /\ (l_pos l + k <= q <= String.length (input l))%nat.

Lemma adv_refl l : (l_pos l <= String.length (input l))%nat -> adv 0 l l.
Proof. intros. exists (l_pos l), (width l). split; [by destruct l|lia]. Qed.

Lemma adv_trans j k l1 l2 l3 : adv j l1 l2 -> adv k l2 l3 -> adv (j + k) l1 l3.
Proof. intros (q & w & -> & ?) (q' & w' & -> & ?). exists q', w'. simpl in *. split; [done|lia]. Qed.

Lemma adv_weaken j k l l' : adv j l l' -> (k <= j)%nat -> adv k l l'.
Proof. intros (q & w & -> & ?) ?. exists q, w. split; [done|lia]. Qed.

Lemma adv_good k l l' : lexer_wf l -> adv k l l' -> good l l'.
Proof.
  intros Hwf (q & w & -> & Hq). constructor; try done.
  unfold lexer_wf in *. simpl. lia.
Qed.

Lemma adv_pos k l l' : adv k l l' -> (l_pos l + k <= l_pos l' <= String.length (input l))%nat.
Proof. by intros (q & w & -> & ?). Qed.

Lemma adv_input k l l' : adv k l l' -> input l' = input l.
Proof. by intros (q & w & -> & ?). Qed.

Lemma adv_le k l l' : adv k l l' -> (l_pos l' <= String.length (input l'))%nat.
Proof. intros (q & w & -> & ?). simpl. lia. Qed.

Lemma adv_next l :
  (l_pos l <= String.length (input l))%nat -> fst (cur l) <> eof -> adv 1 l (snd (next l)).
Proof.
  intros Hl He. rewrite next_cur. destruct (cur_spec l Hl) as [[_ Hc]|Hc]; [by rewrite Hc in He|].
  eexists _, _. split; [done|]. simpl. lia.
Qed.

Lemma adv_peek l : (l_pos l <= String.length (input l))%nat -> adv 0 l (snd (peek l)).
Proof. intros Hl. rewrite peek_cur. eexists _, _. split; [done|]. lia. Qed.

Lemma adv_accept valid l :
  (l_pos l <= String.length (input l))%nat ->
  adv (if ContainsRune valid (fst (cur l)) then 1 else 0) l (snd (accept valid l)) /\
  fst (accept valid l) = ContainsRune valid (fst (cur l)).
Proof.
  intros Hl. unfold accept. rewrite next_cur. unfold backup.
  destruct (ContainsRune valid (fst (cur l))) eqn:E; simpl; split; try done.
  - destruct (cur_spec l Hl) as [[_ Hc]|Hc].
    + rewrite Hc in E. exfalso. clear - E. induction valid as [|c s IH]; [done|].
      simpl in E. bool_prop. destruct E as [E|E]; [|done]. bool_prop. pose proof (rune_range c). unfold eof in E. lia.
    + eexists _, _. split; [done|]. lia.
  - rewrite set_pos_width_twice, Nat.add_sub. eexists _, _. split; [done|]. lia.
Qed.

(** The loops over [next]: the cursor ends after the first rune that fails
    [p], and that rune can be backed up. *)
Lemma next_while_spec fuel p l :
  (l_pos l <= String.length (input l))%nat -> p eof = false -> (1 <= fuel)%nat ->
  exists q w, next_while fuel p l = set_pos_width l q w /\
    (l_pos l + w <= q <= String.length (input l))%nat /\
    (p (fst (cur l)) = true -> (2 <= fuel)%nat -> (l_pos l + 1 + w <= q)%nat).
Proof.
  revert l. induction fuel as [|fuel IH]; intros l Hl Hp Hf; [lia|]. cbn [next_while].
  rewrite next_cur. destruct (cur_spec l Hl) as [[_ Hc]|Hc].
  - rewrite Hc. simpl. rewrite Hp. eexists _, _. split; [done|]. split; [lia|done].
  - destruct (p (fst (cur l))) eqn:Ep; [|eexists _, _; split; [done|]; split; [lia|done]].
    destruct fuel as [|fuel]; [simpl; eexists _, _; split; [done|]; split; [lia|lia]|].
    destruct (IH (set_pos_width l (l_pos l + snd (cur l)) (snd (cur l)))) as (q & w & -> & Hq & _);
      [simpl; lia|done|lia|].
    exists q, w. simpl in *. split; [done|]. lia.
Qed.

Lemma next_while_backup p l :
  (l_pos l <= String.length (input l))%nat -> p eof = false ->
  adv (if p (fst (cur l)) then 1 else 0) l (backup (next_while (fuel_of l) p l)).
Proof.
  intros Hl Hp. destruct (next_while_spec (fuel_of l) p l) as (q & w & -> & Hq & Hk);
    [done|done|unfold fuel_of; lia|].
  unfold backup. exists (q - w)%nat, w. split; [done|]. simpl.
  destruct (p (fst (cur l))) eqn:E; [|lia].
  destruct (cur_spec l Hl) as [[_ Hc]|Hc]; [rewrite Hc in E; simpl in E; congruence|].
  specialize (Hk eq_refl). unfold fuel_of in Hk. lia.
Qed.

Lemma ContainsRune_eof valid : ContainsRune valid eof = false.
Proof.
  induction valid as [|c s IH]; [done|]. simpl. rewrite IH, orb_false_r.
  apply Z.eqb_neq. pose proof (rune_range c). unfold eof. lia.
Qed.

Lemma adv_acceptRun valid l :
  (l_pos l <= String.length (input l))%nat ->
  adv (if ContainsRune valid (fst (cur l)) then 1 else 0) l (acceptRun valid l).
Proof. intros. by apply next_while_backup, ContainsRune_eof. Qed.

Definition stays (l l' : lexer) : Prop := exists w, l' = set_pos_width l (l_pos l) w.

Lemma stays_cur l l' : stays l l' -> cur l' = cur l.
Proof. by intros [w ->]. Qed.

Lemma stays_adv l l' : (l_pos l <= String.length (input l))%nat -> stays l l' -> adv 0 l l'.
Proof. intros Hl [w ->]. exists (l_pos l), w. split; [done|lia]. Qed.

Lemma stays_refl l : stays l l.
Proof. exists (width l). by destruct l. Qed.

Lemma stays_peek l : stays l (snd (peek l)).
Proof. rewrite peek_cur. by eexists. Qed.

Lemma accept_stays valid l :
  ContainsRune valid (fst (cur l)) = false -> stays l (snd (accept valid l)).
Proof. intros E. unfold accept. rewrite next_cur, E. unfold backup. simpl. rewrite Nat.add_sub. by eexists. Qed.

Lemma next_while_stays p l :
  p (fst (cur l)) = false -> stays l (backup (next_while (fuel_of l) p l)).
Proof.
  intros E. unfold fuel_of. cbn [next_while]. rewrite next_cur, E. unfold backup.
  rewrite set_pos_width_twice. simpl. rewrite Nat.add_sub. by eexists.
Qed.

(** Either the cursor moved, or it is still where it was. *)
Lemma accept_cases valid l :
  (l_pos l <= String.length (input l))%nat ->
  adv 1 l (snd (accept valid l)) \/ stays l (snd (accept valid l)).
Proof.
  intros Hl. destruct (ContainsRune valid (fst (cur l))) eqn:E; [left|right; by apply accept_stays].
  destruct (adv_accept valid l Hl) as [Ha _]. by rewrite E in Ha.
Qed.

Lemma isDigit_range r : isDigit r = true -> 48 <= r <= 57.
Proof. unfold isDigit. intros. bool_prop. dischars. lia. Qed.

Lemma isDigit_digits r (hex : bool) :
  isDigit r = true ->
  ContainsRune (if hex then "0123456789abcdefABCDEF" else "0123456789") r = true.
Proof.
  intros Hr%isDigit_range. assert (r ∈ seqZ 48 10) as Hin by (apply elem_of_seqZ; lia).
  clear Hr. revert r Hin. apply (Forall_forall (fun r => _)). by destruct hex; repeat constructor.
Qed.

(** Composition of moves, up to weakening. *)
Lemma adv_step k l l1 l2 : adv k l l1 -> (forall j, adv j l l1 -> adv 0 l1 l2) -> adv k l l2.
Proof. intros H1 H2. specialize (H2 k H1). replace k with (k + 0)%nat by lia. by eapply adv_trans. Qed.

Lemma adv_zero k l l' : adv k l l' -> adv 0 l l'.
Proof. intros H. by eapply adv_weaken; [|apply Nat.le_0_l]. Qed.

Lemma adv_step_back k l l1 l2 : adv 0 l l1 -> adv k l1 l2 -> adv k l l2.
Proof. apply (adv_trans 0 k). Qed.

Lemma adv0_accept valid l k l0 : adv k l0 l -> adv 0 l (snd (accept valid l)).
Proof. intros H%adv_le. by destruct (adv_accept valid l H) as [?%adv_zero _]. Qed.

Lemma adv0_acceptRun valid l k l0 : adv k l0 l -> adv 0 l (acceptRun valid l).
Proof. intros H%adv_le. by eapply adv_zero, adv_acceptRun. Qed.

Lemma adv0_peek l k l0 : adv k l0 l -> adv 0 l (snd (peek l)).
Proof. intros H%adv_le. by apply adv_peek. Qed.

(** The optional hexadecimal prefix. *)
Definition scan_prefix (l : lexer) : bool * lexer :=
  if seriesDesc l then (false, l)
  else let (zero, l) := accept "0" l in if zero then accept "xX" l else (false, l).

Lemma scan_prefix_cases l :
  (l_pos l <= String.length (input l))%nat ->
  adv 1 l (snd (scan_prefix l)) \/ stays l (snd (scan_prefix l)).
Proof.
  intros Hl. unfold scan_prefix. destruct (seriesDesc l); [right; apply stays_refl|].
  pose proof (accept_cases "0" l Hl) as Hc. pose proof (accept_stays "0" l) as Hs.
  destruct (adv_accept "0" l Hl) as [Ha Hz]. destruct (accept "0" l) as [zero l0]. cbn [fst snd] in *. subst zero.
  destruct (ContainsRune "0" (fst (cur l))); [left|right; by apply Hs].
  eapply adv_step; [done|]. intros ? ?. by eapply adv0_accept.
Qed.

(** The digits after the prefix. *)
Lemma scan_digits_cases l (hex : bool) l1 :
  (l_pos l <= String.length (input l))%nat -> adv 1 l l1 \/ stays l l1 ->
  let l2 := acceptRun (if hex then "0123456789abcdefABCDEF" else "0123456789") l1 in
  adv (if isDigit (fst (cur l)) then 1 else 0) l l2 /\
  (fst (cur l) = rune "." -> adv 1 l l2 \/ stays l l2).
Proof.
  intros Hl [H1|H1] l2.
  - assert (adv 1 l l2) by (eapply adv_step; [done|]; intros ? ?; by eapply adv0_acceptRun).
    split; [|by left]. by destruct (isDigit _); [|eapply adv_zero].
  - destruct (isDigit (fst (cur l))) eqn:Ed.
    + split; [|intros E; rewrite E in Ed; done].
      eapply adv_step_back; [by apply stays_adv|].
      pose proof (adv_acceptRun (if hex then "0123456789abcdefABCDEF" else "0123456789") l1) as Ha.
      rewrite (stays_cur _ _ H1), isDigit_digits in Ha by done. apply Ha.
      by destruct H1 as [w ->].
    + destruct H1 as [w ->]. split.
      * eapply adv_zero, (adv_acceptRun _ (set_pos_width l (l_pos l) w)). done.
      * intros Hdot. right. apply (next_while_stays (ContainsRune _) (set_pos_width l (l_pos l) w)).
        change (cur (set_pos_width l (l_pos l) w)) with (cur l). rewrite Hdot. by destruct hex.
Qed.

(** [scanNumber] never moves back, and it moves when the cursor is on a digit
    or a dot. *)
Lemma adv_scanNumber l :
  (l_pos l <= String.length (input l))%nat ->
  adv (if isDigit (fst (cur l)) || (fst (cur l) =? rune ".") then 1 else 0) l (snd (scanNumber l)).
Proof.
  intros Hl. unfold scanNumber. fold (scan_prefix l).
  pose proof (scan_prefix_cases l Hl) as H1. destruct (scan_prefix l) as [hex l1]. cbn [fst snd] in H1.
  destruct (scan_digits_cases l hex l1 Hl H1) as [Hd Hdot]. set (l2 := acceptRun _ l1) in *. clearbody l2.
  destruct (adv_accept "." l2) as [H3 _]; [by eapply adv_le|].
  destruct (accept "." l2) as [dot l3]. cbn [fst snd] in H3.
  assert (adv (if isDigit (fst (cur l)) || (fst (cur l) =? rune ".") then 1 else 0) l l3) as H4.
  { destruct (isDigit (fst (cur l))); cbn [orb] in *; [by eapply adv_step; [|intros; eapply adv_zero]|].
    destruct (fst (cur l) =? rune ".") eqn:E; bool_prop; [|by eapply adv_step; [|intros; eapply adv_zero]].
    destruct (Hdot E) as [?|Hs]; [by eapply adv_step; [|intros; eapply adv_zero]|].
    rewrite (stays_cur _ _ Hs), E in H3. eapply adv_step_back; [by apply stays_adv|done]. }
  clear - H4. set (k := if _ || _ then _ else _) in *. clearbody k.
  assert (adv k l (if dot then acceptRun (if hex : bool then "0123456789abcdefABCDEF" else "0123456789") l3 else l3)) as H5.
  { destruct dot; [|done]. eapply adv_step; [done|]. intros. by eapply adv0_acceptRun. }
  set (l4 := if dot then _ else _) in *. clearbody l4.
  pose proof (adv0_accept "eE" l4 _ _ H5) as H6. destruct (accept "eE" l4) as [e l5]. cbn [fst snd] in H6.
  assert (adv k l l5) as H7 by (by eapply adv_step). clear H6.
  assert (adv k l (if e then acceptRun "0123456789" (snd (accept "+-" l5)) else l5)) as H8.
  { destruct e; [|done]. assert (adv k l (snd (accept "+-" l5))) by (eapply adv_step; [done|]; intros; by eapply adv0_accept).
    eapply adv_step; [done|]. intros. by eapply adv0_acceptRun. }
  set (l6 := if e then _ else _) in *. clearbody l6.
  pose proof (adv0_peek l6 _ _ H8) as H9. destruct (peek l6). by eapply adv_step.
Qed.

(** * White space *)

(** An ASCII rune under the cursor is one byte. *)
Lemma cur_ascii l :
  (l_pos l <= String.length (input l))%nat -> 0 <= fst (cur l) < 0x80 ->
  snd (cur l) = 1%nat /\
  str_slice (l_pos l) (l_pos l + 1) (input l) = String (byte_of (fst (cur l))) "".
Proof.
  intros Hl. unfold cur, str_slice, rest. case_match; bool_prop; [unfold eof; simpl; lia|].
  rewrite Nat.add_sub' || replace (l_pos l + 1 - l_pos l)%nat with 1%nat by lia.
  pose proof (str_length_drop (l_pos l) (input l)) as Hr.
  destruct (str_drop (l_pos l) (input l)) as [|c s]; [simpl in Hr; lia|].
  destruct (DecodeRuneInString (String c s)) as [r w] eqn:Hd. simpl fst. simpl snd. intros Hb.
  destruct (encode_decode _ _ _ _ Hd) as (He & _ & _); [right; unfold RuneError; lia|].
  rewrite EncodeRune_1 in He by lia. destruct (decode_width _ _ _ _ Hd).
  destruct w as [|[|w]]; [lia| |].
  - split; [done|]. simpl in *. congruence.
  - apply (f_equal String.length) in He. rewrite str_length_take in He. cbn [String.length str_of_bytes foldr] in *. lia.
Qed.

Lemma cur_not_eof l :
  (l_pos l <= String.length (input l))%nat -> fst (cur l) <> eof -> 0 <= fst (cur l).
Proof. intros Hl He. destruct (cur_spec l Hl) as [[_ Hc]|[? _]]; [by rewrite Hc in He|done]. Qed.

Lemma isSpace_range r : isSpace r = true -> 0 <= r < 0x80 /\ r <> eof.
Proof. unfold isSpace, eof. intros. repeat (bool_prop; destruct_or?); lia. Qed.

Lemma spaces_one r : isSpace r = true -> spaces (String (byte_of r) "") = true.
Proof.
  intros Hr. pose proof (isSpace_range r Hr). unfold spaces. simpl.
  by rewrite rune_byte_of, Hr by lia.
Qed.

Lemma spaces_snoc i j l :
  (i <= l_pos l <= String.length (input l))%nat -> isSpace (fst (cur l)) = true ->
  spaces (str_slice i (l_pos l) (input l)) = true -> j = (l_pos l + snd (cur l))%nat ->
  spaces (str_slice i j (input l)) = true.
Proof.
  intros Hi Hsp Hs ->. destruct (cur_ascii l) as [-> Hsl]; [lia|by destruct (isSpace_range _ Hsp)|].
  rewrite <- (str_slice_app i (l_pos l) (l_pos l + 1)) by lia.
  pose proof (spaces_one _ Hsp) as H1. unfold spaces in *. by rewrite str_forall_app, Hs, Hsl, H1.
Qed.

Lemma space_loop_spec fuel i l :
  (i <= l_pos l <= String.length (input l))%nat ->
  spaces (str_slice i (l_pos l) (input l)) = true ->
  exists q w, space_loop fuel l = set_pos_width l q w /\
    (l_pos l <= q <= String.length (input l))%nat /\
    spaces (str_slice i q (input l)) = true.
Proof.
  revert l. induction fuel as [|fuel IH]; intros l Hi Hs; cbn [space_loop].
  { exists (l_pos l), (width l). split; [by destruct l|]. by split; [lia|]. }
  rewrite peek_cur. destruct (isSpace (fst (cur l))) eqn:Esp.
  - rewrite next_cur. cbn [snd]. rewrite cur_set_pos_width with (w' := width l).
    replace (set_pos_width l (l_pos l) (width l)) with l by (by destruct l). cbn [l_pos set_pos_width].
    rewrite set_pos_width_twice.
    destruct (cur_ascii l) as [Hw _]; [lia|by destruct (isSpace_range _ Esp)|].
    destruct (cur_spec l) as [[_ Hc]|Hc]; [lia|apply isSpace_range in Esp; rewrite Hc in Esp; by destruct Esp|].
    destruct (IH (set_pos_width l (l_pos l + snd (cur l)) (snd (cur l)))) as (q & w & -> & Hq & Hsq).
    { simpl. lia. }
    { eapply (spaces_snoc i _ l); try done; lia. }
    exists q, w. simpl in *. split; [done|]. split; [lia|done].
  - eexists _, _. split; [done|]. split; [lia|done].
Qed.

(** * What every state guarantees to its successor *)

Definition clean (l : lexer) : Prop := no_error (items l) -> start l = l_pos l.

Definition ready (s : stateFn) (l : lexer) : Prop :=
  match s with
  | st_lexStatements | st_lexValueSequence => clean l
  | st_lexInsideBraces => clean l /\ braceOpen l = true
  | st_lexSpace => no_error (items l) -> spaces (str_slice (start l) (l_pos l) (input l)) = true
  | st_lexLineComment => has_comment l = true
  | st_lexNumberOrDuration => isDigit (fst (cur l)) || (fst (cur l) =? rune ".") = true
  | st_lexIdentifier => isAlpha (fst (cur l)) = true
  | st_lexKeywordOrIdentifier => isAlpha (fst (cur l)) || (fst (cur l) =? rune ":") = true
  | st_lexString | st_lexRawString | st_lexDuration => True
  end.

Definition rank (s : stateFn) : nat :=
  match s with
  | st_lexValueSequence | st_lexSpace => 3
  | st_lexStatements => 2
  | st_lexInsideBraces => 1
  | _ => 0
  end.

Definition left_over (l : lexer) : nat := String.length (input l) - l_pos l.

(** How a scan may end: with an error, or with EOF at the end of the input
    and nothing left open. *)
Definition ended (l : lexer) : Prop :=
  exists its i, items l = its ++ [i] /\
    (typ i = itemError \/
     typ i = itemEOF /\ start l = String.length (input l) /\
     parenDepth l = 0 /\ braceOpen l = false /\ bracketOpen l = false).

Definition step_ok (s : stateFn) (l : lexer) (r : option stateFn * lexer) : Prop :=
  good l (snd r) /\
  match fst r with
  | Some s' => ready s' (snd r) /\ (4 * left_over (snd r) + rank s' < 4 * left_over l + rank s)%nat
  | None => ended (snd r)
  end.

Lemma step_error s l msg l1 : good l l1 -> step_ok s l (errorf msg l1).
Proof.
  intros Hg. split; [eapply good_trans; [done|apply good_error, Hg]|].
  eexists _, _. split; [done|by left].
Qed.

(** A step that goes to state [s'] after moving the cursor by [k] bytes. *)
Lemma step_goto k s l s' l1 :
  good l l1 -> lexer_wf l -> (l_pos l + k <= l_pos l1)%nat -> ready s' l1 ->
  (rank s' < rank s + 4 * k)%nat -> step_ok s l (Some s', l1).
Proof.
  intros Hg Hwf Hk Hr Hrk. split; [done|]. split; [done|]. destruct Hg as [Hi _ Hwf1 _].
  unfold left_over, lexer_wf in *. simpl. rewrite Hi in *. lia.
Qed.

(** A step that emits one item. *)
Lemma step_emit k s l s' t l1 :
  good l l1 -> lexer_wf l -> (l_pos l + k <= l_pos l1)%nat -> plain t ->
  (s' = st_lexStatements \/ s' = st_lexValueSequence \/ (s' = st_lexInsideBraces /\ braceOpen l1 = true)) ->
  (rank s' < rank s + 4 * k)%nat -> step_ok s l (Some s', emit t l1).
Proof.
  intros Hg Hwf Hk Hp Hs Hrk. eapply step_goto; try done.
  - eapply good_trans; [done|]. apply good_emit; [done|apply Hg].
  - destruct Hs as [->|[->|[-> Hb]]]; try (by intros _). by split; [intros _|].
Qed.

Ltac plain := unfold plain; set_solver.

Lemma good_set_pos l q w :
  lexer_wf l -> (start l <= q <= String.length (input l))%nat -> good l (set_pos_width l q w).
Proof. intros Hwf Hq. by constructor. Qed.

Lemma good_next l : lexer_wf l -> good l (snd (next l)).
Proof.
  intros Hwf. rewrite next_cur. apply good_set_pos; [done|]. unfold lexer_wf in *.
  destruct (cur_spec l) as [[_ ->]|?]; [lia|simpl; lia|lia].
Qed.

Lemma good_stays l l' : lexer_wf l -> stays l l' -> good l l'.
Proof. intros Hwf [w ->]. apply good_set_pos; [done|]. unfold lexer_wf in Hwf. lia. Qed.

Lemma next_progress l :
  lexer_wf l -> fst (next l) <> eof -> (l_pos l + 1 <= l_pos (snd (next l)))%nat.
Proof.
  intros [_ Hl] He. rewrite next_cur in *. simpl in *.
  destruct (cur_spec l Hl) as [[_ Hc]|Hc]; [by rewrite Hc in He|lia].
Qed.

Lemma next_backup l : stays l (backup (snd (next l))).
Proof. rewrite next_cur. unfold backup. simpl. rewrite Nat.add_sub. by eexists. Qed.

Lemma good_next_peek l : lexer_wf l -> good l (snd (peek l)).
Proof. intros. apply good_stays; [done|apply stays_peek]. Qed.

Lemma peek_pos l : l_pos (snd (peek l)) = l_pos l.
Proof. by rewrite peek_cur. Qed.

(** An error needs no invariant of the state it is reported from. *)
Lemma step_error_raw s l msg l1 :
  input l1 = input l -> seriesDesc l1 = seriesDesc l -> lexer_wf l1 -> step_ok s l (errorf msg l1).
Proof.
  intros Hi Hs Hwf. split.
  - constructor; try done. intros _ Hne. apply no_error_snoc in Hne as [_ Hne]. done.
  - eexists _, _. split; [done|by left].
Qed.

(** * Delimiters: the emission and the counter move together *)

Lemma covers_emit t l :
  lexer_wf l -> covers (input l) 0 (items l) (start l) -> covers (input l) 0 (items (emit t l)) (l_pos l).
Proof. intros Hwf Hc. apply covers_snoc; [done|]. unfold lexer_wf in Hwf. lia. Qed.

Ltac delim_tac :=
  intros Hwf; constructor; try done; [unfold lexer_wf, emit in *; simpl in *; lia|];
  intros HI Hne; apply no_error_snoc in Hne as [Hne _];
  destruct (HI Hne) as (Hc & H1 & H2 & H3); split; [exact (covers_emit _ _ Hwf Hc)|].

Lemma nested_depth o c hi d its :
  nested o c hi d its -> 0 <= d /\ (forall h, hi = Some h -> d <= h).
Proof. intros [<- Hn]. specialize (Hn (length its)). by rewrite firstn_all in Hn. Qed.

Lemma nested_open o c hi d its p v :
  nested o c hi d its -> (forall h, hi = Some h -> d + 1 <= h) ->
  nested o c hi (d + 1) (its ++ [Item o p v]).
Proof.
  intros Hn Hh. destruct (nested_depth _ _ _ _ _ Hn) as [? _].
  assert (depth o c [Item o p v] = 1) as E by (simpl; by rewrite decide_True).
  rewrite <- E. apply nested_snoc; [done|rewrite E; lia|by rewrite E].
Qed.

Lemma nested_close o c hi d its p v :
  nested o c hi d its -> o <> c -> 0 <= d - 1 -> nested o c hi (d - 1) (its ++ [Item c p v]).
Proof.
  intros Hn Hoc Hd. destruct (nested_depth _ _ _ _ _ Hn) as [_ Hh].
  assert (depth o c [Item c p v] = -1) as E by (simpl; by rewrite decide_False, decide_True by congruence).
  replace (d - 1) with (d + depth o c [Item c p v]) by lia.
  apply nested_snoc; [done|lia|]. intros h Hhi. specialize (Hh h Hhi). lia.
Qed.

Ltac delim_case lem :=
  delim_tac; split; [|split]; first [by apply nested_snoc_other|idtac]; simpl;
  repeat match goal with H : _ = true |- _ => rewrite H in * | H : _ = false |- _ => rewrite H in * end;
  apply lem; try done; intros; simplify_eq; lia.

Lemma good_lparen l : lexer_wf l -> good l (set_parenDepth (emit itemLeftParen l) (parenDepth l + 1)).
Proof. delim_case nested_open. Qed.

Lemma good_rparen l :
  0 <= parenDepth l - 1 -> lexer_wf l ->
  good l (set_parenDepth (emit itemRightParen l) (parenDepth l - 1)).
Proof. intros Hd. delim_case nested_close. Qed.

Lemma good_lbrace l :
  braceOpen l = false -> lexer_wf l -> good l (set_braceOpen (emit itemLeftBrace l) true).
Proof. intros Hb. delim_case (nested_open itemLeftBrace itemRightBrace (Some 1) 0). Qed.

Lemma good_rbrace l :
  braceOpen l = true -> lexer_wf l -> good l (set_braceOpen (emit itemRightBrace l) false).
Proof. intros Hb. delim_case (nested_close itemLeftBrace itemRightBrace (Some 1) 1). Qed.

Lemma good_lbracket l :
  bracketOpen l = false -> lexer_wf l -> good l (set_bracketOpen (emit itemLeftBracket l) true).
Proof. intros Hb. delim_case (nested_open itemLeftBracket itemRightBracket (Some 1) 0). Qed.

Lemma good_rbracket l :
  bracketOpen l = true -> lexer_wf l -> good l (set_bracketOpen (emit itemRightBracket l) false).
Proof. intros Hb. delim_case (nested_close itemLeftBracket itemRightBracket (Some 1) 1). Qed.

(** * The state functions *)

Section states.
Context `{UnicodeTables}.

Lemma step_lexSpace l :
  lexer_wf l -> ready st_lexSpace l -> step_ok st_lexSpace l (lexSpace l).
Proof.
  intros Hwf Hr. unfold lexSpace. simpl in Hr. pose proof Hwf as [? ?].
  assert (exists q w, space_loop (fuel_of l) l = set_pos_width l q w /\
    (l_pos l <= q <= String.length (input l))%nat /\
    (no_error (items l) -> spaces (str_slice (start l) q (input l)) = true)) as (q & w & -> & Hq & Hs).
  { destruct (space_loop_spec (fuel_of l) (l_pos l) l) as (q & w & E & Hq & Hs); [lia|by rewrite str_slice_empty|].
    exists q, w. split; [done|]. split; [done|]. intros Hne.
    unfold spaces in *. rewrite <- (str_slice_app (start l) (l_pos l) q) by lia.
    by rewrite str_forall_app, Hr, Hs. }
  assert (good l (set_pos_width l q w)) as Hg by (apply good_set_pos; [done|lia]).
  apply (step_goto 0); [|done|simpl; lia|by intros _|simpl; lia].
  eapply good_trans; [done|]. apply good_ignore; [apply Hg|]. simpl. done.
Qed.

Lemma has_comment_next l :
  has_comment l = true -> (l_pos l + 1 <= String.length (input l))%nat.
Proof.
  unfold has_comment. intros Hc. pose proof (str_length_drop (l_pos l) (input l)) as Hr.
  unfold rest in Hc. destruct (str_drop (l_pos l) (input l)); [done|]. simpl in Hr. lia.
Qed.

Lemma step_lexLineComment l :
  lexer_wf l -> ready st_lexLineComment l -> step_ok st_lexLineComment l (lexLineComment l).
Proof.
  intros Hwf Hr%has_comment_next. unfold lexLineComment. simpl String.length.
  set (l1 := set_pos_width l (l_pos l + 1) (width l)).
  assert (adv 1 l l1) as H1 by (eexists _, _; split; [done|lia]).
  set (p := fun r => _). pose proof (next_while_backup p l1) as H2.
  assert (adv 1 l (backup (next_while (fuel_of l1) p l1))) as H3.
  { eapply adv_step; [done|]. intros. by eapply adv_zero, H2; [eapply adv_le|]. }
  eapply (step_emit 1); [by eapply adv_good|done|apply adv_pos in H3; lia|plain|by left|simpl; lia].
Qed.

(** The tail of the two duration states. *)
Lemma step_lex_unit k s l l1 err :
  lexer_wf l -> adv k l l1 -> (2 < rank s + 4 * S k)%nat -> step_ok s l (lex_unit err l1).
Proof.
  intros Hwf Ha Hrk. unfold lex_unit.
  destruct (adv_accept "smhdwy" l1) as [Hu E]; [by eapply adv_le|].
  destruct (accept "smhdwy" l1) as [unit l2]. cbn [fst snd] in *. rewrite <- E in Hu. clear E.
  assert (good l l2) as Hg.
  { eapply adv_good; [done|]. exact (adv_trans _ _ _ _ _ Ha Hu). }
  destruct unit; [|by apply step_error].
  assert (adv (k + 1) l l2) as H2 by (by eapply adv_trans).
  destruct (next l2) as [r l3] eqn:E3.
  assert (l3 = snd (next l2)) as El3 by (by rewrite E3).
  destruct (isAlphaNumeric r).
  { apply step_error. subst l3. eapply good_trans; [done|apply good_next, Hg]. }
  assert (stays l2 (backup l3)) as Hs by (subst l3; apply next_backup).
  assert (adv (k + 1) l (backup l3)) as H4.
  { eapply adv_step; [done|]. intros j Hj. apply stays_adv; [by eapply adv_le|done]. }
  eapply (step_emit (k + 1)); [by eapply adv_good|done|apply adv_pos in H4; lia|plain|by left|simpl; lia].
Qed.

Lemma step_lexDuration l : lexer_wf l -> step_ok st_lexDuration l (lexDuration l).
Proof.
  intros Hwf. unfold lexDuration. pose proof (adv_scanNumber l (proj2 Hwf)) as Ha.
  destruct (scanNumber l) as [isnum l1]. apply adv_zero in Ha.
  destruct isnum; [apply step_error; by eapply adv_good|].
  eapply (step_lex_unit 0); [done|done|simpl; lia].
Qed.

Lemma step_lexNumberOrDuration l :
  lexer_wf l -> ready st_lexNumberOrDuration l ->
  step_ok st_lexNumberOrDuration l (lexNumberOrDuration l).
Proof.
  intros Hwf Hr. unfold lexNumberOrDuration. pose proof (adv_scanNumber l (proj2 Hwf)) as Ha.
  simpl in Hr. rewrite Hr in Ha. destruct (scanNumber l) as [isnum l1]. cbn [snd] in Ha.
  destruct isnum.
  - eapply (step_emit 1); [by eapply adv_good|done|apply adv_pos in Ha; lia|plain|by left|simpl; lia].
  - eapply (step_lex_unit 1); [done|done|simpl; lia].
Qed.

Lemma step_lexIdentifier l :
  lexer_wf l -> ready st_lexIdentifier l -> step_ok st_lexIdentifier l (lexIdentifier l).
Proof.
  intros Hwf Hr. unfold lexIdentifier. simpl in Hr.
  pose proof (next_while_backup isAlphaNumeric l (proj2 Hwf) eq_refl) as Ha.
  unfold isAlphaNumeric in Ha at 1. rewrite Hr in Ha. cbn [orb] in Ha.
  eapply (step_emit 1); [by eapply adv_good|done|apply adv_pos in Ha; lia|plain|by left|simpl; lia].
Qed.

(** Keywords are lexed to plain items. *)
Lemma key_plain w kw : key !! w = Some kw -> plain kw.
Proof.
  assert (map_Forall (fun _ t => plain t) key) as Hk.
  { unfold plain. apply (bool_decide_unpack _). vm_compute. exact I. }
  apply Hk.
Qed.

Lemma step_lexKeywordOrIdentifier l :
  lexer_wf l -> ready st_lexKeywordOrIdentifier l ->
  step_ok st_lexKeywordOrIdentifier l (lexKeywordOrIdentifier l).
Proof.
  intros Hwf Hr. unfold lexKeywordOrIdentifier. simpl in Hr.
  set (p := fun r => isAlphaNumeric r || (r =? rune ":")).
  pose proof (next_while_backup p l (proj2 Hwf) eq_refl) as Ha.
  assert (p (fst (cur l)) = true) as Ep.
  { unfold p, isAlphaNumeric. destruct (isAlpha _); [done|]. simpl in *. by rewrite Hr, orb_true_r. }
  rewrite Ep in Ha. set (l1 := backup _) in *. set (word := str_slice _ _ _).
  assert (exists t, plain t /\ (match key !! ToLower word with
     | Some kw => emit kw l1
     | None => if negb (contains_byte word (rune ":")) then emit itemIdentifier l1
               else emit itemMetricIdentifier l1 end) = emit t l1) as (t & Ht & ->).
  { destruct (key !! ToLower word) eqn:Ek; [exists i; split; [by eapply key_plain|done]|].
    destruct (negb _); eexists; (split; [|done]); plain. }
  assert (step_ok st_lexKeywordOrIdentifier l (Some st_lexStatements, emit t l1)) as Hst.
  { eapply (step_emit 1); [by eapply adv_good|done|apply adv_pos in Ha; lia|done|by left|simpl; lia]. }
  destruct (seriesDesc (emit t l1)); [|done].
  destruct Hst as [Hg _]. cbn [snd] in Hg.
  pose proof (good_next_peek (emit t l1) (good_wf _ _ Hg)) as Hp.
  pose proof (stays_peek (emit t l1)) as [w Ew]. destruct (peek (emit t l1)) as [r l2]. cbn [snd] in *. subst l2.
  destruct (negb _); (eapply (step_goto 1);
    [by eapply good_trans|done|apply adv_pos in Ha; change (l_pos l + 1 <= l_pos l1)%nat; lia|by intros _|simpl; lia]).
Qed.

(** ** Strings *)

(** A good step that does not move the cursor back. *)
Definition fwd (l l' : lexer) : Prop := good l l' /\ (l_pos l <= l_pos l')%nat.

Lemma fwd_refl l : lexer_wf l -> fwd l l.
Proof. intros. split; [by apply good_refl|lia]. Qed.

Lemma fwd_trans l1 l2 l3 : fwd l1 l2 -> fwd l2 l3 -> fwd l1 l3.
Proof. intros [? ?] [? ?]. split; [by eapply good_trans|lia]. Qed.

Lemma fwd_next l : lexer_wf l -> fwd l (snd (next l)).
Proof. intros Hwf. split; [by apply good_next|]. rewrite next_cur. simpl. lia. Qed.

Lemma fwd_error l msg : lexer_wf l -> fwd l (snd (errorf msg l)).
Proof. intros Hwf. split; [by apply good_error|simpl; lia]. Qed.

Lemma fwd_wf l l' : fwd l l' -> lexer_wf l'.
Proof. intros [[] _]. done. Qed.

Hint Resolve fwd_refl fwd_next fwd_error fwd_wf : core.

Lemma fwd_escape_loop n base x ch l :
  lexer_wf l -> fwd l (snd (escape_loop n base x ch l)).
Proof.
  revert x ch l. induction n as [|n IH]; intros x ch l Hwf; [by apply fwd_refl|]. cbn [escape_loop].
  set (l1 := if base <=? _ then _ else l).
  assert (fwd l l1) as H1.
  { unfold l1. destruct (base <=? _); [|by apply fwd_refl].
    destruct (ch =? eof); [eapply fwd_trans; [by apply fwd_error|]|]; eauto. }
  clearbody l1. pose proof (fwd_next l1) as H2. destruct (next l1) as [c l2]. cbn [snd] in H2.
  specialize (H2 (fwd_wf _ _ H1)). apply (fwd_trans _ l1); [done|]. apply (fwd_trans _ l2); [done|].
  apply IH. by eapply fwd_wf.
Qed.

Lemma fwd_escape_tail l0 n base max ch l :
  fwd l0 l -> fwd l0 (escape_tail n base max ch l).
Proof.
  intros H0. unfold escape_tail. pose proof (fwd_escape_loop n base 0 ch l (fwd_wf _ _ H0)) as H1.
  destruct (escape_loop n base 0 ch l) as [x l3]. cbn [snd] in H1.
  assert (fwd l0 l3) by (by eapply fwd_trans).
  destruct (_ || _); [eapply fwd_trans; eauto|done].
Qed.

Lemma fwd_lexEscape l : lexer_wf l -> fwd l (lexEscape l).
Proof.
  intros Hwf. unfold lexEscape. pose proof (fwd_next l Hwf) as H1. destruct (next l) as [ch l1]. cbn [snd] in H1.
  assert (forall n base max, fwd l (let (ch, l) := next l1 in escape_tail n base max ch l)) as Hn.
  { intros. pose proof (fwd_next l1 ltac:(eauto)) as H2. destruct (next l1) as [c l2].
    apply fwd_escape_tail. by eapply fwd_trans. }
  repeat case_if; auto; apply fwd_escape_tail; try done; eapply fwd_trans; eauto.
Qed.

Lemma next_left_over l :
  lexer_wf l -> fst (next l) <> eof -> (left_over (snd (next l)) < left_over l)%nat.
Proof.
  intros Hwf He. pose proof (next_progress l Hwf He). pose proof (good_next l Hwf) as [Hi _ [_ Hl] _].
  unfold left_over. rewrite Hi in *. lia.
Qed.

Lemma fwd_left_over l l' : fwd l l' -> (left_over l' <= left_over l)%nat.
Proof. intros [[Hi _ _ _] ?]. unfold left_over. rewrite Hi. lia. Qed.

(** Both string loops end within the fuel and leave a good state. *)
Lemma string_loop_total fuel s l0 l :
  lexer_wf l0 -> fwd l0 l -> (left_over l < fuel)%nat -> rank s = 0%nat ->
  exists r, string_loop fuel l = Some r /\ step_ok s l0 r.
Proof.
  intros Hwf. revert l. induction fuel as [|fuel IH]; intros l Hf Hfuel Hs; [lia|]. cbn [string_loop].
  assert (lexer_wf l) as Hwl by eauto.
  pose proof (fwd_next l Hwl) as H1. pose proof (next_left_over l Hwl) as H2.
  pose proof (next_progress l Hwl) as H3.
  destruct (next l) as [r l1]. cbn [fst snd] in *.
  assert (fwd l0 l1) as H01 by (by eapply fwd_trans).
  destruct (r =? rune "\") eqn:E1; bool_prop.
  { assert (fwd l1 (lexEscape l1)) as H4 by (apply fwd_lexEscape; eauto).
    apply IH; [by eapply fwd_trans| |done]. pose proof (fwd_left_over _ _ H4).
    assert (r <> eof) by (subst; done). specialize (H2 ltac:(done)). lia. }
  destruct (r =? RuneError); [eexists; split; [done|]; apply step_error, H01|].
  destruct ((r =? eof) || (r =? 10)) eqn:E3; [eexists; split; [done|]; apply step_error, H01|]. bool_prop.
  destruct (r =? stringOpen l1).
  - eexists; split; [done|]. destruct H01 as [Hg01 ?]. destruct Hf as [_ ?]. specialize (H3 ltac:(done)).
    apply (step_emit 1); [done|done|lia|plain|by left|rewrite Hs; simpl; lia].
  - apply IH; [done| |done]. specialize (H2 ltac:(done)). lia.
Qed.

Lemma raw_string_loop_total fuel s l0 l :
  lexer_wf l0 -> fwd l0 l -> (left_over l < fuel)%nat -> rank s = 0%nat ->
  exists r, raw_string_loop fuel l = Some r /\ step_ok s l0 r.
Proof.
  intros Hwf. revert l. induction fuel as [|fuel IH]; intros l Hf Hfuel Hs; [lia|]. cbn [raw_string_loop].
  assert (lexer_wf l) as Hwl by eauto.
  pose proof (fwd_next l Hwl) as H1. pose proof (next_left_over l Hwl) as H2.
  pose proof (next_progress l Hwl) as H3.
  destruct (next l) as [r l1]. cbn [fst snd] in *.
  assert (fwd l0 l1) as H01 by (by eapply fwd_trans).
  destruct (r =? RuneError); [eexists; split; [done|]; apply step_error, H01|].
  destruct (r =? eof) eqn:E3; [eexists; split; [done|]; apply step_error, H01|]. bool_prop.
  destruct (r =? stringOpen l1).
  - eexists; split; [done|]. destruct H01 as [Hg01 ?]. destruct Hf as [_ ?]. specialize (H3 ltac:(done)).
    apply (step_emit 1); [done|done|lia|plain|by left|rewrite Hs; simpl; lia].
  - apply IH; [done| |done]. specialize (H2 ltac:(done)). lia.
Qed.

(** ** The three states that read one rune and dispatch on it *)

Lemma plus_one_cur l :
  lexer_wf l -> 0 <= fst (cur l) < 0x80 -> snd (next l) = set_pos_width l (l_pos l + 1) 1.
Proof. intros [_ Hl] Hc. rewrite next_cur. by destruct (cur_ascii l Hl Hc) as [-> _]. Qed.

(** Backing up over a digit that was only peeked at, after a dot. *)
Lemma dot_backup l :
  lexer_wf l -> fst (next l) = rune "." ->
  isDigit (fst (peek (snd (next l)))) = true ->
  stays l (backup (snd (peek (snd (next l))))).
Proof.
  intros Hwf Hdot Hdig. pose proof (fwd_next l Hwf) as Hf.
  rewrite next_cur in Hdot. cbn [fst] in Hdot. dischars.
  assert (fst (cur l) = 46) as Hdot' by done.
  rewrite (plus_one_cur l Hwf) in * by (rewrite Hdot'; lia).
  rewrite peek_cur in *. cbn [fst snd] in *. apply isDigit_range in Hdig.
  destruct (cur_ascii (set_pos_width l (l_pos l + 1) 1)) as [-> _]; [by destruct (fwd_wf _ _ Hf)|lia|].
  unfold backup. simpl. rewrite Nat.add_sub. by eexists.
Qed.

Lemma isDigit_not_eof r : isDigit r = true -> r <> eof.
Proof. intros ?%isDigit_range. unfold eof. lia. Qed.

Lemma step_stays s l s' l1 :
  lexer_wf l -> stays l l1 -> ready s' l1 -> (rank s' < rank s)%nat -> step_ok s l (Some s', l1).
Proof.
  intros Hwf Hs Hr Hrk. eapply (step_goto 0); [by apply good_stays|done| |done|lia].
  destruct Hs as [w ->]. simpl. lia.
Qed.

(** The reading of one rune, as the three dispatching states see it. *)
Lemma read_rune l :
  lexer_wf l ->
  exists r l1, next l = (r, l1) /\ r = fst (cur l) /\ good l l1 /\ stays l (backup l1) /\
    (r <> eof -> (l_pos l + 1 <= l_pos l1)%nat) /\
    braceOpen l1 = braceOpen l /\ bracketOpen l1 = bracketOpen l /\ items l1 = items l /\ start l1 = start l.
Proof.
  intros Hwf. exists (fst (next l)), (snd (next l)). split; [by destruct (next l)|].
  split; [by rewrite next_cur|]. split; [by apply good_next|]. split; [apply next_backup|].
  split; [by apply next_progress|]. by rewrite next_cur.
Qed.

(** A space that was just read is white space after [start]. *)
Lemma ready_space l r l1 :
  lexer_wf l -> clean l -> next l = (r, l1) -> isSpace r = true -> ready st_lexSpace l1.
Proof.
  intros Hwf Hc Hn Hsp. rewrite next_cur in Hn. simplify_eq. simpl. intros Hne. rewrite (Hc Hne).
  eapply (spaces_snoc (l_pos l)); try done; [destruct Hwf; lia|by rewrite str_slice_empty].
Qed.

Lemma step_open s s' l l1 q :
  good l l1 -> lexer_wf l -> (l_pos l + 1 <= l_pos l1)%nat ->
  s' = st_lexString \/ s' = st_lexRawString -> step_ok s l (Some s', set_stringOpen l1 q).
Proof.
  intros Hg Hwf Hp Hs. eapply (step_goto 1); [|done|simpl; lia|by destruct Hs; subst|destruct Hs; subst; simpl; lia].
  eapply good_trans; [done|]. apply good_stringOpen, Hg.
Qed.

Ltac emits := eapply (step_emit 1); [done|done|by auto|plain|naive_solver|simpl; lia].
Ltac errors := by apply step_error.

Lemma step_lexInsideBraces l :
  lexer_wf l -> ready st_lexInsideBraces l -> step_ok st_lexInsideBraces l (lexInsideBraces l).
Proof.
  intros Hwf [Hclean Hb]. unfold lexInsideBraces.
  destruct (has_comment l) eqn:Ec; [apply step_stays; [done|apply stays_refl|done|simpl; lia]|].
  destruct (read_rune l Hwf) as (r & l1 & En & Er & Hg & Hs & Hpos & Hbo & _ & Hi & Hst). rewrite En, Hb in *.
  destruct (r =? eof) eqn:E1; [errors|]. bool_prop.
  assert (l_pos l + 1 <= l_pos l1)%nat as Hp by auto.
  destruct (isSpace r) eqn:E2.
  { eapply (step_goto 1); [done|done|done|by eapply ready_space|simpl; lia]. }
  destruct (isAlpha r) eqn:E3.
  { apply step_stays; [done|done| |simpl; lia]. simpl. rewrite (stays_cur _ _ Hs). by rewrite <- Er. }
  destruct (r =? rune ","); [emits|].
  destruct (_ || _); [by apply step_open; auto|].
  destruct (r =? rune "`"); [by apply step_open; auto|].
  assert (lexer_wf l1) as Hwf1 by apply Hg.
  destruct (read_rune l1 Hwf1) as (r2 & l2 & En2 & _ & Hg2 & Hs2 & Hpos2 & Hbo2 & _). rewrite En2 in *.
  assert (good l l2) as Hg02 by (by eapply good_trans).
  assert (l_pos l1 <= l_pos l2)%nat as Hp2.
  { pose proof (fwd_next l1 Hwf1) as [_ H2]. by rewrite En2 in H2. }
  destruct (r =? rune "=").
  { destruct (r2 =? rune "~").
    - eapply (step_emit 1); [done|done|lia|plain|right; right; split; [done|simpl; congruence]|simpl; lia].
    - assert (good l (backup l2)) by (apply (good_trans _ l1); [done|by apply good_stays]).
      destruct Hs2 as [w Ew]. rewrite Ew in *.
      eapply (step_emit 1); [done|done|simpl; lia|plain|right; right; split; [done|simpl; congruence]|simpl; lia]. }
  destruct (r =? rune "!").
  { destruct (r2 =? rune "~"); [eapply (step_emit 1); [done|done|lia|plain|right; right; split; [done|simpl; congruence]|simpl; lia]|].
    destruct (r2 =? rune "="); [eapply (step_emit 1); [done|done|lia|plain|right; right; split; [done|simpl; congruence]|simpl; lia]|].
    errors. }
  destruct (r =? rune "{"); [errors|].
  destruct (r =? rune "}"); [|errors].
  assert (good l (set_braceOpen (emit itemRightBrace l1) false)) as Hg3.
  { apply (good_trans _ l1); [done|by apply good_rbrace]. }
  destruct (seriesDesc _); (eapply (step_goto 1); [done|done|simpl; lia|by intros _|simpl; lia]).
Qed.

(** [lexNumber], called after the first character of a number was read. *)
Lemma fwd_lexNumber l :
  lexer_wf l -> isDigit (fst (cur l)) || (fst (cur l) =? rune ".") = true ->
  good l (snd (lexNumber l)) /\ (l_pos l + 1 <= l_pos (snd (lexNumber l)))%nat /\
  clean (snd (lexNumber l)).
Proof.
  intros Hwf Hr. unfold lexNumber. pose proof (adv_scanNumber l (proj2 Hwf)) as Ha. rewrite Hr in Ha.
  destruct (scanNumber l) as [isnum l1]. cbn [snd] in Ha. pose proof (adv_pos _ _ _ Ha).
  apply adv_good in Ha as Hg; [|done]. destruct isnum; simpl.
  - split; [eapply good_trans; [done|apply good_emit; [plain|apply Hg]]|]. split; [lia|by intros _].
  - split; [eapply good_trans; [done|apply good_error, Hg]|]. split; [lia|].
    intros Hne. apply no_error_snoc in Hne as [_ Hne]. done.
Qed.

Lemma step_number s s' l l1 :
  lexer_wf l -> stays l l1 -> isDigit (fst (cur l)) || (fst (cur l) =? rune ".") = true ->
  s' = st_lexValueSequence -> step_ok s l (Some s', snd (lexNumber l1)).
Proof.
  intros Hwf Hs Hr ->. assert (good l l1) as Hg by (by apply good_stays).
  destruct (fwd_lexNumber l1) as (Hg1 & Hp & Hc); [apply Hg|by rewrite (stays_cur _ _ Hs)|].
  destruct Hs as [w ->]. eapply (step_goto 1); [by eapply good_trans|done|done|done|simpl; lia].
Qed.

(** The guard [r == '.' && isDigit(l.peek())] of the number cases. *)
Definition dot_guard (r : Z) (l1 : lexer) : bool * lexer :=
  if r =? rune "." then let (t, l) := peek l1 in (isDigit t, l) else (false, l1).

Lemma dot_guard_spec l r l1 :
  lexer_wf l -> next l = (r, l1) ->
  good l (snd (dot_guard r l1)) /\ l_pos (snd (dot_guard r l1)) = l_pos l1 /\
  braceOpen (snd (dot_guard r l1)) = braceOpen l1 /\
  (fst (dot_guard r l1) = true ->
     stays l (backup (snd (dot_guard r l1))) /\ (fst (cur l) =? rune ".") = true) /\
  (fst (dot_guard r l1) = false -> (r =? rune ".") = false -> snd (dot_guard r l1) = l1).
Proof.
  intros Hwf En. pose proof (good_next l Hwf) as Hg. pose proof (next_cur l) as Ec.
  pose proof (dot_backup l Hwf) as Hd. rewrite En in *. cbn [fst snd] in *. injection Ec as -> El1.
  unfold dot_guard. destruct (fst (cur l) =? rune ".") eqn:E; [|by auto 10].
  bool_prop. specialize (Hd E). pose proof (good_next_peek l1 (good_wf _ _ Hg)) as Hp.
  pose proof (peek_pos l1) as Hpp. pose proof (stays_peek l1) as [w Ew].
  destruct (peek l1) as [t l2]. cbn [fst snd] in *.
  split; [by eapply good_trans|]. split; [done|]. split; [by subst l2|]. split; [intros ?; split; auto|done].
Qed.

Lemma step_lexValueSequence l :
  lexer_wf l -> ready st_lexValueSequence l ->
  step_ok st_lexValueSequence l (lexValueSequence l).
Proof.
  intros Hwf Hclean. unfold lexValueSequence.
  destruct (read_rune l Hwf) as (r & l1 & En & Er & Hg & Hs & Hpos & _ & _ & Hi & Hst). rewrite En in *.
  destruct (r =? eof) eqn:E1; bool_prop.
  { eapply (step_goto 0); [done|done| | |simpl; lia].
    - pose proof (fwd_next l Hwf) as [_ H2]. rewrite En in H2. simpl in H2. lia.
    - simpl. intros Hne. rewrite next_cur in En. simplify_eq.
      destruct (cur_spec l) as [[_ Hc]|Hc]; [apply Hwf|rewrite Hc; simpl; rewrite Nat.add_0_r; by apply Hclean|].
      rewrite E1 in Hc. unfold eof in Hc. lia. }
  assert (l_pos l + 1 <= l_pos l1)%nat as Hp by auto.
  destruct (isSpace r) eqn:E2.
  { pose proof (ready_space l r l1 Hwf Hclean En E2) as Hr.
    destruct (step_lexSpace l1) as [Hg2 [Hcl Hm]]; [apply Hg|done|]. cbn [fst snd lexSpace] in *.
    split; [by eapply good_trans|]. split; [done|].
    assert (left_over l1 + 1 <= left_over l)%nat.
    { destruct Hg as [Hin _ [_ ?] _]. unfold left_over. rewrite Hin in *. lia. }
    simpl in *. lia. }
  destruct (r =? rune "+"); [emits|]. destruct (r =? rune "-"); [emits|].
  destruct (r =? rune "x"); [emits|]. destruct (r =? rune "_"); [emits|].
  destruct (isDigit r) eqn:E3; [by apply step_number; [| |rewrite <- Er, E3|]|].
  fold (dot_guard r l1). destruct (dot_guard_spec l r l1 Hwf En) as (Hg2 & Hp2 & _ & Hdot & Hndot).
  destruct (dot_guard r l1) as [dot l2]. cbn [fst snd] in *. destruct dot.
  { destruct (Hdot eq_refl) as [Hs2 Ed]. apply step_number; [done|done|by rewrite Ed, orb_true_r|done]. }
  destruct (isAlpha r) eqn:E4; [|errors].
  rewrite Hndot; [|done|].
  2: { apply not_true_iff_false. intros E5. bool_prop. rewrite E5 in E4. by vm_compute in E4. }
  apply step_stays; [done|done| |simpl; lia]. simpl. by rewrite (stays_cur _ _ Hs), <- Er, E4.
Qed.

(** The cases of [lexStatements] after the number case. *)
Lemma step_lexStatements_rest l r l1 :
  lexer_wf l -> braceOpen l = false -> next l = (r, l1) -> r <> eof ->
  step_ok st_lexStatements l (lexStatements_rest r l1).
Proof.
  intros Hwf Hb En Hr. unfold lexStatements_rest.
  destruct (read_rune l Hwf) as (r' & l1' & En' & Er & Hg & Hs & Hpos & Hbo & Hbr & _).
  rewrite En in En'. injection En' as <- <-. specialize (Hpos Hr).
  assert (lexer_wf l1) as Hwf1 by apply Hg.
  assert (forall l2, good l1 l2 -> l_pos l2 = l_pos l1 -> ready st_lexStatements l2 ->
    step_ok st_lexStatements l (Some st_lexStatements, l2)) as Hagain.
  { intros l2 Hg2 Hp2 Hr2. eapply (step_goto 1); [by eapply good_trans|done|lia|done|simpl; lia]. }
  destruct (_ || _); [by apply step_open; auto|]. destruct (r =? rune "`"); [by apply step_open; auto|].
  destruct (isAlpha r || (r =? rune ":")) eqn:Ea.
  { apply step_stays; [done|done| |simpl; lia]. simpl. by rewrite (stays_cur _ _ Hs), <- Er. }
  destruct (r =? rune "("); [apply Hagain; [exact (good_lparen l1 Hwf1)|done|by intros _]|].
  destruct (r =? rune ")").
  { set (l2 := set_parenDepth _ _). destruct (parenDepth l2 <? 0) eqn:Ed.
    - apply step_error_raw; [apply Hg..|]. unfold lexer_wf in *. simpl. lia.
    - bool_prop. apply Hagain; [exact (good_rparen l1 Ed Hwf1)|done|by intros _]. }
  destruct (r =? rune "{").
  { assert (good l1 (set_braceOpen (emit itemLeftBrace l1) true)) as Hg2 by (apply good_lbrace; [congruence|done]).
    set (l2 := set_braceOpen _ _) in *.
    assert (step_ok st_lexInsideBraces l2 (lexInsideBraces l2)) as [Hg3 H3].
    { apply step_lexInsideBraces; [apply Hg2|]. split; [by intros _|done]. }
    split; [apply (good_trans _ l1); [done|by apply (good_trans _ l2)]|].
    destruct (fst (lexInsideBraces l2)); [|done]. destruct H3 as [H3 Hm]. split; [done|].
    assert (left_over l2 + 1 <= left_over l)%nat; [|simpl in *; lia].
    destruct Hg as [Hin _ [_ ?] _]. unfold left_over. simpl. rewrite Hin in *. lia. }
  destruct (r =? rune "[").
  { destruct (bracketOpen l1) eqn:Eb; [errors|].
    eapply (step_goto 1); [|done| |done|simpl; lia]; [|done].
    apply (good_trans _ l1); [done|by apply good_lbracket]. }
  destruct (r =? rune "]"); [|errors]. destruct (bracketOpen l1) eqn:Eb; [|errors].
  apply Hagain; [by apply good_rbracket|done|by intros _].
Qed.

(** The two-character operators: one rune of look-ahead, then an optional
    second read. *)
Lemma step_lookahead l l1 t :
  lexer_wf l -> good l l1 -> (l_pos l + 1 <= l_pos l1)%nat -> plain t ->
  step_ok st_lexStatements l (Some st_lexStatements, emit t (snd (next (snd (peek l1))))) /\
  step_ok st_lexStatements l (Some st_lexStatements, emit t (snd (peek l1))).
Proof.
  intros Hwf Hg Hp Ht.
  assert (good l (snd (peek l1))) as Hg2 by (eapply good_trans; [done|apply good_next_peek, Hg]).
  pose proof (peek_pos l1) as Hpp. pose proof (fwd_next (snd (peek l1)) (good_wf _ _ Hg2)) as [Hg3 Hp3].
  split; (eapply (step_emit 1); [first [done|by apply (good_trans _ (snd (peek l1)))]|done|lia|done|by left|simpl; lia]).
Qed.

Lemma step_eof l r l1 :
  lexer_wf l -> braceOpen l = false -> next l = (r, l1) -> r = eof ->
  step_ok st_lexStatements l
    (if negb (parenDepth l1 =? 0) then errorf "unclosed left parenthesis" l1
     else if bracketOpen l1 then errorf "unclosed left bracket" l1
     else (None, emit itemEOF l1)).
Proof.
  intros Hwf Eb En E1. pose proof (good_next l Hwf) as Hg. rewrite En in Hg. cbn [snd] in Hg.
  destruct (parenDepth l1 =? 0) eqn:Ed; [|errors]. destruct (bracketOpen l1) eqn:Ebr; [errors|]. bool_prop.
  cbn [negb]. split; [eapply good_trans; [done|apply good_emit; [plain|apply Hg]]|].
  eexists _, _. split; [done|right]. split; [done|]. rewrite next_cur in En. injection En as Er <-.
  split; [|done]. cbn. destruct (cur_spec l) as [[H1 H2]|H1]; [apply Hwf|rewrite H2; simpl; lia|].
  rewrite Er, E1 in H1. unfold eof in H1. lia.
Qed.

Lemma step_lexStatements l :
  lexer_wf l -> ready st_lexStatements l -> step_ok st_lexStatements l (lexStatements l).
Proof.
  intros Hwf Hclean. unfold lexStatements.
  destruct (braceOpen l) eqn:Eb; [by apply step_stays; [|apply stays_refl| |simpl; lia]|].
  destruct (has_comment l) eqn:Ec; [by apply step_stays; [|apply stays_refl| |simpl; lia]|].
  destruct (read_rune l Hwf) as (r & l1 & En & Er & Hg & Hs & Hpos & _). rewrite En.
  destruct (r =? eof) eqn:E1; bool_prop; [by apply (step_eof l r l1)|].
  assert (l_pos l + 1 <= l_pos l1)%nat as Hp by auto.
  assert (forall t, plain t -> step_ok st_lexStatements l (Some st_lexStatements, emit t l1)) as Hemit.
  { intros t Ht. eapply (step_emit 1); [done|done|by auto|done|by left|simpl; lia]. }
  destruct (r =? rune ","); [apply Hemit; plain|].
  destruct (isSpace r) eqn:E2.
  { eapply (step_goto 1); [done|done|done|by eapply ready_space|simpl; lia]. }
  do 6 (match goal with |- step_ok _ _ (if ?b then _ else _) => destruct b end; [apply Hemit; plain|]).
  fold (dot_guard r l1). destruct (dot_guard_spec l r l1 Hwf En) as (Hg4 & Hp4 & _ & Hdot & Hndot).
  pose proof (step_lexStatements_rest l r l1 Hwf Eb En E1) as Hrest.
  assert (forall t, plain t -> _) as Hlook by (intros t Ht; exact (step_lookahead l l1 t Hwf Hg Hp Ht)).
  assert (good l (snd (peek l1))) as Hg2 by (apply (good_trans _ l1); [done|apply good_next_peek, Hg]).
  pose proof (fwd_next l1 (good_wf _ _ Hg)) as [Hg3 Hp3].
  destruct (r =? rune "=").
  { destruct (peek l1) as [t l2]. cbn [fst snd] in *.
    destruct (t =? rune "="); [apply Hlook; plain|]. destruct (t =? rune "~"); [errors|apply Hlook; plain]. }
  destruct (r =? rune "!").
  { destruct (next l1) as [t' l3]. cbn [fst snd] in *. assert (good l l3) by (by apply (good_trans _ l1)).
    destruct (t' =? rune "="); [eapply (step_emit 1); [done|done|lia|plain|by left|simpl; lia]|errors]. }
  destruct (r =? rune "<"); [destruct (peek l1) as [t l2]; cbn [snd] in *; destruct (t =? rune "="); apply Hlook; plain|].
  destruct (r =? rune ">"); [destruct (peek l1) as [t l2]; cbn [snd] in *; destruct (t =? rune "="); apply Hlook; plain|].
  destruct (isDigit r) eqn:E3; [apply step_stays; [done|done| |simpl; lia]; simpl; by rewrite (stays_cur _ _ Hs), <- Er, E3|].
  destruct (dot_guard r l1) as [dot l2]. cbn [fst snd] in *. destruct dot.
  { destruct (Hdot eq_refl) as [Hs2 Ed]. apply step_stays; [done|done| |simpl; lia].
    simpl. by rewrite (stays_cur _ _ Hs2), Ed, orb_true_r. }
  destruct (r =? rune ".") eqn:E4; [|by rewrite Hndot].
  bool_prop. subst r. rewrite E4. by apply step_error.
Qed.

(** * The run of the state machine *)

Lemma run_state_ok s l :
  lexer_wf l -> ready s l -> exists r, run_state s l = Some r /\ step_ok s l r.
Proof.
  intros Hwf Hr. destruct s; simpl run_state; try (eexists; split; [done|]).
  - by apply step_lexStatements.
  - by apply step_lexInsideBraces.
  - by apply step_lexValueSequence.
  - apply string_loop_total; [done|by apply fwd_refl| |done]. unfold fuel_of, left_over. lia.
  - apply raw_string_loop_total; [done|by apply fwd_refl| |done]. unfold fuel_of, left_over. lia.
  - by apply step_lexSpace.
  - by apply step_lexLineComment.
  - by apply step_lexDuration.
  - by apply step_lexNumberOrDuration.
  - by apply step_lexIdentifier.
  - by apply step_lexKeywordOrIdentifier.
Qed.

Lemma run_ok fuel s l :
  lexer_wf l -> ready s l -> (4 * left_over l + rank s < fuel)%nat ->
  exists l', run fuel s l = Some l' /\ good l l' /\ ended l'.
Proof.
  revert s l. induction fuel as [|fuel IH]; intros s l Hwf Hr Hf; [lia|]. cbn [run].
  destruct (run_state_ok s l Hwf Hr) as ([os l1] & -> & Hg & Hos). cbn [fst snd] in *.
  destruct os as [s1|]; [|by eauto]. destruct Hos as [Hr1 Hm].
  destruct (IH s1 l1) as (l' & -> & Hg' & He); [apply Hg|done|lia|].
  exists l'. split; [done|]. split; [by eapply good_trans|done].
Qed.

Lemma Inv_new s b : Inv (new_lexer s b).
Proof.
  intros _. split; [simpl; split; [lia|by rewrite str_slice_empty]|].
  split; [|split]; apply nested_nil; intros; simplify_eq; lia.
Qed.

Lemma lex_ok s b :
  exists l, lex s b = Some (items l) /\ input l = s /\ Inv l /\ ended l.
Proof.
  unfold lex. destruct (run_ok (lex_fuel s) st_lexStatements (new_lexer s b)) as (l & -> & Hg & He).
  - unfold lexer_wf. simpl. lia.
  - by intros _.
  - unfold lex_fuel, left_over. simpl. lia.
  - exists l. destruct Hg as [Hi _ _ HI]. eauto using Inv_new.
Qed.

(** The scanner terminates on every input, in both modes, within four
    state functions per byte, and the last item it sends is EOF or an error. *)
Theorem lex_total (s : string) (b : bool) :
  exists its i, lex s b = Some (its ++ [i]) /\ (typ i = itemEOF \/ typ i = itemError).
Proof.
  destruct (lex_ok s b) as (l & -> & _ & _ & its & i & -> & Hi). exists its, i. naive_solver.
Qed.

Lemma no_error_ended l :
  ended l -> no_error (items l) ->
  start l = String.length (input l) /\ parenDepth l = 0 /\ braceOpen l = false /\ bracketOpen l = false.
Proof.
  intros (its & i & E & Hi) Hne. rewrite E in Hne. apply no_error_snoc in Hne as [_ Hne]. naive_solver.
Qed.

(** C24: lexing loses nothing: when no error is reported, every item's value is
    the slice of the input at the item's position, items follow one another
    in the input, and what separates them (and what follows the last one) is
    white space. *)
Theorem lex_lossless (s : string) (b : bool) (its : list item) :
  lex s b = Some its -> no_error its -> covers s 0 its (String.length s).
Proof.
  intros Hl Hne. destruct (lex_ok s b) as (l & Hl' & <- & HI & He). rewrite Hl in Hl'. simplify_eq.
  destruct (HI Hne) as [Hc _]. by destruct (no_error_ended l He Hne) as (<- & _).
Qed.

(** A stream that reaches EOF is balanced: parentheses never close before
    they open and all are closed, braces and brackets are closed too and do
    not nest. *)
Theorem lex_balanced (s : string) (b : bool) (its : list item) :
  lex s b = Some its -> no_error its ->
  nested itemLeftParen itemRightParen None 0 its /\
  nested itemLeftBrace itemRightBrace (Some 1) 0 its /\
  nested itemLeftBracket itemRightBracket (Some 1) 0 its.
Proof.
  intros Hl Hne. destruct (lex_ok s b) as (l & Hl' & <- & HI & He). rewrite Hl in Hl'. simplify_eq.
  destruct (HI Hne) as [_ Hd]. destruct (no_error_ended l He Hne) as (_ & H1 & H2 & H3).
  unfold delims in Hd. by rewrite H1, H2, H3 in Hd.
Qed.

End states.

(** * Witnesses *)

Section witnesses.
#[local] Instance ascii_tables : UnicodeTables := {| is_print_high _ := true |}.

Definition sample_query : string := "sum(rate(x{a=~'b'}[5m])) by (job) # c".
Definition sample_items : list item := default [] (lex sample_query false).

Lemma sample_no_error : no_error sample_items.
Proof. apply (bool_decide_unpack _). vm_compute. exact I. Qed.

Lemma lex_lossless_witness : covers sample_query 0 sample_items (String.length sample_query).
Proof. apply (lex_lossless sample_query false); [vm_compute; reflexivity|apply sample_no_error]. Defined.

Lemma lex_balanced_witness :
  nested itemLeftParen itemRightParen None 0 sample_items /\
  nested itemLeftBrace itemRightBrace (Some 1) 0 sample_items /\
  nested itemLeftBracket itemRightBracket (Some 1) 0 sample_items.
Proof. apply (lex_balanced sample_query false); [vm_compute; reflexivity|apply sample_no_error]. Defined.
End witnesses.
