(* ===== verification/Labels.v ===== *)
(** pkg/labels/labels.go and pkg/labels/matcher.go: label sets, the builder
    and the label matchers. *)

From S2P Require Import Prelude GoString GoFmt.
From Stdlib Require Import Sorting.Sorted.

(** * Label sets *)

Definition MetricName : string := "__name__".
Definition AlertName : string := "alertname".
Definition BucketLabel : string := "le".
Definition InstanceName : string := "instance".

Record Label := mkLabel { Name : string; Value : string }.

#[export] Instance Label_eq_dec : EqDecision Label.
Proof. solve_decision. Defined.

Notation Labels := (list Label).

(** [Less] *)
Definition Less (a b : Label) : bool := String.ltb (Name a) (Name b).

(** [sort.Sort] promises a sorted permutation.  The model is an insertion
    sort; on label sets, whose names are unique, every sorting function gives
    the same result (lemma [sorted_unique]). *)
Fixpoint insert_label (l : Label) (ls : Labels) : Labels :=
  match ls with
  | [] => [l]
  | x :: ls' => if Less x l then x :: insert_label l ls' else l :: ls
  end.
Definition sort_labels (ls : Labels) : Labels := foldr insert_label [] ls.

Definition Labels_String `{UnicodeTables} (ls : Labels) : string :=
  "{" +:+ str_join ", " (map (fun l => Name l +:+ "=" +:+ Quote (Value l)) ls) +:+ "}".

(** The bytes [Hash] feeds to xxhash: names and values, each followed by the
    separator [\xff]. *)
Definition sep : ascii := "255".
Fixpoint hash_bytes (ls : Labels) : string :=
  match ls with
  | [] => ""
  | v :: ls' => Name v +:+ String sep (Value v +:+ String sep (hash_bytes ls'))
  end.

(** xxhash is a dependency: its function on byte strings is a parameter. *)
Class XXHash := { xxhash_Sum64 : string -> Z }.

Definition Hash `{XXHash} (ls : Labels) : Z := xxhash_Sum64 (hash_bytes ls).

Definition Copy (ls : Labels) : Labels := ls.

Fixpoint Get (ls : Labels) (name : string) : string :=
  match ls with
  | [] => ""
  | l :: ls' => if (Name l =? name)%string then Value l else Get ls' name
  end.

Fixpoint Has (ls : Labels) (name : string) : bool :=
  match ls with
  | [] => false
  | l :: ls' => if (Name l =? name)%string then true else Has ls' name
  end.

Fixpoint Equal_loop (ls o : Labels) : bool :=
  match ls, o with
  | l :: ls', p :: o' =>
    if negb (Name l =? Name p)%string || negb (Value l =? Value p)%string then false
    else Equal_loop ls' o'
  | _, _ => true
  end.
Definition Equal (ls o : Labels) : bool :=
  if negb (length ls =? length o)%nat then false else Equal_loop ls o.

(** [Map]: later labels overwrite earlier ones of the same name. *)
Definition Map (ls : Labels) : gmap string string :=
  foldl (fun m l => <[Name l := Value l]> m) ∅ ls.

Definition New (ls : Labels) : Labels := sort_labels ls.

(** [FromMap]: the map is iterated in some order, then sorted. *)
Definition FromMap (m : gmap string string) : Labels :=
  New (map (fun kv => mkLabel kv.1 kv.2) (map_to_list m)).

(** [FromStrings]; [None] is the panic on an odd number of strings. *)
Fixpoint pairs_of (ss : list string) : option Labels :=
  match ss with
  | [] => Some []
  | n :: v :: ss' => (fun r => mkLabel n v :: r) <$> pairs_of ss'
  | [_] => None
  end.
Definition FromStrings (ss : list string) : option Labels := sort_labels <$> pairs_of ss.

(** [strings.Compare] *)
Definition strings_Compare (a b : string) : Z :=
  match String.compare a b with Eq => 0 | Lt => -1 | Gt => 1 end.

(** [Compare]: the loop over the common length, then the lengths. *)
Fixpoint Compare (a b : Labels) : Z :=
  match a, b with
  | x :: a', y :: b' =>
    let d := strings_Compare (Name x) (Name y) in
    if negb (d =? 0) then d
    else let d := strings_Compare (Value x) (Value y) in
         if negb (d =? 0) then d else Compare a' b'
  | _, _ => Z.of_nat (length a) - Z.of_nat (length b)
  end.

(** * The builder *)

Record Builder := mkBuilder { base : Labels; del : list string; add : Labels }.

Definition NewBuilder (b : Labels) : Builder := mkBuilder b [] [].

(** [Del] removes entries of [b.add] while ranging over it.  The range keeps
    the old length [length arr]; [append(b.add[:i], b.add[i+1:]...)] shifts
    the backing array [arr] in place and shortens the slice to [c - 1].
    [None] is the panic of slicing past the shortened slice. *)
Fixpoint del_loop (fuel i c : nat) (arr : Labels) (n : string) : option (Labels * nat) :=
  match fuel with
  | O => Some (arr, c)
  | S fuel' =>
    match arr !! i with
    | None => Some (arr, c)
    | Some a =>
      if (Name a =? n)%string then
        if (c <? i + 1)%nat then None
        else del_loop fuel' (S i) (c - 1)
               (take i arr ++ take (c - (i + 1)) (drop (i + 1) arr) ++ drop (c - 1) arr) n
      else del_loop fuel' (S i) c arr n
    end
  end.

Definition Del1 (b : Builder) (n : string) : option Builder :=
  match del_loop (length (add b)) 0 (length (add b)) (add b) n with
  | None => None
  | Some (arr, c) => Some (mkBuilder (base b) (del b ++ [n]) (take c arr))
  end.

(** [Del(ns...)] *)
Fixpoint Del (b : Builder) (ns : list string) : option Builder :=
  match ns with
  | [] => Some b
  | n :: ns' => match Del1 b n with None => None | Some b' => Del b' ns' end
  end.

Fixpoint set_loop (ls : Labels) (n v : string) : option Labels :=
  match ls with
  | [] => None
  | a :: ls' => if (Name a =? n)%string then Some (mkLabel (Name a) v :: ls')
                else cons a <$> set_loop ls' n v
  end.

Definition Set_ (b : Builder) (n v : string) : Builder :=
  match set_loop (add b) n v with
  | Some add' => mkBuilder (base b) (del b) add'
  | None => mkBuilder (base b) (del b) (add b ++ [mkLabel n v])
  end.

(** The labels of [base] that neither [del] nor [add] names. *)
Definition kept (b : Builder) (l : Label) : bool :=
  negb (existsb (fun n => (Name l =? n)%string) (del b)) &&
  negb (existsb (fun la => (Name l =? Name la)%string) (add b)).

Definition Builder_Labels (b : Builder) : Labels :=
  match del b, add b with
  | [], [] => base b
  | _, _ => sort_labels (List.filter (kept b) (base b) ++ add b)
  end.

(** * Matchers (matcher.go) *)

Inductive MatchType := MatchEqual | MatchNotEqual | MatchRegexp | MatchNotRegexp.

#[export] Instance MatchType_eq_dec : EqDecision MatchType.
Proof. solve_decision. Defined.

Definition MatchType_String (m : MatchType) : string :=
  match m with
  | MatchEqual => "=" | MatchNotEqual => "!=" | MatchRegexp => "=~" | MatchNotRegexp => "!~"
  end.

(** The regexp package, as the code uses it: an expression either compiles or
    reports an error, and a compiled expression matches some strings. *)
Class Regexp := {
  regexp : Type;
  regexp_eq_dec :: EqDecision regexp;
  regexp_Compile : string -> result string regexp;
  MatchString : regexp -> string -> bool
}.

Section matcher.
Context `{Regexp}.

Record Matcher := mkMatcher {
  m_Type : MatchType; m_Name : string; m_Value : string; re : option regexp
}.

#[export] Instance Matcher_eq_dec : EqDecision Matcher.
Proof. solve_decision. Defined.

Definition NewMatcher (t : MatchType) (n v : string) : result string Matcher :=
  match t with
  | MatchRegexp | MatchNotRegexp =>
    match regexp_Compile ("^(?:" +:+ v +:+ ")$") with
    | Err e => Err e
    | Ok r => Ok (mkMatcher t n v (Some r))
    end
  | _ => Ok (mkMatcher t n v None)
  end.

Definition Matcher_String `{UnicodeTables} (m : Matcher) : string :=
  m_Name m +:+ MatchType_String (m_Type m) +:+ Quote (m_Value m).

(** [Matches]; [None] is the nil dereference of a regexp matcher that was not
    built by [NewMatcher]. *)
Definition Matches (m : Matcher) (s : string) : option bool :=
  match m_Type m with
  | MatchEqual => Some (s =? m_Value m)%string
  | MatchNotEqual => Some (negb (s =? m_Value m)%string)
  | MatchRegexp => (fun r => MatchString r s) <$> re m
  | MatchNotRegexp => (fun r => negb (MatchString r s)) <$> re m
  end.
End matcher.
