(* ===== verification/LabelsFacts.v ===== *)
(** Label sets are sorted association lists: the order on label sets, the
    correspondence with finite maps, and the builder as map updates. *)

From S2P Require Import Prelude GoString GoFmt StrUtil Labels.
From Stdlib Require Import Sorting.Sorted.

(** * The order on strings *)

Lemma compare_refl s : String.compare s s = Eq.
Proof.
  pose proof (String.compare_antisym s s) as H. by destruct (String.compare s s).
Qed.

Lemma compare_eq s t : String.compare s t = Eq <-> s = t.
Proof. split; [apply String.compare_eq_iff | intros ->; apply compare_refl]. Qed.

Lemma ascii_compare_trans a b c o :
  Ascii.compare a b = o -> Ascii.compare b c = o -> Ascii.compare a c = o.
Proof. unfold Ascii.compare. destruct o; rewrite ?N.compare_eq_iff, ?N.compare_lt_iff, ?N.compare_gt_iff; lia. Qed.

Lemma ascii_compare_eq a b : Ascii.compare a b = Eq -> a = b.
Proof.
  unfold Ascii.compare. rewrite N.compare_eq_iff. intros E.
  by rewrite <- (ascii_N_embedding a), E, ascii_N_embedding.
Qed.

Lemma ascii_compare_refl a : Ascii.compare a a = Eq.
Proof. unfold Ascii.compare. apply N.compare_refl. Qed.

Lemma compare_lt_trans a b c :
  String.compare a b = Lt -> String.compare b c = Lt -> String.compare a c = Lt.
Proof.
  revert b c. induction a as [|x a IH]; intros [|y b] [|z c]; cbn; try done.
  destruct (Ascii.compare x y) eqn:Exy; try done;
    destruct (Ascii.compare y z) eqn:Eyz; try done; intros H1 H2.
  - rewrite (ascii_compare_trans _ _ _ _ Exy Eyz). by apply (IH b).
  - apply ascii_compare_eq in Exy as ->. by rewrite Eyz.
  - apply ascii_compare_eq in Eyz as ->. by rewrite Exy.
  - by rewrite (ascii_compare_trans _ _ _ _ Exy Eyz).
Qed.

Lemma strings_Compare_opp a b : strings_Compare a b = - strings_Compare b a.
Proof.
  unfold strings_Compare. rewrite (String.compare_antisym a b).
  by destruct (String.compare b a).
Qed.

Lemma strings_Compare_0 a b : strings_Compare a b = 0 <-> a = b.
Proof.
  rewrite <- compare_eq. unfold strings_Compare. by destruct (String.compare a b).
Qed.

Lemma strings_Compare_lt a b : strings_Compare a b < 0 <-> String.compare a b = Lt.
Proof. unfold strings_Compare. by destruct (String.compare a b). Qed.

Lemma strings_Compare_trans a b c :
  strings_Compare a b < 0 -> strings_Compare b c < 0 -> strings_Compare a c < 0.
Proof. rewrite !strings_Compare_lt. apply compare_lt_trans. Qed.

Lemma Less_lt a b : Less a b = true <-> String.compare (Name a) (Name b) = Lt.
Proof. unfold Less, String.ltb. by destruct (String.compare _ _). Qed.

Lemma Less_trans a b c : Less a b = true -> Less b c = true -> Less a c = true.
Proof. rewrite !Less_lt. apply compare_lt_trans. Qed.

Lemma Less_irrefl a : Less a a = false.
Proof. unfold Less, String.ltb. by rewrite compare_refl. Qed.

Lemma Less_total a b : Name a <> Name b -> Less a b = false -> Less b a = true.
Proof.
  intros N. rewrite Less_lt. unfold Less, String.ltb.
  rewrite (String.compare_antisym (Name b) (Name a)).
  destruct (String.compare (Name a) (Name b)) eqn:E; try done.
  by apply compare_eq in E.
Qed.

(** * Sorted label sets *)

(** What the comment on [Labels] promises: sorted by name, each name once. *)
Definition wf_labels (ls : Labels) : Prop := StronglySorted (fun a b => Less a b = true) ls.

Definition names (ls : Labels) : list string := map Name ls.

Lemma wf_cons_inv a ls :
  wf_labels (a :: ls) -> wf_labels ls /\ Forall (fun b => Less a b = true) ls.
Proof. by inversion 1. Qed.

Lemma wf_names ls : wf_labels ls -> NoDup (names ls).
Proof.
  induction 1 as [|a ls H IH F]; cbn; constructor; auto.
  rewrite list_elem_of_fmap. intros (b & E & Hb).
  rewrite Forall_forall in F. specialize (F b Hb).
  rewrite Less_lt, E, compare_refl in F. done.
Qed.

Lemma insert_label_perm l ls : insert_label l ls ≡ₚ l :: ls.
Proof.
  induction ls as [|x ls IH]; cbn; [done|].
  destruct (Less x l); [|done]. rewrite IH. apply Permutation_swap.
Qed.

Lemma sort_labels_perm ls : sort_labels ls ≡ₚ ls.
Proof.
  induction ls as [|x ls IH]; cbn; [done|].
  unfold sort_labels in *. cbn. by rewrite insert_label_perm, IH.
Qed.

Lemma insert_label_wf l ls :
  wf_labels ls -> Name l ∉ names ls -> wf_labels (insert_label l ls).
Proof.
  unfold wf_labels. intros H. induction H as [|x ls H IH F]; cbn; intros N.
  - constructor; constructor.
  - apply not_elem_of_cons in N as [N1 N2].
    destruct (Less x l) eqn:E.
    + constructor; [by apply IH|].
      rewrite Forall_forall in *. intros b Hb.
      rewrite insert_label_perm, elem_of_cons in Hb. destruct Hb as [->|]; auto.
    + constructor; [by constructor|].
      assert (Less l x = true) by (apply Less_total; congruence).
      constructor; [done|]. eapply Forall_impl; [exact F|]. cbn. eauto using Less_trans.
Qed.

Lemma wf_filter f ls : wf_labels ls -> wf_labels (List.filter f ls).
Proof.
  unfold wf_labels. induction 1 as [|l ls S IH F]; cbn; [constructor|]. destruct (f l); [|done]. constructor; [done|].
  rewrite Forall_forall in *. intros x X. apply F. apply list_elem_of_In, filter_In in X as [X _]. by apply list_elem_of_In.
Qed.

Lemma names_perm a b : a ≡ₚ b -> names a ≡ₚ names b.
Proof. apply fmap_Permutation. Qed.

Lemma sort_labels_wf ls : NoDup (names ls) -> wf_labels (sort_labels ls).
Proof.
  induction ls as [|x ls IH]; intros N; [constructor|].
  cbn in N. apply NoDup_cons in N as [N1 N2].
  unfold sort_labels in *. cbn. apply insert_label_wf; [auto|].
  by rewrite (names_perm _ _ (sort_labels_perm ls)).
Qed.

(** * Label sets as finite maps *)

Definition lift (ls : Labels) (m : gmap string string) : gmap string string :=
  foldl (fun m l => <[Name l := Value l]> m) m ls.

Lemma lift_lookup_ne ls m n : n ∉ names ls -> lift ls m !! n = m !! n.
Proof.
  revert m. induction ls as [|l ls IH]; intros m; cbn; [done|].
  rewrite not_elem_of_cons. intros [N1 N2]. unfold lift in *.
  rewrite IH by done. by rewrite lookup_insert_ne.
Qed.

Lemma lift_lookup ls m l :
  NoDup (names ls) -> l ∈ ls -> lift ls m !! Name l = Some (Value l).
Proof.
  revert m. induction ls as [|x ls IH]; intros m N Hl; [by apply elem_of_nil in Hl|].
  cbn in N. apply NoDup_cons in N as [N1 N2].
  apply elem_of_cons in Hl as [->|Hl].
  - cbn. pose proof (lift_lookup_ne ls (<[Name x:=Value x]> m) (Name x) N1) as E.
    unfold lift in E. by rewrite E, lookup_insert_eq.
  - cbn. by apply IH.
Qed.

Lemma Map_lookup ls n v :
  NoDup (names ls) -> Map ls !! n = Some v <-> mkLabel n v ∈ ls.
Proof.
  intros N. split.
  - intros H. destruct (decide (n ∈ names ls)) as [I|I].
    + apply list_elem_of_fmap in I as ([n' v'] & -> & Hl). cbn in *.
      pose proof (lift_lookup ls ∅ _ N Hl) as E. change (lift ls ∅) with (Map ls) in E.
      cbn in E. congruence.
    + change (Map ls) with (lift ls ∅) in H. rewrite lift_lookup_ne in H by done.
      by rewrite lookup_empty in H.
  - intros Hl. exact (lift_lookup ls ∅ _ N Hl).
Qed.

Lemma Map_lookup_None ls n : Map ls !! n = None <-> n ∉ names ls.
Proof.
  assert (G : forall m, lift ls m !! n = None <-> m !! n = None /\ n ∉ names ls).
  { induction ls as [|l ls IH]; intros m; cbn.
    - split; [|tauto]. intros E. split; [done|]. apply not_elem_of_nil.
    - unfold lift in IH. rewrite IH, not_elem_of_cons, lookup_insert_None. naive_solver. }
  change (Map ls) with (lift ls ∅). rewrite G, lookup_empty. tauto.
Qed.

Lemma Map_perm a b : NoDup (names a) -> a ≡ₚ b -> Map a = Map b.
Proof.
  intros N P. apply map_eq. intros n. apply option_eq. intros v.
  rewrite !Map_lookup by (done || by rewrite <- (names_perm _ _ P)). by rewrite P.
Qed.

Lemma wf_ext a b :
  wf_labels a -> wf_labels b -> (forall l, l ∈ a <-> l ∈ b) -> a = b.
Proof.
  intros Ha. revert b. induction Ha as [|x a Ha IH Fa]; intros b Hb E.
  - destruct b as [|y b]; [done|]. exfalso.
    apply (not_elem_of_nil y), E, list_elem_of_here.
  - destruct Hb as [|y b Hb Fb].
    { exfalso. apply (not_elem_of_nil x), E, list_elem_of_here. }
    rewrite Forall_forall in Fa, Fb.
    assert (x = y) as <-.
    { assert (Hx : x ∈ y :: b) by apply E, list_elem_of_here.
      assert (Hy : y ∈ x :: a) by apply E, list_elem_of_here.
      apply elem_of_cons in Hx as [|Hx]; [done|]. apply elem_of_cons in Hy as [|Hy]; [done|].
      pose proof (Less_trans _ _ _ (Fa _ Hy) (Fb _ Hx)) as C. by rewrite Less_irrefl in C. }
    f_equal. apply IH; [done|]. intros l. split; intros Hl.
    + assert (L : l ∈ x :: b) by (apply E; by apply list_elem_of_further).
      apply elem_of_cons in L as [->|]; [|done].
      specialize (Fa _ Hl). by rewrite Less_irrefl in Fa.
    + assert (L : l ∈ x :: a) by (apply E; by apply list_elem_of_further).
      apply elem_of_cons in L as [->|]; [|done].
      specialize (Fb _ Hl). by rewrite Less_irrefl in Fb.
Qed.

(** Two sorted label sets with the same map are equal; in particular any
    function that sorts returns what [sort_labels] does. *)
Lemma Map_inj a b : wf_labels a -> wf_labels b -> Map a = Map b -> a = b.
Proof.
  intros Ha Hb E. apply wf_ext; [done..|]. intros [n v].
  rewrite <- !Map_lookup by (by apply wf_names). by rewrite E.
Qed.

Lemma sorted_unique ls ls' :
  NoDup (names ls) -> ls' ≡ₚ ls -> wf_labels ls' -> ls' = sort_labels ls.
Proof.
  intros N P W. apply wf_ext; [done|by apply sort_labels_wf|].
  intros l. by rewrite P, sort_labels_perm.
Qed.

Lemma map_to_list_labels (m : gmap string string) :
  NoDup (names (map (fun kv => mkLabel kv.1 kv.2) (map_to_list m))).
Proof.
  unfold names. rewrite map_map. cbn.
  replace (map (fun x : string * string => x.1) (map_to_list m)) with ((map_to_list m).*1) by done.
  apply NoDup_fst_map_to_list.
Qed.

Lemma FromMap_wf m : wf_labels (FromMap m).
Proof. apply sort_labels_wf, map_to_list_labels. Qed.

Lemma Map_FromMap m : Map (FromMap m) = m.
Proof.
  apply map_eq. intros n. apply option_eq. intros v.
  rewrite Map_lookup by (apply wf_names, FromMap_wf).
  unfold FromMap, New. rewrite sort_labels_perm, list_elem_of_fmap. split.
  - intros ([n' v'] & [= -> ->] & Hl). by apply elem_of_map_to_list in Hl.
  - intros Hl. exists (n, v). split; [done|]. by apply elem_of_map_to_list.
Qed.

Lemma FromMap_Map ls : wf_labels ls -> FromMap (Map ls) = ls.
Proof.
  intros W. apply Map_inj; [apply FromMap_wf|done|]. apply Map_FromMap.
Qed.

(** * The builder *)

Inductive builder_op := OpSet (n v : string) | OpDel (ns : list string).

Definition run_op (b : Builder) (o : builder_op) : option Builder :=
  match o with OpSet n v => Some (Set_ b n v) | OpDel ns => Del b ns end.

Fixpoint run_ops (b : Builder) (os : list builder_op) : option Builder :=
  match os with
  | [] => Some b
  | o :: os' => match run_op b o with None => None | Some b' => run_ops b' os' end
  end.

(** The specification: a builder is a finite map. *)
Definition delete_all (ns : list string) (m : gmap string string) :=
  foldl (fun m n => base.delete n m) m ns.

Definition apply_op (m : gmap string string) (o : builder_op) : gmap string string :=
  match o with OpSet n v => <[n := v]> m | OpDel ns => delete_all ns m end.

(** What the fields of a builder stand for. *)
Definition denote (b : Builder) : gmap string string :=
  Map (add b) ∪ delete_all (del b) (Map (base b)).

Definition wf_builder (b : Builder) : Prop :=
  wf_labels (base b) /\ NoDup (names (add b)).

Lemma delete_all_lookup ns m n :
  delete_all ns m !! n = if decide (n ∈ ns) then None else m !! n.
Proof.
  revert m. induction ns as [|x ns IH]; intros m; cbn; [done|].
  unfold delete_all in IH. rewrite IH.
  destruct (decide (n ∈ ns)), (decide (n ∈ x :: ns)) as [E|E];
    rewrite elem_of_cons in E; try tauto.
  - destruct E as [->|]; [apply lookup_delete_eq|done].
  - apply lookup_delete_ne. naive_solver.
Qed.

Lemma del_loop_absent fuel i arr c n :
  n ∉ names arr -> del_loop fuel i c arr n = Some (arr, c).
Proof.
  revert i. induction fuel as [|f IH]; intros i N; cbn; [done|].
  destruct (arr !! i) as [a|] eqn:E; [|done].
  destruct (String.eqb_spec (Name a) n) as [<-|]; [|auto].
  exfalso. apply N. apply list_elem_of_fmap. exists a. split; [done|].
  by apply list_elem_of_lookup_2 in E.
Qed.

Definition without (n : string) (ls : Labels) : Labels :=
  List.filter (fun l => negb (Name l =? n)%string) ls.

Lemma without_cons_eq n a ls : Name a = n -> without n (a :: ls) = without n ls.
Proof. intros E. unfold without. cbn. by rewrite (proj2 (String.eqb_eq _ _) E). Qed.

Lemma without_cons_ne n a ls : Name a <> n -> without n (a :: ls) = a :: without n ls.
Proof. intros E. unfold without. cbn. by rewrite (proj2 (String.eqb_neq _ _) E). Qed.

Lemma without_absent n ls : n ∉ names ls -> without n ls = ls.
Proof.
  induction ls as [|x ls IH]; [done|]. cbn [names map]. rewrite not_elem_of_cons. intros [N1 N2].
  rewrite without_cons_ne by done. by rewrite IH.
Qed.

(** After the removal at index [i] the range still visits the positions up to
    the old length; none of them names [n], as the only stale element is the
    last one, which is also still in the slice. *)
Lemma del_loop_found fuel done_ a rest n :
  Name a = n -> NoDup (names (done_ ++ a :: rest)) ->
  del_loop (S fuel) (length done_) (length (done_ ++ a :: rest)) (done_ ++ a :: rest) n =
  del_loop fuel (S (length done_)) (length (done_ ++ rest)) (done_ ++ rest ++ drop (length (done_ ++ rest)) (done_ ++ a :: rest)) n.
Proof.
  intros E N. cbn [del_loop]. rewrite list_lookup_middle by done.
  destruct (String.eqb_spec (Name a) n); [|done].
  rewrite !length_app. cbn [length].
  destruct (Nat.ltb_spec (length done_ + S (length rest)) (length done_ + 1)); [lia|].
  replace (length done_ + S (length rest) - 1)%nat with (length done_ + length rest)%nat by lia.
  rewrite take_app_length. f_equal. f_equal. f_equal.
  rewrite (cons_middle a), (app_assoc done_), drop_app_length' by (rewrite length_app; cbn; lia).
  apply take_ge. lia.
Qed.

Lemma drop_last_stale {A} (done_ rest : list A) a x :
  x ∈ drop (length (done_ ++ rest)) (done_ ++ a :: rest) -> rest = [] /\ x = a \/ x ∈ rest.
Proof.
  rewrite length_app, drop_app_add. destruct rest as [|y rest] using rev_ind.
  - cbn. rewrite list_elem_of_singleton. auto.
  - clear IHrest. intros H. right.
    rewrite length_app in H. replace (a :: rest ++ [y]) with ((a :: rest) ++ [y]) in H by done.
    rewrite drop_app_length' in H by (cbn; lia).
    apply elem_of_app. by right.
Qed.

Lemma del_loop_spec fuel done_ rest n :
  n ∉ names done_ -> NoDup (names (done_ ++ rest)) -> fuel = length rest ->
  exists arr, del_loop fuel (length done_) (length (done_ ++ rest)) (done_ ++ rest) n =
    Some (arr, length (done_ ++ without n rest)) /\
    take (length (done_ ++ without n rest)) arr = done_ ++ without n rest.
Proof.
  revert done_ rest. induction fuel as [|f IH]; intros done_ rest N D F.
  - destruct rest; [|done]. cbn. eexists. split; [done|]. by rewrite firstn_all.
  - destruct rest as [|a rest]; [done|]. injection F as F.
    destruct (String.eqb_spec (Name a) n) as [E|E].
    + rewrite (del_loop_found f _ a rest n E D).
      assert (R : n ∉ names rest).
      { unfold names in D. rewrite map_app in D. apply NoDup_app in D as (_ & _ & D).
        cbn in D. apply NoDup_cons in D as [D _]. by rewrite <- E. }
      rewrite without_cons_eq, without_absent by done.
      destruct rest as [|r rest].
      * cbn in F. subst f. cbn. eexists. split; [done|].
        rewrite !app_nil_r, take_app_length. done.
      * rewrite del_loop_absent.
        { eexists. split; [done|]. by rewrite app_assoc, take_app_length. }
        unfold names. rewrite !map_app, !elem_of_app. fold (names (r :: rest)). fold (names done_).
        intros [?|[?|I]]; [done..|].
        apply list_elem_of_fmap in I as (x & -> & Hx).
        apply drop_last_stale in Hx as [[? _]|Hx]; [done|].
        apply R. apply list_elem_of_fmap. eauto.
    + cbn [del_loop]. rewrite list_lookup_middle by done.
      destruct (String.eqb_spec (Name a) n); [done|]. rewrite without_cons_ne by done.
      rewrite (cons_middle a done_ rest), (cons_middle a done_ (without n rest)).
      rewrite !(app_assoc done_).
      replace (S (length done_)) with (length (done_ ++ [a])) by (rewrite length_app; cbn; lia).
      apply IH; [|by rewrite <- app_assoc|done].
      unfold names. rewrite map_app, elem_of_app. cbn. rewrite list_elem_of_singleton. naive_solver.
Qed.

Lemma Del1_eq b n :
  NoDup (names (add b)) -> Del1 b n = Some (mkBuilder (base b) (del b ++ [n]) (without n (add b))).
Proof.
  intros D. unfold Del1.
  destruct (del_loop_spec (length (add b)) [] (add b) n) as (arr & E1 & E2);
    [apply not_elem_of_nil|done|done|].
  cbn [app length] in E1, E2. by rewrite E1, E2.
Qed.

Lemma elem_of_without n ls l : l ∈ without n ls <-> l ∈ ls /\ Name l <> n.
Proof.
  unfold without. rewrite !list_elem_of_In, filter_In, negb_true_iff, String.eqb_neq.
  done.
Qed.

Lemma without_NoDup n ls : NoDup (names ls) -> NoDup (names (without n ls)).
Proof.
  induction ls as [|a ls IH]; [done|]. cbn [names map]. intros [N1 N2]%NoDup_cons.
  destruct (decide (Name a = n)).
  - rewrite without_cons_eq by done. auto.
  - rewrite without_cons_ne by done. cbn. constructor; [|auto].
    intros (l & E & [Hl _]%elem_of_without)%list_elem_of_fmap. apply N1. rewrite E.
    by apply list_elem_of_fmap_2.
Qed.

Lemma Map_without n ls : NoDup (names ls) -> Map (without n ls) = base.delete n (Map ls).
Proof.
  intros N. apply map_eq. intros k. apply option_eq. intros v.
  rewrite Map_lookup by (by apply without_NoDup).
  rewrite elem_of_without, lookup_delete_Some, Map_lookup by done. cbn. naive_solver.
Qed.

Lemma set_loop_names ls n v ls' : set_loop ls n v = Some ls' -> names ls' = names ls.
Proof.
  revert ls'. induction ls as [|a ls IH]; cbn; [done|]. intros ls'.
  destruct (String.eqb_spec (Name a) n); [by intros [= <-]|].
  destruct (set_loop ls n v) as [r|] eqn:E; [|done]. intros [= <-]. unfold names in *. cbn. by rewrite (IH r).
Qed.

Lemma lift_insert ls m n v :
  n ∉ names ls -> lift ls (<[n := v]> m) = <[n := v]> (lift ls m).
Proof.
  revert m. induction ls as [|a ls IH]; intros m; [done|].
  cbn. rewrite not_elem_of_cons. intros [N1 N2]. unfold lift in IH.
  rewrite <- IH by done. f_equal. by rewrite insert_insert_ne.
Qed.

Lemma set_loop_Map ls n v :
  NoDup (names ls) ->
  Map (match set_loop ls n v with Some r => r | None => ls ++ [mkLabel n v] end) =
  <[n := v]> (Map ls).
Proof.
  change Map with (fun ls => lift ls ∅). cbn beta. generalize (∅ : gmap string string).
  induction ls as [|a ls IH]; intros m N; [done|]. cbn in N. apply NoDup_cons in N as [N1 N2].
  cbn [set_loop]. destruct (String.eqb_spec (Name a) n) as [<-|].
  - cbn. pose proof (lift_insert ls (<[Name a := Value a]> m) (Name a) v N1) as E.
    unfold lift in E. rewrite <- E. by rewrite insert_insert_eq.
  - specialize (IH (<[Name a := Value a]> m) N2). by destruct (set_loop ls n v).
Qed.

Lemma set_loop_None ls n v : set_loop ls n v = None <-> n ∉ names ls.
Proof.
  induction ls as [|a ls IH]; cbn.
  - split; [intros _; apply not_elem_of_nil|done].
  - rewrite not_elem_of_cons. destruct (String.eqb_spec (Name a) n) as [<-|]; [naive_solver|].
    destruct (set_loop ls n v); cbn; naive_solver.
Qed.

Lemma Set_add_NoDup b n v : NoDup (names (add b)) -> NoDup (names (add (Set_ b n v))).
Proof.
  intros N. unfold Set_. destruct (set_loop (add b) n v) as [ls|] eqn:E; cbn [add base].
  - by rewrite (set_loop_names _ _ _ _ E).
  - apply set_loop_None in E. unfold names. rewrite map_app. cbn.
    apply NoDup_app. split; [done|]. split; [|apply NoDup_singleton].
    intros x Hx ->%list_elem_of_singleton. done.
Qed.

Lemma Set_wf b n v : wf_builder b -> wf_builder (Set_ b n v).
Proof.
  intros [W N]. split; [|by apply Set_add_NoDup].
  unfold Set_. by destruct (set_loop (add b) n v).
Qed.

Lemma Set_denote b n v : wf_builder b -> denote (Set_ b n v) = <[n := v]> (denote b).
Proof.
  intros [W N]. unfold denote. rewrite insert_union_l, <- set_loop_Map by done.
  unfold Set_. by destruct (set_loop (add b) n v).
Qed.

Lemma Del_spec b ns :
  wf_builder b -> exists b', Del b ns = Some b' /\ wf_builder b' /\ base b' = base b /\
    denote b' = delete_all ns (denote b).
Proof.
  revert b. induction ns as [|n ns IH]; intros b [W N].
  - exists b. repeat split; try done.
  - cbn [Del]. rewrite Del1_eq by done.
    set (b1 := mkBuilder _ _ _).
    destruct (IH b1) as (b' & E & W' & B & D); [split; [done|by apply without_NoDup]|].
    exists b'. split; [done|]. split; [done|]. 
    rewrite D. cbn. f_equal. unfold denote, b1. cbn. rewrite Map_without by done.
    rewrite delete_union. f_equal.
    unfold delete_all. by rewrite foldl_app.
Qed.

(** The builder never panics as long as its additions have distinct names,
    whatever its base is. *)
Lemma Del_total b ns :
  NoDup (names (add b)) -> exists b', Del b ns = Some b' /\ NoDup (names (add b')) /\ base b' = base b.
Proof.
  revert b. induction ns as [|n ns IH]; intros b N; [by exists b|].
  cbn [Del]. rewrite Del1_eq by done.
  destruct (IH (mkBuilder (base b) (del b ++ [n]) (without n (add b)))) as (b' & E & N' & B).
  { by apply without_NoDup. }
  by exists b'.
Qed.

Lemma run_ops_spec os b :
  wf_builder b -> exists b', run_ops b os = Some b' /\ wf_builder b' /\ base b' = base b /\
    denote b' = foldl apply_op (denote b) os.
Proof.
  revert b. induction os as [|o os IH]; intros b W; [eauto|]. cbn.
  assert (H : exists b1, run_op b o = Some b1 /\ wf_builder b1 /\ base b1 = base b /\
                         denote b1 = apply_op (denote b) o).
  { destruct o as [n v|ns]; cbn.
    - exists (Set_ b n v). split; [done|]. split; [by apply Set_wf|].
      split; [unfold Set_; by destruct (set_loop _ _ _)|by apply Set_denote].
    - destruct (Del_spec b ns W) as (b1 & ? & ? & ? & ?). eauto. }
  destruct H as (b1 & -> & W1 & B1 & D1).
  destruct (IH b1 W1) as (b' & E & W' & B & D). exists b'.
  split; [done|]. split; [done|]. split; [congruence|]. by rewrite D, D1.
Qed.

Lemma run_ops_app b xs ys :
  run_ops b (xs ++ ys) = match run_ops b xs with None => None | Some b' => run_ops b' ys end.
Proof.
  revert b. induction xs as [|x xs IH]; intros b; [done|]. cbn. by destruct (run_op b x).
Qed.

Lemma existsb_name {A} (f : A -> string) n (ls : list A) :
  existsb (fun x => (n =? f x)%string) ls = true <-> exists x, x ∈ ls /\ n = f x.
Proof.
  rewrite existsb_exists. setoid_rewrite String.eqb_eq. by setoid_rewrite list_elem_of_In.
Qed.

Lemma kept_spec b l : kept b l = true <-> Name l ∉ del b /\ Name l ∉ names (add b).
Proof.
  unfold kept. rewrite andb_true_iff, !negb_true_iff, <- !not_true_iff_false.
  rewrite (existsb_name (fun n => n)), (existsb_name Name). unfold names.
  rewrite list_elem_of_fmap. naive_solver.
Qed.

Lemma names_filter_NoDup f ls : NoDup (names ls) -> NoDup (names (List.filter f ls)).
Proof.
  induction ls as [|a ls IH]; [done|]. cbn. intros [N1 N2]%NoDup_cons.
  destruct (f a); [|auto]. cbn. constructor; [|auto].
  intros (l & E & Hl)%list_elem_of_fmap. apply N1. rewrite E.
  apply list_elem_of_fmap. exists l. split; [done|].
  rewrite list_elem_of_In, filter_In in Hl. rewrite list_elem_of_In. tauto.
Qed.

Lemma kept_add_NoDup b : wf_builder b -> NoDup (names (List.filter (kept b) (base b) ++ add b)).
Proof.
  intros [W N]. unfold names. rewrite map_app. apply NoDup_app. split; [|split; [|done]].
  - by apply names_filter_NoDup, wf_names.
  - intros n (l & -> & Hl)%list_elem_of_fmap.
    rewrite list_elem_of_In, filter_In, kept_spec in Hl. tauto.
Qed.

Lemma kept_add_Map b :
  wf_builder b -> Map (List.filter (kept b) (base b) ++ add b) = denote b.
Proof.
  intros W. pose proof (kept_add_NoDup b W) as ND. destruct W as [W N].
  apply map_eq. intros n. apply option_eq. intros v. unfold denote.
  rewrite Map_lookup, elem_of_app, list_elem_of_In, filter_In, kept_spec, <- list_elem_of_In by done.
  rewrite lookup_union_Some_raw, delete_all_lookup, !Map_lookup, Map_lookup_None by done. cbn.
  destruct (decide (n ∈ del b)); [naive_solver|].
  rewrite Map_lookup by (by apply wf_names). naive_solver.
Qed.

Lemma Builder_Labels_spec b :
  wf_builder b -> wf_labels (Builder_Labels b) /\ Map (Builder_Labels b) = denote b.
Proof.
  intros W. pose proof (kept_add_NoDup b W) as ND. pose proof (kept_add_Map b W) as ME.
  assert (G : wf_labels (sort_labels (List.filter (kept b) (base b) ++ add b)) /\
              Map (sort_labels (List.filter (kept b) (base b) ++ add b)) = denote b).
  { split; [by apply sort_labels_wf|]. rewrite <- ME. symmetry.
    apply Map_perm; [done|]. symmetry. apply sort_labels_perm. }
  unfold Builder_Labels. destruct W as [W N]. unfold denote in *.
  destruct (del b) as [|d ds] eqn:E1; [|exact G]. destruct (add b) eqn:E2; [|exact G].
  split; [done|]. cbn. by rewrite (left_id_L ∅ (∪)).
Qed.

Lemma denote_new m : denote (NewBuilder m) = Map m.
Proof. unfold denote, NewBuilder. cbn. apply (left_id_L ∅ (∪)). Qed.

(** What is built from well-formed labels after a sequence of updates. *)
Lemma labels_of_ops ls os : wf_labels ls ->
  exists b, run_ops (NewBuilder ls) os = Some b /\ Builder_Labels b = FromMap (foldl apply_op (Map ls) os).
Proof.
  intros W. destruct (run_ops_spec os (NewBuilder ls)) as (b & E & Wb & _ & D); [split; [done|constructor]|].
  exists b. split; [done|]. destruct (Builder_Labels_spec b Wb) as [WL M].
  apply Map_inj; [done|apply FromMap_wf|]. by rewrite Map_FromMap, M, D, denote_new.
Qed.

(** A [Builder] on a well-formed base implements map updates: any
    sequence of [Set] and [Del] calls runs without the panic that removing
    elements of [b.add] while ranging over it could cause, and [Labels]
    returns the sorted form of the base map after the same insertions and
    deletions. *)
Theorem builder_refines (ls : Labels) (os : list builder_op) (W : wf_labels ls) :
  Builder_Labels <$> run_ops (NewBuilder ls) os = Some (FromMap (foldl apply_op (Map ls) os)).
Proof. by destruct (labels_of_ops ls os W) as (b & -> & <-). Qed.

Lemma builder_refines_witness :
  Builder_Labels <$> run_ops (NewBuilder [mkLabel "a" "1"; mkLabel "b" "2"; mkLabel "c" "3"])
    [OpSet "d" "4"; OpSet "0" "x"; OpDel ["d"; "b"]; OpSet "a" "9"] =
  Some [mkLabel "0" "x"; mkLabel "a" "9"; mkLabel "c" "3"].
Proof.
  rewrite builder_refines; [vm_compute; reflexivity|].
  repeat constructor.
Defined.

(** [Labels] sets and maps of strings are the same data: [FromMap] always
    builds a sorted set with unique names, [Map] recovers the map from it, and
    every sorted set is rebuilt from its map. *)
Theorem labels_map_roundtrip (m : gmap string string) :
  wf_labels (FromMap m) /\ Map (FromMap m) = m /\
  (forall ls, wf_labels ls -> Map ls = m -> FromMap m = ls).
Proof.
  split; [apply FromMap_wf|]. split; [apply Map_FromMap|].
  intros ls W <-. by apply FromMap_Map.
Qed.

(** * The order on label sets *)

Lemma Compare_cons x y a b :
  Compare (x :: a) (y :: b) =
    if strings_Compare (Name x) (Name y) =? 0 then
      if strings_Compare (Value x) (Value y) =? 0 then Compare a b
      else strings_Compare (Value x) (Value y)
    else strings_Compare (Name x) (Name y).
Proof.
  cbn [Compare]. destruct (strings_Compare (Name x) (Name y) =? 0); cbn [negb]; [|done].
  by destruct (strings_Compare (Value x) (Value y) =? 0).
Qed.

Lemma Compare_cons_eq x y a b :
  strings_Compare (Name x) (Name y) = 0 -> strings_Compare (Value x) (Value y) = 0 ->
  Compare (x :: a) (y :: b) = Compare a b.
Proof. rewrite Compare_cons. by intros -> ->. Qed.

(** Case analysis on the comparison of two heads. *)
Lemma Compare_cons_lt x y a b :
  Compare (x :: a) (y :: b) < 0 <->
  strings_Compare (Name x) (Name y) < 0 \/
  (Name x = Name y /\ strings_Compare (Value x) (Value y) < 0) \/
  (x = y /\ Compare a b < 0).
Proof.
  rewrite Compare_cons. destruct x as [n v], y as [n' v']. cbn [Name Value].
  pose proof (strings_Compare_0 n n'). pose proof (strings_Compare_0 v v').
  destruct (Z.eqb_spec (strings_Compare n n') 0), (Z.eqb_spec (strings_Compare v v') 0);
    split; intros Hyp.
  - assert (n = n') as <- by tauto. assert (v = v') as <- by tauto. auto.
  - destruct Hyp as [L|[[_ L]|[_ L]]]; lia.
  - assert (n = n') as <- by tauto. auto.
  - destruct Hyp as [L|[[_ L]|[[= -> ->] L]]]; [lia|done|]. tauto.
  - auto.
  - destruct Hyp as [L|[[-> L]|[[= -> ->] L]]]; [done|tauto..].
  - auto.
  - destruct Hyp as [L|[[-> L]|[[= -> ->] L]]]; [done|tauto..].
Qed.

Lemma Compare_nil_r a : Compare a [] = Z.of_nat (length a).
Proof. destruct a; cbn; lia. Qed.

Lemma Compare_lt_trans a b c : Compare a b < 0 -> Compare b c < 0 -> Compare a c < 0.
Proof.
  revert b c. induction a as [|x a IH]; intros [|y b] [|z c];
    rewrite ?Compare_nil_r; cbn [length]; try lia; try (cbn; lia).
  rewrite !Compare_cons_lt. specialize (IH b c).
  pose proof (strings_Compare_trans (Name x) (Name y) (Name z)).
  pose proof (strings_Compare_trans (Value x) (Value y) (Value z)).
  intros [L1|[[E1 L1]|[-> L1]]] [L2|[[E2 L2]|[-> L2]]]; try tauto;
    rewrite ?E1, <- ?E2, ?E1; try tauto; rewrite <- ?E1, ?E2 in *; tauto.
Qed.

Lemma Compare_0 a b : Compare a b = 0 <-> a = b.
Proof.
  revert b. induction a as [|x a IH]; intros [|y b]; try (cbn; split; [lia|done]); [done|].
  rewrite Compare_cons. destruct x as [n v], y as [n' v']. cbn [Name Value].
  pose proof (strings_Compare_0 n n'). pose proof (strings_Compare_0 v v').
  specialize (IH b).
  destruct (Z.eqb_spec (strings_Compare n n') 0), (Z.eqb_spec (strings_Compare v v') 0);
    naive_solver.
Qed.

Lemma Compare_opp a b : Compare a b = - Compare b a.
Proof.
  revert b. induction a as [|x a IH]; intros [|y b]; try (cbn; lia).
  rewrite !Compare_cons, (strings_Compare_opp (Name y)), (strings_Compare_opp (Value y)), IH.
  repeat case_if; bool_prop; lia.
Qed.

Lemma Equal_iff a b : Equal a b = true <-> a = b.
Proof.
  unfold Equal. revert b. induction a as [|x a IH]; intros [|y b]; try done.
  specialize (IH b). cbn [length Equal_loop]. destruct x as [n v], y as [n' v']. cbn [Name Value].
  change (S (length a) =? S (length b))%nat with (length a =? length b)%nat.
  destruct (String.eqb_spec n n'), (String.eqb_spec v v'); cbn [negb orb] in *;
    destruct (length a =? length b)%nat; cbn [negb] in *; naive_solver.
Qed.

Lemma Compare_le_trans (a b c : Labels) : Compare a b <= 0 -> Compare b c <= 0 -> Compare a c <= 0.
Proof.
  intros H1 H2. destruct (Z.eq_dec (Compare a b) 0) as [->%Compare_0|]; [done|].
  destruct (Z.eq_dec (Compare b c) 0) as [<-%Compare_0|]; [done|].
  pose proof (Compare_lt_trans a b c). lia.
Qed.

(** [Compare] is a total order on label sets that agrees with [Equal]: it
    is 0 exactly on equal sets, antisymmetric and transitive. *)
Theorem Compare_total_order (a b c : Labels) :
  (Compare a b = 0 <-> Equal a b = true) /\ (Equal a b = true <-> a = b) /\
  Compare a b = - Compare b a /\
  (Compare a b <= 0 -> Compare b c <= 0 -> Compare a c <= 0).
Proof.
  rewrite Equal_iff. split; [apply Compare_0|]. split; [done|]. split; [apply Compare_opp|apply Compare_le_trans].
Qed.

(** * The bytes a label set is hashed from *)

Definition no_sep (l : Label) : Prop :=
  contains_byte (Name l) 255 = false /\ contains_byte (Value l) 255 = false.

(** The bytes [Hash] digests identify the label set, provided no name or
    value holds the separator byte [\xff] (valid UTF-8 never does): two sets
    that collide before hashing are equal. *)
Theorem hash_bytes_injective (a b : Labels) (Ha : Forall no_sep a) (Hb : Forall no_sep b)
  (E : hash_bytes a = hash_bytes b) : a = b.
Proof.
  revert b Hb E. induction Ha as [|[n v] a [N V] Ha IH]; intros [|[n' v'] b] Hb; cbn [hash_bytes Name Value].
  - done.
  - intros E. by destruct n'.
  - intros E. by destruct n.
  - apply Forall_cons in Hb as [[N' V'] Hb]. cbn [Name Value] in *. intros E.
    apply split_at_byte in E as [-> E]; [|done..]. apply split_at_byte in E as [-> E]; [|done..].
    by rewrite (IH b).
Qed.

(** * The text of a label set *)

Section text.
Context `{UT : UnicodeTables}.

Definition plain_name (l : Label) : Prop := contains_byte (Name l) (rune "=") = false.

Definition label_text (l : Label) : string := Name l +:+ "=" +:+ Quote (Value l).
Fixpoint text_rest (ls : Labels) : string :=
  match ls with [] => "}" | l :: ls' => ", " +:+ label_text l +:+ text_rest ls' end.

Lemma Labels_String_cons l ls : Labels_String (l :: ls) = "{" +:+ label_text l +:+ text_rest ls.
Proof.
  unfold Labels_String. change (fun l => _) with label_text. f_equal. revert l.
  induction ls as [|l' ls IH]; intros l; [done|]. cbn [map]. cbn [map] in IH.
  change (str_join ", " (label_text l :: label_text l' :: map label_text ls))
    with (label_text l +:+ ", " +:+ str_join ", " (label_text l' :: map label_text ls)).
  rewrite str_app_assoc. f_equal. cbn [text_rest]. by rewrite str_app_assoc, IH.
Qed.

Lemma label_text_prefix l l' r r' :
  plain_name l -> plain_name l' -> label_text l +:+ r = label_text l' +:+ r' -> l = l' /\ r = r'.
Proof.
  destruct l as [n v], l' as [n' v']. unfold label_text. cbn [Name Value]. intros P P' E. rewrite !str_app_assoc in E.
  change ("=" +:+ ?x) with (String "=" x) in E.
  apply split_at_byte in E as [-> E]; [|done..]. by apply Quote_prefix_free in E as [-> ->].
Qed.

Lemma text_rest_injective a b : Forall plain_name a -> Forall plain_name b -> text_rest a = text_rest b -> a = b.
Proof.
  intros Fa. revert b. induction Fa as [|l a Pl Fa IH]; intros [|l' b] Fb E; [done..|].
  apply Forall_cons in Fb as [Pl' Fb]. cbn [text_rest] in E. apply (f_equal (str_drop 2)) in E. cbn in E.
  apply label_text_prefix in E as [-> E]; [|done..]. f_equal. by apply IH.
Qed.

(** Label sets without an [=] in a name are determined by their text. *)
Lemma Labels_String_injective a b :
  Forall plain_name a -> Forall plain_name b -> Labels_String a = Labels_String b -> a = b.
Proof.
  assert (L : forall l ls, Labels_String (l :: ls) <> Labels_String []).
  { intros l ls E. rewrite Labels_String_cons in E. apply (f_equal String.length) in E.
    unfold label_text in E. rewrite !str_length_app in E.
    change (String.length "{") with 1%nat in E. change (String.length "=") with 1%nat in E.
    change (String.length (Labels_String [])) with 2%nat in E.
    assert (1 <= String.length (text_rest ls))%nat; [|lia].
    destruct ls; cbn [text_rest]; rewrite ?str_length_app; cbn; lia. }
  intros Fa Fb E. destruct a as [|l a], b as [|l' b]; [done|by destruct (L l' b)|by destruct (L l a)|].
  apply Forall_cons in Fa as [Pl Fa]. apply Forall_cons in Fb as [Pl' Fb]. rewrite !Labels_String_cons in E.
  apply (f_equal (str_drop 1)) in E. cbn in E. apply label_text_prefix in E as [-> E]; [|done..].
  f_equal. by apply text_rest_injective.
Qed.
End text.

Lemma hash_bytes_injective_witness :
  Forall no_sep [mkLabel "a" "b"] /\ [mkLabel "a" "b"] = [mkLabel "a" "b"].
Proof.
  assert (F : Forall no_sep [mkLabel "a" "b"]) by (repeat constructor).
  split; [exact F|]. apply (hash_bytes_injective _ _ F F). reflexivity.
Defined.

Lemma labels_map_roundtrip_witness :
  wf_labels [mkLabel "a" "1"; mkLabel "b" "2"] /\
  FromMap (Map [mkLabel "a" "1"; mkLabel "b" "2"]) = [mkLabel "a" "1"; mkLabel "b" "2"].
Proof.
  assert (W : wf_labels [mkLabel "a" "1"; mkLabel "b" "2"]) by repeat constructor.
  split; [exact W|].
  exact (proj2 (proj2 (labels_map_roundtrip (Map [mkLabel "a" "1"; mkLabel "b" "2"]))) _ W eq_refl).
Defined.

Lemma Compare_total_order_witness :
  Compare [mkLabel "a" "1"] [mkLabel "a" "2"] <= 0 /\ Compare [mkLabel "a" "1"] [mkLabel "b" "0"] <= 0.
Proof.
  split; [vm_compute; discriminate|].
  apply (proj2 (proj2 (proj2 (Compare_total_order [mkLabel "a" "1"] [mkLabel "a" "2"] [mkLabel "b" "0"]))));
    vm_compute; discriminate.
Defined.
