(* ===== verification/Ast.v ===== *)
(** promql/ast.go, with the value types of promql/value.go and the signatures
    of promql/functions.go: syntax trees, the type an expression evaluates to,
    and the depth-first walk over a tree. *)

From S2P Require Import Prelude GoString GoFmt Float Duration Lexer Labels.

(** * Value types and function signatures *)

Inductive ValueType :=
| ValueTypeNone | ValueTypeVector | ValueTypeScalar | ValueTypeMatrix | ValueTypeString.

#[export] Instance ValueType_eq_dec : EqDecision ValueType.
Proof. solve_decision. Defined.

(** The string constants of value.go. *)
Definition ValueType_string (t : ValueType) : string :=
  match t with
  | ValueTypeNone => "none" | ValueTypeVector => "vector" | ValueTypeScalar => "scalar"
  | ValueTypeMatrix => "matrix" | ValueTypeString => "string"
  end.

(** [documentedType] (value.go) *)
Definition documentedType (t : ValueType) : string :=
  match t with
  | ValueTypeVector => "instant vector"
  | ValueTypeMatrix => "range vector"
  | _ => ValueType_string t
  end.

(** [Function] without its evaluation function. *)
Record Function := mkFunction {
  f_Name : string; ArgTypes : list ValueType; Variadic : Z; ReturnType : ValueType
}.

#[export] Instance Function_eq_dec : EqDecision Function.
Proof. solve_decision. Defined.

Local Notation V := ValueTypeVector.
Local Notation S := ValueTypeScalar.
Local Notation M := ValueTypeMatrix.
Local Notation T := ValueTypeString.

(** [var functions] *)
Definition functions : list (string * Function) :=
  let fn n args variadic ret := (n, mkFunction n args variadic ret) in
  [fn "abs" [V] 0 V; fn "absent" [V] 0 V; fn "avg_over_time" [M] 0 V; fn "ceil" [V] 0 V;
   fn "changes" [M] 0 V; fn "clamp_max" [V; S] 0 V; fn "clamp_min" [V; S] 0 V;
   fn "count_over_time" [M] 0 V; fn "days_in_month" [V] 1 V; fn "day_of_month" [V] 1 V;
   fn "day_of_week" [V] 1 V; fn "delta" [M] 0 V; fn "deriv" [M] 0 V; fn "exp" [V] 0 V;
   fn "floor" [V] 0 V; fn "histogram_quantile" [S; V] 0 V; fn "holt_winters" [M; S; S] 0 V;
   fn "hour" [V] 1 V; fn "idelta" [M] 0 V; fn "increase" [M] 0 V; fn "irate" [M] 0 V;
   fn "label_replace" [V; T; T; T; T] 0 V; fn "label_join" [V; T; T; T] (-1) V;
   fn "ln" [V] 0 V; fn "log10" [V] 0 V; fn "log2" [V] 0 V; fn "max_over_time" [M] 0 V;
   fn "min_over_time" [M] 0 V; fn "minute" [V] 1 V; fn "month" [V] 1 V;
   fn "predict_linear" [M; S] 0 V; fn "quantile_over_time" [S; M] 0 V; fn "rate" [M] 0 V;
   fn "resets" [M] 0 V; fn "round" [V; S] 1 V; fn "scalar" [V] 0 S; fn "sort" [V] 0 V;
   fn "sort_desc" [V] 0 V; fn "sqrt" [V] 0 V; fn "stddev_over_time" [M] 0 V;
   fn "stdvar_over_time" [M] 0 V; fn "sum_over_time" [M] 0 V; fn "time" [] 0 S;
   fn "timestamp" [V] 0 V; fn "vector" [S] 0 V; fn "year" [V] 1 V].

Fixpoint assoc {A} (k : string) (l : list (string * A)) : option A :=
  match l with
  | [] => None
  | (x, a) :: l' => if (x =? k)%string then Some a else assoc k l'
  end.

Definition getFunction (name : string) : option Function := assoc name functions.

(** * Trees *)

Inductive VectorMatchCardinality := CardOneToOne | CardManyToOne | CardOneToMany | CardManyToMany.

#[export] Instance VectorMatchCardinality_eq_dec : EqDecision VectorMatchCardinality.
Proof. solve_decision. Defined.

Definition VectorMatchCardinality_String (c : VectorMatchCardinality) : string :=
  match c with
  | CardOneToOne => "one-to-one" | CardManyToOne => "many-to-one"
  | CardOneToMany => "one-to-many" | CardManyToMany => "many-to-many"
  end.

Record VectorMatching := mkVectorMatching {
  Card : VectorMatchCardinality; MatchingLabels : list string; On : bool; Include : list string
}.

#[export] Instance VectorMatching_eq_dec : EqDecision VectorMatching.
Proof. solve_decision. Defined.

Section ast.
Context `{Regexp}.

(** [Expr]: one constructor per implementation of the interface, fields in
    the order of the structs.  The series and iterators that query preparation
    adds to selectors are not part of the tree. *)
Inductive Expr :=
| AggregateExpr (Op : ItemType) (e : Expr) (Param : option Expr) (Grouping : list string) (Without : bool)
| BinaryExpr (Op : ItemType) (LHS RHS : Expr) (vm : option VectorMatching) (ReturnBool : bool)
| Call (Func : Function) (Args : list Expr)
| MatrixSelector (Name : string) (Range Offset : Duration) (LabelMatchers : list Matcher)
| NumberLiteral (Val : float64)
| ParenExpr (e : Expr)
| StringLiteral (Val : string)
| UnaryExpr (Op : ItemType) (e : Expr)
| VectorSelector (Name : string) (Offset : Duration) (LabelMatchers : list Matcher).

(** [Statement].  Times and intervals are nanoseconds. *)
Inductive Statement :=
| AlertStmt (Name : string) (e : Expr) (For : Duration) (lset annotations : Labels)
| EvalStmt (e : Expr) (Start End Interval : Z)
| RecordStmt (Name : string) (e : Expr) (lset : Labels).

(** [Expr.Type] *)
Fixpoint Type_ (e : Expr) : ValueType :=
  match e with
  | AggregateExpr _ _ _ _ _ => ValueTypeVector
  | Call f _ => ReturnType f
  | MatrixSelector _ _ _ _ => ValueTypeMatrix
  | NumberLiteral _ => ValueTypeScalar
  | ParenExpr e => Type_ e
  | StringLiteral _ => ValueTypeString
  | UnaryExpr _ e => Type_ e
  | VectorSelector _ _ _ => ValueTypeVector
  | BinaryExpr _ l r _ _ =>
    if bool_decide (Type_ l = ValueTypeScalar) && bool_decide (Type_ r = ValueTypeScalar)
    then ValueTypeScalar else ValueTypeVector
  end.

(** The name [%T] prints. *)
Definition type_name (e : Expr) : string :=
  match e with
  | AggregateExpr _ _ _ _ _ => "*promql.AggregateExpr"
  | BinaryExpr _ _ _ _ _ => "*promql.BinaryExpr"
  | Call _ _ => "*promql.Call"
  | MatrixSelector _ _ _ _ => "*promql.MatrixSelector"
  | NumberLiteral _ => "*promql.NumberLiteral"
  | ParenExpr _ => "*promql.ParenExpr"
  | StringLiteral _ => "*promql.StringLiteral"
  | UnaryExpr _ _ => "*promql.UnaryExpr"
  | VectorSelector _ _ _ => "*promql.VectorSelector"
  end.

(** An induction principle that reaches the arguments of calls and the
    parameter of aggregations. *)
Definition Expr_nested_ind (P : Expr -> Prop)
  (HA : forall op e p g w, P e -> (forall x, p = Some x -> P x) -> P (AggregateExpr op e p g w))
  (HB : forall op l r vm b, P l -> P r -> P (BinaryExpr op l r vm b))
  (HC : forall f args, Forall P args -> P (Call f args))
  (HM : forall n r o ms, P (MatrixSelector n r o ms))
  (HN : forall v, P (NumberLiteral v))
  (HP : forall e, P e -> P (ParenExpr e))
  (HS : forall v, P (StringLiteral v))
  (HU : forall op e, P e -> P (UnaryExpr op e))
  (HV : forall n o ms, P (VectorSelector n o ms)) : forall e, P e :=
  fix go (e : Expr) : P e :=
    match e with
    | AggregateExpr op e p g w =>
      HA op e p g w (go e)
        match p with
        | None => fun x E => match E with eq_refl => I end
        | Some y => fun x E => match E in _ = o return match o with Some z => P z | None => True end
                               with eq_refl => go y end
        end
    | BinaryExpr op l r vm b => HB op l r vm b (go l) (go r)
    | Call f args => HC f args ((fix all (l : list Expr) : Forall P l :=
        match l with [] => Forall_nil_2 P | x :: l' => Forall_cons_2 P x l' (go x) (all l') end) args)
    | MatrixSelector n r o ms => HM n r o ms
    | NumberLiteral v => HN v
    | ParenExpr e => HP e (go e)
    | StringLiteral v => HS v
    | UnaryExpr op e => HU op e (go e)
    | VectorSelector n o ms => HV n o ms
    end.

(** * Walk and Inspect *)

(** [Node]: statement lists, statements, expression lists, expressions. *)
Inductive Node :=
| NStatements (ss : list Statement)
| NStatement (s : Statement)
| NExpressions (es : list Expr)
| NExpr (e : Expr).

(** A visitor of [Inspect] is a closure over some state: [f node path] says
    whether to descend; [None] is the [nil] node of the closing call. *)
Section walk.
Context {A : Type} (f : option Node -> list Node -> A -> bool * A).

(** The frame of [Walk]: visit, descend if asked to, close. *)
Definition visit (n : Node) (path : list Node) (children : list Node -> A -> A) (a : A) : A :=
  let (go, a) := f (Some n) path a in
  if go : bool then snd (f None [] (children (path ++ [n]) a)) else a.

Fixpoint Walk_expr (e : Expr) (path : list Node) (a : A) {struct e} : A :=
  visit (NExpr e) path (fun path a =>
    match e with
    | AggregateExpr _ e _ _ _ => Walk_expr e path a
    | BinaryExpr _ l r _ _ => Walk_expr r path (Walk_expr l path a)
    | Call _ args =>
      visit (NExpressions args) path (fun path a =>
        (fix all (es : list Expr) (a : A) : A :=
           match es with [] => a | e :: es' => all es' (Walk_expr e path a) end) args a) a
    | ParenExpr e => Walk_expr e path a
    | UnaryExpr _ e => Walk_expr e path a
    | MatrixSelector _ _ _ _ | NumberLiteral _ | StringLiteral _ | VectorSelector _ _ _ => a
    end) a.

Definition stmt_expr (s : Statement) : Expr :=
  match s with AlertStmt _ e _ _ _ => e | EvalStmt e _ _ _ => e | RecordStmt _ e _ => e end.

Definition Walk_stmt (s : Statement) (path : list Node) (a : A) : A :=
  visit (NStatement s) path (fun path a => Walk_expr (stmt_expr s) path a) a.

Definition Walk (n : Node) (path : list Node) (a : A) : A :=
  match n with
  | NStatements ss =>
    visit n path (fun path a => foldl (fun a s => Walk_stmt s path a) a ss) a
  | NStatement s => Walk_stmt s path a
  | NExpressions es => visit n path (fun path a => foldl (fun a e => Walk_expr e path a) a es) a
  | NExpr e => Walk_expr e path a
  end.

Definition Inspect (n : Node) (a : A) : A := Walk n [] a.
End walk.

(** The vector and matrix selectors of an expression, in source order. *)
Fixpoint selectors (e : Expr) : list Expr :=
  match e with
  | AggregateExpr _ e p _ _ => (match p with Some p => selectors p | None => [] end) ++ selectors e
  | BinaryExpr _ l r _ _ => selectors l ++ selectors r
  | Call _ args => flat_map selectors args
  | ParenExpr e | UnaryExpr _ e => selectors e
  | NumberLiteral _ | StringLiteral _ => []
  | MatrixSelector _ _ _ _ | VectorSelector _ _ _ => [e]
  end.

(** A visitor that collects the selectors, as query preparation does. *)
Definition collect (n : option Node) (path : list Node) (acc : list Expr) : bool * list Expr :=
  match n with
  | Some (NExpr (MatrixSelector _ _ _ _ as e)) | Some (NExpr (VectorSelector _ _ _ as e)) => (true, acc ++ [e])
  | _ => (true, acc)
  end.

(** No aggregation of the expression has a selector in its parameter. *)
Fixpoint params_closed (e : Expr) : bool :=
  match e with
  | AggregateExpr _ e p _ _ =>
    match p with Some p => match selectors p with [] => true | _ => false end | None => true end
    && params_closed e
  | BinaryExpr _ l r _ _ => params_closed l && params_closed r
  | Call _ args => forallb params_closed args
  | ParenExpr e | UnaryExpr _ e => params_closed e
  | _ => true
  end.

Lemma collect_expr e path acc :
  params_closed e = true -> Walk_expr collect e path acc = acc ++ selectors e.
Proof.
  revert path acc. induction e as [op e p g w IH _|op l r vm b IHl IHr|fn args IH| | |e IH| |op e IH|]
    using Expr_nested_ind; intros path acc C; cbn in *; rewrite ?app_nil_r; try done.
  - apply andb_true_iff in C as [C1 C2]. rewrite IH by done.
    destruct p as [p|]; [|done]. by destruct (selectors p).
  - apply andb_true_iff in C as [C1 C2]. by rewrite IHl, IHr, app_assoc.
  - generalize ((path ++ [NExpr (Call fn args)]) ++ [NExpressions args]). intros path'.
    revert acc. induction IH as [|x args Hx _ IHargs]; intros acc; cbn in *; [by rewrite app_nil_r|].
    apply andb_true_iff in C as [C1 C2]. by rewrite Hx, IHargs, app_assoc.
  - by apply IH.
  - by apply IH.
Qed.

(** [Inspect] reaches every selector of an expression, once and in source
    order, when no selector sits in an aggregation parameter. *)
Theorem Inspect_selectors (e : Expr) (C : params_closed e = true) :
  Inspect collect (NExpr e) [] = selectors e.
Proof. unfold Inspect, Walk. by rewrite collect_expr. Qed.

(** The condition is needed: [Walk] does not descend into [Param], so the
    selectors of an aggregation parameter are never visited. *)
Theorem Inspect_skips_param (op : ItemType) (e p : Expr) (g : list string) (w : bool)
  (C : params_closed e = true) :
  Inspect collect (NExpr (AggregateExpr op e (Some p) g w)) [] = selectors e.
Proof. unfold Inspect, Walk. cbn. by rewrite collect_expr. Qed.
End ast.

(** * Instances *)

#[local] Instance one_regexp : Regexp := {| regexp := unit; regexp_Compile _ := Ok tt; MatchString _ _ := true |}.

Definition foo : Expr := VectorSelector "foo" 0 [].
Definition bar : Expr := VectorSelector "bar" 0 [].

Lemma Inspect_selectors_witness :
  Inspect collect (NExpr (BinaryExpr itemADD (ParenExpr foo) bar None false)) [] = [foo; bar].
Proof. rewrite Inspect_selectors; reflexivity. Defined.

Lemma Inspect_skips_param_witness :
  Inspect collect (NExpr (AggregateExpr itemTopK foo (Some bar) [] false)) [] = [foo] /\
  selectors (AggregateExpr itemTopK foo (Some bar) [] false) = [bar; foo].
Proof. split; [rewrite Inspect_skips_param|]; reflexivity. Defined.
