(* ===== verification/Quantile.v ===== *)
(** promql/quantile.go: quantiles of samples and of histogram buckets. *)

From S2P Require Import Prelude GoString GoFmt Float GoMath.

(** * Standard library: [sort.Sort] and [sort.Search] *)

Section sorting.
Context {A : Type} (Less : A -> A -> bool).

(** Insertion sort; elements that [Less] does not order, which Go may leave
    in any order, keep theirs. *)
Fixpoint insert_sorted (x : A) (l : list A) : list A :=
  match l with y :: l' => if Less x y then x :: l else y :: insert_sorted x l' | [] => [x] end.
Definition sort_Sort (l : list A) : list A := foldl (fun acc x => insert_sorted x acc) [] l.
End sorting.

(** The binary search of [sort.Search]: [fuel] halvings. *)
Fixpoint search_loop (fuel : nat) (f : nat -> bool) (i j : nat) : nat :=
  match fuel with
  | O => i
  | S fuel' =>
    if (i <? j)%nat then
      let h := ((i + j) / 2)%nat in
      if negb (f h) then search_loop fuel' f (h + 1) j else search_loop fuel' f i h
    else i
  end.
Definition Search (n : nat) (f : nat -> bool) : nat := search_loop n f 0 n.

(** * Buckets *)

Record bucket := mkBucket { upperBound : float64; count : float64 }.

Definition buckets_Less (a b : bucket) : bool := flt (upperBound a) (upperBound b).

(** The loop of [ensureMonotonic]: it ranges over [buckets[1:]] but uses the
    index for [buckets], so that it visits all but the last. *)
Fixpoint ensure_loop (mx : float64) (bs : list bucket) : list bucket :=
  match bs with
  | [] => []
  | [b] => [b]
  | b :: bs' =>
    if flt mx (count b) then b :: ensure_loop (count b) bs'
    else if flt (count b) mx then mkBucket (upperBound b) mx :: ensure_loop mx bs'
    else b :: ensure_loop mx bs'
  end.
Definition ensureMonotonic (bs : list bucket) : list bucket :=
  match bs with [] => [] | b :: _ => ensure_loop (count b) bs end.

Definition zero_bucket : bucket := mkBucket (of_Z 0) (of_Z 0).
Definition nth_bucket (bs : list bucket) (i : nat) : bucket := nth i bs zero_bucket.

(** The interpolation inside bucket [b]. *)
Definition interpolate (bs : list bucket) (b : nat) (rank : float64) : float64 :=
  let bucketEnd := upperBound (nth_bucket bs b) in
  let cnt := count (nth_bucket bs b) in
  if (0 <? b)%nat then
    let prev := nth_bucket bs (b - 1) in
    let bucketStart := upperBound prev in
    fadd bucketStart (fmul (fsub bucketEnd bucketStart) (fdiv (fsub rank (count prev)) (fsub cnt (count prev))))
  else fadd (of_Z 0) (fmul (fsub bucketEnd (of_Z 0)) (fdiv rank cnt)).

(** [bucketQuantile] *)
Definition bucketQuantile (q : float64) (buckets : list bucket) : float64 :=
  if flt q (of_Z 0) then Inf true
  else if flt (of_Z 1) q then Inf false
  else if (length buckets <? 2)%nat then NaN
  else
    let bs := sort_Sort buckets_Less buckets in
    let n := length bs in
    if negb (feq (upperBound (nth_bucket bs (n - 1))) (Inf false)) then NaN
    else
      let bs := ensureMonotonic bs in
      let rank := fmul q (count (nth_bucket bs (n - 1))) in
      let b := Search (n - 1) (fun i => fle rank (count (nth_bucket bs i))) in
      if (b =? n - 1)%nat then upperBound (nth_bucket bs (n - 2))
      else if (b =? 0)%nat && fle (upperBound (nth_bucket bs 0)) (of_Z 0) then upperBound (nth_bucket bs 0)
      else interpolate bs b rank.

(** * Samples *)

(** [vectorByValueHeap.Less]: NaN comes first. *)
Definition by_value_Less (a b : float64) : bool := if IsNaN a then true else flt a b.

Section quantile.
(** What converting a float that no [int] represents gives. *)
Variable int_overflow : float64 -> Z.

Definition to_int (f : float64) : Z :=
  match floor f with
  | Some z => if (min_int64 <=? z) && (z <=? max_int64) then z else int_overflow f
  | None => int_overflow f
  end.

(** [values[i]]; [None] is the panic of an index out of range. *)
Definition index (values : list float64) (i : Z) : option float64 :=
  if i <? 0 then None else values !! Z.to_nat i.

(** [quantile] *)
Definition quantile (q : float64) (values : list float64) : option float64 :=
  if (length values =? 0)%nat then Some NaN
  else if flt q (of_Z 0) then Some (Inf true)
  else if flt (of_Z 1) q then Some (Inf false)
  else
    let values := sort_Sort by_value_Less values in
    let n := of_Z (Z.of_nat (length values)) in
    let rank := fmul q (fsub n (of_Z 1)) in
    let lowerIndex := Max (of_Z 0) (Floor rank) in
    let upperIndex := Min (fsub n (of_Z 1)) (fadd lowerIndex (of_Z 1)) in
    let weight := fsub rank (Floor rank) in
    match index values (to_int lowerIndex), index values (to_int upperIndex) with
    | Some lo, Some hi => Some (fadd (fmul lo (fsub (of_Z 1) weight)) (fmul hi weight))
    | _, _ => None
    end.

End quantile.

(** * Binary search *)

Lemma search_loop_spec f fuel i j :
  (i <= j)%nat -> (j - i <= fuel)%nat ->
  let r := search_loop fuel f i j in
  (i <= r <= j)%nat /\ ((forall a b, (i <= a)%nat -> (a <= b)%nat -> (b < j)%nat -> f a = true -> f b = true) ->
    (forall a, (i <= a < r)%nat -> f a = false) /\ ((r < j)%nat -> f r = true)).
Proof.
  revert i j. induction fuel as [|fuel IH]; intros i j L F; cbn [search_loop].
  - split; [lia|]. intros _. split; intros; lia.
  - destruct (Nat.ltb_spec i j); [|split; [lia|]; intros _; split; intros; lia].
    set (h := ((i + j) / 2)%nat).
    assert (B : (i <= h < j)%nat) by (unfold h; split; [apply Nat.div_le_lower_bound|apply Nat.div_lt_upper_bound]; lia).
    destruct (f h) eqn:E; cbn [negb].
    + destruct (IH i h ltac:(lia) ltac:(lia)) as [R S]. split; [lia|]. intros M. destruct S as [S1 S2].
      { intros a b ? ? ?. apply M; lia. }
      split; [done|]. intros X. destruct (decide (search_loop fuel f i h = h)) as [->|]; [done|]. apply S2. lia.
    + destruct (IH (h + 1)%nat j ltac:(lia) ltac:(lia)) as [R S]. split; [lia|]. intros M. destruct S as [S1 S2].
      { intros a b ? ? ?. apply M; lia. }
      split; [|done]. intros a A. destruct (decide (h + 1 <= a)%nat); [apply S1; lia|].
      apply not_true_is_false. intros X. rewrite (M a h) in E; [done|lia..|done].
Qed.

(** [sort.Search] finds the first index that satisfies a monotone
    predicate, [n] when there is none; [n] halvings are enough. *)
Lemma Search_first n f (M : forall a b, (a <= b)%nat -> (b < n)%nat -> f a = true -> f b = true) :
  (Search n f <= n)%nat /\ (forall a, (a < Search n f)%nat -> f a = false) /\ ((Search n f < n)%nat -> f (Search n f) = true).
Proof.
  destruct (search_loop_spec f n 0 n ltac:(lia) ltac:(lia)) as [R S]. unfold Search. split; [lia|].
  destruct S as [S1 S2]; [intros a b _; apply M|]. split; [|done]. intros a A. apply S1. lia.
Qed.

(** * The order of floats *)

Lemma SFcompare_eq_l x y z : SFcompare x y = Some Eq -> SFcompare x z = SFcompare y z.
Proof.
  destruct x as [[]|[]| |[] m e], y as [[]|[]| |[] m' e']; try done; cbn;
    (destruct (Z.compare_spec e e'); [|done..]);
    rewrite ?(Pos.compare_cont_spec m m'); destruct (Pos.compare_spec m m'); try done; by subst.
Qed.

Lemma feq_flt x y z : feq x y = true -> flt y z = true -> fle x z = true.
Proof.
  unfold feq, flt, fle, SFeqb, SFltb, SFleb. intros E L.
  destruct (SFcompare (num x) (num y)) as [[]|] eqn:C; try done. rewrite (SFcompare_eq_l _ _ _ C).
  by destruct (SFcompare (num y) (num z)) as [[]|].
Qed.

Lemma feq_trans x y z : feq x y = true -> feq y z = true -> feq x z = true.
Proof.
  unfold feq, SFeqb. intros E L.
  destruct (SFcompare (num x) (num y)) as [[]|] eqn:C; try done. by rewrite (SFcompare_eq_l _ _ _ C).
Qed.

Lemma feq_fle x y : feq x y = true -> fle x y = true.
Proof. unfold feq, fle, SFeqb, SFleb. by destruct (SFcompare _ _) as [[]|]. Qed.

Lemma SFcompare_refl x : x <> S754_nan -> SFcompare x x = Some Eq.
Proof.
  destruct x as [[]|[]| |[] m e]; try done; cbn; by rewrite Z.compare_refl, ?Pos.compare_cont_refl.
Qed.
Lemma feq_refl x : IsNaN x = false -> feq x x = true.
Proof.
  unfold IsNaN, feq, SFeqb. intros N. rewrite SFcompare_refl; [done|]. by destruct (num x).
Qed.

Lemma SFcompare_swap x y :
  SFcompare y x = match SFcompare x y with Some o => Some (CompOpp o) | None => None end.
Proof.
  destruct x as [[]|[]| |[] m e], y as [[]|[]| |[] m' e']; try done; cbn; rewrite (Z.compare_antisym e e');
    destruct (Z.compare e e'); try done; cbn;
    change (Pos.compare_cont Eq m m') with (m ?= m')%positive; change (Pos.compare_cont Eq m' m) with (m' ?= m)%positive;
    rewrite (Pos.compare_antisym m m'); by destruct (m ?= m')%positive.
Qed.

Lemma not_flt_feq x y : IsNaN x = false -> IsNaN y = false -> flt x y = false -> flt y x = false -> feq y x = true.
Proof.
  unfold IsNaN, flt, feq, SFltb, SFeqb. intros Nx Ny. rewrite (SFcompare_swap (num x) (num y)).
  destruct (SFcompare (num x) (num y)) as [[]|] eqn:C; try done.
  by destruct (num x) as [| | |], (num y).
Qed.

Lemma SFcompare_trans x y z : SFcompare x y = Some Lt -> SFcompare y z = Some Lt -> SFcompare x z = Some Lt.
Proof.
  destruct x as [[]|[]| |[] m e], y as [[]|[]| |[] m' e'], z as [[]|[]| |[] m'' e'']; try done; cbn;
    destruct (Z.compare_spec e e'), (Z.compare_spec e' e''), (Z.compare_spec e e''); try done; try lia; subst;
    rewrite ?Pos.compare_cont_spec;
    destruct (Pos.compare_spec m m'), (Pos.compare_spec m' m''), (Pos.compare_spec m m''); try done; lia.
Qed.

Lemma fle_trans x y z : fle x y = true -> fle y z = true -> fle x z = true.
Proof.
  unfold fle, SFleb. intros E L.
  destruct (SFcompare (num x) (num y)) as [[]|] eqn:C; try done; [by rewrite (SFcompare_eq_l _ _ _ C)|].
  destruct (SFcompare (num y) (num z)) as [[]|] eqn:D; try done; [|by rewrite (SFcompare_trans _ _ _ C D)].
  rewrite (SFcompare_swap (num z)), (SFcompare_eq_l (num z) (num y)).
  - by rewrite (SFcompare_swap (num x)), C.
  - by rewrite SFcompare_swap, D.
Qed.

(** * The envelope *)

Definition no_NaN (bs : list bucket) : Prop := Forall (fun b => IsNaN (count b) = false) bs.

Definition max_count (mx : float64) (bs : list bucket) : float64 :=
  foldl (fun m b => if flt m (count b) then count b else m) mx bs.

Lemma ensure_loop_shape mx bs :
  map upperBound (ensure_loop mx bs) = map upperBound bs /\ last (ensure_loop mx bs) = last bs.
Proof.
  revert mx. induction bs as [|b bs IH]; intros mx; [done|]. cbn [ensure_loop].
  destruct bs as [|b' bs]; [done|].
  assert (K : forall m x, upperBound x = upperBound b ->
    map upperBound (x :: ensure_loop m (b' :: bs)) = map upperBound (b :: b' :: bs) /\
    last (x :: ensure_loop m (b' :: bs)) = last (b :: b' :: bs)).
  { intros m x E. destruct (IH m) as [E1 E2]. split; [rewrite !map_cons, E, E1; done|].
    rewrite (last_cons x), E2, (last_cons b).
    destruct (last (b' :: bs)) eqn:EL; [done|by apply last_None in EL]. }
  destruct (flt mx (count b)); [|destruct (flt (count b) mx)]; by apply K.
Qed.

(** Every element but the last becomes the largest count so far. *)
Lemma ensure_loop_max mx bs i b :
  no_NaN bs -> IsNaN mx = false -> (S i < length bs)%nat -> ensure_loop mx bs !! i = Some b ->
  feq (count b) (max_count mx (take (S i) bs)) = true.
Proof.
  revert mx i. induction bs as [|x bs IH]; intros mx i N M L E; [cbn in L; lia|].
  apply Forall_cons in N as [Nx N]. destruct bs as [|y bs]; [cbn in L; lia|].
  cbn [ensure_loop] in E. cbn [take]. unfold max_count. cbn [foldl]. fold (max_count mx).
  destruct (flt mx (count x)) eqn:L1; [|destruct (flt (count x) mx) eqn:L2]; destruct i as [|i]; cbn [lookup list_lookup] in E;
    try (injection E as <-; rewrite take_0; cbn); try (by apply feq_refl); try (by apply not_flt_feq).
  all: eapply (IH _ i N); [done|cbn in L |- *; lia|exact E].
Qed.

Lemma ensure_loop_mono mx bs i b b' p :
  no_NaN bs -> IsNaN mx = false -> feq p mx = true -> (S i < length bs)%nat ->
  ensure_loop mx bs !! i = Some b ->
  (i = 0%nat -> fle p (count b) = true) /\
  ((S (S i) < length bs)%nat -> ensure_loop mx bs !! S i = Some b' -> fle (count b) (count b') = true).
Proof.
  revert mx i p b b'. induction bs as [|x bs IH]; intros mx i p b b' N M P L E; [cbn in L; lia|].
  apply Forall_cons in N as [Nx N]. destruct bs as [|y bs]; [cbn in L; lia|].
  cbn [ensure_loop] in E |- *.
  assert (exists mx' x', (ensure_loop mx (x :: y :: bs) = mkBucket (upperBound x) x' :: ensure_loop mx' (y :: bs)) /\
     fle p x' = true /\ feq x' mx' = true /\ IsNaN mx' = false) as (mx' & x' & EQ & P1 & P2 & P3).
  { cbn [ensure_loop]. destruct x as [ub c]. cbn [upperBound count] in *.
    destruct (flt mx c) eqn:L1; [|destruct (flt c mx) eqn:L2].
    - exists c, c. split; [done|]. split; [by eapply feq_flt|]. split; [by apply feq_refl|done].
    - exists mx, mx. split; [done|]. split; [by apply feq_fle|]. split; [by apply feq_refl|done].
    - exists mx, c. split; [done|]. pose proof (not_flt_feq mx c M Nx L1 L2) as F. split; [|done].
      apply feq_fle. eapply feq_trans; [exact P|]. by apply not_flt_feq. }
  change (if flt mx (count x) then _ else _) with (ensure_loop mx (x :: y :: bs)) in E.
  change (if flt mx (count x) then _ else _) with (ensure_loop mx (x :: y :: bs)).
  rewrite EQ in E |- *. destruct i as [|i]; cbn [lookup list_lookup] in E |- *.
  - injection E as <-. cbn [count]. split; [done|]. intros L' E'.
    destruct (IH mx' 0%nat x' b' b' N P3 P2 ltac:(cbn in L' |- *; lia) E') as [G _]. by apply G.
  - split; [done|]. intros L' E'.
    destruct (IH mx' i x' b b' N P3 P2 ltac:(cbn in L |- *; lia) E) as [_ G]. apply G; [cbn in L' |- *; lia|done].
Qed.

Lemma ensureMonotonic_length bs : length (ensureMonotonic bs) = length bs.
Proof.
  destruct bs as [|b bs]; [done|]. unfold ensureMonotonic.
  by rewrite <- (length_map upperBound), (proj1 (ensure_loop_shape _ _)), length_map.
Qed.

Lemma ensureMonotonic_mono bs i b b' :
  no_NaN bs -> (S (S i) < length bs)%nat ->
  ensureMonotonic bs !! i = Some b -> ensureMonotonic bs !! S i = Some b' -> fle (count b) (count b') = true.
Proof.
  intros N L E E'. destruct bs as [|b0 bs]; [done|]. pose proof N as N'. apply Forall_cons in N' as [N0 _].
  by apply (ensure_loop_mono (count b0) (b0 :: bs) i b b' (count b0) N N0 (feq_refl _ N0) ltac:(lia) E).
Qed.

(** On counts that are numbers, [ensureMonotonic] keeps the bounds and
    makes every count but the last the largest count up to it, so that these
    do not decrease; the last bucket is left as it is, even when its count is
    smaller. *)
Theorem ensureMonotonic_envelope bs (N : no_NaN bs) :
  map upperBound (ensureMonotonic bs) = map upperBound bs /\ last (ensureMonotonic bs) = last bs /\
  (forall i b, (S i < length bs)%nat -> ensureMonotonic bs !! i = Some b ->
     feq (count b) (max_count (count (nth_bucket bs 0)) (take (S i) bs)) = true) /\
  (forall i b b', (S (S i) < length bs)%nat -> ensureMonotonic bs !! i = Some b -> ensureMonotonic bs !! S i = Some b' ->
     fle (count b) (count b') = true).
Proof.
  split; [|split; [|split]].
  - destruct bs; [done|]. apply ensure_loop_shape.
  - destruct bs; [done|]. apply ensure_loop_shape.
  - intros i b L E. destruct bs as [|b0 bs]; [done|]. pose proof N as N'. apply Forall_cons in N' as [N0 _].
    by eapply ensure_loop_max.
  - intros i b b' L E E'. by eapply ensureMonotonic_mono.
Qed.

(** A decrease in the last bucket stays. *)
Example ensureMonotonic_keeps_last_decrease :
  let bs := [mkBucket (of_Z 1) (of_Z 10); mkBucket (Inf false) (of_Z 5)] in
  ensureMonotonic bs = bs /\ fle (of_Z 10) (of_Z 5) = false.
Proof. split; reflexivity. Qed.

(** * The bucket of a quantile *)

Lemma insert_sorted_perm {A} (Less : A -> A -> bool) x l : insert_sorted Less x l ≡ₚ x :: l.
Proof.
  induction l as [|y l IH]; cbn; [done|]. destruct (Less x y); [done|]. rewrite IH. apply Permutation_swap.
Qed.

Lemma sort_Sort_perm {A} (Less : A -> A -> bool) l : sort_Sort Less l ≡ₚ l.
Proof.
  assert (G : forall acc, foldl (fun acc x => insert_sorted Less x acc) acc l ≡ₚ l ++ acc).
  { induction l as [|x l IH]; intros acc; cbn; [done|]. rewrite IH, insert_sorted_perm. by rewrite Permutation_middle. }
  unfold sort_Sort. by rewrite G, app_nil_r.
Qed.

Lemma lookup_nth_bucket bs i : (i < length bs)%nat -> bs !! i = Some (nth_bucket bs i).
Proof. intros L. unfold nth_bucket. rewrite nth_lookup. destruct (lookup_lt_is_Some_2 bs i L) as [b ->]. done. Qed.

Lemma ensureMonotonic_chain bs i j :
  no_NaN bs -> (i <= j)%nat -> (S j < length bs)%nat ->
  forall r, fle r (count (nth_bucket (ensureMonotonic bs) i)) = true -> fle r (count (nth_bucket (ensureMonotonic bs) j)) = true.
Proof.
  intros N LE L r H. induction LE as [|j LE IH]; [done|]. eapply fle_trans; [apply IH; lia|].
  apply (ensureMonotonic_mono bs j); [done|lia|..]; apply lookup_nth_bucket; rewrite ensureMonotonic_length; lia.
Qed.

(** For a quantile between 0 and 1 of at least two buckets, the highest
    of which is infinite, [bucketQuantile] takes the first bucket of the
    sorted envelope whose count reaches the rank: in the highest bucket the
    answer is the next lower bound, in a first bucket that ends at or below
    zero that bound, and otherwise the interpolation in the bucket. *)
Theorem bucketQuantile_bucket q buckets
    (Q0 : flt q (of_Z 0) = false) (Q1 : flt (of_Z 1) q = false) (L : (2 <= length buckets)%nat) (N : no_NaN buckets)
    (HI : feq (upperBound (nth_bucket (sort_Sort buckets_Less buckets) (length buckets - 1))) (Inf false) = true) :
  let n := length buckets in
  let bs := ensureMonotonic (sort_Sort buckets_Less buckets) in
  let rank := fmul q (count (nth_bucket bs (n - 1))) in
  exists b, (b <= n - 1)%nat /\
    (forall i, (i < b)%nat -> fle rank (count (nth_bucket bs i)) = false) /\
    ((b < n - 1)%nat -> fle rank (count (nth_bucket bs b)) = true) /\
    bucketQuantile q buckets =
      if (b =? n - 1)%nat then upperBound (nth_bucket bs (n - 2))
      else if (b =? 0)%nat && fle (upperBound (nth_bucket bs 0)) (of_Z 0) then upperBound (nth_bucket bs 0)
      else interpolate bs b rank.
Proof.
  cbv zeta. pose proof (Permutation_length (sort_Sort_perm buckets_Less buckets)) as LS.
  assert (NS : no_NaN (sort_Sort buckets_Less buckets)) by (unfold no_NaN; by rewrite sort_Sort_perm).
  set (f := fun i => fle (fmul q (count (nth_bucket (ensureMonotonic (sort_Sort buckets_Less buckets)) (length buckets - 1))))
                       (count (nth_bucket (ensureMonotonic (sort_Sort buckets_Less buckets)) i))).
  destruct (Search_first (length buckets - 1) f) as (S1 & S2 & S3).
  { intros a b AB B. apply ensureMonotonic_chain; [done..|lia]. }
  exists (Search (length buckets - 1) f). split; [done|]. split; [done|]. split; [done|].
  unfold bucketQuantile. rewrite Q0, Q1. destruct (Nat.ltb_spec (length buckets) 2); [lia|].
  cbv zeta. rewrite LS, HI. done.
Qed.

(** * Samples *)

(** A quantile that is not a number panics on any samples: it passes both
    range checks, and no index comes from it (on the usual platforms
    converting a NaN gives the least [int]). *)
Theorem quantile_NaN_panics int_overflow values (NE : values <> [])
    (O : forall f, IsNaN f = true -> int_overflow f < 0) :
  quantile int_overflow NaN values = None.
Proof.
  assert (H : forall x vs, index vs (to_int int_overflow (Max (of_Z 0) (Floor (fmul NaN x)))) = None).
  { intros x vs. change (Max (of_Z 0) (Floor (fmul NaN x))) with NaN. unfold index, to_int. change (floor NaN) with (@None Z).
    cbn match. by rewrite (proj2 (Z.ltb_lt _ 0)) by (by apply O). }
  unfold quantile. destruct values as [|v vs]; [done|]. cbn [length Nat.eqb].
  change (flt NaN (of_Z 0)) with false. change (flt (of_Z 1) NaN) with false. cbv iota zeta. by rewrite H.
Qed.

(** * Instances *)

Definition sample_buckets : list bucket :=
  [mkBucket (Inf false) (of_Z 4); mkBucket (of_Z 1) (of_Z 2); mkBucket (of_Z 4) (of_Z 3); mkBucket (of_Z 2) (of_Z 1)].

Lemma ensureMonotonic_envelope_witness :
  no_NaN sample_buckets /\ map upperBound (ensureMonotonic sample_buckets) = map upperBound sample_buckets.
Proof.
  assert (N : no_NaN sample_buckets) by (by repeat constructor).
  split; [exact N|]. exact (proj1 (ensureMonotonic_envelope sample_buckets N)).
Defined.

Lemma bucketQuantile_bucket_witness :
  exists b, (b <= 3)%nat /\ bucketQuantile (of_decimal false 5 (-1)) sample_buckets = of_Z 1 /\
    forall i, (i < b)%nat -> fle (of_Z 2) (count (nth_bucket (ensureMonotonic (sort_Sort buckets_Less sample_buckets)) i)) = false.
Proof.
  destruct (bucketQuantile_bucket (of_decimal false 5 (-1)) sample_buckets eq_refl eq_refl ltac:(cbn; lia)
              ltac:(by repeat constructor) eq_refl) as (b & B & S & _).
  exists b. split; [exact B|]. split; [vm_compute; reflexivity|]. exact S.
Defined.

Lemma quantile_NaN_panics_witness :
  quantile (fun _ => min_int64) NaN [of_Z 1; of_Z 2] = None.
Proof.
  apply (quantile_NaN_panics (fun _ => min_int64) [of_Z 1; of_Z 2]); [discriminate|].
  intros f _. unfold min_int64. lia.
Defined.
