(* ===== verification/Value.v ===== *)
(** promql/value.go: the values a query evaluates to, their printing and the
    accessors of a result. *)

From S2P Require Import Prelude GoString GoFmt Float Labels LabelsFacts Lexer Ast Quantile.
From Stdlib Require Import Sorting.Sorted.

Record Point := mkPoint { p_T : Z; p_V : float64 }.

(** [Sample]; the embedded [Point] is flattened. *)
Record Sample := mkPSample { Metric : Labels; s_T : Z; s_V : float64 }.

(** [Series] *)
Record Series := mkSeries { s_Metric : Labels; Points : list Point }.

#[export] Instance Point_eq_dec : EqDecision Point.
Proof. solve_decision. Defined.
#[export] Instance Sample_eq_dec : EqDecision Sample.
Proof. solve_decision. Defined.
#[export] Instance Series_eq_dec : EqDecision Series.
Proof. solve_decision. Defined.

Notation Vector := (list Sample) (only parsing).
Notation Matrix := (list Series) (only parsing).

(** [promql.Value]; [Value] alone is the field of a label. *)
Inductive promql_Value :=
| VScalar (T : Z) (V : float64)
| VString (T : Z) (V : string)
| VVector (v : Vector)
| VMatrix (m : Matrix).

#[export] Instance Value_eq_dec : EqDecision promql_Value.
Proof. solve_decision. Defined.

Definition Value_Type (v : promql_Value) : ValueType :=
  match v with
  | VScalar _ _ => ValueTypeScalar
  | VString _ _ => ValueTypeString
  | VVector _ => ValueTypeVector
  | VMatrix _ => ValueTypeMatrix
  end.

(** * Printing *)

Section print.
Context `{UnicodeTables}.

Definition Point_String (p : Point) : string := FormatFloat_f (p_V p) +:+ " @[" +:+ Itoa (p_T p) +:+ "]".

Definition newline : string := String (ascii_of_N 10) "".

Definition Series_String (s : Series) : string :=
  Labels_String (s_Metric s) +:+ " =>" +:+ newline +:+ str_join newline (map Point_String (Points s)).

Definition Sample_String (s : Sample) : string :=
  Labels_String (Metric s) +:+ " => " +:+ Point_String (mkPoint (s_T s) (s_V s)).

Definition Vector_String (v : Vector) : string := str_join newline (map Sample_String v).
Definition Matrix_String (m : Matrix) : string := str_join newline (map Series_String m).

Definition Value_String (v : promql_Value) : string :=
  match v with
  | VScalar T V => "scalar: " +:+ FormatFloat_f V +:+ " @[" +:+ Itoa T +:+ "]"
  | VString _ V => V
  | VVector v => Vector_String v
  | VMatrix m => Matrix_String m
  end.
End print.

(** * The order of a matrix: [Len], [Less] and [Swap] for [sort.Sort] *)

Definition Matrix_Less (a b : Series) : bool := Compare (s_Metric a) (s_Metric b) <? 0.
Definition sort_matrix (m : Matrix) : Matrix := sort_Sort Matrix_Less m.

(** Sorting with a [less] that decides an order up to equal elements. *)
Lemma insert_sorted_sorted {A} (less : A -> A -> bool) (R : A -> A -> Prop) x l :
  (forall a b c, R a b -> R b c -> R a c) -> (forall a b, less a b = true -> R a b) ->
  (forall a b, less a b = false -> R b a) ->
  StronglySorted R l -> StronglySorted R (insert_sorted less x l).
Proof.
  intros T LT LF. induction l as [|y l IH]; cbn; intros S; [by repeat constructor|].
  apply StronglySorted_inv in S as [S F]. destruct (less x y) eqn:E.
  - constructor; [by constructor|]. constructor; [by apply LT|].
    eapply Forall_impl; [exact F|]. cbn. intros z Z. eapply T; [by apply LT|exact Z].
  - constructor; [by apply IH|]. apply LF in E. clear IH S. induction l as [|z l IH]; cbn; [by repeat constructor|].
    apply Forall_cons in F as [F1 F]. case_match; [|constructor; auto].
    constructor; [done|]. by constructor.
Qed.

Lemma sort_Sort_sorted {A} (less : A -> A -> bool) (R : A -> A -> Prop) l :
  (forall a b c, R a b -> R b c -> R a c) -> (forall a b, less a b = true -> R a b) ->
  (forall a b, less a b = false -> R b a) -> StronglySorted R (sort_Sort less l).
Proof.
  intros T LT LF. unfold sort_Sort.
  assert (G : forall acc, StronglySorted R acc -> StronglySorted R (foldl (fun acc x => insert_sorted less x acc) acc l)).
  { induction l as [|x l IH]; intros acc S; cbn; [done|]. apply IH. by apply insert_sorted_sorted. }
  apply G. constructor.
Qed.

(** * Results (value.go, [Result]) *)

Record Result := mkResult { r_Err : option string; r_Value : option promql_Value }.

Definition Result_Vector (r : Result) : result string Vector :=
  match r_Err r, r_Value r with
  | Some e, _ => Err e
  | None, Some (VVector v) => Ok v
  | None, _ => Err "query result is not a Vector"
  end.

Definition Result_Matrix (r : Result) : result string Matrix :=
  match r_Err r, r_Value r with
  | Some e, _ => Err e
  | None, Some (VMatrix m) => Ok m
  | None, _ => Err "query result is not a range Vector"
  end.

Definition Result_Scalar (r : Result) : result string (Z * float64) :=
  match r_Err r, r_Value r with
  | Some e, _ => Err e
  | None, Some (VScalar T V) => Ok (T, V)
  | None, _ => Err "query result is not a Scalar"
  end.

Definition Result_String `{UnicodeTables} (r : Result) : string :=
  match r_Err r, r_Value r with
  | Some e, _ => e
  | None, None => ""
  | None, Some v => Value_String v
  end.
