(* ===== verification/Printer.v ===== *)
(** promql/printer.go: the textual form of statements and expressions, and
    the tree dump. *)

From S2P Require Import Prelude GoString GoFmt Float Duration Lexer Labels Ast.

(** [sort.Strings] *)
Fixpoint insert_string (s : string) (l : list string) : list string :=
  match l with
  | [] => [s]
  | x :: l' => if String.leb s x then s :: l else x :: insert_string s l'
  end.
Definition sort_strings (l : list string) : list string := foldr insert_string [] l.

(** The "(a, b)" after a grouping keyword. *)
Definition paren_list (l : list string) : string := "(" +:+ str_join ", " l +:+ ")".

Section printer.
Context `{RE : Regexp} `{UT : UnicodeTables}.

Definition offset_String (d : Duration) : string :=
  if d =? 0 then "" else " offset " +:+ Duration_String d.

(** A name matcher that [VectorSelector.String] leaves out. *)
Definition is_name_matcher (m : Matcher) : bool :=
  (m_Name m =? MetricName)%string && bool_decide (m_Type m = MatchEqual).

(** [VectorSelector.String].  The code's [make] panics on a selector without
    matchers, which the parser never builds ([good_selector] in ParserFacts). *)
Definition VectorSelector_String (name : string) (off : Duration) (ms : list Matcher) : string :=
  match map Matcher_String (List.filter (fun m => negb (is_name_matcher m)) ms) with
  | [] => name +:+ offset_String off
  | labelStrings => name +:+ "{" +:+ str_join "," (sort_strings labelStrings) +:+ "}" +:+ offset_String off
  end.

Definition MatrixSelector_String (name : string) (range off : Duration) (ms : list Matcher) : string :=
  VectorSelector_String name 0 ms +:+ "[" +:+ Duration_String range +:+ "]" +:+ offset_String off.

(** The matching clause of [BinaryExpr.String]. *)
Definition matching_String (vm : option VectorMatching) : string :=
  match vm with
  | None => ""
  | Some vm =>
    if (0 <? length (MatchingLabels vm))%nat || On vm then
      (if On vm then " on" else " ignoring") +:+ paren_list (MatchingLabels vm) +:+
      match Card vm with
      | CardManyToOne => " group_left" +:+ paren_list (Include vm)
      | CardOneToMany => " group_right" +:+ paren_list (Include vm)
      | _ => ""
      end
    else ""
  end.

(** The head of [AggregateExpr.String], up to the opening parenthesis. *)
Definition aggr_head (op : ItemType) (g : list string) (without : bool) : string :=
  ItemType_String op +:+
  (if without then " without" +:+ paren_list g +:+ " "
   else if (0 <? length g)%nat then " by" +:+ paren_list g +:+ " " else "") +:+ "(".

(** [Expr.String]; [fmt] prints a nil [Param] as shown. *)
Fixpoint Expr_String (e : Expr) : string :=
  match e with
  | AggregateExpr op e p g w =>
    aggr_head op g w +:+
    (if isAggregatorWithParam op
     then match p with Some p => Expr_String p | None => "%!s(<nil>)" end +:+ ", " else "") +:+
    Expr_String e +:+ ")"
  | BinaryExpr op l r vm b =>
    Expr_String l +:+ " " +:+ ItemType_String op +:+ (if b then " bool" else "") +:+
    matching_String vm +:+ " " +:+ Expr_String r
  | Call f args => f_Name f +:+ "(" +:+ str_join ", " (map Expr_String args) +:+ ")"
  | MatrixSelector n r o ms => MatrixSelector_String n r o ms
  | NumberLiteral v => Sprint_float v
  | ParenExpr e => "(" +:+ Expr_String e +:+ ")"
  | StringLiteral v => Quote v
  | UnaryExpr op e => ItemType_String op +:+ Expr_String e
  | VectorSelector n o ms => VectorSelector_String n o ms
  end.

(** [Expressions.String] *)
Definition Expressions_String (es : list Expr) : string := str_join ", " (map Expr_String es).

Definition nl : string := str_of_bytes [10].
Definition tab : string := str_of_bytes [9].

(** [Statement.String] *)
Definition Statement_String (s : Statement) : string :=
  match s with
  | AlertStmt name e dur lset annot =>
    "ALERT " +:+ name +:+ nl +:+ tab +:+ "IF " +:+ Expr_String e +:+
    (if 0 <? dur then nl +:+ tab +:+ "FOR " +:+ Duration_String dur else "") +:+
    (if (0 <? length lset)%nat then nl +:+ tab +:+ "LABELS " +:+ Labels_String lset else "") +:+
    (if (0 <? length annot)%nat then nl +:+ tab +:+ "ANNOTATIONS " +:+ Labels_String annot else "")
  | EvalStmt e _ _ _ => "EVAL " +:+ Expr_String e
  | RecordStmt name e lset => name +:+ Labels_String lset +:+ " = " +:+ Expr_String e
  end.

(** [Statements.String] *)
Definition Statements_String (ss : list Statement) : string := str_join (nl +:+ nl) (map Statement_String ss).

(** * [Tree] *)

Definition level_step : string := " " +:+ EncodeRune 0xB7 +:+ " " +:+ EncodeRune 0xB7 +:+ " " +:+ EncodeRune 0xB7.

Definition tree_line (level typs text : string) : string :=
  level +:+ " |---- " +:+ typs +:+ " :: " +:+ text +:+ nl.

(** What follows the package name in [%T]. *)
Definition short_type (e : Expr) : string := str_drop (String.length "*promql.") (type_name e).

Fixpoint tree (e : Expr) (level : string) : string :=
  tree_line level (short_type e) (Expr_String e) +:+
  let level := level +:+ level_step in
  match e with
  | AggregateExpr _ e _ _ _ => tree e level
  | BinaryExpr _ l r _ _ => tree l level +:+ tree r level
  | Call _ args =>
    tree_line level "Expressions" (Expressions_String args) +:+
    str_join "" (map (fun e => tree e (level +:+ level_step)) args)
  | ParenExpr e => tree e level
  | UnaryExpr _ e => tree e level
  | MatrixSelector _ _ _ _ | NumberLiteral _ | StringLiteral _ | VectorSelector _ _ _ => ""
  end.

Definition tree_stmt (s : Statement) (level : string) : string :=
  tree_line level
    (match s with AlertStmt _ _ _ _ _ => "AlertStmt" | EvalStmt _ _ _ _ => "EvalStmt"
     | RecordStmt _ _ _ => "RecordStmt" end) (Statement_String s) +:+
  tree (stmt_expr s) (level +:+ level_step).

Definition Tree (n : Node) : string :=
  match n with
  | NStatements ss =>
    tree_line "" "Statements" (Itoa (Z.of_nat (length ss))) +:+
    str_join "" (map (fun s => tree_stmt s level_step) ss)
  | NStatement s => tree_stmt s ""
  | NExpressions es =>
    tree_line "" "Expressions" (Expressions_String es) +:+
    str_join "" (map (fun e => tree e level_step) es)
  | NExpr e => tree e ""
  end.

End printer.
