(* ===== verification/Parser.v ===== *)
(** promql/parse.go: the recursive-descent parser and the type checker.

    Parsing functions run in a monad over the parser's state.  A panic of the
    code is an error value that stops the computation: [ParseErr] for the
    errors the parser raises itself, [ErrUnexpected] for what [recover] makes
    of a runtime error.  [OutOfFuel] cuts a recursion of the model short; the
    entry points never return it (theorems in ParserFacts). *)

From S2P Require Import Prelude GoString GoFmt Float StrUtil Duration Lexer Labels Ast.

(** * The parser's state and its panics *)

Inductive perr :=
| ParseErr (Line Pos : Z) (Err : string)
| ErrUnexpected
| OutOfFuel.

#[export] Instance perr_eq_dec : EqDecision perr.
Proof. solve_decision. Defined.

(** [ParseErr.Error] *)
Definition ParseErr_Error (e : perr) : string :=
  match e with
  | ParseErr line pos err =>
    if line =? 0 then "parse error at char " +:+ Itoa pos +:+ ": " +:+ err
    else "parse error at line " +:+ Itoa line +:+ ", char " +:+ Itoa pos +:+ ": " +:+ err
  | _ => "unexpected error"
  end.

Record parser := mkParser { p_lex : lexHandle; token : list item; peekCount : nat }.

Definition zero_item : item := Item itemError 0 "".

Definition newParser (input : string) (items : list item) : parser :=
  mkParser (LexHandle input items 0) [zero_item; zero_item; zero_item] 0.

Definition PM (A : Type) : Type := parser -> result perr (A * parser).

#[export] Instance PM_ret : MRet PM := fun A a p => Ok (a, p).
#[export] Instance PM_bind : MBind PM := fun A B f m p =>
  match m p with Ok (a, p') => f a p' | Err e => Err e end.

(** [unicode.IsSpace] *)
Definition unicode_IsSpace (r : Z) : bool :=
  ((9 <=? r) && (r <=? 13)) || (r =? 32) || (r =? 0x85) || (r =? 0xA0) || (r =? 0x1680) ||
  ((0x2000 <=? r) && (r <=? 0x200A)) || (r =? 0x2028) || (r =? 0x2029) || (r =? 0x202F) ||
  (r =? 0x205F) || (r =? 0x3000).

(** The bytes of [s] that white space occupies at its start, and those up to
    the end of its last rune that is not white space. *)
Fixpoint leading_space (fuel : nat) (s : string) : nat :=
  match fuel, s with
  | S f, String _ _ => let (r, w) := DecodeRuneInString s in
                       if unicode_IsSpace r then w + leading_space f (str_drop w s) else 0%nat
  | _, _ => 0%nat
  end.
Fixpoint trimmed_length (fuel : nat) (s : string) (at_ last : nat) : nat :=
  match fuel, s with
  | S f, String _ _ => let (r, w) := DecodeRuneInString s in
                       trimmed_length f (str_drop w s) (at_ + w) (if unicode_IsSpace r then last else at_ + w)
  | _, _ => last
  end.

(** [strings.TrimSpace] *)
Definition TrimSpace (s : string) : string :=
  let n := String.length s in
  str_slice (leading_space n s) (trimmed_length n s 0 0) s.

(** [p.error]: the position is that of the last item received. *)
Definition error {A} (msg : string) : PM A := fun p =>
  let line := if (count_byte (TrimSpace (lh_input (p_lex p))) 10 =? 0)%nat then 0 else lineNumber (p_lex p) in
  Err (ParseErr line (linePosition (p_lex p)) msg).

(** [p.errorf] is [p.error] of the formatted message. *)
Notation errorf := error.

(** A runtime panic, as [recover] reports it. *)
Definition runtime_panic {A} : PM A := fun _ => Err ErrUnexpected.
Definition out_of_fuel {A} : PM A := fun _ => Err OutOfFuel.

(** [nextItem], skipping comments. *)
Fixpoint nextItem_skip (fuel : nat) (h : lexHandle) : item * lexHandle :=
  let (t, h) := nextItem h in
  match fuel with
  | O => (t, h)
  | S f => if decide (typ t = itemComment) then nextItem_skip f h else (t, h)
  end.

Definition receive (p : parser) : item * parser :=
  let (t, h) := nextItem_skip (length (lh_items (p_lex p))) (p_lex p) in
  (t, mkParser h (<[O := t]> (token p)) (peekCount p)).

(** [p.next] *)
Definition next : PM item := fun p =>
  let p := match peekCount p with
           | S n => mkParser (p_lex p) (token p) n
           | O => snd (receive p)
           end in
  match token p !! peekCount p with
  | None => runtime_panic p
  | Some t => if decide (typ t = itemError) then errorf (val t) p else Ok (t, p)
  end.

(** [p.peek] *)
Definition peek : PM item := fun p =>
  match peekCount p with
  | S n => match token p !! n with None => runtime_panic p | Some t => Ok (t, p) end
  | O => let (t, p) := receive p in Ok (t, mkParser (p_lex p) (token p) 1)
  end.

(** [p.backup] *)
Definition backup : PM unit := fun p => Ok (tt, mkParser (p_lex p) (token p) (S (peekCount p))).

Definition peek_typ : PM ItemType := t ← peek; mret (typ t).

(** [p.lex.input[p.lex.lastPos:]] *)
Definition remaining : PM string := fun p =>
  Ok (str_drop (lastPos (p_lex p)) (lh_input (p_lex p)), p).

Section parser.
Context `{RE : Regexp} `{UT : UnicodeTables}.

Definition expect (exp : ItemType) (context : string) : PM item :=
  token ← next;
  if decide (typ token = exp) then mret token
  else errorf ("unexpected " +:+ item_desc token +:+ " in " +:+ context +:+ ", expected " +:+ ItemType_desc exp).

Definition expectOneOf (exp1 exp2 : ItemType) (context : string) : PM item :=
  token ← next;
  if decide (typ token = exp1 \/ typ token = exp2) then mret token
  else errorf ("unexpected " +:+ item_desc token +:+ " in " +:+ context +:+ ", expected " +:+
               ItemType_desc exp1 +:+ " or " +:+ ItemType_desc exp2).

Definition unquoteString (s : string) : PM string :=
  match Unquote s with
  | Ok u => mret u
  | Err _ => errorf ("error unquoting string " +:+ Quote s +:+ ": invalid syntax")
  end.

(** [p.number] *)
Definition number (v : string) : PM float64 :=
  match ParseInt0 v with
  | Ok n => mret (of_Z n)
  | Err _ => match ParseFloat v with
             | Ok f => mret f
             | Err e => errorf ("error parsing number: " +:+ num_error_msg "ParseFloat" v e)
             end
  end.

(** [parseDuration] *)
Definition parseDuration (ds : string) : result string Duration :=
  match ParseDuration ds with
  | Err e => Err e
  | Ok d => if d =? 0 then Err "duration must be greater than 0" else Ok d
  end.

Definition duration_token (ctx : string) : PM Duration :=
  tok ← expect itemDuration ctx;
  match parseDuration (val tok) with Ok d => mret d | Err e => error e end.

(** * Labels and matchers *)

(** The loop of [p.labels]. *)
Fixpoint labels_loop (fuel : nat) (acc : list string) : PM (list string) :=
  match fuel with
  | O => out_of_fuel
  | S f =>
    id ← next;
    if isLabel (val id) then
      let acc := acc ++ [val id] in
      t ← peek_typ;
      if decide (t = itemComma) then (_ ← next; labels_loop f acc) else mret acc
    else errorf ("unexpected " +:+ item_desc id +:+ " in grouping opts, expected label")
  end.

Definition labels (fuel : nat) : PM (list string) :=
  _ ← expect itemLeftParen "grouping opts";
  t ← peek_typ;
  ls ← (if decide (t = itemRightParen) then mret [] else labels_loop fuel []);
  _ ← expect itemRightParen "grouping opts";
  mret ls.

(** The [switch] that maps the item to a match type. *)
Definition match_type (op : ItemType) : option MatchType :=
  match op with
  | itemEQL => Some MatchEqual | itemNEQ => Some MatchNotEqual
  | itemEQLRegex => Some MatchRegexp | itemNEQRegex => Some MatchNotRegexp
  | _ => None
  end.

(** [%q] of a slice of items. *)
Definition fmt_q_items (ts : list ItemType) : string :=
  "[" +:+ str_join " " (map (fun t => Quote (ItemType_String t)) ts) +:+ "]".

(** One matcher of [p.labelMatchers]. *)
Definition label_matcher (operators : list ItemType) : PM Matcher :=
  label ← expect itemIdentifier "label matching";
  opt ← next;
  let op := typ opt in
  if negb (isOperator op) then errorf ("expected label matching operator but got " +:+ ItemType_String op)
  else if negb (bool_decide (op ∈ operators)) then
    errorf ("operator must be one of " +:+ fmt_q_items operators +:+ ", is " +:+ Quote (ItemType_String op))
  else
    vt ← expect itemString "label matching";
    v ← unquoteString (val vt);
    match match_type op with
    | None => errorf ("item " +:+ Quote (ItemType_String op) +:+ " is not a metric match type")
    | Some mt =>
      match NewMatcher mt (val label) v with
      | Err e => error e
      | Ok m => mret m
      end
    end.

Fixpoint labelMatchers_loop (fuel : nat) (operators : list ItemType) (acc : list Matcher) : PM (list Matcher) :=
  match fuel with
  | O => out_of_fuel
  | S f =>
    m ← label_matcher operators;
    let acc := acc ++ [m] in
    t ← peek;
    if decide (typ t = itemIdentifier) then
      errorf ("missing comma before next identifier " +:+ Quote (val t))
    else if decide (typ t = itemComma) then
      _ ← next;
      t' ← peek_typ;
      if decide (t' = itemRightBrace) then mret acc
      else labelMatchers_loop f operators acc
    else mret acc
  end.

Definition labelMatchers (fuel : nat) (operators : list ItemType) : PM (list Matcher) :=
  _ ← expect itemLeftBrace "label matching";
  t ← peek_typ;
  if decide (t = itemRightBrace) then _ ← next; mret []
  else
    ms ← labelMatchers_loop fuel operators [];
    _ ← expect itemRightBrace "label matching";
    mret ms.

Definition labelSet (fuel : nat) : PM Labels :=
  ms ← labelMatchers fuel [itemEQL];
  mret (New (map (fun m => mkLabel (m_Name m) (m_Value m)) ms)).

(** [p.metric] *)
Definition metric (fuel : nat) : PM Labels :=
  t ← peek_typ;
  nt ← (if decide (t = itemIdentifier \/ t = itemMetricIdentifier)
        then tok ← next; t' ← peek_typ; mret (val tok, t')
        else mret ("", t));
  let '(name, t) := nt in
  if bool_decide (t <> itemLeftBrace) && (name =? "")%string then
    errorf "missing metric name or metric selector"
  else
    m ← (if decide (t = itemLeftBrace) then labelSet fuel else mret []);
    mret (if negb (name =? "")%string then sort_labels (m ++ [mkLabel MetricName name]) else m).

(** The first matcher on the metric name. *)
Fixpoint find_name (ms : list Matcher) : option Matcher :=
  match ms with
  | [] => None
  | m :: ms' => if (m_Name m =? MetricName)%string then Some m else find_name ms'
  end.

(** The loop that looks for a matcher that rejects the empty string; [None]
    is the nil dereference of [Matches]. *)
Fixpoint not_empty (ms : list Matcher) : option bool :=
  match ms with
  | [] => Some false
  | m :: ms' => match Matches m "" with
                | None => None
                | Some false => Some true
                | Some true => not_empty ms'
                end
  end.

(** The checks of [p.VectorSelector] on the matchers it has gathered. *)
Definition check_matchers (name : string) (matchers : list Matcher) : PM Expr :=
  if (length matchers =? 0)%nat then errorf "vector selector must contain label matchers or metric name"
  else match not_empty matchers with
       | None => runtime_panic
       | Some false => errorf "vector selector must contain at least one non-empty matcher"
       | Some true => mret (VectorSelector name 0 matchers)
       end.

Definition vectorSelector (fuel : nat) (name : string) : PM Expr :=
  t ← peek_typ;
  matchers ← (if decide (t = itemLeftBrace)
              then labelMatchers fuel [itemEQL; itemNEQ; itemEQLRegex; itemNEQRegex]
              else mret []);
  if negb (name =? "")%string then
    match find_name matchers with
    | Some m => errorf ("metric name must not be set twice: " +:+ Quote name +:+ " or " +:+ Quote (m_Value m))
    | None =>
      match NewMatcher MatchEqual MetricName name with
      | Err _ => runtime_panic
      | Ok m => check_matchers name (matchers ++ [m])
      end
    end
  else check_matchers name matchers.

(** * Expressions *)

(** [p.rangeSelector]; the caller has checked that [e] is a vector selector. *)
Definition rangeSelector (name : string) (ms : list Matcher) : PM Expr :=
  _ ← next;
  d ← duration_token "range selector";
  _ ← expect itemRightBracket "range selector";
  mret (MatrixSelector name d 0 ms).

Definition offset : PM Duration := _ ← next; duration_token "offset".

(** The part of [p.unaryExpr] after a primary expression. *)
Definition postfix (e : Expr) : PM Expr :=
  t ← peek_typ;
  e ← (if decide (t = itemLeftBracket) then
         match e with
         | VectorSelector name _ ms => rangeSelector name ms
         | _ => errorf ("range specification must be preceded by a metric selector, but follows a " +:+
                        type_name e +:+ " instead")
         end
       else mret e);
  t ← peek_typ;
  if decide (t = itemOffset) then
    d ← offset;
    match e with
    | VectorSelector name _ ms => mret (VectorSelector name d ms)
    | MatrixSelector name r _ ms => mret (MatrixSelector name r d ms)
    | _ => errorf ("offset modifier must be preceded by an instant or range selector, but follows a " +:+
                   type_name e +:+ " instead")
    end
  else mret e.

(** [p.balance]: hangs a new operation into the tree built so far. *)
Definition bool_modifier_msg : string := "comparisons between scalars must use BOOL modifier".

Definition is_scalar (e : Expr) : bool := bool_decide (Type_ e = ValueTypeScalar).

Fixpoint balance (lhs : Expr) (op : ItemType) (rhs : Expr) (vm : VectorMatching) (returnBool : bool) : PM Expr :=
  let node :=
    if isComparisonOperator op && negb returnBool && is_scalar rhs && is_scalar lhs
    then errorf bool_modifier_msg
    else mret (BinaryExpr op lhs rhs (Some vm) returnBool) in
  match lhs with
  | BinaryExpr lop l r lvm lb =>
    let precd := precedence lop - precedence op in
    if (precd <? 0) || ((precd =? 0) && isRightAssociative op) then
      balanced ← balance r op rhs vm returnBool;
      if isComparisonOperator lop && negb lb && is_scalar balanced && is_scalar l
      then errorf bool_modifier_msg
      else mret (BinaryExpr lop l balanced lvm lb)
    else node
  | _ => node
  end.

(** The first label of the ON clause that the GROUP clause repeats. *)
Fixpoint repeated_label (ms incl : list string) : option string :=
  match ms with
  | [] => None
  | ln :: ms' => if existsb (fun ln2 => (ln =? ln2)%string) incl then Some ln else repeated_label ms' incl
  end.

(** The optional operator modifiers: bool, on/ignoring, group_left/group_right. *)
Definition bool_modifier (op : ItemType) : PM bool :=
  t ← peek_typ;
  if decide (t = itemBool) then
    if negb (isComparisonOperator op) then errorf "bool modifier can only be used on comparison operators"
    else _ ← next; mret true
  else mret false.

Definition grouping_modifier (fuel : nat) (vm : VectorMatching) : PM VectorMatching :=
  t ← peek_typ;
  if decide (t = itemGroupLeft \/ t = itemGroupRight) then
    _ ← next;
    let card := if decide (t = itemGroupLeft) then CardManyToOne else CardOneToMany in
    t' ← peek_typ;
    incl ← (if decide (t' = itemLeftParen) then labels fuel else mret (Include vm));
    mret (mkVectorMatching card (MatchingLabels vm) (On vm) incl)
  else mret vm.

Definition matching_modifier (fuel : nat) (op : ItemType) : PM VectorMatching :=
  let card := if isSetOperator op then CardManyToMany else CardOneToOne in
  t ← peek_typ;
  vm ← (if decide (t = itemOn \/ t = itemIgnoring) then
          _ ← next;
          ls ← labels fuel;
          grouping_modifier fuel (mkVectorMatching card ls (bool_decide (t = itemOn)) [])
        else mret (mkVectorMatching card [] false []));
  match (if On vm then repeated_label (MatchingLabels vm) (Include vm) else None) with
  | Some ln => errorf ("label " +:+ Quote ln +:+ " must not occur in ON and GROUP clause at once")
  | None => mret vm
  end.

(** The grouping clause of an aggregation: labels and whether it is WITHOUT. *)
Definition grouping_clause (fuel : nat) : PM (option (list string * bool)) :=
  t ← peek_typ;
  if decide (t = itemBy \/ t = itemWithout) then
    _ ← next;
    g ← labels fuel;
    mret (Some (g, bool_decide (t = itemWithout)))
  else mret None.

Fixpoint expr (fuel : nat) : PM Expr :=
  match fuel with
  | O => out_of_fuel
  | S f => e ← unaryExpr f; expr_loop f e
  end
with expr_loop (fuel : nat) (e : Expr) : PM Expr :=
  match fuel with
  | O => out_of_fuel
  | S f =>
    op ← peek_typ;
    if negb (isOperator op) then mret e
    else
      _ ← next;
      returnBool ← bool_modifier op;
      vm ← matching_modifier f op;
      rhs ← unaryExpr f;
      e ← balance e op rhs vm returnBool;
      expr_loop f e
  end
with unaryExpr (fuel : nat) : PM Expr :=
  match fuel with
  | O => out_of_fuel
  | S f =>
    t ← peek_typ;
    if decide (t = itemADD \/ t = itemSUB) then
      _ ← next;
      e ← unaryExpr f;
      match e with
      | NumberLiteral v =>
        mret (NumberLiteral (if decide (t = itemSUB) then fmul v (of_Z (-1)) else v))
      | _ => mret (UnaryExpr t e)
      end
    else if decide (t = itemLeftParen) then
      _ ← next;
      e ← expr f;
      _ ← expect itemRightParen "paren expression";
      mret (ParenExpr e)
    else
      e ← primaryExpr f;
      postfix e
  end
with primaryExpr (fuel : nat) : PM Expr :=
  match fuel with
  | O => out_of_fuel
  | S f =>
    t ← next;
    match typ t with
    | itemNumber => v ← number (val t); mret (NumberLiteral v)
    | itemString => s ← unquoteString (val t); mret (StringLiteral s)
    | itemLeftBrace => _ ← backup; vectorSelector f ""
    | itemIdentifier =>
      n ← peek_typ;
      if decide (n = itemLeftParen) then call f (val t) else vectorSelector f (val t)
    | itemMetricIdentifier => vectorSelector f (val t)
    | ty => if isAggregator ty then _ ← backup; aggrExpr f
            else errorf "no valid expression found"
    end
  end
with aggrExpr (fuel : nat) : PM Expr :=
  match fuel with
  | O => out_of_fuel
  | S f =>
    agop ← next;
    if negb (isAggregator (typ agop)) then
      errorf ("expected aggregation operator but got " +:+ item_String agop)
    else
      before ← grouping_clause f;
      _ ← expect itemLeftParen "aggregation";
      param ← (if isAggregatorWithParam (typ agop)
               then e ← expr f; _ ← expect itemComma "aggregation"; mret (Some e)
               else mret None);
      e ← expr f;
      _ ← expect itemRightParen "aggregation";
      g ← match before with Some _ => mret before | None => grouping_clause f end;
      match g with
      | Some (grouping, without) => mret (AggregateExpr (typ agop) e param grouping without)
      | None => mret (AggregateExpr (typ agop) e param [] false)
      end
  end
with call (fuel : nat) (name : string) : PM Expr :=
  match fuel with
  | O => out_of_fuel
  | S f =>
    match getFunction name with
    | None => errorf ("unknown function with name " +:+ Quote name)
    | Some fn =>
      _ ← expect itemLeftParen "function call";
      t ← peek_typ;
      if decide (t = itemRightParen) then _ ← next; mret (Call fn [])
      else args ← call_args f [];
           _ ← expect itemRightParen "function call";
           mret (Call fn args)
    end
  end
with call_args (fuel : nat) (acc : list Expr) : PM (list Expr) :=
  match fuel with
  | O => out_of_fuel
  | S f =>
    e ← expr f;
    let acc := acc ++ [e] in
    t ← peek_typ;
    if decide (t = itemComma) then _ ← next; call_args f acc else mret acc
  end.

(** * Statements *)

Definition alertStmt (fuel : nat) : PM Statement :=
  _ ← expect itemAlert "alert statement";
  name ← expect itemIdentifier "alert statement";
  _ ← expect itemIf "alert statement";
  e ← expr fuel;
  t ← peek_typ;
  dur ← (if decide (t = itemFor) then _ ← next; duration_token "alert statement" else mret 0);
  t ← peek_typ;
  lset ← (if decide (t = itemLabels) then _ ← expect itemLabels "alert statement"; labelSet fuel else mret []);
  t ← peek_typ;
  annotations ← (if decide (t = itemAnnotations)
                 then _ ← expect itemAnnotations "alert statement"; labelSet fuel else mret []);
  mret (AlertStmt (val name) e dur lset annotations).

Definition recordStmt (fuel : nat) : PM Statement :=
  name ← expectOneOf itemIdentifier itemMetricIdentifier "record statement";
  t ← peek_typ;
  lset ← (if decide (t = itemLeftBrace) then labelSet fuel else mret []);
  _ ← expect itemAssign "record statement";
  e ← expr fuel;
  mret (RecordStmt (val name) e lset).

Definition stmt (fuel : nat) : PM Statement :=
  t ← peek_typ;
  match t with
  | itemAlert => alertStmt fuel
  | itemIdentifier | itemMetricIdentifier => recordStmt fuel
  | _ => errorf "no valid statement detected"
  end.

Definition remaining_error {A} : PM A :=
  r ← remaining; errorf ("could not parse remaining input " +:+ fmt_q_prec 15 r +:+ "...").

(** The loop of [parseStmts]. *)
Fixpoint parseStmts_loop (fuel : nat) (acc : list Statement) : PM (list Statement) :=
  match fuel with
  | O => out_of_fuel
  | S f =>
    t ← peek_typ;
    if decide (t = itemEOF) then mret acc
    else if decide (t = itemComment) then parseStmts_loop f acc
    else s ← stmt f; parseStmts_loop f (acc ++ [s])
  end.

(** The loop of [parseExpr]. *)
Fixpoint parseExpr_loop (fuel : nat) (e : option Expr) : PM (option Expr) :=
  match fuel with
  | O => out_of_fuel
  | S f =>
    t ← peek_typ;
    if decide (t = itemEOF) then mret e
    else if decide (t = itemComment) then parseExpr_loop f e
    else match e with
         | Some _ => remaining_error
         | None => e ← expr f; parseExpr_loop f (Some e)
         end
  end.

Definition parseExpr (fuel : nat) : PM Expr :=
  e ← parseExpr_loop fuel None;
  match e with Some e => mret e | None => errorf "no expression found in input" end.

(** * Series descriptions *)

Record sequenceValue := mkSequenceValue { value : float64; omitted : bool }.

(** The repetition count after an [x]. *)
Definition times_token : PM Z :=
  tok ← expect itemNumber "series values";
  match ParseUint10 (val tok) with
  | Ok n => mret n
  | Err e => errorf ("invalid repetition in series values: " +:+ num_error_msg "ParseUint" (val tok) e)
  end.

(** [n] values starting after [k], [offset] apart. *)
Fixpoint expand (n : nat) (k offset : float64) : list sequenceValue :=
  match n with
  | O => []
  | S n' => let k := fadd k offset in mkSequenceValue k false :: expand n' k offset
  end.

(** An optional sign: the factor it stands for. *)
Definition sign_token : PM float64 :=
  t ← peek_typ;
  if decide (t = itemSUB \/ t = itemADD) then
    s ← next; mret (of_Z (if decide (typ s = itemSUB) then -1 else 1))
  else mret (of_Z 1).

Definition series_value : PM float64 :=
  sign ← sign_token;
  t ← peek;
  if decide (typ t = itemNumber) then
    tok ← expect itemNumber "series values"; k ← number (val tok); mret (fmul sign k)
  else if decide (typ t = itemIdentifier /\ val t = "stale"%string) then _ ← next; mret StaleNaN
  else errorf ("expected number or 'stale' in series values but got " +:+ ItemType_desc (typ t) +:+
               " (value: " +:+ item_String t +:+ ")").

Definition series_expansion (k : float64) : PM (list sequenceValue) :=
  s ← next;
  let sign := of_Z (if decide (typ s = itemSUB) then -1 else 1) in
  tok ← expect itemNumber "series values";
  o ← number (val tok);
  _ ← expect itemTimes "series values";
  times ← times_token;
  mret (expand (Z.to_nat times) k (fmul sign o)).

Fixpoint series_loop (fuel : nat) (vals : list sequenceValue) : PM (list sequenceValue) :=
  match fuel with
  | O => out_of_fuel
  | S f =>
    t ← peek_typ;
    if decide (t = itemEOF) then mret vals
    else if decide (t = itemBlank) then
      _ ← next;
      t ← peek_typ;
      times ← (if decide (t = itemTimes) then _ ← next; times_token else mret 1);
      series_loop f (vals ++ repeat (mkSequenceValue (of_Z 0) true) (Z.to_nat times))
    else
      k ← series_value;
      let vals := vals ++ [mkSequenceValue k false] in
      t ← peek;
      if decide (typ t = itemNumber \/ typ t = itemBlank \/ (typ t = itemIdentifier /\ val t = "stale"%string))
      then series_loop f vals
      else if decide (typ t = itemEOF) then mret vals
      else if decide (typ t <> itemADD /\ typ t <> itemSUB) then
        errorf ("expected next value or relative expansion in series values but got " +:+ item_desc t +:+
                " (value: " +:+ item_String t +:+ ")")
      else more ← series_expansion k; series_loop f (vals ++ more)
  end.

Definition parseSeriesDesc_body (fuel : nat) : PM (Labels * list sequenceValue) :=
  m ← metric fuel; vals ← series_loop fuel []; mret (m, vals).

(** * Type checking *)

Definition expect_type (t want : ValueType) (context : string) : PM unit :=
  if decide (t = want) then mret tt
  else errorf ("expected type " +:+ documentedType want +:+ " in " +:+ context +:+ ", got " +:+ documentedType t).

Definition is_operand (t : ValueType) : bool :=
  bool_decide (t = ValueTypeScalar) || bool_decide (t = ValueTypeVector).

(** The checks on a binary expression once its operands are checked; the
    result is the matching the node keeps. *)
Definition check_binary (op : ItemType) (lt rt : ValueType) (vm : option VectorMatching)
  : PM (option VectorMatching) :=
  if negb (isOperator op) then
    errorf ("binary expression does not support operator " +:+ Quote (ItemType_String op))
  else if negb (is_operand lt) || negb (is_operand rt) then
    errorf "binary expression must contain only scalar and instant vector types"
  else
    vm ← (match vm with
          | Some m =>
            if bool_decide (lt <> ValueTypeVector) || bool_decide (rt <> ValueTypeVector) then
              if (0 <? length (MatchingLabels m))%nat
              then errorf "vector matching only allowed between instant vectors"
              else mret None
            else if isSetOperator op then
              match Card m with
              | CardManyToMany => mret vm
              | CardOneToMany | CardManyToOne =>
                errorf ("no grouping allowed for " +:+ Quote (ItemType_String op) +:+ " operation")
              | CardOneToOne => errorf "set operations must always be many-to-many"
              end
            else mret vm
          | None => if isSetOperator op then runtime_panic else mret None
          end);
    if (bool_decide (lt = ValueTypeScalar) || bool_decide (rt = ValueTypeScalar)) && isSetOperator op then
      errorf ("set operator " +:+ Quote (ItemType_String op) +:+ " not allowed in binary scalar expression")
    else mret vm.

(** The number of arguments of a call. *)
Definition check_nargs (fn : Function) (n : Z) : PM unit :=
  let nargs := Z.of_nat (length (ArgTypes fn)) in
  if Variadic fn =? 0 then
    if negb (nargs =? n) then
      errorf ("expected " +:+ Itoa nargs +:+ " argument(s) in call to " +:+ Quote (f_Name fn) +:+ ", got " +:+ Itoa n)
    else mret tt
  else
    let na := nargs - 1 in
    if n <? na then
      errorf ("expected at least " +:+ Itoa na +:+ " argument(s) in call to " +:+ Quote (f_Name fn) +:+ ", got " +:+ Itoa n)
    else if (0 <? Variadic fn) && (na + Variadic fn <? n) then
      errorf ("expected at most " +:+ Itoa (na + Variadic fn) +:+ " argument(s) in call to " +:+ Quote (f_Name fn)
              +:+ ", got " +:+ Itoa n)
    else mret tt.

(** The type the [i]th argument must have; past the end, that of the last. *)
Definition arg_type (fn : Function) (i : nat) : option ValueType :=
  ArgTypes fn !! (if (length (ArgTypes fn) <=? i)%nat then length (ArgTypes fn) - 1 else i)%nat.

(** The loop over the arguments of a call, from the [i]th on. *)
Definition check_args (check : Expr -> PM (ValueType * Expr)) (fn : Function) :=
  fix loop (args : list Expr) (i : nat) : PM (list Expr) :=
    match args with
    | [] => mret []
    | arg :: args' =>
      match arg_type fn i with
      | None => runtime_panic
      | Some want =>
        ta ← check arg;
        let '(t, arg) := ta in
        _ ← expect_type t want ("call to function " +:+ Quote (f_Name fn));
        args' ← loop args' (S i);
        mret (arg :: args')
      end
    end.

(** [p.checkType] of an expression: its type, and the tree with the vector
    matching of scalar operations removed (the code clears the field). *)
Fixpoint checkType (e : Expr) : PM (ValueType * Expr) :=
  let typ := Type_ e in
  match e with
  | AggregateExpr op x param g w =>
    if negb (isAggregator op) then
      errorf ("aggregation operator expected in aggregation expression but got " +:+ Quote (ItemType_String op))
    else
      tx ← checkType x;
      let '(t, x) := tx in
      _ ← expect_type t ValueTypeVector "aggregation expression";
      param ← (if isAggregatorWithParam op then
                 match param with
                 | None => errorf "unknown node type: <nil>"
                 | Some y =>
                   ty ← checkType y;
                   let '(t, y) := ty in
                   _ ← expect_type t (if decide (op = itemCountValues) then ValueTypeString else ValueTypeScalar)
                         "aggregation parameter";
                   mret (Some y)
                 end
               else mret param);
      mret (typ, AggregateExpr op x param g w)
  | BinaryExpr op l r vm b =>
    tl ← checkType l;
    let '(lt, l) := tl in
    tr ← checkType r;
    let '(rt, r) := tr in
    vm ← check_binary op lt rt vm;
    mret (typ, BinaryExpr op l r vm b)
  | Call fn args =>
    _ ← check_nargs fn (Z.of_nat (length args));
    args ← check_args checkType fn args O;
    mret (typ, Call fn args)
  | ParenExpr x =>
    tx ← checkType x;
    mret (typ, ParenExpr (snd tx))
  | UnaryExpr op x =>
    if negb (bool_decide (op = itemADD) || bool_decide (op = itemSUB)) then
      errorf "only + and - operators allowed for unary expressions"
    else
      tx ← checkType x;
      let '(t, x) := tx in
      if is_operand t then mret (typ, UnaryExpr op x)
      else errorf ("unary expression only allowed on expressions of type scalar or instant vector, got " +:+
                   Quote (documentedType t))
  | NumberLiteral _ | MatrixSelector _ _ _ _ | StringLiteral _ | VectorSelector _ _ _ => mret (typ, e)
  end.

Definition checkType_stmt (s : Statement) : PM Statement :=
  match s with
  | AlertStmt name e dur lset annot =>
    te ← checkType e;
    let '(t, e) := te in
    _ ← expect_type t ValueTypeVector "alert statement";
    mret (AlertStmt name e dur lset annot)
  | EvalStmt e s1 s2 i =>
    te ← checkType e;
    let '(t, e) := te in
    if decide (t = ValueTypeNone) then
      errorf ("evaluation statement must have a valid expression type but got " +:+ documentedType t)
    else mret (EvalStmt e s1 s2 i)
  | RecordStmt name e lset =>
    te ← checkType e;
    let '(t, e) := te in
    if is_operand t then mret (RecordStmt name e lset)
    else errorf ("record statement must have a valid expression of type instant vector or scalar but got " +:+
                 documentedType t)
  end.

Fixpoint checkType_stmts (ss : list Statement) : PM (list Statement) :=
  match ss with
  | [] => mret []
  | s :: ss' => s ← checkType_stmt s; ss' ← checkType_stmts ss'; mret (s :: ss')
  end.

(** * Entry points *)

(** Enough for any token sequence (theorem [parse_total]). *)
Definition parse_fuel (items : list item) : nat := 8 * length items + 16.

(** Runs a parsing function on an input. *)
Definition run_parser {A} (series : bool) (m : nat -> PM A) (s : string) : result perr A :=
  match lex s series with
  | None => Err OutOfFuel
  | Some items => match m (parse_fuel items) (newParser s items) with
                  | Ok (a, _) => Ok a
                  | Err e => Err e
                  end
  end.

Definition ParseExpr : string -> result perr Expr :=
  run_parser false (fun fuel => e ← parseExpr fuel; te ← checkType e; mret (snd te)).

Definition ParseStmts : string -> result perr (list Statement) :=
  run_parser false (fun fuel => ss ← parseStmts_loop fuel []; checkType_stmts ss).

Definition ParseMetric : string -> result perr Labels :=
  run_parser false (fun fuel =>
    m ← metric fuel;
    t ← peek_typ;
    if decide (t = itemEOF) then mret m else remaining_error).

Definition ParseMetricSelector : string -> result perr (list Matcher) :=
  run_parser false (fun fuel =>
    t ← peek_typ;
    name ← (if decide (t = itemMetricIdentifier \/ t = itemIdentifier)
            then tok ← next; mret (val tok) else mret "");
    e ← vectorSelector fuel name;
    t ← peek_typ;
    if decide (t = itemEOF) then
      match e with VectorSelector _ _ ms => mret ms | _ => runtime_panic end
    else remaining_error).

(** [parseSeriesDesc].  The code sets [seriesDesc] after the lexer's goroutine
    has started; the model is the intended order. *)
Definition parseSeriesDesc : string -> result perr (Labels * list sequenceValue) :=
  run_parser true parseSeriesDesc_body.
End parser.

(** * Examples *)

Section examples.
#[local] Instance no_regexp : Regexp := {|
  regexp := string; regexp_Compile s := Ok s; MatchString r s := (r =? "^(?:" +:+ s +:+ ")$")%string |}.
#[local] Instance ascii_only : UnicodeTables := {| is_print_high _ := true |}.

Definition num_expr (n : Z) : Expr := NumberLiteral (of_Z n).
Definition plain : VectorMatching := mkVectorMatching CardOneToOne [] false [].

Example parse_precedence :
  ParseExpr "1 + 2 * 3 ^ -2 ^ 2 - 4" =
  Ok (BinaryExpr itemSUB
       (BinaryExpr itemADD (num_expr 1)
         (BinaryExpr itemMUL (num_expr 2)
           (BinaryExpr itemPOW (num_expr 3) (BinaryExpr itemPOW (num_expr (-2)) (num_expr 2) None false) None false)
           None false) None false)
       (num_expr 4) None false).
Proof. vm_compute. reflexivity. Qed.

Example parse_error_position :
  ParseExpr "foo{a=1}" =
  Err (ParseErr 0 7 "unexpected character inside braces: '1'").
Proof. vm_compute. reflexivity. Qed.

Example parse_type_error :
  match ParseExpr "sum(1)" with Err e => ParseErr_Error e | Ok _ => "" end =
  "parse error at char 7: expected type instant vector in aggregation expression, got scalar".
Proof. vm_compute. reflexivity. Qed.

Example parse_series :
  (fun r => (fst r, length (snd r))) <$> parseSeriesDesc "m{a='b'} 1+2x3 _x2 stale" =
  Ok ([mkLabel MetricName "m"; mkLabel "a" "b"], 7%nat).
Proof. vm_compute. reflexivity. Qed.
End examples.
