(* ===== verification/ParserFacts.v ===== *)
(** The parser consumes tokens: it terminates within its fuel, raises only
    its own errors, and builds trees that respect precedence. *)

From S2P Require Import Prelude GoString GoFmt Float StrUtil Duration Lexer LexerFacts Labels Ast Parser.

(** * A weakest-precondition calculus *)

(** [m] run from [p] either ends with a [ParseErr] or returns a value and a
    state that satisfy [Q]: it neither panics nor runs out of fuel. *)
Definition wp {A} (m : PM A) (p : parser) (Q : A -> parser -> Prop) : Prop :=
  match m p with
  | Ok (a, p') => Q a p'
  | Err (ParseErr _ _ _) => True
  | Err _ => False
  end.

Lemma wp_bind {A B} (m : PM A) (f : A -> PM B) p Q :
  wp m p (fun a p' => wp (f a) p' Q) -> wp (m ≫= f) p Q.
Proof. unfold wp, mbind, PM_bind. by destruct (m p) as [[a p']|[]]. Qed.

Lemma wp_ret {A} (a : A) p Q : Q a p -> wp (mret a) p Q.
Proof. done. Qed.

Lemma wp_error {A} msg p (Q : A -> parser -> Prop) : wp (error msg) p Q.
Proof. done. Qed.

Lemma wp_mono {A} (m : PM A) p (Q R : A -> parser -> Prop) :
  wp m p Q -> (forall a p', Q a p' -> R a p') -> wp m p R.
Proof. unfold wp. destruct (m p) as [[a p']|[]]; auto. Qed.

(** * The tokens left to consume *)

(** A pending error token does not count: consuming it fails. *)
Definition pending (p : parser) : nat :=
  match peekCount p, token p with
  | S _, t :: _ => if decide (typ t = itemError) then 0%nat else 1%nat
  | _, _ => 0%nat
  end.
Definition rem (p : parser) : nat := (length (lh_items (p_lex p)) + pending p)%nat.

(** One token of lookahead at most, and comments never reach the buffer. *)
Definition wf_parser (p : parser) : Prop :=
  length (token p) = 3%nat /\ Forall (fun t => typ t <> itemComment) (token p) /\ (peekCount p <= 1)%nat.

(** The state after a call that consumed at least [n] tokens. *)
Definition consumed (n : nat) (p p' : parser) : Prop :=
  wf_parser p' /\ (rem p' + n <= rem p)%nat.

Lemma consumed_trans n m p p' p'' :
  consumed n p p' -> consumed m p' p'' -> consumed (n + m) p p''.
Proof. unfold consumed. intros [? ?] [? ?]. split; [done|lia]. Qed.

Lemma nextItem_skip_items fuel h :
  let '(t, h') := nextItem_skip fuel h in
  (length (lh_items h') + (if decide (typ t = itemError) then 0 else 1) <= length (lh_items h))%nat.
Proof.
  revert h. induction fuel as [|f IH]; intros h; cbn [nextItem_skip]; unfold nextItem;
    destruct (lh_items h) as [|i its] eqn:E; cbn [lh_items length].
  - case_match; [cbn; lia|done].
  - case_match; cbn [lh_items]; lia.
  - destruct (decide _); [done|]. case_match; [cbn; lia|done].
  - destruct (decide (typ i = itemComment)).
    + specialize (IH (LexHandle (lh_input h) its (pos i))).
      destruct (nextItem_skip f _) as [t h']. cbn in IH. lia.
    + cbn [lh_items]. case_match; lia.
Qed.

Lemma nextItem_skip_comment fuel h :
  (length (lh_items h) <= fuel)%nat -> typ (fst (nextItem_skip fuel h)) <> itemComment.
Proof.
  revert h. induction fuel as [|f IH]; intros h L; cbn [nextItem_skip]; unfold nextItem.
  - destruct (lh_items h); [done|]. cbn in L. lia.
  - destruct (lh_items h) as [|i its] eqn:E; [done|].
    destruct (decide (typ i = itemComment)) as [|N]; [|exact N].
    apply IH. cbn in L |- *. lia.
Qed.

Lemma receive_spec p t p' :
  wf_parser p -> receive p = (t, p') ->
  (length (token p') = 3%nat /\ Forall (fun t => typ t <> itemComment) (token p')) /\
  peekCount p' = peekCount p /\ (exists ts, token p' = t :: ts) /\
  (length (lh_items (p_lex p')) + (if decide (typ t = itemError) then 0 else 1)
     <= length (lh_items (p_lex p)))%nat.
Proof.
  intros (W & WC & _). unfold receive.
  pose proof (nextItem_skip_items (length (lh_items (p_lex p))) (p_lex p)) as L.
  pose proof (nextItem_skip_comment (length (lh_items (p_lex p))) (p_lex p) ltac:(lia)) as NC.
  destruct (nextItem_skip _ _) as [t' h']. intros [= <- <-]. cbn.
  destruct (token p) as [|t0 ts]; [done|]. cbn. apply Forall_cons in WC as [_ WC].
  split; [split; [done|by constructor]|]. split; [done|]. split; [by exists ts|done].
Qed.

(** After [next]: the token is still in the buffer, for [backup]. *)
Definition taken (t : item) (p : parser) : Prop :=
  peekCount p = O /\ (exists ts, token p = t :: ts) /\ typ t <> itemError.

Lemma wp_next p Q :
  wf_parser p ->
  (forall t p', consumed 1 p p' -> taken t p' -> Q t p') ->
  wp next p Q.
Proof.
  intros W HQ. unfold wp, next. pose proof W as (W1 & W3 & W2).
  destruct (peekCount p) as [|n] eqn:E.
  - destruct (receive p) as [t p'] eqn:R. destruct (receive_spec p t p' W R) as ([L LC] & P & [ts T] & I).
    cbn [snd]. rewrite P, E, T. cbn. case_decide; [done|].
    apply HQ; [|by split; [congruence|split; [by exists ts|done]]].
    split; [by split; [done|split; [done|lia]]|]. unfold rem, pending. rewrite P, E. lia.
  - assert (n = O) as -> by lia. cbn [peekCount token].
    destruct (token p) as [|t ts] eqn:T; [done|]. cbn.
    case_decide; [done|]. apply HQ.
    + split; [split; cbn; [done|split; [done|lia]]|]. unfold rem, pending. cbn. rewrite E, T.
      destruct (decide (typ t = itemError)); [done|]. lia.
    + split; [done|]. split; [by exists ts|done].
Qed.

Lemma wp_peek_token p Q :
  wf_parser p -> (forall t p', consumed 0 p p' -> typ t <> itemComment -> Q t p') -> wp peek p Q.
Proof.
  intros W HQ. unfold wp, peek. pose proof W as (W1 & W3 & W2).
  destruct (peekCount p) as [|n] eqn:E.
  - destruct (receive p) as [t p'] eqn:R. destruct (receive_spec p t p' W R) as ([L LC] & P & [ts T] & I).
    apply HQ; [|rewrite T in LC; by apply Forall_cons in LC as [? _]].
    split; [split; cbn; [done|split; [done|lia]]|]. unfold rem, pending. cbn. rewrite E, T. lia.
  - assert (n = O) as -> by lia. destruct (token p) as [|t ts] eqn:T; [done|]. cbn.
    apply HQ; [|by apply Forall_cons in W3 as [? _]].
    split; [|lia]. split; [by rewrite T|split; [by rewrite T|lia]].
Qed.

Lemma wp_peek p Q :
  wf_parser p -> (forall t p', consumed 0 p p' -> Q t p') -> wp peek p Q.
Proof. intros W HQ. apply wp_peek_token; auto. Qed.

Lemma wp_peek_typ_token p Q :
  wf_parser p -> (forall t p', consumed 0 p p' -> t <> itemComment -> Q t p') -> wp peek_typ p Q.
Proof. intros W HQ. apply wp_bind, wp_peek_token; [done|]. intros t p' C N. by apply wp_ret, HQ. Qed.

Lemma wp_peek_typ p Q :
  wf_parser p -> (forall t p', consumed 0 p p' -> Q t p') -> wp peek_typ p Q.
Proof. intros W HQ. apply wp_peek_typ_token; auto. Qed.

Lemma wp_backup t p Q :
  wf_parser p -> taken t p ->
  (forall p', wf_parser p' -> rem p' = S (rem p) -> Q tt p') -> wp backup p Q.
Proof.
  intros (W1 & W3 & W2) (P & [ts T] & N) HQ. unfold wp, backup. cbn.
  apply HQ; [split; cbn; [done|split; [done|lia]]|]. unfold rem, pending. cbn. rewrite P, T.
  destruct (decide (typ t = itemError)); [done|]. lia.
Qed.

(** [consumed] goals: the chain of states since the start. *)
Ltac consumed_tac :=
  repeat match goal with H : consumed _ _ _ |- _ => destruct H end;
  first [ assumption | lia | split; [assumption|lia] ].

Section facts.
Context `{RE : Regexp} `{UT : UnicodeTables}.

Lemma wp_expect t ctx p Q :
  wf_parser p -> (forall tok p', consumed 1 p p' -> Q tok p') -> wp (expect t ctx) p Q.
Proof.
  intros W HQ. apply wp_bind, wp_next; [done|]. intros tok p' C _.
  case_decide; [by apply wp_ret, HQ|done].
Qed.

Lemma wp_expectOneOf t t' ctx p Q :
  wf_parser p -> (forall tok p', consumed 1 p p' -> Q tok p') -> wp (expectOneOf t t' ctx) p Q.
Proof.
  intros W HQ. apply wp_bind, wp_next; [done|]. intros tok p' C _.
  case_decide; [by apply wp_ret, HQ|done].
Qed.

Lemma wp_unquoteString s p Q : (forall u, Q u p) -> wp (unquoteString s) p Q.
Proof. intros HQ. unfold unquoteString. destruct (Unquote s); [by apply wp_ret|done]. Qed.

Lemma wp_number s p Q : (forall u, Q u p) -> wp (number s) p Q.
Proof.
  intros HQ. unfold number. destruct (ParseInt0 s); [by apply wp_ret|].
  destruct (ParseFloat s); [by apply wp_ret|done].
Qed.

Lemma wp_duration_token ctx p Q :
  wf_parser p -> (forall d p', consumed 1 p p' -> Q d p') -> wp (duration_token ctx) p Q.
Proof.
  intros W HQ. apply wp_bind, wp_expect; [done|]. intros tok p' C.
  destruct (parseDuration (val tok)); [by apply wp_ret, HQ|done].
Qed.
End facts.

(** One step of a computation: the head of a bind, a token operation, a test.
    Each step leaves the [consumed] facts it learns in the context. *)
Ltac wp_step :=
  match goal with
  | |- wp (_ ≫= _) _ _ => apply wp_bind
  | |- wp (mret _) _ _ => apply wp_ret
  | |- wp (error _) _ _ => apply wp_error
  | |- wp next _ _ => apply wp_next; [consumed_tac|intros ? ? ? ?]
  | |- wp peek _ _ => apply wp_peek; [consumed_tac|intros ? ? ?]
  | |- wp peek_typ _ _ => apply wp_peek_typ; [consumed_tac|intros ? ? ?]
  | |- wp (expect _ _) _ _ => apply wp_expect; [consumed_tac|intros ? ? ?]
  | |- wp (expectOneOf _ _ _) _ _ => apply wp_expectOneOf; [consumed_tac|intros ? ? ?]
  | |- wp (unquoteString _) _ _ => apply wp_unquoteString; intros ?
  | |- wp (number _) _ _ => apply wp_number; intros ?
  | |- wp (duration_token _) _ _ => apply wp_duration_token; [consumed_tac|intros ? ? ?]
  | |- wp (if decide ?P then _ else _) _ _ => destruct (decide P)
  | |- wp (if ?b then _ else _) _ _ => destruct b eqn:?
  | |- wp (let '(_, _) := ?x in _) _ _ => destruct x
  end; cbv zeta beta.
Ltac wp_steps := repeat wp_step.

(** * What the parser builds *)

Section trees.
Context `{RE : Regexp}.

Definition built (m : Matcher) : Prop := exists t n v, NewMatcher t n v = Ok m.

(** A selector's matchers: built by [NewMatcher], and one of them rejects the
    empty string. *)
Definition good_selector (ms : list Matcher) : Prop := Forall built ms /\ not_empty ms = Some true.

Definition atom (e : Expr) : Prop := match e with BinaryExpr _ _ _ _ _ => False | _ => True end.

(** Does an operator [lop] (resp. [rop]) in the left (right) operand of [op]
    bind its operands before [op] does? *)
Definition binds_left (op lop : ItemType) : bool :=
  (precedence op <? precedence lop) || ((precedence op =? precedence lop) && negb (isRightAssociative op)).
Definition binds_right (op rop : ItemType) : bool :=
  (precedence op <? precedence rop) || ((precedence op =? precedence rop) && isRightAssociative op).

Definition left_ok (op : ItemType) (l : Expr) : Prop :=
  match l with BinaryExpr lop _ _ _ _ => binds_left op lop = true | _ => True end.
Definition right_ok (op : ItemType) (r : Expr) : Prop :=
  match r with BinaryExpr rop _ _ _ _ => binds_right op rop = true | _ => True end.

(** Only a set operation matches many to many. *)
Definition card_ok (op : ItemType) (m : VectorMatching) : Prop :=
  isSetOperator op = false -> Card m <> CardManyToMany.

(** The invariant of the trees the parser returns. *)
Fixpoint parsed (e : Expr) : Prop :=
  match e with
  | AggregateExpr op x param _ _ =>
    isAggregator op = true /\ parsed x /\
    match param with
    | Some y => isAggregatorWithParam op = true /\ parsed y
    | None => isAggregatorWithParam op = false
    end
  | BinaryExpr op l r vm _ =>
    isOperator op = true /\ (exists m, vm = Some m /\ card_ok op m) /\ left_ok op l /\ right_ok op r /\ parsed l /\ parsed r
  | Call fn args => In fn (map snd functions) /\ foldr (fun a P => parsed a /\ P) True args
  | MatrixSelector _ _ _ ms | VectorSelector _ _ ms => good_selector ms
  | UnaryExpr op x => (op = itemADD \/ op = itemSUB) /\ atom x /\ parsed x
  | ParenExpr x => parsed x
  | NumberLiteral _ | StringLiteral _ => True
  end.

Lemma parsed_args args : foldr (fun a P => parsed a /\ P) True args <-> Forall parsed args.
Proof.
  induction args as [|a args IH]; cbn; [by split|]. by rewrite IH, Forall_cons.
Qed.

Lemma built_matches m s : built m -> is_Some (Matches m s).
Proof.
  intros (t & n & v & E). unfold NewMatcher in E. unfold Matches.
  destruct t; try destruct (regexp_Compile _); try done; injection E as <-; cbn; by eexists.
Qed.

Lemma not_empty_built ms : Forall built ms -> is_Some (not_empty ms).
Proof.
  induction 1 as [|m ms B _ IH]; cbn; [eauto|].
  destruct (built_matches m "" B) as [[] ->]; eauto.
Qed.

(** * Balancing *)

Definition top_op (e : Expr) : option ItemType :=
  match e with BinaryExpr op _ _ _ _ => Some op | _ => None end.

Lemma binds_trans op lop rop : binds_right op lop = true -> binds_right lop rop = true -> binds_right op rop = true.
Proof.
  unfold binds_right. rewrite !orb_true_iff, !andb_true_iff, !Z.ltb_lt, !Z.eqb_eq.
  intros [H1|[H1 R1]] [H2|[H2 R2]]; [left; lia|left; lia|left; lia|]. right. split; [lia|done].
Qed.

(** The condition under which [balance] descends is [binds_right]. *)
Lemma descend_binds lop op :
  isOperator op = true -> isOperator lop = true ->
  (precedence lop - precedence op <? 0) || ((precedence lop - precedence op =? 0) && isRightAssociative op) =
  binds_right lop op.
Proof. destruct lop, op; vm_compute; congruence. Qed.

Lemma not_descend_binds lop op :
  isOperator op = true -> isOperator lop = true ->
  binds_right lop op = false -> binds_left op lop = true.
Proof. destruct lop, op; vm_compute; congruence. Qed.

(** Operators and operands of a tree, in order. *)
Definition operation : Type := ItemType * option VectorMatching * bool.
Fixpoint flat (e : Expr) : list (operation + Expr) :=
  match e with
  | BinaryExpr op l r vm b => flat l ++ inl (op, vm, b) :: flat r
  | _ => [inr e]
  end.

Definition balanced (lhs : Expr) (op : ItemType) (rhs : Expr) (vm : VectorMatching) (b : bool) (e : Expr) : Prop :=
  parsed e /\ flat e = flat lhs ++ [inl (op, Some vm, b); inr rhs] /\
  (top_op e = Some op \/ top_op e = top_op lhs).

Lemma balance_node lhs op rhs vm b :
  parsed lhs -> parsed rhs -> atom rhs -> isOperator op = true -> card_ok op vm -> left_ok op lhs ->
  balanced lhs op rhs vm b (BinaryExpr op lhs rhs (Some vm) b).
Proof.
  intros PL PR A O K L. split; [|split; [|by left]].
  - cbn. split; [done|]. split; [eauto|]. split; [done|]. split; [by destruct rhs|done].
  - cbn. by destruct rhs.
Qed.

Lemma wp_balance lhs op rhs vm b p :
  parsed lhs -> parsed rhs -> atom rhs -> isOperator op = true -> card_ok op vm ->
  wp (balance lhs op rhs vm b) p (fun e p' => p' = p /\ balanced lhs op rhs vm b e).
Proof.
  intros PL PR A O K. revert PL.
  induction lhs as [| lop l r lvm lb _ IHr | | | | | | |] using Expr_nested_ind; intros PL;
    try (cbn; destruct (_ && _); [done|]; split; [done|]; by apply balance_node).
  destruct PL as (LO & LV & LL & LR & PLl & PLr).
  cbn [balance]. rewrite descend_binds by done.
  destruct (binds_right lop op) eqn:D.
  - apply wp_bind. eapply wp_mono; [by apply IHr|]. cbn beta.
    intros e p' (Ep & PE & FE & TE). rewrite Ep.
    destruct (_ && _); [done|]. apply wp_ret. split; [done|]. split; [|split].
    + cbn. repeat (split; [done|]). split; [|done].
      destruct e; try done. cbn in TE. cbn. destruct TE as [[= ->]|TE]; [done|].
      destruct r; try done. by injection TE as ->.
    + cbn. rewrite FE, <- app_assoc. done.
    + by right.
  - destruct (_ && _); [done|]. apply wp_ret. split; [done|].
    apply balance_node; try done. cbn. by apply not_descend_binds.
Qed.
End trees.

(** * Every parsing function consumes, or fails *)

Section consume.
Context `{RE : Regexp} `{UT : UnicodeTables}.

Lemma wp_labels_loop f acc p Q :
  wf_parser p -> (rem p < f)%nat -> (forall ls p', consumed 1 p p' -> Q ls p') ->
  wp (labels_loop f acc) p Q.
Proof.
  revert acc p Q. induction f as [|f IH]; intros acc p Q W F HQ; [lia|]. cbn [labels_loop].
  wp_steps; try (apply HQ; consumed_tac).
  apply IH; [consumed_tac..|]. intros ls pz C. apply HQ. consumed_tac.
Qed.

Lemma wp_labels f p Q :
  wf_parser p -> (rem p < f)%nat -> (forall ls p', consumed 1 p p' -> Q ls p') ->
  wp (labels f) p Q.
Proof.
  intros W F HQ. unfold labels. wp_steps.
  - apply HQ. consumed_tac.
  - apply wp_labels_loop; [consumed_tac..|]. intros ls pz C. wp_steps. apply HQ. consumed_tac.
Qed.

Lemma wp_label_matcher ops p Q :
  wf_parser p -> (forall m p', consumed 1 p p' -> built m -> Q m p') -> wp (label_matcher ops) p Q.
Proof.
  intros W HQ. unfold label_matcher. wp_steps.
  destruct (match_type _) as [mt|]; [|wp_steps].
  destruct (NewMatcher _ _ _) as [m|] eqn:E; wp_steps.
  apply HQ; [consumed_tac|]. unfold built. eauto.
Qed.

Lemma wp_labelMatchers_loop f ops acc p Q :
  wf_parser p -> (rem p < f)%nat -> Forall built acc ->
  (forall ms p', consumed 1 p p' -> Forall built ms -> Q ms p') ->
  wp (labelMatchers_loop f ops acc) p Q.
Proof.
  revert acc p Q. induction f as [|f IH]; intros acc p Q W F A HQ; [lia|]. cbn [labelMatchers_loop].
  apply wp_bind, wp_label_matcher; [done|]. intros m p1 C1 B.
  assert (A' : Forall built (acc ++ [m])) by (apply Forall_app; auto).
  wp_steps; try (apply HQ; [consumed_tac|done]).
  apply IH; [consumed_tac..|done|]. intros ls pz C. apply HQ. consumed_tac.
Qed.

Lemma wp_labelMatchers f ops p Q :
  wf_parser p -> (rem p < f)%nat -> (forall ms p', consumed 1 p p' -> Forall built ms -> Q ms p') ->
  wp (labelMatchers f ops) p Q.
Proof.
  intros W F HQ. unfold labelMatchers. wp_steps.
  - apply HQ; [consumed_tac|constructor].
  - apply wp_labelMatchers_loop; [consumed_tac..|constructor|]. intros ms pz C B. wp_steps.
    apply HQ; [consumed_tac|done].
Qed.

Lemma wp_labelSet f p Q :
  wf_parser p -> (rem p < f)%nat -> (forall ls p', consumed 1 p p' -> Q ls p') ->
  wp (labelSet f) p Q.
Proof.
  intros W F HQ. unfold labelSet. apply wp_bind, wp_labelMatchers; [done..|].
  intros ms pz C B. by apply wp_ret, HQ.
Qed.

Lemma wp_metric f p Q :
  wf_parser p -> (rem p < f)%nat -> (forall ls p', consumed 0 p p' -> Q ls p') ->
  wp (metric f) p Q.
Proof.
  intros W F HQ. unfold metric. wp_steps; try (apply HQ; consumed_tac);
    apply wp_labelSet; try consumed_tac; intros ls pz C; apply wp_ret, HQ; consumed_tac.
Qed.

Lemma wp_check_matchers name ms p Q :
  Forall built ms -> (ms <> [] -> good_selector ms -> Q (VectorSelector name 0 ms) p) ->
  wp (check_matchers name ms) p Q.
Proof.
  intros B HQ. unfold check_matchers. wp_steps; bool_prop.
  destruct (not_empty_built ms B) as [[] E]; rewrite E; wp_steps.
  apply HQ; [by intros ->|by split].
Qed.

(** A selector without a name consumes its matchers. *)
Definition selector_post (name : string) (p : parser) (e : Expr) (p' : parser) : Prop :=
  consumed (if (name =? "")%string then 1 else 0) p p' /\ parsed e /\ atom e /\
  exists ms, e = VectorSelector name 0 ms /\ ms <> [].

Lemma wp_check_matchers_post name ms p p' n :
  Forall built ms -> consumed n p p' -> (name = "" -> ms = [] \/ (1 <= n)%nat) ->
  wp (check_matchers name ms) p' (selector_post name p).
Proof.
  intros B C N. apply wp_check_matchers; [done|]. intros NE G.
  split; [|split; [done|split; [done|by exists ms]]].
  destruct (String.eqb_spec name "") as [E|E]; [|consumed_tac].
  destruct (N E) as [|]; [done|]. consumed_tac.
Qed.

Lemma wp_vectorSelector f name p :
  wf_parser p -> (rem p < f)%nat -> wp (vectorSelector f name) p (selector_post name p).
Proof.
  intros W F. unfold vectorSelector. wp_step. wp_step. wp_step.
  assert (K : forall ms p' n, Forall built ms -> consumed n p p' -> (name = "" -> ms = [] \/ (1 <= n)%nat) ->
    wp (if negb (name =? "")%string then
          match find_name ms with
          | Some m => errorf ("metric name must not be set twice: " +:+ Quote name +:+ " or " +:+ Quote (m_Value m))
          | None => match NewMatcher MatchEqual MetricName name with
                    | Err _ => runtime_panic
                    | Ok m => check_matchers name (ms ++ [m])
                    end
          end
        else check_matchers name ms) p' (selector_post name p)).
  { intros ms pk n B C N. destruct (String.eqb_spec name "") as [E|E]; cbn [negb].
    - by apply (wp_check_matchers_post _ _ _ _ n).
    - destruct (find_name ms); [done|]. cbn [NewMatcher].
      apply (wp_check_matchers_post _ _ _ _ n); [|done|done].
      apply Forall_app. split; [done|]. constructor; [|constructor].
      by exists MatchEqual, MetricName, name. }
  wp_step.
  - apply wp_labelMatchers; [consumed_tac..|]. intros ms pz C B. apply (K _ _ 1%nat B); [consumed_tac|].
    right. lia.
  - apply wp_ret. apply (K _ _ 0%nat); [constructor|consumed_tac|auto].
Qed.
End consume.

(** * Expressions *)

Section expressions.
Context `{RE : Regexp} `{UT : UnicodeTables}.

Lemma wp_postfix e p :
  wf_parser p -> parsed e -> atom e ->
  wp (postfix e) p (fun e' p' => consumed 0 p p' /\ parsed e' /\ atom e').
Proof.
  intros W P A. unfold postfix. wp_steps.
  - destruct e; wp_steps. unfold rangeSelector, offset. wp_steps; (split; [consumed_tac|by split]).
  - unfold offset. destruct e; wp_steps; (split; [consumed_tac|by split]).
  - split; [consumed_tac|by split].
Qed.

Lemma wp_bool_modifier op p Q :
  wf_parser p -> (forall b p', consumed 0 p p' -> Q b p') -> wp (bool_modifier op) p Q.
Proof. intros W HQ. unfold bool_modifier. wp_steps; apply HQ; consumed_tac. Qed.

Lemma wp_grouping_modifier f vm p Q :
  wf_parser p -> (rem p < f)%nat ->
  (forall vm' p', consumed 0 p p' -> Card vm' = Card vm \/ Card vm' <> CardManyToMany -> Q vm' p') ->
  wp (grouping_modifier f vm) p Q.
Proof.
  intros W F HQ. unfold grouping_modifier. wp_steps; try (apply HQ; [consumed_tac|first [by left | by right; cbn; case_decide]]).
  all: apply wp_labels; [consumed_tac..|]; intros ls pz C; wp_steps; (apply HQ; [consumed_tac|by right; cbn; case_decide]).
Qed.

Lemma wp_matching_modifier f op p Q :
  wf_parser p -> (rem p < f)%nat -> (forall vm p', consumed 0 p p' -> card_ok op vm -> Q vm p') ->
  wp (matching_modifier f op) p Q.
Proof.
  intros W F HQ. unfold matching_modifier. wp_step. wp_step. wp_step. wp_step.
  - wp_step. wp_step. wp_step. apply wp_labels; [consumed_tac..|]. intros ls p2 C2.
    apply wp_grouping_modifier; [consumed_tac..|]. intros vm p3 C3 K.
    destruct (if On vm then _ else _); wp_steps. apply HQ; [consumed_tac|].
    intros S. cbn [Card] in K. rewrite S in K. destruct K as [-> |]; done.
  - wp_step. cbn [On]. wp_steps. apply HQ; [consumed_tac|]. intros S. cbn [Card]. by rewrite S.
Qed.

Lemma wp_grouping_clause f p Q :
  wf_parser p -> (rem p < f)%nat -> (forall b p', consumed 0 p p' -> Q b p') ->
  wp (grouping_clause f) p Q.
Proof.
  intros W F HQ. unfold grouping_clause. wp_steps; try (apply HQ; consumed_tac).
  apply wp_labels; [consumed_tac..|]. intros ls pz C. wp_steps. apply HQ. consumed_tac.
Qed.

(** What each function of the mutual recursion does with fuel [f]: the fuel
    it needs grows by four with every token left. *)
Record specs (f : nat) : Prop := {
  s_expr p : wf_parser p -> (4 * rem p + 4 <= f)%nat ->
    wp (expr f) p (fun e p' => consumed 1 p p' /\ parsed e);
  s_loop e p : parsed e -> wf_parser p -> (4 * rem p + 1 <= f)%nat ->
    wp (expr_loop f e) p (fun e p' => consumed 0 p p' /\ parsed e);
  s_unary p : wf_parser p -> (4 * rem p + 3 <= f)%nat ->
    wp (unaryExpr f) p (fun e p' => consumed 1 p p' /\ parsed e /\ atom e);
  s_primary p : wf_parser p -> (4 * rem p + 2 <= f)%nat ->
    wp (primaryExpr f) p (fun e p' => consumed 1 p p' /\ parsed e /\ atom e);
  s_aggr p : wf_parser p -> (4 * rem p + 1 <= f)%nat ->
    wp (aggrExpr f) p (fun e p' => consumed 1 p p' /\ parsed e /\ atom e);
  s_call name p : wf_parser p -> (4 * rem p + 2 <= f)%nat ->
    wp (call f name) p (fun e p' => consumed 1 p p' /\ parsed e /\ atom e);
  s_args acc p : Forall parsed acc -> wf_parser p -> (4 * rem p + 5 <= f)%nat ->
    wp (call_args f acc) p (fun es p' => consumed 1 p p' /\ Forall parsed es)
}.

(** Uses a spec for the head of a bind. *)
Ltac use S := eapply wp_mono; [apply S; first [done | consumed_tac]|cbn beta].

Lemma specs_expr f : specs f -> forall p, wf_parser p -> (4 * rem p + 4 <= S f)%nat ->
  wp (expr (S f)) p (fun e p' => consumed 1 p p' /\ parsed e).
Proof.
  intros S p W F. cbn [expr]. apply wp_bind. use (s_unary f S).
  intros e p1 (C1 & P & A). use (s_loop f S). intros e' p2 (C2 & P'). split; [consumed_tac|done].
Qed.

Lemma specs_loop f : specs f -> forall e p, parsed e -> wf_parser p -> (4 * rem p + 1 <= S f)%nat ->
  wp (expr_loop (S f) e) p (fun e p' => consumed 0 p p' /\ parsed e).
Proof.
  intros S e p P W F. cbn [expr_loop]. wp_step. wp_step. wp_step.
  - wp_step. split; [consumed_tac|done].
  - apply negb_false_iff in Heqb. wp_step. wp_step. wp_step. apply wp_bool_modifier; [consumed_tac|].
    intros b p2 C2. wp_step. apply wp_matching_modifier; [consumed_tac..|]. intros vm p3 C3 K3.
    wp_step. use (s_unary f S). intros rhs p4 (C4 & P4 & A4). wp_step.
    eapply wp_mono; [by apply wp_balance|]. cbn beta. intros e' p5 (E5 & P5 & _). rewrite E5.
    use (s_loop f S). intros e2 p6 (C6 & P6). split; [consumed_tac|done].
Qed.

Lemma specs_unary f : specs f -> forall p, wf_parser p -> (4 * rem p + 3 <= S f)%nat ->
  wp (unaryExpr (S f)) p (fun e p' => consumed 1 p p' /\ parsed e /\ atom e).
Proof.
  intros S p W F. cbn [unaryExpr]. wp_step. wp_step. wp_step; [|wp_step].
  - wp_step. wp_step. wp_step. use (s_unary f S). intros e p2 (C2 & P2 & A2).
    destruct e; wp_step; (split; [consumed_tac|split; [first [exact I | by split]|done]]).
  - wp_step. wp_step. wp_step. use (s_expr f S). intros e2 p2 (C2 & P2). wp_steps.
    split; [consumed_tac|by split].
  - wp_step. use (s_primary f S). intros e p2 (C2 & P2 & A2).
    eapply wp_mono; [apply wp_postfix; [consumed_tac|done..]|cbn beta].
    intros e' p3 (C3 & P3). split; [consumed_tac|done].
Qed.

Lemma getFunction_in name fn : getFunction name = Some fn -> In fn (map snd functions).
Proof.
  unfold getFunction. generalize functions. intros l. induction l as [|[n g] l IH]; cbn; [done|].
  destruct (n =? name)%string; [intros [= ->]; auto|auto].
Qed.

Lemma specs_call f : specs f -> forall name p, wf_parser p -> (4 * rem p + 2 <= S f)%nat ->
  wp (call (S f) name) p (fun e p' => consumed 1 p p' /\ parsed e /\ atom e).
Proof.
  intros S name p W F. cbn [call]. destruct (getFunction name) as [fn|] eqn:G; [|done].
  apply getFunction_in in G. wp_step. wp_step. wp_step. wp_step. wp_step.
  - wp_steps. split; [consumed_tac|]. split; [|done]. split; [done|exact I].
  - wp_step. use (s_args f S). intros es p2 (C2 & P2). wp_steps.
    split; [consumed_tac|]. split; [|done]. split; [done|by apply parsed_args].
Qed.

Lemma specs_args f : specs f -> forall acc p, Forall parsed acc -> wf_parser p -> (4 * rem p + 5 <= S f)%nat ->
  wp (call_args (S f) acc) p (fun es p' => consumed 1 p p' /\ Forall parsed es).
Proof.
  intros S acc p A W F. cbn [call_args]. wp_step. use (s_expr f S). intros e p1 (C1 & P1).
  assert (A' : Forall parsed (acc ++ [e])) by (apply Forall_app; auto).
  wp_steps; [|split; [consumed_tac|done]].
  use (s_args f S). intros es p4 (C4 & P4). split; [consumed_tac|done].
Qed.

Lemma specs_aggr f : specs f -> forall p, wf_parser p -> (4 * rem p + 1 <= S f)%nat ->
  wp (aggrExpr (S f)) p (fun e p' => consumed 1 p p' /\ parsed e /\ atom e).
Proof.
  intros S p W F. cbn [aggrExpr]. wp_step. wp_step. wp_step; [done|]. apply negb_false_iff in Heqb.
  wp_step. apply wp_grouping_clause; [consumed_tac..|]. intros before p2 C2. wp_step. wp_step. wp_step.
  assert (K : forall param p5, consumed 2 p p5 ->
    match param with Some y => isAggregatorWithParam (typ t) = true /\ parsed y
                   | None => isAggregatorWithParam (typ t) = false end ->
    wp (e ← expr f;
        _ ← expect itemRightParen "aggregation";
        g ← match before with Some _ => mret before | None => grouping_clause f end;
        match g with
        | Some (grouping, without) => mret (AggregateExpr (typ t) e param grouping without)
        | None => mret (AggregateExpr (typ t) e param [] false)
        end) p5 (fun e p' => consumed 1 p p' /\ parsed e /\ atom e)).
  { intros param p5 C5 PP. wp_step. use (s_expr f S). intros e p6 (C6 & P6). wp_step. wp_step. wp_step.
    destruct before as [[g w]|].
    - wp_steps. split; [consumed_tac|done].
    - apply wp_grouping_clause; [consumed_tac..|]. intros g p8 C8.
      destruct g as [[g w]|]; wp_steps; (split; [consumed_tac|done]). }
  wp_step.
  - wp_step. use (s_expr f S). intros y p4 (C4 & P4). wp_step. wp_step. wp_step. apply K; [consumed_tac|done].
  - wp_step. apply K; [consumed_tac|done].
Qed.

Lemma specs_primary f : specs f -> forall p, wf_parser p -> (4 * rem p + 2 <= S f)%nat ->
  wp (primaryExpr (S f)) p (fun e p' => consumed 1 p p' /\ parsed e /\ atom e).
Proof.
  intros S p W F. cbn [primaryExpr]. wp_step. wp_step.
  assert (Sel : forall name q, consumed 1 p q ->
    wp (vectorSelector f name) q (fun e p' => consumed 1 p p' /\ parsed e /\ atom e)).
  { intros name q C. eapply wp_mono; [apply wp_vectorSelector; consumed_tac|].
    intros e q' (C' & P' & A' & _). split; [|done]. destruct (name =? "")%string; consumed_tac. }
  assert (Agg : wp (_ ← backup; aggrExpr f) p' (fun e p' => consumed 1 p p' /\ parsed e /\ atom e)).
  { wp_step. eapply wp_backup; [consumed_tac|eassumption|]. intros q Wq Rq.
    use (s_aggr f S). intros e q' (C' & PA). split; [consumed_tac|done]. }
  destruct (typ t) eqn:T;
    try lazymatch goal with
    | |- wp (if isAggregator ?x then _ else _) _ _ =>
      let b := eval vm_compute in (isAggregator x) in change (isAggregator x) with b; cbv iota;
      first [apply wp_error | exact Agg]
    end.
  - wp_step. wp_step. wp_step; [|by apply Sel; consumed_tac].
    use (s_call f S). intros ec q (C & PA). split; [consumed_tac|done].
  - by apply Sel.
  - wp_step. eapply wp_backup; [consumed_tac|eassumption|]. intros q Wq Rq.
    eapply wp_mono; [apply wp_vectorSelector; consumed_tac|].
    intros e q' (C' & P' & A' & _). cbn in C'. split; [consumed_tac|done].
  - wp_steps. split; [consumed_tac|done].
  - wp_steps. split; [consumed_tac|done].
Qed.

Lemma specs_all f : specs f.
Proof.
  induction f as [|f IH].
  - split; intros; lia.
  - split; [by apply specs_expr|by apply specs_loop|by apply specs_unary|by apply specs_primary
           |by apply specs_aggr|by apply specs_call|by apply specs_args].
Qed.
End expressions.
