(* ===== verification/TypeFacts.v ===== *)
(** The type checker decides a declarative typing relation. *)

From S2P Require Import Prelude GoString GoFmt Float StrUtil Duration Lexer Labels Ast Parser ParserFacts.

(** Evaluates the comparisons of closed value types. *)
Ltac eval_types :=
  repeat match goal with
  | |- context [bool_decide (?a = ?b :> ValueType)] =>
    let v := eval vm_compute in (bool_decide (a = b)) in
    lazymatch v with true => idtac | false => idtac end; change (bool_decide (a = b)) with v
  | H : context [bool_decide (?a = ?b :> ValueType)] |- _ =>
    let v := eval vm_compute in (bool_decide (a = b)) in
    lazymatch v with true => idtac | false => idtac end; change (bool_decide (a = b)) with v in H
  | |- context [bool_decide (?a <> ?b :> ValueType)] =>
    let v := eval vm_compute in (bool_decide (a <> b)) in
    lazymatch v with true => idtac | false => idtac end; change (bool_decide (a <> b)) with v
  end; cbn [andb orb negb] in *.


Section typing.
Context `{RE : Regexp} `{UT : UnicodeTables}.

(** * The typing relation *)

Definition operand (t : ValueType) : Prop := t = ValueTypeScalar \/ t = ValueTypeVector.

(** Matching labels may only appear between vectors. *)
Definition no_labels (vm : option VectorMatching) : Prop :=
  match vm with Some m => MatchingLabels m = [] | None => True end.

(** Set operations match many to many. *)
Definition set_ok (op : ItemType) (vm : option VectorMatching) : Prop :=
  isSetOperator op = true -> exists m, vm = Some m /\ Card m = CardManyToMany.

(** The number of arguments a signature allows: exactly those listed, or, for
    a variadic function, up to [Variadic] repetitions of the last one, which
    may be absent; a negative [Variadic] sets no upper bound. *)
Definition nargs_ok (fn : Function) (n : Z) : Prop :=
  let nargs := Z.of_nat (length (ArgTypes fn)) in
  if Variadic fn =? 0 then n = nargs
  else nargs - 1 <= n /\ (0 < Variadic fn -> n <= nargs - 1 + Variadic fn).

Inductive has_type : Expr -> ValueType -> Prop :=
| T_Number v : has_type (NumberLiteral v) ValueTypeScalar
| T_String v : has_type (StringLiteral v) ValueTypeString
| T_VectorSelector n o ms : has_type (VectorSelector n o ms) ValueTypeVector
| T_MatrixSelector n r o ms : has_type (MatrixSelector n r o ms) ValueTypeMatrix
| T_Paren e t : has_type e t -> has_type (ParenExpr e) t
| T_Unary op e t :
    op = itemADD \/ op = itemSUB -> has_type e t -> operand t -> has_type (UnaryExpr op e) t
| T_Scalars op l r vm b :
    isOperator op = true -> isSetOperator op = false -> no_labels vm ->
    has_type l ValueTypeScalar -> has_type r ValueTypeScalar ->
    has_type (BinaryExpr op l r vm b) ValueTypeScalar
| T_VectorScalar op l r vm b :
    isOperator op = true -> isSetOperator op = false -> no_labels vm ->
    has_type l ValueTypeVector -> has_type r ValueTypeScalar ->
    has_type (BinaryExpr op l r vm b) ValueTypeVector
| T_ScalarVector op l r vm b :
    isOperator op = true -> isSetOperator op = false -> no_labels vm ->
    has_type l ValueTypeScalar -> has_type r ValueTypeVector ->
    has_type (BinaryExpr op l r vm b) ValueTypeVector
| T_Vectors op l r vm b :
    isOperator op = true -> set_ok op vm ->
    has_type l ValueTypeVector -> has_type r ValueTypeVector ->
    has_type (BinaryExpr op l r vm b) ValueTypeVector
| T_Call fn args :
    nargs_ok fn (Z.of_nat (length args)) ->
    (forall i a, args !! i = Some a -> exists t, arg_type fn i = Some t /\ has_type a t) ->
    has_type (Call fn args) (ReturnType fn)
| T_Aggregate op e g w :
    isAggregator op = true -> isAggregatorWithParam op = false -> has_type e ValueTypeVector ->
    has_type (AggregateExpr op e None g w) ValueTypeVector
| T_AggregateParam op e p g w :
    isAggregator op = true -> isAggregatorWithParam op = true -> has_type e ValueTypeVector ->
    has_type p (if decide (op = itemCountValues) then ValueTypeString else ValueTypeScalar) ->
    has_type (AggregateExpr op e (Some p) g w) ValueTypeVector.

(** The tree after checking: no vector matching unless both sides are vectors. *)
Definition vectors (l r : Expr) : bool :=
  bool_decide (Type_ l = ValueTypeVector) && bool_decide (Type_ r = ValueTypeVector).

Fixpoint clear (e : Expr) : Expr :=
  match e with
  | AggregateExpr op x p g w => AggregateExpr op (clear x) (match p with Some y => Some (clear y) | None => None end) g w
  | BinaryExpr op l r vm b => BinaryExpr op (clear l) (clear r) (if vectors l r then vm else None) b
  | Call fn args => Call fn (map clear args)
  | ParenExpr x => ParenExpr (clear x)
  | UnaryExpr op x => UnaryExpr op (clear x)
  | _ => e
  end.

Lemma has_type_unique e t : has_type e t -> t = Type_ e.
Proof.
  induction 1 as [| | | | | | ? ? ? ? ? ? ? ? ? IHl ? IHr | ? ? ? ? ? ? ? ? ? IHl ? IHr
    | ? ? ? ? ? ? ? ? ? IHl ? IHr | ? ? ? ? ? ? ? ? IHl ? IHr | | |]; cbn; try done;
    by rewrite <- IHl, <- IHr.
Qed.

(** * The checker's tests *)

Lemma wp_expect_type t want ctx p Q : (t = want -> Q tt p) -> wp (expect_type t want ctx) p Q.
Proof. intros HQ. unfold expect_type. case_decide; [by apply wp_ret, HQ|done]. Qed.

Lemma is_operand_spec t : is_operand t = true <-> operand t.
Proof. unfold is_operand, operand. by rewrite orb_true_iff, !bool_decide_eq_true. Qed.

Lemma wp_check_nargs fn n p Q : (nargs_ok fn n -> Q tt p) -> wp (check_nargs fn n) p Q.
Proof.
  intros HQ. unfold check_nargs. unfold nargs_ok in HQ. cbv zeta in HQ |- *.
  destruct (Variadic fn =? 0).
  - destruct (Z.eqb_spec (Z.of_nat (length (ArgTypes fn))) n); [|done]. apply wp_ret, HQ. lia.
  - destruct (Z.ltb_spec n (Z.of_nat (length (ArgTypes fn)) - 1)); [done|].
    destruct (Z.ltb_spec 0 (Variadic fn));
      destruct (Z.ltb_spec (Z.of_nat (length (ArgTypes fn)) - 1 + Variadic fn) n); cbn [andb]; try done;
      apply wp_ret, HQ; lia.
Qed.

Lemma check_nargs_ok fn n p : nargs_ok fn n -> check_nargs fn n p = Ok (tt, p).
Proof.
  unfold check_nargs, nargs_ok. cbv zeta. destruct (Variadic fn =? 0).
  - intros ->. by rewrite Z.eqb_refl.
  - intros [H1 H2]. destruct (Z.ltb_spec n (Z.of_nat (length (ArgTypes fn)) - 1)); [lia|].
    destruct (Z.ltb_spec 0 (Variadic fn)); cbn [andb]; [|done].
    destruct (Z.ltb_spec (Z.of_nat (length (ArgTypes fn)) - 1 + Variadic fn) n); [lia|done].
Qed.

(** The typing of a binary expression from the types of its operands. *)
Definition binary_ok (op : ItemType) (lt rt : ValueType) (vm : option VectorMatching) : Prop :=
  isOperator op = true /\ operand lt /\ operand rt /\
  (if bool_decide (lt = ValueTypeVector) && bool_decide (rt = ValueTypeVector)
   then set_ok op vm else isSetOperator op = false /\ no_labels vm).

Definition kept_matching (lt rt : ValueType) (vm : option VectorMatching) : option VectorMatching :=
  if bool_decide (lt = ValueTypeVector) && bool_decide (rt = ValueTypeVector) then vm else None.

Lemma wp_check_binary op lt rt vm p Q :
  is_Some vm -> (binary_ok op lt rt vm -> Q (kept_matching lt rt vm) p) ->
  wp (check_binary op lt rt vm) p Q.
Proof.
  intros [m ->] HQ. unfold check_binary. unfold binary_ok, kept_matching in HQ.
  destruct (isOperator op); [|done]. cbn [negb].
  destruct (is_operand lt) eqn:L; [|done]. destruct (is_operand rt) eqn:R; [|done]. cbn [negb orb].
  apply is_operand_spec in L as L', R as R'. unfold set_ok in HQ.
  destruct lt; try done; destruct rt; try done; eval_types; cbn in *;
    try (destruct (MatchingLabels m) eqn:ML; [|done]; cbn);
    destruct (isSetOperator op) eqn:S; try done; try (destruct (Card m) eqn:C; try done);
    apply HQ; repeat split; eauto; discriminate.
Qed.

Lemma check_binary_ok op lt rt vm p :
  binary_ok op lt rt vm -> check_binary op lt rt vm p = Ok (kept_matching lt rt vm, p).
Proof.
  intros (O & L & R & C). unfold check_binary, kept_matching. rewrite O. cbn [negb].
  rewrite (proj2 (is_operand_spec lt) L), (proj2 (is_operand_spec rt) R). cbn [negb orb].
  unfold set_ok, no_labels in C.
  destruct L as [-> | ->], R as [-> | ->]; eval_types; cbn in *;
    try (destruct C as [-> C]; destruct vm as [m|]; [rewrite C|]; done).
  destruct (isSetOperator op) eqn:S; [|by destruct vm].
  destruct C as (m & -> & ->); done.
Qed.

Lemma binary_has_type op l r vm b :
  binary_ok op (Type_ l) (Type_ r) vm -> has_type l (Type_ l) -> has_type r (Type_ r) ->
  has_type (BinaryExpr op l r vm b) (Type_ (BinaryExpr op l r vm b)).
Proof.
  intros (O & L & R & C) HL HR. cbn [Type_].
  destruct L as [EL|EL], R as [ER|ER]; rewrite EL, ER in *; eval_types.
  - destruct C. by apply T_Scalars.
  - destruct C. by apply T_ScalarVector.
  - destruct C. by apply T_VectorScalar.
  - by apply T_Vectors.
Qed.
End typing.

(** * Soundness and completeness *)

Section checker.
Context `{RE : Regexp} `{UT : UnicodeTables}.

(** What a successful check of [e] tells. *)
Definition checked (e : Expr) (p : parser) (te : ValueType * Expr) (p' : parser) : Prop :=
  p' = p /\ te = (Type_ e, clear e) /\ has_type e (Type_ e).

(** The signatures of [functions] are usable: a variadic function has a last
    argument type. *)
Lemma functions_signatures fn :
  In fn (map snd functions) -> Variadic fn <> 0 -> ArgTypes fn <> [].
Proof.
  intros I V. assert (F : forallb (fun g => (Variadic g =? 0) || (0 <? length (ArgTypes g))%nat) (map snd functions) = true)
    by (vm_compute; reflexivity).
  rewrite forallb_forall in F. specialize (F fn I).
  destruct (Z.eqb_spec (Variadic fn) 0); [done|]. cbn in F. by destruct (ArgTypes fn).
Qed.

Lemma arg_type_some fn i n :
  In fn (map snd functions) -> nargs_ok fn n -> Z.of_nat i < n -> is_Some (arg_type fn i).
Proof.
  intros I N L. unfold arg_type. apply lookup_lt_is_Some_2. unfold nargs_ok in N. cbv zeta in N.
  destruct (Z.eqb_spec (Variadic fn) 0) as [E|E]; [case_match; bool_prop; lia|].
  pose proof (functions_signatures fn I E). destruct (ArgTypes fn); [done|]. cbn [length] in *.
  case_match; bool_prop; lia.
Qed.

Lemma wp_check_args fn n args i p :
  Forall (fun a => forall p, wp (checkType a) p (checked a p)) args ->
  In fn (map snd functions) -> nargs_ok fn n -> (Z.of_nat i + Z.of_nat (length args) = n) ->
  wp (check_args checkType fn args i) p (fun args' p' => p' = p /\ args' = map clear args /\
    forall j a, args !! j = Some a -> exists t, arg_type fn (i + j) = Some t /\ has_type a t).
Proof.
  intros F I N. revert i p. induction F as [|a args Ha F IH]; intros i p L.
  - apply wp_ret. by repeat split.
  - cbn [check_args]. cbn [length] in L.
    destruct (arg_type_some fn i n I N ltac:(lia)) as [want EW]. rewrite EW.
    apply wp_bind. eapply wp_mono; [apply Ha|]. intros te p' (Ep & -> & T). rewrite Ep. cbv beta iota.
    apply wp_bind, wp_expect_type. intros E. apply wp_bind.
    eapply wp_mono; [apply IH; lia|]. cbn beta. intros args' p2 (Ep2 & -> & TS). rewrite Ep2.
    apply wp_ret. split; [done|]. split; [done|].
    intros [|j] x; cbn.
    + intros [= <-]. rewrite Nat.add_0_r. exists want. split; [done|]. by rewrite <- E.
    + intros Hj. replace (i + S j)%nat with (S i + j)%nat by lia. by apply TS.
Qed.

Lemma wp_checkType e p : parsed e -> wp (checkType e) p (checked e p).
Proof.
  revert p. induction e as [op x y g w IHx IHy|op l r vm b IHl IHr|fn args IH| | |x IH| |op x IH|]
    using Expr_nested_ind; intros p P;
    try (apply wp_ret; split; [done|split; [done|constructor]]).
  - destruct P as (O & Px & Py). cbn [checkType]. rewrite O. cbn [negb].
    apply wp_bind. eapply wp_mono; [by apply IHx|]. intros te p1 (-> & -> & T). cbv beta iota.
    apply wp_bind, wp_expect_type. intros E. rewrite E in T. apply wp_bind.
    destruct y as [y|].
    + destruct Py as [W Py]. rewrite W. apply wp_bind. eapply wp_mono; [by apply (IHy y)|].
      intros te p2 (-> & -> & T2). cbv beta iota. apply wp_bind, wp_expect_type. intros E2.
      rewrite E2 in T2. apply wp_ret, wp_ret. split; [done|]. split; [done|]. by apply T_AggregateParam.
    + rewrite Py. apply wp_ret, wp_ret. split; [done|]. split; [done|]. by apply T_Aggregate.
  - destruct P as (O & (m & V & _) & _ & _ & Pl & Pr). cbn [checkType].
    apply wp_bind. eapply wp_mono; [by apply IHl|]. intros te p1 (-> & -> & Tl). cbv beta iota.
    apply wp_bind. eapply wp_mono; [by apply IHr|]. intros te p2 (-> & -> & Tr). cbv beta iota.
    apply wp_bind, wp_check_binary; [by rewrite V|]. intros B. apply wp_ret.
    split; [done|]. split; [done|]. by apply binary_has_type.
  - destruct P as [I Ps]. apply parsed_args in Ps. cbn [checkType].
    apply wp_bind, wp_check_nargs. intros N. apply wp_bind.
    eapply wp_mono; [apply (wp_check_args fn (Z.of_nat (length args)) args O); [|done|exact N|lia]|].
    + rewrite Forall_forall in *. intros a Ha q. apply IH; [done|by apply Ps].
    + cbn beta. intros args' p' (-> & -> & TS). apply wp_ret. split; [done|]. split; [done|].
      by apply T_Call.
  - cbn [checkType]. apply wp_bind. eapply wp_mono; [by apply IH|]. intros te p1 (-> & -> & T).
    apply wp_ret. split; [done|]. split; [done|]. by constructor.
  - destruct P as (O & _ & Px). cbn [checkType].
    assert (negb (bool_decide (op = itemADD) || bool_decide (op = itemSUB)) = false) as ->
      by (destruct O as [-> | ->]; reflexivity).
    apply wp_bind. eapply wp_mono; [by apply IH|]. intros te p1 (-> & -> & T). cbv beta iota.
    destruct (is_operand _) eqn:OP; [|done]. apply wp_ret. split; [done|]. split; [done|].
    apply is_operand_spec in OP. by constructor.
Qed.

Lemma expect_type_ok t ctx p : expect_type t t ctx p = Ok (tt, p).
Proof. unfold expect_type. by case_decide. Qed.

Lemma bind_ok {A B} (m : PM A) (f : A -> PM B) p a p' : m p = Ok (a, p') -> (m ≫= f) p = f a p'.
Proof. intros E. unfold mbind, PM_bind. by rewrite E. Qed.

Lemma check_args_complete fn args i p :
  (forall j a, args !! j = Some a -> exists t, arg_type fn (i + j) = Some t /\
     forall p, checkType a p = Ok ((t, clear a), p)) ->
  check_args checkType fn args i p = Ok (map clear args, p).
Proof.
  revert i p. induction args as [|a args IH]; intros i p H; [done|]. cbn [check_args].
  destruct (H O a eq_refl) as (t & E & C). rewrite Nat.add_0_r in E. rewrite E.
  rewrite (bind_ok _ _ _ _ _ (C p)). cbv beta iota.
  rewrite (bind_ok _ _ _ _ _ (expect_type_ok t _ p)).
  rewrite (bind_ok _ _ _ (map clear args) p); [done|]. apply IH. intros j x Hj.
  replace (S i + j)%nat with (i + S j)%nat by lia. by apply H.
Qed.

Lemma has_type_binary op l r vm b t :
  has_type (BinaryExpr op l r vm b) t ->
  has_type l (Type_ l) /\ has_type r (Type_ r) /\ binary_ok op (Type_ l) (Type_ r) vm.
Proof.
  unfold binary_ok, operand.
  inversion 1; subst; match goal with Hl : has_type l _, Hr : has_type r _ |- _ =>
    rewrite <- (has_type_unique _ _ Hl), <- (has_type_unique _ _ Hr) end; eval_types; auto 10.
Qed.

(** Induction on the tree: a typed expression passes the check. *)
Lemma checkType_complete e t p : has_type e t -> checkType e p = Ok ((t, clear e), p).
Proof.
  revert t p. induction e as [op x y g w IHx IHy|op l r vm b IHl IHr|fn args IH| | |x IH| |op x IH|]
    using Expr_nested_ind; intros t p T; try (by inversion T; subst).
  - inversion T; subst; cbn [checkType];
    match goal with H : isAggregator op = true |- _ => rewrite H end; cbn [negb];
    rewrite (bind_ok _ _ _ _ _ (IHx _ p ltac:(eassumption))); cbv beta iota;
    rewrite (bind_ok _ _ _ _ _ (expect_type_ok _ _ p));
    match goal with H : isAggregatorWithParam op = _ |- _ => rewrite H end; [done|].
    erewrite bind_ok; [done|].
    match goal with H : has_type ?y _ |- context [checkType ?y] =>
      rewrite (bind_ok _ _ _ _ _ (IHy y eq_refl _ p H)) end. cbv beta iota.
    by rewrite (bind_ok _ _ _ _ _ (expect_type_ok _ _ p)).
  - rewrite (has_type_unique _ _ T). apply has_type_binary in T as (Tl & Tr & B). cbn [checkType].
    rewrite (bind_ok _ _ _ _ _ (IHl _ p Tl)). cbv beta iota.
    rewrite (bind_ok _ _ _ _ _ (IHr _ p Tr)). cbv beta iota.
    by rewrite (bind_ok _ _ _ _ _ (check_binary_ok _ _ _ _ p B)).
  - inversion T as [| | | | | | | | | |? ? N TS| |]; subst. cbn [checkType].
    rewrite (bind_ok _ _ _ _ _ (check_nargs_ok _ _ p N)).
    rewrite (bind_ok _ _ _ (map clear args) p); [done|]. apply check_args_complete.
    intros j a Hj. destruct (TS j a Hj) as (t & E & Ta). exists t. split; [done|]. intros q.
    rewrite Forall_forall in IH. apply IH; [by eapply list_elem_of_lookup_2|done].
  - inversion T; subst. cbn [checkType]. rewrite (bind_ok _ _ _ _ _ (IH _ p ltac:(eassumption))).
    rewrite (has_type_unique x t) by done. done.
  - inversion T as [| | | | |? ? ? O Tx OT| | | | | | |]; subst. cbn [checkType].
    assert (negb (bool_decide (op = itemADD) || bool_decide (op = itemSUB)) = false) as ->
      by (destruct O as [-> | ->]; reflexivity).
    rewrite (bind_ok _ _ _ _ _ (IH _ p Tx)). cbv beta iota.
    rewrite (proj2 (is_operand_spec t) OT). by rewrite (has_type_unique x t).
Qed.
End checker.
