(* ===== verification/ParseSpec.v ===== *)
(** The parser's entry points: they end, raise no runtime error, and return
    well-formed, well-typed trees in which precedence decides the grouping. *)

From S2P Require Import Prelude GoString GoFmt Float StrUtil Duration Lexer LexerFacts Labels Ast Parser.
From S2P Require Import ParserFacts TypeFacts.

(** * Trees after type checking *)

Section wellformed.
Context `{RE : Regexp}.

(** The matching of a binary operation: cleared unless both operands are
    vectors, and many to many for set operations only. *)
Definition matching_ok (op : ItemType) (l r : Expr) (vm : option VectorMatching) : Prop :=
  match vm with Some m => card_ok op m | None => vectors l r = false end.

(** [parsed] for the trees the entry points return. *)
Fixpoint well_formed (e : Expr) : Prop :=
  match e with
  | AggregateExpr op x param _ _ =>
    isAggregator op = true /\ well_formed x /\
    match param with
    | Some y => isAggregatorWithParam op = true /\ well_formed y
    | None => isAggregatorWithParam op = false
    end
  | BinaryExpr op l r vm _ =>
    isOperator op = true /\ matching_ok op l r vm /\ left_ok op l /\ right_ok op r /\ well_formed l /\ well_formed r
  | Call fn args => In fn (map snd functions) /\ foldr (fun a P => well_formed a /\ P) True args
  | MatrixSelector _ _ _ ms | VectorSelector _ _ ms => good_selector ms
  | UnaryExpr op x => (op = itemADD \/ op = itemSUB) /\ atom x /\ well_formed x
  | ParenExpr x => well_formed x
  | NumberLiteral _ | StringLiteral _ => True
  end.

Lemma clear_left op l : left_ok op (clear l) <-> left_ok op l.
Proof. by destruct l. Qed.
Lemma clear_right op r : right_ok op (clear r) <-> right_ok op r.
Proof. by destruct r. Qed.
Lemma clear_atom e : atom (clear e) <-> atom e.
Proof. by destruct e. Qed.

Lemma clear_Type e : Type_ (clear e) = Type_ e.
Proof.
  induction e as [| ? ? ? ? ? IHl IHr| | | | | | |] using Expr_nested_ind; cbn; try done.
  by rewrite IHl, IHr.
Qed.

Lemma clear_vectors l r : vectors (clear l) (clear r) = vectors l r.
Proof. unfold vectors. by rewrite !clear_Type. Qed.

Lemma clear_well_formed e : parsed e -> well_formed (clear e).
Proof.
  induction e as [op x y g w IHx IHy|op l r vm b IHl IHr|fn args IH| | |x IH| |op x IH|] using Expr_nested_ind;
    intros P; cbn [clear]; try done; try by apply IH.
  - destruct P as (O & Px & Py). cbn. split; [done|]. split; [auto|].
    destruct y as [y|]; [|done]. destruct Py. split; [done|]. by apply IHy.
  - destruct P as (O & (m & -> & K) & L & R & Pl & Pr). cbn. rewrite clear_left, clear_right.
    split; [done|]. split; [unfold matching_ok; rewrite clear_vectors; by destruct (vectors l r)|]. auto 10.
  - destruct P as [I Ps]. apply parsed_args in Ps. split; [done|].
    induction IH as [|a args Ha _ IHargs]; cbn; [done|]. apply Forall_cons in Ps as [Pa Ps]. auto.
  - destruct P as (O & A & Px). cbn. rewrite clear_atom. auto.
Qed.

(** Clearing keeps the typing. *)
Lemma clear_has_type e t : has_type e t -> has_type (clear e) t.
Proof.
  revert t. induction e as [op x y g w IHx IHy|op l r vm b IHl IHr|fn args IH| | |x IH| |op x IH|]
    using Expr_nested_ind; intros t T; try done.
  - inversion T; subst; cbn [clear]; [apply T_Aggregate|apply T_AggregateParam]; auto.
  - rewrite (has_type_unique _ _ T) in *. rewrite <- clear_Type. pose proof T as T'.
    apply has_type_binary in T as (Tl & Tr & O & L & R & C). cbn [clear].
    apply binary_has_type; [|rewrite clear_Type; auto..].
    rewrite !clear_Type. split; [done|]. split; [done|]. split; [done|]. unfold vectors.
    destruct (bool_decide _ && bool_decide _); [done|]. by destruct C.
  - inversion T as [| | | | | | | | | |? ? N TS| |]; subst. cbn [clear].
    apply T_Call; [by rewrite length_map|]. intros i a Ha.
    apply (list_lookup_fmap_Some clear args i a) in Ha as (a0 & -> & Ha).
    destruct (TS i a0 Ha) as (t & E & Ta). exists t. split; [done|].
    rewrite Forall_forall in IH. apply IH; [by eapply list_elem_of_lookup_2|done].
  - inversion T; subst. cbn. constructor. auto.
  - inversion T; subst. cbn. constructor; auto.
Qed.

(** * Precedence *)

Fixpoint prec_ok (e : Expr) : Prop :=
  match e with
  | BinaryExpr op l r _ _ => left_ok op l /\ right_ok op r /\ prec_ok l /\ prec_ok r
  | _ => True
  end.

Lemma well_formed_prec e : well_formed e -> prec_ok e.
Proof.
  induction e as [|op l r vm b IHl IHr| | | | | | |] using Expr_nested_ind; intros W; try done.
  destruct W as (_ & _ & L & R & Wl & Wr). cbn. auto.
Qed.

Lemma same_prec_assoc op op' : precedence op = precedence op' -> isRightAssociative op = isRightAssociative op'.
Proof. destruct op, op'; vm_compute; congruence. Qed.

Lemma binds_left_trans op lop o :
  binds_left op lop = true -> binds_left lop o = true \/ binds_right lop o = true -> binds_left op o = true.
Proof.
  unfold binds_left, binds_right. rewrite !orb_true_iff, !andb_true_iff, !Z.ltb_lt, !Z.eqb_eq, !negb_true_iff.
  intros [H1|[H1 R1]] [[H2|[H2 R2]]|[H2|[H2 R2]]]; try (left; lia).
  - right. split; [lia|done].
  - rewrite (same_prec_assoc op lop) in R1 by done. congruence.
Qed.

Lemma binds_right_trans op rop o :
  binds_right op rop = true -> binds_left rop o = true \/ binds_right rop o = true -> binds_right op o = true.
Proof.
  unfold binds_left, binds_right. rewrite !orb_true_iff, !andb_true_iff, !Z.ltb_lt, !Z.eqb_eq, !negb_true_iff.
  intros [H1|[H1 R1]] [[H2|[H2 R2]]|[H2|[H2 R2]]]; try (left; lia).
  - rewrite (same_prec_assoc op rop) in R1 by done. congruence.
  - right. split; [lia|done].
Qed.

(** Every operator of the left (right) operand binds before the root. *)
Lemma prec_ops e : prec_ok e -> match e with
  | BinaryExpr op l r _ _ =>
    (forall o, inl o ∈ flat l -> binds_left op o.1.1 = true) /\
    (forall o, inl o ∈ flat r -> binds_right op o.1.1 = true)
  | _ => True end.
Proof.
  induction e as [|op l r vm b IHl IHr| | | | | | |] using Expr_nested_ind; intros W; try done.
  destruct W as (L & R & Wl & Wr). specialize (IHl Wl). specialize (IHr Wr). split; intros o Ho.
  - destruct l as [|lop ll lr lvm lb| | | | | | |]; cbn in Ho;
      try (apply list_elem_of_singleton in Ho; discriminate).
    cbn in L. destruct IHl as [I1 I2]. rewrite elem_of_app, elem_of_cons in Ho.
    destruct Ho as [Ho|[[= ->]|Ho]]; [|done|]; apply (binds_left_trans _ lop); auto.
  - destruct r as [|rop rl rr rvm rb| | | | | | |]; cbn in Ho;
      try (apply list_elem_of_singleton in Ho; discriminate).
    cbn in R. destruct IHr as [I1 I2]. rewrite elem_of_app, elem_of_cons in Ho.
    destruct Ho as [Ho|[[= ->]|Ho]]; [|done|]; apply (binds_right_trans _ rop); auto.
Qed.

Lemma binds_antisym op op' : binds_right op op' = true -> binds_left op' op = true -> False.
Proof.
  unfold binds_left, binds_right. rewrite !orb_true_iff, !andb_true_iff, !Z.ltb_lt, !Z.eqb_eq, !negb_true_iff.
  intros [H1|[H1 R1]] [H2|[H2 R2]]; try lia. rewrite (same_prec_assoc op' op) in R2 by done. congruence.
Qed.

Lemma app_cons_cases {A} (a a' b b' : list A) x y :
  a ++ x :: b = a' ++ y :: b' -> (a = a' /\ x = y /\ b = b') \/ (y ∈ b /\ x ∈ a') \/ (y ∈ a /\ x ∈ b').
Proof.
  revert a'. induction a as [|z a IH]; intros [|z' a']; cbn.
  - intros [= -> ->]. auto.
  - intros [= -> ->]. right. left. split; [apply elem_of_app; right|]; apply list_elem_of_here.
  - intros [= -> <-]. right. right. split; [|apply elem_of_app; right]; apply list_elem_of_here.
  - intros [= -> E]. destruct (IH a' E) as [(-> & -> & ->)|[[H1 H2]|[H1 H2]]]; [auto|right; left|right; right];
      (split; [done|by apply list_elem_of_further]) || (split; [by apply list_elem_of_further|done]).
Qed.

Lemma flat_atom_inv e e' : atom e -> flat e' = flat e -> e' = e.
Proof.
  intros A. assert (F : flat e = [inr e]) by (by destruct e). rewrite F.
  destruct e' as [|op l r vm b| | | | | | |]; cbn; try (by intros [= ->]).
  intros E. exfalso. assert (L : length (flat l ++ inl (op, vm, b) :: flat r) = 1%nat) by (by rewrite E).
  rewrite length_app in L. cbn in L.
  assert (forall x, (1 <= length (flat x))%nat) as P.
  { intros x. destruct x; cbn; try lia. rewrite length_app. cbn. lia. }
  pose proof (P l). lia.
Qed.

(** The operators and operands in order determine a tree that respects
    precedence and associativity. *)
Lemma prec_unique e e' : prec_ok e -> prec_ok e' -> flat e' = flat e -> e' = e.
Proof.
  revert e'. induction e as [|op l r vm b IHl IHr| | | | | | |] using Expr_nested_ind; intros e' W W' E;
    try (by apply flat_atom_inv).
  destruct e' as [|op' l' r' vm' b'| | | | | | |]; try (by symmetry; apply flat_atom_inv).
  pose proof (prec_ops _ W) as [PL PR]. pose proof (prec_ops _ W') as [PL' PR'].
  destruct W as (_ & _ & Wl & Wr), W' as (_ & _ & Wl' & Wr'). cbn in E.
  apply app_cons_cases in E as [(El & [= -> -> ->] & Er)|[[H1 H2]|[H1 H2]]].
  - by rewrite (IHl l'), (IHr r').
  - exfalso. apply PR' in H1. apply PL in H2. cbn in H1, H2. by apply (binds_antisym op' op).
  - exfalso. apply PL' in H1. apply PR in H2. cbn in H1, H2. by apply (binds_antisym op op').
Qed.
End wellformed.

(** * Statements and series descriptions *)

Section entry.
Context `{RE : Regexp} `{UT : UnicodeTables}.

Lemma wp_expr f p Q :
  wf_parser p -> (4 * rem p + 4 <= f)%nat -> (forall e p', consumed 1 p p' -> parsed e -> Q e p') ->
  wp (expr f) p Q.
Proof.
  intros W F HQ. eapply wp_mono; [by apply (s_expr f (specs_all f))|]. intros e p' [C P]. auto.
Qed.

Definition stmt_parsed (s : Statement) : Prop := parsed (stmt_expr s).

Lemma wp_alertStmt f p Q :
  wf_parser p -> (4 * rem p + 4 <= f)%nat -> (forall s p', consumed 1 p p' -> stmt_parsed s -> Q s p') ->
  wp (alertStmt f) p Q.
Proof.
  intros W F HQ. unfold alertStmt. do 6 wp_step. wp_step. apply wp_expr; [consumed_tac..|]. intros e p4 C4 P.
  wp_steps; try (apply HQ; [consumed_tac|done]);
    repeat (apply wp_labelSet; [consumed_tac..|]; intros ? ? ?; wp_steps);
    try (apply HQ; [consumed_tac|done]).
Qed.

Lemma wp_recordStmt f p Q :
  wf_parser p -> (4 * rem p + 4 <= f)%nat -> (forall s p', consumed 1 p p' -> stmt_parsed s -> Q s p') ->
  wp (recordStmt f) p Q.
Proof.
  intros W F HQ. unfold recordStmt. do 6 wp_step.
  - apply wp_labelSet; [consumed_tac..|]. intros ls p3 C3. do 3 wp_step.
    apply wp_expr; [consumed_tac..|]. intros e' p4 C4 P. wp_step. apply HQ; [consumed_tac|done].
  - do 4 wp_step. apply wp_expr; [consumed_tac..|]. intros e' p4 C4 P. wp_step. apply HQ; [consumed_tac|done].
Qed.

Lemma wp_stmt f p Q :
  wf_parser p -> (4 * rem p + 4 <= f)%nat -> (forall s p', consumed 1 p p' -> stmt_parsed s -> Q s p') ->
  wp (stmt f) p Q.
Proof.
  intros W F HQ. unfold stmt. wp_step. wp_step.
  destruct t; first [apply wp_error | apply wp_alertStmt | apply wp_recordStmt];
    try consumed_tac; intros s p1 C1 P; (apply HQ; [consumed_tac|done]).
Qed.

Lemma wp_parseStmts_loop f acc p :
  wf_parser p -> (5 * rem p + 5 <= f)%nat -> Forall stmt_parsed acc ->
  wp (parseStmts_loop f acc) p (fun ss _ => Forall stmt_parsed ss).
Proof.
  revert acc p. induction f as [|f IH]; intros acc p W F A; [lia|]. cbn [parseStmts_loop].
  wp_step. apply wp_peek_typ_token; [done|]. intros t p1 C1 N. wp_step; [done|].
  destruct (decide (t = itemComment)); [done|]. wp_step. apply wp_stmt; [consumed_tac..|].
  intros s p2 C2 P. apply IH; [consumed_tac..|]. apply Forall_app. auto.
Qed.

Lemma wp_parseExpr_loop f o p :
  wf_parser p -> (5 * rem p + 5 <= f)%nat -> (forall e, o = Some e -> parsed e) ->
  wp (parseExpr_loop f o) p (fun o _ => forall e, o = Some e -> parsed e).
Proof.
  revert o p. induction f as [|f IH]; intros o p W F A; [lia|]. cbn [parseExpr_loop].
  wp_step. apply wp_peek_typ_token; [done|]. intros t p1 C1 N. wp_step; [done|].
  destruct (decide (t = itemComment)); [done|]. destruct o as [e|]; [done|].
  wp_step. apply wp_expr; [consumed_tac..|]. intros e p2 C2 P. apply IH; [consumed_tac..|].
  by intros ? [= <-].
Qed.

Lemma wp_parseExpr f p :
  wf_parser p -> (5 * rem p + 5 <= f)%nat -> wp (parseExpr f) p (fun e _ => parsed e).
Proof.
  intros W F. apply wp_bind. eapply wp_mono; [by apply wp_parseExpr_loop|]. cbn beta.
  intros [e|] p' P; [apply wp_ret; auto|done].
Qed.

Lemma wp_times_token p Q :
  wf_parser p -> (forall n p', consumed 1 p p' -> Q n p') -> wp times_token p Q.
Proof. intros W HQ. unfold times_token. wp_steps. destruct (ParseUint10 _); wp_steps. by apply HQ. Qed.

Lemma wp_series_value p Q :
  wf_parser p -> (forall n p', consumed 1 p p' -> Q n p') -> wp series_value p Q.
Proof. intros W HQ. unfold series_value, sign_token. wp_steps; apply HQ; consumed_tac. Qed.

Lemma wp_series_expansion k p Q :
  wf_parser p -> (forall n p', consumed 1 p p' -> Q n p') -> wp (series_expansion k) p Q.
Proof.
  intros W HQ. unfold series_expansion. do 9 wp_step. apply wp_times_token; [consumed_tac|].
  intros n p4 C4. wp_step. apply HQ. consumed_tac.
Qed.

Lemma wp_series_loop f vals p : wf_parser p -> (rem p < f)%nat -> wp (series_loop f vals) p (fun _ _ => True).
Proof.
  revert vals p. induction f as [|f IH]; intros vals p W F; [lia|]. cbn [series_loop].
  wp_step. wp_step. wp_step; [done|]. wp_step.
  - do 6 wp_step.
    + do 2 wp_step. apply wp_times_token; [consumed_tac|]. intros nt p4 C4. apply IH; consumed_tac.
    + wp_step. apply IH; consumed_tac.
  - wp_step. apply wp_series_value; [consumed_tac|]. intros k p2 C2. wp_step. wp_step. wp_step.
    { apply IH; consumed_tac. } wp_step; [done|]. wp_step; [done|].
    wp_step. apply wp_series_expansion; [consumed_tac|]. intros more p4 C4. apply IH; consumed_tac.
Qed.

Lemma wp_checkType_stmts ss p :
  Forall stmt_parsed ss -> wp (checkType_stmts ss) p (fun _ p' => p' = p).
Proof.
  intros A. revert p. induction A as [|s ss P _ IH]; intros p; [done|]. cbn [checkType_stmts].
  apply wp_bind. eapply (wp_mono _ _ (fun _ p' => p' = p)).
  - destruct s; cbn [checkType_stmt]; apply wp_bind;
      (eapply wp_mono; [by apply wp_checkType|]); intros te p1 (-> & -> & _); cbv beta iota.
    + by apply wp_bind, wp_expect_type.
    + by case_decide.
    + by destruct (is_operand _).
  - intros s' p1 ->. apply wp_bind. eapply wp_mono; [apply IH|]. by intros ss' p2 ->.
Qed.

(** * The entry points *)

Definition parser_error (e : perr) : Prop := match e with ParseErr _ _ _ => True | _ => False end.

Lemma newParser_wf s its : wf_parser (newParser s its) /\ rem (newParser s its) = length its.
Proof.
  split; [|unfold rem, pending; cbn; lia]. split; [done|]. split; [by repeat constructor|cbn; lia].
Qed.

Lemma run_parser_spec {A} series (m : nat -> PM A) s (Q : A -> Prop) :
  (forall f p, wf_parser p -> (5 * rem p + 5 <= f)%nat -> wp (m f) p (fun a _ => Q a)) ->
  match run_parser series m s with Ok a => Q a | Err e => parser_error e end.
Proof.
  intros H. unfold run_parser. destruct (lex_ok s series) as (l & E & _ & _ & its0 & i & EI & _). rewrite E, EI.
  set (its := its0 ++ [i]).
  destruct (newParser_wf s its) as [W R].
  specialize (H (parse_fuel its) (newParser s its) W ltac:(unfold parse_fuel; lia)).
  unfold wp in H. destruct (m _ _) as [[a p']|[]]; done.
Qed.

Lemma ParseExpr_spec s :
  match ParseExpr s with
  | Ok e => exists e0, e = clear e0 /\ parsed e0 /\ has_type e0 (Type_ e0)
  | Err e => parser_error e
  end.
Proof.
  unfold ParseExpr. apply (run_parser_spec _ _ _ (fun e => exists e0, e = clear e0 /\ parsed e0 /\ has_type e0 (Type_ e0))).
  intros f p W F. apply wp_bind.
  eapply wp_mono; [by apply wp_parseExpr|]. cbn beta. intros e p1 P. apply wp_bind.
  eapply wp_mono; [by apply wp_checkType|]. intros te p2 (-> & -> & T). apply wp_ret. eauto.
Qed.

(** C33: every parsing entry point ends, with a value or with a parse error of
    its own: its recursion needs no more fuel than the token count allows, and
    no runtime error (an index out of range, a nil matching or regexp) can
    occur, so [recover] never reports the "unexpected error". *)
Theorem parse_total (s : string) :
  (match ParseExpr s with Ok _ => True | Err e => parser_error e end) /\
  (match ParseStmts s with Ok _ => True | Err e => parser_error e end) /\
  (match ParseMetric s with Ok _ => True | Err e => parser_error e end) /\
  (match ParseMetricSelector s with Ok _ => True | Err e => parser_error e end) /\
  (match parseSeriesDesc s with Ok _ => True | Err e => parser_error e end).
Proof.
  split; [|split; [|split; [|split]]].
  - pose proof (ParseExpr_spec s). by destruct (ParseExpr s).
  - apply (run_parser_spec _ _ _ (fun _ => True)). intros f p W F. apply wp_bind.
    eapply wp_mono; [by apply wp_parseStmts_loop|]. cbn beta. intros ss p1 P.
    eapply wp_mono; [by apply wp_checkType_stmts|done].
  - apply (run_parser_spec _ _ _ (fun _ => True)). intros f p W F. wp_step.
    apply wp_metric; [consumed_tac..|]. intros m p1 C1. by wp_steps.
  - apply (run_parser_spec _ _ _ (fun _ => True)). intros f p W F. do 4 wp_step.
    1: do 4 wp_step. 2: do 2 wp_step.
    all: (eapply wp_mono; [apply wp_vectorSelector; consumed_tac|]);
      intros sel p3 (C3 & _ & _ & ms & -> & _); destruct C3; cbv beta; wp_steps; done.
  - apply (run_parser_spec _ _ _ (fun _ => True)). intros f p W F.
    unfold parseSeriesDesc_body. wp_step. apply wp_metric; [consumed_tac..|]. intros m p1 C1. wp_step.
    eapply wp_mono; [apply wp_series_loop; consumed_tac|]. done.
Qed.

Lemma ParseExpr_well_formed s e : ParseExpr s = Ok e -> well_formed e /\ has_type e (Type_ e).
Proof.
  intros E. pose proof (ParseExpr_spec s) as H. rewrite E in H. destruct H as (e0 & -> & P & T).
  split; [by apply clear_well_formed|]. rewrite clear_Type. by apply clear_has_type.
Qed.

(** C3: what [ParseExpr] returns is well formed and well typed. *)
Theorem ParseExpr_sound (s : string) (e : Expr) (E : ParseExpr s = Ok e) :
  well_formed e /\ has_type e (Type_ e).
Proof. by apply (ParseExpr_well_formed s). Qed.

(** C22: precedence and associativity decide the grouping: among the trees
    with the operators and operands of a parsed expression in the same order,
    the parsed one is the only tree whose operators respect them. *)
Theorem ParseExpr_precedence (s : string) (e : Expr) (E : ParseExpr s = Ok e) :
  prec_ok e /\ forall e', prec_ok e' -> flat e' = flat e -> e' = e.
Proof.
  apply ParseExpr_well_formed in E as [W _]. split; [by apply well_formed_prec|].
  intros e' P F. apply prec_unique; [by apply well_formed_prec|done|done].
Qed.
End entry.

Section checks.
Context `{RE : Regexp} `{UT : UnicodeTables}.

(** On the parser's trees [checkType] decides the typing relation: it
    accepts exactly the typed expressions, returns their type, clears the
    matching of operations that are not between vectors, and otherwise raises
    a parse error. *)
Theorem checkType_decides (e : Expr) (p : parser) (P : parsed e) :
  match checkType e p with
  | Ok r => r = ((Type_ e, clear e), p) /\ has_type e (Type_ e)
  | Err err => parser_error err /\ forall t, ~ has_type e t
  end.
Proof.
  pose proof (wp_checkType e p P) as W. unfold wp in W.
  destruct (checkType e p) as [[te p']|err] eqn:E.
  - destruct W as (-> & -> & T). done.
  - split; [by destruct err|]. intros t T. by rewrite (checkType_complete e t p T) in E.
Qed.

(** [balance] appends an operation to the tree built so far: the operands
    and operators keep their order and the tree keeps respecting precedence. *)
Theorem balance_spec (lhs : Expr) (op : ItemType) (rhs e : Expr) (vm : VectorMatching) (b : bool) (p p' : parser)
  (PL : parsed lhs) (PR : parsed rhs) (A : atom rhs) (O : isOperator op = true) (K : card_ok op vm)
  (E : balance lhs op rhs vm b p = Ok (e, p')) :
  parsed e /\ flat e = flat lhs ++ [inl (op, Some vm, b); inr rhs].
Proof.
  pose proof (wp_balance lhs op rhs vm b p PL PR A O K) as W. unfold wp in W. rewrite E in W.
  by destruct W as (_ & P & F & _).
Qed.
End checks.

(** * Witnesses *)

Definition sample_query : string := "sum by (job) (rate(x{a!='b'}[5m])) > on (job) y * 2 unless z".

Lemma ParseExpr_sound_witness :
  match @ParseExpr no_regexp ascii_only sample_query with
  | Ok e => well_formed e /\ has_type e (Type_ e)
  | Err _ => False
  end.
Proof.
  destruct (@ParseExpr no_regexp ascii_only sample_query) as [e|err] eqn:E.
  - exact (ParseExpr_sound sample_query e E).
  - vm_compute in E. discriminate E.
Defined.

Lemma ParseExpr_precedence_witness :
  match @ParseExpr no_regexp ascii_only "a + b * c" with
  | Ok e => length (flat e) = 5%nat /\ forall e', prec_ok e' -> flat e' = flat e -> e' = e
  | Err _ => False
  end.
Proof.
  destruct (@ParseExpr no_regexp ascii_only "a + b * c") as [e|err] eqn:E.
  - split; [|exact (proj2 (ParseExpr_precedence "a + b * c" e E))].
    vm_compute in E. injection E as <-. reflexivity.
  - vm_compute in E. discriminate E.
Defined.

Definition sample_binary : @Expr no_regexp :=
  BinaryExpr itemADD (num_expr 1) (StringLiteral "s") (Some plain) false.

Lemma checkType_decides_witness :
  parsed sample_binary /\
  match @checkType no_regexp ascii_only sample_binary (newParser "" []) with
  | Ok _ => False
  | Err err => parser_error err /\ forall t, ~ has_type sample_binary t
  end.
Proof.
  assert (P : parsed sample_binary) by (cbn; split; [done|]; split; [by exists plain|]; repeat split).
  split; [exact P|].
  pose proof (@checkType_decides no_regexp ascii_only sample_binary (newParser "" []) P) as H.
  destruct (checkType sample_binary (newParser "" [])) as [r|err] eqn:E; [|exact H].
  vm_compute in E. discriminate E.
Defined.

Lemma balance_spec_witness :
  let lhs := @BinaryExpr no_regexp itemADD (num_expr 1) (num_expr 2) (Some plain) false in
  let e := @BinaryExpr no_regexp itemADD (num_expr 1)
             (BinaryExpr itemMUL (num_expr 2) (num_expr 3) (Some plain) false) (Some plain) false in
  flat e = flat lhs ++ [inl (itemMUL, Some plain, false); inr (num_expr 3)].
Proof.
  intros lhs e.
  refine (proj2 (balance_spec lhs itemMUL (num_expr 3) e plain false (newParser "" []) (newParser "" []) _ I I _ _ _)).
  - cbn. split; [reflexivity|]. split; [exists plain; split; [reflexivity|discriminate]|]. repeat split.
  - reflexivity.
  - discriminate.
  - reflexivity.
Defined.
