(* ===== verification/Relabel.v ===== *)
(** pkg/relabel/relabel.go: relabelling a label set through the builder, and
    its refinement to updates of finite maps. *)

From S2P Require Import Prelude GoString GoFmt Labels LabelsFacts.

(** * Configuration (config.RelabelConfig) *)

Inductive RelabelAction :=
| RelabelReplace | RelabelKeep | RelabelDrop | RelabelHashMod
| RelabelLabelMap | RelabelLabelDrop | RelabelLabelKeep.

#[export] Instance RelabelAction_eq_dec : EqDecision RelabelAction.
Proof. solve_decision. Defined.

(** What relabelling uses of a compiled regexp besides [MatchString]. *)
Class RegexpReplace `{Regexp} := {
  FindStringSubmatchIndex : regexp -> string -> option (list Z);
  ExpandString : regexp -> string -> string -> list Z -> string;
  ReplaceAllString : regexp -> string -> string -> string
}.

(** md5: the sixteen bytes of a digest. *)
Class MD5 := { md5_Sum : string -> list Z }.

Record RelabelConfig `{Regexp} := mkRelabelConfig {
  SourceLabels : list string; Separator : string; Regex : regexp; Modulus : Z;
  TargetLabel : string; Replacement : string; Action : RelabelAction
}.

(** [model.LabelName.IsValid]; bytes of 128 and above start runes that are
    not allowed, so looking at bytes gives the same answer. *)
Definition label_char (first : bool) (b : Z) : bool :=
  ((rune "a" <=? b) && (b <=? rune "z")) || ((rune "A" <=? b) && (b <=? rune "Z")) || (b =? rune "_") ||
  ((rune "0" <=? b) && (b <=? rune "9") && negb first).
Definition IsValid (ln : string) : bool :=
  match ln with
  | EmptyString => false
  | String c s => label_char true (rune c) && str_forall (label_char false) s
  end.

(** * [sum64] *)

Definition md5_Size : Z := 16.

(** The loop: byte [i] is shifted by [(Size - i - 1) * 8] as a [uint64], which
    gives 0 from 64 bits on. *)
Fixpoint sum64_loop (i : Z) (hash : list Z) (s : Z) : Z :=
  match hash with
  | [] => s
  | b :: hash' => sum64_loop (i + 1) hash' (Z.lor s (u64 (Z.shiftl b ((md5_Size - i - 1) * 8))))
  end.
Definition sum64 (hash : list Z) : Z := sum64_loop 0 hash 0.

(** * Relabelling *)

Section relabel.
Context `{RE : Regexp} `{RR : !RegexpReplace} `{M5 : MD5}.

(** A loop over the labels that updates the builder; [None] is a panic. *)
Fixpoint range_labels (f : Label -> Builder -> option Builder) (ls : Labels) (b : Builder) : option Builder :=
  match ls with
  | [] => Some b
  | l :: ls' => match f l b with None => None | Some b' => range_labels f ls' b' end
  end.

Definition source_value (get : string -> string) (cfg : RelabelConfig) : string :=
  str_join (Separator cfg) (map get (SourceLabels cfg)).

(** [lb.Labels()] of a builder on a set that may be nil. *)
Definition built_labels (lset : option Labels) (lb : Builder) : option Labels :=
  match del lb, add lb with
  | [], [] => lset
  | _, _ => Some (Builder_Labels lb)
  end.

(** [relabel].  A label set is [None] when it is the nil slice; the outer
    [None] is a panic: the division by a zero modulus. *)
Definition relabel (lset : option Labels) (cfg : RelabelConfig) : option (option Labels) :=
  let ls := default [] lset in
  let v := source_value (Get ls) cfg in
  let lb := NewBuilder ls in
  let labels (ob : option Builder) := built_labels lset <$> ob in
  match Action cfg with
  | RelabelDrop => if MatchString (Regex cfg) v then Some None else labels (Some lb)
  | RelabelKeep => if negb (MatchString (Regex cfg) v) then Some None else labels (Some lb)
  | RelabelReplace =>
    match FindStringSubmatchIndex (Regex cfg) v with
    | None => labels (Some lb)
    | Some indexes =>
      let target := ExpandString (Regex cfg) (TargetLabel cfg) v indexes in
      if negb (IsValid target) then labels (Del lb [TargetLabel cfg])
      else
        let res := ExpandString (Regex cfg) (Replacement cfg) v indexes in
        if (String.length res =? 0)%nat then labels (Del lb [TargetLabel cfg])
        else labels (Some (Set_ lb target res))
    end
  | RelabelHashMod =>
    if Modulus cfg =? 0 then None
    else labels (Some (Set_ lb (TargetLabel cfg) (Itoa (sum64 (md5_Sum v) mod Modulus cfg))))
  | RelabelLabelMap =>
    labels (range_labels (fun l b =>
      if MatchString (Regex cfg) (Name l)
      then Some (Set_ b (ReplaceAllString (Regex cfg) (Name l) (Replacement cfg)) (Value l))
      else Some b) ls lb)
  | RelabelLabelDrop =>
    labels (range_labels (fun l b => if MatchString (Regex cfg) (Name l) then Del b [Name l] else Some b) ls lb)
  | RelabelLabelKeep =>
    labels (range_labels (fun l b => if negb (MatchString (Regex cfg) (Name l)) then Del b [Name l] else Some b) ls lb)
  end.

(** [Process] *)
Fixpoint Process (lset : option Labels) (cfgs : list RelabelConfig) : option (option Labels) :=
  match cfgs with
  | [] => Some lset
  | cfg :: cfgs' =>
    match relabel lset cfg with
    | None => None
    | Some None => Some None
    | Some (Some ls) => Process (Some ls) cfgs'
    end
  end.

(** * Specification: updates of a finite map; [None] drops the set *)

Definition relabel_map (cfg : RelabelConfig) (m : gmap string string) : option (gmap string string) :=
  let v := source_value (fun n => default "" (m !! n)) cfg in
  let matches n := MatchString (Regex cfg) n in
  match Action cfg with
  | RelabelDrop => if matches v then None else Some m
  | RelabelKeep => if matches v then Some m else None
  | RelabelReplace =>
    match FindStringSubmatchIndex (Regex cfg) v with
    | None => Some m
    | Some idx =>
      let target := ExpandString (Regex cfg) (TargetLabel cfg) v idx in
      let res := ExpandString (Regex cfg) (Replacement cfg) v idx in
      Some (if IsValid target && negb (res =? "")%string then <[target := res]> m
            else base.delete (TargetLabel cfg) m)
    end
  | RelabelHashMod => Some (<[TargetLabel cfg := Itoa (sum64 (md5_Sum v) mod Modulus cfg)]> m)
  | RelabelLabelMap =>
    Some (foldl (fun m' l => if matches (Name l) then <[ReplaceAllString (Regex cfg) (Name l) (Replacement cfg) := Value l]> m' else m')
            m (FromMap m))
  | RelabelLabelDrop => Some (base.filter (fun kv => matches kv.1 = false) m)
  | RelabelLabelKeep => Some (base.filter (fun kv => matches kv.1 = true) m)
  end.

Fixpoint process_map (cfgs : list RelabelConfig) (m : gmap string string) : option (gmap string string) :=
  match cfgs with
  | [] => Some m
  | cfg :: cfgs' => match relabel_map cfg m with None => None | Some m' => process_map cfgs' m' end
  end.

(** The configuration check of [UnmarshalYAML]: hashmod has a modulus. *)
Definition valid_config (cfg : RelabelConfig) : Prop :=
  Action cfg = RelabelHashMod -> Modulus cfg <> 0.

(** * Refinement *)

Lemma Get_Map ls n : NoDup (names ls) -> Get ls n = default "" (Map ls !! n).
Proof.
  induction ls as [|l ls IH]; [done|]. intros N. destruct l as [k v].
  cbn [Get Name]. destruct (String.eqb_spec k n) as [->|E].
  - rewrite (proj2 (Map_lookup _ n v N)); [done|]. apply list_elem_of_here.
  - cbn in N. apply NoDup_cons in N as [_ N]. rewrite IH by done. f_equal.
    change (Map ({| Name := k; Value := v |} :: ls)) with (lift ls (<[k := v]> ∅)).
    destruct (Map ls !! n) as [w|] eqn:L.
    + symmetry. apply Map_lookup in L; [|done].
      pose proof (lift_lookup ls (<[k:=v]> ∅) _ N L) as H. exact H.
    + apply Map_lookup_None in L. rewrite lift_lookup_ne by done.
      by rewrite lookup_insert_ne.
Qed.

(** The loops are sequences of builder operations. *)
Lemma range_labels_ops f (op : Label -> list builder_op) ls b :
  (forall l b, f l b = run_ops b (op l)) -> range_labels f ls b = run_ops b (flat_map op ls).
Proof.
  intros F. revert b. induction ls as [|l ls IH]; intros b; [done|]. cbn.
  rewrite run_ops_app, F. destruct (run_ops b (op l)); [apply IH|done].
Qed.

Lemma built_ops ls os :
  wf_labels ls ->
  built_labels (Some ls) <$> run_ops (NewBuilder ls) os = Some (Some (FromMap (foldl apply_op (Map ls) os))).
Proof.
  intros W. destruct (labels_of_ops ls os W) as (b & E & L). rewrite <- L, E.
  destruct (run_ops_spec os (NewBuilder ls)) as (b' & E' & _ & B & _); [by split; [|constructor]|].
  rewrite E in E'. injection E' as <-. cbn in B |- *. f_equal.
  unfold built_labels, Builder_Labels. destruct (del b), (add b); try done. by rewrite B.
Qed.

Lemma built_del ls n :
  wf_labels ls -> built_labels (Some ls) <$> Del (NewBuilder ls) [n] = Some (Some (FromMap (base.delete n (Map ls)))).
Proof.
  intros W. pose proof (built_ops ls [OpDel [n]] W) as E. cbn [run_ops run_op] in E.
  destruct (Del (NewBuilder ls) [n]); exact E.
Qed.

(** Deleting, label by label, the names that satisfy [q]. *)
Lemma delete_loop (q : string -> bool) ls :
  NoDup (names ls) ->
  foldl apply_op (Map ls) (flat_map (fun l => if q (Name l) then [OpDel [Name l]] else []) ls) =
  base.filter (fun kv => q kv.1 = false) (Map ls).
Proof.
  intros N.
  assert (G : forall xs m k, foldl apply_op m (flat_map (fun l => if q (Name l) then [OpDel [Name l]] else []) xs) !! k =
    if decide (k ∈ names xs /\ q k = true) then None else m !! k).
  { induction xs as [|x xs IH]; intros m k; cbn.
    - case_decide as H; [|done]. destruct H as [H _]. by apply elem_of_nil in H.
    - destruct (q (Name x)) eqn:Q; cbn; rewrite IH.
      + destruct (decide (k = Name x)) as [->|NE].
        * rewrite lookup_delete_eq. destruct (decide (Name x ∈ names xs /\ _)); rewrite decide_True; try done;
            (split; [apply list_elem_of_here|done]).
        * rewrite lookup_delete_ne by done. apply decide_ext. rewrite elem_of_cons. tauto.
      + apply decide_ext. rewrite elem_of_cons. split; [tauto|]. intros [[->|] ?]; [congruence|done]. }
  apply map_eq. intros k. rewrite G. apply option_eq. intros v. rewrite map_lookup_filter_Some. cbn.
  case_decide as H.
  - split; [done|]. intros [_ Q]. destruct H as [_ H]. congruence.
  - split; [|tauto]. intros L. split; [done|]. apply not_true_is_false. intros Q. apply H. split; [|done].
    destruct (decide (k ∈ names ls)) as [|NI]; [done|]. apply Map_lookup_None in NI. congruence.
Qed.

Lemma relabel_spec ls cfg :
  wf_labels ls -> valid_config cfg ->
  relabel (Some ls) cfg = Some (FromMap <$> relabel_map cfg (Map ls)).
Proof.
  intros W V. pose proof (wf_names _ W) as N. unfold relabel, relabel_map.
  change (default [] (Some ls)) with ls. cbv zeta.
  assert (S : source_value (Get ls) cfg = source_value (fun n => default "" (Map ls !! n)) cfg).
  { unfold source_value. f_equal. apply map_ext. intros n. by apply Get_Map. }
  rewrite S. set (v := source_value _ cfg).
  assert (Id : built_labels (Some ls) <$> Some (NewBuilder ls) = Some (Some (FromMap (Map ls)))).
  { cbn. by rewrite FromMap_Map. }
  assert (Ins : forall n x, built_labels (Some ls) <$> Some (Set_ (NewBuilder ls) n x) =
                            Some (Some (FromMap (<[n := x]> (Map ls))))).
  { intros n x. apply (built_ops ls [OpSet n x] W). }
  destruct (Action cfg) eqn:A.
  - destruct (FindStringSubmatchIndex _ _) as [idx|]; [|exact Id]. cbn zeta.
    destruct (IsValid _); cbn [negb andb]; [|by rewrite built_del].
    destruct (ExpandString _ (Replacement cfg) _ _) as [|c s]; cbn [String.length Nat.eqb]; [by rewrite built_del|].
    rewrite Ins. done.
  - destruct (MatchString _ _); [exact Id|done].
  - destruct (MatchString _ _); [done|exact Id].
  - destruct (Z.eqb_spec (Modulus cfg) 0) as [E|E]; [by apply V in E|]. by rewrite Ins.
  - rewrite (range_labels_ops _ (fun l => if MatchString (Regex cfg) (Name l) then
       [OpSet (ReplaceAllString (Regex cfg) (Name l) (Replacement cfg)) (Value l)] else []))
      by (intros l b; by destruct (MatchString _ _)).
    rewrite built_ops by done. cbn. do 2 f_equal. rewrite (FromMap_Map ls) by done.
    generalize (Map ls). clear. induction ls as [|l ls IH]; intros m; cbn; [done|].
    rewrite foldl_app, IH. by destruct (MatchString _ _).
  - rewrite (range_labels_ops _ (fun l => if MatchString (Regex cfg) (Name l) then [OpDel [Name l]] else [])).
    + rewrite built_ops by done. cbn. do 3 f_equal. by apply delete_loop.
    + intros l b. destruct (MatchString _ _); [|done]. cbn. by destruct (Del1 b (Name l)).
  - rewrite (range_labels_ops _ (fun l => if negb (MatchString (Regex cfg) (Name l)) then [OpDel [Name l]] else [])).
    + rewrite built_ops by done. cbn. do 3 f_equal.
      rewrite (delete_loop (fun n => negb (MatchString (Regex cfg) n))) by done.
      apply map_filter_ext. intros k x _. cbn. by destruct (MatchString _ _).
    + intros l b. destruct (MatchString _ _); [done|]. cbn. by destruct (Del1 b (Name l)).
Qed.

Lemma Process_spec ls cfgs :
  wf_labels ls -> Forall valid_config cfgs -> Process (Some ls) cfgs = Some (FromMap <$> process_map cfgs (Map ls)).
Proof.
  intros W V. revert ls W. induction V as [|cfg cfgs Vc V IH]; intros ls W; cbn; [by rewrite FromMap_Map|].
  rewrite relabel_spec by done. destruct (relabel_map cfg (Map ls)) as [m|]; cbn; [|done].
  rewrite IH by apply FromMap_wf. by rewrite Map_FromMap.
Qed.

(** C32: [Process] refines map updates: on a well-formed label set and valid
    configurations it never panics, drops exactly the sets the map-level
    actions drop, and otherwise returns the sorted form of the updated map. *)
Theorem Process_refines (ls : Labels) (cfgs : list RelabelConfig)
  (W : wf_labels ls) (V : Forall valid_config cfgs) :
  Process (Some ls) cfgs = Some (FromMap <$> process_map cfgs (Map ls)).
Proof. by apply Process_spec. Qed.

(** An empty replacement deletes the label named by the template, not by
    its expansion: when the two differ, the label the action addresses keeps
    its value. *)
Theorem replace_empty_keeps_target (ls : Labels) (cfg : RelabelConfig) (idx : list Z) (W : wf_labels ls)
  (A : Action cfg = RelabelReplace)
  (F : FindStringSubmatchIndex (Regex cfg) (source_value (Get ls) cfg) = Some idx)
  (E : ExpandString (Regex cfg) (Replacement cfg) (source_value (Get ls) cfg) idx = "")
  (N : ExpandString (Regex cfg) (TargetLabel cfg) (source_value (Get ls) cfg) idx <> TargetLabel cfg) :
  exists ls', relabel (Some ls) cfg = Some (Some ls') /\
    let target := ExpandString (Regex cfg) (TargetLabel cfg) (source_value (Get ls) cfg) idx in
    Map ls' !! target = Map ls !! target.
Proof.
  assert (S : source_value (Get ls) cfg = source_value (fun n => default "" (Map ls !! n)) cfg).
  { unfold source_value. f_equal. apply map_ext. intros n. by apply Get_Map, wf_names. }
  rewrite relabel_spec; [|done|intros C; congruence]. unfold relabel_map. rewrite A, <- S, F, E.
  rewrite andb_false_r. cbn. eexists. split; [done|]. rewrite Map_FromMap. by apply lookup_delete_ne.
Qed.
End relabel.

(** * [sum64] reads the low half of the digest *)

(** The big-endian number of a list of bytes. *)
Definition big_endian (bs : list Z) : Z := foldl (fun n b => n * 256 + b) 0 bs.

Lemma land_high_low a b n : 0 <= n -> 0 <= b < 2 ^ n -> Z.land (a * 2 ^ n) b = 0.
Proof.
  intros Hn Hb. apply Z.bits_inj'. intros i Hi. rewrite Z.land_spec, Z.bits_0.
  destruct (Z.lt_ge_cases i n).
  - rewrite <- Z.shiftl_mul_pow2, Z.shiftl_spec_low by lia. done.
  - replace (Z.testbit b i) with false; [apply andb_false_r|]. symmetry.
    destruct (Z.eq_dec b 0) as [->|]; [apply Z.bits_0|].
    apply Z.bits_above_log2; [lia|]. apply Z.log2_lt_pow2; [lia|].
    apply Z.lt_le_trans with (2 ^ n); [lia|]. by apply Z.pow_le_mono_r.
Qed.

Lemma lor_high_low a b n : 0 <= n -> 0 <= b < 2 ^ n -> Z.lor (a * 2 ^ n) b = a * 2 ^ n + b.
Proof.
  intros Hn Hb. pose proof (land_high_low a b n Hn Hb) as L.
  by rewrite Z.add_nocarry_lxor, Z.lxor_lor.
Qed.

Lemma big_endian_acc bs n : foldl (fun n b => n * 256 + b) n bs = n * 256 ^ Z.of_nat (length bs) + big_endian bs.
Proof.
  unfold big_endian. revert n. induction bs as [|b bs IH]; intros n; [cbn; lia|].
  cbn [foldl length]. rewrite IH, (IH (0 * 256 + b)), Nat2Z.inj_succ, Z.pow_succ_r by lia. lia.
Qed.

Lemma big_endian_cons b bs : big_endian (b :: bs) = b * 256 ^ Z.of_nat (length bs) + big_endian bs.
Proof. unfold big_endian at 1. cbn [foldl]. rewrite big_endian_acc. f_equal. Qed.

Lemma big_endian_range bs : Forall (fun b => 0 <= b < 256) bs -> 0 <= big_endian bs < 256 ^ Z.of_nat (length bs).
Proof.
  induction 1 as [|b bs Hb _ IH]; [done|]. rewrite big_endian_cons. cbn [length].
  rewrite Nat2Z.inj_succ, Z.pow_succ_r by lia. nia.
Qed.

Lemma pow256 n : 0 <= n -> 256 ^ n = 2 ^ (n * 8).
Proof. intros. rewrite Z.mul_comm, Z.pow_mul_r by lia. done. Qed.

Lemma sum64_loop_spec hash k :
  Forall (fun b => 0 <= b < 256) hash -> (length hash <= 16)%nat ->
  0 <= k -> k * 256 ^ Z.of_nat (length hash) < 2 ^ 64 ->
  sum64_loop (16 - Z.of_nat (length hash)) hash (k * 256 ^ Z.of_nat (length hash)) =
  (k * 256 ^ Z.of_nat (length hash) + big_endian hash) mod 2 ^ 64.
Proof.
  intros F. revert k. induction F as [|b hash Hb F IH]; intros k L K B.
  - cbn in *. rewrite Z.mod_small; lia.
  - rewrite big_endian_cons. cbn [sum64_loop length] in *.
    set (m := Z.of_nat (length hash)) in *.
    replace (Z.of_nat (S (length hash))) with (m + 1) in * by lia.
    replace (16 - (m + 1) + 1) with (16 - m) by lia.
    unfold md5_Size. replace (16 - (16 - (m + 1)) - 1) with m by lia.
    rewrite Z.shiftl_mul_pow2 by lia. rewrite <- pow256 by lia.
    rewrite Z.pow_add_r, Z.pow_1_r in * by lia.
    assert (P : 0 < 256 ^ m) by (apply Z.pow_pos_nonneg; lia).
    pose proof (big_endian_range hash F) as R. fold m in R.
    destruct (Z.lt_ge_cases m 8) as [M|M].
    + assert (X : 256 * 256 ^ m <= 2 ^ 64).
      { change (2 ^ 64) with (256 ^ 8). rewrite <- Z.pow_succ_r by lia. apply Z.pow_le_mono_r; lia. }
      unfold u64. rewrite (Z.mod_small (b * 256 ^ m)) by nia.
      replace (k * (256 ^ m * 256)) with (k * 2 ^ ((m + 1) * 8)) by
        (rewrite <- pow256, Z.pow_add_r by lia; lia).
      assert (E8 : 2 ^ ((m + 1) * 8) = 256 ^ m * 256) by (rewrite <- pow256, Z.pow_add_r by lia; lia).
      rewrite lor_high_low by nia. rewrite E8.
      replace (k * (256 ^ m * 256) + b * 256 ^ m) with ((k * 256 + b) * 256 ^ m) by lia.
      assert (E64 : exists j, 2 ^ 64 = j * (256 ^ m * 256)).
      { exists (256 ^ (8 - (m + 1))). change (2 ^ 64) with (256 ^ 8).
        replace 8 with (8 - (m + 1) + (m + 1)) at 1 by lia.
        rewrite Z.pow_add_r, (Z.pow_add_r _ m) by lia. lia. }
      destruct E64 as [j E64].
      rewrite IH; [f_equal; lia|lia|lia|]. rewrite E64 in *.
      assert (k < j) by (apply (Z.mul_lt_mono_pos_r (256 ^ m * 256)); lia).
      replace (j * (256 ^ m * 256)) with (j * 256 * 256 ^ m) by lia.
      apply Z.mul_lt_mono_pos_r; lia.
    + assert (X : 2 ^ 64 <= 256 ^ m).
      { change (2 ^ 64) with (256 ^ 8). apply Z.pow_le_mono_r; lia. }
      assert (k = 0) as -> by nia. rewrite !Z.mul_0_l, Z.add_0_l.
      assert (D : (b * 256 ^ m) mod 2 ^ 64 = 0).
      { replace (256 ^ m) with (256 ^ (m - 8) * 2 ^ 64).
        - rewrite Z.mul_assoc. apply Z.mod_mul. lia.
        - change (2 ^ 64) with (256 ^ 8). rewrite <- Z.pow_add_r by lia. f_equal. lia. }
      unfold u64. rewrite D. change (Z.lor 0 0) with 0.
      specialize (IH 0 ltac:(lia) ltac:(lia) ltac:(lia)). rewrite !Z.mul_0_l, Z.add_0_l in IH.
      rewrite IH. rewrite (Z.add_mod (b * 256 ^ m)) by lia. rewrite D, Z.add_0_l, Z.mod_mod by lia. done.
Qed.

(** [sum64] is the big-endian number of the digest's last eight bytes,
    the whole digest modulo [2^64]; the shifts past 64 bits drop the rest. *)
Theorem sum64_spec (hash : list Z) (L : length hash = 16%nat) (F : Forall (fun b => 0 <= b < 256) hash) :
  sum64 hash = big_endian hash mod 2 ^ 64 /\ 0 <= sum64 hash < 2 ^ 64.
Proof.
  pose proof (sum64_loop_spec hash 0 F ltac:(lia) ltac:(lia) ltac:(lia)) as E.
  rewrite L in E. unfold sum64. change (16 - Z.of_nat 16) with 0 in E. rewrite !Z.mul_0_l, Z.add_0_l in E.
  rewrite E. split; [done|]. apply Z.mod_pos_bound. lia.
Qed.

Lemma sum64_spec_witness :
  sum64 [1; 2; 3; 4; 5; 6; 7; 8; 0; 0; 0; 0; 0; 0; 1; 2] = 258.
Proof.
  rewrite (proj1 (sum64_spec [1; 2; 3; 4; 5; 6; 7; 8; 0; 0; 0; 0; 0; 0; 1; 2] eq_refl
    ltac:(repeat constructor; lia))). reflexivity.
Defined.

(** * Witnesses *)

(** Literal expressions: they match one string, and ["$0"] expands to it. *)
Definition literal_regexp : Regexp := {|
  regexp := string; regexp_Compile s := Ok s; MatchString r s := (r =? s)%string |}.
Definition literal_replace : @RegexpReplace literal_regexp :=
  @Build_RegexpReplace literal_regexp
    (fun r s : string => if (r =? s)%string then Some [0; Z.of_nat (String.length s)] else None)
    (fun (r tmpl src : string) (idx : list Z) => if (tmpl =? "$0")%string then src else tmpl)
    (fun r src tmpl : string => if (r =? src)%string then tmpl else src).
Definition zero_md5 : MD5 := {| md5_Sum _ := repeat 0 16 |}.

Definition rename_a : @RelabelConfig literal_regexp :=
  @mkRelabelConfig literal_regexp [] ";" "a" 0 "" "z" RelabelLabelMap.
Definition drop_a : @RelabelConfig literal_regexp :=
  @mkRelabelConfig literal_regexp [] ";" "a" 0 "" "" RelabelLabelDrop.
Definition sample_labels : Labels := [mkLabel "a" "1"; mkLabel "b" "2"].

Lemma Process_refines_witness :
  @Process literal_regexp literal_replace zero_md5 (Some sample_labels) [rename_a; drop_a] =
  Some (Some [mkLabel "b" "2"; mkLabel "z" "1"]).
Proof.
  assert (W : wf_labels sample_labels) by repeat constructor.
  assert (V : Forall valid_config [rename_a; drop_a]) by (repeat constructor; discriminate).
  rewrite (@Process_refines literal_regexp literal_replace zero_md5 sample_labels [rename_a; drop_a] W V).
  vm_compute. reflexivity.
Defined.

(** The template ["$0"] expands to the source value, the name of a label. *)
Definition clear_target : @RelabelConfig literal_regexp :=
  @mkRelabelConfig literal_regexp ["t"] ";" "b" 0 "$0" "" RelabelReplace.

Lemma replace_empty_keeps_target_witness :
  exists ls', @relabel literal_regexp literal_replace zero_md5
    (Some [mkLabel "b" "2"; mkLabel "t" "b"]) clear_target = Some (Some ls') /\ Map ls' !! "b" = Some "2".
Proof.
  assert (W : wf_labels [mkLabel "b" "2"; mkLabel "t" "b"]) by repeat constructor.
  destruct (@replace_empty_keeps_target literal_regexp literal_replace zero_md5 _ clear_target [0; 1] W
    eq_refl eq_refl eq_refl ltac:(discriminate)) as (ls' & E & T).
  exists ls'. split; [exact E|]. exact T.
Defined.
