(* ===== verification/MapRelabel.v ===== *)
(** relabel/relabel.go: relabelling of a label set that is a Go map, the copy
    of the relabelling code that remote storage and discovery use, and its
    equivalence to the one on sorted label lists (pkg/relabel). *)

From S2P Require Import Prelude GoString GoFmt Labels LabelsFacts Relabel.

(** model.LabelSet *)
Notation LabelSet := (gmap string string) (only parsing).

Section map_relabel.
Context `{RE : Regexp} `{RR : !RegexpReplace} `{M5 : MD5}.

(** The order in which [range] visits a map: Go leaves it open. *)
Variable range_map : gmap string string -> list (string * string).
Hypothesis range_map_perm : forall m, range_map m ≡ₚ map_to_list m.

(** The value of a source label, the empty string when it is missing. *)
Definition lookup_label (labels : LabelSet) (ln : string) : string := default "" (labels !! ln).

(** A loop that deletes the visited names that satisfy [q]. *)
Definition delete_range (q : string -> bool) (labels : LabelSet) : LabelSet :=
  foldl (fun ls kv => if q kv.1 then base.delete kv.1 ls else ls) labels (range_map labels).

(** [relabel]: [Some None] is the nil set of a dropped target, [None] the
    panic of a division by a zero modulus. *)
Definition relabel_set (labels : LabelSet) (cfg : RelabelConfig) : option (option LabelSet) :=
  let val := source_value (lookup_label labels) cfg in
  match Action cfg with
  | RelabelDrop => if MatchString (Regex cfg) val then Some None else Some (Some labels)
  | RelabelKeep => if negb (MatchString (Regex cfg) val) then Some None else Some (Some labels)
  | RelabelReplace =>
    match FindStringSubmatchIndex (Regex cfg) val with
    | None => Some (Some labels)
    | Some indexes =>
      let target := ExpandString (Regex cfg) (TargetLabel cfg) val indexes in
      if negb (IsValid target) then Some (Some (base.delete (TargetLabel cfg) labels))
      else
        let res := ExpandString (Regex cfg) (Replacement cfg) val indexes in
        if (String.length res =? 0)%nat then Some (Some (base.delete (TargetLabel cfg) labels))
        else Some (Some (<[target := res]> labels))
    end
  | RelabelHashMod =>
    if Modulus cfg =? 0 then None
    else Some (Some (<[TargetLabel cfg := Itoa (sum64 (md5_Sum val) mod Modulus cfg)]> labels))
  | RelabelLabelMap =>
    Some (Some (foldl (fun out kv =>
      if MatchString (Regex cfg) kv.1
      then <[ReplaceAllString (Regex cfg) kv.1 (Replacement cfg) := kv.2]> out
      else out) labels (range_map labels)))
  | RelabelLabelDrop => Some (Some (delete_range (MatchString (Regex cfg)) labels))
  | RelabelLabelKeep => Some (Some (delete_range (fun ln => negb (MatchString (Regex cfg) ln)) labels))
  end.

(** [Process] *)
Fixpoint process_set (labels : LabelSet) (cfgs : list RelabelConfig) : option (option LabelSet) :=
  match cfgs with
  | [] => Some (Some labels)
  | cfg :: cfgs' =>
    match relabel_set labels cfg with
    | None => None
    | Some None => Some None
    | Some (Some labels') => process_set labels' cfgs'
    end
  end.

(** * Independence of the order of iteration *)

Lemma delete_range_spec q m : delete_range q m = base.filter (fun kv => q kv.1 = false) m.
Proof.
  assert (G : forall xs ls k, foldl (fun ls (kv : string * string) => if q kv.1 then base.delete kv.1 ls else ls) ls xs !! k =
    if decide (k ∈ xs.*1 /\ q k = true) then None else (ls : LabelSet) !! k).
  { induction xs as [|x xs IH]; intros ls k; cbn.
    - case_decide as H; [|done]. destruct H as [H _]. by apply elem_of_nil in H.
    - rewrite IH. destruct (q x.1) eqn:Q; [destruct (decide (k = x.1)) as [->|NE]|].
      + rewrite lookup_delete_eq, (decide_True (P := x.1 ∈ x.1 :: _ /\ _)); [by case_decide|]. split; [apply list_elem_of_here|done].
      + rewrite lookup_delete_ne by done. apply decide_ext. rewrite elem_of_cons. tauto.
      + apply decide_ext. rewrite elem_of_cons. split; [tauto|]. intros [[->|] ?]; [congruence|done]. }
  unfold delete_range. apply map_eq. intros k. rewrite G. apply option_eq. intros v.
  rewrite map_lookup_filter_Some. cbn. case_decide as H.
  - split; [done|]. intros [_ Q]. destruct H as [_ H]. congruence.
  - split; [|tauto]. intros L. split; [done|]. apply not_true_is_false. intros Q. apply H. split; [|done].
    apply list_elem_of_fmap. exists (k, v). split; [done|]. rewrite range_map_perm. by apply elem_of_map_to_list.
Qed.

(** No two labels of the set that the expression matches get the same new
    name: otherwise the result of labelmap depends on the order. *)
Definition unambiguous (cfg : RelabelConfig) (m : LabelSet) : Prop :=
  Action cfg = RelabelLabelMap ->
  forall k k', is_Some (m !! k) -> is_Some (m !! k') ->
    MatchString (Regex cfg) k = true -> MatchString (Regex cfg) k' = true ->
    ReplaceAllString (Regex cfg) k (Replacement cfg) = ReplaceAllString (Regex cfg) k' (Replacement cfg) -> k = k'.

Fixpoint unambiguous_all (cfgs : list RelabelConfig) (m : LabelSet) : Prop :=
  match cfgs with
  | [] => True
  | cfg :: cfgs' => unambiguous cfg m /\
    match relabel_map cfg m with None => True | Some m' => unambiguous_all cfgs' m' end
  end.

(** Renaming loops over permutations of the same entries agree. *)
Lemma rename_loop_perm (q : string -> bool) (f : string -> string) (xs ys : list (string * string)) (m : LabelSet) :
  NoDup xs.*1 ->
  (forall k k', k ∈ xs.*1 -> k' ∈ xs.*1 -> q k = true -> q k' = true -> f k = f k' -> k = k') -> xs ≡ₚ ys ->
  foldl (fun out kv => if q kv.1 then <[f kv.1 := kv.2]> out else out) m xs =
  foldl (fun out kv => if q kv.1 then <[f kv.1 := kv.2]> out else out) m ys.
Proof.
  intros N J P. revert m N J. induction P as [|x xs ys P IH|x y xs|xs ys zs P1 IH1 P2 IH2]; intros m N J.
  - done.
  - cbn in N |- *. apply NoDup_cons in N as [_ N]. apply IH; [done|].
    intros k k' H H'. apply J; by apply elem_of_cons; right.
  - cbn in N |- *. f_equal. apply NoDup_cons in N as [N _].
    destruct (q y.1) eqn:Qy, (q x.1) eqn:Qx; try done. apply insert_insert_ne.
    intros E. apply N. rewrite (J y.1 x.1); [apply list_elem_of_here|..]; try done; cbn; set_solver.
  - rewrite IH1 by done. apply IH2; [by rewrite <- P1|]. intros k k'. rewrite <- P1. apply J.
Qed.

Lemma relabel_set_spec cfg m :
  valid_config cfg -> unambiguous cfg m -> relabel_set m cfg = Some (relabel_map cfg m).
Proof.
  intros V U. unfold relabel_set, relabel_map, lookup_label, unambiguous in *. destruct (Action cfg) eqn:A.
  - destruct (FindStringSubmatchIndex _ _) as [idx|]; [|done]. destruct (IsValid _); cbn; [|done].
    by destruct (ExpandString _ (Replacement cfg) _ _).
  - by destruct (MatchString _ _).
  - by destruct (MatchString _ _).
  - destruct (Z.eqb_spec (Modulus cfg) 0) as [E|E]; [by apply V in E|done].
  - do 2 f_equal.
    transitivity (foldl (fun (out : LabelSet) (kv : string * string) => if MatchString (Regex cfg) kv.1
      then <[ReplaceAllString (Regex cfg) kv.1 (Replacement cfg) := kv.2]> out else out) m
      (map (fun l => (Name l, Value l)) (FromMap m))).
    + assert (P : range_map m ≡ₚ map (fun l => (Name l, Value l)) (FromMap m)).
      { rewrite range_map_perm. unfold FromMap, New. rewrite sort_labels_perm, map_map.
        rewrite (map_ext _ id), map_id; [done|]. by intros [k v]. }
      apply (rename_loop_perm (MatchString (Regex cfg)) (fun k => ReplaceAllString (Regex cfg) k (Replacement cfg))); [| |exact P].
      * rewrite range_map_perm. apply NoDup_fst_map_to_list.
      * intros k k' H H'. rewrite range_map_perm in H, H'.
        apply list_elem_of_fmap in H as ([? v] & -> & H), H' as ([? v'] & -> & H').
        apply elem_of_map_to_list in H, H'. apply U; [done|by eexists..].
    + generalize (FromMap m). clear. intros ls. revert m. induction ls as [|l ls IH]; intros m; [done|]. cbn. apply IH.
  - f_equal. f_equal. apply delete_range_spec.
  - do 2 f_equal. rewrite delete_range_spec. apply map_filter_ext. intros k x _. cbn. by destruct (MatchString _ _).
Qed.

Lemma process_set_spec cfgs m :
  Forall valid_config cfgs -> unambiguous_all cfgs m -> process_set m cfgs = Some (process_map cfgs m).
Proof.
  intros V. revert m. induction V as [|cfg cfgs Vc V IH]; intros m U; [done|]. cbn in U |- *. destruct U as [U1 U2].
  rewrite relabel_set_spec by done. destruct (relabel_map cfg m) as [m'|]; [|done]. by apply IH.
Qed.

(** The two copies of the relabelling code agree: on the map of a
    well-formed label list, whatever the order in which maps are iterated, the
    one on maps drops the target exactly when the one on label lists does and
    otherwise returns the map of its result, as long as no labelmap step
    renames two labels of the set to one name. *)
Theorem relabel_copies_agree ls cfgs
    (W : wf_labels ls) (V : Forall valid_config cfgs) (U : unambiguous_all cfgs (Map ls)) :
  exists r, Process (Some ls) cfgs = Some r /\ process_set (Map ls) cfgs = Some (Map <$> r).
Proof.
  exists (FromMap <$> process_map cfgs (Map ls)). split; [by apply Process_spec|].
  rewrite process_set_spec by done. destruct (process_map cfgs (Map ls)) as [m|]; [|done]. cbn. by rewrite Map_FromMap.
Qed.
End map_relabel.

(** Iteration from the last entry to the first. *)
Definition backwards (m : gmap string string) : list (string * string) := rev (map_to_list m).

Lemma relabel_copies_agree_witness :
  @process_set literal_regexp literal_replace zero_md5 backwards (Map sample_labels) [rename_a; drop_a] =
  Some (Some (Map [mkLabel "b" "2"; mkLabel "z" "1"])).
Proof.
  assert (W : wf_labels sample_labels) by repeat constructor.
  assert (V : Forall valid_config [rename_a; drop_a]) by (repeat constructor; discriminate).
  assert (P : forall m : gmap string string, backwards m ≡ₚ map_to_list m) by (intros m; symmetry; apply Permutation_rev).
  assert (U : @unambiguous_all literal_regexp literal_replace zero_md5 [rename_a; drop_a] (Map sample_labels)).
  { split; [|split; [discriminate|done]]. intros _ k k' _ _ E E' _.
    change (("a" =? k)%string = true) in E. change (("a" =? k')%string = true) in E'.
    apply String.eqb_eq in E, E'. congruence. }
  destruct (@relabel_copies_agree literal_regexp literal_replace zero_md5 backwards P sample_labels [rename_a; drop_a] W V U)
    as (r & E & ->).
  vm_compute in E. injection E as <-. reflexivity.
Defined.
