(* ===== verification/Heap.v ===== *)
(** The parts of container/heap that storage/fanout.go and promql/engine.go
    use.  A heap is the slice of the code, and [less] compares two of its
    elements. *)

From S2P Require Import Prelude.
From Stdlib Require Import Sorting.Permutation.

(** The order of a [less] that is a strict weak order. *)
Definition not_less {T} (less : T -> T -> bool) (a b : T) : Prop := less b a = false.

Section heap.
Context {T : Type} {IT : Inhabited T}.

Notation heap := (list T) (only parsing).

Definition get (h : heap) (k : nat) : T := nth k h inhabitant.

(** [Swap] *)
Definition swap (h : heap) (a b : nat) : heap := <[a := get h b]> (<[b := get h a]> h).

Variable less : T -> T -> bool.

(** [heap.up] *)
Fixpoint up (fuel : nat) (h : heap) (j : nat) : heap :=
  match fuel with
  | O => h
  | S f => let p := ((j - 1) / 2)%nat in
           if (p =? j)%nat || negb (less (get h j) (get h p)) then h
           else up f (swap h p j) p
  end.

(** [heap.down] on the first [n] elements. *)
Fixpoint down (fuel : nat) (h : heap) (k n : nat) : heap :=
  match fuel with
  | O => h
  | S f =>
    let j1 := (2 * k + 1)%nat in
    if (n <=? j1)%nat then h
    else
      let j2 := S j1 in
      let j := if (j2 <? n)%nat && less (get h j2) (get h j1) then j2 else j1 in
      if negb (less (get h j) (get h k)) then h
      else down f (swap h k j) j n
  end.

(** [heap.Push] *)
Definition Push (h : heap) (x : T) : heap := up (S (length h)) (h ++ [x]) (length h).

(** [heap.Pop]: the smallest element and the rest. *)
Definition Pop (h : heap) : option (T * heap) :=
  match h with
  | [] => None
  | _ => let n := (length h - 1)%nat in
         let h := down (length h) (swap h 0 n) 0 n in
         Some (get h n, take n h)
  end.

(** * Correctness *)

(** The order of the heap: [less] decides it up to elements that are equal in
    the order, on which its answer does not matter. *)
Variable le : T -> T -> Prop.
Hypothesis le_trans : forall a b c, le a b -> le b c -> le a c.
Hypothesis less_le : forall a b, less a b = true -> le a b.
Hypothesis less_false : forall a b, less a b = false -> le b a.

Lemma le_refl a : le a a.
Proof. destruct (less a a) eqn:E; [by apply less_le|by apply less_false]. Qed.

Lemma get_insert h k x j : (k < length h)%nat -> get (<[k := x]> h) j = if decide (j = k) then x else get h j.
Proof.
  intros L. unfold get. rewrite !nth_lookup. case_decide as D; [subst|].
  - by rewrite list_lookup_insert_eq.
  - by rewrite list_lookup_insert_ne.
Qed.

Lemma get_swap h a b j : (a < length h)%nat -> (b < length h)%nat ->
  get (swap h a b) j = if decide (j = a) then get h b else if decide (j = b) then get h a else get h j.
Proof. intros A B. unfold swap. rewrite !get_insert by (rewrite ?length_insert; done). done. Qed.

Lemma swap_length h a b : length (swap h a b) = length h.
Proof. unfold swap. by rewrite !length_insert. Qed.

Lemma swap_perm h a b : (a < length h)%nat -> (b < length h)%nat -> swap h a b ≡ₚ h.
Proof.
  intros A B. unfold swap, get. rewrite !nth_lookup.
  destruct (lookup_lt_is_Some_2 h a A) as [x Hx], (lookup_lt_is_Some_2 h b B) as [y Hy].
  rewrite Hx, Hy. by apply Permutation_insert_swap.
Qed.

Lemma up_length f h j : length (up f h j) = length h.
Proof.
  revert h j. induction f as [|f IH]; intros h j; cbn [up]; [done|].
  case_match; [done|]. by rewrite IH, swap_length.
Qed.

Lemma up_perm f h j : (j < length h)%nat -> up f h j ≡ₚ h.
Proof.
  revert h j. induction f as [|f IH]; intros h j L; cbn [up]; [done|].
  assert (P : ((j - 1) / 2 < length h)%nat).
  { apply Nat.Div0.div_lt_upper_bound. lia. }
  case_match; [done|]. rewrite IH by (by rewrite swap_length). by apply swap_perm.
Qed.

Lemma down_length f h k n : length (down f h k n) = length h.
Proof.
  revert h k. induction f as [|f IH]; intros h k; cbn [down]; [done|].
  case_match; [done|]. case_match; [done|]. by rewrite IH, swap_length.
Qed.

(** The child [down] moves to. *)
Definition min_child (h : heap) (k n : nat) : nat :=
  if (S (2 * k + 1) <? n)%nat && less (get h (S (2 * k + 1))) (get h (2 * k + 1)) then S (2 * k + 1) else (2 * k + 1)%nat.

Lemma min_child_bounds h k n : (2 * k + 1 < n)%nat -> (k < min_child h k n < n)%nat /\ ((min_child h k n - 1) / 2 = k)%nat.
Proof.
  intros L. unfold min_child. destruct (Nat.ltb_spec (S (2 * k + 1)) n); cbn [andb];
    [destruct (less _ _)|].
  - split; [lia|]. symmetry. apply Nat.div_unique with 1%nat; lia.
  - split; [lia|]. symmetry. apply Nat.div_unique with 0%nat; lia.
  - split; [lia|]. symmetry. apply Nat.div_unique with 0%nat; lia.
Qed.

Lemma down_perm f h k n : (n <= length h)%nat -> down f h k n ≡ₚ h.
Proof.
  revert h k. induction f as [|f IH]; intros h k L; cbn [down]; [done|].
  destruct (Nat.leb_spec n (2 * k + 1)); [done|]. fold (min_child h k n).
  pose proof (min_child_bounds h k n ltac:(lia)). case_match; [done|].
  rewrite IH by (by rewrite swap_length). apply swap_perm; lia.
Qed.

(** [down] leaves what lies beyond [n]. *)
Lemma down_beyond f h k n j : (n <= length h)%nat -> (n <= j)%nat -> get (down f h k n) j = get h j.
Proof.
  revert h k. induction f as [|f IH]; intros h k L J; cbn [down]; [done|].
  destruct (Nat.leb_spec n (2 * k + 1)); [done|]. fold (min_child h k n).
  pose proof (min_child_bounds h k n ltac:(lia)). case_match; [done|].
  rewrite IH by (rewrite ?swap_length; done). rewrite get_swap by lia.
  repeat case_decide; try done; lia.
Qed.

(** The heap order on the first [n] elements. *)
Definition heap_upto (n : nat) (h : heap) : Prop :=
  forall j, (0 < j < n)%nat -> le (get h ((j - 1) / 2)) (get h j).
Definition is_heap (h : heap) : Prop := heap_upto (length h) h.

Lemma parent_lt j : (0 < j)%nat -> ((j - 1) / 2 < j)%nat.
Proof. intros. apply Nat.Div0.div_lt_upper_bound. lia. Qed.

Lemma heap_root h n j : heap_upto n h -> (j < n)%nat -> le (get h 0) (get h j).
Proof.
  intros H. induction j as [j IH] using lt_wf_ind. intros L.
  destruct (Nat.eq_dec j 0) as [->|N]; [apply le_refl|].
  pose proof (parent_lt j ltac:(lia)). eapply le_trans; [|apply H; lia]. apply IH; lia.
Qed.

(** The order broken only between [j] and its parent. *)
Definition up_inv (h : heap) (j : nat) : Prop :=
  (forall c, (0 < c < length h)%nat -> c <> j -> le (get h ((c - 1) / 2)) (get h c)) /\
  (forall c, (0 < c < length h)%nat -> ((c - 1) / 2 = j)%nat -> (0 < j)%nat -> le (get h ((j - 1) / 2)) (get h c)).

Lemma up_heap f h j : (j < f)%nat -> (j < length h)%nat -> up_inv h j -> is_heap (up f h j).
Proof.
  revert h j. induction f as [|f IH]; intros h j F L [I1 I2]; [lia|]. cbn [up].
  set (p := ((j - 1) / 2)%nat).
  destruct (Nat.eqb_spec p j) as [E|E]; cbn [orb].
  { assert (j = 0)%nat by (destruct j; [done|]; pose proof (parent_lt (S j) ltac:(lia)); lia).
    intros c C. apply I1; [done|lia]. }
  assert (J : (0 < j)%nat) by (destruct j; [by unfold p in E|lia]).
  pose proof (parent_lt j J) as PL. fold p in PL.
  destruct (less (get h j) (get h p)) eqn:LS; cbn [negb].
  - apply IH; [lia|rewrite swap_length; lia|]. split; rewrite swap_length; intros c C.
    + intros NC. rewrite !get_swap by lia.
      destruct (decide (c = p)) as [|]; [done|]. destruct (decide (c = j)) as [->|].
      * fold p. rewrite decide_True by done. by apply less_le.
      * destruct (decide (((c - 1) / 2)%nat = p)) as [EP|].
        -- apply le_trans with (get h p); [by apply less_le|]. rewrite <- EP. by apply I1.
        -- destruct (decide (((c - 1) / 2)%nat = j)) as [EJ|]; [|by apply I1].
           fold p in I2. by apply I2.
    + intros EP P0. rewrite !get_swap by lia.
      pose proof (parent_lt p P0). rewrite (decide_False (P := ((p - 1) / 2)%nat = p)) by lia.
      rewrite (decide_False (P := ((p - 1) / 2)%nat = j)) by lia.
      assert (c <> p) by (pose proof (parent_lt c ltac:(lia)); lia).
      rewrite decide_False by done.
      assert (LP : le (get h ((p - 1) / 2)) (get h p)) by (apply I1; lia).
      destruct (decide (c = j)); [done|]. eapply le_trans; [exact LP|]. rewrite <- EP. by apply I1.
  - intros c C. destruct (Nat.eq_dec c j) as [->|]; [|by apply I1]. by apply less_false.
Qed.

(** The order broken only between [k] and its children. *)
Definition down_inv (n : nat) (h : heap) (k : nat) : Prop :=
  (forall c, (0 < c < n)%nat -> ((c - 1) / 2 <> k)%nat -> le (get h ((c - 1) / 2)) (get h c)) /\
  (forall c, (0 < c < n)%nat -> ((c - 1) / 2 = k)%nat -> (0 < k)%nat -> le (get h ((k - 1) / 2)) (get h c)).

Lemma child_cases c k : (0 < c)%nat -> ((c - 1) / 2 = k)%nat -> c = (2 * k + 1)%nat \/ c = S (2 * k + 1).
Proof.
  intros C E. pose proof (Nat.div_mod (c - 1) 2 ltac:(lia)).
  pose proof (Nat.mod_upper_bound (c - 1) 2 ltac:(lia)). lia.
Qed.

Lemma min_child_le h k n c :
  (2 * k + 1 < n)%nat -> (0 < c < n)%nat -> ((c - 1) / 2 = k)%nat -> le (get h (min_child h k n)) (get h c).
Proof.
  intros L C E. unfold min_child.
  destruct (Nat.ltb_spec (S (2 * k + 1)) n) as [L2|L2]; cbn [andb].
  - destruct (less _ _) eqn:LS; destruct (child_cases c k ltac:(lia) E) as [-> | ->];
      [by apply less_le|apply le_refl|apply le_refl|by apply less_false].
  - destruct (child_cases c k ltac:(lia) E) as [-> | ->]; [apply le_refl|lia].
Qed.

Lemma down_heap f h k n :
  (n <= f + k)%nat -> (n <= length h)%nat -> down_inv n h k -> heap_upto n (down f h k n).
Proof.
  revert h k. induction f as [|f IH]; intros h k F L [I1 I2].
  - cbn [down]. intros c C. apply I1; [done|]. pose proof (parent_lt c ltac:(lia)). lia.
  - cbn [down]. destruct (Nat.leb_spec n (2 * k + 1)) as [N|N].
    { intros c C. apply I1; [done|]. intros E. destruct (child_cases c k ltac:(lia) E); lia. }
    fold (min_child h k n). set (j := min_child h k n).
    destruct (min_child_bounds h k n N) as [B PJ]. fold j in B, PJ.
    destruct (less (get h j) (get h k)) eqn:LS; cbn [negb].
    + apply IH; [lia|by rewrite swap_length|]. split; intros c C.
      * intros NE. rewrite !get_swap by lia. pose proof (parent_lt c ltac:(lia)).
        destruct (decide (((c - 1) / 2)%nat = k)) as [EK|NK].
        -- rewrite (decide_False (P := c = k)) by lia.
           destruct (decide (c = j)) as [->|]; [by apply less_le|]. by apply min_child_le.
        -- rewrite (decide_False (P := ((c - 1) / 2)%nat = j)) by done.
           destruct (decide (c = k)) as [->|].
           ++ apply I2; [lia|done|lia].
           ++ rewrite (decide_False (P := c = j)) by (intros ->; done). by apply I1.
      * intros EJ J0. rewrite !get_swap by lia. rewrite PJ.
        rewrite (decide_True (P := k = k)) by done. pose proof (parent_lt c ltac:(lia)).
        rewrite (decide_False (P := c = k)), (decide_False (P := c = j)) by lia.
        rewrite <- EJ. apply I1; [done|lia].
    + intros c C. destruct (Nat.eq_dec ((c - 1) / 2)%nat k) as [EK|]; [|by apply I1].
      rewrite EK. apply le_trans with (get h j); [by apply less_false|]. by apply min_child_le.
Qed.

Lemma Push_perm h x : Push h x ≡ₚ x :: h.
Proof.
  unfold Push. rewrite up_perm by (rewrite length_app; cbn; lia).
  symmetry. apply Permutation_cons_append.
Qed.

Lemma get_app_l h x j : (j < length h)%nat -> get (h ++ [x]) j = get h j.
Proof. intros. unfold get. by rewrite app_nth1. Qed.

Lemma Push_heap h x : is_heap h -> is_heap (Push h x).
Proof.
  intros H. unfold Push. apply up_heap; [lia|rewrite length_app; cbn; lia|].
  split; rewrite length_app; cbn [length]; intros c C.
  - intros N. pose proof (parent_lt c ltac:(lia)). rewrite !get_app_l by lia. apply H. lia.
  - intros E J. exfalso. destruct (child_cases c _ ltac:(lia) E); lia.
Qed.

(** [Pop] removes a smallest element and keeps the order. *)
Lemma Pop_spec h x h' :
  is_heap h -> Pop h = Some (x, h') ->
  h ≡ₚ x :: h' /\ is_heap h' /\ x = get h 0 /\ (forall y, y ∈ h' -> le x y).
Proof.
  intros H E. destruct h as [|x0 hs] eqn:EH; [done|]. rewrite <- EH in *.
  assert (LN : (0 < length h)%nat) by (subst h; cbn; lia).
  set (n := (length h - 1)%nat). set (h1 := down (length h) (swap h 0 n) 0 n).
  assert (EP : Pop h = Some (get h1 n, take n h1)) by (rewrite EH; subst h; reflexivity).
  rewrite EP in E. injection E as <- <-. clear EP.
  assert (LS : length (swap h 0 n) = length h) by apply swap_length.
  assert (L1 : length h1 = length h) by (unfold h1; by rewrite down_length).
  assert (P1 : h1 ≡ₚ h) by (unfold h1; rewrite down_perm by lia; apply swap_perm; lia).
  assert (X : get h1 n = get h 0).
  { unfold h1. rewrite down_beyond by lia. rewrite get_swap by lia. repeat case_decide; congruence. }
  assert (S1 : h1 = take n h1 ++ [get h1 n]).
  { rewrite <- (firstn_all h1) at 1. rewrite L1. replace (length h) with (S n) by lia. apply take_S_r.
    unfold get. rewrite nth_lookup. destruct (lookup_lt_is_Some_2 h1 n ltac:(lia)) as [y Hy]. by rewrite Hy. }
  assert (PM : h ≡ₚ get h1 n :: take n h1).
  { rewrite <- P1, S1 at 1. symmetry. apply Permutation_cons_append. }
  split; [done|]. split; [|split; [done|]].
  - assert (U : heap_upto n h1).
    { unfold h1. apply down_heap; [lia|lia|]. split; intros c C.
      - intros N0. pose proof (parent_lt c ltac:(lia)). rewrite !get_swap by lia.
        repeat case_decide; try lia; apply H; lia.
      - intros _ K. lia. }
    intros c C. rewrite length_take in C. pose proof (parent_lt c ltac:(lia)).
    unfold get. rewrite !nth_lookup, !lookup_take_lt by lia. rewrite <- !nth_lookup. apply U. lia.
  - intros y Y. assert (I : y ∈ h) by (rewrite PM; by apply list_elem_of_further).
    apply list_elem_of_lookup in I as [j Hj]. pose proof (lookup_lt_Some _ _ _ Hj).
    rewrite X. replace y with (get h j) by (unfold get; by rewrite nth_lookup, Hj).
    by apply (heap_root h (length h)).
Qed.

Lemma Pop_Some h : h <> [] -> exists x h', Pop h = Some (x, h').
Proof. destruct h; [done|]. intros _. cbn [Pop]. eauto. Qed.
End heap.
