(* ===== verification/GoTime.v ===== *)
(** The calendar of Go's time package, as promql/functions.go uses it: the
    fields of [time.Unix(sec, 0).UTC()] and [time.Date] on day 32 of a month.
    Times are seconds since the Unix epoch. *)

From S2P Require Import Prelude.

(** * Absolute time *)

Definition secondsPerDay : Z := 86400.
Definition absoluteZeroYear : Z := -292277022399.

(** [unixToInternal + internalToAbsolute] *)
Definition unixToAbsolute : Z := (1969 * 365 + 1969 / 4 - 1969 / 100 + 1969 / 400) * 86400 + 292277022400 * 31556952.

(** [Time.abs]: a [uint64]. *)
Definition abs (sec : Z) : Z := u64 (sec + unixToAbsolute).

Definition isLeap (year : Z) : bool :=
  (year mod 4 =? 0) && (negb (year mod 100 =? 0) || (year mod 400 =? 0)).

(** [daysBefore] *)
Definition daysBefore (m : Z) : Z :=
  nth (Z.to_nat m) [0; 31; 59; 90; 120; 151; 181; 212; 243; 273; 304; 334; 365] 0.

(** [absDate]: the years of the day and the day of the year, counting the
    400, 100, 4 and 1 year cycles off. *)
Definition abs_year (d : Z) : Z * Z :=
  let n := d / 146097 in
  let y := 400 * n in let d := d - 146097 * n in
  let n := d / 36524 in let n := n - n / 4 in
  let y := y + 100 * n in let d := d - 36524 * n in
  let n := d / 1461 in
  let y := y + 4 * n in let d := d - 1461 * n in
  let n := d / 365 in let n := n - n / 4 in
  (y + n, d - 365 * n).

(** The month and the day of a day of the year. *)
Definition month_day (leap : bool) (yday : Z) : Z * Z :=
  if leap && (yday =? 31 + 29 - 1) then (2, 29)
  else
    let day := if leap && (31 + 29 - 1 <? yday) then yday - 1 else yday in
    let month := day / 31 in
    let e := daysBefore (month + 1) in
    if e <=? day then (month + 2, day - e + 1) else (month + 1, day - daysBefore month + 1).

Definition absDate (a : Z) : Z * Z * Z :=
  let (y, yday) := abs_year (a / secondsPerDay) in
  let year := y + absoluteZeroYear in
  let (month, day) := month_day (isLeap year) yday in
  (year, month, day).

Definition Year (sec : Z) : Z := let '(y, _, _) := absDate (abs sec) in y.
Definition Month (sec : Z) : Z := let '(_, m, _) := absDate (abs sec) in m.
Definition Day (sec : Z) : Z := let '(_, _, d) := absDate (abs sec) in d.

(** [absWeekday]; 0 is Sunday. *)
Definition Weekday (sec : Z) : Z := u64 (abs sec + 1 * secondsPerDay) mod (7 * secondsPerDay) / secondsPerDay.

(** [absClock] *)
Definition Hour (sec : Z) : Z := abs sec mod secondsPerDay / 3600.
Definition Minute (sec : Z) : Z := (abs sec mod secondsPerDay - 3600 * Hour sec) / 60.

(** [time.Date(year, month, day, 0, 0, 0, 0, time.UTC)] for a month of the
    year, as absolute time. *)
Definition abs_days (y month day : Z) (leap : bool) : Z :=
  let n := y / 400 in let y := y - 400 * n in let d := 146097 * n in
  let n := y / 100 in let y := y - 100 * n in let d := d + 36524 * n in
  let n := y / 4 in let y := y - 4 * n in let d := d + 1461 * n in
  let d := d + 365 * y + daysBefore (month - 1) in
  let d := if leap && (3 <=? month) then d + 1 else d in
  d + (day - 1).

(** The time of a date, and [32 - time.Date(year, month, 32, ...).Day()]. *)
Definition Date (year month day : Z) : Z :=
  i64 (abs_days (u64 (year - absoluteZeroYear)) month day (isLeap year) * secondsPerDay - unixToAbsolute).
Definition daysInMonth (sec : Z) : Z := 32 - Day (Date (Year sec) (Month sec) 32).

(** * The calendar *)

Definition month_length (leap : bool) (m : Z) : Z :=
  if m =? 2 then if leap then 29 else 28
  else if (m =? 4) || (m =? 6) || (m =? 9) || (m =? 11) then 30 else 31.

(** The days of year [y + 1] of the calendar, and those before it. *)
Definition year_length (y : Z) : Z := if isLeap (y + 1) then 366 else 365.
Definition year_start (y : Z) : Z := 365 * y + y / 4 - y / 100 + y / 400.

(** The days before a month. *)
Definition month_start (leap : bool) (m : Z) : Z :=
  foldr (fun k n => month_length leap (Z.of_nat k) + n) 0 (List.seq 1 (Z.to_nat (m - 1))).

(** The days from 1 January 1970 to a date. *)
Definition civil_days (year month day : Z) : Z :=
  year_start (year - 1) + month_start (isLeap year) month + (day - 1) - 719162.

Ltac div_lia := Z.to_euclidean_division_equations; lia.

Lemma isLeap_cases y : isLeap y = true <-> y mod 4 = 0 /\ (y mod 100 <> 0 \/ y mod 400 = 0).
Proof. unfold isLeap. rewrite andb_true_iff, orb_true_iff, negb_true_iff, !Z.eqb_eq, Z.eqb_neq. done. Qed.

Lemma year_start_next y : year_start (y + 1) = year_start y + year_length y.
Proof.
  unfold year_start, year_length. destruct (isLeap (y + 1)) eqn:L.
  - apply isLeap_cases in L. div_lia.
  - assert (N : ~ ((y + 1) mod 4 = 0 /\ ((y + 1) mod 100 <> 0 \/ (y + 1) mod 400 = 0)))
      by (rewrite <- isLeap_cases, L; done). div_lia.
Qed.

(** [abs_year] splits a day into its year and the day of the year. *)
Lemma abs_year_spec d :
  0 <= d -> let (y, k) := abs_year d in 0 <= y /\ 0 <= k < year_length y /\ year_start y + k = d.
Proof.
  intros D. unfold abs_year.
  set (a := d / 146097). set (r1 := d - 146097 * a).
  assert (0 <= a /\ 0 <= r1 < 146097) as [Ha R1] by (unfold r1, a; div_lia).
  assert (ED : d = 146097 * a + r1) by (unfold r1; lia). clearbody a r1. clear D. subst d.
  set (b := r1 / 36524 - r1 / 36524 / 4). set (r2 := r1 - 36524 * b).
  assert (B : 0 <= b <= 3 /\ 0 <= r2 <= 36524 /\ (r2 = 36524 -> b = 3)) by (unfold r2, b; div_lia).
  assert (E1 : r1 = 36524 * b + r2) by (unfold r2; lia). clearbody b r2. subst r1.
  set (c := r2 / 1461). set (r3 := r2 - 1461 * c).
  assert (C : 0 <= c <= 24 /\ 0 <= r3 < 1461 /\ (c = 24 -> r3 <= 1460) /\ (c = 24 -> r3 = 1460 -> b = 3))
    by (unfold r3, c; div_lia).
  assert (E2 : r2 = 1461 * c + r3) by (unfold r3; lia). clearbody c r3. subst r2.
  set (e := r3 / 365 - r3 / 365 / 4). set (k := r3 - 365 * e).
  assert (K : 0 <= e <= 3 /\ 0 <= k <= 365 /\ (k = 365 -> e = 3)) by (unfold k, e; div_lia).
  assert (E3 : r3 = 365 * e + k) by (unfold k; lia). clearbody e k. subst r3.
  assert (L : isLeap (400 * a + 100 * b + 4 * c + e + 1) = true <-> e = 3 /\ (c <> 24 \/ b = 3)).
  { rewrite isLeap_cases. div_lia. }
  split; [lia|]. split.
  - split; [lia|]. unfold year_length. destruct (isLeap _); [lia|].
    assert (N : ~ (e = 3 /\ (c <> 24 \/ b = 3))) by (rewrite <- L; done). lia.
  - unfold year_start. div_lia.
Qed.

Lemma year_start_mono y n : 0 <= n -> year_start y <= year_start (y + n).
Proof. unfold year_start. intros. div_lia. Qed.

Lemma abs_year_unique y k : 0 <= y -> 0 <= k < year_length y -> abs_year (year_start y + k) = (y, k).
Proof.
  intros Y K. assert (D : 0 <= year_start y + k) by (pose proof (year_start_mono 0 y Y) as M; change (year_start 0) with 0 in M; rewrite Z.add_0_l in M; lia).
  pose proof (abs_year_spec _ D) as S. destruct (abs_year _) as [y' k']. destruct S as (Y' & K' & E).
  assert (y' = y); [|subst; f_equal; lia].
  destruct (Z.lt_trichotomy y y') as [L|[<-|L]]; [|done|].
  - pose proof (year_start_mono (y + 1) (y' - (y + 1)) ltac:(lia)). replace (y + 1 + (y' - (y + 1))) with y' in * by lia.
    pose proof (year_start_next y). lia.
  - pose proof (year_start_mono (y' + 1) (y - (y' + 1)) ltac:(lia)). replace (y' + 1 + (y - (y' + 1))) with y in * by lia.
    pose proof (year_start_next y'). lia.
Qed.

Lemma abs_days_eq y m d leap : 0 <= y ->
  abs_days y m d leap = year_start y + (daysBefore (m - 1) + (if leap && (3 <=? m) then 1 else 0) + (d - 1)).
Proof. intros Y. unfold abs_days, year_start. destruct (leap && _); div_lia. Qed.

(** * Months, by enumeration *)

Definition month_ok (leap : bool) (k : Z) : bool :=
  let (m, d) := month_day leap k in
  (1 <=? m) && (m <=? 12) && (1 <=? d) && (d <=? month_length leap m) && (month_start leap m + (d - 1) =? k)
  && (daysBefore (m - 1) + (if leap && (3 <=? m) then 1 else 0) =? month_start leap m).

Definition next_month_ok (leap leap' : bool) (m : Z) : bool :=
  let k := month_start leap m + 31 in
  let n := if leap then 366 else 365 in
  (32 - (if k <? n then snd (month_day leap k) else snd (month_day leap' (k - n))) =? month_length leap m)
  && (0 <=? k) && (k - n <? 365).

Fixpoint count_up (n : nat) (z : Z) (f : Z -> bool) : bool :=
  match n with O => true | S n => f z && count_up n (z + 1) f end.

Lemma count_up_spec n z f : count_up n z f = true -> forall r, z <= r < z + Z.of_nat n -> f r = true.
Proof.
  revert z. induction n as [|n IH]; intros z H r R; [lia|]. cbn in H. apply andb_true_iff in H as [H1 H2].
  destruct (Z.eq_dec r z) as [->|]; [done|]. apply (IH (z + 1)); [done|lia].
Qed.

Lemma month_day_ok (leap : bool) k : 0 <= k < (if leap then 366 else 365) -> month_ok leap k = true.
Proof.
  intros K. apply (count_up_spec (if leap then 366 else 365)%nat 0); [destruct leap; vm_compute; reflexivity|].
  destruct leap; lia.
Qed.

Lemma next_month (leap leap' : bool) m : 1 <= m <= 12 -> next_month_ok leap leap' m = true.
Proof. intros M. apply (count_up_spec 12 1); [destruct leap, leap'; vm_compute; reflexivity|lia]. Qed.

(** Day 32 of a month, whatever year it falls in, tells the month's length. *)
Lemma day_32 y m leap :
  leap = isLeap (y + 1) -> 0 <= y -> 1 <= m <= 12 ->
  abs_days y m 32 leap = year_start y + (month_start leap m + 31) /\
  let (y', k) := abs_year (abs_days y m 32 leap) in
  32 - snd (month_day (isLeap (y' + 1)) k) = month_length leap m.
Proof.
  intros EL Y M. rewrite (abs_days_eq y m 32 leap Y).
  assert (EB : daysBefore (m - 1) + (if leap && (3 <=? m) then 1 else 0) = month_start leap m).
  { apply Z.eqb_eq.
    apply (count_up_spec 12 1 (fun m => daysBefore (m - 1) + (if leap && (3 <=? m) then 1 else 0) =? month_start leap m));
      [destruct leap; vm_compute; reflexivity|lia]. }
  rewrite EB. split; [done|]. change (32 - 1) with 31.
  pose proof (next_month leap (isLeap (y + 1 + 1)) m M) as N. unfold next_month_ok in N.
  rewrite !andb_true_iff, Z.eqb_eq, Z.leb_le, Z.ltb_lt in N. destruct N as [[N N0] N1].
  assert (YL : year_length y = if leap then 366 else 365) by (by rewrite EL).
  set (k := month_start leap m + 31) in *. destruct (Z.ltb_spec k (if leap then 366 else 365)) as [L|L].
  - rewrite abs_year_unique by lia. by rewrite <- EL.
  - replace (year_start y + k) with (year_start (y + 1) + (k - (if leap then 366 else 365)))
      by (pose proof (year_start_next y); lia).
    rewrite abs_year_unique; [done|lia|]. unfold year_length. destruct (isLeap (y + 1 + 1)); lia.
Qed.

(** * Theorem *)

Lemma leap_period y : isLeap (y + absoluteZeroYear) = isLeap (y + 1).
Proof.
  apply eq_bool_prop_intro. rewrite !Is_true_true, !isLeap_cases. unfold absoluteZeroYear. div_lia.
Qed.

Lemma year_start_period y : year_start (y + absoluteZeroYear - 1) = year_start y - 292277022400 * 31556952 / 86400.
Proof. unfold year_start, absoluteZeroYear. div_lia. Qed.

(** The date functions agree with the calendar.  For every second [sec]
    the month, day, hour and minute are in their ranges, the date and the
    clock count up to [sec], the day of the week follows the days from a
    Thursday, and the number of days in the month is its length. *)
Theorem date_fields (sec : Z) (R : - 2 ^ 62 <= sec <= 2 ^ 62) :
  let leap := isLeap (Year sec) in
  1 <= Month sec <= 12 /\ 1 <= Day sec <= month_length leap (Month sec) /\ 0 <= Hour sec < 24 /\ 0 <= Minute sec < 60 /\
  sec = civil_days (Year sec) (Month sec) (Day sec) * 86400 + Hour sec * 3600 + Minute sec * 60 + sec mod 60 /\
  Weekday sec = (4 + sec / 86400) mod 7 /\
  daysInMonth sec = month_length leap (Month sec).
Proof.
  assert (UP : unixToAbsolute = 9223372028715321600) by reflexivity.
  assert (U : forall z, 0 <= z < 2 ^ 64 -> u64 z = z) by (intros; by apply Z.mod_small).
  set (ab := sec + unixToAbsolute). assert (EAB : ab = sec + 9223372028715321600) by (unfold ab; by rewrite UP).
  assert (EA : abs sec = ab) by (apply U; fold ab; lia).
  assert (AB : 0 <= ab) by lia.
  set (d := ab / secondsPerDay). assert (D : 0 <= d) by (unfold d, secondsPerDay; div_lia).
  pose proof (abs_year_spec d D) as SY. destruct (abs_year d) as [y k] eqn:EY. destruct SY as (Y0 & K & ED).
  set (leap := isLeap (y + 1)).
  assert (K' : 0 <= k < if leap : bool then 366 else 365) by exact K.
  pose proof (month_day_ok leap k K') as MO. unfold month_ok in MO.
  destruct (month_day leap k) as [m dd] eqn:EM.
  rewrite !andb_true_iff, !Z.leb_le, !Z.eqb_eq in MO. destruct MO as (((((M1 & M2) & D1) & D2) & EK) & EB).
  assert (ADT : absDate (abs sec) = (y + absoluteZeroYear, m, dd)).
  { rewrite EA. unfold absDate. fold d. rewrite EY, leap_period. fold leap. by rewrite EM. }
  assert (EYear : Year sec = y + absoluteZeroYear) by (unfold Year; by rewrite ADT).
  assert (EMonth : Month sec = m) by (unfold Month; by rewrite ADT).
  assert (EDay : Day sec = dd) by (unfold Day; by rewrite ADT).
  assert (EL : isLeap (Year sec) = leap) by (by rewrite EYear, leap_period).
  rewrite EL, EMonth, EDay. unfold Minute, Hour. rewrite EA.
  clearbody ab.
  split; [lia|]. split; [lia|]. split; [unfold secondsPerDay; div_lia|]. split; [unfold secondsPerDay; div_lia|].
  split; [|split].
  - unfold civil_days. rewrite EL, EYear, year_start_period.
    change (292277022400 * 31556952 / 86400) with 106751990353932.
    assert (ab = 86400 * d + ab mod secondsPerDay) by (unfold d, secondsPerDay; div_lia).
    unfold secondsPerDay in *. clear -EAB ED EK. div_lia.
  - unfold Weekday. rewrite EA, U by (unfold secondsPerDay; lia).
    rewrite EAB. unfold secondsPerDay. clear. div_lia.
  - destruct (day_32 y m leap eq_refl Y0 ltac:(lia)) as [E32 H32].
    assert (DS : 86400 * d <= ab < 86400 * d + 86400) by (unfold d, secondsPerDay; clear; div_lia).
    assert (YB : y <= year_start y) by (unfold year_start; clear -Y0; div_lia).
    unfold daysInMonth, Date. rewrite EL, EYear, EMonth.
    replace (y + absoluteZeroYear - absoluteZeroYear) with y by lia. rewrite (U y) by lia.
    assert (K3 : 0 <= k < 366) by (clear -K'; destruct leap; lia).
    assert (ML : month_length leap m <= 31) by (unfold month_length; repeat case_if; lia).
    set (d2 := abs_days y m 32 leap) in *.
    assert (DD : d - 400 <= d2 <= d + 400) by lia.
    rewrite i64_id by (rewrite UP; unfold secondsPerDay, min_int64, max_int64; lia).
    unfold Day, absDate, abs. rewrite Z.sub_add, U by (unfold secondsPerDay; lia).
    rewrite Z.div_mul by done. destruct (abs_year d2) as [y' k']. rewrite leap_period. by destruct (month_day _ k').
Qed.

Lemma date_fields_witness :
  (* 29 February 2016, 12:34:56, a Monday *)
  (Year 1456749296, Month 1456749296, Day 1456749296, Hour 1456749296, Minute 1456749296) = (2016, 2, 29, 12, 34) /\
  1456749296 = civil_days 2016 2 29 * 86400 + 12 * 3600 + 34 * 60 + 1456749296 mod 60 /\
  Weekday 1456749296 = 1 /\ daysInMonth 1456749296 = 29.
Proof.
  split; [vm_compute; reflexivity|].
  destruct (date_fields 1456749296 ltac:(lia)) as (_ & _ & _ & _ & E & W & N).
  split; [exact E|]. split; [rewrite W|rewrite N]; vm_compute; reflexivity.
Defined.
