(* ===== verification/Buffer.v ===== *)
(** storage/buffer.go: the look-back ring buffer and the buffered series
    iterator built on it. *)

From S2P Require Import Prelude Float.

(** A sample: timestamp in milliseconds and value. *)
Record sample := mkSample { t : Z; v : float64 }.

#[export] Instance sample_eq_dec : EqDecision sample.
Proof. solve_decision. Defined.

Definition zero_sample : sample := mkSample 0 (of_Z 0).

(** * The ring *)

Record sampleRing := mkRing {
  delta : Z;
  buf : list sample;  (* lookback buffer *)
  i : Z;              (* position of most recent element in ring buffer *)
  f : Z;              (* position of first element in ring buffer *)
  l : Z               (* number of elements in buffer *)
}.

Definition reset (r : sampleRing) : sampleRing := mkRing (delta r) (buf r) (-1) 0 0.

Definition newSampleRing (d : Z) (sz : nat) : sampleRing :=
  reset (mkRing d (repeat zero_sample sz) 0 0 0).

(** [r.buf[j]]; [None] is an index out of range. *)
Definition index (b : list sample) (j : Z) : option sample :=
  if j <? 0 then None else b !! Z.to_nat j.

(** [r.at(i)]; [%] is Go's remainder. *)
Definition at_ (r : sampleRing) (k : Z) : option sample :=
  if (length (buf r) =? 0)%nat then None
  else index (buf r) (Z.rem (f r + k) (Z.of_nat (length (buf r)))).

(** The growth and the index step at the head of [add]. *)
Definition make_room (r : sampleRing) : sampleRing :=
  let len := Z.of_nat (length (buf r)) in
  if len =? l r then
    let n := Z.to_nat (f r) in
    (* buf[l+f:] gets buf[f:], buf[:f] gets buf[:f], the rest is zero *)
    mkRing (delta r)
      (take n (buf r) ++ repeat zero_sample (length (buf r)) ++ drop n (buf r))
      (f r) (f r + len) (l r)
  else
    let i' := i r + 1 in
    mkRing (delta r) (buf r) (if len <=? i' then i' - len else i') (f r) (l r).

(** The loop that frees the samples out of range. *)
Fixpoint free_loop (fuel : nat) (bound : Z) (r : sampleRing) : option sampleRing :=
  match fuel with
  | O => None
  | S fuel' =>
    match index (buf r) (f r) with
    | None => None
    | Some s =>
      if t s <? bound then
        let f' := f r + 1 in
        let f' := if Z.of_nat (length (buf r)) <=? f' then f' - Z.of_nat (length (buf r)) else f' in
        free_loop fuel' bound (mkRing (delta r) (buf r) (i r) f' (l r - 1))
      else Some r
    end
  end.

(** [r.add]; [None] is an index out of range, or the loop going round a buffer
    in which every sample is out of range. *)
Definition add (s : sample) (r : sampleRing) : option sampleRing :=
  let r := make_room r in
  match index (buf r) (i r) with
  | None => None
  | Some _ =>
    let r := mkRing (delta r) (<[Z.to_nat (i r) := s]> (buf r)) (i r) (f r) (l r + 1) in
    free_loop (S (length (buf r))) (i64 (t s - delta r)) r
  end.

(** [r.nthLast(n)] *)
Definition nthLast (n : Z) (r : sampleRing) : option (sample * bool) :=
  if l r <? n then Some (zero_sample, false)
  else match at_ r (l r - n) with None => None | Some s => Some (s, true) end.

(** [copy(dst, src)] at the start of [dst]. *)
Definition copy_into (dst src : list sample) : list sample :=
  let n := Nat.min (length dst) (length src) in take n src ++ drop n dst.

(** [r.samples()] *)
Definition samples (r : sampleRing) : list sample :=
  let res := repeat zero_sample (Z.to_nat (l r)) in
  let len := Z.of_nat (length (buf r)) in
  let k := f r + l r in
  let '(k, j) := if len <? k then (len, l r - len + f r) else (k, 0) in
  let src := drop (Z.to_nat (f r)) (take (Z.to_nat k) (buf r)) in
  let n := Nat.min (length res) (length src) in
  take n (copy_into res src) ++ copy_into (drop n res) (take (Z.to_nat j) (buf r)).

(** [sampleRingIterator]: reads the ring, oldest sample first. *)
Record sampleRingIterator := mkRingIter { sri_r : sampleRing; sri_i : Z }.

Definition iterator (r : sampleRing) : sampleRingIterator := mkRingIter r (-1).

Definition ring_Next (it : sampleRingIterator) : bool * sampleRingIterator :=
  let k := sri_i it + 1 in (k <? l (sri_r it), mkRingIter (sri_r it) k).

Definition ring_Seek (_ : Z) (it : sampleRingIterator) : bool * sampleRingIterator := (false, it).

Definition ring_At (it : sampleRingIterator) : option sample := at_ (sri_r it) (sri_i it).

(** * The ring is a queue *)

(** [r] holds the samples [q], oldest first. *)
Definition holds (r : sampleRing) (q : list sample) : Prop :=
  let len := Z.of_nat (length (buf r)) in
  0 < len /\ l r = Z.of_nat (length q) /\ l r <= len /\ 0 <= f r < len /\ -1 <= i r < len /\
  (i r + 1) mod len = (f r + l r) mod len /\
  (forall k s, q !! k = Some s -> buf r !! Z.to_nat ((f r + Z.of_nat k) mod len) = Some s).

(** The queue operation: append, then drop the head while it is out of range. *)
Fixpoint drop_older (bound : Z) (q : list sample) : list sample :=
  match q with
  | [] => []
  | s :: q' => if t s <? bound then drop_older bound q' else q
  end.

Definition push (d : Z) (q : list sample) (s : sample) : list sample := drop_older (t s - d) (q ++ [s]).

Lemma holds_reset r q : (0 < length (buf r))%nat -> q = [] -> holds (reset r) q.
Proof.
  intros L ->. unfold holds. cbn. repeat split; try lia. intros k s. by rewrite lookup_nil.
Qed.

Lemma index_nat b j : 0 <= j -> index b j = b !! Z.to_nat j.
Proof. intros. unfold index. destruct (Z.ltb_spec j 0); [lia|done]. Qed.

Lemma wrap_mod a len : 0 <= a < 2 * len -> (if len <=? a then a - len else a) = a mod len.
Proof.
  intros H. destruct (Z.leb_spec len a); [|by rewrite Z.mod_small by lia].
  apply Z.mod_unique with 1; lia.
Qed.

(** Where the elements sit after the buffer doubles. *)
Lemma grown_lookup b n k s :
  (n <= length b)%nat -> (k < length b)%nat ->
  b !! Z.to_nat ((Z.of_nat n + Z.of_nat k) mod Z.of_nat (length b)) = Some s ->
  (take n b ++ repeat zero_sample (length b) ++ drop n b) !!
    Z.to_nat ((Z.of_nat n + Z.of_nat (length b) + Z.of_nat k) mod (2 * Z.of_nat (length b))) = Some s.
Proof.
  intros Hn Hk. set (len := Z.of_nat (length b)).
  destruct (Z.lt_ge_cases (Z.of_nat n + Z.of_nat k) len) as [L|L].
  - rewrite (Z.mod_small (Z.of_nat n + Z.of_nat k)), (Z.mod_small (_ + len + _)) by lia.
    intros H. rewrite !lookup_app_r; rewrite ?length_take, ?repeat_length; [|lia..].
    rewrite lookup_drop, <- H. f_equal. lia.
  - intros H. replace ((Z.of_nat n + Z.of_nat k) mod len) with (Z.of_nat n + Z.of_nat k - len) in H
      by (apply Z.mod_unique with 1; lia).
    replace ((Z.of_nat n + len + Z.of_nat k) mod (2 * len)) with (Z.of_nat n + Z.of_nat k - len)
      by (apply Z.mod_unique with 1; lia).
    rewrite lookup_app_l by (rewrite length_take; lia). rewrite lookup_take_lt by lia. done.
Qed.

Lemma make_room_holds r q :
  holds r q -> let r' := make_room r in
  holds (mkRing (delta r') (buf r') (i r' - 1) (f r') (l r')) q /\
  l r' < Z.of_nat (length (buf r')) /\ delta r' = delta r /\ 0 <= i r' < Z.of_nat (length (buf r')) /\
  i r' = (f r' + l r') mod Z.of_nat (length (buf r')).
Proof.
  intros (P & L & LC & F & I & IM & H). unfold make_room.
  destruct (Z.eqb_spec (Z.of_nat (length (buf r))) (l r)) as [E|E]; cbn.
  - rewrite !length_app, length_take, repeat_length, length_drop.
    replace (length (buf r) `min` length (buf r))%nat with (length (buf r)) by lia.
    assert (LN : Z.of_nat (Z.to_nat (f r) `min` length (buf r) + (length (buf r) + (length (buf r) - Z.to_nat (f r)))) =
                 2 * Z.of_nat (length (buf r))) by lia.
    assert (M : (f r + Z.of_nat (length (buf r)) + l r) mod (2 * Z.of_nat (length (buf r))) = f r).
    { symmetry. apply Z.mod_unique with 1; lia. }
    split; [|repeat split; try lia; by rewrite LN, M].
    unfold holds. cbn. rewrite !length_app, length_take, repeat_length, length_drop, LN, M.
    repeat split; try lia.
    + rewrite Z.sub_add. apply Z.mod_small. lia.
    + intros k s Hk. pose proof (lookup_lt_Some _ _ _ Hk).
      specialize (H k s Hk). rewrite <- (Z2Nat.id (f r)) in H |- * by lia. rewrite Nat2Z.id.
      apply grown_lookup; [lia|lia|done].
  - assert (W : (if Z.of_nat (length (buf r)) <=? i r + 1 then i r + 1 - Z.of_nat (length (buf r)) else i r + 1) =
                (f r + l r) mod Z.of_nat (length (buf r))).
    { rewrite wrap_mod by lia. done. }
    rewrite W. pose proof (Z.mod_pos_bound (f r + l r) (Z.of_nat (length (buf r))) P).
    split; [|repeat split; lia]. unfold holds. cbn. repeat split; try lia; [|done].
    rewrite Z.sub_add. apply Z.mod_mod. lia.
Qed.

Lemma mod_add_inj len a x y :
  0 < len -> 0 <= x < len -> 0 <= y < len -> (a + x) mod len = (a + y) mod len -> x = y.
Proof.
  intros P X Y E. pose proof (Z.div_mod (a + x) len ltac:(lia)). pose proof (Z.div_mod (a + y) len ltac:(lia)).
  assert (K : x - y = len * ((a + x) / len - (a + y) / len)) by lia.
  set (d := (a + x) / len - (a + y) / len) in K.
  assert (d = 0) by (clearbody d; clear - K P X Y; nia). nia.
Qed.

Lemma store_holds r q s :
  holds (mkRing (delta r) (buf r) (i r - 1) (f r) (l r)) q -> l r < Z.of_nat (length (buf r)) ->
  0 <= i r < Z.of_nat (length (buf r)) -> i r = (f r + l r) mod Z.of_nat (length (buf r)) ->
  holds (mkRing (delta r) (<[Z.to_nat (i r) := s]> (buf r)) (i r) (f r) (l r + 1)) (q ++ [s]).
Proof.
  intros (P & L & LC & F & _ & _ & H) LT I IM. cbn in *. unfold holds. cbn.
  rewrite length_insert, length_app. cbn [length].
  repeat split; try lia.
  - rewrite IM, Z.add_mod_idemp_l by lia. f_equal. lia.
  - intros k x Hk. apply lookup_app_Some in Hk as [Hk|[Hk1 Hk2]].
    + pose proof (lookup_lt_Some _ _ _ Hk). rewrite list_lookup_insert_ne; [by apply H|].
      intros E. assert (E' : (f r + l r) mod Z.of_nat (length (buf r)) = (f r + Z.of_nat k) mod Z.of_nat (length (buf r))).
      { pose proof (Z.mod_pos_bound (f r + Z.of_nat k) (Z.of_nat (length (buf r))) P). lia. }
      apply mod_add_inj in E'; lia.
    + apply list_lookup_singleton_Some in Hk2 as [K <-].
      replace (Z.of_nat k) with (l r) by lia. rewrite <- IM.
      apply list_lookup_insert_eq. lia.
Qed.

Lemma holds_head r s q : holds r (s :: q) -> index (buf r) (f r) = Some s.
Proof.
  intros (P & L & LC & F & I & IM & H). rewrite index_nat by lia.
  specialize (H O s eq_refl). rewrite Z.add_0_r, Z.mod_small in H by lia. done.
Qed.

Lemma holds_tail r s q :
  holds r (s :: q) ->
  let f' := f r + 1 in
  holds (mkRing (delta r) (buf r) (i r)
           (if Z.of_nat (length (buf r)) <=? f' then f' - Z.of_nat (length (buf r)) else f') (l r - 1)) q.
Proof.
  intros (P & L & LC & F & I & IM & H). cbn [length] in L. unfold holds. cbn.
  rewrite wrap_mod by lia. pose proof (Z.mod_pos_bound (f r + 1) (Z.of_nat (length (buf r))) P).
  repeat split; try lia.
  - rewrite IM, Z.add_mod_idemp_l by lia. f_equal. lia.
  - intros k x Hk. rewrite Z.add_mod_idemp_l by lia.
    replace (f r + 1 + Z.of_nat k) with (f r + Z.of_nat (S k)) by lia. by apply H.
Qed.

Lemma free_loop_holds fuel bound r q s :
  holds r (q ++ [s]) -> bound <= t s -> (length q < fuel)%nat ->
  exists r', free_loop fuel bound r = Some r' /\ holds r' (drop_older bound (q ++ [s])) /\
    delta r' = delta r /\ buf r' = buf r.
Proof.
  revert r q. induction fuel as [|n IH]; intros r q H B L; [lia|].
  destruct q as [|x q]; cbn [app] in *; cbn [free_loop drop_older]; rewrite (holds_head _ _ _ H).
  - destruct (Z.ltb_spec (t s) bound); [lia|]. by exists r.
  - destruct (Z.ltb_spec (t x) bound); [|by exists r].
    apply holds_tail in H. cbn [length] in L.
    destruct (IH _ _ H B ltac:(lia)) as (r' & E & R). cbn in R. by exists r'.
Qed.

(** [add] on a ring is [push] on the queue it holds. *)
Lemma add_holds r q s :
  holds r q -> 0 <= delta r -> min_int64 <= t s - delta r -> t s <= max_int64 ->
  exists r', add s r = Some r' /\ holds r' (push (delta r) q s) /\ delta r' = delta r.
Proof.
  intros H D B1 B2. destruct (make_room_holds r q H) as (H' & LT & ED & I & IM). cbv zeta in *.
  unfold add. set (r' := make_room r) in *.
  rewrite index_nat by lia.
  destruct (buf r' !! Z.to_nat (i r')) as [x|] eqn:E; [|apply lookup_ge_None in E; lia].
  pose proof (store_holds r' q s H' LT I IM) as HS.
  rewrite ED in *. cbn [delta buf i f l]. rewrite i64_id by lia.
  assert (LQ : (length q < S (length (<[Z.to_nat (i r') := s]> (buf r'))))%nat).
  { destruct H' as (_ & L & LC & _). cbn in *. rewrite length_insert. lia. }
  destruct (free_loop_holds _ (t s - delta r) _ q s HS ltac:(lia) LQ) as (r2 & E2 & H2 & D2 & _).
  exists r2. by rewrite E2.
Qed.

(** * Reading the ring *)

Lemma at_holds r q k s : holds r q -> q !! k = Some s -> at_ r (Z.of_nat k) = Some s.
Proof.
  intros (P & L & LC & F & I & IM & H) Hk. pose proof (lookup_lt_Some _ _ _ Hk).
  unfold at_. destruct (Nat.eqb_spec (length (buf r)) 0); [lia|].
  rewrite Z.rem_mod_nonneg by lia. rewrite index_nat by (apply Z.mod_pos_bound; lia). by apply H.
Qed.

Lemma copy_into_self src : forall dst, length dst = length src -> copy_into dst src = src.
Proof.
  intros dst E. unfold copy_into. rewrite E, Nat.min_id, firstn_all, <- E, drop_all. by rewrite app_nil_r.
Qed.

Lemma samples_holds r q : holds r q -> samples r = q.
Proof.
  intros (P & L & LC & F & I & IM & H). unfold samples.
  assert (G : forall q', length q' = length q ->
    (forall k, (k < length q)%nat -> q' !! k = buf r !! Z.to_nat ((f r + Z.of_nat k) mod Z.of_nat (length (buf r)))) -> q' = q).
  { intros q' EL HQ. apply list_eq. intros k. destruct (q !! k) as [s|] eqn:E.
    - rewrite HQ by (by eapply lookup_lt_Some). by apply H.
    - apply lookup_ge_None in E. apply lookup_ge_None. lia. }
  destruct (Z.ltb_spec (Z.of_nat (length (buf r))) (f r + l r)) as [W|W].
  - (* the elements wrap around *)
    set (a := drop (Z.to_nat (f r)) (buf r)).
    assert (LA : length a = (length (buf r) - Z.to_nat (f r))%nat) by apply length_drop.
    rewrite Nat2Z.id, firstn_all. fold a. rewrite repeat_length.
    replace (Z.to_nat (l r)) with (length q) by lia.
    replace (length q `min` length a)%nat with (length a) by lia.
    set (j := Z.to_nat (l r - Z.of_nat (length (buf r)) + f r)).
    set (b := take j (buf r)). assert (LB : length b = j) by (unfold b; rewrite length_take; lia).
    assert (E1 : take (length a) (copy_into (repeat zero_sample (length q)) a) = a).
    { unfold copy_into. rewrite repeat_length. replace (length q `min` length a)%nat with (length a) by lia.
      rewrite firstn_all, take_app_length. done. }
    rewrite E1, copy_into_self by (rewrite length_drop, repeat_length; lia).
    apply G; [rewrite length_app; lia|]. intros k Hk.
    destruct (Nat.lt_ge_cases k (length a)).
    + rewrite lookup_app_l by done. unfold a. rewrite lookup_drop, Z.mod_small by lia. f_equal. lia.
    + rewrite lookup_app_r by done. unfold b. rewrite lookup_take_lt by lia.
      replace ((f r + Z.of_nat k) mod Z.of_nat (length (buf r))) with (f r + Z.of_nat k - Z.of_nat (length (buf r)))
        by (apply Z.mod_unique with 1; lia). f_equal. lia.
  - set (a := drop (Z.to_nat (f r)) (take (Z.to_nat (f r + l r)) (buf r))).
    assert (LA : length a = length q) by (unfold a; rewrite length_drop, length_take; lia).
    rewrite repeat_length. replace (Z.to_nat (l r)) with (length q) by lia. rewrite LA, Nat.min_id.
    rewrite copy_into_self by (rewrite repeat_length; lia).
    rewrite <- LA, firstn_all, LA, drop_ge by (rewrite repeat_length; lia). cbn.
    unfold copy_into. cbn. rewrite app_nil_r. apply G; [done|]. intros k Hk.
    unfold a. rewrite lookup_drop, lookup_take_lt by lia. rewrite Z.mod_small by lia. f_equal. lia.
Qed.

(** [holds] determines the queue. *)
Lemma holds_unique r q q' : holds r q -> holds r q' -> q = q'.
Proof. intros H H'. by rewrite <- (samples_holds r q H), (samples_holds r q' H'). Qed.

(** The samples the loop [for it.Next() { it.At() }] sees. *)
Fixpoint ring_collect (fuel : nat) (it : sampleRingIterator) : list (option sample) :=
  match fuel with
  | O => []
  | S n => let (ok, it) := ring_Next it in if ok then ring_At it :: ring_collect n it else []
  end.

(** The loop reads the queue. *)
Lemma ring_collect_holds r q fuel :
  holds r q -> (length q < fuel)%nat -> ring_collect fuel (iterator r) = map Some q.
Proof.
  intros H. assert (G : forall n k, (k <= length q)%nat -> (length q - k < n)%nat ->
    ring_collect n (mkRingIter r (Z.of_nat k - 1)) = map Some (drop k q)).
  { pose proof H as (_ & L & _). induction n as [|n IH]; intros k K N; [lia|].
    cbn [ring_collect ring_Next sri_i sri_r]. rewrite Z.sub_add, L.
    destruct (Z.ltb_spec (Z.of_nat k) (Z.of_nat (length q))) as [LT|LT].
    - destruct (lookup_lt_is_Some_2 q k ltac:(lia)) as [s Hs].
      rewrite (drop_S _ _ _ Hs). unfold ring_At. cbn [sri_i sri_r map].
      rewrite (at_holds r q k s H Hs). f_equal.
      replace (Z.of_nat k) with (Z.of_nat (S k) - 1) by lia. apply IH; lia.
    - rewrite drop_ge by lia. done. }
  intros F. apply (G fuel O); lia.
Qed.

(** The ring buffer refines a queue.  Adding samples to a new ring, its
    capacity doubling as needed, never goes out of range and holds exactly the
    queue that appends each sample and drops the head while it is older than
    the sample by more than [delta]; [samples], [at], [nthLast] and the ring's
    iterator read that queue. *)
Theorem sampleRing_refines (d : Z) (ss : list sample) (D : 0 <= d)
  (B : Forall (fun s => min_int64 <= t s - d /\ t s <= max_int64) ss) :
  exists r, foldl (fun o s => match o with None => None | Some r => add s r end)
              (Some (newSampleRing d 16)) ss = Some r /\
    let q := foldl (push d) [] ss in
    samples r = q /\
    (forall k, (k < length q)%nat -> at_ r (Z.of_nat k) = q !! k) /\
    (forall n, 1 <= n -> nthLast n r =
       if Z.of_nat (length q) <? n then Some (zero_sample, false)
       else (fun s => (s, true)) <$> q !! Z.to_nat (Z.of_nat (length q) - n)) /\
    ring_collect (S (length q)) (iterator r) = map Some q.
Proof.
  assert (G : forall ss r q, holds r q -> delta r = d ->
    Forall (fun s => min_int64 <= t s - d /\ t s <= max_int64) ss ->
    exists r', foldl (fun o s => match o with None => None | Some r => add s r end) (Some r) ss = Some r' /\
      holds r' (foldl (push d) q ss)).
  { clear ss B. induction ss as [|s ss IH]; intros r q H E B; [by exists r|].
    apply Forall_cons in B as [[B1 B2] B]. subst d.
    destruct (add_holds r q s H D B1 B2) as (r1 & E1 & H1 & D1). cbn. rewrite E1.
    by apply IH. }
  destruct (G ss (newSampleRing d 16) [] (holds_reset (mkRing d (repeat zero_sample 16) 0 0 0) [] ltac:(cbn; lia) eq_refl) eq_refl B) as (r & E & H).
  exists r. split; [done|]. cbv zeta. set (q := foldl (push d) [] ss) in *.
  split; [by apply samples_holds|]. split.
  - intros k K. apply lookup_lt_is_Some_2 in K as [s Hs]. rewrite Hs. by apply (at_holds r q).
  - split; [|by apply ring_collect_holds; [|lia]].
    intros n N. unfold nthLast. pose proof H as (_ & L & _). rewrite L.
    destruct (Z.ltb_spec (Z.of_nat (length q)) n); [done|].
    assert (K : (Z.to_nat (Z.of_nat (length q) - n) < length q)%nat) by lia.
    apply lookup_lt_is_Some_2 in K as [s Hs]. rewrite Hs.
    replace (Z.of_nat (length q) - n) with (Z.of_nat (Z.to_nat (Z.of_nat (length q) - n))) by lia.
    by rewrite (at_holds r q _ s H Hs).
Qed.

Lemma sampleRing_refines_witness :
  let ss := map (fun x => mkSample x (of_Z x)) [1; 2; 5; 9; 10; 14] in
  exists r, foldl (fun o s => match o with None => None | Some r => add s r end)
              (Some (newSampleRing 5 16)) ss = Some r /\
    samples r = map (fun x => mkSample x (of_Z x)) [9; 10; 14].
Proof.
  intros ss. destruct (sampleRing_refines 5 ss ltac:(lia)) as (r & E & S & _).
  - repeat apply Forall_cons_2; try apply Forall_nil_2; (split; [discriminate|cbn; discriminate]).
  - exists r. split; [exact E|]. rewrite S. vm_compute. reflexivity.
Defined.

(** * The buffered iterator *)

(** [SeriesIterator]; its [Err] is not used here. *)
Class SeriesIterator (It : Type) := {
  it_Seek : Z -> It -> bool * It;
  it_At : It -> sample;
  it_Next : It -> bool * It
}.

(** The first index at or after [n] whose time is at least [x]. *)
Fixpoint seek_index (x : Z) (xs : list sample) (n : nat) : nat :=
  match xs with
  | [] => n
  | s :: xs' => if x <=? t s then n else seek_index x xs' (S n)
  end.

(** The contract of an iterator over the samples [xs]: [positioned it n] says
    that its current sample is the [n]th. *)
Class SeriesIteratorLaws (It : Type) `{SeriesIterator It} (xs : list sample) (positioned : It -> nat -> Prop) := {
  At_law it n s : positioned it n -> xs !! n = Some s -> it_At it = s;
  Next_law it n : positioned it n -> (n < length xs)%nat ->
    let (b, it') := it_Next it in
    b = (S n <? length xs)%nat /\ (b = true -> positioned it' (S n));
  Seek_law it n x : positioned it n -> (n < length xs)%nat ->
    let (b, it') := it_Seek x it in
    let n' := seek_index x (drop n xs) n in
    b = (n' <? length xs)%nat /\ (b = true -> positioned it' n')
}.

Section buffered.
Context `{SeriesIterator It}.

Record BufferedSeriesIterator := mkBuffered {
  b_it : It; b_buf : sampleRing; lastTime : Z; b_ok : bool
}.

(** [NewBuffer]: the first element is current; whether there is one is not
    looked at. *)
Definition NewBuffer (it : It) (d : Z) : BufferedSeriesIterator :=
  mkBuffered (snd (it_Next it)) (newSampleRing d 16) min_int64 true.

Definition Values (b : BufferedSeriesIterator) : sample := it_At (b_it b).
Definition PeekBack (n : Z) (b : BufferedSeriesIterator) : option (sample * bool) := nthLast n (b_buf b).

Definition Buffer (b : BufferedSeriesIterator) : sampleRingIterator := iterator (b_buf b).

(** [Next]; [None] is a panic in the ring. *)
Definition Next (b : BufferedSeriesIterator) : option (bool * BufferedSeriesIterator) :=
  if negb (b_ok b) then Some (false, b)
  else match add (it_At (b_it b)) (b_buf b) with
       | None => None
       | Some r =>
         let (ok, it) := it_Next (b_it b) in
         Some (ok, mkBuffered it r (if ok then t (it_At it) else lastTime b) ok)
       end.

(** The loop of [Seek]; [None] is also a loop cut short by the fuel. *)
Fixpoint seek_loop (fuel : nat) (x : Z) (b : BufferedSeriesIterator) : option (bool * BufferedSeriesIterator) :=
  match fuel with
  | O => None
  | S n => match Next b with
           | None => None
           | Some (true, b) => if x <=? lastTime b then Some (true, b) else seek_loop n x b
           | Some (false, b) => Some (false, b)
           end
  end.

Definition Seek (fuel : nat) (x : Z) (b : BufferedSeriesIterator) : option (bool * BufferedSeriesIterator) :=
  let t0 := i64 (x - delta (b_buf b)) in
  let after b := if x <=? lastTime b then Some (true, b) else seek_loop fuel x b in
  if lastTime b <? t0 then
    let (ok, it) := it_Seek t0 (b_it b) in
    if ok then after (mkBuffered it (reset (b_buf b)) (t (it_At it)) true)
    else Some (false, mkBuffered it (reset (b_buf b)) (lastTime b) false)
  else after b.
End buffered.
Arguments BufferedSeriesIterator It : clear implicits.

(** * What [Seek] leaves in the buffer *)

Lemma seek_index_spec x xs n :
  (n <= seek_index x xs n)%nat /\
  (forall k s, xs !! k = Some s -> (n + k < seek_index x xs n)%nat -> t s < x) /\
  (forall s, xs !! (seek_index x xs n - n)%nat = Some s -> x <= t s) /\
  (seek_index x xs n <= n + length xs)%nat.
Proof.
  revert n. induction xs as [|y xs IH]; intros n; cbn [seek_index].
  - split; [lia|]. split; [intros k s; by rewrite lookup_nil|]. split; [intros s; by rewrite lookup_nil|]. cbn. lia.
  - destruct (Z.leb_spec x (t y)).
    + split; [lia|]. split; [intros; lia|]. split; [|lia]. rewrite Nat.sub_diag. by intros s [= <-].
    + destruct (IH (S n)) as (I1 & I2 & I3 & I4). cbn [length]. split; [lia|]. split; [|split; [|lia]].
      * intros [|k] s; cbn; [by intros [= <-]|]. intros Hk L. apply (I2 k); [done|lia].
      * intros s. replace (seek_index x xs (S n) - n)%nat with (S (seek_index x xs (S n) - S n)) by lia.
        apply I3.
Qed.

Section seek.
Context `{SI : SeriesIterator It} (xs : list sample) (positioned : It -> nat -> Prop)
        `{SL : !SeriesIteratorLaws It xs positioned}.

(** The series is in time order and its times leave room for [delta]. *)
Variable d : Z.
Hypothesis Hd : 0 <= d.
Hypothesis sorted : forall a b s u, xs !! a = Some s -> xs !! b = Some u -> (a < b)%nat -> t s < t u.
Hypothesis range : forall a s, xs !! a = Some s -> min_int64 <= t s - d /\ t s <= max_int64.

(** The state between calls: the current sample is the [n]th, the buffer holds
    the samples from some [m] up to it, and those before [m] are older than
    [bound]. *)
Definition buffering (b : BufferedSeriesIterator It) (n m : nat) (bound : Z) : Prop :=
  b_ok b = true /\ positioned (b_it b) n /\ delta (b_buf b) = d /\ (m <= n < length xs)%nat /\
  holds (b_buf b) (take (n - m) (drop m xs)) /\
  (forall k s, xs !! k = Some s -> (k < m)%nat -> t s < bound).

Lemma drop_older_suffix bound q : exists k, (k <= length q)%nat /\ drop_older bound q = drop k q /\
  forall j s, q !! j = Some s -> (j < k)%nat -> t s < bound.
Proof.
  induction q as [|s q (k & L & E & B)]; cbn; [exists O; repeat split; intros; lia|].
  destruct (Z.ltb_spec (t s) bound).
  - exists (S k). split; [lia|]. split; [done|]. intros [|j] u; cbn; [by intros [= <-]|].
    intros Hj Lj. apply (B j); [done|lia].
  - exists O. split; [lia|]. split; [done|]. intros; lia.
Qed.

Lemma segment_snoc m n s :
  (m <= n)%nat -> xs !! n = Some s -> take (n - m) (drop m xs) ++ [s] = take (S n - m) (drop m xs).
Proof.
  intros L E. replace (S n - m)%nat with (S (n - m)) by lia.
  symmetry. apply take_S_r. rewrite lookup_drop. replace (m + (n - m))%nat with n by lia. done.
Qed.

(** After the last sample: the buffer holds the end of the series. *)
Definition drained (b : BufferedSeriesIterator It) (m : nat) (bound : Z) : Prop :=
  b_ok b = false /\ delta (b_buf b) = d /\ holds (b_buf b) (drop m xs) /\
  (forall k s, xs !! k = Some s -> (k < m)%nat -> t s < bound).

Lemma Next_buffering b n m bound s :
  buffering b n m bound -> xs !! n = Some s -> t s - d <= bound ->
  (S n < length xs)%nat /\ (exists b' m', Next b = Some (true, b') /\ buffering b' (S n) m' bound /\
     (exists u, xs !! S n = Some u /\ lastTime b' = t u)) \/
  (S n = length xs)%nat /\ exists b' m', Next b = Some (false, b') /\ drained b' m' bound /\
     it_Next (b_it b) = (false, b_it b') /\ lastTime b' = lastTime b.
Proof.
  intros (OK & P & D & L & HH & B) E Bd. unfold Next. rewrite OK. cbn [negb].
  rewrite (At_law _ _ _ P E). destruct (range n s E) as [R1 R2].
  destruct (add_holds (b_buf b) _ s HH ltac:(lia) ltac:(lia) R2) as (r & -> & Hr & Dr).
  unfold push in Hr. rewrite segment_snoc in Hr by (done || lia).
  destruct (drop_older_suffix (t s - delta (b_buf b)) (take (S n - m) (drop m xs))) as (k & Lk & Ek & Bk).
  rewrite Ek in Hr. rewrite length_take, length_drop in Lk. rewrite skipn_firstn_comm, drop_drop in Hr.
  assert (B' : forall j v, xs !! j = Some v -> (j < m + k)%nat -> t v < bound).
  { intros j v Hj Lj. destruct (Nat.lt_ge_cases j m); [by apply (B j)|].
    apply (Z.lt_le_trans _ (t s - d)); [|done]. rewrite <- D. apply (Bk (j - m)%nat); [|lia].
    rewrite lookup_take_lt by lia. rewrite lookup_drop. by replace (m + (j - m))%nat with j by lia. }
  pose proof (Next_law (xs := xs) _ _ P (proj2 L)) as NL. destruct (it_Next (b_it b)) as [ok it].
  destruct NL as [-> NP]. destruct (Nat.ltb_spec (S n) (length xs)) as [LS|LS].
  - left. split; [done|]. destruct (lookup_lt_is_Some_2 xs (S n) LS) as [u Hu]. specialize (NP eq_refl).
    eexists _, (m + k)%nat. split; [done|]. rewrite (At_law _ _ _ NP Hu). split; [|by exists u].
    split; [done|]. split; [done|]. split; [cbn; congruence|]. split; [lia|]. split; [|done].
    cbn [b_buf]. by replace (S n - (m + k))%nat with (S n - m - k)%nat by lia.
  - right. split; [lia|]. eexists _, (m + k)%nat. split; [done|]. split; [|by split].
    split; [done|]. split; [cbn; congruence|]. split; [|done]. cbn [b_buf].
    rewrite take_ge in Hr by (rewrite length_drop; lia). done.
Qed.

Lemma buffering_weaken b n m c c' : c <= c' -> buffering b n m c -> buffering b n m c'.
Proof. intros L (? & ? & ? & ? & ? & B). repeat (split; [done|]). intros k s Hk K. specialize (B k s Hk K). lia. Qed.

(** Where a [seek] to [x] from a state [b] ends. *)
Definition seeks (x : Z) (b : BufferedSeriesIterator It) (n : nat) (res : option (bool * BufferedSeriesIterator It)) : Prop :=
  exists ok b', res = Some (ok, b') /\
    if ok then exists n' m u, buffering b' n' m (t u - d) /\ xs !! n' = Some u /\ lastTime b' = t u /\ x <= t u /\
                 (n <= n')%nat /\ (forall k s, xs !! k = Some s -> (n <= k < n')%nat -> t s < x)
    else b_ok b' = false /\ (forall k s, xs !! k = Some s -> (n <= k)%nat -> t s < x).

Lemma seek_loop_spec fuel x b n m u :
  buffering b n m (x - d) -> xs !! n = Some u -> t u < x -> (length xs - n <= fuel)%nat ->
  seeks x b n (seek_loop fuel x b).
Proof.
  revert b n m u. induction fuel as [|fuel IH]; intros b n m u HB E LT F.
  - destruct HB as (_ & _ & _ & L & _). lia.
  - cbn [seek_loop].
    destruct (Next_buffering b n m (x - d) u HB E ltac:(lia)) as [(LS & b' & m' & -> & HB' & v & Ev & LTv)|(LS & b' & m' & -> & OK & _)].
    + destruct (Z.leb_spec x (lastTime b')).
      * exists true, b'. split; [done|]. exists (S n), m', v.
        split; [by apply (buffering_weaken _ _ _ (x - d)); [lia|]|]. split; [done|].
        split; [done|]. split; [lia|]. split; [lia|]. intros k s Hk L.
        assert (k = n) as -> by lia. congruence.
      * destruct (IH b' (S n) m' v HB' Ev ltac:(lia) ltac:(lia)) as (ok & b2 & -> & R).
        exists ok, b2. split; [done|].
        assert (C : forall k s, xs !! k = Some s -> k = n -> t s < x) by (intros k s Hk ->; congruence).
        destruct ok.
        -- destruct R as (n' & m2 & w & ? & ? & ? & ? & ? & R). exists n', m2, w.
           repeat (split; [done || lia|]). intros k s Hk L. destruct (Nat.eq_dec k n); [by apply (C k)|].
           apply (R k); [done|lia].
        -- destruct R as [OK R]. split; [done|]. intros k s Hk L. destruct (Nat.eq_dec k n); [by apply (C k)|].
           apply (R k); [done|lia].
    + exists false, b'. split; [done|]. split; [apply OK|]. intros k s Hk L.
      pose proof (lookup_lt_Some _ _ _ Hk). assert (k = n) as -> by lia. congruence.
Qed.

(** Between calls: the current sample is [u], and what left the buffer is out
    of its range. *)
Definition at_rest (b : BufferedSeriesIterator It) (n m : nat) (u : sample) : Prop :=
  buffering b n m (t u - d) /\ xs !! n = Some u /\ lastTime b = t u.

(** A new buffer over a series that is not empty. *)
Definition fresh (b : BufferedSeriesIterator It) : Prop :=
  b_ok b = true /\ positioned (b_it b) 0 /\ delta (b_buf b) = d /\ (0 < length (buf (b_buf b)))%nat /\
  lastTime b = min_int64 /\ (0 < length xs)%nat.

Definition start (b : BufferedSeriesIterator It) (n : nat) : Prop :=
  (fresh b /\ n = O) \/ exists m u, at_rest b n m u.

(** The underlying [Seek] of the first branch. *)
Lemma jump_spec b n x :
  start b n -> min_int64 < x - d -> x <= max_int64 -> lastTime b < x - d ->
  let (ok, it) := it_Seek (x - d) (b_it b) in
  if ok then exists n' u, let b' := mkBuffered it (reset (b_buf b)) (t (it_At it)) true in
    buffering b' n' n' (x - d) /\ xs !! n' = Some u /\ lastTime b' = t u /\ (n <= n')%nat /\
    (forall k s, xs !! k = Some s -> (n <= k < n')%nat -> t s < x - d)
  else forall k s, xs !! k = Some s -> (n <= k)%nat -> t s < x - d.
Proof.
  intros S X1 X2 LT.
  assert (A : positioned (b_it b) n /\ (n < length xs)%nat /\ delta (b_buf b) = d /\
              (0 < length (buf (b_buf b)))%nat /\ forall k s, xs !! k = Some s -> (k < n)%nat -> t s < x - d).
  { destruct S as [[(OK & P & D & LB & LM & LX) ->]|(m & u & (OK & P & D & L & HH & B) & E & LM)].
    - repeat (split; [done|]). intros; lia.
    - repeat (split; [done || lia|]). split; [destruct HH as (? & _); lia|].
      intros k s Hk K. pose proof (sorted k n s u Hk E K). lia. }
  destruct A as (P & L & D & LB & B).
  pose proof (Seek_law (xs := xs) _ _ (x - d) P L) as SLaw.
  destruct (it_Seek (x - d) (b_it b)) as [ok it]. cbv zeta in SLaw. destruct SLaw as [-> NP].
  destruct (seek_index_spec (x - d) (drop n xs) n) as (I1 & I2 & I3 & I4).
  set (n' := seek_index (x - d) (drop n xs) n) in *.
  assert (BT : forall k s, xs !! k = Some s -> (n <= k < n')%nat -> t s < x - d).
  { intros k s Hk K. apply (I2 (k - n)%nat); [|lia]. rewrite lookup_drop. by replace (n + (k - n))%nat with k by lia. }
  destruct (Nat.ltb_spec n' (length xs)) as [LN|LN].
  - specialize (NP eq_refl). destruct (lookup_lt_is_Some_2 xs n' LN) as [u Hu]. exists n', u. cbv zeta.
    rewrite (At_law _ _ _ NP Hu).
    split; [|by repeat (split; [done|])]. repeat (split; [done || lia|]). split.
    + rewrite Nat.sub_diag. by apply holds_reset.
    + intros k s Hk K. destruct (Nat.lt_ge_cases k n); [by apply (B k)|]. apply (BT k); [done|lia].
  - intros k s Hk K. pose proof (lookup_lt_Some _ _ _ Hk). apply (BT k); [done|lia].
Qed.

Lemma Seek_spec b n x fuel :
  start b n -> min_int64 < x - d -> x <= max_int64 -> (length xs <= fuel)%nat -> seeks x b n (Seek fuel x b).
Proof.
  intros S X1 X2 F. unfold Seek.
  assert (D : delta (b_buf b) = d) by (destruct S as [[(?&?&?&_) _]|(m & u & (?&?&?&_) & _)]; done).
  rewrite D, i64_id by lia. pose proof (jump_spec b n x S X1 X2) as J.
  destruct (Z.ltb_spec (lastTime b) (x - d)) as [LT|LT].
  - specialize (J LT). destruct (it_Seek (x - d) (b_it b)) as [[] it].
    + destruct J as (n' & u & HB & Hu & HL & Ln & BT). cbv zeta in *. rewrite HL.
      destruct (Z.leb_spec x (t u)).
      * eexists true, _. split; [done|]. exists n', n', u.
        split; [by apply (buffering_weaken _ _ _ (x - d)); [lia|]|]. repeat (split; [done|]).
        intros k s Hk K. specialize (BT k s Hk K). lia.
      * destruct (seek_loop_spec fuel x _ n' n' u HB Hu ltac:(lia) ltac:(lia)) as (ok & b' & E & R).
        exists ok, b'. split; [rewrite <- E; cbn in HL; by rewrite HL|].
        assert (C : forall k s, xs !! k = Some s -> (n <= k < n')%nat -> t s < x)
          by (intros k s Hk K; specialize (BT k s Hk K); lia).
        destruct ok.
        -- destruct R as (n2 & m2 & w & ? & ? & ? & ? & ? & R). exists n2, m2, w.
           repeat (split; [done || lia|]). intros k s Hk K.
           destruct (Nat.lt_ge_cases k n'); [apply (C k)|apply (R k)]; done || lia.
        -- destruct R as [OK R]. split; [done|]. intros k s Hk K.
           destruct (Nat.lt_ge_cases k n'); [apply (C k)|apply (R k)]; done || lia.
    + eexists false, _. split; [done|]. split; [done|]. intros k s Hk K. specialize (J k s Hk K). lia.
  - destruct S as [[(_ & _ & _ & _ & LM & _) _]|(m & u & HB & E & LM)]; [lia|].
    destruct (Z.leb_spec x (lastTime b)).
    + exists true, b. split; [done|]. exists n, m, u.
      split; [done|]. repeat (split; [done || lia|]). intros; lia.
    + apply seek_loop_spec with m u; [|done|lia|lia]. by apply (buffering_weaken _ _ _ (t u - d)); [lia|].
Qed.
End seek.

(** * An iterator over a list *)

(** The samples, and how many have been returned by [Next] (the current one
    included). *)
Record list_iterator := mkListIterator { li_all : list sample; li_next : nat }.

#[export] Instance list_SeriesIterator : SeriesIterator list_iterator := {
  it_At it := default zero_sample (li_all it !! (li_next it - 1)%nat);
  it_Next it := ((li_next it <? length (li_all it))%nat, mkListIterator (li_all it) (S (li_next it)));
  it_Seek x it :=
    let k := seek_index x (drop (li_next it - 1) (li_all it)) (li_next it - 1) in
    ((k <? length (li_all it))%nat, mkListIterator (li_all it) (S k))
}.

Definition list_positioned (xs : list sample) (it : list_iterator) (n : nat) : Prop :=
  li_all it = xs /\ li_next it = S n.

#[export] Instance list_laws xs : SeriesIteratorLaws list_iterator xs (list_positioned xs).
Proof.
  split.
  - intros [a k] n s [E1 E2] Hs. cbn in *. subst. cbn. by rewrite Nat.sub_0_r, Hs.
  - intros [a k] n [E1 E2] L. cbn in *. subst. done.
  - intros [a k] n x [E1 E2] L. cbn in *. subst. by rewrite Nat.sub_succ, Nat.sub_0_r.
Qed.

(** A series as storage returns it: times strictly increase, and leave room
    for the look-back below. *)
Definition valid_series (d : Z) (xs : list sample) : Prop :=
  (forall a b s u, xs !! a = Some s -> xs !! b = Some u -> (a < b)%nat -> t s < t u) /\
  (forall a s, xs !! a = Some s -> min_int64 <= t s - d /\ t s <= max_int64).

(** [BufferedSeriesIterator.Seek], over any iterator that meets the
    contract of [SeriesIterator]: it neither panics nor loops; it returns true
    exactly when the series has a sample at or after [x] from the current
    position on, stops at the first such sample [u], and leaves in the buffer
    a segment of the series that ends just before [u] and holds every earlier
    sample within [delta] of it. *)
Theorem Seek_buffers `{SL : SeriesIteratorLaws It xs positioned} (d x : Z) (b : BufferedSeriesIterator It) (n : nat)
  (Hd : 0 <= d) (V : valid_series d xs) (ST : start xs positioned d b n)
  (X : min_int64 < x - d /\ x <= max_int64) :
  exists ok b', Seek (length xs) x b = Some (ok, b') /\
    if ok then exists n' m u, at_rest xs positioned d b' n' m u /\ (n <= n')%nat /\ x <= t u /\
      (forall k s, xs !! k = Some s -> (n <= k < n')%nat -> t s < x) /\
      samples (b_buf b') = take (n' - m) (drop m xs) /\
      (forall k s, xs !! k = Some s -> (k < n')%nat -> t u - d <= t s -> s ∈ samples (b_buf b'))
    else forall k s, xs !! k = Some s -> (n <= k)%nat -> t s < x.
Proof.
  destruct V as [V1 V2], X as [X1 X2].
  destruct (Seek_spec xs positioned d Hd V1 V2 b n x (length xs) ST X1 X2 ltac:(lia)) as (ok & b' & E & R).
  exists ok, b'. split; [done|]. destruct ok; [|by destruct R].
  destruct R as (n' & m & u & HB & Hu & HL & XU & Ln & R). exists n', m, u.
  split; [by split|]. split; [done|]. split; [done|]. split; [done|].
  destruct HB as (_ & _ & _ & L & HH & B). rewrite (samples_holds _ _ HH). split; [done|].
  intros k s Hk K T. destruct (Nat.lt_ge_cases k m) as [C|C]; [specialize (B k s Hk C); lia|].
  apply (list_elem_of_lookup_2 _ (k - m)). rewrite lookup_take_lt by lia.
  rewrite lookup_drop. by replace (m + (k - m))%nat with k by lia.
Qed.

Definition sample_series : list sample := map (fun x => mkSample x (of_Z x)) [1; 4; 6; 9; 15].

Lemma Seek_buffers_witness :
  exists b', Seek 5 8 (NewBuffer (mkListIterator sample_series 0) 5) = Some (true, b') /\
    map t (samples (b_buf b')) = [4; 6] /\ lastTime b' = 9.
Proof.
  assert (V : valid_series 5 sample_series).
  { split.
    - intros a b s u Ha Hb L. 
      do 5 (destruct a as [|a]; [injection Ha as <-; do 5 (destruct b as [|b]; [first [lia | injection Hb as <-; reflexivity]|]); discriminate Hb|]).
      discriminate Ha.
    - intros a s Ha. do 5 (destruct a as [|a]; [injection Ha as <-; split; discriminate|]). discriminate Ha. }
  assert (ST : start sample_series (list_positioned sample_series) 5 (NewBuffer (mkListIterator sample_series 0) 5) 0).
  { left. split; [|reflexivity]. repeat split; cbn; lia. }
  destruct (Seek_buffers 5 8 _ 0 ltac:(lia) V ST ltac:(split; reflexivity || discriminate)) as (ok & b' & E & _).
  exists b'. vm_compute in E. injection E as <- <-. repeat split.
Defined.
