(* ===== verification/Window.v ===== *)
(** storage/buffer.go as the query engine uses it: a buffered iterator that is
    sought at increasing times keeps, at each of them, the samples of the
    look-back window. *)

From S2P Require Import Prelude Float Buffer.
From Stdlib Require Import Sorted.

(** What the engine relies on besides [SeriesIteratorLaws]: an iterator that
    has run out stays so. *)
Class SeriesIteratorEnd (It : Type) `{SeriesIterator It} (xs : list sample) (positioned : It -> nat -> Prop)
    (exhausted : It -> Prop) := {
  Next_end it n it' : positioned it n -> it_Next it = (false, it') -> exhausted it';
  Seek_end it n x it' : positioned it n -> it_Seek x it = (false, it') -> exhausted it';
  Seek_exhausted it x : exhausted it -> exists it', it_Seek x it = (false, it') /\ exhausted it'
}.

(** The samples of a series before a time, and from it on. *)
Definition before (x : Z) (xs : list sample) : list sample := List.filter (fun s => t s <? x) xs.
Definition from (x : Z) (xs : list sample) : list sample := List.filter (fun s => x <=? t s) xs.

Section window.
Context `{SI : SeriesIterator It} (xs : list sample) (positioned : It -> nat -> Prop) (exhausted : It -> Prop)
        `{SL : !SeriesIteratorLaws It xs positioned} `{SE : !SeriesIteratorEnd It xs positioned exhausted}.

Variable d : Z.
Hypothesis Hd : 0 <= d.
Hypothesis V : valid_series d xs.

Local Notation buffering := (buffering xs positioned d).
Local Notation drained := (drained xs d).

(** The states of a buffered iterator: new, with [lo] as the last time sought
    and a sample at or after it, or with the series behind it. *)
Definition unread (b : BufferedSeriesIterator It) : Prop :=
  b_ok b = true /\ delta (b_buf b) = d /\ holds (b_buf b) [] /\ lastTime b = min_int64 /\
  (positioned (b_it b) 0 /\ (0 < length xs)%nat \/ exhausted (b_it b) /\ xs = []).

Definition live (lo : Z) (b : BufferedSeriesIterator It) : Prop :=
  exists n m u, buffering b n m (lo - d) /\ xs !! n = Some u /\ lastTime b = t u /\ lo <= t u /\
    forall k s, xs !! k = Some s -> (k < n)%nat -> t s < lo.

Definition over (lo : Z) (b : BufferedSeriesIterator It) : Prop :=
  exists m, drained b m (lo - d) /\ exhausted (b_it b) /\ lastTime b < lo /\ (xs = [] -> lastTime b = min_int64) /\
    forall k s, xs !! k = Some s -> t s < lo /\ (t s <= lastTime b \/ t s < lo - d).

(** Fit for a seek to any time from [lo] on. *)
Definition ready (lo : Z) (b : BufferedSeriesIterator It) : Prop := unread b \/ live lo b \/ over lo b.

(** The outcome of a seek. *)
Definition sought (x : Z) (r : option (bool * BufferedSeriesIterator It)) : Prop :=
  (exists b', r = Some (true, b') /\ live x b') \/ (exists b', r = Some (false, b') /\ over x b').

Lemma jump_live lo b n m u :
  buffering b n m (lo - d) -> xs !! n = Some u -> lastTime b = t u -> lo <= t u -> start xs positioned d b n.
Proof.
  intros HB E L LE. right. exists m, u. split; [|done].
  apply (buffering_weaken _ _ _ _ _ _ (lo - d)); [lia|done].
Qed.

(** The loop of [Seek], from a current sample before the time sought. *)
Lemma seek_loop_window fuel x b n m u :
  buffering b n m (x - d) -> xs !! n = Some u -> lastTime b = t u -> t u < x ->
  (forall k s, xs !! k = Some s -> (k < n)%nat -> t s < x) -> (length xs - n <= fuel)%nat ->
  sought x (seek_loop fuel x b).
Proof.
  revert b n m u. induction fuel as [|fuel IH]; intros b n m u HB E LT L B F.
  { destruct HB as (_ & _ & _ & LN & _). lia. }
  cbn [seek_loop]. destruct V as [V1 V2].
  assert (B' : forall k s, xs !! k = Some s -> (k < S n)%nat -> t s < x).
  { intros k s Hk K. destruct (decide (k = n)) as [->|NE]; [congruence|]. apply (B k); [done|lia]. }
  destruct (Next_buffering xs positioned d Hd V2 b n m (x - d) u HB E ltac:(lia))
    as [(LS & b' & m' & -> & HB' & v & Ev & LTv)|(LS & b' & m' & -> & DR & EN & LTv)].
  - destruct (Z.leb_spec x (lastTime b')).
    + left. exists b'. split; [done|]. exists (S n), m', v. repeat (split; [done || lia|]). done.
    + apply (IH b' (S n) m' v HB' Ev LTv); [lia|done|lia].
  - right. exists b'. split; [done|]. exists m'. split; [done|].
    destruct HB as (_ & P & _). split; [by apply (Next_end _ _ _ P)|]. split; [lia|].
    split; [by intros ->|]. intros k s Hk. pose proof (lookup_lt_Some _ _ _ Hk).
    split; [apply (B' k s Hk); lia|]. left. rewrite LTv, LT.
    destruct (decide (k = n)) as [->|NE]; [rewrite Hk in E; injection E as ->; lia|].
    pose proof (V1 k n s u Hk E ltac:(lia)). lia.
Qed.

Definition jumped (b : BufferedSeriesIterator It) (it : It) : BufferedSeriesIterator It :=
  mkBuffered it (reset (b_buf b)) (t (it_At it)) true.

Lemma reset_drained (b : BufferedSeriesIterator It) x :
  delta (b_buf b) = d -> (0 < length (buf (b_buf b)))%nat -> (forall k s, xs !! k = Some s -> t s < x - d) ->
  forall it : It, drained (mkBuffered it (reset (b_buf b)) (lastTime b) false) (length xs) (x - d).
Proof.
  intros D L A it. split; [done|]. split; [done|]. split; [rewrite drop_all; by apply holds_reset|].
  intros k s Hk _. by apply (A k).
Qed.

(** The jump of the first branch, with a current sample. *)
Lemma jump_window fuel x b n :
  start xs positioned d b n -> (forall k s, xs !! k = Some s -> (k < n)%nat -> t s < x) ->
  lastTime b < x - d -> min_int64 < x - d -> x <= max_int64 -> (length xs <= fuel)%nat ->
  let (ok, it) := it_Seek (x - d) (b_it b) in
  if ok then sought x (if x <=? t (it_At it) then Some (true, jumped b it) else seek_loop fuel x (jumped b it))
  else over x (mkBuffered it (reset (b_buf b)) (lastTime b) false).
Proof.
  intros ST B LT X1 X2 F. destruct V as [V1 V2].
  pose proof (jump_spec xs positioned d V1 b n x ST X1 X2 LT) as H.
  assert (P : positioned (b_it b) n /\ delta (b_buf b) = d /\ (0 < length (buf (b_buf b)))%nat /\ xs <> []).
  { destruct ST as [[(_ & P & D & L & _ & LX) ->]|(m & u & (_ & P & D & _ & (L & _) & _) & E & _)];
      (split; [done|]); (split; [done|]); (split; [lia|]); intros EX; rewrite EX in *; [cbn in LX; lia|by rewrite lookup_nil in E]. }
  destruct P as (P & D & L & NE). destruct (it_Seek (x - d) (b_it b)) as [[] it] eqn:ES.
  - destruct H as (n' & u & HB & Eu & LTu & NN & B2). cbn in LTu.
    assert (B3 : forall k s, xs !! k = Some s -> (k < n')%nat -> t s < x).
    { intros k s Hk K. destruct (Nat.lt_ge_cases k n); [by apply (B k)|]. specialize (B2 k s Hk ltac:(lia)). lia. }
    rewrite LTu. destruct (Z.leb_spec x (t u)).
    + left. eexists. split; [done|]. exists n', n', u. repeat (split; [done|]). done.
    + apply (seek_loop_window fuel x _ n' n' u HB Eu LTu ltac:(lia) B3). lia.
  - assert (A : forall k s, xs !! k = Some s -> t s < x - d).
    { intros k s Hk. destruct (Nat.lt_ge_cases k n) as [K|K]; [|by apply (H k)].
      destruct ST as [[_ ->]|(m & u & HB & Eu & LTu)]; [lia|]. pose proof (V1 k n s u Hk Eu K). lia. }
    exists (length xs). split; [by apply reset_drained|]. split; [by apply (Seek_end _ _ _ _ P ES)|].
    split; [cbn; lia|]. split; [done|]. intros k s Hk. specialize (A k s Hk). lia.
Qed.

(** The jump on an iterator that has run out. *)
Lemma jump_over x (b : BufferedSeriesIterator It) :
  exhausted (b_it b) -> delta (b_buf b) = d -> (0 < length (buf (b_buf b)))%nat -> lastTime b < x - d ->
  (xs = [] -> lastTime b = min_int64) -> (forall k s, xs !! k = Some s -> t s < x - d) ->
  exists it, it_Seek (x - d) (b_it b) = (false, it) /\ over x (mkBuffered it (reset (b_buf b)) (lastTime b) false).
Proof.
  intros E D L LT EM A. destruct (Seek_exhausted (b_it b) (x - d) E) as (it & ES & E'). exists it. split; [done|].
  exists (length xs). split; [by apply reset_drained|]. split; [done|]. split; [cbn; lia|]. split; [done|].
  intros k s Hk. specialize (A k s Hk). lia.
Qed.

(** [Seek] keeps the state fit and says whether a sample is left. *)
Lemma Seek_sought lo x b fuel :
  ready lo b -> lo <= x -> min_int64 < x - d -> x <= max_int64 -> (length xs <= fuel)%nat ->
  sought x (Seek fuel x b).
Proof.
  intros R LO X1 X2 F. unfold Seek.
  assert (D : delta (b_buf b) = d) by (destruct R as [(_&D&_)|[(n&m&u&(_&_&D&_)&_)|(m&(_&D&_)&_)]]; done).
  rewrite D, i64_id by lia.
  destruct R as [(OK & _ & HH & LM & P)|[(n & m & u & HB & E & LM & LE & B)|(m & DR & E & LM & EM & A)]].
  - destruct (Z.ltb_spec (lastTime b) (x - d)) as [LT|]; [|lia]. destruct HH as (LB & _).
    destruct P as [[P LX]|[E EX0]].
    + pose proof (jump_window fuel x b 0) as J. destruct (it_Seek (x - d) (b_it b)) as [[] it];
        [apply J|right; eexists; split; [done|apply J]]; try lia; left; (split; [|done]);
        repeat (split; [done || lia|]); done.
    + destruct (jump_over x b E D ltac:(lia) LT ltac:(done)) as (it & -> & O); [intros k s; by rewrite EX0, lookup_nil|].
      right. eauto.
  - assert (B' : forall k s, xs !! k = Some s -> (k < n)%nat -> t s < x) by (intros k s Hk K; specialize (B k s Hk K); lia).
    destruct (Z.ltb_spec (lastTime b) (x - d)) as [LT|LT].
    + pose proof (jump_window fuel x b n (jump_live lo b n m u HB E LM LE) B' LT X1 X2 F) as J.
      destruct (it_Seek (x - d) (b_it b)) as [[] it]; [exact J|]. right. eauto.
    + assert (HB' : buffering b n m (x - d)) by (apply (buffering_weaken _ _ _ _ _ _ (lo - d)); [lia|done]).
      destruct (Z.leb_spec x (lastTime b)) as [GE|GE].
      * left. exists b. split; [done|]. exists n, m, u. repeat (split; [done || lia|]). done.
      * apply (seek_loop_window fuel x b n m u); try done; [lia|]. destruct HB as (_ & _ & _ & L & _). lia.
  - destruct (Z.ltb_spec (lastTime b) (x - d)) as [LT|LT].
    + destruct (jump_over x b E D) as (it & -> & O); [destruct DR as (_ & _ & (L & _) & _); lia|done|done| |right; eauto].
      intros k s Hk. destruct (A k s Hk). lia.
    + destruct (Z.leb_spec x (lastTime b)); [lia|]. right. exists b. destruct DR as (OK & D' & HH & B).
      assert (NE : xs <> []) by (intros EX0; specialize (EM EX0); lia).
      destruct fuel as [|fuel]; [destruct xs; cbn in F; [done|lia]|]. cbn [seek_loop]. unfold Next. rewrite OK. cbn [negb].
      split; [done|]. exists m. split; [|split; [done|split; [lia|split; [done|]]]].
      * repeat (split; [done|]). intros k s Hk K. specialize (B k s Hk K). lia.
      * intros k s Hk. destruct (A k s Hk). lia.
Qed.

(** * The window *)

Lemma split_at n x :
  (forall k s, xs !! k = Some s -> (k < n)%nat -> t s < x) ->
  (forall k s, xs !! k = Some s -> (n <= k)%nat -> x <= t s) ->
  before x xs = take n xs /\ from x xs = drop n xs.
Proof.
  intros B F. unfold before, from. rewrite <- (take_drop n xs), !List.filter_app, !(take_drop n xs).
  assert (T : forall s, s ∈ take n xs -> t s < x).
  { intros s (k & Hk)%list_elem_of_lookup. pose proof (lookup_lt_Some _ _ _ Hk) as L. rewrite length_take in L.
    rewrite lookup_take_lt in Hk by lia. apply (B k s Hk). lia. }
  assert (D : forall s, s ∈ drop n xs -> x <= t s).
  { intros s (k & Hk)%list_elem_of_lookup. rewrite lookup_drop in Hk. apply (F (n + k)%nat s Hk). lia. }
  split.
  - rewrite filter_all, (filter_none _ (drop n xs)), app_nil_r; [done|..]; intros s S.
    + specialize (D s S). lia.
    + specialize (T s S). lia.
  - rewrite (filter_none _ (take n xs)), filter_all; [done|..]; intros s S.
    + specialize (D s S). lia.
    + specialize (T s S). lia.
Qed.

(** What a seek to [x] leaves: the buffer ends with every sample in the
    look-back window before [x], and the current sample is the first one from
    [x] on. *)
Definition window (x : Z) (ok : bool) (b : BufferedSeriesIterator It) : Prop :=
  holds (b_buf b) (samples (b_buf b)) /\
  (exists old, before x xs = old ++ samples (b_buf b) /\ Forall (fun s => t s < x - d) old) /\
  match from x xs with u :: _ => ok = true /\ Values b = u | [] => ok = false /\ exhausted (b_it b) end.

Lemma take_Forall m (P : sample -> Prop) :
  (forall k s, xs !! k = Some s -> (k < m)%nat -> P s) -> Forall P (take m xs).
Proof.
  intros H. apply Forall_forall. intros s (k & Hk)%list_elem_of_lookup.
  pose proof (lookup_lt_Some _ _ _ Hk) as L. rewrite length_take in L.
  rewrite lookup_take_lt in Hk by lia. apply (H k s Hk). lia.
Qed.

Lemma live_window x b : live x b -> window x true b.
Proof.
  intros (n & m & u & (OK & P & D & L & HH & B) & E & LT & GE & BX). destruct V as [V1 V2].
  destruct (split_at n x BX) as [EB EF].
  { intros k s Hk K. destruct (decide (k = n)) as [->|NE]; [rewrite E in Hk; injection Hk as <-; done|].
    pose proof (V1 n k u s E Hk ltac:(lia)). lia. }
  unfold window. rewrite (samples_holds _ _ HH), EB, EF. split; [done|]. split.
  - exists (take m xs). split; [|by apply take_Forall].
    rewrite <- (take_drop m xs) at 1. rewrite take_app, take_take, length_take.
    f_equal; [f_equal; lia|f_equal; lia].
  - rewrite (drop_S _ _ _ E). split; [done|]. by apply (At_law _ _ _ P E).
Qed.

Lemma over_window x b : over x b -> window x false b.
Proof.
  intros (m & (OK & D & HH & B) & E & LT & EM & A).
  destruct (split_at (length xs) x) as [EB EF].
  { intros k s Hk _. by apply (A k s Hk). }
  { intros k s Hk K. pose proof (lookup_lt_Some _ _ _ Hk). lia. }
  unfold window. rewrite (samples_holds _ _ HH), EB, EF, drop_all, firstn_all. split; [done|]. split; [|done].
  exists (take m xs). split; [by rewrite take_drop|by apply take_Forall].
Qed.

Lemma Seek_window lo x b fuel :
  ready lo b -> lo <= x -> min_int64 < x - d -> x <= max_int64 -> (length xs <= fuel)%nat ->
  exists ok b', Seek fuel x b = Some (ok, b') /\ window x ok b' /\ ready x b'.
Proof.
  intros R LO X1 X2 F. destruct (Seek_sought lo x b fuel R LO X1 X2 F) as [(b' & E & S)|(b' & E & S)].
  - exists true, b'. split; [done|]. split; [by apply live_window|]. right. by left.
  - exists false, b'. split; [done|]. split; [by apply over_window|]. right. by right.
Qed.
End window.

(** * The last sample of a window *)

Definition increasing (xs : list sample) : Prop :=
  forall a b s u, xs !! a = Some s -> xs !! b = Some u -> (a < b)%nat -> t s < t u.

Lemma valid_series_intro d xs :
  StronglySorted (fun a b => t a < t b) xs -> Forall (fun s => min_int64 <= t s - d /\ t s <= max_int64) xs -> valid_series d xs.
Proof.
  intros S F. split; [|by intros a s Ha; rewrite Forall_lookup in F; apply (F a)].
  clear F. induction S as [|s xs _ IH F]; intros a b u w Ha Hb L; [by rewrite lookup_nil in Ha|].
  destruct b as [|b]; [lia|]. destruct a as [|a]; cbn in Ha, Hb; [|by apply (IH a b); [..|lia]].
  injection Ha as <-. rewrite Forall_lookup in F. by apply (F b).
Qed.

Lemma lookup_app_add {A} (xs ys : list A) k : (xs ++ ys) !! (length xs + k)%nat = ys !! k.
Proof. rewrite lookup_app_r by lia. f_equal. lia. Qed.

Lemma increasing_app xs ys : increasing (xs ++ ys) ->
  increasing xs /\ increasing ys /\ forall s u, s ∈ xs -> u ∈ ys -> t s < t u.
Proof.
  intros I. split; [|split].
  - intros a b s u A B L. apply (I a b); [by apply lookup_app_l_Some|by apply lookup_app_l_Some|done].
  - intros a b s u A B L. apply (I (length xs + a)%nat (length xs + b)%nat); [by rewrite lookup_app_add..|lia].
  - intros s u (a & A)%list_elem_of_lookup (b & B)%list_elem_of_lookup.
    apply (I a (length xs + b)%nat); [by apply lookup_app_l_Some| |apply lookup_lt_Some in A; lia].
    by rewrite lookup_app_add.
Qed.

Lemma last_filter_from c xs : increasing xs ->
  last (List.filter (fun s => c <=? t s) xs) =
  match last xs with Some s => if c <=? t s then Some s else None | None => None end.
Proof.
  destruct xs as [|s xs _] using rev_ind; intros I; [done|].
  rewrite List.filter_app, last_snoc. cbn. destruct (Z.leb_spec c (t s)) as [L|L]; [by rewrite last_snoc|].
  rewrite app_nil_r, filter_none; [done|]. apply increasing_app in I as (_ & _ & LT).
  intros u U. specialize (LT u s U ltac:(by left)). lia.
Qed.
