(* ===== verification/Evaluator.v ===== *)
(** promql/engine.go, the [evaluator]: how evaluation fails, the iterators it
    moves, and the selectors.  An evaluation is a computation in a state and
    error monad. *)

From S2P Require Import Prelude GoString GoFmt Float Labels Lexer Ast Value Buffer.

(** * Errors *)

(** What interrupts an evaluation.  [EvErrorf] is an error of the query, given
    to [ev.errorf]; [EvType] is the one raised when an expression has a value
    of the wrong type; [EvInternal] is a panic with an error the code holds
    impossible; [EvRuntime] is a runtime panic; [EvCrash] is a panic with a
    value that is not an error, on which [recover] itself panics.  [EvFuel] is
    not an error of the code. *)
Inductive everr :=
| EvErrorf (s : string)
| EvType (s : string)
| EvInternal (s : string)
| EvStorage (s : string)
| EvContext (s : string)
| EvRuntime
| EvCrash (s : string)
| EvFuel.

#[export] Instance everr_eq_dec : EqDecision everr.
Proof. solve_decision. Defined.

(** [ev.recover]: the error [Eval] returns, [None] if it does not return. *)
Definition recover (e : everr) : option string :=
  match e with
  | EvErrorf s | EvType s | EvInternal s | EvStorage s | EvContext s => Some s
  | EvRuntime => Some "unexpected error"
  | EvCrash _ | EvFuel => None
  end.

(** The errors a query is meant to end with. *)
Definition query_error (e : everr) : Prop :=
  match e with EvErrorf _ | EvStorage _ | EvContext _ => True | _ => False end.

Definition of_option {A} (o : option A) : result everr A :=
  match o with Some a => Ok a | None => Err EvRuntime end.

(** A loop that may fail, over a list. *)
Fixpoint mapM_result {E A B} (f : A -> result E B) (l : list A) : result E (list B) :=
  match l with
  | [] => Ok []
  | a :: l' => match f a with
               | Err e => Err e
               | Ok b => match mapM_result f l' with Err e => Err e | Ok bs => Ok (b :: bs) end
               end
  end.

(** * Times *)

(** [durationMilliseconds] and [timeMilliseconds] *)
Definition durationMilliseconds (d : Z) : Z := Z.quot d 1000000.
Definition timeMilliseconds (ns : Z) : Z := Z.quot (i64 ns) 1000000.

(** [var LookbackDelta = 5 * time.Minute] *)
Definition LookbackDelta : Z := 5 * 60 * 1000000000.

(** * The evaluator *)

(** The error of a series iterator ([SeriesIterator.Err]). *)
Class IteratorErr (It : Type) := { it_Err : It -> option string }.

(** The state of an evaluation: how often the context was looked at, and the
    series and iterators of the selectors, in the order in which query
    preparation visits them. *)
Record evstate (It : Type) := mkEv {
  ticks : nat;
  store : list (list (Labels * BufferedSeriesIterator It))
}.
Arguments mkEv {It} _ _.
Arguments ticks {It} _.
Arguments store {It} _.

(** Computations over a state that may fail. *)
Definition EM (St A : Type) : Type := St -> result everr (A * St).

#[export] Instance EM_ret St : MRet (EM St) := fun A a st => Ok (a, st).
#[export] Instance EM_bind St : MBind (EM St) := fun A B f m st =>
  match m st with Ok (a, st') => f a st' | Err e => Err e end.

Definition throw {St A} (e : everr) : EM St A := fun _ => Err e.
Definition lift {St A} (r : result everr A) : EM St A := fun st =>
  match r with Ok a => Ok (a, st) | Err e => Err e end.
Definition ev_errorf {St A} (s : string) : EM St A := throw (EvErrorf s).

(** [contextDone]: the answer of [ctx.Done()] to the [n]th look at it. *)
Inductive ctx_err := Canceled | DeadlineExceeded | OtherErr (s : string).
Definition ctx_message (env : string) (e : ctx_err) : string :=
  match e with
  | Canceled => "query was canceled in " +:+ env
  | DeadlineExceeded => "query timed out in " +:+ env
  | OtherErr s => s
  end.
Definition contextDone {It} (ctx : nat -> option ctx_err) (env : string) : EM (evstate It) unit := fun st =>
  match ctx (ticks st) with
  | Some e => Err (EvContext (ctx_message env e))
  | None => Ok (tt, mkEv (S (ticks st)) (store st))
  end.

(** * Selectors *)

(** The position of a selector in the store: the number of selectors visited
    before it, none for those that query preparation does not reach. *)
Notation position := (option nat) (only parsing).
Definition shift (p : position) (k : nat) : position := Nat.add k <$> p.

(** The number of selectors a walk over the expression visits. *)
Fixpoint walked `{Regexp} (e : Expr) : nat :=
  match e with
  | AggregateExpr _ e _ _ _ | ParenExpr e | UnaryExpr _ e => walked e
  | BinaryExpr _ l r _ _ => walked l + walked r
  | Call _ args => foldr (fun a n => walked a + n)%nat 0%nat args
  | MatrixSelector _ _ _ _ | VectorSelector _ _ _ => 1%nat
  | NumberLiteral _ | StringLiteral _ => 0%nat
  end.

Section selectors.
Context {It : Type} `{SI : SeriesIterator It} `{IE : !IteratorErr It}.

(** The evaluator's time, and the number of steps a [Seek] may take: as many
    as the series has samples. *)
Variables (Timestamp : Z) (seek_fuel : nat).

(** The body of the loop of [vectorSelector]. *)
Definition select_sample (refTime : Z) (lbls : Labels) (b : BufferedSeriesIterator It)
  : result everr (option Sample * BufferedSeriesIterator It) :=
  match Seek seek_fuel refTime b with
  | None => Err EvRuntime
  | Some (ok, b) =>
    match (if ok then None else it_Err (b_it b)) with
    | Some e => Err (EvStorage e)
    | None =>
      let finish (s : sample) := Ok (if IsStaleNaN (v s) then None else Some (mkPSample lbls (t s) (v s)), b) in
      let s := if ok then Values b else zero_sample in
      if negb ok || (refTime <? t s) then
        match PeekBack 1 b with
        | None => Err EvRuntime
        | Some (s, ok) =>
          if negb ok || (t s <? i64 (refTime - durationMilliseconds LookbackDelta)) then Ok (None, b)
          else finish s
        end
      else finish s
    end
  end.

(** The points of the buffer that [matrixSelector] keeps. *)
Definition keep_point (mint : Z) (s : sample) : option Point :=
  if IsStaleNaN (v s) then None else if mint <=? t s then Some (mkPoint (t s) (v s)) else None.

(** The loop over [it.Buffer()]; [None] is a panic. *)
Fixpoint buffer_points (fuel : nat) (mint : Z) (it : sampleRingIterator) : option (list Point) :=
  match fuel with
  | O => None
  | S n =>
    let (ok, it) := ring_Next it in
    if ok then
      match ring_At it with
      | None => None
      | Some s => (fun ps => option_list (keep_point mint s) ++ ps) <$> buffer_points n mint it
      end
    else Some []
  end.

(** The body of the loop of [matrixSelector]. *)
Definition select_points (mint maxt : Z) (lbls : Labels) (b : BufferedSeriesIterator It)
  : result everr (option Series * BufferedSeriesIterator It) :=
  match Seek seek_fuel maxt b with
  | None => Err EvRuntime
  | Some (ok, b) =>
    match (if ok then None else it_Err (b_it b)) with
    | Some e => Err (EvStorage e)
    | None =>
      match buffer_points (S (Z.to_nat (l (b_buf b)))) mint (Buffer b) with
      | None => Err EvRuntime
      | Some ps =>
        let s := Values b in
        let last := if ok && (t s =? maxt) && negb (IsStaleNaN (v s)) then [mkPoint (t s) (v s)] else [] in
        Ok (match ps ++ last with [] => None | ps => Some (mkSeries lbls ps) end, b)
      end
    end
  end.

(** The loop over a selector's iterators. *)
Fixpoint each_series {A} (f : Labels -> BufferedSeriesIterator It -> result everr (option A * BufferedSeriesIterator It))
  (l : list (Labels * BufferedSeriesIterator It)) : result everr (list A * list (Labels * BufferedSeriesIterator It)) :=
  match l with
  | [] => Ok ([], [])
  | (lbls, b) :: l' =>
    match f lbls b with
    | Err e => Err e
    | Ok (a, b') =>
      match each_series f l' with
      | Err e => Err e
      | Ok (xs, l'') => Ok (option_list a ++ xs, (lbls, b') :: l'')
      end
    end
  end.

Definition on_selector {A} (p : position)
  (f : Labels -> BufferedSeriesIterator It -> result everr (option A * BufferedSeriesIterator It)) : EM (evstate It) (list A) :=
  fun st =>
    match p with
    | None => Ok ([], st)
    | Some k =>
      match each_series f (default [] (store st !! k)) with
      | Err e => Err e
      | Ok (xs, l) => Ok (xs, mkEv (ticks st) (<[k := l]> (store st)))
      end
    end.

(** [ev.vectorSelector] and [ev.matrixSelector] *)
Definition vectorSelector (Offset : Z) (p : position) : EM (evstate It) Vector :=
  let refTime := i64 (Timestamp - durationMilliseconds Offset) in
  on_selector p (select_sample refTime).

Definition matrixSelector (Range Offset : Z) (p : position) : EM (evstate It) Matrix :=
  let maxt := i64 (Timestamp - durationMilliseconds Offset) in
  let mint := i64 (maxt - durationMilliseconds Range) in
  on_selector p (select_points mint maxt).
End selectors.
