(* ===== verification/RangeFuncs.v ===== *)
(** promql/functions.go: what the functions over a range compute from the points
    of one series. *)

From S2P Require Import Prelude GoString GoFmt Float GoMath Labels Ast Quantile Value Evaluator.

Definition zero : float64 := of_Z 0.
Definition one : float64 := of_Z 1.
Definition thousand : float64 := of_Z 1000.

(** [float64(len(points))] *)
Definition flen {A} (l : list A) : float64 := of_Z (Z.of_nat (length l)).

(** [points[i]], and its last element; [None] is the panic of the index. *)
Definition first_point (ps : list Point) : option Point := head ps.
Definition last_point (ps : list Point) : option Point := last ps.

(** [time.Duration.Seconds] *)
Definition Seconds (d : Z) : float64 :=
  fadd (of_Z (Z.quot d 1000000000)) (fdiv (of_Z (Z.rem d 1000000000)) (of_Z 1000000000)).

(** * [rate], [increase] and [delta] *)

(** The loop over the points: the counter's correction and its last value. *)
Definition counter_step (isCounter : bool) (acc : float64 * float64) (p : Point) : float64 * float64 :=
  let (correction, lastValue) := acc in
  (if isCounter && flt (p_V p) lastValue then fadd correction lastValue else correction, p_V p).

(** How far to extrapolate on one side. *)
Definition extrapolate (interval duration average : float64) : float64 :=
  if flt duration (fmul average (of_decimal false 11 (-1))) then fadd interval duration
  else fadd interval (fdiv average (of_Z 2)).

(** The body of the loop of [extrapolatedRate]; no value for fewer than two
    points. *)
Definition rate_value (Range rangeStart rangeEnd : Z) (isCounter isRate : bool) (ps : list Point) : option float64 :=
  match ps, last_point ps with
  | p0 :: _ :: _, Some pn =>
    let (counterCorrection, lastValue) := foldl (counter_step isCounter) (zero, zero) ps in
    let resultValue := fadd (fsub lastValue (p_V p0)) counterCorrection in
    let durationToStart := fdiv (of_Z (i64 (p_T p0 - rangeStart))) thousand in
    let durationToEnd := fdiv (of_Z (i64 (rangeEnd - p_T pn))) thousand in
    let sampledInterval := fdiv (of_Z (i64 (p_T pn - p_T p0))) thousand in
    let average := fdiv sampledInterval (of_Z (Z.of_nat (length ps) - 1)) in
    let durationToStart :=
      if isCounter && flt zero resultValue && fle zero (p_V p0) then
        let durationToZero := fmul sampledInterval (fdiv (p_V p0) resultValue) in
        if flt durationToZero durationToStart then durationToZero else durationToStart
      else durationToStart in
    let extrapolateToInterval := extrapolate (extrapolate sampledInterval durationToStart average) durationToEnd average in
    let resultValue := fmul resultValue (fdiv extrapolateToInterval sampledInterval) in
    Some (if isRate then fdiv resultValue (Seconds Range) else resultValue)
  | _, _ => None
  end.

(** * [irate] and [idelta] *)

(** The last two points, the last one first. *)
Definition last_two (ps : list Point) : option (Point * Point) :=
  match rev ps with p :: p' :: _ => Some (p, p') | _ => None end.

Definition instant_delta (isRate : bool) (ps : list Point) : option float64 :=
  match last_two ps with
  | None => None
  | Some (lastSample, previousSample) =>
    let resultValue := if isRate && flt (p_V lastSample) (p_V previousSample) then p_V lastSample
                       else fsub (p_V lastSample) (p_V previousSample) in
    let sampledInterval := i64 (p_T lastSample - p_T previousSample) in
    if sampledInterval =? 0 then None
    else Some (if isRate then fdiv resultValue (fdiv (of_Z sampledInterval) thousand) else resultValue)
  end.

(** * [holt_winters] *)

(** [s[i]] of a scratch slice, in range by construction. *)
Definition at_ (l : list float64) (i : nat) : float64 := nth i l zero.

(** [calcTrendValue] updates [b]. *)
Definition calcTrendValue (i : nat) (tf : float64) (s b : list float64) : float64 * list float64 :=
  if (i =? 0)%nat then (at_ b 0, b)
  else
    let x := fmul tf (fsub (at_ s i) (at_ s (i - 1))) in
    let y := fmul (fsub one tf) (at_ b (i - 1)) in
    let b := <[i := fadd x y]> b in
    (at_ b i, b).

(** The smoothing loop, from index [i] over the rest of [d]. *)
Fixpoint smooth (i : nat) (sf tf : float64) (d : list float64) (s b : list float64) : list float64 * list float64 :=
  match d with
  | [] => (s, b)
  | di :: d' =>
    let x := fmul sf di in
    let (trend, b) := calcTrendValue (i - 1) tf s b in
    let y := fmul (fsub one sf) (fadd (at_ s (i - 1)) trend) in
    smooth (S i) sf tf d' (<[i := fadd x y]> s) b
  end.

(** The body of the loop of [funcHoltWinters].  The scratch slices [s] and [b]
    outlive a series; [d] is filled anew. *)
Definition holt_winters_value (sf tf : float64) (ps : list Point) (scratch : list float64 * list float64)
  : option float64 * (list float64 * list float64) :=
  match map p_V ps with
  | d0 :: d1 :: d' =>
    let l := length ps in
    let (s, b) := if negb (l =? length scratch.1)%nat then (repeat zero l, repeat zero l) else scratch in
    let s := <[0%nat := d0]> s in
    let b := <[0%nat := fsub d1 d0]> b in
    let (s, b) := smooth 1 sf tf (d1 :: d') s b in
    (Some (at_ s (length s - 1)), (s, b))
  | _ => (None, scratch)
  end.

(** * Aggregation over time *)

Definition sum_over_time (ps : list Point) : float64 := foldl (fun acc p => fadd acc (p_V p)) zero ps.
Definition count_over_time (ps : list Point) : float64 := flen ps.
Definition avg_over_time (ps : list Point) : float64 := fdiv (sum_over_time ps) (flen ps).
Definition max_over_time (ps : list Point) : float64 := foldl (fun acc p => Max acc (p_V p)) (Inf true) ps.
Definition min_over_time (ps : list Point) : float64 := foldl (fun acc p => Min acc (p_V p)) (Inf false) ps.

(** [count] counts in floats. *)
Definition stdvar_over_time (ps : list Point) : float64 :=
  let sum := sum_over_time ps in
  let squaredSum := foldl (fun acc p => fadd acc (fmul (p_V p) (p_V p))) zero ps in
  let count := foldl (fun acc _ => fadd acc one) zero ps in
  let avg := fdiv sum count in
  fsub (fdiv squaredSum count) (fmul avg avg).
Definition stddev_over_time (ps : list Point) : float64 := Sqrt (stdvar_over_time ps).

(** * Linear regression *)

Record regression := mkRegression { r_n : float64; sumX : float64; sumY : float64; sumXY : float64; sumX2 : float64 }.

Definition regression_step (interceptTime : Z) (r : regression) (p : Point) : regression :=
  let x := fdiv (of_Z (i64 (p_T p - interceptTime))) thousand in
  mkRegression (fadd (r_n r) one) (fadd (sumX r) x) (fadd (sumY r) (p_V p))
    (fadd (sumXY r) (fmul x (p_V p))) (fadd (sumX2 r) (fmul x x)).

(** Slope and intercept. *)
Definition linearRegression (ps : list Point) (interceptTime : Z) : float64 * float64 :=
  let r := foldl (regression_step interceptTime) (mkRegression zero zero zero zero zero) ps in
  let covXY := fsub (sumXY r) (fdiv (fmul (sumX r) (sumY r)) (r_n r)) in
  let varX := fsub (sumX2 r) (fdiv (fmul (sumX r) (sumX r)) (r_n r)) in
  let slope := fdiv covXY varX in
  (slope, fsub (fdiv (sumY r) (r_n r)) (fdiv (fmul slope (sumX r)) (r_n r))).

Definition deriv_value (ps : list Point) : option float64 :=
  match ps with
  | p0 :: _ :: _ => Some (fst (linearRegression ps (p_T p0)))
  | _ => None
  end.

Definition predict_value (Timestamp : Z) (duration : float64) (ps : list Point) : option float64 :=
  match ps with
  | _ :: _ :: _ => let (slope, intercept) := linearRegression ps Timestamp in
                   Some (fadd (fmul slope duration) intercept)
  | _ => None
  end.

(** * [resets] and [changes] *)

Fixpoint count_steps (step : float64 -> float64 -> bool) (prev : float64) (ps : list Point) : Z :=
  match ps with
  | [] => 0
  | p :: ps' => (if step prev (p_V p) then 1 else 0) + count_steps step (p_V p) ps'
  end.

Definition is_reset (prev current : float64) : bool := flt current prev.
Definition is_change (prev current : float64) : bool := negb (feq current prev) && negb (IsNaN current && IsNaN prev).

(** [None] is the panic on a series without points. *)
Definition steps_value (step : float64 -> float64 -> bool) (ps : list Point) : option float64 :=
  match ps with p :: ps => Some (of_Z (count_steps step (p_V p) ps)) | [] => None end.
