(* ===== verification/SelectFacts.v ===== *)
(** What the selectors of [Evaluator] return: the most recent sample of each
    series within the look-back delta, and the samples of a range. *)

From S2P Require Import Prelude GoString GoFmt Float Labels Lexer Ast Value Buffer Window Evaluator.

(** * Specification *)

(** The samples with a time in [[lo, hi]]. *)
Definition between (lo hi : Z) (xs : list sample) : list sample :=
  List.filter (fun s => (lo <=? t s) && (t s <=? hi)) xs.

(** The value of a series at a time: its last sample in the look-back window,
    unless that one marks the series stale. *)
Definition instant_value (look x : Z) (xs : list sample) : option sample :=
  match last (between (x - look) x xs) with
  | Some s => if IsStaleNaN (v s) then None else Some s
  | None => None
  end.

Definition point_of (s : sample) : Point := mkPoint (t s) (v s).

(** The points of a range, without the stale markers. *)
Definition range_points (mint maxt : Z) (xs : list sample) : list Point :=
  map point_of (List.filter (fun s => negb (IsStaleNaN (v s))) (between mint maxt xs)).

Section select.
Context `{SI : SeriesIterator It} `{IE : !IteratorErr It}.

(** The contract of the iterators of every series. *)
Context (positioned : list sample -> It -> nat -> Prop) (exhausted : list sample -> It -> Prop)
        `{SL : !forall xs, SeriesIteratorLaws It xs (positioned xs)}
        `{SE : !forall xs, SeriesIteratorEnd It xs (positioned xs) (exhausted xs)}.
Hypothesis no_error : forall xs it, exhausted xs it -> it_Err it = None.

Local Notation ready xs := (ready xs (positioned xs) (exhausted xs)).
Local Notation window xs := (window xs (exhausted xs)).

Lemma window_cases d x xs ok b :
  valid_series d xs -> 0 <= d -> window xs d x ok b ->
  exists old, xs = old ++ samples (b_buf b) ++ from x xs /\ Forall (fun s => t s < x - d) old /\
    Forall (fun s => t s < x) (samples (b_buf b)) /\ Forall (fun s => x <= t s) (from x xs) /\
    match from x xs with u :: _ => ok = true /\ Values b = u | [] => ok = false /\ it_Err (b_it b) = None end.
Proof.
  intros [V _] Hd (_ & (old & EB & O) & M). exists old.
  assert (P : xs = before x xs ++ from x xs).
  { clear -V. induction xs as [|s xs IH]; cbn; [done|].
    assert (V' : forall a b s u, xs !! a = Some s -> xs !! b = Some u -> (a < b)%nat -> t s < t u).
    { intros a b s' u A B L. apply (V (S a) (S b) s' u A B). lia. }
    destruct (Z.ltb_spec (t s) x), (Z.leb_spec x (t s)); try lia; cbn; [f_equal; by apply IH|].
    assert (E : List.filter (fun s => t s <? x) xs = []).
    { apply filter_none. intros u (k & Hk)%list_elem_of_lookup. pose proof (V O (S k) s u eq_refl Hk ltac:(lia)). lia. }
    specialize (IH V'). unfold before, from in IH. rewrite E in IH |- *. cbn in *. by f_equal. }
  split; [rewrite app_assoc, <- EB; exact P|]. split; [done|]. split; [|split].
  - apply Forall_forall. intros s S. assert (I : s ∈ before x xs) by (rewrite EB; apply elem_of_app; by right).
    apply list_elem_of_In, filter_In in I as [_ I]. by apply Z.ltb_lt.
  - apply Forall_forall. intros s S. apply list_elem_of_In, filter_In in S as [_ S]. by apply Z.leb_le.
  - destruct (from x xs); [|done]. destruct M as [-> E]. split; [done|]. by apply (no_error xs).
Qed.

Lemma between_window d x xs old q tl :
  xs = old ++ q ++ tl -> Forall (fun s => t s < x - d) old -> Forall (fun s => t s < x) q ->
  between (x - d) x xs = List.filter (fun s => x - d <=? t s) q ++ between (x - d) x tl.
Proof.
  intros -> O Q. unfold between. rewrite !List.filter_app, filter_none; [|].
  - cbn. f_equal. induction Q as [|s q LT _ IH]; cbn; [done|].
    replace (t s <=? x) with true by lia. rewrite andb_true_r, IH. done.
  - rewrite Forall_forall in O. intros s S. specialize (O s S). lia.
Qed.

Lemma between_from d x xs : valid_series d xs -> 0 <= d -> Forall (fun s => x <= t s) (from x xs) ->
  between (x - d) x (from x xs) = match from x xs with u :: _ => if t u <=? x then [u] else [] | [] => [] end.
Proof.
  intros [V _] Hd F. assert (I : increasing (from x xs)).
  { unfold from. clear F. induction xs as [|s xs IH]; [by intros [|a] b u w A|].
    assert (V' : forall a b s u, xs !! a = Some s -> xs !! b = Some u -> (a < b)%nat -> t s < t u).
    { intros a b s' u A B L. apply (V (S a) (S b) s' u A B). lia. }
    specialize (IH V'). cbn. destruct (x <=? t s); [|done].
    intros [|a] [|b] u w A B L; cbn in *; try lia; [|by apply (IH a b); [..|lia]].
    injection A as <-. apply list_elem_of_lookup_2, list_elem_of_In, filter_In in B as [B _].
    apply list_elem_of_In, list_elem_of_lookup in B as [k B]. apply (V O (S k)); [done|done|lia]. }
  destruct (from x xs) as [|u tl]; [done|]. apply Forall_cons in F as [F1 F2].
  unfold between. cbn. rewrite (filter_none _ tl).
  - replace (x - d <=? t u) with true by lia. by destruct (t u <=? x).
  - intros s (k & Hk)%list_elem_of_lookup. pose proof (I O (S k) u s eq_refl Hk ltac:(lia)). lia.
Qed.

Lemma nthLast_1 r q : holds r q ->
  nthLast 1 r = match last q with Some s => Some (s, true) | None => Some (zero_sample, false) end.
Proof.
  intros H. pose proof H as (_ & L & _). unfold nthLast. rewrite L.
  destruct q as [|s q _] using rev_ind; [done|]. rewrite last_snoc, length_app. cbn [length].
  destruct (Z.ltb_spec (Z.of_nat (length q + 1)) 1); [lia|].
  replace (Z.of_nat (length q + 1) - 1) with (Z.of_nat (length q)) by lia.
  rewrite (at_holds r _ _ s H); [done|]. by rewrite list_lookup_middle.
Qed.

(** * One series *)

Section series.
Variables (xs : list sample) (lo : Z) (lbls : Labels) (fuel : nat).
Hypothesis F : (length xs <= fuel)%nat.

Lemma select_sample_spec x b :
  let d := durationMilliseconds LookbackDelta in
  valid_series d xs -> ready xs d lo b -> lo <= x -> min_int64 < x - d -> x <= max_int64 ->
  exists b', select_sample fuel x lbls b =
    Ok ((fun s => mkPSample lbls (t s) (v s)) <$> instant_value d x xs, b') /\ ready xs d x b'.
Proof.
  intros d Vd R LO X1 X2. assert (Hd : 0 <= d) by done.
  destruct (Seek_window xs (positioned xs) (exhausted xs) d Hd Vd lo x b fuel R LO X1 X2 F) as (ok & b' & E & W & R').
  exists b'. split; [|done]. unfold select_sample. rewrite E.
  destruct (window_cases d x xs ok b' Vd Hd W) as (old & EX & O & Q & T & M).
  pose proof W as (HH & _ & _).
  unfold instant_value. rewrite (between_window d x xs old _ _ EX O Q), (between_from d x xs Vd Hd T).
  assert (PB : PeekBack 1 b' = match last (samples (b_buf b')) with Some s => Some (s, true) | None => Some (zero_sample, false) end)
    by (by apply nthLast_1).
  assert (LF : last (List.filter (fun s => x - d <=? t s) (samples (b_buf b'))) =
    match last (samples (b_buf b')) with Some s => if x - d <=? t s then Some s else None | None => None end).
  { apply last_filter_from. destruct Vd as [V _]. rewrite EX in V.
    apply increasing_app in V as (_ & V & _). by apply increasing_app in V as (V & _). }
  fold d. rewrite i64_id by lia.
  destruct (from x xs) as [|u tl].
  - destruct M as [-> ->]. cbn [negb orb]. rewrite app_nil_r, PB, LF.
    destruct (last (samples (b_buf b'))) as [s|]; [|done]. cbn [negb orb].
    destruct (Z.ltb_spec (t s) (x - d)), (Z.leb_spec (x - d) (t s)); try lia; [done|]. by destruct (IsStaleNaN (v s)).
  - destruct M as [-> ->]. cbn [negb orb]. apply Forall_cons in T as [T _].
    destruct (Z.ltb_spec x (t u)), (Z.leb_spec (t u) x); try lia.
    + rewrite app_nil_r, PB, LF.
      destruct (last (samples (b_buf b'))) as [s|]; [|done]. cbn [negb orb].
      destruct (Z.ltb_spec (t s) (x - d)), (Z.leb_spec (x - d) (t s)); try lia; [done|]. by destruct (IsStaleNaN (v s)).
    + rewrite last_snoc. by destruct (IsStaleNaN (v u)).
Qed.

Lemma buffer_points_spec r q mint fuel' :
  holds r q -> (length q < fuel')%nat ->
  buffer_points fuel' mint (iterator r) = Some (omap (keep_point mint) q).
Proof.
  intros H. assert (G : forall n k, (k <= length q)%nat -> (length q - k < n)%nat ->
    buffer_points n mint (mkRingIter r (Z.of_nat k - 1)) = Some (omap (keep_point mint) (drop k q))).
  { pose proof H as (_ & L & _). induction n as [|n IH]; intros k K N; [lia|].
    cbn [buffer_points ring_Next sri_i sri_r]. rewrite Z.sub_add, L.
    destruct (Z.ltb_spec (Z.of_nat k) (Z.of_nat (length q))) as [LT|LT].
    - destruct (lookup_lt_is_Some_2 q k ltac:(lia)) as [s Hs].
      rewrite (drop_S _ _ _ Hs). unfold ring_At. cbn [sri_i sri_r].
      rewrite (at_holds r q k s H Hs). replace (Z.of_nat k) with (Z.of_nat (S k) - 1) by lia.
      rewrite IH by lia. cbn. by destruct (keep_point mint s).
    - by rewrite drop_ge by lia. }
  intros LF. apply (G fuel' O); lia.
Qed.

Lemma keep_point_filter mint q :
  omap (keep_point mint) q = map point_of (List.filter (fun s => negb (IsStaleNaN (v s))) (List.filter (fun s => mint <=? t s) q)).
Proof.
  induction q as [|s q IH]; cbn; [done|]. unfold keep_point at 1.
  destruct (IsStaleNaN (v s)) eqn:E, (mint <=? t s); cbn; rewrite ?E; cbn; by rewrite IH.
Qed.

Lemma select_points_spec d x b :
  0 <= d -> valid_series d xs -> ready xs d lo b -> lo <= x -> min_int64 < x - d -> x <= max_int64 ->
  exists b', select_points fuel (x - d) x lbls b =
    Ok (match range_points (x - d) x xs with [] => None | ps => Some (mkSeries lbls ps) end, b') /\ ready xs d x b'.
Proof.
  intros Hd Vd R LO X1 X2.
  destruct (Seek_window xs (positioned xs) (exhausted xs) d Hd Vd lo x b fuel R LO X1 X2 F) as (ok & b' & E & W & R').
  exists b'. split; [|done]. unfold select_points. rewrite E.
  destruct (window_cases d x xs ok b' Vd Hd W) as (old & EX & O & Q & T & M).
  pose proof W as (HH & _ & _). pose proof HH as (_ & L & _).
  unfold Buffer. rewrite (buffer_points_spec _ _ _ _ HH) by lia.
  unfold range_points. rewrite (between_window d x xs old _ _ EX O Q), (between_from d x xs Vd Hd T).
  rewrite List.filter_app, map_app, <- keep_point_filter.
  destruct (from x xs) as [|u tl].
  - destruct M as [-> ->]. cbn [andb]. by rewrite !app_nil_r.
  - destruct M as [-> ->]. apply Forall_cons in T as [T _]. cbv zeta. cbn [andb].
    destruct (Z.eqb_spec (t u) x), (Z.leb_spec (t u) x); try lia; cbn [andb].
    + cbn [List.filter]. by destruct (IsStaleNaN (v u)).
    + cbn. by rewrite !app_nil_r.
Qed.
End series.

(** * A selector *)

Variable fuel : nat.

(** An iterator of the store and the series it stands for, fit for times from
    [lo] on. *)
Definition series_ready (d lo : Z) (lb : Labels * BufferedSeriesIterator It) (data : Labels * list sample) : Prop :=
  lb.1 = data.1 /\ (length data.2 <= fuel)%nat /\ valid_series d data.2 /\ ready data.2 d lo lb.2.

Lemma each_series_spec {A} (f : Labels -> BufferedSeriesIterator It -> result everr (option A * BufferedSeriesIterator It))
  (g : Labels -> list sample -> option A) d lo x l data :
  (forall lbls b xs, series_ready d lo (lbls, b) (lbls, xs) ->
     exists b', f lbls b = Ok (g lbls xs, b') /\ series_ready d x (lbls, b') (lbls, xs)) ->
  Forall2 (series_ready d lo) l data ->
  exists l', each_series f l = Ok (omap (fun ls => g ls.1 ls.2) data, l') /\ Forall2 (series_ready d x) l' data.
Proof.
  intros H. induction 1 as [|[lbls b] [lbls' xs] l data R _ (l' & IH & F)]; [by exists []|].
  pose proof R as (E & _). cbn in E. subst lbls'. destruct (H lbls b xs R) as (b' & Eb & Rb).
  exists ((lbls, b') :: l'). cbn. rewrite Eb, IH. split; [by destruct (g lbls xs)|]. by constructor.
Qed.

Lemma on_selector_spec {A} (f : Labels -> BufferedSeriesIterator It -> result everr (option A * BufferedSeriesIterator It))
  (g : Labels -> list sample -> option A) d lo x k l data st :
  (forall lbls b xs, series_ready d lo (lbls, b) (lbls, xs) ->
     exists b', f lbls b = Ok (g lbls xs, b') /\ series_ready d x (lbls, b') (lbls, xs)) ->
  store st !! k = Some l -> Forall2 (series_ready d lo) l data ->
  exists l', on_selector (Some k) f st =
    Ok (omap (fun ls => g ls.1 ls.2) data, mkEv (ticks st) (<[k := l']> (store st))) /\ Forall2 (series_ready d x) l' data.
Proof.
  intros H E F. destruct (each_series_spec f g d lo x l data H F) as (l' & El & F').
  exists l'. unfold on_selector. rewrite E. cbn. by rewrite El.
Qed.

(** C7: an instant selector, evaluated at times that do not decrease, returns
    for every series its most recent sample within the look-back delta before
    the evaluation time less the offset, and nothing for a series that has no
    such sample or whose last one is a stale marker; its iterators stay fit for
    later times. *)
Theorem vectorSelector_spec (Timestamp Offset lo : Z) (k : nat) (l : list (Labels * BufferedSeriesIterator It))
  (data : list (Labels * list sample)) (st : evstate It) :
  let d := durationMilliseconds LookbackDelta in
  let x := Timestamp - durationMilliseconds Offset in
  store st !! k = Some l -> Forall2 (series_ready d lo) l data ->
  lo <= x -> min_int64 < x - d -> x <= max_int64 ->
  exists l', vectorSelector Timestamp fuel Offset (Some k) st =
    Ok (omap (fun ls => (fun s => mkPSample ls.1 (t s) (v s)) <$> instant_value d x ls.2) data,
        mkEv (ticks st) (<[k := l']> (store st))) /\
    Forall2 (series_ready d x) l' data.
Proof.
  intros d x E F LO X1 X2. unfold vectorSelector. rewrite i64_id by (change d with 300000 in *; lia).
  apply (on_selector_spec _ (fun lbls xs => (fun s => mkPSample lbls (t s) (v s)) <$> instant_value d x xs) d lo x k l); [|done..].
  intros lbls b xs (_ & L & V & R).
  destruct (select_sample_spec xs lo lbls fuel L x b V R LO X1 X2) as (b' & Eb & R'). by exists b'.
Qed.

(** A range selector, evaluated at times that do not decrease, returns for
    every series its samples from the start to the end of the range, both
    included, without stale markers, and leaves out a series that has none. *)
Theorem matrixSelector_spec (Timestamp Range Offset lo : Z) (k : nat) (l : list (Labels * BufferedSeriesIterator It))
  (data : list (Labels * list sample)) (st : evstate It) :
  let d := durationMilliseconds Range in
  let x := Timestamp - durationMilliseconds Offset in
  0 <= d -> store st !! k = Some l -> Forall2 (series_ready d lo) l data ->
  lo <= x -> min_int64 < x - d -> x <= max_int64 ->
  exists l', matrixSelector Timestamp fuel Range Offset (Some k) st =
    Ok (omap (fun ls => match range_points (x - d) x ls.2 with [] => None | ps => Some (mkSeries ls.1 ps) end) data,
        mkEv (ticks st) (<[k := l']> (store st))) /\
    Forall2 (series_ready d x) l' data.
Proof.
  intros d x D E F LO X1 X2. unfold matrixSelector. rewrite !(i64_id (Timestamp - _)) by (unfold x, max_int64, min_int64 in *; lia).
  rewrite (i64_id (_ - durationMilliseconds Range)) by (unfold x, d, max_int64, min_int64 in *; lia).
  apply (on_selector_spec _ (fun lbls xs => match range_points (x - d) x xs with [] => None | ps => Some (mkSeries lbls ps) end) d lo x k l); [|done..].
  intros lbls b xs (_ & L & V & R).
  destruct (select_points_spec xs lo lbls fuel L d x b D V R LO X1 X2) as (b' & Eb & R'). by exists b'.
Qed.
End select.

(** * Instances *)

#[export] Instance list_IteratorErr : IteratorErr list_iterator := { it_Err _ := None }.

Definition list_exhausted (xs : list sample) (it : list_iterator) : Prop :=
  li_all it = xs /\ (length xs < li_next it)%nat.

#[export] Instance list_end xs : SeriesIteratorEnd list_iterator xs (list_positioned xs) (list_exhausted xs).
Proof.
  split.
  - intros [a k] n it' [E1 E2] [= L <-]. apply Nat.ltb_ge in L. cbn [li_all li_next] in *. subst. split; cbn [li_all li_next]; [done|lia].
  - intros [a k] n x it' [E1 E2] [= L <-]. apply Nat.ltb_ge in L. cbn [li_all li_next] in *. subst. split; cbn [li_all li_next]; [done|lia].
  - intros [a k] x [E1 E2]. cbn [li_all li_next] in *. subst a. eexists (mkListIterator xs (S (k - 1))).
    cbn [it_Seek list_SeriesIterator li_all li_next]. rewrite drop_ge by lia. cbn [seek_index].
    rewrite (proj2 (Nat.ltb_ge (k - 1) (length xs))) by lia. split; [done|]. split; cbn [li_all li_next]; [done|lia].
Qed.

Lemma list_unread xs d :
  unread xs (list_positioned xs) (list_exhausted xs) d (NewBuffer (mkListIterator xs 0) d).
Proof.
  split; [done|]. split; [done|]. split; [apply (holds_reset (mkRing d (repeat zero_sample 16) 0 0 0)); [cbn; lia|done]|].
  split; [done|]. cbn. destruct xs as [|s xs]; [right|left]; (split; [|cbn; lia || done]); split; cbn; done || lia.
Qed.

Lemma list_no_error xs it : list_exhausted xs it -> it_Err it = None.
Proof. done. Qed.

(** Two series, the second stale at the time of evaluation. *)
Definition select_data : list (Labels * list sample) :=
  [([mkLabel "i" "a"], [mkSample 1000 (of_Z 1); mkSample 2000 (of_Z 2); mkSample 400000 (of_Z 3)]);
   ([mkLabel "i" "b"], [mkSample 2000 (of_Z 7); mkSample 3000 StaleNaN])].
Definition select_state (d : Z) : evstate list_iterator :=
  mkEv 0 [map (fun ls => (ls.1, NewBuffer (mkListIterator ls.2 0) d)) select_data].

Lemma select_valid d ls : 0 <= d <= 1000000 -> ls ∈ select_data -> valid_series d ls.2.
Proof.
  intros D I. assert (H : ls = nth 0 select_data ls \/ ls = nth 1 select_data ls).
  { apply elem_of_cons in I as [I|I]; [by left|]. apply list_elem_of_singleton in I. by right. }
  apply valid_series_intro; destruct H as [-> | ->]; cbn; repeat constructor; cbn; unfold min_int64, max_int64; lia.
Qed.

Lemma select_ready d : 0 <= d <= 1000000 ->
  Forall2 (series_ready list_positioned list_exhausted 3 d 0) (map (fun ls => (ls.1, NewBuffer (mkListIterator ls.2 0) d)) select_data) select_data.
Proof.
  intros D. apply Forall2_fmap_l, Forall_Forall2_diag, Forall_forall. intros ls I. split; [done|].
  split; [|split; [by apply select_valid|left; apply list_unread]].
  apply elem_of_cons in I as [->|I]; [cbn; lia|]. apply list_elem_of_singleton in I as ->. cbn. lia.
Qed.

Lemma vectorSelector_spec_witness :
  exists st, vectorSelector 5000 3 0 (Some O) (select_state 300000) =
    Ok ([mkPSample [mkLabel "i" "a"] 2000 (of_Z 2)], st).
Proof.
  destruct (vectorSelector_spec list_positioned list_exhausted list_no_error 3 5000 0 0 0
    _ select_data (select_state 300000) eq_refl (select_ready 300000 ltac:(lia)) ltac:(discriminate) eq_refl ltac:(discriminate))
    as (l' & E & _).
  eexists. rewrite E. reflexivity.
Defined.

Lemma matrixSelector_spec_witness :
  exists st, matrixSelector 2500 3 1500000000 0 (Some O) (select_state 1500) =
    Ok ([mkSeries [mkLabel "i" "a"] [mkPoint 1000 (of_Z 1); mkPoint 2000 (of_Z 2)];
         mkSeries [mkLabel "i" "b"] [mkPoint 2000 (of_Z 7)]], st).
Proof.
  destruct (matrixSelector_spec list_positioned list_exhausted list_no_error 3 2500 1500000000 0 0 0
    _ select_data (select_state 1500) ltac:(discriminate) eq_refl (select_ready 1500 ltac:(lia)) ltac:(discriminate) eq_refl ltac:(discriminate))
    as (l' & E & _).
  eexists. rewrite E. reflexivity.
Defined.
