(* ===== verification/Binop.v ===== *)
(** promql/engine.go: operations between scalars and vectors, and the matching
    of the elements of two vectors by the hash of some of their labels. *)

From S2P Require Import Prelude GoString GoFmt Float GoMath Labels LabelsFacts Lexer Ast Value Buffer Evaluator.

Section binop.
Context `{UT : UnicodeTables} `{XH : XXHash} `{ML : MathLib}.

(** * Arithmetic *)

Definition btos (b : bool) : float64 := if b then of_Z 1 else of_Z 0.

(** [shouldDropMetricName] *)
Definition shouldDropMetricName (op : ItemType) : bool :=
  match op with itemADD | itemSUB | itemDIV | itemMUL | itemMOD => true | _ => false end.

Definition scalarBinop (op : ItemType) (lhs rhs : float64) : result everr float64 :=
  match op with
  | itemADD => Ok (fadd lhs rhs)
  | itemSUB => Ok (fsub lhs rhs)
  | itemMUL => Ok (fmul lhs rhs)
  | itemDIV => Ok (fdiv lhs rhs)
  | itemPOW => Ok (math_Pow lhs rhs)
  | itemMOD => Ok (Mod lhs rhs)
  | itemEQL => Ok (btos (feq lhs rhs))
  | itemNEQ => Ok (btos (negb (feq lhs rhs)))
  | itemGTR => Ok (btos (flt rhs lhs))
  | itemLSS => Ok (btos (flt lhs rhs))
  | itemGTE => Ok (btos (fle rhs lhs))
  | itemLTE => Ok (btos (fle lhs rhs))
  | _ => Err (EvInternal ("operator " +:+ Quote (ItemType_String op) +:+ " not allowed for Scalar operations"))
  end.

Definition vectorElemBinop (op : ItemType) (lhs rhs : float64) : result everr (float64 * bool) :=
  match op with
  | itemADD => Ok (fadd lhs rhs, true)
  | itemSUB => Ok (fsub lhs rhs, true)
  | itemMUL => Ok (fmul lhs rhs, true)
  | itemDIV => Ok (fdiv lhs rhs, true)
  | itemPOW => Ok (math_Pow lhs rhs, true)
  | itemMOD => Ok (Mod lhs rhs, true)
  | itemEQL => Ok (lhs, feq lhs rhs)
  | itemNEQ => Ok (lhs, negb (feq lhs rhs))
  | itemGTR => Ok (lhs, flt rhs lhs)
  | itemLSS => Ok (lhs, flt lhs rhs)
  | itemGTE => Ok (lhs, fle rhs lhs)
  | itemLTE => Ok (lhs, fle lhs rhs)
  | _ => Err (EvInternal ("operator " +:+ Quote (ItemType_String op) +:+ " not allowed for operations between Vectors"))
  end.

(** * Labels *)

(** [dropMetricName]; the builder's panic is a runtime error. *)
Definition dropMetricName (l : Labels) : result everr Labels :=
  of_option (Builder_Labels <$> Del (NewBuilder l) [MetricName]).

Definition named (names : list string) (l : Label) : bool := existsb (fun n => (n =? Name l)%string) names.

(** The labels [hashWithoutLabels] and [hashForLabels] hash. *)
Definition labels_without (lset : Labels) (names : list string) : Labels :=
  List.filter (fun l => negb (named names l) && negb (Name l =? MetricName)%string) lset.
Definition labels_for (lset : Labels) (names : list string) : Labels := List.filter (named names) lset.

Definition hashWithoutLabels (lset : Labels) (names : list string) : Z := Hash (labels_without lset names).
Definition hashForLabels (lset : Labels) (names : list string) : Z := Hash (labels_for lset names).

Definition signatureFunc (on : bool) (names : list string) : Labels -> Z :=
  if on then fun lset => hashForLabels lset names else fun lset => hashWithoutLabels lset names.

(** [intersection] *)
Definition intersection (ls1 ls2 : Labels) : Labels :=
  flat_map (fun l1 => List.filter (fun l2 => (Name l1 =? Name l2)%string && (Value l1 =? Value l2)%string) ls2) ls1.

Fixpoint del_unless (names : list string) (ls : Labels) (lb : Builder) : option Builder :=
  match ls with
  | [] => Some lb
  | l :: ls' => if named names l then del_unless names ls' lb
                else match Del lb [Name l] with None => None | Some lb => del_unless names ls' lb end
  end.

(** The loop over [matching.Include]. *)
Fixpoint include_labels (rhs : Labels) (names : list string) (lb : Builder) : option Builder :=
  match names with
  | [] => Some lb
  | ln :: names' =>
    if negb (Get rhs ln =? "")%string then include_labels rhs names' (Set_ lb ln (Get rhs ln))
    else match Del lb [ln] with None => None | Some lb => include_labels rhs names' lb end
  end.

Definition resultMetric (lhs rhs : Labels) (op : ItemType) (matching : VectorMatching) : result everr Labels :=
  of_option (
    lb ← (if shouldDropMetricName op then Del (NewBuilder lhs) [MetricName] else Some (NewBuilder lhs));
    lb ← (match Card matching with
          | CardOneToOne =>
            if On matching then del_unless (MatchingLabels matching) lhs lb
            else Del lb (MatchingLabels matching)
          | _ => Some lb
          end);
    Builder_Labels <$> include_labels rhs (Include matching) lb).

(** * Vector and scalar *)

(** The effect of the [bool] modifier on the outcome of an element. *)
Definition bool_outcome (returnBool : bool) (r : float64 * bool) : float64 * bool :=
  if returnBool then (btos r.2, true) else r.

Definition scalar_elem (op : ItemType) (rhs : float64) (swap returnBool : bool) (s : Sample)
  : result everr (option Sample) :=
  let (lv, rv) := if swap then (rhs, s_V s) else (s_V s, rhs) in
  match vectorElemBinop op lv rv with
  | Err e => Err e
  | Ok r =>
    let (value, keep) := bool_outcome returnBool r in
    if keep then
      match (if shouldDropMetricName op || returnBool then dropMetricName (Metric s) else Ok (Metric s)) with
      | Err e => Err e
      | Ok m => Ok (Some (mkPSample m (s_T s) value))
      end
    else Ok None
  end.

Definition VectorscalarBinop (op : ItemType) (lhs : Vector) (rhs : float64) (swap returnBool : bool)
  : result everr Vector :=
  match mapM_result (scalar_elem op rhs swap returnBool) lhs with
  | Err e => Err e
  | Ok os => Ok (omap id os)
  end.

(** * Set operations *)

Definition set_panic : everr := EvCrash "set operations must only use many-to-many matching".

(** The matching of a set operation; without one [matching.Card] is a nil
    dereference. *)
Definition set_signature (matching : option VectorMatching) : result everr (Labels -> Z) :=
  match matching with
  | None => Err EvRuntime
  | Some m => match Card m with
              | CardManyToMany => Ok (signatureFunc (On m) (MatchingLabels m))
              | _ => Err set_panic
              end
  end.

Definition signatures (sigf : Labels -> Z) (v : Vector) : gset Z := list_to_set (map (fun s => sigf (Metric s)) v).

Definition VectorAnd (lhs rhs : Vector) (matching : option VectorMatching) : result everr Vector :=
  match set_signature matching with
  | Err e => Err e
  | Ok sigf => let rightSigs := signatures sigf rhs in
               Ok (List.filter (fun ls => bool_decide (sigf (Metric ls) ∈ rightSigs)) lhs)
  end.

Definition VectorOr (lhs rhs : Vector) (matching : option VectorMatching) : result everr Vector :=
  match set_signature matching with
  | Err e => Err e
  | Ok sigf => let leftSigs := signatures sigf lhs in
               Ok (lhs ++ List.filter (fun rs => bool_decide (sigf (Metric rs) ∉ leftSigs)) rhs)
  end.

Definition VectorUnless (lhs rhs : Vector) (matching : option VectorMatching) : result everr Vector :=
  match set_signature matching with
  | Err e => Err e
  | Ok sigf => let rightSigs := signatures sigf rhs in
               Ok (List.filter (fun ls => bool_decide (sigf (Metric ls) ∉ rightSigs)) lhs)
  end.

(** * [VectorBinop] *)

Definition many_to_many_error : everr :=
  EvErrorf "many-to-many matching not allowed: matching labels must be unique on one side".
Definition many_to_one_error : everr :=
  EvErrorf "multiple matches for labels: many-to-one matching must be explicit (group_left/group_right)".
Definition grouping_error : everr :=
  EvErrorf "multiple matches for labels: grouping labels must ensure unique matches".

(** The samples of the "one" side by signature. *)
Fixpoint right_sigs (sigf : Labels -> Z) (rhs : Vector) (m : gmap Z Sample) : result everr (gmap Z Sample) :=
  match rhs with
  | [] => Ok m
  | rs :: rhs' =>
    match m !! sigf (Metric rs) with
    | Some _ => Err many_to_many_error
    | None => right_sigs sigf rhs' (<[sigf (Metric rs) := rs]> m)
    end
  end.

(** [matchedSigs]: the hashes of the results inserted for a signature, [∅]
    standing for the nil of a one-to-one match. *)
Definition insert_match (matching : VectorMatching) (sig : Z) (metric : Labels) (matched : gmap Z (gset Z))
  : result everr (gmap Z (gset Z)) :=
  match Card matching with
  | CardOneToOne =>
    match matched !! sig with
    | Some _ => Err many_to_one_error
    | None => Ok (<[sig := ∅]> matched)
    end
  | _ =>
    let insertSig := Hash metric in
    match matched !! sig with
    | None => Ok (<[sig := {[insertSig]}]> matched)
    | Some inserted => if bool_decide (insertSig ∈ inserted) then Err grouping_error
                       else Ok (<[sig := {[insertSig]} ∪ inserted]> matched)
    end
  end.

(** The loop over the "many" side. *)
Fixpoint binop_loop (Timestamp : Z) (op : ItemType) (matching : VectorMatching) (returnBool : bool)
    (sigf : Labels -> Z) (rightSigs : gmap Z Sample) (lhs : Vector) (matched : gmap Z (gset Z)) : result everr Vector :=
  match lhs with
  | [] => Ok []
  | ls :: lhs' =>
    let sig := sigf (Metric ls) in
    match rightSigs !! sig with
    | None => binop_loop Timestamp op matching returnBool sigf rightSigs lhs' matched
    | Some rs =>
      let (vl, vr) := match Card matching with CardOneToMany => (s_V rs, s_V ls) | _ => (s_V ls, s_V rs) end in
      match vectorElemBinop op vl vr with
      | Err e => Err e
      | Ok r =>
        let (value, keep) := bool_outcome returnBool r in
        if negb keep then binop_loop Timestamp op matching returnBool sigf rightSigs lhs' matched
        else
          match resultMetric (Metric ls) (Metric rs) op matching with
          | Err e => Err e
          | Ok metric =>
            match insert_match matching sig metric matched with
            | Err e => Err e
            | Ok matched =>
              cons (mkPSample metric Timestamp value) <$>
                binop_loop Timestamp op matching returnBool sigf rightSigs lhs' matched
            end
          end
      end
    end
  end.

Definition VectorBinop (Timestamp : Z) (op : ItemType) (lhs rhs : Vector) (matching : option VectorMatching)
    (returnBool : bool) : result everr Vector :=
  match matching with
  | None => Err EvRuntime
  | Some m =>
    match Card m with
    | CardManyToMany => Err (EvCrash "many-to-many only allowed for set operators")
    | card =>
      let sigf := signatureFunc (On m) (MatchingLabels m) in
      let (lhs, rhs) := match card with CardOneToMany => (rhs, lhs) | _ => (lhs, rhs) end in
      match right_sigs sigf rhs ∅ with
      | Err e => Err e
      | Ok rightSigs => binop_loop Timestamp op m returnBool sigf rightSigs lhs ∅
      end
    end
  end.
End binop.
