(* ===== verification/BinopFacts.v ===== *)
(** What the vector operations of [Binop] compute: matching by the hash of some
    labels is matching by those labels, as long as no two of the label sets at
    hand collide. *)

From S2P Require Import Prelude GoString GoFmt Float GoMath Labels LabelsFacts Lexer Ast Value Buffer Evaluator Binop.

Section facts.
Context `{UT : UnicodeTables} `{XH : XXHash} `{ML : MathLib}.

(** * Hashes stand for label sets *)

Definition collision_free (lss : list Labels) : Prop :=
  forall a b, a ∈ lss -> b ∈ lss -> Hash a = Hash b -> a = b.

Lemma collision_free_sub lss lss' : (forall a, a ∈ lss -> a ∈ lss') -> collision_free lss' -> collision_free lss.
Proof. intros I C a b A B. apply C; auto. Qed.

Lemma collision_free_NoDup lss : collision_free lss -> NoDup (map Hash lss) <-> NoDup lss.
Proof.
  intros C. split; [apply NoDup_fmap_1|]. intros N.
  assert (G : forall l, (forall a, a ∈ l -> a ∈ lss) -> NoDup l -> NoDup (map Hash l)).
  { induction l as [|a l IH]; cbn; intros I ND; [constructor|]. apply NoDup_cons in ND as [N1 N2].
    constructor; [|apply IH; [|done]].
    - intros (b & E & B)%list_elem_of_fmap. apply N1. rewrite (C a b); [done|apply I; left|apply I; by right|done].
    - intros b B. apply I. by right. }
  by apply G.
Qed.

(** The labels a matching compares. *)
Definition sig_labels (m : VectorMatching) (s : Sample) : Labels :=
  if On m then labels_for (Metric s) (MatchingLabels m) else labels_without (Metric s) (MatchingLabels m).

Lemma signature_hash m s : signatureFunc (On m) (MatchingLabels m) (Metric s) = Hash (sig_labels m s).
Proof. unfold signatureFunc, sig_labels. by destruct (On m). Qed.

Definition matches (m : VectorMatching) (a b : Sample) : bool := bool_decide (sig_labels m a = sig_labels m b).
Definition has_match (m : VectorMatching) (v : Vector) (a : Sample) : bool := existsb (matches m a) v.

Lemma has_match_spec m v a : has_match m v a = true <-> sig_labels m a ∈ map (sig_labels m) v.
Proof.
  unfold has_match, matches. rewrite existsb_exists, list_elem_of_fmap.
  setoid_rewrite bool_decide_eq_true. setoid_rewrite list_elem_of_In. firstorder.
Qed.

(** * Set operations *)

Lemma elem_of_signatures m v a :
  signatureFunc (On m) (MatchingLabels m) (Metric a) ∈ signatures (signatureFunc (On m) (MatchingLabels m)) v <->
  Hash (sig_labels m a) ∈ map (fun s => Hash (sig_labels m s)) v.
Proof.
  unfold signatures. rewrite elem_of_list_to_set, signature_hash.
  by rewrite (map_ext _ (fun s => Hash (sig_labels m s)) (signature_hash m)).
Qed.

Lemma signatures_has_match m v w a :
  collision_free (map (sig_labels m) w) -> (forall b, b ∈ v -> b ∈ w) -> a ∈ w ->
  bool_decide (signatureFunc (On m) (MatchingLabels m) (Metric a) ∈
               signatures (signatureFunc (On m) (MatchingLabels m)) v) = has_match m v a.
Proof.
  intros C I A. apply eq_bool_prop_intro. rewrite !Is_true_true, bool_decide_eq_true, elem_of_signatures, has_match_spec.
  rewrite !list_elem_of_fmap. split; intros (b & E & B); exists b; (split; [|done]); [|by rewrite E].
  apply C; [apply list_elem_of_fmap; eauto..|done].
Qed.

(** Between two vectors [and] keeps the left elements that have a match on
    the right, [unless] those that have none, and [or] adds to the left the
    right elements that have no match there; two elements match when the
    labels the matching compares are equal. *)
Theorem set_operations_spec (lhs rhs : Vector) (m : VectorMatching)
  (K : Card m = CardManyToMany) (C : collision_free (map (sig_labels m) (lhs ++ rhs))) :
  VectorAnd lhs rhs (Some m) = Ok (List.filter (has_match m rhs) lhs) /\
  VectorUnless lhs rhs (Some m) = Ok (List.filter (fun s => negb (has_match m rhs s)) lhs) /\
  VectorOr lhs rhs (Some m) = Ok (lhs ++ List.filter (fun s => negb (has_match m lhs s)) rhs).
Proof.
  unfold VectorAnd, VectorUnless, VectorOr, set_signature. rewrite K.
  assert (G : forall (v w : Vector) (f g : Sample -> bool),
    (forall s, s ∈ v -> f s = g s) -> List.filter f v = List.filter g v).
  { clear. intros v _ f g. induction v as [|s v IH]; cbn; intros E; [done|].
    rewrite E by left. rewrite IH; [done|]. intros. apply E. by right. }
  split; [|split]; [f_equal|f_equal|do 2 f_equal]; (apply G; [exact lhs|]); intros s S; rewrite ?bool_decide_not; try f_equal;
    apply (signatures_has_match m _ (lhs ++ rhs)); try done; intros; apply elem_of_app; auto.
Qed.

(** * One-to-one, many-to-one and one-to-many matching *)

(** The operators of label matchers are operators too; the scanner only emits
    them between braces. *)
Definition regex_operator (op : ItemType) : bool :=
  match op with itemEQLRegex | itemNEQRegex => true | _ => false end.

Definition value_operator (op : ItemType) : bool :=
  isOperator op && negb (isSetOperator op) && negb (regex_operator op).

Lemma vectorElemBinop_ok op a b : value_operator op = true -> exists r, vectorElemBinop op a b = Ok r.
Proof. destruct op; intros H; vm_compute in H; first [discriminate H | eexists; reflexivity]. Qed.

Lemma scalarBinop_ok op a b : value_operator op = true -> exists r, scalarBinop op a b = Ok r.
Proof. destruct op; intros H; vm_compute in H; first [discriminate H | eexists; reflexivity]. Qed.

(** The result of an element of the "many" side and its partner: a sample, or
    nothing when a comparison drops it. *)
Definition pair_result (Timestamp : Z) (op : ItemType) (m : VectorMatching) (returnBool : bool) (ls rs : Sample)
  : option Sample :=
  let (vl, vr) := match Card m with CardOneToMany => (s_V rs, s_V ls) | _ => (s_V ls, s_V rs) end in
  match vectorElemBinop op vl vr, resultMetric (Metric ls) (Metric rs) op m with
  | Ok r, Ok metric => let (value, keep) := bool_outcome returnBool r in
                       if keep then Some (mkPSample metric Timestamp value) else None
  | _, _ => None
  end.

(** The elements of [many] joined with their partners in [one]. *)
Definition joined (Timestamp : Z) (op : ItemType) (m : VectorMatching) (returnBool : bool) (many one : Vector)
  : list (Sample * Sample) :=
  omap (fun ls => rs ← List.find (matches m ls) one; s ← pair_result Timestamp op m returnBool ls rs; Some (ls, s)) many.

(** What must be distinct in a join: the compared labels in a one-to-one
    match, these and the result's labels otherwise. *)
Definition join_key (m : VectorMatching) (js : Sample * Sample) : Labels * Labels :=
  (sig_labels m js.1, match Card m with CardOneToOne => [] | _ => Metric js.2 end).

Definition duplicate_error (m : VectorMatching) : everr :=
  match Card m with CardOneToOne => many_to_one_error | _ => grouping_error end.

(** The specification of [VectorBinop]. *)
Definition binop_spec (Timestamp : Z) (op : ItemType) (m : VectorMatching) (returnBool : bool) (lhs rhs : Vector)
  : result everr Vector :=
  let (many, one) := match Card m with CardOneToMany => (rhs, lhs) | _ => (lhs, rhs) end in
  let js := joined Timestamp op m returnBool many one in
  if negb (bool_decide (NoDup (map (sig_labels m) one))) then Err many_to_many_error
  else if negb (bool_decide (NoDup (map (join_key m) js))) then Err (duplicate_error m)
  else Ok (map snd js).

Lemma del_unless_total names ls lb :
  NoDup (LabelsFacts.names (Labels.add lb)) ->
  exists lb', del_unless names ls lb = Some lb' /\ NoDup (LabelsFacts.names (Labels.add lb')).
Proof.
  revert lb. induction ls as [|l ls IH]; intros lb N; cbn [del_unless]; [eauto|].
  destruct (named names l); [by apply IH|]. destruct (Del_total lb [Name l] N) as (lb' & -> & N' & _). by apply IH.
Qed.

Lemma include_labels_total rhs names lb :
  NoDup (LabelsFacts.names (Labels.add lb)) ->
  exists lb', include_labels rhs names lb = Some lb' /\ NoDup (LabelsFacts.names (Labels.add lb')).
Proof.
  revert lb. induction names as [|n names IH]; intros lb N; cbn [include_labels]; [eauto|].
  destruct (negb _); [by apply IH, Set_add_NoDup|].
  destruct (Del_total lb [n] N) as (lb' & -> & N' & _). by apply IH.
Qed.

Lemma dropMetricName_ok l : exists l', dropMetricName l = Ok l'.
Proof.
  unfold dropMetricName. destruct (Del_total (NewBuilder l) [MetricName]) as (lb & -> & _); [constructor|]. cbn. eauto.
Qed.

Lemma resultMetric_ok lhs rhs op m : exists ls, resultMetric lhs rhs op m = Ok ls.
Proof.
  unfold resultMetric.
  assert (H1 : exists lb, (if shouldDropMetricName op then Del (NewBuilder lhs) [MetricName] else Some (NewBuilder lhs)) = Some lb
                          /\ NoDup (names (Labels.add lb))).
  { destruct (shouldDropMetricName op); [|eexists; split; [done|constructor]].
    destruct (Del_total (NewBuilder lhs) [MetricName]) as (lb & -> & N & _); [constructor|]. eauto. }
  destruct H1 as (lb1 & -> & N1). cbn [mbind option_bind].
  assert (H2 : exists lb, (match Card m with
      | CardOneToOne => if On m then del_unless (MatchingLabels m) lhs lb1 else Del lb1 (MatchingLabels m)
      | _ => Some lb1 end) = Some lb /\ NoDup (names (Labels.add lb))).
  { destruct (Card m); [destruct (On m)|eauto..]; [by apply del_unless_total|].
    destruct (Del_total lb1 (MatchingLabels m) N1) as (lb & -> & N & _). eauto. }
  destruct H2 as (lb2 & -> & N2). cbn [mbind option_bind].
  destruct (include_labels_total rhs (Include m) lb2 N2) as (lb3 & -> & _). cbn. eauto.
Qed.

Lemma right_sigs_spec m one acc :
  right_sigs (signatureFunc (On m) (MatchingLabels m)) one acc =
  if bool_decide (NoDup (map (fun s => Hash (sig_labels m s)) one) /\
                  Forall (fun s => acc !! Hash (sig_labels m s) = None) one)
  then Ok (foldl (fun acc s => <[Hash (sig_labels m s) := s]> acc) acc one)
  else Err many_to_many_error.
Proof.
  revert acc. induction one as [|s one IH]; intros acc; cbn [right_sigs map foldl].
  - rewrite bool_decide_true; [done|]. split; constructor.
  - rewrite signature_hash. destruct (acc !! Hash (sig_labels m s)) as [s'|] eqn:E.
    + rewrite bool_decide_false; [done|]. intros [_ F]. apply Forall_cons in F as [F _]. congruence.
    + rewrite IH. match goal with |- (if bool_decide ?P then _ else _) = (if bool_decide ?Q then _ else _) =>
        assert (H : P <-> Q); [|by rewrite (bool_decide_ext _ _ H)] end.
      rewrite NoDup_cons, Forall_cons, list_elem_of_fmap, !Forall_forall. split.
      * intros [N F]. split; [split; [|done]|split; [done|]].
        -- intros (b & EH & B). specialize (F b B). rewrite <- EH, lookup_insert_eq in F. done.
        -- intros b B. specialize (F b B). destruct (decide (Hash (sig_labels m s) = Hash (sig_labels m b))) as [EH|NE].
           ++ by rewrite EH, lookup_insert_eq in F.
           ++ by rewrite lookup_insert_ne in F.
      * intros [[N1 N2] [_ F]]. split; [done|]. intros b B. rewrite lookup_insert_ne; [by apply F|].
        intros EH. apply N1. by exists b.
Qed.

(** Looking up a signature finds the partner. *)
Lemma right_sigs_lookup m one (acc : gmap Z Sample) w a :
  collision_free (map (sig_labels m) w) -> (forall b, b ∈ one -> b ∈ w) -> a ∈ w ->
  NoDup (map (sig_labels m) one) ->
  foldl (fun acc s => <[Hash (sig_labels m s) := s]> acc) acc one !! Hash (sig_labels m a) =
  match List.find (matches m a) one with Some rs => Some rs | None => acc !! Hash (sig_labels m a) end.
Proof.
  intros C I A. revert acc. induction one as [|s one IH]; intros acc N; cbn; [done|].
  apply NoDup_cons in N as [N1 N2]. rewrite IH by (done || (intros; apply I; by right)).
  assert (S : s ∈ w) by (apply I; left). unfold matches at 2.
  destruct (decide (sig_labels m a = sig_labels m s)) as [E|NE].
  - rewrite bool_decide_true by done. destruct (List.find (matches m a) one) as [rs|] eqn:F.
    + apply find_some in F as [F1 F2]. unfold matches in F2. apply bool_decide_eq_true in F2.
      exfalso. apply N1. rewrite <- E, F2. apply list_elem_of_fmap. exists rs. split; [done|]. by apply list_elem_of_In.
    + by rewrite E, lookup_insert_eq.
  - rewrite bool_decide_false by done. destruct (List.find _ one); [done|].
    rewrite lookup_insert_ne; [done|]. intros E. apply NE. symmetry.
    apply C; [apply list_elem_of_fmap; eauto..|done].
Qed.

(** The keys [matchedSigs] records. *)
Definition hash_key (m : VectorMatching) (js : Sample * Sample) : Z * Z :=
  (Hash (sig_labels m js.1), match Card m with CardOneToOne => 0 | _ => Hash (Metric js.2) end).

Definition records (m : VectorMatching) (matched : gmap Z (gset Z)) (seen : list (Z * Z)) : Prop :=
  forall sig, match matched !! sig with
              | None => forall h, (sig, h) ∉ seen
              | Some hs => match Card m with
                          | CardOneToOne => (sig, 0) ∈ seen
                          | _ => forall h, h ∈ hs <-> (sig, h) ∈ seen
                          end
              end.

Lemma insert_match_spec m ls s matched seen :
  records m matched seen ->
  if bool_decide (hash_key m (ls, s) ∈ seen)
  then insert_match m (Hash (sig_labels m ls)) (Metric s) matched = Err (duplicate_error m)
  else exists matched', insert_match m (Hash (sig_labels m ls)) (Metric s) matched = Ok matched' /\
                        records m matched' (hash_key m (ls, s) :: seen).
Proof.
  intros R. pose proof (R (Hash (sig_labels m ls))) as RS.
  unfold insert_match, duplicate_error, hash_key. cbn [fst snd].
  destruct (matched !! Hash (sig_labels m ls)) as [hs|] eqn:E.
  - destruct (Card m) eqn:K.
    { by rewrite bool_decide_true. }
    all: case_bool_decide as B; [rewrite bool_decide_true; [done|by apply RS]|];
      rewrite bool_decide_false by (by rewrite RS); eexists; split; [done|]; intros sig;
      destruct (decide (sig = Hash (sig_labels m ls))) as [->|NE];
      [rewrite lookup_insert_eq, K; intros h; rewrite elem_of_union, elem_of_singleton, elem_of_cons, RS; naive_solver
      |rewrite lookup_insert_ne by done; specialize (R sig); destruct (matched !! sig); rewrite ?K in *;
       intros h; rewrite elem_of_cons, ?R; naive_solver].
  - rewrite bool_decide_false by apply RS.
    destruct (Card m) eqn:K; (eexists; split; [done|]; intros sig;
      destruct (decide (sig = Hash (sig_labels m ls))) as [->|NE];
      [rewrite lookup_insert_eq, K; try (by left); intros h; rewrite elem_of_singleton, elem_of_cons; naive_solver
      |rewrite lookup_insert_ne by done; specialize (R sig); destruct (matched !! sig); rewrite ?K in *;
       [try (by right); intros h; rewrite elem_of_cons, ?R; naive_solver
       |intros h; rewrite elem_of_cons; naive_solver]]).
Qed.

Lemma cons_if {E A} (b : bool) (x : A) (l : list A) (e : E) :
  cons x <$> (if b then Ok l else Err e) = (if b then Ok (x :: l) else Err e).
Proof. by destruct b. Qed.

Lemma joined_cons Timestamp op m b ls many one :
  joined Timestamp op m b (ls :: many) one =
  match List.find (matches m ls) one with
  | None => joined Timestamp op m b many one
  | Some rs => match pair_result Timestamp op m b ls rs with
               | None => joined Timestamp op m b many one
               | Some s => (ls, s) :: joined Timestamp op m b many one
               end
  end.
Proof.
  unfold joined. cbn [omap list_omap]. destruct (List.find _ _) as [rs|]; [|done]. cbn [mbind option_bind].
  by destruct (pair_result _ _ _ _ _ _).
Qed.

Lemma binop_loop_spec Timestamp op m b (rights : gmap Z Sample) (many one w : Vector) matched seen :
  value_operator op = true -> Card m <> CardManyToMany ->
  (forall a, a ∈ w -> rights !! Hash (sig_labels m a) = List.find (matches m a) one) ->
  (forall a, a ∈ many -> a ∈ w) -> records m matched seen ->
  let js := joined Timestamp op m b many one in
  binop_loop Timestamp op m b (signatureFunc (On m) (MatchingLabels m)) rights many matched =
  if bool_decide (NoDup (map (hash_key m) js) /\ Forall (fun j => hash_key m j ∉ seen) js)
  then Ok (map snd js) else Err (duplicate_error m).
Proof.
  intros V K L. revert matched seen. induction many as [|ls many IH]; intros matched seen I R; cbv zeta; cbn [binop_loop].
  { rewrite bool_decide_true; [done|]. split; constructor. }
  assert (IM : forall a, a ∈ many -> a ∈ w) by (intros; apply I; by right).
  specialize (fun matched seen => IH matched seen IM). cbv zeta in IH.
  rewrite signature_hash, L, joined_cons by (apply I; left).
  destruct (List.find (matches m ls) one) as [rs|]; [|by apply IH].
  unfold pair_result.
  set (pr := match Card m with CardOneToMany => _ | _ => _ end).
  destruct pr as [vl vr]. destruct (vectorElemBinop_ok op vl vr V) as [r ->].
  destruct (resultMetric_ok (Metric ls) (Metric rs) op m) as [metric ->].
  destruct (bool_outcome b r) as [value keep]. destruct keep; cbn [negb]; [|by apply IH].
  set (s := mkPSample metric Timestamp value). set (js := joined Timestamp op m b many one) in *.
  pose proof (insert_match_spec m ls s matched seen R) as IS. change (Metric s) with metric in IS.
  cbn [map snd].
  case_bool_decide as B.
  - rewrite IS, bool_decide_false; [done|]. intros [_ F]. by apply Forall_cons in F as [F _].
  - destruct IS as (matched' & -> & R'). rewrite (IH _ _ R').
    rewrite cons_if. apply bool_decide_if.
    rewrite NoDup_cons, Forall_cons, !Forall_forall. setoid_rewrite not_elem_of_cons.
    rewrite list_elem_of_fmap. split.
    + intros [N F]. split; [split; [|done]|split; [done|]].
      * intros (j & EJ & J). destruct (F j J) as [NE _]. by apply NE.
      * intros j J. by destruct (F j J).
    + intros [[N1 N2] [_ F]]. split; [done|]. intros j J. split; [|by apply F].
      intros EJ. apply N1. by exists j.
Qed.

Lemma hash_key_NoDup m (js : list (Sample * Sample)) :
  collision_free (map (fun j => sig_labels m j.1) js) -> collision_free (map (fun j => Metric j.2) js) ->
  NoDup (map (hash_key m) js) <-> NoDup (map (join_key m) js).
Proof.
  intros C1 C2.
  assert (E : forall a b, a ∈ js -> b ∈ js -> hash_key m a = hash_key m b <-> join_key m a = join_key m b).
  { intros a b A B. unfold hash_key, join_key. split.
    - intros [= E1 E2]. f_equal; [apply C1; [apply list_elem_of_fmap; eauto..|done]|].
      destruct (Card m); [done|..]; (apply C2; [apply list_elem_of_fmap; eauto..|done]).
    - intros [= -> E2]. f_equal. destruct (Card m); [done|..]; by rewrite E2. }
  clear C1 C2. induction js as [|j js IH]; cbn; [by split; constructor|].
  rewrite !NoDup_cons, IH by (intros; apply E; by right).
  assert (N : hash_key m j ∉ map (hash_key m) js <-> join_key m j ∉ map (join_key m) js);
    [|by rewrite N].
  rewrite !list_elem_of_fmap. split; intros N (b & Eb & B); apply N; exists b; (split; [|done]);
    (apply E; [left|by right|done]).
Qed.

(** C5: an arithmetic or comparison operation between two vectors is a join on
    the compared labels.  It fails when these are not unique on the "one"
    side; otherwise each element of the other side that has a partner gives
    the operation's result, unless a comparison drops it, and the operation
    fails when two of the remaining elements have the same key. *)
Theorem VectorBinop_spec (Timestamp : Z) (op : ItemType) (lhs rhs : Vector) (m : VectorMatching) (returnBool : bool)
  (O : value_operator op = true) (K : Card m <> CardManyToMany)
  (C : collision_free (map (sig_labels m) (lhs ++ rhs)))
  (CR : let (many, one) := match Card m with CardOneToMany => (rhs, lhs) | _ => (lhs, rhs) end in
        collision_free (map (fun j => Metric j.2) (joined Timestamp op m returnBool many one))) :
  VectorBinop Timestamp op lhs rhs (Some m) returnBool = binop_spec Timestamp op m returnBool lhs rhs.
Proof.
  assert (G : forall many one, (forall a, a ∈ many -> a ∈ lhs ++ rhs) -> (forall a, a ∈ one -> a ∈ lhs ++ rhs) ->
    collision_free (map (fun j => Metric j.2) (joined Timestamp op m returnBool many one)) ->
    match right_sigs (signatureFunc (On m) (MatchingLabels m)) one ∅ with
    | Err e => Err e
    | Ok rights => binop_loop Timestamp op m returnBool (signatureFunc (On m) (MatchingLabels m)) rights many ∅
    end =
    if negb (bool_decide (NoDup (map (sig_labels m) one))) then Err many_to_many_error
    else if negb (bool_decide (NoDup (map (join_key m) (joined Timestamp op m returnBool many one)))) then Err (duplicate_error m)
    else Ok (map snd (joined Timestamp op m returnBool many one))).
  { intros many one IM IO CJ. rewrite right_sigs_spec.
    assert (H1 : NoDup (map (fun s => Hash (sig_labels m s)) one) /\ Forall (fun s => (∅ : gmap Z Sample) !! Hash (sig_labels m s) = None) one
                 <-> NoDup (map (sig_labels m) one)).
    { rewrite <- (collision_free_NoDup (map (sig_labels m) one)), map_map.
      - split; [by intros []|]. intros N. split; [done|]. apply Forall_forall. intros. apply lookup_empty.
      - eapply collision_free_sub; [|exact C]. intros a (s & -> & S)%list_elem_of_fmap. apply list_elem_of_fmap. eauto. }
    rewrite (bool_decide_ext _ _ H1). case_bool_decide as N; cbn [negb]; [|done].
    rewrite (binop_loop_spec Timestamp op m returnBool _ many one (lhs ++ rhs) ∅ []); [|done|done|..|done|].
    - assert (H2 : NoDup (map (hash_key m) (joined Timestamp op m returnBool many one)) /\
                   Forall (fun j => hash_key m j ∉ []) (joined Timestamp op m returnBool many one)
                   <-> NoDup (map (join_key m) (joined Timestamp op m returnBool many one))).
      { rewrite <- hash_key_NoDup; [|clear CJ|done].
        - split; [by intros []|]. intros ND. split; [done|]. apply Forall_forall. intros. apply not_elem_of_nil.
        - eapply collision_free_sub; [|exact C]. intros a (j & -> & J)%list_elem_of_fmap. apply list_elem_of_fmap.
          exists j.1. split; [done|]. apply IM. unfold joined in J. apply list_elem_of_omap in J as (ls & LS & EJ).
          apply bind_Some in EJ as (rs & _ & EJ). apply bind_Some in EJ as (s & _ & [= <-]). done. }
      rewrite (bool_decide_ext _ _ H2). by case_bool_decide.
    - intros a A. rewrite (right_sigs_lookup m one ∅ (lhs ++ rhs)) by done. rewrite lookup_empty. by destruct (List.find _ _).
    - intros sig. rewrite lookup_empty. intros h. apply not_elem_of_nil. }
  unfold VectorBinop, binop_spec. destruct (Card m) eqn:EK; try done; (apply G; [|..|done]; intros; apply elem_of_app; auto).
Qed.

(** * The labels of a result *)

(** Through the builder: a sequence of updates of the left labels. *)
Definition metric_ops (lhs rhs : Labels) (op : ItemType) (m : VectorMatching) : list builder_op :=
  (if shouldDropMetricName op then [OpDel [MetricName]] else []) ++
  (match Card m with
   | CardOneToOne =>
     if On m then map (fun l => OpDel [Name l]) (List.filter (fun l => negb (named (MatchingLabels m) l)) lhs)
     else [OpDel (MatchingLabels m)]
   | _ => []
   end) ++
  map (fun ln => if negb (Get rhs ln =? "")%string then OpSet ln (Get rhs ln) else OpDel [ln]) (Include m).

Lemma del_unless_ops names ls lb :
  del_unless names ls lb = run_ops lb (map (fun l => OpDel [Name l]) (List.filter (fun l => negb (named names l)) ls)).
Proof.
  revert lb. induction ls as [|l ls IH]; intros lb; cbn [del_unless List.filter]; [done|].
  destruct (named names l); cbn [negb map run_ops run_op]; [by apply IH|].
  destruct (Del lb [Name l]); [by apply IH|done].
Qed.

Lemma include_labels_ops rhs names lb :
  include_labels rhs names lb =
  run_ops lb (map (fun ln => if negb (Get rhs ln =? "")%string then OpSet ln (Get rhs ln) else OpDel [ln]) names).
Proof.
  revert lb. induction names as [|n names IH]; intros lb; cbn [include_labels map run_ops]; [done|].
  destruct (negb _); cbn [run_op]; [by apply IH|]. destruct (Del lb [n]); [by apply IH|done].
Qed.

Lemma resultMetric_ops lhs rhs op m :
  resultMetric lhs rhs op m = of_option (Builder_Labels <$> run_ops (NewBuilder lhs) (metric_ops lhs rhs op m)).
Proof.
  unfold resultMetric, metric_ops. f_equal. rewrite !run_ops_app.
  assert (E1 : (if shouldDropMetricName op then Del (NewBuilder lhs) [MetricName] else Some (NewBuilder lhs)) =
               run_ops (NewBuilder lhs) (if shouldDropMetricName op then [OpDel [MetricName]] else [])).
  { destruct (shouldDropMetricName op); cbn [run_ops run_op]; [by destruct (Del _ _)|done]. }
  rewrite E1. destruct (run_ops (NewBuilder lhs) _) as [lb|]; [|done]. cbn [mbind option_bind].
  rewrite run_ops_app.
  assert (E2 : (match Card m with
      | CardOneToOne => if On m then del_unless (MatchingLabels m) lhs lb else Del lb (MatchingLabels m)
      | _ => Some lb end) = run_ops lb (match Card m with
      | CardOneToOne =>
        if On m then map (fun l => OpDel [Name l]) (List.filter (fun l => negb (named (MatchingLabels m) l)) lhs)
        else [OpDel (MatchingLabels m)]
      | _ => [] end)).
  { destruct (Card m); [destruct (On m)|..]; cbn [run_ops run_op]; [apply del_unless_ops|by destruct (Del lb (MatchingLabels m))|done..]. }
  rewrite E2. destruct (run_ops lb _) as [lb2|]; [|done]. cbn [mbind option_bind]. by rewrite include_labels_ops.
Qed.

(** The result's labels as a finite map. *)
Definition metric_map (lhs rhs : Labels) (op : ItemType) (m : VectorMatching) : gmap string string :=
  let m0 := if shouldDropMetricName op then base.delete MetricName (Map lhs) else Map lhs in
  let m1 := match Card m with
            | CardOneToOne =>
              if On m then base.filter (fun kv => kv.1 ∈ MatchingLabels m) m0 else delete_all (MatchingLabels m) m0
            | _ => m0
            end in
  foldl (fun acc ln => if decide (Get rhs ln = "") then base.delete ln acc else <[ln := Get rhs ln]> acc) m1 (Include m).

Lemma foldl_apply_deletes (ns : list string) (m : gmap string string) :
  foldl apply_op m (map (fun n => OpDel [n]) ns) = delete_all ns m.
Proof. revert m. induction ns as [|n ns IH]; intros m; cbn; [done|]. by rewrite IH. Qed.

Lemma foldl_includes rhs ns (m : gmap string string) :
  foldl apply_op m (map (fun ln => if negb (Get rhs ln =? "")%string then OpSet ln (Get rhs ln) else OpDel [ln]) ns) =
  foldl (fun acc ln => if decide (Get rhs ln = "") then base.delete ln acc else <[ln := Get rhs ln]> acc) m ns.
Proof.
  revert m. induction ns as [|n ns IH]; intros m; cbn [map foldl]; [done|].
  rewrite IH. f_equal. destruct (String.eqb_spec (Get rhs n) ""); case_decide; done.
Qed.

Lemma named_spec names l : named names l = true <-> Name l ∈ names.
Proof.
  unfold named. rewrite existsb_exists, list_elem_of_In. setoid_rewrite String.eqb_eq.
  split; [by intros (n & I & <-)|]. intros I. by exists (Name l).
Qed.

(** The labels of a result are those of the left element, without the
    metric name after an arithmetic operation, restricted in a one-to-one
    match to the labels of [on] or deprived of those of [ignoring], then with
    the labels [group_left] and [group_right] include taken over from the
    right element. *)
Theorem resultMetric_spec (lhs rhs : Labels) (op : ItemType) (m : VectorMatching) (W : wf_labels lhs) :
  resultMetric lhs rhs op m = Ok (FromMap (metric_map lhs rhs op m)).
Proof.
  rewrite resultMetric_ops. destruct (run_ops_spec (metric_ops lhs rhs op m) (NewBuilder lhs)) as (b & -> & Wb & _ & D).
  { split; [done|constructor]. }
  cbn [fmap option_fmap option_map of_option]. f_equal. destruct (Builder_Labels_spec b Wb) as [WL ML'].
  apply Map_inj; [done|apply FromMap_wf|]. rewrite Map_FromMap, ML', D.
  assert (E0 : denote (NewBuilder lhs) = Map lhs) by (unfold denote, NewBuilder; cbn; apply (left_id_L ∅ (∪))).
  rewrite E0. unfold metric_ops, metric_map. rewrite !foldl_app.
  assert (E1 : foldl apply_op (Map lhs) (if shouldDropMetricName op then [OpDel [MetricName]] else []) =
               if shouldDropMetricName op then base.delete MetricName (Map lhs) else Map lhs).
  { by destruct (shouldDropMetricName op). }
  rewrite E1. set (m0 := if shouldDropMetricName op then _ else _).
  assert (I : forall n x, m0 !! n = Some x -> n ∈ names lhs).
  { intros n x Hx. assert (Hm : Map lhs !! n = Some x).
    { unfold m0 in Hx. destruct (shouldDropMetricName op); [by apply lookup_delete_Some in Hx as []|done]. }
    apply Map_lookup in Hm; [|by apply wf_names]. apply list_elem_of_fmap. by exists (mkLabel n x). }
  assert (E2 : foldl apply_op m0 (match Card m with
      | CardOneToOne =>
        if On m then map (fun l => OpDel [Name l]) (List.filter (fun l => negb (named (MatchingLabels m) l)) lhs)
        else [OpDel (MatchingLabels m)]
      | _ => [] end) = match Card m with
      | CardOneToOne =>
        if On m then base.filter (fun kv => kv.1 ∈ MatchingLabels m) m0 else delete_all (MatchingLabels m) m0
      | _ => m0 end).
  { destruct (Card m); [destruct (On m)|..]; try done.
    rewrite <- (map_map Name (fun n => OpDel [n])), foldl_apply_deletes. apply map_eq. intros n. apply option_eq. intros x.
    rewrite delete_all_lookup, map_lookup_filter_Some. cbn. case_decide as X.
    - split; [done|]. intros [_ IN]. apply list_elem_of_fmap in X as (l & -> & L).
      apply list_elem_of_In, filter_In in L as [_ L]. apply negb_true_iff in L.
      apply named_spec in IN. congruence.
    - split; [|tauto]. intros Hx. split; [done|]. destruct (decide (n ∈ MatchingLabels m)); [done|].
      exfalso. apply X. pose proof (I n x Hx) as L. apply list_elem_of_fmap in L as (l & -> & L).
      apply list_elem_of_fmap. exists l. split; [done|]. apply list_elem_of_In, filter_In.
      split; [by apply list_elem_of_In|]. apply negb_true_iff, not_true_iff_false. by rewrite named_spec. }
  rewrite E2. apply foldl_includes.
Qed.
End facts.

(** * Witnesses *)

(** Concrete dependencies: a hash without collisions, and a [pow]. *)
Fixpoint encode (s : string) : Z := match s with String c s' => rune c + 1 + 257 * encode s' | EmptyString => 0 end.
#[local] Instance plain_tables : UnicodeTables := {| is_print_high _ := true |}.
#[local] Instance plain_hash : XXHash := {| xxhash_Sum64 := encode |}.
#[local] Instance plain_math : MathLib :=
  {| math_Pow := fmul; math_Exp := id; math_Log := id; math_Log2 := id; math_Log10 := id |}.

Definition no_collision `{XXHash} (lss : list Labels) : bool :=
  forallb (fun a => forallb (fun b => negb (Hash a =? Hash b) || bool_decide (a = b)) lss) lss.

Lemma no_collision_free `{XXHash} lss : no_collision lss = true -> collision_free lss.
Proof.
  unfold no_collision. rewrite forallb_forall. setoid_rewrite forallb_forall. intros F a b A B E.
  apply list_elem_of_In in A, B. specialize (F a A b B). rewrite E, Z.eqb_refl in F. by apply bool_decide_eq_true in F.
Qed.

Definition series (name inst : string) (x : Z) : Sample :=
  mkPSample [mkLabel MetricName name; mkLabel "instance" inst] 7 (of_Z x).

Definition set_matching : VectorMatching := mkVectorMatching CardManyToMany ["instance"] true [].
Definition one_matching : VectorMatching := mkVectorMatching CardOneToOne ["instance"] true [].
Definition left_matching : VectorMatching := mkVectorMatching CardManyToOne ["instance"] true ["__name__"].

Lemma set_operations_spec_witness :
  let lhs := [series "up" "a" 1; series "up" "b" 2] in
  let rhs := [series "down" "b" 3; series "down" "c" 4] in
  VectorAnd lhs rhs (Some set_matching) = Ok [series "up" "b" 2] /\
  VectorUnless lhs rhs (Some set_matching) = Ok [series "up" "a" 1] /\
  VectorOr lhs rhs (Some set_matching) = Ok (lhs ++ [series "down" "c" 4]).
Proof.
  apply (set_operations_spec [series "up" "a" 1; series "up" "b" 2] [series "down" "b" 3; series "down" "c" 4]
    set_matching eq_refl). apply no_collision_free. vm_compute. reflexivity.
Defined.

Lemma VectorBinop_spec_witness :
  let lhs := [series "up" "a" 1; series "up" "b" 2] in
  let rhs := [series "down" "b" 3; series "down" "c" 4] in
  VectorBinop 9 itemADD lhs rhs (Some one_matching) false =
  Ok [mkPSample [mkLabel "instance" "b"] 9 (of_Z 5)].
Proof.
  cbv zeta. rewrite (VectorBinop_spec 9 itemADD [series "up" "a" 1; series "up" "b" 2]
    [series "down" "b" 3; series "down" "c" 4] one_matching false eq_refl) by (done || (apply no_collision_free; vm_compute; reflexivity)).
  vm_compute. reflexivity.
Defined.

Lemma resultMetric_spec_witness :
  resultMetric [mkLabel MetricName "up"; mkLabel "instance" "a"] [mkLabel MetricName "down"] itemMUL left_matching =
  Ok [mkLabel MetricName "down"; mkLabel "instance" "a"].
Proof.
  rewrite (resultMetric_spec [mkLabel MetricName "up"; mkLabel "instance" "a"] [mkLabel MetricName "down"] itemMUL left_matching);
    [vm_compute; reflexivity|]. unfold wf_labels. repeat constructor.
Defined.
