(* ===== verification/GroupBy.v ===== *)
(** Grouping the elements of a list in a Go map keyed by the hash of some part
    of each element: what the map holds after the loop, and the groups in the
    order in which the code ranges over the map. *)

From S2P Require Import Prelude.

Section group_by.
Context {X G : Type} (create : X -> G) (update : G -> X -> G).

(** A group after its members, the first of which creates it. *)
Definition group_of (xs : list X) : option G :=
  match xs with [] => None | x :: xs => Some (foldl update (create x) xs) end.

(** One more element for a group that may not exist yet. *)
Definition insert_group (key : X -> Z) (m : gmap Z G) (x : X) : gmap Z G :=
  <[key x := match m !! key x with Some g => update g x | None => create x end]> m.
Definition group_fold (key : X -> Z) (m : gmap Z G) (xs : list X) : gmap Z G := foldl (insert_group key) m xs.

Definition with_key (key : X -> Z) (h : Z) (xs : list X) : list X := List.filter (fun x => key x =? h) xs.

Lemma group_fold_lookup key m xs h :
  group_fold key m xs !! h =
  match m !! h with Some g => Some (foldl update g (with_key key h xs)) | None => group_of (with_key key h xs) end.
Proof.
  revert m. induction xs as [|x xs IH]; intros m; cbn.
  { by destruct (m !! h). }
  fold (group_fold key (insert_group key m x) xs). rewrite IH. unfold insert_group.
  destruct (Z.eqb_spec (key x) h) as [<-|N].
  - rewrite lookup_insert_eq. by destruct (m !! key x).
  - by rewrite lookup_insert_ne.
Qed.

(** * Classes *)

(** The key is a hash of the class of an element. *)
Context {K : Type} `{EqDecision K} (class : X -> K) (hash : K -> Z).

Definition members (k : K) (xs : list X) : list X := List.filter (fun x => bool_decide (class x = k)) xs.

Local Notation key := (fun x => hash (class x)).
Local Notation injective xs := (forall a b, a ∈ map class xs -> b ∈ map class xs -> hash a = hash b -> a = b).

Lemma members_class k xs x : x ∈ members k xs <-> x ∈ xs /\ class x = k.
Proof. unfold members. rewrite list_elem_of_In, filter_In, <- list_elem_of_In, bool_decide_eq_true. done. Qed.

Lemma with_key_members xs x : injective xs -> x ∈ xs -> with_key key (hash (class x)) xs = members (class x) xs.
Proof.
  intros I X0. apply filter_ext_in. intros y Y. apply list_elem_of_In in Y. apply eq_bool_prop_intro.
  rewrite !Is_true_true, Z.eqb_eq, bool_decide_eq_true. split; [|by intros ->].
  apply I; apply list_elem_of_fmap; eauto.
Qed.

Lemma group_of_Some k xs : k ∈ map class xs <-> is_Some (group_of (members k xs)).
Proof.
  rewrite list_elem_of_fmap. split.
  - intros (x & -> & I). destruct (members (class x) xs) as [|y ys] eqn:E; [|by eexists].
    assert (M : x ∈ members (class x) xs) by (by apply members_class). rewrite E in M. by apply elem_of_nil in M.
  - intros [g G0]. destruct (members k xs) as [|x ys] eqn:E; [done|]. exists x.
    assert (M : x ∈ members k xs) by (rewrite E; left). by apply members_class in M as [M <-].
Qed.

(** The classes in the order of the map. *)
Definition class_order `{MO : MapOrder} (xs : list X) (m : gmap Z G) : list K :=
  omap (fun hg => class <$> head (with_key key hg.1 xs)) (map_order m).

Lemma group_order `{MO : MapOrder} xs :
  injective xs -> let m := group_fold key ∅ xs in
  exists ord, ord ≡ₚ remove_dups (map class xs) /\ map snd (map_order m) = omap (fun k => group_of (members k xs)) ord.
Proof.
  intros I m. exists (class_order xs m).
  assert (M : forall h, m !! h = group_of (with_key key h xs)).
  { intros h. unfold m. by rewrite group_fold_lookup, lookup_empty. }
  assert (P : forall h g, (h, g) ∈ map_order m ->
    exists x, x ∈ xs /\ h = hash (class x) /\ head (with_key key h xs) = Some x /\ Some g = group_of (members (class x) xs)).
  { intros h g E. rewrite map_order_perm, elem_of_map_to_list, M in E.
    destruct (with_key key h xs) as [|x ys] eqn:W; [done|]. exists x.
    assert (IX : x ∈ with_key key h xs) by (rewrite W; left).
    apply list_elem_of_In, filter_In in IX as [I1 I2]. apply list_elem_of_In in I1. apply Z.eqb_eq in I2.
    split; [done|]. split; [done|]. split; [done|]. by rewrite <- (with_key_members xs x I I1), I2, W. }
  assert (F : forall l, (forall hg, hg ∈ l -> hg ∈ map_order m) ->
    exists cs, omap (fun hg => class <$> head (with_key key hg.1 xs)) l = cs /\ map hash cs = map fst l /\
      map snd l = omap (fun k => group_of (members k xs)) cs).
  { induction l as [|[h g] l IH]; intros S; [by exists []|]. destruct IH as (cs & E1 & E2 & E3); [intros; apply S; by right|].
    destruct (P h g (S _ ltac:(left))) as (x & _ & -> & HD & EG). exists (class x :: cs). cbn in *. rewrite HD. cbn. rewrite <- EG.
    split; [by rewrite E1|]. split; by f_equal. }
  destruct (F (map_order m) ltac:(done)) as (cs & E1 & E2 & E3). unfold class_order. rewrite E1. split; [|done].
  apply NoDup_Permutation; [|apply NoDup_remove_dups|].
  - apply (NoDup_fmap_1 hash). change (hash <$> cs) with (map hash cs). rewrite E2, map_order_perm. apply NoDup_fst_map_to_list.
  - intros k. rewrite elem_of_remove_dups, <- E1, list_elem_of_omap, list_elem_of_fmap. split.
    + intros ([h g] & S & E). destruct (P h g S) as (x & IX & _ & HD & _). cbn in E. rewrite HD in E. injection E as <-. by exists x.
    + intros (x & -> & IX). destruct (m !! hash (class x)) as [g|] eqn:E.
      * assert (S : (hash (class x), g) ∈ map_order m) by (rewrite map_order_perm; by apply elem_of_map_to_list).
        exists (hash (class x), g). split; [done|]. destruct (P _ _ S) as (y & IY & EH & HD & _). cbn. rewrite HD. cbn. f_equal.
        symmetry. apply I; [apply list_elem_of_fmap; eauto..|done].
      * exfalso. rewrite M, (with_key_members xs x I IX) in E. assert (Y : class x ∈ map class xs) by (apply list_elem_of_fmap; eauto).
        apply group_of_Some in Y as [g Y]. congruence.
Qed.

(** The groups, as a multiset. *)
Lemma group_perm `{MO : MapOrder} xs : injective xs ->
  map snd (map_order (group_fold key ∅ xs)) ≡ₚ omap (fun k => group_of (members k xs)) (remove_dups (map class xs)).
Proof. intros I. destruct (group_order xs I) as (ord & P & ->). by rewrite P. Qed.
End group_by.
