(* ===== verification/Aggregate.v ===== *)
(** promql/engine.go: aggregation of a vector into groups, with the heaps of
    promql/functions.go. *)

From S2P Require Import Prelude GoString GoFmt Float GoMath Labels LabelsFacts Lexer Ast Quantile Value Heap GroupBy.
From S2P Require Import Evaluator Binop.

#[export] Instance Sample_inhabited : Inhabited Sample := populate (mkPSample [] 0 (of_Z 0)).

(** [vectorByValueHeap.Less] and [vectorByReverseValueHeap.Less] *)
Definition by_value (a b : Sample) : bool := by_value_Less (s_V a) (s_V b).
Definition by_reverse_value (a b : Sample) : bool := if IsNaN (s_V a) then true else flt (s_V b) (s_V a).

(** [groupedAggregation]; [g_heap] is the heap of [topk], the reverse heap of
    [bottomk], or the values of [quantile]. *)
Record groupedAggregation := mkGroup {
  g_labels : Labels; g_value : float64; g_squares : float64; groupCount : Z; g_heap : list Sample
}.

Section aggregation.
Context `{UT : UnicodeTables} `{XH : XXHash} `{IO : IntOverflow} `{MO : MapOrder}.

Section operator.
Variables (Timestamp : Z) (op : ItemType) (grouping : list string) (without : bool).
(** The parameter of [topk] and [bottomk], of [quantile], of [count_values]. *)
Variables (k : Z) (q : float64) (valueLabel : string).

(** The order of the heap of the operator. *)
Definition heap_less : Sample -> Sample -> bool :=
  match op with itemBottomK => by_reverse_value | _ => by_value end.

(** The labels of a sample that count for the grouping. *)
Definition aggr_metric (s : Sample) : result everr Labels :=
  of_option (
    lb ← (if without then lb ← Del (NewBuilder (Metric s)) grouping; Del lb [MetricName]
          else Some (NewBuilder (Metric s)));
    Some (Builder_Labels (match op with itemCountValues => Set_ lb valueLabel (FormatFloat_f (s_V s)) | _ => lb end))).

(** [make]-and-append of the labels named by the grouping, then sorted. *)
Definition group_labels (metric : Labels) : Labels :=
  if without then metric else sort_labels (labels_for metric grouping).

Definition grouping_key (metric : Labels) : Z :=
  if without then Hash metric else hashForLabels metric grouping.

Definition bare (s : Sample) : Sample := mkPSample (Metric s) 0 (s_V s).

(** The first sample of a group. *)
Definition new_group (metric : Labels) (s : Sample) : groupedAggregation :=
  mkGroup (group_labels metric) (s_V s) (fmul (s_V s) (s_V s)) 1
    (match op with
     | itemTopK | itemQuantile | itemBottomK => Push heap_less [] (bare s)
     | _ => []
     end).

(** The heap of [topk] and [bottomk] takes a sample: while it has room, or if
    the sample beats the root. *)
Definition heap_add (h : list Sample) (s : Sample) : list Sample :=
  let root := get h 0 in
  let beats := match op with itemBottomK => flt (s_V s) (s_V root) | _ => flt (s_V root) (s_V s) end in
  if (Z.of_nat (length h) <? k) || beats || IsNaN (s_V root) then
    let h := if Z.of_nat (length h) =? k then match Pop heap_less h with Some (_, h) => h | None => h end else h in
    Push heap_less h (bare s)
  else h.

(** A further sample of a group. *)
Definition update_group (g : groupedAggregation) (s : Sample) : result everr groupedAggregation :=
  let add_value g := mkGroup (g_labels g) (fadd (g_value g) (s_V s)) (g_squares g) (groupCount g) (g_heap g) in
  let add_square g := mkGroup (g_labels g) (g_value g) (fadd (g_squares g) (fmul (s_V s) (s_V s))) (groupCount g) (g_heap g) in
  let add_count g := mkGroup (g_labels g) (g_value g) (g_squares g) (groupCount g + 1) (g_heap g) in
  let set_value g v := mkGroup (g_labels g) v (g_squares g) (groupCount g) (g_heap g) in
  let set_heap g h := mkGroup (g_labels g) (g_value g) (g_squares g) (groupCount g) h in
  match op with
  | itemSum => Ok (add_value g)
  | itemAvg => Ok (add_count (add_value g))
  | itemMax => Ok (if flt (g_value g) (s_V s) || IsNaN (g_value g) then set_value g (s_V s) else g)
  | itemMin => Ok (if flt (s_V s) (g_value g) || IsNaN (g_value g) then set_value g (s_V s) else g)
  | itemCount | itemCountValues => Ok (add_count g)
  | itemStdvar | itemStddev => Ok (add_count (add_square (add_value g)))
  | itemTopK | itemBottomK => Ok (set_heap g (heap_add (g_heap g) s))
  | itemQuantile => Ok (set_heap g (g_heap g ++ [s]))
  | _ => Err (EvInternal ("expected aggregation operator but got " +:+ Quote (ItemType_String op)))
  end.

(** The loop over the vector. *)
Fixpoint group_loop (vec : Vector) (m : gmap Z groupedAggregation) : result everr (gmap Z groupedAggregation) :=
  match vec with
  | [] => Ok m
  | s :: vec' =>
    match aggr_metric s with
    | Err e => Err e
    | Ok metric =>
      let key := grouping_key metric in
      match m !! key with
      | None => group_loop vec' (<[key := new_group metric s]> m)
      | Some g => match update_group g s with
                  | Err e => Err e
                  | Ok g => group_loop vec' (<[key := g]> m)
                  end
      end
    end
  end.

(** What a group adds to the result. *)
Definition group_result (g : groupedAggregation) : result everr (list Sample) :=
  let one v := Ok [mkPSample (g_labels g) Timestamp v] in
  let n := of_Z (groupCount g) in
  let avg := fdiv (g_value g) n in
  let variance := fsub (fdiv (g_squares g) n) (fmul avg avg) in
  match op with
  | itemAvg => one avg
  | itemCount | itemCountValues => one n
  | itemStdvar => one variance
  | itemStddev => one (Sqrt variance)
  | itemTopK | itemBottomK =>
    Ok (map (fun s => mkPSample (Metric s) Timestamp (s_V s)) (sort_Sort (fun a b => heap_less b a) (g_heap g)))
  | itemQuantile =>
    match quantile int_overflow q (map s_V (g_heap g)) with
    | None => Err EvRuntime
    | Some v => one v
    end
  | _ => one (g_value g)
  end.

(** [ev.aggregation], once the parameter is evaluated. *)
Definition aggregate (vec : Vector) : result everr Vector :=
  match group_loop vec ∅ with
  | Err e => Err e
  | Ok m => match mapM_result (fun kg => group_result kg.2) (map_order m) with
            | Err e => Err e
            | Ok rs => Ok (concat rs)
            end
  end.
End operator.
End aggregation.
