(* ===== verification/AggregateFacts.v ===== *)
(** What aggregation computes: the groups are the classes of equal grouping
    labels, and each operator is a function of the values of a group in the
    order of the vector. *)

From S2P Require Import Prelude GoString GoFmt Float GoMath Labels LabelsFacts Lexer Ast Quantile Value Heap GroupBy.
From S2P Require Import Evaluator Binop BinopFacts Aggregate.
From Stdlib Require Import Sorting.Sorted.

Section facts.
Context `{UT : UnicodeTables} `{XH : XXHash} `{IO : IntOverflow} `{MO : MapOrder}.

Section operator.
Variables (Timestamp : Z) (op : ItemType) (grouping : list string) (without : bool).
Variables (k : Z) (q : float64) (valueLabel : string).
Hypothesis A : isAggregator op = true.

Local Notation aggr_metric := (aggr_metric op grouping without valueLabel).
Local Notation grouping_key := (grouping_key grouping without).
Local Notation group_labels := (group_labels grouping without).
Local Notation new_group := (new_group op grouping without).
Local Notation update_group := (update_group op k).
Local Notation group_loop := (group_loop op grouping without k valueLabel).
Local Notation group_result := (group_result Timestamp op q).
Local Notation aggregate := (aggregate Timestamp op grouping without k q valueLabel).

Lemma aggr_metric_ok s : exists m, aggr_metric s = Ok m.
Proof.
  unfold Aggregate.aggr_metric.
  assert (H : exists lb, (if without then lb ← Del (NewBuilder (Metric s)) grouping; Del lb [MetricName]
                          else Some (NewBuilder (Metric s))) = Some lb).
  { destruct without; [|eauto]. destruct (Del_total (NewBuilder (Metric s)) grouping) as (lb & -> & N & _); [constructor|].
    cbn [mbind option_bind]. destruct (Del_total lb [MetricName] N) as (lb' & -> & _). eauto. }
  destruct H as [lb ->]. cbn. eauto.
Qed.

(** The labels that identify the group of a sample. *)
Definition metric_of (s : Sample) : Labels := match aggr_metric s with Ok m => m | Err _ => [] end.
Definition key_labels (s : Sample) : Labels :=
  if without then metric_of s else labels_for (metric_of s) grouping.

(** The labels of the group in the result. *)
Definition out_labels (kl : Labels) : Labels := if without then kl else sort_labels kl.

Local Notation members vec kl := (GroupBy.members key_labels kl vec).

Lemma aggr_metric_of s : aggr_metric s = Ok (metric_of s).
Proof. unfold metric_of. by destruct (aggr_metric_ok s) as [m ->]. Qed.

Lemma key_hash s : grouping_key (metric_of s) = Hash (key_labels s).
Proof. unfold Aggregate.grouping_key, key_labels. by destruct without. Qed.

Lemma group_labels_out s : group_labels (metric_of s) = out_labels (key_labels s).
Proof. unfold Aggregate.group_labels, out_labels, key_labels. by destruct without. Qed.

Lemma update_group_ok g s : exists g', update_group g s = Ok g'.
Proof.
  unfold Aggregate.update_group. pose proof A as A'. clear -A'.
  destruct op; vm_compute in A'; first [discriminate A' | eexists; reflexivity].
Qed.

Definition updated (g : groupedAggregation) (s : Sample) : groupedAggregation :=
  match update_group g s with Ok g => g | Err _ => g end.

Lemma update_updated g s : update_group g s = Ok (updated g s).
Proof. unfold updated. by destruct (update_group_ok g s) as [g' ->]. Qed.

(** A group after its members, the first of which creates it. *)
Local Notation group_of := (GroupBy.group_of (fun s => new_group (metric_of s) s) updated).

Lemma group_loop_fold vec m :
  group_loop vec m = Ok (group_fold (fun s => new_group (metric_of s) s) updated (fun s => Hash (key_labels s)) m vec).
Proof.
  revert m. induction vec as [|s vec IH]; intros m; cbn [Aggregate.group_loop]; [done|].
  rewrite aggr_metric_of, key_hash. unfold group_fold. cbn [foldl]. unfold insert_group at 2.
  destruct (m !! Hash (key_labels s)) as [g|]; [rewrite update_updated|]; by rewrite IH.
Qed.

(** Aggregation, given what its groups add to the result. *)
Lemma aggregate_by_group vec (f : groupedAggregation -> list Sample) :
  collision_free (map key_labels vec) ->
  (forall kl g, group_of (members vec kl) = Some g -> group_result g = Ok (f g)) ->
  exists ord, ord ≡ₚ remove_dups (map key_labels vec) /\
    aggregate vec = Ok (flat_map (fun kl => match group_of (members vec kl) with Some g => f g | None => [] end) ord).
Proof.
  intros C F. unfold Aggregate.aggregate. rewrite group_loop_fold.
  destruct (group_order (fun s => new_group (metric_of s) s) updated key_labels Hash vec C) as (ord & P & E).
  exists ord. split; [done|].
  assert (G : forall l ls, map snd l = omap (fun kl => group_of (members vec kl)) ls ->
    exists rs, mapM_result (fun kg : Z * groupedAggregation => group_result kg.2) l = Ok rs /\
      concat rs = flat_map (fun kl => match group_of (members vec kl) with Some g => f g | None => [] end) ls).
  { intros l ls. revert l. induction ls as [|kl ls IH]; intros l EL.
    - destruct l; [by exists []|done].
    - cbn [omap list_omap flat_map] in *. destruct (group_of (members vec kl)) as [g|] eqn:EG; [|by apply IH].
      destruct l as [|[h g'] l]; [done|]. injection EL as -> EL. destruct (IH l EL) as (rs & E1 & ER).
      exists (f g :: rs). cbn [mapM_result snd concat]. by rewrite (F kl g EG), E1, <- ER. }
  destruct (G _ _ E) as (rs & -> & <-). done.
Qed.

(** * The fields of a group *)

Definition value_step (a v : float64) : float64 :=
  match op with
  | itemSum | itemAvg | itemStdvar | itemStddev => fadd a v
  | itemMax => if flt a v || IsNaN a then v else a
  | itemMin => if flt v a || IsNaN a then v else a
  | _ => a
  end.
Definition square_step (a v : float64) : float64 :=
  match op with itemStdvar | itemStddev => fadd a (fmul v v) | _ => a end.
Definition counts : bool :=
  match op with itemAvg | itemCount | itemCountValues | itemStdvar | itemStddev => true | _ => false end.
Definition heap_step (h : list Sample) (s : Sample) : list Sample :=
  match op with itemTopK | itemBottomK => heap_add op k h s | itemQuantile => h ++ [s] | _ => h end.

Lemma updated_fields g s :
  updated g s = mkGroup (g_labels g) (value_step (g_value g) (s_V s)) (square_step (g_squares g) (s_V s))
                  (if counts then groupCount g + 1 else groupCount g) (heap_step (g_heap g) s).
Proof.
  unfold updated, Aggregate.update_group, value_step, square_step, counts, heap_step.
  pose proof A as A'. clear -A'. destruct g.
  destruct op; vm_compute in A'; try discriminate A'; try reflexivity;
    match goal with |- context [if ?b then _ else _] => by destruct b end.
Qed.

Lemma foldl_updated g vs :
  foldl updated g vs = mkGroup (g_labels g) (foldl value_step (g_value g) (map s_V vs))
    (foldl square_step (g_squares g) (map s_V vs))
    (if counts then groupCount g + Z.of_nat (length vs) else groupCount g) (foldl heap_step (g_heap g) vs).
Proof.
  revert g. induction vs as [|s vs IH]; intros g; cbn [foldl map length].
  { destruct g; cbn. rewrite Z.add_0_r. by destruct counts. }
  rewrite IH, updated_fields. cbn. f_equal. destruct counts; [lia|done].
Qed.

(** * The operators that give one value per group *)

Definition fold1 (f : float64 -> float64 -> float64) (vs : list float64) : float64 :=
  match vs with v :: vs => foldl f v vs | [] => NaN end.

(** The value of a group with the values [vs]; [None] is the panic of
    [quantile]. *)
Definition summary (vs : list float64) : option float64 :=
  let n := of_Z (Z.of_nat (length vs)) in
  let sum := fold1 fadd vs in
  let avg := fdiv sum n in
  let variance := fsub (fdiv (fold1 fadd (map (fun v => fmul v v) vs)) n) (fmul avg avg) in
  match op with
  | itemSum => Some sum
  | itemAvg => Some avg
  | itemMin | itemMax => Some (fold1 value_step vs)
  | itemCount | itemCountValues => Some n
  | itemStdvar => Some variance
  | itemStddev => Some (Sqrt variance)
  | itemQuantile => quantile int_overflow q vs
  | _ => None
  end.

Definition ranking : bool := match op with itemTopK | itemBottomK => true | _ => false end.

Lemma members_labels kl vec s vs : members vec kl = s :: vs -> key_labels s = kl.
Proof. intros E. assert (I : s ∈ members vec kl) by (rewrite E; left). by apply members_class in I as [_ I]. Qed.

Lemma group_result_summary vec kl g :
  ranking = false -> group_of (members vec kl) = Some g ->
  group_result g = match summary (map s_V (members vec kl)) with
                   | Some v => Ok [mkPSample (out_labels kl) Timestamp v]
                   | None => Err EvRuntime
                   end.
Proof.
  intros NR. destruct (members vec kl) as [|s vs] eqn:E; [done|]. intros [= <-].
  apply members_labels in E. rewrite foldl_updated. unfold Aggregate.new_group. rewrite group_labels_out, E. clear E.
  unfold Aggregate.group_result, summary, value_step, square_step, counts, heap_step, ranking in *.
  cbn [Aggregate.g_labels Aggregate.g_value Aggregate.g_squares Aggregate.groupCount Aggregate.g_heap map fold1 length].
  replace (Z.of_nat (S (length (map s_V vs)))) with (1 + Z.of_nat (length vs)) by (rewrite length_map; lia).
  rewrite !foldl_map. pose proof A as A'. clear -A' NR.
  destruct op; vm_compute in A'; first [discriminate A' | discriminate NR | reflexivity | idtac].
  change (Push (heap_less itemQuantile) [] (bare s)) with ([bare s]).
  rewrite foldl_append, map_app. done.
Qed.


(** The aggregation operators that give one value per group.  The groups
    are the classes of equal grouping labels, each gives one sample with the
    labels of the group and the evaluation time, and its value is the
    operator's summary of the values of its members in the order of the
    vector. *)
Theorem aggregate_summary (vec : Vector)
  (NR : ranking = false) (C : collision_free (map key_labels vec))
  (Q : forall kl, kl ∈ map key_labels vec -> is_Some (summary (map s_V (members vec kl)))) :
  exists ord, ord ≡ₚ remove_dups (map key_labels vec) /\
    aggregate vec = Ok (map (fun kl => mkPSample (out_labels kl) Timestamp
                                         (default NaN (summary (map s_V (members vec kl))))) ord).
Proof.
  set (f (kl : Labels) := mkPSample (out_labels kl) Timestamp (default NaN (summary (map s_V (members vec kl))))).
  destruct (aggregate_by_group vec (fun g => match group_result g with Ok r => r | Err _ => [] end) C) as (ord & P & ->).
  { intros kl g G. rewrite (group_result_summary vec kl g NR G).
    destruct (Q kl) as [v ->]; [|done]. eapply group_of_Some. by rewrite G. }
  exists ord. split; [done|]. f_equal.
  assert (I : forall kl, kl ∈ ord -> kl ∈ map key_labels vec) by (intros kl; by rewrite P, elem_of_remove_dups).
  clear P. induction ord as [|kl ord IH]; [done|]. cbn [flat_map map].
  rewrite IH by (intros; apply I; by right). pose proof (I kl ltac:(left)) as K.
  pose proof K as [g G]%(group_of_Some (fun s => new_group (metric_of s) s) updated). rewrite G.
  rewrite (group_result_summary vec kl g NR G). unfold f. by destruct (Q kl K) as [v ->].
Qed.


(** * Ranking: [topk] and [bottomk] *)

(** [a] ranks no higher than [b]; a NaN ranks lowest. *)
Definition smallest_first : bool := match op with itemBottomK => true | _ => false end.
Definition ranks_below (a b : Sample) : Prop :=
  IsNaN (s_V a) || (if smallest_first then fle (s_V b) (s_V a) else fle (s_V a) (s_V b)) = true.

Lemma heap_less_value a b :
  heap_less op a b = IsNaN (s_V a) || (if smallest_first then flt (s_V b) (s_V a) else flt (s_V a) (s_V b)).
Proof.
  unfold heap_less, by_value, by_reverse_value, by_value_Less, smallest_first.
  destruct op; by destruct (IsNaN (s_V a)).
Qed.

Lemma ranks_below_trans a b c : ranks_below a b -> ranks_below b c -> ranks_below a c.
Proof.
  unfold ranks_below. intros H1 H2. destruct (IsNaN (s_V a)) eqn:NA; [done|]. cbn [orb] in *.
  assert (NB : forall x y, fle x y = true -> IsNaN x = false /\ IsNaN y = false).
  { intros x y. unfold fle, SFleb, IsNaN. destruct (num x), (num y); try done; by destruct s. }
  destruct smallest_first; [rewrite (proj1 (NB _ _ H1)) in H2; by apply (fle_trans _ _ _ H2)|].
  rewrite (proj2 (NB _ _ H1)) in H2. by apply (fle_trans _ _ _ H1).
Qed.

Lemma flt_fle x y : flt x y = true -> fle x y = true.
Proof. unfold flt, fle, SFltb, SFleb. by destruct (SFcompare (num x) (num y)) as [[]|]. Qed.

Lemma not_flt_fle x y : IsNaN x = false -> flt x y = false -> IsNaN y || fle y x = true.
Proof.
  intros NX L. destruct (IsNaN y) eqn:NY; [done|]. cbn. rewrite (fle_flt_total _ _ NY NX), L. done.
Qed.

Lemma heap_less_true a b : heap_less op a b = true -> ranks_below a b.
Proof.
  rewrite heap_less_value. unfold ranks_below. destruct (IsNaN (s_V a)); [done|].
  destruct smallest_first; apply flt_fle.
Qed.

Lemma heap_less_false a b : heap_less op a b = false -> ranks_below b a.
Proof.
  rewrite heap_less_value. unfold ranks_below. destruct (IsNaN (s_V a)) eqn:NA; [done|]. cbn [orb].
  destruct (IsNaN (s_V b)) eqn:NB; [done|]. destruct smallest_first; intros L; cbn;
    rewrite (fle_flt_total _ _) by done; by rewrite L.
Qed.

(** The [k] highest of [xs]. *)
Record best (xs kept : list Sample) : Prop := {
  best_length : length kept = Nat.min (Z.to_nat k) (length xs);
  best_perm : exists dropped, kept ++ dropped ≡ₚ xs /\ forall x y, x ∈ dropped -> y ∈ kept -> ranks_below x y
}.

Lemma heap_add_best h xs s :
  0 < k -> best xs h -> is_heap ranks_below h ->
  best (xs ++ [bare s]) (heap_add op k h s) /\ is_heap ranks_below (heap_add op k h s).
Proof.
  intros K [L (dropped & P & D)] H. unfold heap_add.
  pose proof (Push_heap (heap_less op) _ ranks_below_trans heap_less_true heap_less_false) as PH.
  pose proof (Push_perm (heap_less op)) as PP.
  set (root := get h 0).
  assert (LX : (length h <= length xs)%nat) by lia.
  destruct (Z.ltb_spec (Z.of_nat (length h)) k) as [LT|GE]; cbn [orb].
  - replace (Z.of_nat (length h) =? k) with false by lia. split; [|by apply PH].
    assert (dropped = []) as ->.
    { apply Permutation_length in P. rewrite length_app in P. destruct dropped; [done|]. cbn in P. lia. }
    rewrite app_nil_r in P. split.
    + rewrite PP, length_app. cbn. lia.
    + exists []. rewrite app_nil_r, PP, P. split; [by rewrite Permutation_cons_append|]. intros x y X. by apply elem_of_nil in X.
  - assert (LK : Z.of_nat (length h) = k) by lia. rewrite LK, Z.eqb_refl.
    assert (RH : forall y, y ∈ h -> ranks_below root y).
    { intros y (j & Hj)%list_elem_of_lookup. pose proof (lookup_lt_Some _ _ _ Hj).
      replace y with (get h j) by (unfold get; by rewrite nth_lookup, Hj).
      apply (heap_root (heap_less op) _ ranks_below_trans heap_less_true heap_less_false h (length h) j H). lia. }
    assert (RI : root ∈ h).
    { unfold root, get. apply list_elem_of_In, nth_In. lia. }
    set (beats := _ || IsNaN (s_V root)).
    assert (B : if beats then ranks_below root (bare s) else ranks_below (bare s) root).
    { unfold beats, ranks_below. cbn [bare s_V]. destruct (IsNaN (s_V root)) eqn:NR; [by rewrite orb_true_r|].
      rewrite orb_false_r. cbn [orb].
      replace (match op with itemBottomK => flt (s_V s) (s_V root) | _ => flt (s_V root) (s_V s) end)
        with (if smallest_first then flt (s_V s) (s_V root) else flt (s_V root) (s_V s))
        by (unfold smallest_first; by destruct op).
      destruct smallest_first; case_if; try (by apply flt_fle); try (by apply not_flt_fle).
      destruct (IsNaN (s_V s)) eqn:NS; [done|]. cbn. rewrite (fle_flt_total _ _ NR NS). by apply negb_true_iff. }
    destruct beats.
    + destruct (Pop_Some (heap_less op) h) as (x & h' & E); [intros ->; cbn in LK; lia|]. rewrite E.
      destruct (Pop_spec (heap_less op) _ ranks_below_trans heap_less_true heap_less_false h x h' H E) as (P' & H' & -> & _).
      fold root in P'. split; [|by apply PH].
      pose proof (Permutation_length P') as LP. cbn in LP. split.
      * rewrite PP, length_app. cbn. lia.
      * exists (root :: dropped). rewrite PP. split.
        -- rewrite <- P, P', (Permutation_app_comm _ [bare s]). cbn. apply perm_skip. symmetry. apply Permutation_middle.
        -- intros u y U Y. rewrite PP, elem_of_cons in Y. rewrite elem_of_cons in U.
           assert (UR : ranks_below u root) by (destruct U as [->|U]; [by apply RH|by apply D]).
           destruct Y as [->|Y]; [by apply (ranks_below_trans _ root)|].
           apply (ranks_below_trans _ root); [done|]. apply RH. rewrite P'. by right.
    + split; [|done]. split; [rewrite length_app; cbn; lia|]. exists (bare s :: dropped). split.
      * rewrite <- P, <- Permutation_middle. apply Permutation_cons_append.
      * intros u y U Y. rewrite elem_of_cons in U. destruct U as [->|U]; [|by apply D].
        apply (ranks_below_trans _ root); [done|]. by apply RH.
Qed.

Lemma foldl_heap_best l h xs :
  0 < k -> best xs h -> is_heap ranks_below h -> best (xs ++ map bare l) (foldl (heap_add op k) h l).
Proof.
  intros K. revert h xs. induction l as [|s l IH]; intros h xs B H; cbn [foldl map].
  { by rewrite app_nil_r. }
  destruct (heap_add_best h xs s K B H) as [B' H']. specialize (IH _ _ B' H').
  by rewrite <- app_assoc in IH.
Qed.

Definition stamp (s : Sample) : Sample := mkPSample (Metric s) Timestamp (s_V s).

(** What a group shows: the highest of its members, in order. *)
Lemma group_result_ranking vec kl g :
  ranking = true -> 0 < k -> group_of (members vec kl) = Some g ->
  let kept := sort_Sort (fun a b => heap_less op b a) (g_heap g) in
  group_result g = Ok (map stamp kept) /\ best (map bare (members vec kl)) kept /\
  StronglySorted (flip ranks_below) kept.
Proof.
  intros R K. destruct (members vec kl) as [|s vs]; [done|]. intros [= <-].
  rewrite foldl_updated. cbn [Aggregate.g_heap].
  set (h0 := g_heap (new_group (metric_of s) s)).
  assert (E0 : h0 = [bare s]).
  { unfold h0, Aggregate.new_group. cbn [g_heap]. revert R. unfold ranking. by destruct op. }
  assert (ES : forall l h, foldl heap_step h l = foldl (heap_add op k) h l).
  { induction l as [|x l IH]; intros h; cbn [foldl]; [done|]. rewrite IH. f_equal.
    revert R. unfold ranking, heap_step. by destruct op. }
  rewrite ES, E0. set (h := foldl (heap_add op k) [bare s] vs).
  assert (B : best (map bare (s :: vs)) h).
  { apply (foldl_heap_best vs [bare s] [bare s] K).
    - split; [cbn; lia|]. exists []. split; [done|]. intros x y X. by apply elem_of_nil in X.
    - intros j J. cbn in J. lia. }
  cbv zeta. split; [|split].
  - unfold Aggregate.group_result. cbn [g_heap]. revert R. unfold ranking. by destruct op.
  - destruct B as [L (d & P & D)]. pose proof (sort_Sort_perm (fun a b => heap_less op b a) h) as SP. split.
    + by rewrite SP.
    + exists d. rewrite SP. split; [done|]. intros x y X Y. rewrite SP in Y. by apply D.
  - apply sort_Sort_sorted; unfold flip.
    + intros a b c H1 H2. by apply (ranks_below_trans _ b).
    + intros a b. apply heap_less_true.
    + intros a b. apply heap_less_false.
Qed.

(** C6: [topk] and [bottomk] give, for each group, its [k] highest members (or
    lowest, NaN last in both cases) with their own labels, in descending order
    of rank; no member that is left out ranks above one that is kept. *)
Theorem aggregate_ranking (vec : Vector) (R : ranking = true) (K : 0 < k) (C : collision_free (map key_labels vec)) :
  exists ord kept, ord ≡ₚ remove_dups (map key_labels vec) /\
    aggregate vec = Ok (flat_map (fun kl => map stamp (kept kl)) ord) /\
    forall kl, kl ∈ ord -> best (map bare (members vec kl)) (kept kl) /\ StronglySorted (flip ranks_below) (kept kl).
Proof.
  set (kept kl := match group_of (members vec kl) with
                  | Some g => sort_Sort (fun a b => heap_less op b a) (g_heap g)
                  | None => []
                  end).
  assert (G : forall kl g, group_of (members vec kl) = Some g ->
    group_result g = Ok (map stamp (kept kl)) /\ best (map bare (members vec kl)) (kept kl) /\
    StronglySorted (flip ranks_below) (kept kl)).
  { intros kl g E. unfold kept. rewrite E. exact (group_result_ranking vec kl g R K E). }
  destruct (aggregate_by_group vec (fun g => match group_result g with Ok r => r | Err _ => [] end) C) as (ord & P & ->).
  { intros kl g E. by destruct (G kl g E) as [-> _]. }
  exists ord, kept. split; [done|].
  assert (I : forall kl, kl ∈ ord -> exists g, group_of (members vec kl) = Some g).
  { intros kl. rewrite P, elem_of_remove_dups. by intros [g G0]%(group_of_Some (fun s => new_group (metric_of s) s) updated); exists g. }
  split.
  - f_equal. clear P. induction ord as [|kl ord IH]; [done|]. cbn [flat_map].
    rewrite IH by (intros; apply I; by right). destruct (I kl ltac:(left)) as [g E]. rewrite E.
    by destruct (G kl g E) as [-> _].
  - intros kl M. destruct (I kl M) as [g E]. by destruct (G kl g E) as [_ ?].
Qed.

End operator.
End facts.

(** * Witnesses *)

#[local] Existing Instances plain_tables plain_hash.
#[local] Instance truncate_overflow : IntOverflow := {| int_overflow _ := min_int64 |}.
#[local] Existing Instance tree_order.

Definition some_vector : Vector := [series "up" "a" 4; series "up" "b" 1; series "down" "a" 3; series "up" "a" 8].

Lemma aggregate_summary_witness :
  exists ord, ord ≡ₚ [[mkLabel "instance" "a"]; [mkLabel "instance" "b"]] /\
    aggregate 5 itemAvg ["instance"] false 0 NaN "" some_vector =
    Ok (map (fun kl => mkPSample kl 5 (if bool_decide (kl = [mkLabel "instance" "b"]) then of_Z 1 else of_Z 5)) ord).
Proof.
  destruct (aggregate_summary 5 itemAvg ["instance"] false 0 NaN "" eq_refl some_vector) as (ord & P & ->).
  - reflexivity.
  - apply no_collision_free. vm_compute. reflexivity.
  - intros kl K. by eexists.
  - assert (E : remove_dups (map (key_labels itemAvg ["instance"] false "") some_vector) =
                [[mkLabel "instance" "b"]; [mkLabel "instance" "a"]]) by (vm_compute; reflexivity).
    rewrite E in P. exists ord. split; [rewrite P; apply Permutation_swap|]. f_equal. apply map_ext_in.
    intros kl I. assert (K : kl ∈ [[mkLabel "instance" "b"]; [mkLabel "instance" "a"]])
      by (rewrite <- P; by apply list_elem_of_In).
    rewrite !elem_of_cons in K. destruct K as [->|[->|K]]; [vm_compute; reflexivity..|by apply elem_of_nil in K].
Defined.

Lemma aggregate_ranking_witness :
  exists ord kept, ord ≡ₚ remove_dups (map (key_labels itemTopK [] false "") some_vector) /\
    aggregate 5 itemTopK [] false 2 NaN "" some_vector = Ok (flat_map (fun kl => map (stamp 5) (kept kl)) ord) /\
    forall kl, kl ∈ ord -> best itemTopK 2 (map bare (members (key_labels itemTopK [] false "") kl some_vector)) (kept kl) /\
                           StronglySorted (flip (ranks_below itemTopK)) (kept kl).
Proof.
  apply (aggregate_ranking 5 itemTopK [] false 2 NaN "" eq_refl some_vector eq_refl eq_refl).
  apply no_collision_free. vm_compute. reflexivity.
Defined.

Example topk_of_vector :
  aggregate 5 itemTopK [] false 2 NaN "" some_vector =
  Ok [mkPSample [mkLabel "__name__" "up"; mkLabel "instance" "a"] 5 (of_Z 8);
      mkPSample [mkLabel "__name__" "up"; mkLabel "instance" "a"] 5 (of_Z 4)].
Proof. vm_compute. reflexivity. Qed.
