(* ===== verification/Functions.v ===== *)
(** promql/functions.go: the functions of the query language.  They evaluate
    their arguments through [eval], the evaluator of [Engine]. *)

From S2P Require Import Prelude GoString GoFmt Float GoMath Labels LabelsFacts Lexer Ast Quantile Value Relabel.
From S2P Require Import Buffer Evaluator GoTime Binop GroupBy Aggregate RangeFuncs.

(** An argument is an expression with the position of its first selector. *)
Notation argument := (Expr * option nat)%type (only parsing).

Section functions.
Context {St : Type} `{RE : Regexp} `{RR : !RegexpReplace} `{UT : UnicodeTables} `{XH : XXHash} `{IO : IntOverflow}
        `{MO : MapOrder} `{ML : MathLib}.

Variables (Timestamp : Z) (eval : Expr -> option nat -> EM St promql_Value).

(** * Typed evaluation (engine.go) *)

Definition expected (want : string) (val : promql_Value) : everr :=
  EvType ("expected " +:+ want +:+ " but got " +:+ documentedType (Value_Type val)).

Definition evalScalar (e : argument) : EM St (Z * float64) :=
  val ← eval e.1 e.2; match val with VScalar T V => mret (T, V) | _ => throw (expected "Scalar" val) end.
Definition evalVector (e : argument) : EM St Vector :=
  val ← eval e.1 e.2; match val with VVector v => mret v | _ => throw (expected "instant Vector" val) end.
Definition evalMatrix (e : argument) : EM St Matrix :=
  val ← eval e.1 e.2; match val with VMatrix m => mret m | _ => throw (expected "range Vector" val) end.
Definition evalString (e : argument) : EM St string :=
  val ← eval e.1 e.2; match val with VString _ V => mret V | _ => throw (expected "string" val) end.

Definition evalFloat (e : argument) : EM St float64 := sc ← evalScalar e; mret sc.2.

(** [convertibleToInt64] *)
Definition convertibleToInt64 (v : float64) : bool := fle v (of_Z 9223372036854774784) && fle (of_Z min_int64) v.

Definition evalInt (e : argument) : EM St Z :=
  sc ← evalScalar e;
  if negb (convertibleToInt64 sc.2) then ev_errorf ("Scalar value " +:+ Sprint_float sc.2 +:+ " overflows int64")
  else mret (to_int64 sc.2).

(** [evalOneOf] for the operands of operators. *)
Definition evalOneOf (e : argument) (t1 t2 : ValueType) : EM St promql_Value :=
  val ← eval e.1 e.2;
  if negb (bool_decide (Value_Type val = t1)) && negb (bool_decide (Value_Type val = t2)) then
    throw (expected (documentedType t1 +:+ " or " +:+ documentedType t2) val)
  else mret val.

(** [args[i]] *)
Definition arg (args : list argument) (i : nat) : EM St argument :=
  match args !! i with Some a => mret a | None => throw EvRuntime end.

(** * The shapes of functions *)

Definition implementation : Type := list argument -> EM St promql_Value.

(** The functions that change the values of a vector and drop its names. *)
Definition update_values (f : Sample -> float64) (vec : Vector) : result everr Vector :=
  mapM_result (fun el => m ← dropMetricName (Metric el); Ok (mkPSample m (s_T el) (f el))) vec.

Definition map_vector (f : Sample -> float64) : implementation := fun args =>
  a ← arg args 0; vec ← evalVector a; vec ← lift (update_values f vec); mret (VVector vec).

(** A sample per series that [f] gives a value. *)
Fixpoint map_series (f : list Point -> result everr (option float64)) (mat : Matrix) : result everr Vector :=
  match mat with
  | [] => Ok []
  | s :: mat' =>
    o ← f (Points s);
    match o with
    | None => map_series f mat'
    | Some x => m ← dropMetricName (s_Metric s); cons (mkPSample m Timestamp x) <$> map_series f mat'
    end
  end.

Definition over_matrix (a : argument) (f : list Point -> result everr (option float64)) : EM St promql_Value :=
  mat ← evalMatrix a; vec ← lift (map_series f mat); mret (VVector vec).

(** * Functions over a range *)

(** [extrapolatedRate]: the argument must be a matrix selector itself. *)
Definition extrapolatedRate (a : argument) (isCounter isRate : bool) : EM St promql_Value :=
  match a.1 with
  | MatrixSelector _ Range Offset _ =>
    let rangeStart := i64 (Timestamp - durationMilliseconds (i64 (Range + Offset))) in
    let rangeEnd := i64 (Timestamp - durationMilliseconds Offset) in
    over_matrix a (fun ps => Ok (rate_value Range rangeStart rangeEnd isCounter isRate ps))
  | _ => throw EvRuntime
  end.

Definition funcDelta : implementation := fun args => a ← arg args 0; extrapolatedRate a false false.
Definition funcRate : implementation := fun args => a ← arg args 0; extrapolatedRate a true true.
Definition funcIncrease : implementation := fun args => a ← arg args 0; extrapolatedRate a true false.

Definition instantValue (a : argument) (isRate : bool) : EM St promql_Value :=
  over_matrix a (fun ps => Ok (instant_delta isRate ps)).
Definition funcIrate : implementation := fun args => a ← arg args 0; instantValue a true.
Definition funcIdelta : implementation := fun args => a ← arg args 0; instantValue a false.

(** The loop over the series, with its scratch slices. *)
Fixpoint holt_winters_loop (sf tf : float64) (mat : Matrix) (scratch : list float64 * list float64) : result everr Vector :=
  match mat with
  | [] => Ok []
  | s :: mat' =>
    let (o, scratch) := holt_winters_value sf tf (Points s) scratch in
    match o with
    | None => holt_winters_loop sf tf mat' scratch
    | Some x => m ← dropMetricName (s_Metric s);
                cons (mkPSample m Timestamp x) <$> holt_winters_loop sf tf mat' scratch
    end
  end.

Definition funcHoltWinters : implementation := fun args =>
  a0 ← arg args 0; mat ← evalMatrix a0;
  a1 ← arg args 1; sf ← evalFloat a1;
  a2 ← arg args 2; tf ← evalFloat a2;
  if fle sf zero || fle one sf then ev_errorf ("invalid smoothing factor. Expected: 0 < sf < 1 goT: " +:+ Sprintf_f sf)
  else if fle tf zero || fle one tf then ev_errorf ("invalid trend factor. Expected: 0 < tf < 1 goT: " +:+ Sprintf_f sf)
  else vec ← lift (holt_winters_loop sf tf mat ([], [])); mret (VVector vec).

Definition aggrOverTime (aggrFn : list Point -> float64) : implementation := fun args =>
  a ← arg args 0; over_matrix a (fun ps => Ok match ps with [] => None | _ => Some (aggrFn ps) end).

Definition funcAvgOverTime : implementation := aggrOverTime avg_over_time.
Definition funcCountOverTime : implementation := aggrOverTime count_over_time.
Definition funcMaxOverTime : implementation := aggrOverTime max_over_time.
Definition funcMinOverTime : implementation := aggrOverTime min_over_time.
Definition funcSumOverTime : implementation := aggrOverTime sum_over_time.
Definition funcStddevOverTime : implementation := aggrOverTime stddev_over_time.
Definition funcStdvarOverTime : implementation := aggrOverTime stdvar_over_time.

Definition funcQuantileOverTime : implementation := fun args =>
  a0 ← arg args 0; q ← evalFloat a0; a1 ← arg args 1;
  over_matrix a1 (fun ps => match ps with
    | [] => Ok None
    | _ => Some <$> of_option (quantile int_overflow q (map p_V ps))
    end).

Definition funcDeriv : implementation := fun args =>
  a ← arg args 0; over_matrix a (fun ps => Ok (deriv_value ps)).

Definition funcPredictLinear : implementation := fun args =>
  a0 ← arg args 0; mat ← evalMatrix a0;
  a1 ← arg args 1; duration ← evalFloat a1;
  vec ← lift (map_series (fun ps => Ok (predict_value Timestamp duration ps)) mat); mret (VVector vec).

Definition steps_function (step : float64 -> float64 -> bool) : implementation := fun args =>
  a ← arg args 0; over_matrix a (fun ps => Some <$> of_option (steps_value step ps)).
Definition funcResets : implementation := steps_function is_reset.
Definition funcChanges : implementation := steps_function is_change.

(** * Functions over an instant vector *)

Definition funcAbs : implementation := map_vector (fun el => Abs (s_V el)).
Definition funcCeil : implementation := map_vector (fun el => Ceil (s_V el)).
Definition funcFloor : implementation := map_vector (fun el => Floor (s_V el)).
Definition funcExp : implementation := map_vector (fun el => math_Exp (s_V el)).
Definition funcSqrt : implementation := map_vector (fun el => Sqrt (s_V el)).
Definition funcLn : implementation := map_vector (fun el => math_Log (s_V el)).
Definition funcLog2 : implementation := map_vector (fun el => math_Log2 (s_V el)).
Definition funcLog10 : implementation := map_vector (fun el => math_Log10 (s_V el)).
Definition funcTimestamp : implementation := map_vector (fun el => fdiv (of_Z (s_T el)) thousand).

Definition clamp (f : float64 -> float64 -> float64) : implementation := fun args =>
  a0 ← arg args 0; vec ← evalVector a0; a1 ← arg args 1; bound ← evalFloat a1;
  vec ← lift (update_values (fun el => f bound (s_V el)) vec); mret (VVector vec).
Definition funcClampMax : implementation := clamp Min.
Definition funcClampMin : implementation := clamp Max.

Definition funcRound : implementation := fun args =>
  toNearest ← (match args with _ :: a1 :: _ => evalFloat a1 | _ => mret one end);
  let toNearestInverse := fdiv one toNearest in
  a0 ← arg args 0; vec ← evalVector a0;
  vec ← lift (update_values (fun el =>
    fdiv (Floor (fadd (fmul (s_V el) toNearestInverse) (of_decimal false 5 (-1)))) toNearestInverse) vec);
  mret (VVector vec).

Definition funcSort : implementation := fun args =>
  a ← arg args 0; vec ← evalVector a; mret (VVector (sort_Sort (fun a b => by_reverse_value b a) vec)).
Definition funcSortDesc : implementation := fun args =>
  a ← arg args 0; vec ← evalVector a; mret (VVector (sort_Sort (fun a b => by_value b a) vec)).

Definition funcScalar : implementation := fun args =>
  a ← arg args 0; v ← evalVector a;
  mret (VScalar Timestamp match v with [s] => s_V s | _ => NaN end).

(** The labels [absent] makes up from the selector's matchers. *)
Definition absent_labels (e : Expr) : Labels :=
  match e with
  | VectorSelector _ _ ms =>
    omap (fun ma => if bool_decide (m_Type ma = MatchEqual) && negb (m_Name ma =? MetricName)%string
                    then Some (mkLabel (m_Name ma) (m_Value ma)) else None) ms
  | _ => []
  end.

Definition funcAbsent : implementation := fun args =>
  a ← arg args 0; v ← evalVector a;
  mret (VVector match v with
    | _ :: _ => []
    | [] => [mkPSample (New (absent_labels a.1)) Timestamp one]
    end).

(** * [histogram_quantile] *)

Definition excludedLabels : list string := [MetricName; BucketLabel].

(** The metric of a new signature. *)
Definition bucket_metric (metric : Labels) : result everr Labels :=
  of_option (Builder_Labels <$> Del (NewBuilder metric) [BucketLabel; MetricName]).

(** The bucket of a sample; none without a well-formed label. *)
Definition sample_bucket (el : Sample) : option bucket :=
  match ParseFloat_signed (Get (Metric el) BucketLabel) with
  | Err _ => None
  | Ok upperBound => Some (mkBucket upperBound (s_V el))
  end.

(** The loop over the vector: the buckets of each signature. *)
Fixpoint collect_buckets (vec : Vector) (m : gmap Z (Labels * list bucket)) : result everr (gmap Z (Labels * list bucket)) :=
  match vec with
  | [] => Ok m
  | el :: vec' =>
    match sample_bucket el with
    | None => collect_buckets vec' m
    | Some b =>
      let hash := hashWithoutLabels (Metric el) excludedLabels in
      match m !! hash with
      | Some mb => collect_buckets vec' (<[hash := (mb.1, mb.2 ++ [b])]> m)
      | None => match bucket_metric (Metric el) with
                | Err e => Err e
                | Ok metric => collect_buckets vec' (<[hash := (metric, [b])]> m)
                end
      end
    end
  end.

Definition funcHistogramQuantile : implementation := fun args =>
  a0 ← arg args 0; q ← evalFloat a0;
  a1 ← arg args 1; inVec ← evalVector a1;
  m ← lift (collect_buckets inVec ∅);
  mret (VVector (map (fun hmb => mkPSample hmb.2.1 Timestamp (bucketQuantile q hmb.2.2)) (map_order m))).

(** * [label_replace] and [label_join] *)

Definition duplicated (name : string) (metric : Labels) : everr :=
  EvErrorf ("duplicated label set in output of " +:+ name +:+ "(): " +:+ Labels_String metric).

(** The loop of [label_replace]; an element without a match is kept as it is
    and not entered in [outSet]. *)
Fixpoint replace_loop (regex : regexp) (dst repl src : string) (vec : Vector) (outSet : gset Z) : result everr Vector :=
  match vec with
  | [] => Ok []
  | el :: vec' =>
    let srcVal := Get (Metric el) src in
    match FindStringSubmatchIndex regex srcVal with
    | None => cons el <$> replace_loop regex dst repl src vec' outSet
    | Some indexes =>
      let res := ExpandString regex repl srcVal indexes in
      metric ← of_option (lb ← Del (NewBuilder (Metric el)) [dst];
                          Some (Builder_Labels (if (res =? "")%string then lb else Set_ lb dst res)));
      if bool_decide (Hash metric ∈ outSet) then Err (duplicated "label_replace" metric)
      else cons (mkPSample metric (s_T el) (s_V el)) <$>
             replace_loop regex dst repl src vec' ({[Hash metric]} ∪ outSet)
    end
  end.

Definition funcLabelReplace : implementation := fun args =>
  a0 ← arg args 0; vector ← evalVector a0;
  a1 ← arg args 1; dst ← evalString a1;
  a2 ← arg args 2; repl ← evalString a2;
  a3 ← arg args 3; src ← evalString a3;
  a4 ← arg args 4; regexStr ← evalString a4;
  match regexp_Compile ("^(?:" +:+ regexStr +:+ ")$") with
  | Err _ => ev_errorf ("invalid regular expression in label_replace(): " +:+ regexStr)
  | Ok regex =>
    if negb (IsValid dst) then ev_errorf ("invalid destination label name in label_replace(): " +:+ dst)
    else vec ← lift (replace_loop regex dst repl src vector ∅); mret (VVector vec)
  end.

Fixpoint join_sources (args : list argument) : EM St (list string) :=
  match args with
  | [] => mret []
  | a :: args' =>
    src ← evalString a;
    if negb (IsValid src) then ev_errorf ("invalid source label name in label_join(): " +:+ src)
    else srcs ← join_sources args'; mret (src :: srcs)
  end.

Fixpoint join_loop (dst separator : string) (srcLabels : list string) (vec : Vector) (outSet : gset Z) : result everr Vector :=
  match vec with
  | [] => Ok []
  | el :: vec' =>
    let lb := NewBuilder (Metric el) in
    let strval := str_join separator (map (Get (Metric el)) srcLabels) in
    metric ← of_option (Builder_Labels <$> (if (strval =? "")%string then Del lb [dst] else Some (Set_ lb dst strval)));
    if bool_decide (Hash metric ∈ outSet) then Err (duplicated "label_join" metric)
    else cons (mkPSample metric (s_T el) (s_V el)) <$> join_loop dst separator srcLabels vec' ({[Hash metric]} ∪ outSet)
  end.

Definition funcLabelJoin : implementation := fun args =>
  a0 ← arg args 0; vector ← evalVector a0;
  a1 ← arg args 1; dst ← evalString a1;
  a2 ← arg args 2; separator ← evalString a2;
  _ ← (if (length args <? 3)%nat then throw EvRuntime else mret tt);
  srcLabels ← join_sources (drop 3 args);
  if negb (IsValid dst) then ev_errorf ("invalid destination label name in label_join(): " +:+ dst)
  else vec ← lift (join_loop dst separator srcLabels vector ∅); mret (VVector vec).

(** * [time], [vector] and the date functions *)

Definition now : float64 := fdiv (of_Z Timestamp) thousand.

Definition funcTime : implementation := fun _ => mret (VScalar Timestamp now).

Definition funcVector : implementation := fun args =>
  a ← arg args 0; x ← evalFloat a; mret (VVector [mkPSample [] Timestamp x]).

(** [f] takes the seconds since the Unix epoch. *)
Definition dateWrapper (f : Z -> Z) : implementation := fun args =>
  v ← (match args with [] => mret [mkPSample [] Timestamp now] | a :: _ => evalVector a end);
  v ← lift (update_values (fun el => of_Z (f (to_int64 (s_V el)))) v); mret (VVector v).

Definition funcDaysInMonth : implementation := dateWrapper daysInMonth.
Definition funcDayOfMonth : implementation := dateWrapper Day.
Definition funcDayOfWeek : implementation := dateWrapper Weekday.
Definition funcHour : implementation := dateWrapper Hour.
Definition funcMinute : implementation := dateWrapper Minute.
Definition funcMonth : implementation := dateWrapper Month.
Definition funcYear : implementation := dateWrapper Year.

(** * The table: the [Call] of every entry of [functions] *)

Definition calls : list (string * implementation) :=
  [("abs", funcAbs); ("absent", funcAbsent); ("avg_over_time", funcAvgOverTime); ("ceil", funcCeil);
   ("changes", funcChanges); ("clamp_max", funcClampMax); ("clamp_min", funcClampMin);
   ("count_over_time", funcCountOverTime); ("days_in_month", funcDaysInMonth); ("day_of_month", funcDayOfMonth);
   ("day_of_week", funcDayOfWeek); ("delta", funcDelta); ("deriv", funcDeriv); ("exp", funcExp);
   ("floor", funcFloor); ("histogram_quantile", funcHistogramQuantile); ("holt_winters", funcHoltWinters);
   ("hour", funcHour); ("idelta", funcIdelta); ("increase", funcIncrease); ("irate", funcIrate);
   ("label_replace", funcLabelReplace); ("label_join", funcLabelJoin); ("ln", funcLn); ("log10", funcLog10);
   ("log2", funcLog2); ("max_over_time", funcMaxOverTime); ("min_over_time", funcMinOverTime);
   ("minute", funcMinute); ("month", funcMonth); ("predict_linear", funcPredictLinear);
   ("quantile_over_time", funcQuantileOverTime); ("rate", funcRate); ("resets", funcResets); ("round", funcRound);
   ("scalar", funcScalar); ("sort", funcSort); ("sort_desc", funcSortDesc); ("sqrt", funcSqrt);
   ("stddev_over_time", funcStddevOverTime); ("stdvar_over_time", funcStdvarOverTime);
   ("sum_over_time", funcSumOverTime); ("time", funcTime); ("timestamp", funcTimestamp); ("vector", funcVector);
   ("year", funcYear)].

(** [e.Func.Call]; a function is identified by its name. *)
Definition Function_Call (fn : Function) (args : list argument) : EM St promql_Value :=
  match assoc (f_Name fn) calls with Some f => f args | None => throw EvRuntime end.
End functions.
