(* ===== verification/Engine.v ===== *)
(** promql/engine.go: the evaluation of expressions, the preparation and the
    execution of instant and range queries, and the gate that bounds the number
    of queries. *)

From S2P Require Import Prelude GoString GoFmt Float GoMath Labels LabelsFacts Lexer Ast Value Relabel Parser.
From S2P Require Import Buffer Evaluator Binop GroupBy Aggregate RangeFuncs Functions.

(** What evaluation needs of its selectors and its context. *)
Class Selectors (St : Type) := {
  sel_contextDone : string -> EM St unit;
  (** evaluation time, offset, position *)
  sel_vector : Z -> Z -> option nat -> EM St Vector;
  (** evaluation time, range, offset, position *)
  sel_matrix : Z -> Z -> Z -> option nat -> EM St Matrix
}.

(** * Evaluation *)

Section eval.
Context {St : Type} `{SEL : !Selectors St} `{RE : Regexp} `{RR : !RegexpReplace} `{UT : UnicodeTables} `{XH : XXHash}
        `{IO : IntOverflow} `{MO : MapOrder} `{ML : MathLib}.

Local Notation position := (option nat).

Definition env : string := "expression evaluation".

(** The positions of the arguments of a call. *)
Fixpoint positions (p : position) (args : list Expr) : list (Expr * position) :=
  match args with [] => [] | a :: args' => (a, p) :: positions (shift p (walked a)) args' end.

Definition unhandled (type : string) : everr := EvInternal ("unhandled expression of type: " +:+ type).

(** The evaluation of an aggregation's parameter, which may be nil.  Query
    preparation does not reach its selectors. *)
Definition eval_param {A} (f : Expr * position -> EM St A) (param : option Expr) : EM St A :=
  match param with
  | Some e => f (e, None)
  | None => _ ← sel_contextDone env; throw (unhandled "<nil>")
  end.

Section aggregation.
Variables (Timestamp : Z) (ev : Expr -> position -> EM St promql_Value).

(** [ev.aggregation] *)
Definition aggregation (op : ItemType) (grouping : list string) (without : bool) (param : option Expr) (vec : Vector)
  : EM St Vector :=
  k ← (if bool_decide (op = itemTopK) || bool_decide (op = itemBottomK) then eval_param (evalInt ev) param else mret 1);
  if k <? 1 then mret []
  else
    q ← (if bool_decide (op = itemQuantile) then eval_param (evalFloat ev) param else mret zero);
    valueLabel ← (if bool_decide (op = itemCountValues) then eval_param (evalString ev) param else mret "");
    let grouping := if bool_decide (op = itemCountValues) && negb without then grouping ++ [valueLabel] else grouping in
    lift (aggregate Timestamp op grouping without k q valueLabel vec).
End aggregation.

Definition vector_operation (Timestamp : Z) (op : ItemType) (lhs rhs : Vector) (vm : option VectorMatching)
    (returnBool : bool) : result everr Vector :=
  match op with
  | itemLAND => VectorAnd lhs rhs vm
  | itemLOR => VectorOr lhs rhs vm
  | itemLUnless => VectorUnless lhs rhs vm
  | _ => VectorBinop Timestamp op lhs rhs vm returnBool
  end.

Definition binary_operation (Timestamp : Z) (op : ItemType) (vm : option VectorMatching) (returnBool : bool)
    (lhs rhs : promql_Value) : result everr promql_Value :=
  match lhs, rhs with
  | VScalar _ l, VScalar _ r => VScalar Timestamp <$> scalarBinop op l r
  | VVector l, VVector r => VVector <$> vector_operation Timestamp op l r vm returnBool
  | VVector l, VScalar _ r => VVector <$> VectorscalarBinop op l r false returnBool
  | VScalar _ l, VVector r => VVector <$> VectorscalarBinop op r l true returnBool
  | _, _ => Err (unhandled "*promql.BinaryExpr")
  end.

(** The switch on the type of the operand of a unary minus.  It negates the
    samples of a vector in place, but only a copy of a scalar. *)
Definition negate (v : promql_Value) : promql_Value :=
  match v with
  | VVector v => VVector (map (fun s => mkPSample (Metric s) (s_T s) (fneg (s_V s))) v)
  | v => v
  end.

(** [ev.eval].  The fuel bounds the depth of the expression. *)
Fixpoint eval (fuel : nat) (Timestamp : Z) (e : Expr) (p : position) : EM St promql_Value :=
  match fuel with
  | O => throw EvFuel
  | S fuel =>
    let ev := eval fuel Timestamp in
    _ ← sel_contextDone env;
    match e with
    | AggregateExpr op e param grouping without =>
      vec ← evalVector ev (e, p);
      vec ← aggregation Timestamp ev op grouping without param vec;
      mret (VVector vec)
    | BinaryExpr op l r vm returnBool =>
      lhs ← evalOneOf ev (l, p) ValueTypeScalar ValueTypeVector;
      rhs ← evalOneOf ev (r, shift p (walked l)) ValueTypeScalar ValueTypeVector;
      lift (binary_operation Timestamp op vm returnBool lhs rhs)
    | Call fn args => Function_Call Timestamp ev fn (positions p args)
    | MatrixSelector _ Range Offset _ => m ← sel_matrix Timestamp Range Offset p; mret (VMatrix m)
    | NumberLiteral v => mret (VScalar Timestamp v)
    | ParenExpr e => ev e p
    | StringLiteral v => mret (VString Timestamp v)
    | UnaryExpr op e =>
      se ← evalOneOf ev (e, p) ValueTypeScalar ValueTypeVector;
      mret (if bool_decide (op = itemSUB) then negate se else se)
    | VectorSelector _ Offset _ => v ← sel_vector Timestamp Offset p; mret (VVector v)
    end
  end.

Fixpoint depth (e : Expr) : nat :=
  match e with
  | AggregateExpr _ e param _ _ => S (Nat.max (depth e) match param with Some p => depth p | None => 0%nat end)
  | BinaryExpr _ l r _ _ => S (Nat.max (depth l) (depth r))
  | Call _ args => S (foldr (fun a n => Nat.max (depth a) n) 0%nat args)
  | ParenExpr e | UnaryExpr _ e => S (depth e)
  | MatrixSelector _ _ _ _ | NumberLiteral _ | StringLiteral _ | VectorSelector _ _ _ => 1%nat
  end.

(** [Eval] of an expression that query preparation has visited. *)
Definition Eval (Timestamp : Z) (e : Expr) : EM St promql_Value := eval (depth e) Timestamp e (Some 0%nat).

(** * Range evaluation *)

(** A panic that no [recover] catches. *)
Definition crash (s : string) : everr := EvCrash s.

Definition add_point (h : Z) (metric : Labels) (p : Point) (m : gmap Z Series) : gmap Z Series :=
  let ss := default (mkSeries metric []) (m !! h) in
  <[h := mkSeries (s_Metric ss) (Points ss ++ [p])]> m.

(** What a step adds to [Seriess]. *)
Definition add_step (t : Z) (val : promql_Value) (m : gmap Z Series) : result everr (gmap Z Series) :=
  match val with
  | VScalar _ V => Ok (add_point 0 [] (mkPoint t V) m)
  | VVector v => Ok (foldl (fun m s => add_point (Hash (Metric s)) (Metric s) (mkPoint t (s_V s)) m) m v)
  | _ => Err (crash "promql.Engine.exec: invalid expression type")
  end.

(** The loop over the steps; out of fuel, the loop would go on for ever. *)
Fixpoint range_loop (fuel : nat) (e : Expr) (ts End_ Interval : Z) (m : gmap Z Series) : EM St (gmap Z Series) :=
  if End_ <? ts then mret m
  else
    match fuel with
    | O => throw EvFuel
    | S fuel =>
      _ ← sel_contextDone "range evaluation";
      let t := timeMilliseconds ts in
      val ← Eval t e;
      m ← lift (add_step t val m);
      range_loop fuel e (ts + Interval) End_ Interval m
    end.

(** The switch on the type of an instant result: the samples of a vector get
    the time of the evaluation; only a copy of a scalar does. *)
Definition set_time (start : Z) (val : promql_Value) : promql_Value :=
  match val with
  | VVector v => VVector (map (fun s => mkPSample (Metric s) start (s_V s)) v)
  | v => v
  end.

(** [execEvalStmt] after its preparation.  Room for as many points as there are
    steps is allocated for every series: the allocation is taken to succeed,
    which it does unless the steps are so many that it panics. *)
Definition exec_prepared (e : Expr) (Start End_ Interval : Z) : EM St promql_Value :=
  if (Start =? End_) && (Interval =? 0) then
    let start := timeMilliseconds Start in
    val ← Eval start e; mret (set_time start val)
  else if Interval =? 0 then throw (crash "runtime error: integer divide by zero")
  else
    let numSteps := Z.quot (End_ - Start) Interval in
    m ← range_loop (S (Z.to_nat numSteps)) e Start End_ Interval ∅;
    _ ← sel_contextDone env;
    let mat := map snd (map_order m) in
    _ ← sel_contextDone env;
    mret (VMatrix (sort_matrix mat)).
End eval.

(** * The buffered selectors *)

#[export] Instance buffered_Selectors `{SI : SeriesIterator It} `{IE : !IteratorErr It}
    (ctx : nat -> option ctx_err) (seek_fuel : nat) : Selectors (evstate It) := {|
  sel_contextDone := contextDone ctx;
  sel_vector Timestamp Offset := vectorSelector Timestamp seek_fuel Offset;
  sel_matrix Timestamp Range Offset := matrixSelector Timestamp seek_fuel Range Offset
|}.

(** * Query preparation *)

(** [storage.Queryable], [storage.Querier], [storage.SeriesSet] and
    [storage.Series] (storage/interface.go), as query preparation uses them. *)
Record SelectParams := mkSelectParams { sp_Step : Z; sp_Func : string }.

Class Queryable (D Q : Type) := { qb_Querier : D -> Z -> Z -> result string Q }.
Class QuerierSelect `{Regexp} (Q SS : Type) := { q_Select : Q -> SelectParams -> list Matcher -> result string SS }.
Class SeriesSet (SS It : Type) := {
  ss_Next : SS -> bool * SS;
  ss_At : SS -> Labels * It;
  ss_Err : SS -> option string
}.

(** [timestamp.FromTime] *)
Definition FromTime (ns : Z) : Z := i64 (ns / 1000000).

Section prepare.
Context `{RE : Regexp} `{UT : UnicodeTables}.

(** The first walk of [populateIterators]: how far before the start the
    selectors look. *)
Definition offset_visitor (n : option Node) (path : list Node) (maxOffset : Z) : bool * Z :=
  match n with
  | Some (NExpr (VectorSelector _ Offset _)) =>
    let m := if maxOffset <? LookbackDelta then LookbackDelta else maxOffset in
    (true, if m <? i64 (Offset + LookbackDelta) then i64 (Offset + LookbackDelta) else m)
  | Some (NExpr (MatrixSelector _ Range Offset _)) =>
    let m := if maxOffset <? Range then Range else maxOffset in
    (true, if m <? i64 (Offset + Range) then i64 (Offset + Range) else m)
  | _ => (true, maxOffset)
  end.
Definition max_offset (e : Expr) : Z := Inspect offset_visitor (NExpr e) 0.

(** [extractFuncFromPath]; the path is read from its end. *)
Fixpoint func_from_rev (p : list Node) : string :=
  match p with
  | [] => ""
  | NExpr (AggregateExpr op _ _ _ _) :: _ => ItemType_String op
  | NExpr (Call fn _) :: _ => f_Name fn
  | NExpr (BinaryExpr _ _ _ _ _) :: _ => ""
  | _ :: p' => func_from_rev p'
  end.
Definition extractFuncFromPath (p : list Node) : string := func_from_rev (rev p).

Context {Q SS It : Type} `{QS : !QuerierSelect Q SS} `{SX : !SeriesSet SS It} `{SI : SeriesIterator It}.

(** [expandSeriesSet]; the fuel bounds the number of series. *)
Fixpoint expandSeriesSet (fuel : nat) (it : SS) : list (Labels * It) * option string :=
  match fuel with
  | O => ([], ss_Err it)
  | S fuel =>
    let (ok, it) := ss_Next it in
    if ok : bool then let (res, err) := expandSeriesSet fuel it in (ss_At it :: res, err) else ([], ss_Err it)
  end.

(** What the second walk does at a selector: the error variable of the
    enclosing function, and the iterators the selector gets. *)
Definition select_iterators (fuel : nat) (querier : Q) (params : SelectParams) (ms : list Matcher) (delta : Z)
  : option string * list (Labels * BufferedSeriesIterator It) :=
  match q_Select querier params ms with
  | Err e => (Some e, [])
  | Ok set =>
    match expandSeriesSet fuel set with
    | (_, Some e) => (Some e, [])
    | (series, None) => (None, map (fun s => (s.1, NewBuffer s.2 delta)) series)
    end
  end.

Notation prepared := (option string * list (list (Labels * BufferedSeriesIterator It)))%type.

(** The second walk.  [err] is assigned at every selector. *)
Definition select_visitor (fuel : nat) (querier : Q) (Interval : Z) (n : option Node) (path : list Node) (st : prepared)
  : bool * prepared :=
  let select ms delta :=
    let params := mkSelectParams (Z.quot Interval 1000000) (extractFuncFromPath path) in
    let (err, its) := select_iterators fuel querier params ms delta in
    (match err with Some _ => false | None => true end, (err, st.2 ++ [its])) in
  match n with
  | Some (NExpr (VectorSelector _ _ ms)) => select ms (durationMilliseconds LookbackDelta)
  | Some (NExpr (MatrixSelector _ Range _ ms)) => select ms (durationMilliseconds Range)
  | _ => (true, st)
  end.

Context {D : Type} `{QB : !Queryable D Q}.

(** [populateIterators]: the error, or the iterators of the selectors in the
    order of the walk. *)
Definition populateIterators (fuel : nat) (q : D) (e : Expr) (Start End_ Interval : Z)
  : result string (list (list (Labels * BufferedSeriesIterator It))) :=
  let mint := Start - max_offset e in
  match qb_Querier q (FromTime mint) (FromTime End_) with
  | Err err => Err err
  | Ok querier =>
    match Inspect (select_visitor fuel querier Interval) (NExpr e) (None, []) with
    | (Some err, _) => Err err
    | (None, its) => Ok its
    end
  end.

(** * Queries *)

Record query := mkQuery { q_expr : Expr; q_Start : Z; q_End : Z; q_Interval : Z }.

(** [NewInstantQuery] and [NewRangeQuery], with the text of their errors *)
Definition NewInstantQuery (qs : string) (ts : Z) : result string query :=
  match ParseExpr qs with
  | Err e => Err (ParseErr_Error e)
  | Ok e => Ok (mkQuery e ts ts 0)
  end.

Definition NewRangeQuery (qs : string) (Start End_ Interval : Z) : result string query :=
  match ParseExpr qs with
  | Err e => Err (ParseErr_Error e)
  | Ok e =>
    if negb (bool_decide (Type_ e = ValueTypeVector)) && negb (bool_decide (Type_ e = ValueTypeScalar)) then
      Err ("invalid expression type " +:+ Quote (documentedType (Type_ e)) +:+
           " for range query, must be Scalar or instant Vector")
    else Ok (mkQuery e Start End_ Interval)
  end.

Context `{RR : !RegexpReplace} `{XH : XXHash} `{IO : IntOverflow} `{MO : MapOrder} `{ML : MathLib} `{IE : !IteratorErr It}.

(** [exec] once the gate has let the query in, and [Exec]; [None] stands for a
    panic that reaches the caller, or a query that does not end. *)
Definition exec (fuel seek_fuel : nat) (ctx : nat -> option ctx_err) (q : D) (s : query) : option Result :=
  let outcome (r : result everr promql_Value) :=
    match r with
    | Ok v => Some (mkResult None (Some v))
    | Err e => (fun err => mkResult (Some err) None) <$> recover e
    end in
  match contextDone ctx "query execution" (mkEv 0 [] : evstate It) with
  | Err e => outcome (Err e)
  | Ok (_, st) =>
    match populateIterators fuel q (q_expr s) (q_Start s) (q_End s) (q_Interval s) with
    | Err err => Some (mkResult (Some err) None)
    | Ok its =>
      let I := buffered_Selectors ctx seek_fuel in
      outcome (fst <$> exec_prepared (q_expr s) (q_Start s) (q_End s) (q_Interval s) (mkEv (ticks st) its))
    end
  end.
End prepare.
