(* ===== verification/FunctionFacts.v ===== *)
(** What the functions of the query language compute. *)

From S2P Require Import Prelude GoString GoFmt Float GoMath Labels LabelsFacts Lexer Ast Quantile Value Relabel.
From S2P Require Import Buffer Evaluator Binop BinopFacts GroupBy Aggregate AggregateFacts RangeFuncs Functions Engine.
From Stdlib Require Import Sorting.Sorted.

(** * [holt_winters] *)

(** Double exponential smoothing: level and trend after each value. *)
Definition smoothing_step (sf tf : float64) (lb : float64 * float64) (d : float64) : float64 * float64 :=
  let (level, trend) := lb in
  let level' := fadd (fmul sf d) (fmul (fsub one sf) (fadd level trend)) in
  (level', fadd (fmul tf (fsub level' level)) (fmul (fsub one tf) trend)).

Definition double_smoothing (sf tf : float64) (ds : list float64) : float64 :=
  match ds with
  | d0 :: d1 :: ds' => fst (foldl (smoothing_step sf tf) (d0, fsub d1 d0) (d1 :: ds'))
  | _ => NaN
  end.

Lemma at_insert l i j x : (i < length l)%nat -> at_ (<[i := x]> l) j = if decide (j = i) then x else at_ l j.
Proof.
  intros L. unfold at_. rewrite !nth_lookup. case_decide as D; [subst; by rewrite list_lookup_insert_eq|by rewrite list_lookup_insert_ne].
Qed.

Lemma smooth_spec sf tf ds i s b level trend l :
  (0 < i)%nat -> length s = l -> length b = l -> (i + length ds = l)%nat ->
  at_ s (i - 1) = level -> fst (calcTrendValue (i - 1) tf s b) = trend ->
  at_ (fst (smooth i sf tf ds s b)) (l - 1) = fst (foldl (smoothing_step sf tf) (level, trend) ds) /\
  length (fst (smooth i sf tf ds s b)) = l /\ length (snd (smooth i sf tf ds s b)) = l.
Proof.
  revert i s b level trend. induction ds as [|d ds IH]; intros i s b level trend I Ls Lb L El Et; cbn [smooth foldl].
  - cbn in L. replace (l - 1)%nat with (i - 1)%nat by lia. done.
  - cbn [length] in L. destruct (calcTrendValue (i - 1) tf s b) as [tr b1] eqn:EC. cbn in Et. subst tr.
    assert (B1 : length b1 = l /\ at_ b1 (i - 1) = trend).
    { unfold calcTrendValue in EC. destruct (Nat.eqb_spec (i - 1) 0) as [Z|Z]; injection EC as <- <-; [by rewrite Z|].
      by rewrite length_insert. }
    destruct B1 as [Lb1 Eb]. rewrite El. cbn [smoothing_step].
    set (level' := fadd (fmul sf d) (fmul (fsub one sf) (fadd level trend))).
    apply (IH (S i)); [lia|by rewrite length_insert|done|lia|..]; replace (S i - 1)%nat with i by lia.
    + by rewrite at_insert, decide_True by lia.
    + unfold calcTrendValue. rewrite (proj2 (Nat.eqb_neq i 0)) by lia. cbn [fst].
      rewrite !at_insert by lia. rewrite !decide_True by done. rewrite decide_False by lia. by rewrite El, Eb.
Qed.

(** [holt_winters] is double exponential smoothing of the values of each
    series, whatever the scratch slices of the previous series hold. *)
Theorem holt_winters_smooths (sf tf : float64) (ps : list Point) (scratch : list float64 * list float64)
  (L : (2 <= length ps)%nat) (S : length scratch.1 = length scratch.2) :
  fst (holt_winters_value sf tf ps scratch) = Some (double_smoothing sf tf (map p_V ps)).
Proof.
  destruct ps as [|p0 [|p1 ps]]; cbn in L; try lia. unfold holt_winters_value, double_smoothing. cbn [map].
  set (sb := if negb _ then _ else _). set (l := length (p0 :: p1 :: ps)).
  assert (LS : length sb.1 = l /\ length sb.2 = l).
  { unfold sb. destruct (Nat.eqb_spec (length (p0 :: p1 :: ps)) (length scratch.1)) as [E|E]; cbn [negb fst snd];
      [by rewrite <- S, <- E|by rewrite !repeat_length]. }
  destruct sb as [s b]. cbn in LS. destruct LS as [Ls Lb].
  destruct (smooth_spec sf tf (p_V p1 :: map p_V ps) 1 (<[0%nat := p_V p0]> s) (<[0%nat := fsub (p_V p1) (p_V p0)]> b)
    (p_V p0) (fsub (p_V p1) (p_V p0)) l) as (E & L1 & _);
    [lia|by rewrite length_insert|by rewrite length_insert|unfold l; cbn; by rewrite length_map| | |].
  - cbn [Nat.sub]. rewrite at_insert, decide_True by (rewrite ?Ls; unfold l; cbn; lia || done). done.
  - cbn [Nat.sub calcTrendValue Nat.eqb fst]. rewrite at_insert, decide_True by (rewrite ?Lb; unfold l; cbn; lia || done). done.
  - destruct (smooth 1 sf tf _ _ _) as [s' b']. cbn [fst snd] in *. by rewrite L1, E.
Qed.

(** * [sort] and [sort_desc] *)

(** [sort] returns the elements of its argument in ascending, [sort_desc]
    in descending order of their values, and both put NaN last. *)
Theorem sort_functions (vec : Vector) :
  let asc := sort_Sort (fun a b => by_reverse_value b a) vec in
  let desc := sort_Sort (fun a b => by_value b a) vec in
  asc ≡ₚ vec /\ StronglySorted (fun a b => IsNaN (s_V b) || fle (s_V a) (s_V b) = true) asc /\
  desc ≡ₚ vec /\ StronglySorted (fun a b => IsNaN (s_V b) || fle (s_V b) (s_V a) = true) desc.
Proof.
  cbv zeta. split; [apply sort_Sort_perm|]. split; [|split; [apply sort_Sort_perm|]]; apply sort_Sort_sorted.
  - intros a b c H1 H2. exact (ranks_below_trans itemBottomK c b a H2 H1).
  - intros a b H. exact (heap_less_true itemBottomK eq_refl b a H).
  - intros a b H. exact (heap_less_false itemBottomK eq_refl b a H).
  - intros a b c H1 H2. exact (ranks_below_trans itemTopK c b a H2 H1).
  - intros a b H. exact (heap_less_true itemTopK eq_refl b a H).
  - intros a b H. exact (heap_less_false itemTopK eq_refl b a H).
Qed.

(** * [label_replace] and [label_join] *)

Section relabel.
Context `{RE : Regexp} `{RR : !RegexpReplace} `{UT : UnicodeTables} `{XH : XXHash}.

(** Both loops relabel some elements and refuse two relabelled elements with
    the same labels. *)
Definition relabel_el (f : Sample -> option Labels) (el : Sample) : Sample :=
  match f el with Some m => mkPSample m (s_T el) (s_V el) | None => el end.

Fixpoint relabel_loop (name : string) (f : Sample -> option Labels) (vec : Vector) (outSet : gset Z) : result everr Vector :=
  match vec with
  | [] => Ok []
  | el :: vec' =>
    match f el with
    | None => cons el <$> relabel_loop name f vec' outSet
    | Some m => if bool_decide (Hash m ∈ outSet) then Err (duplicated name m)
                else cons (mkPSample m (s_T el) (s_V el)) <$> relabel_loop name f vec' ({[Hash m]} ∪ outSet)
    end
  end.

Lemma relabel_loop_spec name f (vec : Vector) (w seen : list Labels) (outSet : gset Z) :
  collision_free w -> (forall m, m ∈ omap f vec -> m ∈ w) -> (forall m, m ∈ seen -> m ∈ w) ->
  (forall h, h ∈ outSet <-> h ∈ map Hash seen) ->
  if bool_decide (NoDup (omap f vec) /\ Forall (fun m => m ∉ seen) (omap f vec))
  then relabel_loop name f vec outSet = Ok (map (relabel_el f) vec)
  else exists m, relabel_loop name f vec outSet = Err (duplicated name m).
Proof.
  intros C. revert seen outSet. induction vec as [|el vec IH]; intros seen outSet I S O.
  { rewrite bool_decide_true by (split; constructor). done. }
  cbn [relabel_loop map]. cbn [omap list_omap] in *. unfold relabel_el at 1. destruct (f el) as [m|] eqn:E.
  - assert (M : m ∈ w) by (apply I; left).
    assert (HS : Hash m ∈ outSet <-> m ∈ seen).
    { rewrite O, list_elem_of_fmap. split; [|by exists m]. intros (m' & EH & M'). rewrite (C m m'); auto. }
    destruct (decide (Hash m ∈ outSet)) as [B|B].
    + rewrite (bool_decide_true (Hash m ∈ outSet)) by done. rewrite bool_decide_false; [by exists m|]. intros [_ F]. apply Forall_cons in F as [F _]. tauto.
    + rewrite (bool_decide_false (Hash m ∈ outSet)) by done. specialize (IH (m :: seen) ({[Hash m]} ∪ outSet)).
      match type of IH with _ -> _ -> _ -> if bool_decide ?P then _ else _ => set (P1 := P) in IH end.
      match goal with |- if bool_decide ?P then _ else _ => set (P2 := P) end.
      assert (EP : P1 <-> P2).
      { unfold P1, P2. rewrite NoDup_cons, Forall_cons, !Forall_forall. setoid_rewrite not_elem_of_cons. split.
        - intros [N F]. split; [split; [|done]|split; [by rewrite <- HS|]].
          + intros X. by destruct (F m X).
          + intros m' X. by apply F.
        - intros [[N1 N2] [N3 F]]. split; [done|]. intros m' X. split; [by intros ->|by apply F]. }
      assert (IH' : if bool_decide P2 then relabel_loop name f vec ({[Hash m]} ∪ outSet) = Ok (map (relabel_el f) vec)
                    else exists m0, relabel_loop name f vec ({[Hash m]} ∪ outSet) = Err (duplicated name m0)).
      { rewrite <- (bool_decide_ext _ _ EP). apply IH.
        - intros. apply I. by right.
        - intros m' X. apply elem_of_cons in X as [->|X]; auto.
        - intros h. cbn [map]. rewrite elem_of_union, elem_of_singleton, elem_of_cons, O. done. }
      case_bool_decide; [by rewrite IH'|]. destruct IH' as [m0 ->]. by exists m0.
  - specialize (IH seen outSet I S O). case_bool_decide; [by rewrite IH|]. destruct IH as [m ->]. by exists m.
Qed.

(** The labels [label_replace] gives an element, unless the expression does not
    match, and those [label_join] gives. *)
Definition set_or_delete (dst v : string) (m : gmap string string) : gmap string string :=
  if decide (v = "") then base.delete dst m else <[dst := v]> m.

Definition replaced (re : regexp) (dst repl src : string) (el : Sample) : option Labels :=
  (fun indexes => FromMap (set_or_delete dst (ExpandString re repl (Get (Metric el) src) indexes) (Map (Metric el)))) <$>
  FindStringSubmatchIndex re (Get (Metric el) src).

Definition join_labels (dst separator : string) (srcs : list string) (el : Sample) : option Labels :=
  Some (FromMap (set_or_delete dst (str_join separator (map (Get (Metric el)) srcs)) (Map (Metric el)))).

Lemma replace_loop_relabel re dst repl src vec outSet : Forall (fun el => wf_labels (Metric el)) vec ->
  replace_loop re dst repl src vec outSet = relabel_loop "label_replace" (replaced re dst repl src) vec outSet.
Proof.
  intros W. revert outSet. induction W as [|el vec Wel _ IH]; intros outSet; [done|]. cbn [replace_loop relabel_loop].
  unfold replaced at 1. destruct (FindStringSubmatchIndex _ _) as [idx|]; cbn [fmap option_fmap option_map]; [|by rewrite IH].
  set (res := ExpandString _ _ _ _).
  assert (E : (lb ← Del (NewBuilder (Metric el)) [dst]; Some (Builder_Labels (if (res =? "")%string then lb else Set_ lb dst res))) =
              Some (FromMap (set_or_delete dst res (Map (Metric el))))).
  { destruct (labels_of_ops (Metric el) ([OpDel [dst]] ++ if (res =? "")%string then [] else [OpSet dst res]) Wel) as (b & Eb & Lb).
    rewrite run_ops_app in Eb. cbn [run_ops run_op] in Eb.
    destruct (Del (NewBuilder (Metric el)) [dst]) as [lb|]; cbn [mbind option_bind] in *; [|done].
    unfold set_or_delete. destruct (String.eqb_spec res ""); case_decide; try done; cbn in Eb; injection Eb as <-; f_equal; rewrite Lb; cbn;
      [done|]. by rewrite insert_delete_eq. }
  rewrite E. cbn [of_option mbind result_bind]. case_bool_decide; [done|]. by rewrite IH.
Qed.

Lemma join_loop_relabel dst sep srcs vec outSet : Forall (fun el => wf_labels (Metric el)) vec ->
  join_loop dst sep srcs vec outSet = relabel_loop "label_join" (join_labels dst sep srcs) vec outSet.
Proof.
  intros W. revert outSet. induction W as [|el vec Wel _ IH]; intros outSet; [done|]. cbn [join_loop relabel_loop].
  unfold join_labels at 1. set (v := str_join _ _).
  assert (E : (Builder_Labels <$> (if (v =? "")%string then Del (NewBuilder (Metric el)) [dst] else Some (Set_ (NewBuilder (Metric el)) dst v))) =
              Some (FromMap (set_or_delete dst v (Map (Metric el))))).
  { destruct (labels_of_ops (Metric el) (if (v =? "")%string then [OpDel [dst]] else [OpSet dst v]) Wel) as (b & Eb & Lb).
    unfold set_or_delete. destruct (String.eqb_spec v ""); case_decide; try done; cbn [run_ops run_op] in Eb.
    - destruct (Del (NewBuilder (Metric el)) [dst]) as [lb|]; [|done]. injection Eb as <-.
      cbn [fmap option_fmap option_map]. by rewrite Lb.
    - injection Eb as <-. cbn [fmap option_fmap option_map]. by rewrite Lb. }
  rewrite E. cbn [of_option mbind result_bind]. case_bool_decide; [done|]. by rewrite IH.
Qed.

(** [label_replace] updates the labels of the elements whose source value
    matches, keeps the others, and fails exactly when two of the updated
    elements have the same labels: the others are not part of the comparison,
    so that its result can hold two elements with the same labels. *)
Theorem label_replace_spec (re : regexp) (dst repl src : string) (vec : Vector)
  (W : Forall (fun el => wf_labels (Metric el)) vec) (C : collision_free (omap (replaced re dst repl src) vec)) :
  if bool_decide (NoDup (omap (replaced re dst repl src) vec))
  then replace_loop re dst repl src vec ∅ = Ok (map (relabel_el (replaced re dst repl src)) vec)
  else exists m, replace_loop re dst repl src vec ∅ = Err (duplicated "label_replace" m).
Proof.
  rewrite replace_loop_relabel by done.
  pose proof (relabel_loop_spec "label_replace" (replaced re dst repl src) vec _ [] ∅ C ltac:(done)) as H.
  rewrite (bool_decide_ext _ (NoDup (omap (replaced re dst repl src) vec))) in H.
  - apply H; [intros m M; by apply elem_of_nil in M|]. intros h. cbn. rewrite elem_of_empty, elem_of_nil. done.
  - split; [by intros []|]. intros N. split; [done|]. apply Forall_forall. intros m _. apply not_elem_of_nil.
Qed.

(** [label_join] gives every element the joined source values as its
    destination label, or removes that label when they are empty, and fails
    exactly when two elements end with the same labels. *)
Theorem label_join_spec (dst sep : string) (srcs : list string) (vec : Vector)
  (W : Forall (fun el => wf_labels (Metric el)) vec) (C : collision_free (omap (join_labels dst sep srcs) vec)) :
  if bool_decide (NoDup (omap (join_labels dst sep srcs) vec))
  then join_loop dst sep srcs vec ∅ = Ok (map (relabel_el (join_labels dst sep srcs)) vec)
  else exists m, join_loop dst sep srcs vec ∅ = Err (duplicated "label_join" m).
Proof.
  rewrite join_loop_relabel by done.
  pose proof (relabel_loop_spec "label_join" (join_labels dst sep srcs) vec _ [] ∅ C ltac:(done)) as H.
  rewrite (bool_decide_ext _ (NoDup (omap (join_labels dst sep srcs) vec))) in H.
  - apply H; [intros m M; by apply elem_of_nil in M|]. intros h. cbn. rewrite elem_of_empty, elem_of_nil. done.
  - split; [by intros []|]. intros N. split; [done|]. apply Forall_forall. intros m _. apply not_elem_of_nil.
Qed.
End relabel.

(** * [histogram_quantile] *)

Section histogram.
Context {St : Type} `{RE : Regexp} `{UT : UnicodeTables} `{XH : XXHash} `{MO : MapOrder}.

(** The samples that carry a bucket, with the labels of the sample. *)
Definition bucket_samples (vec : Vector) : list (Labels * bucket) :=
  omap (fun el => (fun b => (Metric el, b)) <$> sample_bucket el) vec.

(** The labels of the histogram a sample belongs to. *)
Definition histogram_labels (x : Labels * bucket) : Labels := labels_without x.1 excludedLabels.

Definition metric_of_bucket (m : Labels) : Labels := match bucket_metric m with Ok l => l | Err _ => [] end.

Lemma bucket_metric_total m : bucket_metric m = Ok (metric_of_bucket m).
Proof.
  unfold metric_of_bucket, bucket_metric.
  destruct (Del_total (NewBuilder m) [BucketLabel; MetricName]) as (lb & -> & _); [constructor|done].
Qed.

Lemma metric_of_bucket_labels m : wf_labels m -> metric_of_bucket m = labels_without m excludedLabels.
Proof.
  intros W. destruct (labels_of_ops m [OpDel [BucketLabel; MetricName]] W) as (b & Eb & Lb).
  unfold metric_of_bucket, bucket_metric. cbn [run_ops run_op] in Eb.
  destruct (Del (NewBuilder m) [BucketLabel; MetricName]) as [lb|]; [|done]. injection Eb as <-.
  cbn [fmap option_fmap option_map of_option]. rewrite Lb. cbn [foldl apply_op].
  assert (WF : wf_labels (labels_without m excludedLabels)) by (by apply wf_filter).
  apply Map_inj; [apply FromMap_wf|done|]. rewrite Map_FromMap. apply map_eq. intros n. apply option_eq. intros v.
  rewrite delete_all_lookup. etransitivity; [|symmetry; apply Map_lookup; by apply wf_names].
  assert (E : mkLabel n v ∈ labels_without m excludedLabels <->
    Map m !! n = Some v /\ (negb (named excludedLabels (mkLabel n v)) && negb (Name (mkLabel n v) =? MetricName)%string) = true).
  { rewrite (Map_lookup m n v (wf_names m W)), list_elem_of_In. unfold labels_without. by rewrite filter_In, <- list_elem_of_In. }
  rewrite E. clear E. rewrite andb_true_iff, !negb_true_iff. unfold named, excludedLabels. cbn [existsb Name].
  rewrite !orb_false_iff, !String.eqb_neq.
  case_decide as D; rewrite !elem_of_cons, elem_of_nil in D; naive_solver.
Qed.

Local Notation new_histogram := (fun x : Labels * bucket => (metric_of_bucket x.1, [x.2])).
Local Notation add_bucket := (fun (g : Labels * list bucket) (x : Labels * bucket) => (g.1, g.2 ++ [x.2])).

Lemma collect_buckets_fold vec m :
  collect_buckets vec m = Ok (group_fold new_histogram add_bucket (fun x => Hash (histogram_labels x)) m (bucket_samples vec)).
Proof.
  revert m. induction vec as [|el vec IH]; intros m; cbn [collect_buckets]; [done|].
  unfold bucket_samples. cbn [omap list_omap]. destruct (sample_bucket el) as [b|]; cbn [fmap option_fmap option_map]; [|apply IH].
  cbv zeta. unfold group_fold. cbn [foldl]. unfold insert_group at 2. unfold hashWithoutLabels, histogram_labels. cbn [fst snd].
  destruct (m !! Hash (labels_without (Metric el) excludedLabels)) as [mb|]; [apply IH|].
  rewrite bucket_metric_total. apply IH.
Qed.

(** [histogram_quantile] groups the samples that have a well-formed bucket
    by their labels other than the name and the bound, and returns one sample
    per group, with these labels and the quantile of the group's buckets. *)
Theorem histogram_quantile_groups (Timestamp : Z) (ev : Expr -> option nat -> EM St promql_Value)
  (a0 a1 : Expr * option nat) (st st1 st2 : St) (q : float64) (vec : Vector)
  (E0 : evalFloat ev a0 st = Ok (q, st1)) (E1 : evalVector ev a1 st1 = Ok (vec, st2))
  (W : Forall (fun el => wf_labels (Metric el)) vec) (C : collision_free (map histogram_labels (bucket_samples vec))) :
  exists out, funcHistogramQuantile Timestamp ev [a0; a1] st = Ok (VVector out, st2) /\
    out ≡ₚ map (fun kl => mkPSample kl Timestamp (bucketQuantile q (map snd (members histogram_labels kl (bucket_samples vec)))))
             (remove_dups (map histogram_labels (bucket_samples vec))).
Proof.
  unfold funcHistogramQuantile, arg. cbn [lookup list_lookup]. unfold mbind, EM_bind, mret, EM_ret. rewrite E0, E1.
  unfold lift. rewrite collect_buckets_fold. eexists. split; [done|].
  rewrite <- (map_map snd (fun mb : Labels * list bucket => mkPSample mb.1 Timestamp (bucketQuantile q mb.2))).
  rewrite (group_perm new_histogram add_bucket histogram_labels Hash (bucket_samples vec) C).
  set (xs := bucket_samples vec).
  assert (WX : forall x, x ∈ xs -> wf_labels x.1).
  { intros x X. unfold xs, bucket_samples in X. apply list_elem_of_omap in X as (el & E & X).
    apply fmap_Some in X as (b & _ & ->). rewrite Forall_forall in W. by apply W. }
  assert (G : forall k, k ∈ remove_dups (map histogram_labels xs) ->
    group_of new_histogram add_bucket (members histogram_labels k xs) = Some (k, map snd (members histogram_labels k xs))).
  { intros k K. apply elem_of_remove_dups, (group_of_Some new_histogram add_bucket) in K as [g K].
    destruct (members histogram_labels k xs) as [|x ys] eqn:M; [done|].
    assert (X : x ∈ members histogram_labels k xs) by (rewrite M; left). apply members_class in X as [X <-]. cbn [group_of].
    rewrite (metric_of_bucket_labels _ (WX x X)). f_equal. unfold histogram_labels.
    assert (F : forall g, foldl add_bucket g ys = (g.1, g.2 ++ map snd ys)).
    { clear. induction ys as [|y ys IH]; intros [l bs]; cbn; [by rewrite app_nil_r|]. rewrite IH. cbn. by rewrite <- app_assoc. }
    rewrite F. done. }
  revert G. generalize (remove_dups (map histogram_labels xs)). intros ks G. induction ks as [|k ks IH]; [done|].
  cbn [omap list_omap map]. rewrite G by left. cbn [map fst snd]. f_equiv. apply IH. intros. apply G. by right.
Qed.
End histogram.

(** * Extremes over time *)

Lemma IsInf_pos_inv x : IsInf_pos x = true -> x = Inf false.
Proof. destruct x as [[]|]; cbn; try done. by destruct s. Qed.

Lemma fle_inf x : IsNaN x = false -> fle x (Inf false) = true.
Proof. destruct x as [[[]|[]| |[] m e]|]; done. Qed.

Lemma Max_cases x y : IsNaN x = false -> IsNaN y = false ->
  (Max x y = x /\ fle y x = true) \/ (Max x y = y /\ fle x y = true).
Proof.
  intros NX NY. unfold Max. destruct (IsInf_pos x) eqn:IX; cbn [orb].
  { apply IsInf_pos_inv in IX as ->. left. split; [done|by apply fle_inf]. }
  destruct (IsInf_pos y) eqn:IY.
  { apply IsInf_pos_inv in IY as ->. right. split; [done|by apply fle_inf]. }
  rewrite NX, NY. cbn [orb]. destruct (is_zero x && feq x y) eqn:Z.
  - assert (E : fle x y = true /\ fle y x = true).
    { apply andb_true_iff in Z as [Z E]. revert Z E. unfold is_zero, feq, fle, SFeqb, SFleb.
      destruct (num x) as [s|s| |s m e], (num y) as [s'|s'| |s' m' e']; cbn; try done; by destruct s'. }
    destruct E. destruct (Signbit x); [right|left]; by split.
  - destruct (flt y x) eqn:L; [left|right]; split; try done; [by apply flt_fle|].
    by rewrite (fle_flt_total _ _ NX NY), L.
Qed.

Lemma IsInf_neg_inv x : IsInf_neg x = true -> x = Inf true.
Proof. destruct x as [[]|]; cbn; try done. by destruct s. Qed.

Lemma inf_fle x : IsNaN x = false -> fle (Inf true) x = true.
Proof. destruct x as [[[]|[]| |[] m e]|]; done. Qed.

Lemma Min_cases x y : IsNaN x = false -> IsNaN y = false ->
  (Min x y = x /\ fle x y = true) \/ (Min x y = y /\ fle y x = true).
Proof.
  intros NX NY. unfold Min. destruct (IsInf_neg x) eqn:IX; cbn [orb].
  { apply IsInf_neg_inv in IX as ->. left. split; [done|by apply inf_fle]. }
  destruct (IsInf_neg y) eqn:IY.
  { apply IsInf_neg_inv in IY as ->. right. split; [done|by apply inf_fle]. }
  rewrite NX, NY. cbn [orb]. destruct (is_zero x && feq x y) eqn:Z.
  - assert (E : fle x y = true /\ fle y x = true).
    { apply andb_true_iff in Z as [Z E]. revert Z E. unfold is_zero, feq, fle, SFeqb, SFleb.
      destruct (num x) as [s|s| |s m e], (num y) as [s'|s'| |s' m' e']; cbn; try done; by destruct s'. }
    destruct E. destruct (Signbit x); [left|right]; by split.
  - destruct (flt x y) eqn:L; [left|right]; split; try done; [by apply flt_fle|].
    by rewrite (fle_flt_total _ _ NY NX), L.
Qed.

Lemma fle_refl x : IsNaN x = false -> fle x x = true.
Proof. intros N. by apply feq_fle, feq_refl. Qed.

(** A fold that picks one of its two arguments, by an order [R]. *)
Lemma pick_fold (f : float64 -> float64 -> float64) (R : float64 -> float64 -> Prop) acc vs :
  (forall a b c, R a b -> R b c -> R a c) -> (forall a, IsNaN a = false -> R a a) ->
  (forall a b, IsNaN a = false -> IsNaN b = false -> (f a b = a /\ R b a) \/ (f a b = b /\ R a b)) ->
  IsNaN acc = false -> Forall (fun v => IsNaN v = false) vs ->
  let r := foldl f acc vs in (r = acc \/ r ∈ vs) /\ R acc r /\ forall v, v ∈ vs -> R v r.
Proof.
  intros T RR F. revert acc. induction vs as [|v vs IH]; intros acc NA N; cbn [foldl].
  - split; [by left|]. split; [by apply RR|]. intros v I. by apply elem_of_nil in I.
  - apply Forall_cons in N as [NV N].
    assert (NF : IsNaN (f acc v) = false) by (destruct (F acc v NA NV) as [[-> _]|[-> _]]; done).
    destruct (IH (f acc v) NF N) as (I & RA & RV).
    destruct (F acc v NA NV) as [[E RE]|[E RE]]; rewrite E in *; (split; [|split]).
    + destruct I as [->|I]; [by left|right; by right].
    + exact RA.
    + intros w W. apply elem_of_cons in W as [->|W]; [by apply (T _ acc)|by apply RV].
    + destruct I as [->|I]; right; [left|by right].
    + by apply (T _ v).
    + intros w W. apply elem_of_cons in W as [->|W]; [done|by apply RV].
Qed.

(** Of points without NaN, [max_over_time] is the value of one that no
    other exceeds, and [min_over_time] of one that exceeds no other. *)
Theorem extremes_over_time (ps : list Point) (NE : ps <> []) (N : Forall (fun p => IsNaN (p_V p) = false) ps) :
  (max_over_time ps ∈ map p_V ps /\ forall p, p ∈ ps -> fle (p_V p) (max_over_time ps) = true) /\
  (min_over_time ps ∈ map p_V ps /\ forall p, p ∈ ps -> fle (min_over_time ps) (p_V p) = true).
Proof.
  assert (NV : Forall (fun v => IsNaN v = false) (map p_V ps)) by (by apply Forall_fmap).
  destruct (pick_fold Max (fun a b => fle a b = true) (Inf true) (map p_V ps)
    (fun a b c => fle_trans a b c) fle_refl Max_cases eq_refl NV) as (I & _ & B).
  destruct (pick_fold Min (fun a b => fle b a = true) (Inf false) (map p_V ps)
    (fun a b c H1 H2 => fle_trans c b a H2 H1) fle_refl Min_cases eq_refl NV) as (J & _ & D).
  rewrite foldl_map in I, B, J, D. fold (max_over_time ps) in I, B. fold (min_over_time ps) in J, D.
  destruct ps as [|p ps]; [done|]. assert (HP : p_V p ∈ map p_V (p :: ps)) by left.
  assert (NP : IsNaN (p_V p) = false) by (by apply Forall_cons in N as [N _]).
  split; (split; [|intros x X]).
  - destruct I as [E|I]; [|done]. pose proof (B _ HP) as L. rewrite E in L |- *.
    assert (EP : p_V p = Inf true); [|by rewrite EP in HP].
    apply IsInf_neg_inv. revert L NP. unfold fle, IsNaN, IsInf_neg. clear. destruct (p_V p) as [[[]|[]| |[] m e]|]; done.
  - apply B, list_elem_of_fmap. eauto.
  - destruct J as [E|J]; [|done]. pose proof (D _ HP) as L. rewrite E in L |- *.
    assert (EP : p_V p = Inf false); [|by rewrite EP in HP].
    apply IsInf_pos_inv. revert L NP. unfold fle, IsNaN, IsInf_pos. clear. destruct (p_V p) as [[[]|[]| |[] m e]|]; done.
  - apply D, list_elem_of_fmap. eauto.
Qed.

(** * Witnesses *)

#[local] Existing Instances plain_tables plain_hash.
#[local] Existing Instance tree_order.

(** Regular expressions that are literals, and templates that do not refer to
    the match. *)
#[local] Instance literal : Regexp := literal_regexp.
#[local] Instance literal_expand : RegexpReplace := literal_replace.

Definition half : float64 := of_decimal false 5 (-1).

Lemma holt_winters_smooths_witness :
  fst (holt_winters_value half half [mkPoint 1 (of_Z 1); mkPoint 2 (of_Z 3); mkPoint 3 (of_Z 5)] ([], [])) = Some (of_Z 5).
Proof.
  rewrite (holt_winters_smooths half half [mkPoint 1 (of_Z 1); mkPoint 2 (of_Z 3); mkPoint 3 (of_Z 5)] ([], []) ltac:(cbn; lia) eq_refl).
  vm_compute. reflexivity.
Defined.

Lemma extremes_over_time_witness :
  fle (of_Z 3) (max_over_time [mkPoint 1 (of_Z 3); mkPoint 2 (of_Z (-7))]) = true /\
  max_over_time [mkPoint 1 (of_Z 3); mkPoint 2 (of_Z (-7))] = of_Z 3.
Proof.
  split; [|vm_compute; reflexivity].
  apply (extremes_over_time [mkPoint 1 (of_Z 3); mkPoint 2 (of_Z (-7))] ltac:(done) ltac:(repeat constructor)
    : _ /\ _) with (p := mkPoint 1 (of_Z 3)). left.
Defined.

Definition lbl (v : string) : Sample := mkPSample [mkLabel "a" v] 0 (of_Z 1).

(** The result has two elements with the label [a = y]: the unmatched one is not
    compared. *)
Lemma label_replace_spec_witness :
  replace_loop (RE := literal_regexp) "x" "a" "y" "a" [lbl "x"; lbl "y"] ∅ = Ok [lbl "y"; lbl "y"].
Proof.
  pose proof (label_replace_spec (RE := literal_regexp) "x" "a" "y" "a" [lbl "x"; lbl "y"]
    ltac:(repeat constructor) ltac:(apply no_collision_free; vm_compute; reflexivity)) as H.
  rewrite bool_decide_true in H; [rewrite H; vm_compute; reflexivity|].
  apply (bool_decide_unpack _). vm_compute. exact I.
Defined.

Lemma label_join_spec_witness :
  join_loop "b" "-" ["a"; "a"] [lbl "x"; lbl "y"] ∅ =
  Ok [mkPSample [mkLabel "a" "x"; mkLabel "b" "x-x"] 0 (of_Z 1); mkPSample [mkLabel "a" "y"; mkLabel "b" "y-y"] 0 (of_Z 1)].
Proof.
  pose proof (label_join_spec "b" "-" ["a"; "a"] [lbl "x"; lbl "y"]
    ltac:(repeat constructor) ltac:(apply no_collision_free; vm_compute; reflexivity)) as H.
  rewrite bool_decide_true in H; [rewrite H; vm_compute; reflexivity|].
  apply (bool_decide_unpack _). vm_compute. exact I.
Defined.

Definition bucket_of (le : string) (n : Z) : Sample := mkPSample [mkLabel MetricName "h"; mkLabel "job" "j"; mkLabel "le" le] 0 (of_Z n).
Definition constant_ev (e : Expr) (_ : option nat) : EM unit promql_Value :=
  match e with
  | NumberLiteral v => mret (VScalar 0 v)
  | _ => mret (VVector [bucket_of "1" 1; bucket_of "2" 3; bucket_of "+Inf" 4])
  end.

Lemma histogram_quantile_groups_witness :
  exists out, funcHistogramQuantile 9 constant_ev [(NumberLiteral half, None); (StringLiteral "", None)] tt = Ok (VVector out, tt) /\
    out ≡ₚ [mkPSample [mkLabel "job" "j"] 9 (of_decimal false 15 (-1))].
Proof.
  destruct (histogram_quantile_groups 9 constant_ev (NumberLiteral half, None) (StringLiteral "", None) tt tt tt half
    [bucket_of "1" 1; bucket_of "2" 3; bucket_of "+Inf" 4] eq_refl eq_refl ltac:(repeat constructor)
    ltac:(apply no_collision_free; vm_compute; reflexivity)) as (out & E & P).
  exists out. split; [exact E|]. rewrite P. vm_compute. reflexivity.
Defined.
