(* ===== verification/Agree.v ===== *)
(** Two evaluators that agree.  [agree] relates computations over two kinds of
    states: on related states both end with the same value, which satisfies a
    postcondition, or both with the same error, of a kind that is allowed.  With
    the two equal it is a logic for the safety of one evaluator, with two
    different implementations of the selectors a refinement between them. *)

From S2P Require Import Prelude GoString GoFmt Float GoMath Labels LabelsFacts Lexer Ast Quantile Value Relabel.
From S2P Require Import Parser TypeFacts Evaluator Binop BinopFacts GroupBy Aggregate RangeFuncs Functions.

(** * Values and errors *)

Definition nonempty (m : Matrix) : Prop := Forall (fun s => Points s <> []) m.

(** A value of a type; the series of a matrix have points. *)
Definition typed (t : ValueType) (v : promql_Value) : Prop :=
  Value_Type v = t /\ match v with VMatrix m => nonempty m | _ => True end.

(** The errors of a query; the run-time errors too unless [strict]. *)
Definition allowed (strict : bool) (e : everr) : Prop :=
  query_error e \/ strict = false /\ match e with EvRuntime | EvInternal _ => True | _ => False end.

Section agree.
Context {S1 S2 : Type} (R : S1 -> S2 -> Prop) (strict : bool).

(** Two outcomes that agree, on states related by [P]. *)
Definition outcome (P : S1 -> S2 -> Prop) {A} (Q : A -> Prop) (r : result everr (A * S1)) (r' : result everr (A * S2)) : Prop :=
  match r, r' with
  | Ok (a, s1), Ok (a', s1') => a = a' /\ Q a /\ P s1 s1'
  | Err e, Err e' => e = e' /\ allowed strict e
  | _, _ => False
  end.

Definition agree {A} (Q : A -> Prop) (m : EM S1 A) (m' : EM S2 A) : Prop :=
  forall s s', R s s' -> outcome R Q (m s) (m' s').

Lemma agree_ret {A} (Q : A -> Prop) a : Q a -> agree Q (mret a) (mret a).
Proof. by intros Qa s s' Rs. Qed.

Lemma agree_throw {A} (Q : A -> Prop) e : allowed strict e -> agree Q (throw e) (throw e).
Proof. by intros Ee s s' Rs. Qed.

Lemma agree_errorf {A} (Q : A -> Prop) msg : agree Q (ev_errorf msg) (ev_errorf msg).
Proof. apply agree_throw. by left. Qed.

Lemma agree_bind {A B} (P : A -> Prop) (Q : B -> Prop) m m' f f' :
  agree P m m' -> (forall a, P a -> agree Q (f a) (f' a)) -> agree Q (m ≫= f) (m' ≫= f').
Proof.
  intros M F s s' Rs. specialize (M s s' Rs). unfold mbind, EM_bind, outcome in *.
  destruct (m s) as [[a s1]|e], (m' s') as [[a' s1']|e']; try done.
  destruct M as (<- & Pa & R1). by apply F.
Qed.

Lemma agree_mono {A} (P Q : A -> Prop) m m' : agree P m m' -> (forall a, P a -> Q a) -> agree Q m m'.
Proof.
  intros M F s s' Rs. specialize (M s s' Rs). unfold outcome in *.
  destruct (m s) as [[a s1]|e], (m' s') as [[a' s1']|e']; try done.
  destruct M as (<- & Pa & R1). auto.
Qed.

(** A computation that does not touch the state. *)
Definition pure_ok {A} (Q : A -> Prop) (r : result everr A) : Prop :=
  match r with Ok a => Q a | Err e => allowed strict e end.

Lemma agree_lift {A} (Q : A -> Prop) r : pure_ok Q r -> agree Q (lift r) (lift r).
Proof. intros P s s' Rs. unfold lift, outcome. destruct r; [done|by split]. Qed.

Lemma agree_lift_vector r : pure_ok (fun _ => True) r ->
  agree (typed ValueTypeVector) (v ← lift r; mret (VVector v)) (v ← lift r; mret (VVector v)).
Proof. intros P. eapply agree_bind; [by apply agree_lift|]. intros v _. by apply agree_ret. Qed.

(** * Arguments *)

Section functions.
Context `{RE : Regexp} `{RR : !RegexpReplace} `{UT : UnicodeTables} `{XH : XXHash} `{IO : IntOverflow}
        `{MO : MapOrder} `{ML : MathLib}.
Variables (Timestamp : Z).
Variables (ev : Expr -> option nat -> EM S1 promql_Value) (ev' : Expr -> option nat -> EM S2 promql_Value).

Local Notation argument := (Expr * option nat)%type.

Definition good (a : argument) (t : ValueType) : Prop := agree (typed t) (ev a.1 a.2) (ev' a.1 a.2).

Lemma agree_vector a : good a ValueTypeVector -> agree (fun _ => True) (evalVector ev a) (evalVector ev' a).
Proof. intros G. eapply agree_bind; [exact G|]. intros [] [E _]; try discriminate. by apply agree_ret. Qed.

Lemma agree_matrix a : good a ValueTypeMatrix -> agree nonempty (evalMatrix ev a) (evalMatrix ev' a).
Proof. intros G. eapply agree_bind; [exact G|]. intros [] [E N]; try discriminate. by apply agree_ret. Qed.

Lemma agree_string a : good a ValueTypeString -> agree (fun _ => True) (evalString ev a) (evalString ev' a).
Proof. intros G. eapply agree_bind; [exact G|]. intros [] [E _]; try discriminate. by apply agree_ret. Qed.

Lemma agree_scalar a : good a ValueTypeScalar -> agree (fun _ => True) (evalScalar ev a) (evalScalar ev' a).
Proof. intros G. eapply agree_bind; [exact G|]. intros [] [E _]; try discriminate. by apply agree_ret. Qed.

Lemma agree_float a : good a ValueTypeScalar -> agree (fun _ => True) (evalFloat ev a) (evalFloat ev' a).
Proof. intros G. eapply agree_bind; [by apply agree_scalar|]. intros sc _. by apply agree_ret. Qed.

Lemma agree_int a : good a ValueTypeScalar -> agree (fun _ => True) (evalInt ev a) (evalInt ev' a).
Proof.
  intros G. eapply agree_bind; [by apply agree_scalar|]. intros sc _.
  destruct (negb _); [apply agree_errorf|by apply agree_ret].
Qed.

(** An operand is a scalar or a vector. *)
Lemma agree_operand a t : operand t -> good a t ->
  agree (typed t) (evalOneOf ev a ValueTypeScalar ValueTypeVector) (evalOneOf ev' a ValueTypeScalar ValueTypeVector).
Proof.
  intros O G. eapply agree_bind; [exact G|]. intros v [E N].
  destruct O as [-> | ->]; rewrite E; eval_types; by apply agree_ret.
Qed.

Lemma agree_arg {B} (Q : B -> Prop) args i f f' :
  (i < length args)%nat -> (forall a, args !! i = Some a -> agree Q (f a) (f' a)) ->
  agree Q (arg args i ≫= f) (arg args i ≫= f').
Proof.
  intros L F. destruct (lookup_lt_is_Some_2 args i L) as [a E]. unfold arg. rewrite E.
  eapply agree_bind; [by apply (agree_ret (fun x => x = a))|]. intros ? ->. by apply F.
Qed.

(** * Shapes of functions *)

(** [has args i t]: argument [i] exists and is good at type [t]. *)
Definition has (args : list argument) (i : nat) (t : ValueType) : Prop :=
  (i < length args)%nat /\ forall a, args !! i = Some a -> good a t.

Lemma agree_has {B} (Q : B -> Prop) args i t f f' :
  has args i t -> (forall a, good a t -> agree Q (f a) (f' a)) -> agree Q (arg args i ≫= f) (arg args i ≫= f').
Proof. intros [L G] F. apply agree_arg; [done|]. auto. Qed.

Lemma mapM_result_ok {A B} (f : A -> result everr B) l :
  (forall a, exists b, f a = Ok b) -> exists bs, mapM_result f l = Ok bs.
Proof.
  intros F. induction l as [|a l (bs & IH)]; cbn; [eauto|]. destruct (F a) as [b ->]. rewrite IH. eauto.
Qed.

Lemma update_values_ok f vec : exists v, update_values f vec = Ok v.
Proof. apply mapM_result_ok. intros s. destruct (dropMetricName_ok (Metric s)) as [m ->]. cbn. eauto. Qed.

Lemma agree_update f vec :
  agree (typed ValueTypeVector) (v ← lift (update_values f vec); mret (VVector v)) (v ← lift (update_values f vec); mret (VVector v)).
Proof. apply agree_lift_vector. by destruct (update_values_ok f vec) as [v ->]. Qed.

Lemma agree_map_vector f args : has args 0 ValueTypeVector ->
  agree (typed ValueTypeVector) (map_vector ev f args) (map_vector ev' f args).
Proof.
  intros H. eapply agree_has; [done|]. intros a G. eapply agree_bind; [by apply agree_vector|]. intros vec _. apply agree_update.
Qed.

Lemma map_series_ok f mat :
  nonempty mat -> (forall ps, ps <> [] -> pure_ok (fun _ => True) (f ps)) -> pure_ok (fun _ => True) (map_series Timestamp f mat).
Proof.
  intros N F. induction N as [|s mat Ns _ IH]; cbn [map_series]; [done|].
  specialize (F (Points s) Ns). unfold mbind, result_bind. destruct (f (Points s)) as [o|e]; [|done].
  destruct o; [|done]. destruct (dropMetricName_ok (s_Metric s)) as [m ->]. cbn. by destruct (map_series _ _ _).
Qed.

Lemma agree_over_matrix a f : good a ValueTypeMatrix -> (forall ps, ps <> [] -> pure_ok (fun _ => True) (f ps)) ->
  agree (typed ValueTypeVector) (over_matrix Timestamp ev a f) (over_matrix Timestamp ev' a f).
Proof.
  intros G F. eapply agree_bind; [by apply agree_matrix|]. intros mat N. by apply agree_lift_vector, map_series_ok.
Qed.

(** * The functions *)

Lemma agree_aggrOverTime f args : has args 0 ValueTypeMatrix ->
  agree (typed ValueTypeVector) (aggrOverTime Timestamp ev f args) (aggrOverTime Timestamp ev' f args).
Proof. intros H. eapply agree_has; [done|]. intros a G. by apply agree_over_matrix. Qed.

Lemma agree_instantValue isRate args : has args 0 ValueTypeMatrix ->
  agree (typed ValueTypeVector) (a ← arg args 0; instantValue Timestamp ev a isRate) (a ← arg args 0; instantValue Timestamp ev' a isRate).
Proof. intros H. eapply agree_has; [done|]. intros a G. by apply agree_over_matrix. Qed.

Lemma agree_steps step args : has args 0 ValueTypeMatrix ->
  agree (typed ValueTypeVector) (steps_function Timestamp ev step args) (steps_function Timestamp ev' step args).
Proof.
  intros H. eapply agree_has; [done|]. intros a G. apply agree_over_matrix; [done|]. by intros [|p ps].
Qed.

Lemma agree_deriv args : has args 0 ValueTypeMatrix ->
  agree (typed ValueTypeVector) (funcDeriv Timestamp ev args) (funcDeriv Timestamp ev' args).
Proof. intros H. eapply agree_has; [done|]. intros a G. by apply agree_over_matrix. Qed.

(** [rate], [increase] and [delta] need a selector. *)
Definition is_matrix_selector (e : Expr) : bool := match e with MatrixSelector _ _ _ _ => true | _ => false end.

Lemma agree_rate isCounter isRate args :
  has args 0 ValueTypeMatrix ->
  (strict = true -> forall a, args !! 0%nat = Some a -> is_matrix_selector a.1 = true) ->
  agree (typed ValueTypeVector) (a ← arg args 0; extrapolatedRate Timestamp ev a isCounter isRate)
                                (a ← arg args 0; extrapolatedRate Timestamp ev' a isCounter isRate).
Proof.
  intros [L G] M. apply agree_arg; [done|]. intros a Ha. specialize (G a Ha).
  unfold extrapolatedRate. destruct (a.1) eqn:Ea; try by apply agree_over_matrix.
  all: apply agree_throw; right; split; [|done]; destruct strict; [|done];
    specialize (M eq_refl a Ha); by rewrite Ea in M.
Qed.

Lemma agree_predict args : has args 0 ValueTypeMatrix -> has args 1 ValueTypeScalar ->
  agree (typed ValueTypeVector) (funcPredictLinear Timestamp ev args) (funcPredictLinear Timestamp ev' args).
Proof.
  intros H0 H1. eapply agree_has; [exact H0|]. intros a G. eapply agree_bind; [by apply agree_matrix|]. intros mat N.
  eapply agree_has; [exact H1|]. intros b Gb. eapply agree_bind; [by apply agree_float|]. intros d _.
  by apply agree_lift_vector, map_series_ok.
Qed.

Lemma holt_winters_loop_ok sf tf mat scratch : exists v, holt_winters_loop Timestamp sf tf mat scratch = Ok v.
Proof.
  revert scratch. induction mat as [|s mat IH]; intros scratch; cbn [holt_winters_loop]; [eauto|].
  destruct (holt_winters_value sf tf (Points s) scratch) as [[x|] scratch']; [|apply IH].
  destruct (dropMetricName_ok (s_Metric s)) as [m ->]. destruct (IH scratch') as [v Hv]. cbn. rewrite Hv. cbn. eauto.
Qed.

Lemma agree_holt_winters args :
  has args 0 ValueTypeMatrix -> has args 1 ValueTypeScalar -> has args 2 ValueTypeScalar ->
  agree (typed ValueTypeVector) (funcHoltWinters Timestamp ev args) (funcHoltWinters Timestamp ev' args).
Proof.
  intros H0 H1 H2. eapply agree_has; [exact H0|]. intros a G. eapply agree_bind; [by apply agree_matrix|]. intros mat N.
  eapply agree_has; [exact H1|]. intros b Gb. eapply agree_bind; [by apply agree_float|]. intros sf _.
  eapply agree_has; [exact H2|]. intros c Gc. eapply agree_bind; [by apply agree_float|]. intros tf _.
  destruct (_ || _); [apply agree_errorf|]. destruct (_ || _); [apply agree_errorf|].
  apply agree_lift_vector. by destruct (holt_winters_loop_ok sf tf mat ([], [])) as [v ->].
Qed.

Lemma agree_quantile_over_time args : strict = false ->
  has args 0 ValueTypeScalar -> has args 1 ValueTypeMatrix ->
  agree (typed ValueTypeVector) (funcQuantileOverTime Timestamp ev args) (funcQuantileOverTime Timestamp ev' args).
Proof.
  intros NS H0 H1. eapply agree_has; [exact H0|]. intros a G. eapply agree_bind; [by apply agree_float|]. intros q _.
  eapply agree_has; [exact H1|]. intros b Gb. apply agree_over_matrix; [done|]. intros ps N.
  destruct ps; [done|]. destruct (quantile _ _ _); cbn; [done|]. by right.
Qed.

Lemma agree_clamp f args : has args 0 ValueTypeVector -> has args 1 ValueTypeScalar ->
  agree (typed ValueTypeVector) (clamp ev f args) (clamp ev' f args).
Proof.
  intros H0 H1. eapply agree_has; [exact H0|]. intros a G. eapply agree_bind; [by apply agree_vector|]. intros vec _.
  eapply agree_has; [exact H1|]. intros b Gb. eapply agree_bind; [by apply agree_float|]. intros x _. apply agree_update.
Qed.

Lemma agree_round args : has args 0 ValueTypeVector -> ((1 < length args)%nat -> has args 1 ValueTypeScalar) ->
  agree (typed ValueTypeVector) (funcRound ev args) (funcRound ev' args).
Proof.
  intros H0 H1. apply agree_bind with (fun _ => True).
  - destruct args as [|a0 [|a1 args]]; [by apply agree_ret..|]. apply agree_float.
    destruct (H1 ltac:(cbn; lia)) as [_ G]. by apply G.
  - intros x _. eapply agree_has; [exact H0|]. intros a G. eapply agree_bind; [by apply agree_vector|]. intros vec _. apply agree_update.
Qed.

Lemma agree_sort (f : Vector -> Vector) args : has args 0 ValueTypeVector ->
  agree (typed ValueTypeVector) (a ← arg args 0; vec ← evalVector ev a; mret (VVector (f vec)))
                                (a ← arg args 0; vec ← evalVector ev' a; mret (VVector (f vec))).
Proof.
  intros H. eapply agree_has; [done|]. intros a G. eapply agree_bind; [by apply agree_vector|]. intros vec _. by apply agree_ret.
Qed.

Lemma agree_funcScalar args : has args 0 ValueTypeVector ->
  agree (typed ValueTypeScalar) (funcScalar Timestamp ev args) (funcScalar Timestamp ev' args).
Proof.
  intros H. eapply agree_has; [done|]. intros a G. eapply agree_bind; [by apply agree_vector|]. intros vec _. by apply agree_ret.
Qed.

Lemma agree_absent args : has args 0 ValueTypeVector ->
  agree (typed ValueTypeVector) (funcAbsent Timestamp ev args) (funcAbsent Timestamp ev' args).
Proof.
  intros H. eapply agree_has; [done|]. intros a G. eapply agree_bind; [by apply agree_vector|]. intros vec _. by apply agree_ret.
Qed.

Lemma bucket_metric_ok m : exists m', bucket_metric m = Ok m'.
Proof. unfold bucket_metric. destruct (Del_total (NewBuilder m) [BucketLabel; MetricName]) as (lb & -> & _); [constructor|]. cbn. eauto. Qed.

Lemma collect_buckets_ok vec m : exists m', collect_buckets vec m = Ok m'.
Proof.
  revert m. induction vec as [|el vec IH]; intros m; cbn [collect_buckets]; [eauto|].
  destruct (sample_bucket el) as [b|]; [|apply IH]. cbv zeta. destruct (m !! _) as [mb|]; [apply IH|].
  destruct (bucket_metric_ok (Metric el)) as [m' ->]. apply IH.
Qed.

Lemma agree_histogram args : has args 0 ValueTypeScalar -> has args 1 ValueTypeVector ->
  agree (typed ValueTypeVector) (funcHistogramQuantile Timestamp ev args) (funcHistogramQuantile Timestamp ev' args).
Proof.
  intros H0 H1. eapply agree_has; [exact H0|]. intros a G. eapply agree_bind; [by apply agree_float|]. intros q _.
  eapply agree_has; [exact H1|]. intros b Gb. eapply agree_bind; [by apply agree_vector|]. intros vec _.
  eapply agree_bind; [apply (agree_lift (fun _ => True)); by destruct (collect_buckets_ok vec ∅) as [m ->]|].
  intros m _. by apply agree_ret.
Qed.

Lemma cons_ok {A} (x : A) (r : result everr (list A)) : pure_ok (fun _ => True) r -> pure_ok (fun _ => True) (cons x <$> r).
Proof. by destruct r. Qed.

Lemma replace_loop_ok re dst repl src vec out : pure_ok (fun _ => True) (replace_loop re dst repl src vec out).
Proof.
  revert out. induction vec as [|el vec IH]; intros out; cbn [replace_loop]; [done|].
  destruct (FindStringSubmatchIndex _ _) as [idx|]; [|by apply cons_ok].
  destruct (Del_total (NewBuilder (Metric el)) [dst]) as (lb & -> & _); [constructor|].
  cbn [mbind option_bind of_option result_bind]. case_bool_decide; [by left|]. by apply cons_ok.
Qed.

Lemma join_loop_ok dst sep srcs vec out : pure_ok (fun _ => True) (join_loop dst sep srcs vec out).
Proof.
  revert out. induction vec as [|el vec IH]; intros out; cbn [join_loop]; [done|].
  assert (H : exists lb, (if (str_join sep (map (Get (Metric el)) srcs) =? "")%string then Del (NewBuilder (Metric el)) [dst]
    else Some (Set_ (NewBuilder (Metric el)) dst (str_join sep (map (Get (Metric el)) srcs)))) = Some lb).
  { destruct (_ =? _)%string; [|eauto]. destruct (Del_total (NewBuilder (Metric el)) [dst]) as (lb & -> & _); [constructor|eauto]. }
  destruct H as [lb ->]. cbn [fmap option_fmap option_map of_option mbind result_bind].
  case_bool_decide; [by left|]. by apply cons_ok.
Qed.

Lemma agree_label_replace args : has args 0 ValueTypeVector ->
  (forall i, (0 < i < 5)%nat -> has args i ValueTypeString) ->
  agree (typed ValueTypeVector) (funcLabelReplace ev args) (funcLabelReplace ev' args).
Proof.
  intros H0 H1. eapply agree_has; [exact H0|]. intros a0 G0. eapply agree_bind; [by apply agree_vector|]. intros vec _.
  do 4 (eapply agree_has; [apply H1; lia|]; intros ? ?; eapply agree_bind; [by apply agree_string|]; intros ? _).
  destruct (regexp_Compile _); [|apply agree_errorf]. destruct (negb _); [apply agree_errorf|].
  apply agree_lift_vector, replace_loop_ok.
Qed.

Lemma agree_join_sources args : Forall (fun a => good a ValueTypeString) args ->
  agree (fun _ => True) (join_sources ev args) (join_sources ev' args).
Proof.
  induction 1 as [|a rest G _ IH]; cbn [join_sources]; [by apply agree_ret|].
  eapply agree_bind; [by apply agree_string|]. intros src _. destruct (negb _); [apply agree_errorf|].
  eapply agree_bind; [exact IH|]. intros srcs _. by apply agree_ret.
Qed.

Lemma agree_label_join args : has args 0 ValueTypeVector -> (3 <= length args)%nat ->
  (forall i, (0 < i < length args)%nat -> has args i ValueTypeString) ->
  agree (typed ValueTypeVector) (funcLabelJoin ev args) (funcLabelJoin ev' args).
Proof.
  intros H0 L H1. eapply agree_has; [exact H0|]. intros a0 G0. eapply agree_bind; [by apply agree_vector|]. intros vec _.
  do 2 (eapply agree_has; [apply H1; lia|]; intros ? ?; eapply agree_bind; [by apply agree_string|]; intros ? _).
  rewrite (proj2 (Nat.ltb_ge _ _) L). eapply agree_bind; [by apply (agree_ret (fun _ => True))|]. intros _ _.
  eapply agree_bind.
  { apply agree_join_sources. apply Forall_lookup. intros i b Ha. rewrite lookup_drop in Ha.
    destruct (H1 (3 + i)%nat) as [_ G]; [|by apply G]. split; [lia|]. by eapply lookup_lt_Some. }
  intros srcs _. destruct (negb _); [apply agree_errorf|]. apply agree_lift_vector, join_loop_ok.
Qed.

Lemma agree_funcVector args : has args 0 ValueTypeScalar ->
  agree (typed ValueTypeVector) (funcVector Timestamp ev args) (funcVector Timestamp ev' args).
Proof.
  intros H. eapply agree_has; [done|]. intros a G. eapply agree_bind; [by apply agree_float|]. intros x _. by apply agree_ret.
Qed.

Lemma agree_date f args : ((0 < length args)%nat -> has args 0 ValueTypeVector) ->
  agree (typed ValueTypeVector) (dateWrapper Timestamp ev f args) (dateWrapper Timestamp ev' f args).
Proof.
  intros H. apply agree_bind with (fun _ => True).
  - destruct args as [|a args]; [by apply agree_ret|]. apply agree_vector.
    destruct (H ltac:(cbn; lia)) as [_ G]. by apply G.
  - intros v _. apply agree_update.
Qed.
End functions.
End agree.
