(* ===== verification/EngineFacts.v ===== *)
(** What the evaluator of [Engine] guarantees. *)

From S2P Require Import Prelude GoString GoFmt Float GoMath Labels LabelsFacts Lexer Ast Quantile Value Relabel.
From S2P Require Import Parser ParserFacts TypeFacts ParseSpec Buffer Window Evaluator SelectFacts Binop BinopFacts GroupBy Aggregate AggregateFacts.
From S2P Require Import RangeFuncs Functions Engine Agree.

(** * Expressions whose evaluation cannot end in a run-time panic *)

Section evaluable.
Context `{RE : Regexp}.

(** [rate], [increase] and [delta] look for a selector in their argument. *)
Definition call_ok (fn : Function) (args : list Expr) : bool :=
  negb (f_Name fn =? "quantile_over_time")%string &&
  (if (f_Name fn =? "rate")%string || (f_Name fn =? "increase")%string || (f_Name fn =? "delta")%string
   then match args with a :: _ => is_matrix_selector a | [] => true end else true).

(** No quantile of samples, no matcher's operator between operands, and a
    selector itself as the argument of [rate] and its kin. *)
Fixpoint evaluable (e : Expr) : bool :=
  match e with
  | AggregateExpr op e param _ _ =>
    negb (bool_decide (op = itemQuantile)) && evaluable e && match param with Some p => evaluable p | None => true end
  | BinaryExpr op l r _ _ => negb (regex_operator op) && evaluable l && evaluable r
  | Call fn args => call_ok fn args && forallb evaluable args
  | ParenExpr e | UnaryExpr _ e => evaluable e
  | MatrixSelector _ _ _ _ | NumberLiteral _ | StringLiteral _ | VectorSelector _ _ _ => true
  end.
End evaluable.

(** * Calls *)

Section calls.
Context {S1 S2 : Type} (R : S1 -> S2 -> Prop) (strict : bool).
Context `{RE : Regexp} `{RR : !RegexpReplace} `{UT : UnicodeTables} `{XH : XXHash} `{IO : IntOverflow}
        `{MO : MapOrder} `{ML : MathLib}.
Variables (Timestamp : Z).
Variables (ev : Expr -> option nat -> EM S1 promql_Value) (ev' : Expr -> option nat -> EM S2 promql_Value).

Section one.
Variables (fn : Function) (args : list (Expr * option nat)).
Hypothesis N : nargs_ok fn (Z.of_nat (length args)).
Hypothesis T : forall i a, args !! i = Some a -> exists t, arg_type fn i = Some t /\ good R strict ev ev' a t.

Lemma arg_has i t : (i < length args)%nat -> arg_type fn i = Some t -> has R strict ev ev' args i t.
Proof. intros L E. split; [done|]. intros a Ha. destruct (T i a Ha) as (t' & E' & G). by simplify_eq. Qed.

(** The number of arguments of a function that is not variadic, and the bounds
    for one that is. *)
Lemma fixed_args : Variadic fn = 0 -> length args = length (ArgTypes fn).
Proof. unfold nargs_ok in N. intros V. rewrite V in N. cbn in N. lia. Qed.
Lemma variadic_args : Variadic fn <> 0 -> (length (ArgTypes fn) - 1 <= length args)%nat.
Proof. unfold nargs_ok in N. intros V. apply Z.eqb_neq in V. rewrite V in N. lia. Qed.
End one.

(** The side conditions of the lemmas on the shapes of functions. *)
Ltac solve_has T L :=
  intros; match type of T with _ => idtac end;
  (eapply arg_has; [exact T|cbn in *; lia|]);
  first [reflexivity
        | unfold arg_type; cbn [ArgTypes length]; case_match; bool_prop; [reflexivity|];
          repeat match goal with i : nat |- _ => destruct i as [|i]; try reflexivity; try lia end].

Ltac rate_arg C :=
  let S := fresh in let a := fresh in let Ha := fresh in
  intros S a Ha; specialize (C S);
  match goal with args : list (Expr * option nat) |- _ => destruct args; [done|] end;
  cbn in Ha, C; injection Ha as <-; exact C.

Lemma agree_call fn args :
  In fn (map snd functions) -> nargs_ok fn (Z.of_nat (length args)) ->
  (forall i a, args !! i = Some a -> exists t, arg_type fn i = Some t /\ good R strict ev ev' a t) ->
  (strict = true -> call_ok fn (map fst args) = true) ->
  agree R strict (typed (ReturnType fn)) (Function_Call Timestamp ev fn args) (Function_Call Timestamp ev' fn args).
Proof.
  intros I N T C. pose proof (fixed_args fn args N) as L. pose proof (variadic_args fn args N) as LV.
  cbn in I.
  repeat (destruct I as [<-|I]; [
    cbn in L, LV; try specialize (L eq_refl); try specialize (LV ltac:(done));
    unfold Function_Call; cbn [f_Name assoc calls String.eqb Ascii.eqb Bool.eqb ReturnType];
    first [ apply agree_map_vector; solve_has T L
          | apply agree_aggrOverTime; solve_has T L
          | apply agree_instantValue; solve_has T L
          | apply agree_steps; solve_has T L
          | apply agree_sort; solve_has T L
          | apply agree_date; solve_has T L
          | apply agree_clamp; solve_has T L
          | apply agree_rate; [solve_has T L|rate_arg C]
          | apply agree_absent; solve_has T L
          | apply agree_deriv; solve_has T L
          | apply agree_predict; solve_has T L
          | apply agree_histogram; solve_has T L
          | apply agree_holt_winters; solve_has T L
          | apply agree_round; solve_has T L
          | apply agree_funcScalar; solve_has T L
          | apply agree_funcVector; solve_has T L
          | by apply agree_ret
          | apply agree_label_replace; solve_has T L
          | apply agree_label_join; [solve_has T L|exact LV|solve_has T L]
          | apply agree_quantile_over_time; [destruct strict; [discriminate (C eq_refl)|done]|solve_has T L..] ] |]); done.
Qed.
End calls.

(** * Operators and aggregations *)

Section operators.
Context `{UT : UnicodeTables} `{XH : XXHash} `{IO : IntOverflow} `{MO : MapOrder} `{ML : MathLib}.
Variable strict : bool.

Local Notation pure_ok := (pure_ok strict).

(** An operator between values, not [and], [or] or [unless]. *)
Definition element_operator (op : ItemType) : Prop :=
  isOperator op = true /\ isSetOperator op = false /\ (strict = true -> regex_operator op = false).

Lemma element_cases op : element_operator op ->
  value_operator op = true \/ strict = false /\ (op = itemEQLRegex \/ op = itemNEQRegex).
Proof.
  intros (O & S & X). unfold value_operator. rewrite O, S. destruct (regex_operator op) eqn:E; [|by left].
  right. destruct strict; [by specialize (X eq_refl)|]. split; [done|]. destruct op; try discriminate E; auto.
Qed.

Lemma vectorElemBinop_pure op a b : element_operator op -> pure_ok (fun _ => True) (vectorElemBinop op a b).
Proof.
  intros [V|[NS [-> | ->]]]%element_cases; [|by right..]. by destruct (vectorElemBinop_ok op a b V) as [r ->].
Qed.

Lemma scalarBinop_pure op a b : element_operator op -> pure_ok (fun _ => True) (scalarBinop op a b).
Proof.
  intros [V|[NS [-> | ->]]]%element_cases; [|by right..]. by destruct (scalarBinop_ok op a b V) as [r ->].
Qed.

Lemma mapM_pure {A B} (f : A -> result everr B) l :
  (forall a, pure_ok (fun _ => True) (f a)) -> pure_ok (fun _ => True) (mapM_result f l).
Proof.
  intros F. induction l as [|a l IH]; cbn; [done|]. specialize (F a).
  destruct (f a); [|done]. by destruct (mapM_result f l).
Qed.

Lemma VectorscalarBinop_pure op v x swap b : element_operator op -> pure_ok (fun _ => True) (VectorscalarBinop op v x swap b).
Proof.
  intros O. unfold VectorscalarBinop.
  assert (P : pure_ok (fun _ => True) (mapM_result (scalar_elem op x swap b) v)); [|by destruct (mapM_result _ _)].
  apply mapM_pure. intros s. unfold scalar_elem. destruct (if swap then _ else _) as [lv rv].
  pose proof (vectorElemBinop_pure op lv rv O) as P. destruct (vectorElemBinop op lv rv) as [r|]; [|done].
  destruct (bool_outcome b r) as [value keep]. destruct keep; [|done]. destruct (_ || _); [|done].
  by destruct (dropMetricName_ok (Metric s)) as [m ->].
Qed.

Lemma right_sigs_pure sigf v m : pure_ok (fun _ => True) (right_sigs sigf v m).
Proof.
  revert m. induction v as [|s v IH]; intros m; cbn [right_sigs]; [done|]. destruct (m !! _); [by left|]. apply IH.
Qed.

Lemma insert_match_pure m sig metric matched : pure_ok (fun _ => True) (insert_match m sig metric matched).
Proof.
  unfold insert_match. destruct (Card m); destruct (matched !! sig); try done; try (by left);
    case_bool_decide; by left || done.
Qed.

Lemma binop_loop_pure Timestamp op m b sigf rights v matched :
  element_operator op -> pure_ok (fun _ => True) (binop_loop Timestamp op m b sigf rights v matched).
Proof.
  intros O. revert matched. induction v as [|ls v IH]; intros matched; cbn [binop_loop]; [done|].
  destruct (rights !! _) as [rs|]; [|apply IH].
  set (vv := match Card m with CardOneToMany => _ | _ => _ end). destruct vv as [vl vr].
  pose proof (vectorElemBinop_pure op vl vr O) as P. destruct (vectorElemBinop op vl vr) as [r|]; [|done].
  destruct (bool_outcome b r) as [value keep]. destruct keep; cbn [negb]; [|apply IH].
  destruct (resultMetric_ok (Metric ls) (Metric rs) op m) as [metric ->].
  pose proof (insert_match_pure m (sigf (Metric ls)) metric matched) as Q.
  destruct (insert_match _ _ _ _) as [matched'|]; [|done]. specialize (IH matched').
  by destruct (binop_loop _ _ _ _ _ _ _ matched').
Qed.

Lemma VectorBinop_pure Timestamp op l r m b :
  element_operator op -> Card m <> CardManyToMany -> pure_ok (fun _ => True) (VectorBinop Timestamp op l r (Some m) b).
Proof.
  intros O K. unfold VectorBinop. destruct (Card m) eqn:E; [| | |done];
    match goal with |- context [right_sigs ?f ?v ∅] =>
      pose proof (right_sigs_pure f v ∅) as P; destruct (right_sigs f v ∅) as [rights|]; [by apply binop_loop_pure|done] end.
Qed.

Lemma vector_operation_pure Timestamp op l r vm b :
  isOperator op = true -> (strict = true -> regex_operator op = false) ->
  (exists m, vm = Some m /\ if isSetOperator op then Card m = CardManyToMany else Card m <> CardManyToMany) ->
  pure_ok (fun _ => True) (vector_operation Timestamp op l r vm b).
Proof.
  intros O X (m & -> & K). destruct (isSetOperator op) eqn:S.
  - assert (H : op = itemLAND \/ op = itemLOR \/ op = itemLUnless) by (destruct op; try discriminate S; auto).
    unfold vector_operation, VectorAnd, VectorOr, VectorUnless, set_signature. rewrite K.
    by destruct H as [-> |[-> | ->]].
  - assert (E : vector_operation Timestamp op l r (Some m) b = VectorBinop Timestamp op l r (Some m) b)
      by (destruct op; try discriminate S; reflexivity).
    rewrite E. apply VectorBinop_pure; [by split|done].
Qed.

Lemma aggregate_pure Timestamp op grouping without k q valueLabel vec :
  isAggregator op = true -> (strict = true -> op <> itemQuantile) ->
  pure_ok (fun _ => True) (aggregate Timestamp op grouping without k q valueLabel vec).
Proof.
  intros A X. unfold aggregate. rewrite (group_loop_fold op grouping without k valueLabel A vec ∅). set (m := group_fold _ _ _ _ _).
  assert (P : pure_ok (fun _ => True) (mapM_result (fun kg : Z * groupedAggregation => group_result Timestamp op q kg.2) (map_order m)));
    [|by destruct (mapM_result _ _)].
  apply mapM_pure. intros [h g]. unfold group_result. cbn [snd].
  destruct (decide (op = itemQuantile)) as [->|NE].
  - destruct (quantile _ _ _); [done|]. right. split; [|done]. destruct strict; [by specialize (X eq_refl)|done].
  - destruct op; done.
Qed.
End operators.

(** * Evaluation *)

Section evaluation.
Context `{RE : Regexp} `{RR : !RegexpReplace} `{UT : UnicodeTables} `{XH : XXHash} `{IO : IntOverflow}
        `{MO : MapOrder} `{ML : MathLib}.

(** The selectors of an expression at a position, with their positions; those
    in the parameter of an aggregation have none. *)
Fixpoint sel_at (e : Expr) (p : option nat) : list (Expr * option nat) :=
  match e with
  | AggregateExpr _ e param _ _ => sel_at e p ++ match param with Some q => sel_at q None | None => [] end
  | BinaryExpr _ l r _ _ => sel_at l p ++ sel_at r (shift p (walked l))
  | Call _ args =>
    (fix go (args : list Expr) (p : option nat) :=
       match args with [] => [] | a :: args' => sel_at a p ++ go args' (shift p (walked a)) end) args p
  | ParenExpr e | UnaryExpr _ e => sel_at e p
  | MatrixSelector _ _ _ _ | VectorSelector _ _ _ => [(e, p)]
  | NumberLiteral _ | StringLiteral _ => []
  end.

Lemma sel_at_arg fn args p i a q :
  positions p args !! i = Some (a, q) -> forall sq, sq ∈ sel_at a q -> sq ∈ sel_at (Call fn args) p.
Proof.
  cbn [sel_at]. revert p i. induction args as [|x args IH]; intros p i H sq I; [done|]. cbn [positions] in H.
  destruct i as [|i]; cbn in H.
  - injection H as -> ->. apply elem_of_app. by left.
  - apply elem_of_app. right. by apply (IH _ i).
Qed.

Lemma positions_args p args i a q : positions p args !! i = Some (a, q) -> args !! i = Some a.
Proof.
  revert p i. induction args as [|x args IH]; intros p i H; [done|]. cbn [positions] in H.
  destruct i as [|i]; cbn in *; [by injection H as -> ->|by apply (IH _ i) in H].
Qed.

Lemma positions_length p args : length (positions p args) = length args.
Proof. revert p. induction args as [|x args IH]; intros p; cbn; [done|]. by rewrite IH. Qed.

Lemma positions_fst p args : map fst (positions p args) = args.
Proof. revert p. induction args as [|x args IH]; intros p; cbn; [done|]. by rewrite IH. Qed.

Lemma depth_arg (a : Expr) args : a ∈ args -> (depth a <= foldr (fun a n => Nat.max (depth a) n) 0 args)%nat.
Proof.
  induction args as [|x args IH]; intros I; [by apply elem_of_nil in I|]. cbn.
  apply elem_of_cons in I as [->|I]; [lia|]. specialize (IH I). lia.
Qed.

Context {S1 S2 : Type} `{SEL1 : !Selectors S1} `{SEL2 : !Selectors S2} (R : S1 -> S2 -> Prop) (strict : bool) (Timestamp : Z).

Definition selector_agrees (sq : Expr * option nat) : Prop :=
  match sq.1 with
  | VectorSelector _ Offset _ =>
    agree R strict (fun _ => True) (sel_vector Timestamp Offset sq.2) (sel_vector Timestamp Offset sq.2)
  | MatrixSelector _ Range Offset _ =>
    agree R strict nonempty (sel_matrix Timestamp Range Offset sq.2) (sel_matrix Timestamp Range Offset sq.2)
  | _ => True
  end.

Definition context_agrees : Prop :=
  forall env, agree R strict (fun _ => True) (sel_contextDone (St := S1) env) (sel_contextDone (St := S2) env).

Local Notation ev fuel := (eval (St := S1) fuel Timestamp).
Local Notation ev' fuel := (eval (St := S2) fuel Timestamp).

Lemma agree_param {A} (P : A -> Prop) (f : Expr * option nat -> EM S1 A) (f' : Expr * option nat -> EM S2 A) param q :
  param = Some q -> agree R strict P (f (q, None)) (f' (q, None)) ->
  agree R strict P (eval_param f param) (eval_param f' param).
Proof. by intros ->. Qed.

Lemma typed_vector v : typed ValueTypeVector (VVector v).
Proof. done. Qed.

Lemma typed_negate t v : operand t -> typed t v -> typed t (negate v).
Proof. intros O [E N]. destruct v; cbn in *; try done; split; auto. Qed.

Lemma binary_pure op vm b tl tr l r :
  typed tl l -> typed tr r -> operand tl -> operand tr ->
  isOperator op = true -> (strict = true -> regex_operator op = false) ->
  (if bool_decide (tl = ValueTypeVector) && bool_decide (tr = ValueTypeVector)
   then exists m, vm = Some m /\ if isSetOperator op then Card m = CardManyToMany else Card m <> CardManyToMany
   else isSetOperator op = false) ->
  pure_ok strict (typed (if bool_decide (tl = ValueTypeScalar) && bool_decide (tr = ValueTypeScalar)
                         then ValueTypeScalar else ValueTypeVector)) (binary_operation Timestamp op vm b l r).
Proof.
  intros [El _] [Er _] Ol Or O X C.
  destruct Ol as [-> | ->], Or as [-> | ->]; eval_types; (destruct l; try discriminate El); (destruct r; try discriminate Er);
    unfold binary_operation.
  - pose proof (scalarBinop_pure strict op V V0 ltac:(by split)) as P. by destruct (scalarBinop op V V0).
  - pose proof (VectorscalarBinop_pure strict op v V true b ltac:(by split)) as P. by destruct (VectorscalarBinop op v V true b).
  - pose proof (VectorscalarBinop_pure strict op v V false b ltac:(by split)) as P. by destruct (VectorscalarBinop op v V false b).
  - pose proof (vector_operation_pure strict Timestamp op v v0 vm b O X C) as P. by destruct (vector_operation _ _ _ _ _ _).
Qed.

(** The parameter of an aggregation and the aggregation itself. *)
Lemma agree_aggregation fuel op grouping without param vec :
  isAggregator op = true -> (strict = true -> op <> itemQuantile) ->
  (isAggregatorWithParam op = true -> exists q, param = Some q /\
     good R strict (ev fuel) (ev' fuel) (q, None) (if decide (op = itemCountValues) then ValueTypeString else ValueTypeScalar)) ->
  agree R strict (fun _ => True) (aggregation Timestamp (ev fuel) op grouping without param vec)
                                 (aggregation Timestamp (ev' fuel) op grouping without param vec).
Proof.
  intros A X P. unfold aggregation.
  assert (W : op = itemTopK \/ op = itemBottomK \/ op = itemQuantile -> exists q, param = Some q /\
    good R strict (ev fuel) (ev' fuel) (q, None) ValueTypeScalar).
  { intros [-> |[-> | ->]]; by apply P. }
  assert (WS : op = itemCountValues -> exists q, param = Some q /\ good R strict (ev fuel) (ev' fuel) (q, None) ValueTypeString).
  { intros ->. by apply P. }
  eapply (agree_bind R strict (fun _ => True)).
  { case_bool_decide as B1; [|case_bool_decide as B2]; cbn [orb].
    1, 2: destruct W as (q & Eq & G); [tauto|]; apply (agree_param _ _ _ _ q Eq), agree_int, G.
    by apply agree_ret. }
  intros k _. destruct (k <? 1); [by apply agree_ret|].
  eapply (agree_bind R strict (fun _ => True)).
  { case_bool_decide as B; [|by apply agree_ret].
    destruct W as (q & Eq & G); [tauto|]. apply (agree_param _ _ _ _ q Eq), agree_float, G. }
  intros q _. eapply (agree_bind R strict (fun _ => True)).
  { case_bool_decide as B; [|by apply agree_ret].
    destruct (WS B) as (q' & Eq & G). apply (agree_param _ _ _ _ q' Eq), agree_string, G. }
  intros valueLabel _. by apply agree_lift, aggregate_pure.
Qed.

Lemma agree_binary fuel op l r tl tr vm b p p' :
  operand tl -> operand tr -> good R strict (ev fuel) (ev' fuel) (l, p) tl -> good R strict (ev fuel) (ev' fuel) (r, p') tr ->
  isOperator op = true -> (strict = true -> regex_operator op = false) ->
  (if bool_decide (tl = ValueTypeVector) && bool_decide (tr = ValueTypeVector)
   then exists m, vm = Some m /\ if isSetOperator op then Card m = CardManyToMany else Card m <> CardManyToMany
   else isSetOperator op = false) ->
  agree R strict (typed (if bool_decide (tl = ValueTypeScalar) && bool_decide (tr = ValueTypeScalar)
                         then ValueTypeScalar else ValueTypeVector))
    (lhs ← evalOneOf (ev fuel) (l, p) ValueTypeScalar ValueTypeVector;
     rhs ← evalOneOf (ev fuel) (r, p') ValueTypeScalar ValueTypeVector;
     lift (binary_operation Timestamp op vm b lhs rhs))
    (lhs ← evalOneOf (ev' fuel) (l, p) ValueTypeScalar ValueTypeVector;
     rhs ← evalOneOf (ev' fuel) (r, p') ValueTypeScalar ValueTypeVector;
     lift (binary_operation Timestamp op vm b lhs rhs)).
Proof.
  intros Ol Or Gl Gr O X C. eapply (agree_bind R strict (typed tl)); [by apply agree_operand|]. intros lv Lv.
  eapply (agree_bind R strict (typed tr)); [by apply agree_operand|]. intros rv Rv. by apply agree_lift, binary_pure.
Qed.

Ltac binary_case tl tr :=
  match goal with
  | IHe : forall x tx q, _, SA : forall sq, sq ∈ sel_at ?l _ ++ _ -> _, EV : strict = true -> _ && _ = true
    |- agree _ _ _ (_ ← evalOneOf (ev ?fuel) _ _ _; _ ← evalOneOf _ (?r, _) _ _; lift (binary_operation _ ?op ?vm ?b _ _)) _ =>
    apply (agree_binary fuel op l r tl tr vm b); try done; try (by left); try (by right);
    try (apply IHe; [done|tauto|intros E; specialize (EV E); rewrite !andb_true_iff in EV; tauto|lia
                    |intros; apply SA, elem_of_app; auto]);
    try (intros E; specialize (EV E); rewrite !andb_true_iff, negb_true_iff in EV; tauto); eval_types; try done
  end.

Lemma eval_agree e t :
  has_type e t -> well_formed e -> (strict = true -> evaluable e = true) -> context_agrees ->
  forall fuel p, (depth e <= fuel)%nat -> (forall sq, sq ∈ sel_at e p -> selector_agrees sq) ->
  agree R strict (typed t) (ev fuel e p) (ev' fuel e p).
Proof.
  intros HT W EV CA fuel. revert e t HT W EV. induction fuel as [|fuel IH]; intros e t HT W EV p D SA.
  { destruct e; cbn in D; lia. }
  cbn [eval]. eapply (agree_bind R strict (fun _ => True)); [apply CA|]. intros _ _.
  assert (IHe : forall x tx q, has_type x tx -> well_formed x -> (strict = true -> evaluable x = true) ->
    (depth x <= fuel)%nat -> (forall sq, sq ∈ sel_at x q -> selector_agrees sq) -> good R strict (ev fuel) (ev' fuel) (x, q) tx).
  { intros. by apply IH. }
  inversion HT as [| | | |? x tx Tx|op x tx O Tx Ox|op l r vm b O S NL Tl Tr|op l r vm b O S NL Tl Tr|op l r vm b O S NL Tl Tr
    |op l r vm b O S Tl Tr|fn args N TA|op x g w A P Tx|op x y g w A P Tx Ty]; subst;
    cbn [depth] in D; cbn [well_formed] in W; cbn [evaluable] in EV; cbn [sel_at] in SA.
  - by apply agree_ret.
  - by apply agree_ret.
  - eapply (agree_bind R strict (fun _ => True)); [exact (SA (_, p) (list_elem_of_here _ _))|]. intros v _. by apply agree_ret.
  - eapply (agree_bind R strict nonempty); [exact (SA (_, p) (list_elem_of_here _ _))|]. intros v N. by apply agree_ret.
  - apply IHe; auto; lia.
  - destruct W as (_ & _ & Wx). eapply (agree_bind R strict (typed t)).
    { apply agree_operand; [done|]. apply IHe; auto; lia. }
    intros v V. apply agree_ret. case_bool_decide; [|done]. by apply typed_negate.
  - binary_case ValueTypeScalar ValueTypeScalar.
  - binary_case ValueTypeVector ValueTypeScalar.
  - binary_case ValueTypeScalar ValueTypeVector.
  - binary_case ValueTypeVector ValueTypeVector.
    destruct W as (_ & M & _). pose proof (has_type_unique _ _ Tl). pose proof (has_type_unique _ _ Tr).
    unfold matching_ok in M. destruct vm as [m|].
    + exists m. split; [done|]. destruct (isSetOperator op) eqn:EO; [|by apply M].
      destruct (S EO) as (m' & [= ->] & K). exact K.
    + exfalso. unfold vectors in M. rewrite <- H, <- H0 in M. by eval_types.
  - destruct W as [I Wa]. apply agree_call; [done|by rewrite positions_length| |].
    + intros i [a q] H. pose proof (positions_args _ _ _ _ _ H) as Ha. destruct (TA i a Ha) as (t & Et & Ta).
      exists t. split; [done|]. pose proof (list_elem_of_lookup_2 _ _ _ Ha) as Ia. apply IHe; [done|..].
      * clear -Wa Ia. induction args as [|x args IHa]; [by apply elem_of_nil in Ia|]. cbn in Wa. destruct Wa.
        apply elem_of_cons in Ia as [->|Ia]; auto.
      * intros E. specialize (EV E). apply andb_true_iff in EV as [_ EV]. rewrite forallb_forall in EV.
        by apply EV, list_elem_of_In.
      * pose proof (depth_arg a args Ia). lia.
      * intros sq Sq. apply SA. by apply (sel_at_arg fn args p i a q).
    + intros E. specialize (EV E). rewrite positions_fst. by apply andb_true_iff in EV as [EV _].
  - destruct W as (_ & Wx & _). eapply (agree_bind R strict (fun _ => True)).
    { apply agree_vector, IHe; auto; [|lia|].
      - intros E. specialize (EV E). rewrite !andb_true_iff in EV. tauto.
      - intros. apply SA, elem_of_app. auto. }
    intros vec _. eapply (agree_bind R strict (fun _ => True)).
    { apply agree_aggregation; [done| |by rewrite P].
      intros E ->. specialize (EV E). by cbn in EV. }
    intros v _. by apply agree_ret.
  - destruct W as (_ & Wx & _ & Wy). eapply (agree_bind R strict (fun _ => True)).
    { apply agree_vector, IHe; auto; [|lia|].
      - intros E. specialize (EV E). rewrite !andb_true_iff in EV. tauto.
      - intros. apply SA, elem_of_app. auto. }
    intros vec _. eapply (agree_bind R strict (fun _ => True)).
    { apply agree_aggregation; [done| |].
      - intros E ->. specialize (EV E). by cbn in EV.
      - intros _. exists y. split; [done|]. apply IHe; auto; [|lia|].
        + intros E. specialize (EV E). rewrite !andb_true_iff in EV. tauto.
        + intros. apply SA, elem_of_app. auto. }
    intros v _. by apply agree_ret.
Qed.
End evaluation.

(** * A range in parentheses *)

Section parentheses.
Context `{RE : Regexp} `{RR : !RegexpReplace} `{UT : UnicodeTables} `{XH : XXHash} `{IO : IntOverflow}
        `{MO : MapOrder} `{ML : MathLib} {St : Type} `{SEL : !Selectors St}.

(** [rate], [increase] and [delta] take their argument for a range selector
    without looking: the type checker accepts a range vector in parentheses,
    whose evaluation then ends in a run-time panic, reported as an unexpected
    error. *)
Theorem rate_of_parentheses (fn : Function) (x : Expr) (fuel : nat) (Timestamp : Z) (p : option nat) (st st1 : St)
  (F : fn ∈ omap getFunction ["rate"; "increase"; "delta"]) (X : has_type x ValueTypeMatrix)
  (C : sel_contextDone env st = Ok (tt, st1)) :
  has_type (Call fn [ParenExpr x]) ValueTypeVector /\
  eval (S fuel) Timestamp (Call fn [ParenExpr x]) p st = Err EvRuntime /\
  recover EvRuntime = Some "unexpected error".
Proof.
  cbn in F. rewrite !elem_of_cons, elem_of_nil in F.
  assert (H : fn = mkFunction "rate" [ValueTypeMatrix] 0 ValueTypeVector \/ fn = mkFunction "increase" [ValueTypeMatrix] 0 ValueTypeVector
           \/ fn = mkFunction "delta" [ValueTypeMatrix] 0 ValueTypeVector) by tauto.
  split; [|split; [|done]].
  - replace ValueTypeVector with (ReturnType fn) by (by destruct H as [-> |[-> | ->]]). apply T_Call.
    + by destruct H as [-> |[-> | ->]].
    + intros i a Ha. destruct i as [|i]; [|done]. injection Ha as <-. exists ValueTypeMatrix.
      split; [by destruct H as [-> |[-> | ->]]|by constructor].
  - cbn [eval]. unfold mbind, EM_bind. rewrite C. by destruct H as [-> |[-> | ->]].
Qed.

(** A unary minus negates every sample of a vector and nothing else of it,
    but a scalar operand comes out unchanged. *)
Theorem unary_minus (x : Expr) (fuel : nat) (Timestamp : Z) (p : option nat) (st st1 st2 : St) (val : promql_Value)
  (C : sel_contextDone env st = Ok (tt, st1)) (E : eval fuel Timestamp x p st1 = Ok (val, st2)) :
  match val with
  | VScalar T V => eval (S fuel) Timestamp (UnaryExpr itemSUB x) p st = Ok (VScalar T V, st2)
  | VVector vec =>
    exists res, eval (S fuel) Timestamp (UnaryExpr itemSUB x) p st = Ok (VVector res, st2) /\
      Forall2 (fun s s' => Metric s' = Metric s /\ s_T s' = s_T s /\ s_V s' = fneg (s_V s)) vec res
  | _ => exists msg, eval (S fuel) Timestamp (UnaryExpr itemSUB x) p st = Err (EvType msg)
  end.
Proof.
  assert (U : eval (S fuel) Timestamp (UnaryExpr itemSUB x) p st =
    match evalOneOf (eval fuel Timestamp) (x, p) ValueTypeScalar ValueTypeVector st1 with
    | Ok (v, st2) => Ok (negate v, st2) | Err e => Err e end).
  { cbn [eval]. unfold mbind, EM_bind. by rewrite C. }
  unfold evalOneOf, mbind, EM_bind in U. cbn [fst snd] in U. rewrite E in U.
  destruct val; (eexists; exact U) || (cbn in U; try exact U).
  eexists. split; [exact U|]. apply Forall2_fmap_r, Forall_Forall2_diag, Forall_forall. by intros s _.
Qed.
End parentheses.

#[local] Existing Instances plain_tables plain_hash plain_math truncate_overflow tree_order no_regexp.
#[local] Instance no_replace : RegexpReplace :=
  {| FindStringSubmatchIndex _ _ := None; ExpandString _ _ _ _ := ""; ReplaceAllString _ s _ := s |}.
#[local] Instance no_series : Selectors unit :=
  {| sel_contextDone _ _ := Ok (tt, tt); sel_vector _ _ _ _ := Ok ([], tt); sel_matrix _ _ _ _ _ := Ok ([], tt) |}.

Definition foo_5m_range : Expr := MatrixSelector "foo" 300000000000 0 [mkMatcher MatchEqual MetricName "foo" None].
Definition rate_call (x : Expr) : Expr := Call (mkFunction "rate" [ValueTypeMatrix] 0 ValueTypeVector) [x].

Lemma rate_of_parentheses_witness :
  ParseExpr "rate((foo[5m]))" = Ok (rate_call (ParenExpr foo_5m_range)) /\
  eval 3 0 (rate_call (ParenExpr foo_5m_range)) None tt = Err EvRuntime.
Proof.
  split; [vm_compute; reflexivity|].
  apply (rate_of_parentheses (mkFunction "rate" [ValueTypeMatrix] 0 ValueTypeVector) foo_5m_range 2 0 None tt tt);
    [left|constructor|reflexivity].
Defined.

Lemma unary_minus_witness :
  ParseExpr "-(1)" = Ok (UnaryExpr itemSUB (ParenExpr (NumberLiteral one))) /\
  eval 3 0 (UnaryExpr itemSUB (ParenExpr (NumberLiteral one))) None tt = Ok (VScalar 0 one, tt).
Proof.
  split; [vm_compute; reflexivity|].
  exact (unary_minus (ParenExpr (NumberLiteral one)) 2 0 None tt tt tt (VScalar 0 one) eq_refl eq_refl).
Defined.
