(* ===== verification/Prepare.v ===== *)
(** The preparation of a query (promql/engine.go, [populateIterators]): the
    selectors it reaches, the time range it asks the storage for, and the error
    it reports. *)

From S2P Require Import Prelude GoString GoFmt Float Labels Lexer Ast Value Buffer Evaluator Functions Engine EngineFacts.

Section walk.
Context `{RE : Regexp}.

(** The selectors a walk visits, with the path to each. *)
Fixpoint walk_paths (e : Expr) (path : list Node) : list (Expr * list Node) :=
  match e with
  | AggregateExpr _ x _ _ _ | ParenExpr x | UnaryExpr _ x => walk_paths x (path ++ [NExpr e])
  | BinaryExpr _ l r _ _ => walk_paths l (path ++ [NExpr e]) ++ walk_paths r (path ++ [NExpr e])
  | Call _ args => flat_map (fun a => walk_paths a ((path ++ [NExpr e]) ++ [NExpressions args])) args
  | MatrixSelector _ _ _ _ | VectorSelector _ _ _ => [(e, path)]
  | NumberLiteral _ | StringLiteral _ => []
  end.

Definition is_selector (e : Expr) : bool :=
  match e with MatrixSelector _ _ _ _ | VectorSelector _ _ _ => true | _ => false end.

(** A visitor that only changes its state at selectors folds over them. *)
Lemma walk_fold {A} (f : option Node -> list Node -> A -> bool * A) (g : A -> Expr * list Node -> A) e :
  (forall a, snd (f None [] a) = a) ->
  (forall es path a, f (Some (NExpressions es)) path a = (true, a)) ->
  (forall x path a, is_selector x = false -> f (Some (NExpr x)) path a = (true, a)) ->
  (forall x path a, is_selector x = true -> snd (f (Some (NExpr x)) path a) = g a (x, path)) ->
  forall path a, Walk_expr f e path a = foldl g a (walk_paths e path).
Proof.
  intros FN FE FX FS.
  assert (LEAF : forall x path a, is_selector x = true -> visit f (NExpr x) path (fun _ a => a) a = g a (x, path)).
  { intros x path a S. unfold visit. pose proof (FS x path a S) as E. destruct (f _ path a) as [[] a1]; cbn in E; subst; [|done].
    by rewrite FN. }
  induction e as [op e p g0 w IH _|op l r vm b IHl IHr|fn args IH| | |e IH| |op e IH|] using Expr_nested_ind;
    intros path a; cbn [Walk_expr walk_paths]; try (by apply LEAF);
    unfold visit; rewrite FX by done; rewrite ?FN; try done.
  - by rewrite IHr, IHl, foldl_app.
  - rewrite FE, FN. generalize ((path ++ [NExpr (Call fn args)]) ++ [NExpressions args]). intros path'.
    revert a. induction IH as [|x args Hx _ IHargs]; intros a; [done|]. cbn. rewrite foldl_app, Hx. apply IHargs.
Qed.

Definition walk_selectors (e : Expr) : list Expr := map fst (walk_paths e []).

Lemma walk_paths_any e path path' : map fst (walk_paths e path) = map fst (walk_paths e path').
Proof.
  revert path path'. induction e as [op e p g0 w IH _|op l r vm b IHl IHr|fn args IH| | |e IH| |op e IH|] using Expr_nested_ind;
    intros path path'; cbn [walk_paths]; try done; try (by apply IH).
  - rewrite !map_app. f_equal; [apply IHl|apply IHr].
  - generalize ((path ++ [NExpr (Call fn args)]) ++ [NExpressions args]), ((path' ++ [NExpr (Call fn args)]) ++ [NExpressions args]).
    intros q q'. induction IH as [|x args Hx _ IHargs]; [done|]. cbn. rewrite !map_app. by rewrite IHargs, (Hx q q').
Qed.

Lemma walk_selectors_length e : length (walk_selectors e) = walked e.
Proof.
  unfold walk_selectors. rewrite length_map. generalize (@nil Node).
  induction e as [op e p g0 w IH _|op l r vm b IHl IHr|fn args IH| | |e IH| |op e IH|] using Expr_nested_ind;
    intros path; cbn [walk_paths walked]; try done.
  - by rewrite length_app, IHl, IHr.
  - generalize ((path ++ [NExpr (Call fn args)]) ++ [NExpressions args]). intros q.
    induction IH as [|x args Hx _ IHargs]; [done|]. cbn. by rewrite length_app, Hx, IHargs.
Qed.

(** A selector of the tree is either in the parameter of an aggregation, and
    has no position, or is the one the walk visits at its position. *)
Lemma sel_at_walk e k s q :
  (s, q) ∈ sel_at e (Some k) -> q = None \/ exists j, q = Some (j + k)%nat /\ walk_selectors e !! j = Some s.
Proof.
  assert (NONE : forall e s q, (s, q) ∈ sel_at e None -> q = None).
  { clear. intros e s q. induction e as [op e p g0 w IH IHp|op l r vm b IHl IHr|fn args IH| | |e IH| |op e IH|] using Expr_nested_ind;
      cbn [sel_at]; rewrite ?elem_of_app, ?list_elem_of_singleton, ?elem_of_nil; try done; try naive_solver.
    - intros [I|I]; [auto|]. destruct p as [p|]; [by apply (IHp p)|by apply elem_of_nil in I].
    - induction IH as [|x args Hx _ IHargs]; [by rewrite elem_of_nil|]. rewrite elem_of_app. naive_solver. }
  unfold walk_selectors. generalize (@nil Node). revert k s q.
  induction e as [op e p g0 w IH IHp|op l r vm b IHl IHr|fn args IH| | |e IH| |op e IH|] using Expr_nested_ind;
    intros k s q path; cbn [sel_at walk_paths].
  - rewrite elem_of_app. intros [I|I]; [by apply IH|]. destruct p as [p|]; [left; by apply (NONE p s)|by apply elem_of_nil in I].
  - rewrite elem_of_app. intros [I|I].
    + destruct (IHl k s q (path ++ [NExpr (BinaryExpr op l r vm b)]) I) as [|(j & -> & J)]; [auto|]. right. exists j.
      split; [done|]. rewrite map_app. by apply lookup_app_l_Some.
    + destruct (IHr (walked l + k)%nat s q (path ++ [NExpr (BinaryExpr op l r vm b)]) I) as [|(j & -> & J)]; [auto|].
      right. exists (walked l + j)%nat. split; [f_equal; lia|]. rewrite map_app, <- walk_selectors_length. unfold walk_selectors.
      rewrite (walk_paths_any l [] (path ++ [NExpr (BinaryExpr op l r vm b)])). by rewrite lookup_app_r, Nat.add_comm, Nat.add_sub by lia.
  - generalize ((path ++ [NExpr (Call fn args)]) ++ [NExpressions args]). intros path'. revert k.
    induction IH as [|x args Hx _ IHargs]; intros k; [by rewrite elem_of_nil|]. rewrite elem_of_app. cbn [flat_map]. rewrite map_app.
    intros [I|I].
    + destruct (Hx k s q path' I) as [|(j & -> & J)]; [auto|]. right. exists j. split; [done|]. by apply lookup_app_l_Some.
    + destruct (IHargs (walked x + k)%nat I) as [|(j & -> & J)]; [auto|].
      right. exists (walked x + j)%nat. split; [f_equal; lia|]. rewrite <- walk_selectors_length. unfold walk_selectors.
      rewrite (walk_paths_any x [] path'). by rewrite lookup_app_r, Nat.add_comm, Nat.add_sub by lia.
  - rewrite list_elem_of_singleton. intros [= -> ->]. right. by exists 0%nat.
  - by rewrite elem_of_nil.
  - by apply IH.
  - by rewrite elem_of_nil.
  - by apply IH.
  - rewrite list_elem_of_singleton. intros [= -> ->]. right. by exists 0%nat.
Qed.
End walk.

(** * The time range *)

Section offsets.
Context `{RE : Regexp}.

(** How far back a selector looks, in nanoseconds. *)
Definition sel_offset (s : Expr) : Z :=
  match s with MatrixSelector _ _ Offset _ | VectorSelector _ Offset _ => Offset | _ => 0 end.
Definition sel_window (s : Expr) : Z :=
  match s with MatrixSelector _ Range _ _ => Range | _ => LookbackDelta end.

Definition wider (m : Z) (s : Expr) : Z :=
  let m := if m <? sel_window s then sel_window s else m in
  if m <? i64 (sel_offset s + sel_window s) then i64 (sel_offset s + sel_window s) else m.

Lemma max_offset_fold e : max_offset e = foldl wider 0 (walk_selectors e).
Proof.
  unfold max_offset, Inspect, Walk, walk_selectors.
  rewrite (walk_fold offset_visitor (fun m s => wider m s.1)); [by rewrite foldl_map|done|done|..].
  - intros x path a. by destruct x.
  - intros x path a. by destruct x.
Qed.

Lemma foldl_wider ss m :
  m <= foldl wider m ss /\ forall s, s ∈ ss -> sel_window s <= foldl wider m ss /\ i64 (sel_offset s + sel_window s) <= foldl wider m ss.
Proof.
  assert (W : forall m s, m <= wider m s /\ sel_window s <= wider m s /\ i64 (sel_offset s + sel_window s) <= wider m s).
  { intros m' s. unfold wider. set (w := i64 _).
    destruct (Z.ltb_spec m' (sel_window s)); match goal with |- context [?a <? w] => destruct (Z.ltb_spec a w) end; lia. }
  revert m. induction ss as [|x ss IH]; intros m; cbn [foldl].
  - split; [lia|]. intros s I. by apply elem_of_nil in I.
  - destruct (IH (wider m x)) as [H1 H2]. pose proof (W m x). split; [lia|].
    intros s I. apply elem_of_cons in I as [->|I]; [lia|]. by apply H2.
Qed.

(** The storage is asked for a time range that contains every sample a
    selector can use: at each evaluation time of a query the look-back window
    or the range of each selector that the walk reaches lies between the two
    bounds passed to [Querier]. *)
Theorem querier_covers (e s : Expr) (Start End_ ts : Z)
  (S : s ∈ walk_selectors e) (T : 0 <= Start <= ts) (TE : ts <= End_ <= max_int64)
  (O : 0 <= sel_offset s) (W : 0 <= sel_window s) (B : sel_offset s + sel_window s <= max_int64) (M : max_offset e <= max_int64) :
  let x := timeMilliseconds ts - durationMilliseconds (sel_offset s) in
  FromTime (Start - max_offset e) <= x - durationMilliseconds (sel_window s) /\ x <= FromTime End_.
Proof.
  assert (H : sel_offset s + sel_window s <= max_offset e).
  { rewrite max_offset_fold. destruct (foldl_wider (walk_selectors e) 0) as [_ F]. destruct (F s S) as [_ F2].
    rewrite i64_id in F2; [done|]. unfold min_int64. lia. }
  assert (HM : 0 <= max_offset e) by lia. cbv zeta. unfold FromTime, timeMilliseconds, durationMilliseconds.
  set (mo := max_offset e) in *. set (a := sel_offset s) in *. set (b := sel_window s) in *. clearbody mo a b.
  unfold max_int64 in *. rewrite (i64_id ts) by (unfold min_int64, max_int64; lia).
  rewrite !Z.quot_div_nonneg by lia.
  assert (D1 : - 2 ^ 63 <= (Start - mo) / 1000000 <= 2 ^ 63 - 1) by (split; [apply Z.div_le_lower_bound|apply Z.div_le_upper_bound]; lia).
  assert (D2 : - 2 ^ 63 <= End_ / 1000000 <= 2 ^ 63 - 1) by (split; [apply Z.div_le_lower_bound|apply Z.div_le_upper_bound]; lia).
  rewrite !i64_id by (unfold min_int64, max_int64; lia).
  split.
  - assert (G : (Start - mo) / 1000000 <= (ts - a - b) / 1000000) by (apply Z.div_le_mono; lia).
    clear -G H O W T. Z.to_euclidean_division_equations. lia.
  - assert (G : ts / 1000000 <= End_ / 1000000) by (apply Z.div_le_mono; lia).
    pose proof (Z.div_pos a 1000000 O ltac:(lia)). lia.
Qed.
End offsets.

(** * The iterators, and the error *)

Section populate.
Context `{RE : Regexp} `{UT : UnicodeTables} {Q SS It : Type} `{QS : !QuerierSelect Q SS} `{SX : !SeriesSet SS It}
        `{SI : SeriesIterator It} {D : Type} `{QB : !Queryable D Q}.
Variables (fuel : nat) (querier : Q) (Interval : Z).

Definition sel_matchers (s : Expr) : list Matcher :=
  match s with MatrixSelector _ _ _ ms | VectorSelector _ _ ms => ms | _ => [] end.

(** What the second walk does at a selector. *)
Definition selection (sp : Expr * list Node) : option string * list (Labels * BufferedSeriesIterator It) :=
  select_iterators fuel querier (mkSelectParams (Z.quot Interval 1000000) (extractFuncFromPath sp.2)) (sel_matchers sp.1)
    (durationMilliseconds (sel_window sp.1)).

Lemma select_walk e :
  Inspect (select_visitor fuel querier Interval) (NExpr e) (None, []) =
  (default None (last (map (fun sp => fst (selection sp)) (walk_paths e []))), map (fun sp => snd (selection sp)) (walk_paths e [])).
Proof.
  unfold Inspect, Walk.
  rewrite (walk_fold (select_visitor fuel querier Interval) (fun st sp => (fst (selection sp), snd st ++ [snd (selection sp)]))).
  - assert (G : forall l a, foldl (fun st sp => (fst (selection sp), snd st ++ [snd (selection sp)])) a l =
      (default a.1 (last (map (fun sp => fst (selection sp)) l)), a.2 ++ map (fun sp => snd (selection sp)) l)).
    { induction l as [|sp l IH]; intros [err its]; cbn [foldl map]; [by rewrite app_nil_r|].
      rewrite IH. cbn [fst snd]. rewrite <- app_assoc. f_equal. destruct l as [|sp' l]; [done|].
      cbn [map]. rewrite !last_cons. by destruct (last (map _ l)). }
    by rewrite G.
  - done.
  - done.
  - intros x path a. by destruct x.
  - intros x path a X. unfold selection. destruct x; try discriminate; cbn [select_visitor sel_matchers sel_window fst snd];
      by destruct (select_iterators _ _ _ _ _).
Qed.

(** Preparation gives every selector of the walk its iterators, in order;
    its error is the one the last selector leaves in the variable the walk
    shares, so that a failure of an earlier selector is lost, and that selector
    evaluates as if it had no series. *)
Theorem populate_spec (q : D) (e : Expr) (Start End_ : Z) (QB' : qb_Querier q (FromTime (Start - max_offset e)) (FromTime End_) = Ok querier) :
  populateIterators fuel q e Start End_ Interval =
  match last (map (fun sp => fst (selection sp)) (walk_paths e [])) with
  | Some (Some err) => Err err
  | _ => Ok (map (fun sp => snd (selection sp)) (walk_paths e []))
  end.
Proof.
  unfold populateIterators. rewrite QB', select_walk. by destruct (last _) as [[err|]|].
Qed.
End populate.

(** * Witnesses *)

Section witnesses.
#[local] Instance any_regexp : Regexp := {| regexp := unit; regexp_Compile _ := Ok tt; MatchString _ _ := true |}.
#[local] Instance any_tables : UnicodeTables := {| is_print_high _ := true |}.

Definition foo_5m : Expr := VectorSelector "foo" 300000000000 [mkMatcher MatchEqual "__name__" "foo" None].
Definition bar_rate : Expr := MatrixSelector "bar" 600000000000 0 [mkMatcher MatchEqual "__name__" "bar" None].
Definition foo_bar : Expr := BinaryExpr itemADD foo_5m (Call (mkFunction "sum_over_time" [ValueTypeMatrix] 0 ValueTypeVector) [bar_rate]) None false.

Lemma querier_covers_witness :
  bar_rate ∈ walk_selectors foo_bar /\
  FromTime (1000000000000 - max_offset foo_bar) <= timeMilliseconds 2000000000000 - durationMilliseconds 0 - durationMilliseconds 600000000000.
Proof.
  assert (I : bar_rate ∈ walk_selectors foo_bar) by (vm_compute; right; left). split; [exact I|].
  apply (querier_covers foo_bar bar_rate 1000000000000 2000000000000 2000000000000 I); vm_compute; done.
Defined.

(** A storage that fails for the metric [foo] and has no series otherwise. *)
#[local] Instance half_select : QuerierSelect unit unit :=
  {| q_Select _ _ ms := match ms with m :: _ => if (m_Value m =? "foo")%string then Err "no foo" else Ok tt | [] => Ok tt end |}.
#[local] Instance no_series : SeriesSet unit list_iterator :=
  {| ss_Next s := (false, s); ss_At _ := ([], mkListIterator [] 0); ss_Err _ := None |}.
#[local] Instance half_storage : Queryable unit unit := {| qb_Querier _ _ _ := Ok tt |}.

Lemma populate_spec_witness :
  populateIterators (It := list_iterator) 1 tt foo_bar 0 0 0 = Ok [[]; []] /\
  populateIterators (It := list_iterator) 1 tt foo_5m 0 0 0 = Err "no foo".
Proof.
  split.
  - rewrite (populate_spec (D := unit) 1 tt 0 tt foo_bar 0 0) by reflexivity. vm_compute. reflexivity.
  - rewrite (populate_spec (D := unit) 1 tt 0 tt foo_5m 0 0) by reflexivity. vm_compute. reflexivity.
Defined.
End witnesses.
