(* ===== verification/QueryFacts.v ===== *)
(** Queries against their meaning: evaluation with buffered iterators agrees
    with evaluation against the samples themselves, at times that do not
    decrease, and a range query is the instant query at each of its steps. *)

From S2P Require Import Prelude GoString GoFmt Float GoMath Labels LabelsFacts Lexer Ast Quantile Value Relabel.
From S2P Require Import Parser TypeFacts ParseSpec Buffer Window Evaluator SelectFacts Binop BinopFacts GroupBy Aggregate AggregateFacts.
From S2P Require Import RangeFuncs Functions Engine Agree EngineFacts Prepare.
From Stdlib Require Import Sorting.Sorted.

Local Notation ms d := (durationMilliseconds d).

(** * The reference: selectors over samples *)

(** What a selector returns for the series [data] at a time. *)
Definition ref_vector (data : list (Labels * list sample)) (T Offset : Z) : Vector :=
  omap (fun ls => (fun s => mkPSample ls.1 (t s) (v s)) <$> instant_value (ms LookbackDelta) (T - ms Offset) ls.2) data.
Definition ref_matrix (data : list (Labels * list sample)) (T Range Offset : Z) : Matrix :=
  omap (fun ls => match range_points (T - ms Offset - ms Range) (T - ms Offset) ls.2 with
                  | [] => None
                  | ps => Some (mkSeries ls.1 ps)
                  end) data.

(** The data of a selector by its position. *)
Definition at_position (data : list (list (Labels * list sample))) (p : option nat) : list (Labels * list sample) :=
  match p with Some k => default [] (data !! k) | None => [] end.

Definition ref_Selectors (ctx : nat -> option ctx_err) (data : list (list (Labels * list sample))) : Selectors nat := {|
  sel_contextDone env n := match ctx n with Some e => Err (EvContext (ctx_message env e)) | None => Ok (tt, S n) end;
  sel_vector T Offset p n := Ok (ref_vector (at_position data p) T Offset, n);
  sel_matrix T Range Offset p n := Ok (ref_matrix (at_position data p) T Range Offset, n)
|}.

Lemma ref_matrix_nonempty data T Range Offset : nonempty (ref_matrix data T Range Offset).
Proof.
  unfold nonempty, ref_matrix. apply Forall_forall. intros s S. apply list_elem_of_omap in S as (ls & _ & E).
  destruct (range_points _ _ _) eqn:ER; [done|]. by injection E as <-.
Qed.

(** * The result of a range query *)

(** The labelled points a value contributes at a step. *)
Definition labelled (t : Z) (v : promql_Value) : list (Labels * Point) :=
  match v with
  | VScalar _ V => [([], mkPoint t V)]
  | VVector vec => map (fun s => (Metric s, mkPoint t (s_V s))) vec
  | _ => []
  end.

(** The points with given labels, in the order of the steps. *)
Definition points_of (pts : list (Labels * Point)) (m : Labels) : list Point :=
  map snd (List.filter (fun x => bool_decide (x.1 = m)) pts).

(** The series of the labelled points of all steps. *)
Definition series_of (pts : list (Labels * Point)) : Matrix :=
  map (fun m => mkSeries m (points_of pts m)) (remove_dups (map fst pts)).

Section points.
Variable key : Labels -> Z.

Definition add_points (m : gmap Z Series) (pts : list (Labels * Point)) : gmap Z Series :=
  foldl (fun m x => add_point (key x.1) x.1 x.2 m) m pts.

Local Notation new_series := (fun x : Labels * Point => mkSeries x.1 [x.2]).
Local Notation extend := (fun ss (x : Labels * Point) => mkSeries (s_Metric ss) (Points ss ++ [x.2])).

Lemma add_points_fold pts m : add_points m pts = group_fold new_series extend (fun x => key x.1) m pts.
Proof.
  revert m. induction pts as [|x pts IH]; intros m; [done|]. unfold add_points, group_fold in *. cbn [foldl]. rewrite IH. f_equal.
  unfold add_point, insert_group. by destruct (m !! key x.1) as [[l ps]|].
Qed.

Lemma add_points_series `{MO : MapOrder} pts :
  (forall a b, a ∈ map fst pts -> b ∈ map fst pts -> key a = key b -> a = b) ->
  map snd (map_order (add_points ∅ pts)) ≡ₚ series_of pts.
Proof.
  intros I. rewrite add_points_fold, (group_perm new_series extend fst key pts I).
  unfold series_of. assert (G : forall k, k ∈ remove_dups (map fst pts) ->
    group_of new_series extend (members fst k pts) = Some (mkSeries k (points_of pts k))).
  { intros k K. apply elem_of_remove_dups, (group_of_Some new_series extend) in K as [g K]. unfold points_of.
    change (List.filter _ pts) with (members fst k pts). destruct (members fst k pts) as [|x xs] eqn:M; [done|].
    assert (X : x ∈ members fst k pts) by (rewrite M; left). apply members_class in X as [_ <-]. cbn. f_equal.
    assert (F : forall ss, foldl extend ss xs = mkSeries (s_Metric ss) (Points ss ++ map snd xs)).
    { clear. induction xs as [|y xs IH]; intros [l ps]; cbn; [by rewrite app_nil_r|]. rewrite IH. cbn. by rewrite <- app_assoc. }
    by rewrite F. }
  revert G. generalize (remove_dups (map fst pts)). intros ks G. induction ks as [|k ks IH]; [done|]. cbn [omap list_omap map].
  rewrite G by left. f_equiv. apply IH. intros. apply G. by right.
Qed.
End points.

Lemma sort_matrix_sorted m : sort_matrix m ≡ₚ m /\ StronglySorted (fun a b => Compare (s_Metric a) (s_Metric b) <= 0) (sort_matrix m).
Proof.
  split; [apply sort_Sort_perm|]. apply sort_Sort_sorted.
  - intros a b c. apply Compare_le_trans.
  - intros a b L. apply Z.ltb_lt in L. lia.
  - intros a b L. apply Z.ltb_ge in L. rewrite Compare_opp. lia.
Qed.

(** * Instant evaluation against the samples *)

Definition never (ctx : nat -> option ctx_err) : Prop := forall n, ctx n = None.

Section meaning.
Context `{RE : Regexp} `{RR : !RegexpReplace} `{UT : UnicodeTables} `{XH : XXHash} `{IO : IntOverflow}
        `{MO : MapOrder} `{ML : MathLib}.
Variables (data : list (list (Labels * list sample))) (e : Expr).

(** The value of an expression at a time. *)
Definition at_time (T : Z) : result everr promql_Value :=
  match Eval (SEL := ref_Selectors (fun _ => None) data) T e 0%nat with Ok (v, _) => Ok v | Err err => Err err end.

Variables (ty : ValueType) (HT : has_type e ty) (W : well_formed e).
Variables (ctx : nat -> option ctx_err) (N : never ctx).

#[local] Instance uninterrupted : Selectors nat := ref_Selectors ctx data.

(** A context that does not interrupt does not matter. *)
Lemma at_time_any T n :
  match Eval T e n, at_time T with
  | Ok (v, _), Ok v' => v = v' /\ typed ty v
  | Err err, Err err' => err = err'
  | _, _ => False
  end.
Proof.
  unfold at_time.
  assert (A : agree (fun _ _ => True) false (typed ty) (Eval (SEL := uninterrupted) T e)
                    (Eval (SEL := ref_Selectors (fun _ => None) data) T e)).
  { apply (eval_agree (SEL2 := ref_Selectors (fun _ => None) data) (fun _ _ => True) false T e ty HT W ltac:(done)); [|done|].
    - intros env s s' _. cbn. by rewrite N.
    - intros [[] q] _; try done; intros s s' _; cbn; split; try done. split; [apply ref_matrix_nonempty|done]. }
  specialize (A n 0%nat I). unfold outcome in A.
  destruct (Eval (SEL := uninterrupted) T e n) as [[v n']|err]; destruct (Eval T e 0%nat) as [[v' n2]|err']; try done.
  - by destruct A as (-> & V & _).
  - by destruct A.
Qed.

(** The times of the steps from [ts] on. *)
Fixpoint step_times (fuel : nat) (ts End_ Interval : Z) : list Z :=
  match fuel with
  | O => []
  | S fuel => if End_ <? ts then [] else ts :: step_times fuel (ts + Interval) End_ Interval
  end.

Definition key_of (m : Labels) : Z := if bool_decide (ty = ValueTypeScalar) then 0 else Hash m.

Hypothesis TY : ty = ValueTypeVector \/ ty = ValueTypeScalar.

Lemma add_step_points t v m : typed ty v -> add_step t v m = Ok (add_points key_of m (labelled t v)).
Proof.
  intros [E _]. unfold key_of. destruct v; cbn in *; try (destruct TY as [-> | ->]; discriminate); subst; eval_types; [done|].
  f_equal. unfold add_points, labelled. by rewrite foldl_map.
Qed.

(** The labelled points of the steps, given their values. *)
Definition all_points (times : list Z) (vals : list promql_Value) : list (Labels * Point) :=
  concat (zip_with (fun ts v => labelled (timeMilliseconds ts) v) times vals).

Lemma range_loop_meaning fuel ts End_ Interval m n :
  (End_ < ts + Z.of_nat fuel * Interval) ->
  match mapM_result (fun ts => at_time (timeMilliseconds ts)) (step_times fuel ts End_ Interval) with
  | Err err => range_loop fuel e ts End_ Interval m n = Err err
  | Ok vals => exists n', range_loop fuel e ts End_ Interval m n =
                 Ok (add_points key_of m (all_points (step_times fuel ts End_ Interval) vals), n')
  end.
Proof.
  revert ts m n. induction fuel as [|fuel IH]; intros ts m n F; cbn [range_loop step_times].
  { destruct (Z.ltb_spec End_ ts); [|lia]. cbn. by exists n. }
  destruct (Z.ltb_spec End_ ts); [by exists n|]. cbn [mapM_result].
  unfold mbind, EM_bind. cbn [sel_contextDone uninterrupted ref_Selectors]. rewrite N.
  pose proof (at_time_any (timeMilliseconds ts) (S n)) as A.
  destruct (Eval _ _ _) as [[v n2]|err], (at_time _) as [v'|err']; try done; [|by subst].
  destruct A as [<- V]. unfold lift. rewrite add_step_points by done.
  specialize (IH (ts + Interval) (add_points key_of m (labelled (timeMilliseconds ts) v)) n2 ltac:(lia)).
  destruct (mapM_result _ _) as [vals|err]; [|exact IH]. destruct IH as [n' IH]. exists n'. rewrite IH.
  do 2 f_equal. unfold all_points, add_points. cbn [zip_with concat]. by rewrite foldl_app.
Qed.

Lemma key_of_injective times vals :
  collision_free (map fst (all_points times vals)) -> Forall (typed ty) vals ->
  forall a b, a ∈ map fst (all_points times vals) -> b ∈ map fst (all_points times vals) -> key_of a = key_of b -> a = b.
Proof.
  intros C V a b A B. unfold key_of. case_bool_decide as S; [|by apply C].
  intros _. assert (G : forall c, c ∈ map fst (all_points times vals) -> c = []); [|by rewrite (G a A), (G b B)].
  clear -V S. unfold all_points. intros c I. revert times I. induction V as [|v vals [Tv _] _ IH]; intros times I.
  - destruct times; by apply elem_of_nil in I.
  - destruct times as [|ts times]; [by apply elem_of_nil in I|]. cbn [zip_with concat] in I.
    rewrite map_app, elem_of_app in I. destruct I as [I|I]; [|by apply (IH times)].
    destruct v; subst ty; try discriminate. by apply list_elem_of_singleton in I.
Qed.
End meaning.

(** The times of the steps of a query. *)
Definition steps (Start End_ Interval : Z) : list Z :=
  map (fun i => Start + Z.of_nat i * Interval) (List.seq 0 (S (Z.to_nat ((End_ - Start) / Interval)))).

Lemma step_times_seq Interval End_ k fuel ts :
  0 < Interval -> ts <= End_ -> k = Z.to_nat ((End_ - ts) / Interval) -> (k < fuel)%nat ->
  step_times fuel ts End_ Interval = map (fun i => ts + Z.of_nat i * Interval) (List.seq 0 (S k)).
Proof.
  intros IP. revert fuel ts. induction k as [|k IH]; intros fuel ts L K F; (destruct fuel as [|fuel]; [lia|]); cbn [step_times];
    rewrite (proj2 (Z.ltb_ge End_ ts)) by lia.
  - pose proof (Z.mul_succ_div_gt (End_ - ts) Interval IP). pose proof (Z.div_pos (End_ - ts) Interval ltac:(lia) IP).
    assert (D : (End_ - ts) / Interval = 0) by lia. rewrite D in *.
    destruct fuel as [|fuel]; cbn [step_times]; [|rewrite (proj2 (Z.ltb_lt End_ (ts + Interval))) by lia];
      cbn; by rewrite Z.add_0_r.
  - assert (D : (End_ - (ts + Interval)) / Interval = (End_ - ts) / Interval - 1).
    { replace (End_ - (ts + Interval)) with (End_ - ts + (-1) * Interval) by lia. rewrite Z.div_add by lia. lia. }
    pose proof (Z.div_pos (End_ - ts) Interval ltac:(lia) IP).
    assert (L' : ts + Interval <= End_).
    { pose proof (Z.mul_div_le (End_ - ts) Interval IP). nia. }
    rewrite (IH fuel (ts + Interval) L' ltac:(lia) ltac:(lia)).
    change (List.seq 0 (S (S k))) with (0%nat :: List.seq 1 (S k)). rewrite map_cons, <- seq_shift, map_map.
    f_equal; [lia|]. apply map_ext. intros. lia.
Qed.

Lemma step_times_steps Start End_ Interval : 0 < Interval -> Start <= End_ ->
  step_times (S (Z.to_nat (Z.quot (End_ - Start) Interval))) Start End_ Interval = steps Start End_ Interval.
Proof.
  intros IP L. unfold steps. apply (step_times_seq Interval End_ _ _ Start IP L eq_refl).
  rewrite Z.quot_div_nonneg by lia. lia.
Qed.

Section refinement.
Context `{RE : Regexp} `{RR : !RegexpReplace} `{UT : UnicodeTables} `{XH : XXHash} `{IO : IntOverflow}
        `{MO : MapOrder} `{ML : MathLib}.
Context `{SI : SeriesIterator It} `{IE : !IteratorErr It}.
Context (positioned : list sample -> It -> nat -> Prop) (exhausted : list sample -> It -> Prop)
        `{SL : !forall xs, SeriesIteratorLaws It xs (positioned xs)}
        `{SE : !forall xs, SeriesIteratorEnd It xs (positioned xs) (exhausted xs)}.
Hypothesis no_error : forall xs it, exhausted xs it -> it_Err it = None.

Variables (seek_fuel : nat) (ctx : nat -> option ctx_err) (data : list (list (Labels * list sample))) (e : Expr).

#[local] Instance buffered : Selectors (evstate It) := buffered_Selectors ctx seek_fuel.
#[local] Instance reference : Selectors nat := ref_Selectors ctx data.

(** The iterators of every selector stand for its data and are fit for the
    times at which the selector looks when the query is evaluated from [T] on. *)
Definition fits (T : Z) (st : evstate It) (n : nat) : Prop :=
  ticks st = n /\
  forall k s, walk_selectors e !! k = Some s ->
    exists l ds lo, store st !! k = Some l /\ data !! k = Some ds /\ lo <= T - ms (sel_offset s) /\
      Forall2 (series_ready positioned exhausted seek_fuel (ms (sel_window s)) lo) l ds.

(** No time of the query overflows. *)
Definition time_ok (T : Z) : Prop :=
  forall s, s ∈ walk_selectors e ->
    0 <= ms (sel_window s) /\ min_int64 < T - ms (sel_offset s) - ms (sel_window s) /\ T - ms (sel_offset s) <= max_int64.

Lemma fits_mono T T' st n : T <= T' -> fits T st n -> fits T' st n.
Proof.
  intros L [E F]. split; [done|]. intros k s K. destruct (F k s K) as (l & ds & lo & H1 & H2 & H3 & H4).
  exists l, ds, lo. split; [done|]. split; [done|]. split; [lia|done].
Qed.

Lemma fits_insert T st n j s l' ds :
  fits T st n -> walk_selectors e !! j = Some s -> data !! j = Some ds ->
  Forall2 (series_ready positioned exhausted seek_fuel (ms (sel_window s)) (T - ms (sel_offset s))) l' ds ->
  fits T (mkEv (ticks st) (<[j := l']> (store st))) n.
Proof.
  intros [E F] J D N. split; [done|]. intros k s' K. cbn [store]. destruct (decide (k = j)) as [->|NE].
  - assert (s' = s) as -> by congruence. destruct (F j s J) as (l & ds' & lo & H1 & _). exists l', ds, (T - ms (sel_offset s)).
    rewrite list_lookup_insert_eq by (by eapply lookup_lt_Some). split; [done|]. split; [done|]. split; [lia|done].
  - destruct (F k s' K) as (l & ds' & lo & H). exists l, ds', lo. by rewrite list_lookup_insert_ne.
Qed.

Lemma context_refines T strict : context_agrees (SEL1 := buffered) (SEL2 := reference) (fits T) strict.
Proof.
  intros env st n [<- F]. cbn. unfold contextDone. destruct (ctx (ticks st)); [split; [done|by left]|].
  split; [done|]. split; [done|]. by split.
Qed.

Lemma selector_refines T strict s q :
  time_ok T -> q = None \/ (exists j, q = Some j /\ walk_selectors e !! j = Some s) ->
  selector_agrees (SEL1 := buffered) (SEL2 := reference) (fits T) strict T (s, q).
Proof.
  intros TO [-> |(j & -> & J)].
  - destruct s; try done; intros st n F; cbn; (split; [done|split; [first [done | apply ref_matrix_nonempty | constructor]|done]]).
  - pose proof (TO s (list_elem_of_lookup_2 _ _ _ J)) as (D & X1 & X2).
    destruct s; try done; intros st n F; pose proof F as [_ G]; destruct (G j _ J) as (l & ds & lo & ES & ED & LO & RD);
      cbn [sel_window sel_offset] in *;
      cbn [sel_matrix sel_vector buffered buffered_Selectors reference ref_Selectors at_position fst snd]; rewrite ED; cbn [default].
    + destruct (matrixSelector_spec positioned exhausted no_error seek_fuel T Range Offset lo j l ds st D ES RD LO X1 X2) as (l' & -> & RD').
      split; [done|]. split; [apply ref_matrix_nonempty|]. by apply (fits_insert T st n j _ l' ds F J ED).
    + destruct (vectorSelector_spec positioned exhausted no_error seek_fuel T Offset lo j l ds st ES RD LO X1 X2) as (l' & -> & RD').
      split; [done|]. split; [done|]. by apply (fits_insert T st n j _ l' ds F J ED).
Qed.

Section typed.
Variables (ty : ValueType).
Hypotheses (HT : has_type e ty) (W : well_formed e).

Lemma Eval_fits (T : Z) (st : evstate It) (n : nat) (TO : time_ok T) (F : fits T st n) :
  outcome (evaluable e) (fits T) (typed ty) (Eval (SEL := buffered) T e st) (Eval (SEL := reference) T e n).
Proof.
  apply (eval_agree (fits T) (evaluable e) T e ty HT W ltac:(done) (context_refines T _) (depth e) (Some 0%nat) ltac:(lia)); [|done].
  intros [s q] I. apply selector_refines; [done|]. destruct (sel_at_walk e 0 s q I) as [|(j & -> & J)]; [by left|].
  right. exists j. by rewrite Nat.add_0_r.
Qed.

(** C2: the evaluation of a well-typed expression ends, with a value of its
    type, or with one of the errors a query is meant to end with if the
    expression is [evaluable]; and what the buffered iterators give is what the
    samples say, at any time not before the last one. *)
Theorem eval_refines (T : Z) (st : evstate It) (n : nat) (TO : time_ok T) (F : fits T st n) :
  outcome (evaluable e) (fits T) (typed ty) (Eval (SEL := buffered) T e st) (Eval (SEL := reference) T e n).
Proof. by apply Eval_fits. Qed.

(** * Range evaluation refines too *)

Hypothesis TY : ty = ValueTypeVector \/ ty = ValueTypeScalar.
Variables (End_ Interval : Z).
Hypotheses (IP : 0 < Interval) (EM_ : End_ <= max_int64).

Lemma tms_mono a b : min_int64 <= a -> a <= b -> b <= max_int64 -> timeMilliseconds a <= timeMilliseconds b.
Proof. intros. unfold timeMilliseconds. rewrite !i64_id by lia. apply Z.quot_le_mono; lia. Qed.

Lemma add_step_ok t v m : typed ty v -> exists m', add_step t v m = Ok m'.
Proof. intros [E _]. destruct v; cbn; eauto; destruct TY as [-> | ->]; discriminate. Qed.

(** Afterwards the contexts have been looked at equally often. *)
Definition same_ticks (st : evstate It) (n : nat) : Prop := ticks st = n.

Lemma context_same env st n : ticks st = n ->
  outcome (evaluable e) same_ticks (fun _ => True) (sel_contextDone (Selectors := buffered) env st) (sel_contextDone (Selectors := reference) env n).
Proof. intros <-. cbn. unfold contextDone. destruct (ctx (ticks st)); [split; [done|by left]|done]. Qed.

Lemma range_loop_refines fuel ts m st n T0 :
  min_int64 <= ts -> (End_ < ts + Z.of_nat fuel * Interval) -> (ts <= End_ -> T0 <= timeMilliseconds ts) -> fits T0 st n ->
  (forall ts', ts <= ts' <= End_ -> time_ok (timeMilliseconds ts')) ->
  outcome (evaluable e) same_ticks (fun _ => True)
    (range_loop (SEL := buffered) fuel e ts End_ Interval m st) (range_loop (SEL := reference) fuel e ts End_ Interval m n).
Proof.
  revert ts m st n T0. induction fuel as [|fuel IH]; intros ts m st n T0 LT FU L0 F TO; cbn [range_loop];
    destruct (Z.ltb_spec End_ ts); try (by destruct F as [<- _]); [lia|].
  unfold mbind, EM_bind.
  pose proof (context_refines T0 (evaluable e) "range evaluation" st n F) as C. unfold outcome in C.
  destruct (sel_contextDone _ st) as [[u st1]|e1], (sel_contextDone _ n) as [[u' n1]|e1']; try done.
  destruct C as (_ & _ & F1). apply (fits_mono T0 (timeMilliseconds ts)) in F1; [|auto].
  pose proof (Eval_fits (timeMilliseconds ts) st1 n1 (TO ts ltac:(lia)) F1) as EV. unfold outcome in EV.
  destruct (Eval (SEL := buffered) _ _ _) as [[v st2]|e2], (Eval (SEL := reference) _ _ _) as [[v' n2]|e2']; try done.
  destruct EV as (<- & TV & F2). unfold lift. destruct (add_step_ok (timeMilliseconds ts) v m TV) as [m' ->].
  apply (IH _ _ _ _ (timeMilliseconds ts)); [lia|lia| |done|].
  - intros L. apply tms_mono; lia.
  - intros ts' R. apply TO. lia.
Qed.

Lemma exec_range_refines Start st n :
  min_int64 <= Start -> fits (timeMilliseconds Start) st n ->
  (forall ts, Start <= ts <= End_ -> time_ok (timeMilliseconds ts)) ->
  outcome (evaluable e) same_ticks (fun _ => True)
    (exec_prepared (SEL := buffered) e Start End_ Interval st) (exec_prepared (SEL := reference) e Start End_ Interval n).
Proof.
  intros LS F TO. unfold exec_prepared. rewrite (proj2 (Z.eqb_neq Interval 0)), andb_false_r by lia.
  unfold mbind, EM_bind. set (N := S _).
  assert (FU : End_ < Start + Z.of_nat N * Interval).
  { unfold N. destruct (Z.lt_ge_cases End_ Start); [nia|]. rewrite Z.quot_div_nonneg by lia.
    pose proof (Z.mul_succ_div_gt (End_ - Start) Interval IP). rewrite Nat2Z.inj_succ, Z2Nat.id by (apply Z.div_pos; lia). lia. }
  pose proof (range_loop_refines N Start ∅ st n _ LS FU ltac:(done) F TO) as R. unfold outcome in R.
  destruct (range_loop (SEL := buffered) _ _ _ _ _ _ _) as [[m st1]|e1], (range_loop (SEL := reference) _ _ _ _ _ _ _) as [[m' n1]|e1']; try done.
  destruct R as (<- & _ & T1).
  pose proof (context_same env st1 n1 T1) as C. unfold outcome in C.
  destruct (sel_contextDone _ st1) as [[u st2]|e2], (sel_contextDone _ n1) as [[u' n2]|e2']; try done.
  destruct C as (_ & _ & T2). pose proof (context_same env st2 n2 T2) as C. unfold outcome in C.
  destruct (sel_contextDone _ st2) as [[u2 st3]|e3], (sel_contextDone _ n2) as [[u2' n3]|e3']; try done.
  by destruct C as (_ & _ & T3).
Qed.

(** On iterators fit for its start, and as long as the context does not
    interrupt it, a prepared range query fails with the error of the first step
    whose evaluation against the samples fails; otherwise it collects the points
    of the steps by their labels. *)
Lemma exec_range_meaning (Start : Z) (st : evstate It) (n : nat)
  (N : never ctx) (LS : min_int64 <= Start <= End_) (F : fits (timeMilliseconds Start) st n)
  (TO : forall ts, Start <= ts <= End_ -> time_ok (timeMilliseconds ts)) :
  let times := steps Start End_ Interval in
  match mapM_result (fun ts => at_time data e (timeMilliseconds ts)) times with
  | Err err => exec_prepared (SEL := buffered) e Start End_ Interval st = Err err /\ allowed (evaluable e) err
  | Ok vals =>
    collision_free (map fst (all_points times vals)) ->
    exists mat st', exec_prepared (SEL := buffered) e Start End_ Interval st = Ok (VMatrix mat, st') /\
      mat ≡ₚ series_of (all_points times vals) /\
      StronglySorted (fun a b => Compare (s_Metric a) (s_Metric b) <= 0) mat
  end.
Proof.
  cbv zeta. rewrite <- (step_times_steps Start End_ Interval IP) by lia.
  set (fuel := S (Z.to_nat (Z.quot (End_ - Start) Interval))).
  pose proof (exec_range_refines Start st n ltac:(lia) F TO) as R. unfold outcome in R.
  assert (FU : End_ < Start + Z.of_nat fuel * Interval).
  { unfold fuel. rewrite Z.quot_div_nonneg by lia. pose proof (Z.mul_succ_div_gt (End_ - Start) Interval IP).
    rewrite Nat2Z.inj_succ, Z2Nat.id by (apply Z.div_pos; lia). lia. }
  pose proof (range_loop_meaning data e ty HT W ctx N TY fuel Start End_ Interval ∅ n FU) as M.
  assert (ER : exec_prepared (SEL := reference) e Start End_ Interval n =
    match range_loop (SEL := uninterrupted data ctx) fuel e Start End_ Interval ∅ n with
    | Ok (m, n') => Ok (VMatrix (sort_matrix (map snd (map_order m))), S (S n'))
    | Err err => Err err
    end).
  { unfold exec_prepared. rewrite (proj2 (Z.eqb_neq Interval 0)), andb_false_r by lia. cbv zeta. fold fuel.
    unfold mbind, EM_bind, mret, EM_ret. change reference with (uninterrupted data ctx).
    destruct (range_loop _ _ _ _ _ _ _) as [[m n']|]; [|done].
    cbn [sel_contextDone uninterrupted ref_Selectors]. by rewrite !N. }
  rewrite ER in R. clear ER.
  assert (TV : forall ts v, at_time data e ts = Ok v -> typed ty v).
  { intros ts v E. pose proof (at_time_any data e ty HT W ctx N ts 0%nat) as A. rewrite E in A.
    destruct (Eval _ _ _) as [[v' n']|]; [by destruct A as [<- V]|done]. }
  destruct (mapM_result _ (step_times fuel Start End_ Interval)) as [vals|err] eqn:EV.
  - intros C. destruct M as [n' M]. rewrite M in R.
    destruct (exec_prepared (SEL := buffered) _ _ _ _ _) as [[v st']|err]; [|done]. destruct R as (-> & _ & _).
    eexists _, st'. split; [done|]. destruct (sort_matrix_sorted (map snd (map_order
      (add_points (key_of ty) ∅ (all_points (step_times fuel Start End_ Interval) vals))))) as [P S].
    split; [|done]. rewrite P. apply add_points_series, key_of_injective; [done|].
    clear -EV TV. revert vals EV. induction (step_times fuel Start End_ Interval) as [|ts times IH]; intros vals EV; cbn in EV.
    + injection EV as <-. constructor.
    + destruct (at_time data e (timeMilliseconds ts)) as [v|] eqn:E; [|done]. destruct (mapM_result _ times) as [vs|]; [|done].
      injection EV as <-. constructor; [by eapply TV|]. by apply IH.
  - rewrite M in R. destruct (exec_prepared (SEL := buffered) _ _ _ _ _) as [[v st']|err']; [done|]. by destruct R as [-> A].
Qed.

Lemma exec_instant_meaning (Start : Z) (st : evstate It) (n : nat)
  (N : never ctx) (F : fits (timeMilliseconds Start) st n) (TO : time_ok (timeMilliseconds Start)) :
  match at_time data e (timeMilliseconds Start) with
  | Err err => exec_prepared (SEL := buffered) e Start Start 0 st = Err err /\ allowed (evaluable e) err
  | Ok v => typed ty v /\ exists st', exec_prepared (SEL := buffered) e Start Start 0 st = Ok (set_time (timeMilliseconds Start) v, st')
  end.
Proof.
  pose proof (Eval_fits _ st n TO F) as R. unfold outcome in R.
  pose proof (at_time_any data e ty HT W ctx N (timeMilliseconds Start) n) as A.
  unfold exec_prepared. rewrite Z.eqb_refl. cbn [andb Z.eqb]. cbv zeta. unfold mbind, EM_bind, mret, EM_ret.
  unfold uninterrupted in A. unfold reference in R.
  destruct (Eval (SEL := buffered) _ _ _) as [[v st']|err], (Eval _ _ n) as [[v' n']|err'];
    destruct (at_time _ _ _) as [w|w]; try done.
  - destruct R as (-> & V & _), A as [<- _]. split; [done|]. by exists st'.
  - destruct R as [-> L]. by subst.
Qed.
End typed.
End refinement.

(** * From the text of a query to its result *)

Section execution.
Context `{RE : Regexp} `{RR : !RegexpReplace} `{UT : UnicodeTables} `{XH : XXHash} `{IO : IntOverflow}
        `{MO : MapOrder} `{ML : MathLib}.
Context `{SI : SeriesIterator It} `{IE : !IteratorErr It}.
Context (positioned : list sample -> It -> nat -> Prop) (exhausted : list sample -> It -> Prop)
        `{SL : !forall xs, SeriesIteratorLaws It xs (positioned xs)}
        `{SE : !forall xs, SeriesIteratorEnd It xs (positioned xs) (exhausted xs)}.
Hypothesis no_error : forall xs it, exhausted xs it -> it_Err it = None.
Context {Q SS D : Type} `{QS : !QuerierSelect Q SS} `{SX : !SeriesSet SS It} `{QB : !Queryable D Q}.

Variables (fuel seek_fuel : nat) (ctx : nat -> option ctx_err).

(** The storage answers the queries of an expression's selectors with the
    series [data], through iterators that have not been read. *)
Record answers (querier : Q) (e : Expr) (data : list (list (Labels * list sample))) : Prop := {
  answers_length : length data = length (walk_selectors e);
  answers_select k s ds params : walk_selectors e !! k = Some s -> data !! k = Some ds ->
    exists set its, q_Select querier params (sel_matchers s) = Ok set /\ expandSeriesSet fuel set = (its, None) /\
      Forall2 (fun it ls => it.1 = ls.1 /\ (length ls.2 <= seek_fuel)%nat /\ valid_series (ms (sel_window s)) ls.2 /\
        unread ls.2 (positioned ls.2) (exhausted ls.2) (ms (sel_window s)) (NewBuffer it.2 (ms (sel_window s)))) its ds
}.

Lemma answers_populate querier q e data Start End_ Interval T n :
  qb_Querier q (FromTime (Start - max_offset e)) (FromTime End_) = Ok querier -> answers querier e data ->
  exists its, populateIterators fuel q e Start End_ Interval = Ok its /\
    fits positioned exhausted seek_fuel data e T (mkEv n its) n.
Proof.
  intros EQ [AL AS]. unfold populateIterators. rewrite EQ, select_walk.
  assert (SEL : forall k sp, walk_paths e [] !! k = Some sp -> exists ds its,
    data !! k = Some ds /\ selection fuel querier Interval sp = (None, its) /\
    Forall2 (series_ready positioned exhausted seek_fuel (ms (sel_window sp.1)) (T - ms (sel_offset sp.1))) its ds).
  { intros k [s path] K. assert (KS : walk_selectors e !! k = Some s).
    { unfold walk_selectors. by rewrite (list_lookup_fmap fst), K. }
    destruct (lookup_lt_is_Some_2 data k) as [ds ED]; [rewrite AL; by eapply lookup_lt_Some|].
    destruct (AS k s ds (mkSelectParams (Z.quot Interval 1000000) (extractFuncFromPath path)) KS ED) as (set & its & E1 & E2 & F).
    exists ds, (map (fun x => (x.1, NewBuffer x.2 (ms (sel_window s)))) its). split; [done|]. split.
    { unfold selection, select_iterators. cbn [fst snd]. by rewrite E1, E2. }
    apply Forall2_fmap_l. eapply Forall2_impl; [exact F|]. intros [l it] ls (E & L & V & U).
    split; [done|]. split; [done|]. split; [done|]. by left. }
  assert (LAST : default None (last (map (fun sp => fst (selection fuel querier Interval sp)) (walk_paths e []))) = None).
  { assert (A : Forall (fun o => o = None) (map (fun sp => fst (selection fuel querier Interval sp)) (walk_paths e []))).
    { apply Forall_fmap, Forall_lookup. intros k sp K. destruct (SEL k sp K) as (ds & its & _ & E & _). cbn. by rewrite E. }
    destruct (last _) as [o|] eqn:L; [|done]. cbn. rewrite Forall_forall in A. apply A. by apply last_Some_elem_of. }
  rewrite LAST. eexists. split; [done|]. split; [done|]. cbn [store]. intros k s K.
  unfold walk_selectors in K. rewrite (list_lookup_fmap fst) in K. apply fmap_Some in K as (sp & K & ->).
  destruct (SEL k sp K) as (ds & its & E1 & E2 & F). exists its, ds, (T - ms (sel_offset sp.1)).
  rewrite (list_lookup_fmap (fun sp => snd (selection fuel querier Interval sp))), K. cbn. rewrite E2.
  split; [done|]. split; [done|]. split; [lia|done].
Qed.

Lemma allowed_recover strict err : allowed strict err -> is_Some (recover err).
Proof. intros [Hq|[_ Hq]]; destruct err; try done; cbn; eauto. Qed.

(** C1: a range query is the instant query at each of its steps.  Parsed,
    prepared against a storage that answers its selectors and not interrupted,
    it always returns: the message of the error of the first step whose
    evaluation against the samples fails, or else a matrix, sorted by labels,
    that has one series for each set of labels the values of the steps show,
    made of the points with these labels in the order of the steps. *)
Theorem Exec_range (qs : string) (s : query) (d : D) (querier : Q) (data : list (list (Labels * list sample)))
  (Start End_ Interval : Z)
  (EQ : NewRangeQuery qs Start End_ Interval = Ok s) (N : never ctx)
  (IP : 0 < Interval) (LS : min_int64 <= Start <= End_) (LE : End_ <= max_int64)
  (EB : qb_Querier d (FromTime (Start - max_offset (q_expr s))) (FromTime End_) = Ok querier)
  (AN : answers querier (q_expr s) data)
  (TO : forall ts, Start <= ts <= End_ -> time_ok (q_expr s) (timeMilliseconds ts)) :
  let times := steps Start End_ Interval in
  match mapM_result (fun ts => at_time data (q_expr s) (timeMilliseconds ts)) times with
  | Err err => exists msg, recover err = Some msg /\ exec fuel seek_fuel ctx d s = Some (mkResult (Some msg) None)
  | Ok vals =>
    collision_free (map fst (all_points times vals)) ->
    exists mat, exec fuel seek_fuel ctx d s = Some (mkResult None (Some (VMatrix mat))) /\
      mat ≡ₚ series_of (all_points times vals) /\
      StronglySorted (fun a b => Compare (s_Metric a) (s_Metric b) <= 0) mat
  end.
Proof.
  unfold NewRangeQuery in EQ. destruct (ParseExpr qs) as [e|perr] eqn:EP; [|done].
  destruct (_ && _) eqn:TYB; [done|]. injection EQ as <-. cbn [q_expr] in *.
  destruct (ParseExpr_well_formed qs e EP) as [W HT].
  assert (TY : Type_ e = ValueTypeVector \/ Type_ e = ValueTypeScalar).
  { apply andb_false_iff in TYB as [H|H]; apply negb_false_iff, bool_decide_eq_true in H; auto. }
  destruct (answers_populate querier d e data Start End_ Interval (timeMilliseconds Start) 1 EB AN) as (its & EI & F).
  pose proof (exec_range_meaning positioned exhausted no_error seek_fuel ctx data e (Type_ e) HT W TY End_ Interval IP LE
    Start (mkEv 1 its) 1 N LS F TO) as M. cbv zeta in M |- *.
  unfold exec, contextDone. cbn [ticks q_expr q_Start q_End q_Interval]. rewrite N, EI. cbn [ticks].
  unfold buffered in M. destruct (mapM_result _ _) as [vals|err].
  - intros C. destruct (M C) as (mat & st' & -> & P & S). by exists mat.
  - destruct M as [-> A]. destruct (allowed_recover _ _ A) as [msg E]. exists msg. cbn. by rewrite E.
Qed.

(** An instant query returns the value of its expression against the
    samples, with the time of the query on every sample, or the message of the
    error its evaluation ends with. *)
Theorem Exec_instant (qs : string) (s : query) (d : D) (querier : Q) (data : list (list (Labels * list sample))) (ts : Z)
  (EQ : NewInstantQuery qs ts = Ok s) (N : never ctx)
  (EB : qb_Querier d (FromTime (ts - max_offset (q_expr s))) (FromTime ts) = Ok querier)
  (AN : answers querier (q_expr s) data) (TO : time_ok (q_expr s) (timeMilliseconds ts)) :
  match at_time data (q_expr s) (timeMilliseconds ts) with
  | Err err => exists msg, recover err = Some msg /\ exec fuel seek_fuel ctx d s = Some (mkResult (Some msg) None)
  | Ok v => Value_Type v = Type_ (q_expr s) /\
            exec fuel seek_fuel ctx d s = Some (mkResult None (Some (set_time (timeMilliseconds ts) v)))
  end.
Proof.
  unfold NewInstantQuery in EQ. destruct (ParseExpr qs) as [e|perr] eqn:EP; [|done]. injection EQ as <-. cbn [q_expr] in *.
  destruct (ParseExpr_well_formed qs e EP) as [W HT].
  destruct (answers_populate querier d e data ts ts 0 (timeMilliseconds ts) 1 EB AN) as (its & EI & F).
  pose proof (exec_instant_meaning positioned exhausted no_error seek_fuel ctx data e (Type_ e) HT W
    ts (mkEv 1 its) 1 N F TO) as M.
  unfold exec, contextDone. cbn [ticks q_expr q_Start q_End q_Interval]. rewrite N, EI. cbn [ticks].
  unfold buffered in M. destruct (at_time _ _ _) as [v|err].
  - destruct M as ([E _] & st' & ->). done.
  - destruct M as [-> A]. destruct (allowed_recover _ _ A) as [msg E]. exists msg. cbn. by rewrite E.
Qed.
End execution.

(** * Witnesses *)

#[local] Existing Instances plain_tables plain_hash plain_math truncate_overflow tree_order no_regexp.
#[local] Instance no_replace : RegexpReplace :=
  {| FindStringSubmatchIndex _ _ := None; ExpandString _ _ _ _ := ""; ReplaceAllString _ s _ := s |}.

(** A storage that answers every selector with the two series of
    [select_data]. *)
Definition list_set : Type := option (Labels * list_iterator) * list (Labels * list_iterator).
#[local] Instance list_select : QuerierSelect unit list_set :=
  {| q_Select _ _ _ := Ok (None, map (fun ls => (ls.1, mkListIterator ls.2 0)) select_data) |}.
#[local] Instance list_SeriesSet : SeriesSet list_set list_iterator := {|
  ss_Next s := match s.2 with x :: r => (true, (Some x, r)) | [] => (false, s) end;
  ss_At s := default ([], mkListIterator [] 0) s.1;
  ss_Err _ := None
|}.
#[local] Instance list_storage : Queryable unit unit := {| qb_Querier _ _ _ := Ok tt |}.

Definition no_interruption (n : nat) : option ctx_err := None.

Definition twice_up : Expr :=
  BinaryExpr itemMUL (VectorSelector "up" 0 [mkMatcher MatchEqual MetricName "up" None]) (NumberLiteral (of_Z 2)) None false.
Definition range_of_up : query := mkQuery twice_up 2000000000 4000000000 1000000000.

Lemma parse_twice_up : ParseExpr "up * 2" = Ok twice_up.
Proof. vm_compute. reflexivity. Qed.

Lemma list_answers : answers list_positioned list_exhausted 3 3 tt twice_up [select_data].
Proof.
  split; [reflexivity|]. intros k s ds params K D.
  assert (k = O) as -> by (apply lookup_lt_Some in D; cbn in D; lia). injection K as <-. injection D as <-.
  exists (None, map (fun ls => (ls.1, mkListIterator ls.2 0)) select_data), (map (fun ls => (ls.1, mkListIterator ls.2 0)) select_data).
  split; [reflexivity|]. split; [reflexivity|].
  apply Forall2_fmap_l, Forall_Forall2_diag, Forall_forall. intros ls I. split; [done|].
  split; [|split; [apply select_valid; [vm_compute; split; discriminate|done]|apply list_unread]].
  apply elem_of_cons in I as [->|I]; [cbn; lia|]. apply list_elem_of_singleton in I as ->. cbn. lia.
Qed.

Lemma twice_up_times ts : 0 <= ts <= 4000000000 -> time_ok twice_up (timeMilliseconds ts).
Proof.
  intros R s S. change (walk_selectors twice_up) with [VectorSelector "up" 0 [mkMatcher MatchEqual MetricName "up" None]] in S.
  apply list_elem_of_singleton in S as ->. cbn [sel_window sel_offset].
  change (ms LookbackDelta) with 300000. change (ms 0) with 0.
  assert (B : 0 <= timeMilliseconds ts <= 4000).
  { unfold timeMilliseconds. rewrite i64_id by (unfold min_int64, max_int64; lia). rewrite Z.quot_div_nonneg by lia.
    split; [apply Z.div_pos; lia|apply Z.div_le_upper_bound; lia]. }
  unfold min_int64, max_int64. lia.
Qed.

Lemma Exec_range_witness :
  exists mat, exec 3 3 no_interruption tt range_of_up = Some (mkResult None (Some (VMatrix mat))) /\
    mat ≡ₚ [mkSeries [mkLabel "i" "a"] [mkPoint 2000 (of_Z 4); mkPoint 3000 (of_Z 4); mkPoint 4000 (of_Z 4)];
            mkSeries [mkLabel "i" "b"] [mkPoint 2000 (of_Z 14)]].
Proof.
  assert (E : NewRangeQuery "up * 2" 2000000000 4000000000 1000000000 = Ok range_of_up).
  { unfold NewRangeQuery. rewrite parse_twice_up. vm_compute. reflexivity. }
  pose proof (Exec_range list_positioned list_exhausted list_no_error 3 3 no_interruption "up * 2" range_of_up tt tt [select_data]
    2000000000 4000000000 1000000000 E (fun _ => eq_refl) ltac:(lia) ltac:(unfold min_int64; lia) ltac:(unfold max_int64; lia)
    eq_refl list_answers (fun ts R => twice_up_times ts ltac:(lia))) as X.
  cbv zeta in X. destruct (mapM_result _ _) as [vals|err] eqn:EV; [|vm_compute in EV; discriminate EV].
  assert (EP : all_points (steps 2000000000 4000000000 1000000000) vals =
    [([mkLabel "i" "a"], mkPoint 2000 (of_Z 4)); ([mkLabel "i" "b"], mkPoint 2000 (of_Z 14));
     ([mkLabel "i" "a"], mkPoint 3000 (of_Z 4)); ([mkLabel "i" "a"], mkPoint 4000 (of_Z 4))]).
  { vm_compute in EV. injection EV as <-. vm_compute. reflexivity. }
  rewrite EP in X. destruct X as (mat & EM & P & _).
  { apply no_collision_free. vm_compute. reflexivity. }
  exists mat. split; [exact EM|]. rewrite P. vm_compute. apply Permutation_swap.
Defined.

Lemma Exec_instant_witness :
  exec 3 3 no_interruption tt (mkQuery twice_up 2000000000 2000000000 0) =
  Some (mkResult None (Some (VVector [mkPSample [mkLabel "i" "a"] 2000 (of_Z 4); mkPSample [mkLabel "i" "b"] 2000 (of_Z 14)]))).
Proof.
  assert (E : NewInstantQuery "up * 2" 2000000000 = Ok (mkQuery twice_up 2000000000 2000000000 0)).
  { unfold NewInstantQuery. by rewrite parse_twice_up. }
  pose proof (Exec_instant list_positioned list_exhausted list_no_error 3 3 no_interruption "up * 2" _ tt tt [select_data]
    2000000000 E (fun _ => eq_refl) eq_refl list_answers (twice_up_times 2000000000 ltac:(lia))) as X.
  destruct (at_time _ _ _) as [v|err] eqn:EV; [|vm_compute in EV; discriminate EV].
  destruct X as [_ ->]. vm_compute in EV. injection EV as <-. reflexivity.
Defined.

Lemma eval_refines_witness :
  let st := select_state 300000 in
  outcome true (fits list_positioned list_exhausted 3 [select_data] twice_up 5000) (typed ValueTypeVector)
    (Eval (SEL := buffered 3 no_interruption) 5000 twice_up st)
    (Eval (SEL := reference no_interruption [select_data]) 5000 twice_up 0%nat).
Proof.
  destruct (ParseExpr_well_formed "up * 2" twice_up parse_twice_up) as [W HT].
  apply (eval_refines list_positioned list_exhausted list_no_error 3 no_interruption [select_data] twice_up ValueTypeVector HT W
    5000 (select_state 300000) 0).
  - intros s S. change (walk_selectors twice_up) with [VectorSelector "up" 0 [mkMatcher MatchEqual MetricName "up" None]] in S.
    apply list_elem_of_singleton in S as ->. vm_compute. repeat split; discriminate.
  - split; [reflexivity|]. intros k s K. assert (k = O) as -> by (apply lookup_lt_Some in K; cbn in K; lia). injection K as <-.
    eexists _, select_data, 0. split; [reflexivity|]. split; [reflexivity|]. split; [vm_compute; discriminate|].
    apply (select_ready 300000). lia.
Defined.
