(* ===== verification/Gate.v ===== *)
(** promql/engine.go: the gate that bounds the number of queries in execution,
    as a system of steps of the queries that arrive at an engine. *)

From S2P Require Import Prelude GoString Evaluator.
From Stdlib Require Import Relations.Relation_Operators Relations.Operators_Properties.

(** * The channel of the gate *)

(** [queryGate]: the buffered channel, by its capacity and the number of
    elements in it. *)
Record queryGate := mkGate { ch_cap : nat; ch_len : nat }.

Definition newQueryGate (length : nat) : queryGate := mkGate length 0.

(** [g.ch <- struct{}{}]; [None] if it blocks. *)
Definition send (g : queryGate) : option queryGate :=
  if (ch_len g <? ch_cap g)%nat then Some (mkGate (ch_cap g) (S (ch_len g))) else None.

(** [<-g.ch]; [None] if it blocks. *)
Definition recv (g : queryGate) : option queryGate :=
  match ch_len g with O => None | S n => Some (mkGate (ch_cap g) n) end.

(** What [Start] can return.  When both cases of the [select] are ready, either
    may be taken. *)
Inductive Start (g : queryGate) (ctx : option ctx_err) : option string -> queryGate -> Prop :=
| Start_done e : ctx = Some e -> Start g ctx (Some (ctx_message "query queue" e)) g
| Start_enter g' : send g = Some g' -> Start g ctx None g'.

(** [Done]; [None] is its panic. *)
Definition Done (g : queryGate) : option queryGate := recv g.

(** * The queries of an engine *)

(** A query waits in [Start], was turned away by it, is in execution, or has
    returned. *)
Inductive phase := Waiting | Refused (err : string) | Running | Returned.

Record engine := mkEngine { gate : queryGate; queries : list phase }.

(** [engine.exec] around the gate.  The deferred [Done] runs whichever way the
    execution ends; its panic leaves no state. *)
Inductive step : engine -> option engine -> Prop :=
| step_exec g qs : step (mkEngine g qs) (Some (mkEngine g (qs ++ [Waiting])))
| step_refused g g' qs i ctx err : qs !! i = Some Waiting -> Start g ctx (Some err) g' ->
    step (mkEngine g qs) (Some (mkEngine g' (<[i := Refused err]> qs)))
| step_enter g g' qs i ctx : qs !! i = Some Waiting -> Start g ctx None g' ->
    step (mkEngine g qs) (Some (mkEngine g' (<[i := Running]> qs)))
| step_return g qs i : qs !! i = Some Running ->
    step (mkEngine g qs) ((fun g' => mkEngine g' (<[i := Returned]> qs)) <$> Done g).

Inductive reachable (length : nat) : engine -> Prop :=
| reachable_new : reachable length (mkEngine (newQueryGate length) [])
| reachable_step s s' : reachable length s -> step s (Some s') -> reachable length s'.

(** The number of queries in execution. *)
Definition is_running (p : phase) : bool := match p with Running => true | _ => false end.
Definition running (qs : list phase) : nat := length (List.filter is_running qs).
Arguments running : simpl never.

(** * The invariant *)

Lemma running_app qs qs' : running (qs ++ qs') = (running qs + running qs')%nat.
Proof. unfold running. by rewrite List.filter_app, length_app. Qed.

(** Replacing one phase changes the number by at most one. *)
Lemma running_insert qs i p q : qs !! i = Some p ->
  (running (<[i := q]> qs) + Nat.b2n (is_running p) = running qs + Nat.b2n (is_running q))%nat.
Proof.
  intros E. pose proof (lookup_lt_Some _ _ _ E) as L. rewrite (insert_take_drop _ _ _ L).
  rewrite <- (take_drop_middle qs i p E) at 3. rewrite !running_app.
  assert (C : forall x l, running (x :: l) = (Nat.b2n (is_running x) + running l)%nat).
  { intros x l. unfold running. cbn. by destruct (is_running x). }
  rewrite !C. lia.
Qed.

(** The gate holds one element for each query in execution. *)
Definition gate_inv (length : nat) (s : engine) : Prop :=
  ch_cap (gate s) = length /\ ch_len (gate s) = running (queries s) /\ (ch_len (gate s) <= length)%nat.

Lemma gate_inv_reachable length s : reachable length s -> gate_inv length s.
Proof.
  induction 1 as [|s s' _ (C & N & B) ST]; [by repeat split; cbn; lia|].
  inversion ST as [g qs|g g' qs i ctx err W S|g g' qs i ctx W S|g qs i R]; subst; unfold gate_inv in *; cbn [gate queries] in *.
  - rewrite running_app. change (running [Waiting]) with 0%nat. repeat split; lia.
  - pose proof (running_insert qs i Waiting (Refused err) W) as RI. inversion S; subst. cbn in RI. repeat split; lia.
  - inversion S as [|g1 SE]; subst. unfold send in SE. case_match eqn:LT; [|done]. injection SE as <-.
    apply Nat.ltb_lt in LT. pose proof (running_insert qs i Waiting Running W) as RI. cbn in *. repeat split; lia.
  - unfold Done, recv in H0. destruct (ch_len g) as [|n] eqn:EL; [done|]. injection H0 as <-.
    pose proof (running_insert qs i Running Returned R) as RI. cbn in *. repeat split; lia.
Qed.

(** At most as many queries are in execution as the gate was made for,
    the gate is never released more often than it was entered, and a waiting
    query can enter exactly when fewer queries are in execution. *)
Theorem queryGate_bounds (length : nat) (s : engine) (R : reachable length s) :
  (running (queries s) <= length)%nat /\
  ~ step s None /\
  forall i, queries s !! i = Some Waiting ->
    ((running (queries s) < length)%nat <->
     exists s', step s (Some s') /\ queries s' = <[i := Running]> (queries s)).
Proof.
  destruct (gate_inv_reachable _ _ R) as (C & N & B). destruct s as [g qs]. cbn [gate queries] in *.
  split; [lia|split].
  - intros ST. inversion ST as [| | |g1 qs1 i RI H]; subst. unfold Done, recv in *.
    pose proof (running_insert qs i Running Returned RI) as X. cbn in X. by destruct (ch_len g); [lia|].
  - intros i W. split.
    + intros L. set (g' := mkGate (ch_cap g) (S (ch_len g))). exists (mkEngine g' (<[i := Running]> qs)).
      split; [|done]. apply (step_enter g g' qs i None W). constructor. unfold send. by rewrite (proj2 (Nat.ltb_lt _ _)) by lia.
    + intros (s' & ST & E).
      assert (RI : running (queries s') = S (running qs)).
      { rewrite E. pose proof (running_insert qs i Waiting Running W) as X. cbn in X. lia. }
      pose proof (gate_inv_reachable length s' (reachable_step _ _ _ R ST)) as (_ & N' & B'). lia.
Qed.

Lemma queryGate_bounds_witness :
  let s := mkEngine (mkGate 1 1) [Running; Waiting] in
  reachable 1 s /\ ~ step s None /\ ~ exists s', step s (Some s') /\ queries s' = [Running; Running].
Proof.
  assert (R : reachable 1 (mkEngine (mkGate 1 1) [Running; Waiting])).
  { apply (reachable_step 1 (mkEngine (mkGate 1 0) [Waiting; Waiting])).
    - apply (reachable_step 1 (mkEngine (mkGate 1 0) [Waiting])); [|apply (step_exec _ [Waiting])].
      apply (reachable_step 1 (mkEngine (newQueryGate 1) [])); [constructor|apply (step_exec _ [])].
    - apply (step_enter (mkGate 1 0) (mkGate 1 1) [Waiting; Waiting] 0 None eq_refl). by constructor. }
  destruct (queryGate_bounds 1 _ R) as (_ & P & E). split; [exact R|]. split; [exact P|].
  intros X. apply (E 1%nat eq_refl) in X. vm_compute in X. lia.
Defined.
