(* ===== verification/Merge.v ===== *)
(** storage/fanout.go: merging sorted cursors through a heap, for the samples
    of a series and for sets of series.

    Iterators are pointers in the code: the heap and the list of current sets
    alias the slice of inputs.  Here the inputs are a store of cursors, and
    the heap holds their indices. *)

From S2P Require Import Prelude Float Labels LabelsFacts Buffer Heap.
From Stdlib Require Import Sorting.Sorted.

(** * A store of cursors *)

(** What [SeriesIterator] and [SeriesSet] share: a cursor over values. *)
Class Cursor (C V : Type) := { c_Next : C -> bool * C; c_At : C -> V }.

(** The values the coming calls of [Next] reach. *)
Fixpoint yields `{Cursor C V} (c : C) (vs : list V) : Prop :=
  match vs with
  | [] => fst (c_Next c) = false
  | v :: vs' => let (b, c') := c_Next c in b = true /\ c_At c' = v /\ yields c' vs'
  end.

Section store.
Context `{CU : Cursor C V} (vless : V -> V -> bool).

(** [Less] of the heaps: the values under two cursors.  The heaps never hold an
    index outside the store; putting those last keeps the order total. *)
Definition less (st : list C) (a b : nat) : bool :=
  match st !! a, st !! b with
  | Some x, Some y => vless (c_At x) (c_At y)
  | Some _, None => true
  | None, _ => false
  end.

(** [if it.Next() { heap.Push(&h, it) }] for the cursors [ids]. *)
Fixpoint advance (ids : list nat) (st : list C) (h : list nat) : list C * list nat :=
  match ids with
  | [] => (st, h)
  | k :: ids' =>
    match st !! k with
    | None => advance ids' st h
    | Some c => let (b, c') := c_Next c in
                let st := <[k := c']> st in
                advance ids' st (if b : bool then Push (less st) h k else h)
    end
  end.

Definition vle (a b : V) : Prop := vless b a = false.

Hypothesis vle_trans : forall a b c, vle a b -> vle b c -> vle a c.
Hypothesis vless_vle : forall a b, vless a b = true -> vle a b.

(** ** The invariant *)

(** The cursors in the heap stand on the first of their remaining values [rs];
    those of [pend] stand before them; the others are exhausted. *)
Definition on_head (st : list C) (rs : list (list V)) (k : nat) : Prop :=
  exists c v vs, st !! k = Some c /\ rs !! k = Some (v :: vs) /\ c_At c = v /\ yields c vs.
Definition before (st : list C) (rs : list (list V)) (k : nat) : Prop :=
  exists c vs, st !! k = Some c /\ rs !! k = Some vs /\ yields c vs.

Record inv (st : list C) (h : list nat) (rs : list (list V)) (pend : list nat) : Prop := {
  inv_heap : is_heap (not_less (less st)) h;
  inv_nodup : NoDup (h ++ pend);
  inv_h k : k ∈ h -> on_head st rs k;
  inv_pend k : k ∈ pend -> before st rs k;
  inv_done k vs : k ∉ h -> k ∉ pend -> rs !! k = Some vs -> vs = []
}.

(** On indices of the store the order is a total preorder. *)
Lemma is_heap_ext st st' h :
  (forall k, k ∈ h -> st' !! k = st !! k) -> is_heap (not_less (less st)) h -> is_heap (not_less (less st')) h.
Proof.
  intros E H j J. specialize (H j J). unfold not_less, less in *.
  assert (G : forall j, (j < length h)%nat -> get h j ∈ h).
  { intros i I. unfold get. apply list_elem_of_In, nth_In. done. }
  pose proof (parent_lt j ltac:(lia)). rewrite !E by (apply G; lia). done.
Qed.

Lemma less_trans st a b c : not_less (less st) a b -> not_less (less st) b c -> not_less (less st) a c.
Proof.
  unfold not_less, less. destruct (st !! a), (st !! b), (st !! c); try done. apply vle_trans.
Qed.

Lemma less_le st a b : less st a b = true -> not_less (less st) a b.
Proof. unfold not_less, less. destruct (st !! a), (st !! b); try done. apply vless_vle. Qed.

Lemma on_head_ext st st' rs rs' k :
  st' !! k = st !! k -> rs' !! k = rs !! k -> on_head st rs k -> on_head st' rs' k.
Proof. intros E1 E2 (c & v & vs & H). exists c, v, vs. by rewrite E1, E2. Qed.

Lemma before_ext st st' rs rs' k :
  st' !! k = st !! k -> rs' !! k = rs !! k -> before st rs k -> before st' rs' k.
Proof. intros E1 E2 (c & vs & H). exists c, vs. by rewrite E1, E2. Qed.

(** One cursor moves; if it has a value it joins the heap. *)
Lemma advance_step st h rs k pend c :
  inv st h rs (k :: pend) -> st !! k = Some c ->
  let (b, c') := c_Next c in
  let st' := <[k := c']> st in
  inv st' (if b : bool then Push (less st') h k else h) rs pend.
Proof.
  intros [IH ND HH HP HD] E.
  assert (Hk : k ∈ k :: pend) by apply list_elem_of_here.
  destruct (HP k Hk) as (c0 & vs & E0 & Ers & Y). assert (c0 = c) as -> by congruence. clear E0.
  apply NoDup_app in ND as (NDh & DJ & NDp). apply NoDup_cons in NDp as [NK NDp].
  assert (KH : k ∉ h) by (intros C1; by apply (DJ k C1)).
  destruct (c_Next c) as [b c'] eqn:N. cbv zeta. set (st' := <[k := c']> st).
  assert (SO : forall j, j <> k -> st' !! j = st !! j) by (intros j J; by apply list_lookup_insert_ne).
  assert (SK : st' !! k = Some c') by (apply list_lookup_insert_eq; by eapply lookup_lt_Some).
  assert (IH' : is_heap (not_less (less st')) h) by (apply (is_heap_ext st); [intros j J; apply SO; by intros ->|done]).
  assert (HH' : forall j, j ∈ h -> on_head st' rs j).
  { intros j J. apply (on_head_ext st _ rs); [apply SO; by intros ->|done|auto]. }
  assert (HP' : forall j, j ∈ pend -> before st' rs j).
  { intros j J. apply (before_ext st _ rs); [apply SO; by intros ->|done|]. apply HP. by apply list_elem_of_further. }
  destruct vs as [|v vs]; cbn in Y; rewrite N in Y.
  - cbn in Y. subst b. split; try done.
    + apply NoDup_app. split; [done|]. split; [|done]. intros j J1 J2. apply (DJ j J1). by apply list_elem_of_further.
    + intros j ws J1 J2 Ej. destruct (decide (j = k)) as [->|]; [congruence|].
      apply (HD j); [done| |done]. by apply not_elem_of_cons.
  - destruct Y as (-> & Ea & Y). pose proof (Push_perm (less st') h k) as PP.
    split.
    + by apply (Push_heap _ _ (less_trans st') (less_le st') (fun _ _ H => H)).
    + rewrite PP. cbn. apply NoDup_cons. split.
      * rewrite elem_of_app. tauto.
      * apply NoDup_app. split; [done|]. split; [|done]. intros j J1 J2. apply (DJ j J1). by apply list_elem_of_further.
    + intros j J. rewrite PP, elem_of_cons in J. destruct J as [->|J]; [|auto].
      by exists c', v, vs.
    + done.
    + intros j ws J1 J2 Ej. rewrite PP, not_elem_of_cons in J1. destruct J1.
      apply (HD j); [done| |done]. by apply not_elem_of_cons.
Qed.

Lemma advance_inv ids st h rs pend :
  inv st h rs (ids ++ pend) ->
  let (st', h') := advance ids st h in inv st' h' rs pend /\ length st' = length st.
Proof.
  revert st h. induction ids as [|k ids IH]; intros st h I; cbn [advance]; [done|].
  assert (Hk : k ∈ (k :: ids) ++ pend) by apply list_elem_of_here.
  destruct (inv_pend _ _ _ _ I k Hk) as (c & vs & E & _). rewrite E.
  pose proof (advance_step st h rs k (ids ++ pend) c I E) as S.
  destruct (c_Next c) as [b c']. cbv zeta in S.
  specialize (IH _ _ S). destruct (advance ids _ _). by rewrite length_insert in IH.
Qed.

(** The value at the root, which no value at the head of a cursor precedes. *)
Lemma root_min st h rs pend k h' :
  inv st h rs pend -> Pop (less st) h = Some (k, h') ->
  exists v vs, rs !! k = Some (v :: vs) /\ (exists c, st !! k = Some c /\ c_At c = v /\ yields c vs) /\
    (forall j w ws, j ∈ h -> rs !! j = Some (w :: ws) -> vle v w) /\
    h ≡ₚ k :: h' /\ is_heap (not_less (less st)) h' /\ k = get h 0.
Proof.
  intros [IH ND HH HP HD] E.
  destruct (Pop_spec (less st) _ (less_trans st) (less_le st) (fun _ _ H => H) h k h' IH E) as (P & I' & R & M).
  destruct (HH k) as (c & v & vs & Ec & Er & Ea & Y); [rewrite P; apply list_elem_of_here|].
  exists v, vs. split; [done|]. split; [by exists c|]. split; [|done].
  intros j w ws J Ej. destruct (HH j J) as (cj & wj & wsj & Ecj & Erj & Eaj & _).
  assert (wj = w /\ wsj = ws) as [-> ->] by (split; congruence).
  assert (L : not_less (less st) k j).
  { rewrite P, elem_of_cons in J. destruct J as [->|J]; [apply (le_refl (less st) _ (less_le st)); done|by apply M]. }
  unfold not_less, less in L. rewrite Ecj, Ec, Ea, Eaj in L. exact L.
Qed.

(** Popping moves the cursor to the pending ones and consumes its value. *)
Lemma pop_inv st h rs pend k h' v vs :
  inv st h rs pend -> Pop (less st) h = Some (k, h') -> rs !! k = Some (v :: vs) ->
  inv st h' (<[k := vs]> rs) (k :: pend).
Proof.
  intros I E Er. destruct (root_min _ _ _ _ _ _ I E) as (v' & vs' & Er' & (c & Ec & Ea & Y) & _ & P & IH & _).
  assert (v' = v /\ vs' = vs) as [-> ->] by (split; congruence).
  destruct I as [_ ND HH HP HD]. rewrite P in ND. cbn in ND. apply NoDup_cons in ND as [NK ND].
  assert (RO : forall j, j <> k -> <[k := vs]> rs !! j = rs !! j) by (intros j J; by apply list_lookup_insert_ne).
  assert (RK : <[k := vs]> rs !! k = Some vs) by (apply list_lookup_insert_eq; by eapply lookup_lt_Some).
  rewrite elem_of_app in NK. split.
  - done.
  - apply NoDup_app in ND as (N1 & N2 & N3). apply NoDup_app. split; [done|]. split.
    + intros j J1 [->|J2]%elem_of_cons; [tauto|]. by apply (N2 j).
    + constructor; tauto.
  - intros j J. apply (on_head_ext st _ rs); [done|apply RO; by intros ->; tauto|].
    apply HH. rewrite P. by apply list_elem_of_further.
  - intros j [->|J]%elem_of_cons; [by exists c, vs|].
    apply (before_ext st _ rs); [done|apply RO; intros ->; tauto|auto].
  - intros j ws J1 J2 Ej. apply not_elem_of_cons in J2 as [J2 J3].
    rewrite RO in Ej by done. apply (HD j); [|done|done]. rewrite P. by apply not_elem_of_cons.
Qed.

(** Consuming a head removes it from the values that remain. *)
Lemma concat_consume (rs : list (list V)) k v vs :
  rs !! k = Some (v :: vs) -> concat rs ≡ₚ v :: concat (<[k := vs]> rs).
Proof.
  revert k. induction rs as [|r rs IH]; intros [|k]; cbn; try done.
  - by intros [= ->].
  - intros E. rewrite (IH k E). symmetry. apply Permutation_middle.
Qed.

Lemma inv_empty st rs pend :
  inv st [] rs pend -> (forall k, k ∈ pend -> rs !! k = Some [] \/ rs !! k = None) -> concat rs = [].
Proof.
  intros [_ _ _ _ HD] HP. apply concat_nil_Forall. rewrite Forall_forall. intros vs [k E]%list_elem_of_lookup.
  destruct (decide (k ∈ pend)) as [J|J]; [destruct (HP k J); congruence|].
  apply (HD k); [apply not_elem_of_nil|done|done].
Qed.

(** The invariant of a fresh merge: every cursor is pending. *)
Lemma inv_start st (rs : list (list V)) :
  Forall2 yields st rs -> inv st [] rs (seq 0 (length st)).
Proof.
  intros F. split.
  - intros j J. cbn in J. lia.
  - apply NoDup_seq.
  - intros k J. by apply elem_of_nil in J.
  - intros k J. apply elem_of_seq in J. destruct (lookup_lt_is_Some_2 st k ltac:(lia)) as [c Ec].
    destruct (Forall2_lookup_l _ _ _ _ _ F Ec) as (vs & Ev & Y). by exists c, vs.
  - intros k vs _ J E. exfalso. apply J. apply elem_of_seq. apply lookup_lt_Some in E.
    rewrite <- (Forall2_length _ _ _ F) in E. lia.
Qed.
End store.

(** * [mergeIterator]: the samples of one series, from several sources *)

#[export] Instance iterator_cursor `{SeriesIterator It} : Cursor It sample :=
  {| c_Next := it_Next; c_At := it_At |}.

Section mergeIterator.
Context `{SI : SeriesIterator It}.

(** [seriesIteratorHeap.Less] *)
Definition earlier (a b : sample) : bool := t a <? t b.

(** [h] is [None] for the nil heap. *)
Record mergeIterator := mkMergeIterator { iterators : list It; mh : option (list nat) }.

Definition newMergeIterator (its : list It) : mergeIterator := mkMergeIterator its None.

(** [Seek] *)
Fixpoint seek_all (x : Z) (ids : list nat) (st : list It) (h : list nat) : list It * list nat :=
  match ids with
  | [] => (st, h)
  | k :: ids' =>
    match st !! k with
    | None => seek_all x ids' st h
    | Some it => let (b, it') := it_Seek x it in
                 let st := <[k := it']> st in
                 seek_all x ids' st (if b : bool then Push (less earlier st) h k else h)
    end
  end.

Definition merge_Seek (x : Z) (m : mergeIterator) : bool * mergeIterator :=
  let (st, h) := seek_all x (seq 0 (length (iterators m))) (iterators m) [] in
  ((0 <? length h)%nat, mkMergeIterator st (Some h)).

(** [At]; [None] is its panic. *)
Definition merge_At (m : mergeIterator) : option sample :=
  match mh m with
  | Some (k :: _) => it_At <$> iterators m !! k
  | _ => None
  end.

Definition merge_Next (m : mergeIterator) : bool * mergeIterator :=
  match mh m with
  | None =>
    let (st, h) := advance earlier (seq 0 (length (iterators m))) (iterators m) [] in
    ((0 <? length h)%nat, mkMergeIterator st (match h with [] => None | _ => Some h end))
  | Some h =>
    match Pop (less earlier (iterators m)) h with
    | None => (false, m)
    | Some (k, h') =>
      let (st, h'') := advance earlier [k] (iterators m) h' in
      ((0 <? length h'')%nat, mkMergeIterator st (Some h''))
    end
  end.

#[export] Instance merge_SeriesIterator : SeriesIterator mergeIterator := {|
  it_Seek := merge_Seek; it_At m := default zero_sample (merge_At m); it_Next := merge_Next |}.

Definition time_sorted (ss : list sample) : Prop := StronglySorted (fun a b => t a <= t b) ss.

Lemma earlier_trans (a b c : sample) : vle earlier a b -> vle earlier b c -> vle earlier a c.
Proof. unfold vle, earlier. rewrite !Z.ltb_ge. lia. Qed.
Lemma earlier_vle (a b : sample) : earlier a b = true -> vle earlier a b.
Proof. unfold vle, earlier. rewrite Z.ltb_ge, Z.ltb_lt. lia. Qed.

Lemma head_le (rs : list (list sample)) v w :
  Forall time_sorted rs -> (forall j w ws, rs !! j = Some (w :: ws) -> t v <= t w) ->
  w ∈ concat rs -> t v <= t w.
Proof.
  intros S H W. apply list_elem_of_In, in_concat in W as (r & Hr & Hw).
  apply list_elem_of_In, list_elem_of_lookup in Hr as [j Hj]. rewrite <- list_elem_of_In in Hw.
  destruct r as [|x r]; [by apply elem_of_nil in Hw|]. specialize (H j x r Hj).
  rewrite Forall_forall in S. assert (SX : time_sorted (x :: r)) by (apply S; by eapply list_elem_of_lookup_2).
  apply elem_of_cons in Hw as [->|Hw]; [done|]. inversion SX as [|? ? _ F]; subst.
  rewrite Forall_forall in F. specialize (F w Hw). lia.
Qed.

(** From a heap with a root: the root's value and the values the coming calls
    reach are the remaining values in order. *)
Lemma merge_running n st h rs :
  length (concat rs) = S n -> inv earlier st h rs [] -> Forall time_sorted rs ->
  exists v vs, default zero_sample (merge_At (mkMergeIterator st (Some h))) = v /\
    v :: vs ≡ₚ concat rs /\ time_sorted (v :: vs) /\ yields (mkMergeIterator st (Some h)) vs.
Proof.
  revert st h rs. induction n as [|n IH]; intros st h rs L I S.
  all: assert (NE : h <> []) by
    (intros ->; rewrite (inv_empty _ _ _ _ I) in L; [done|intros k K; by apply elem_of_nil in K]).
  all: destruct (Pop_Some (less earlier st) h NE) as (k & h' & EP).
  all: destruct (root_min earlier earlier_trans earlier_vle _ _ _ _ _ _ I EP)
         as (v & vs & Er & (c & Ec & Ea & Y) & M & P & IH' & R).
  all: pose proof (pop_inv earlier earlier_trans earlier_vle _ _ _ _ _ _ _ _ I EP Er) as I2.
  all: pose proof (advance_inv earlier earlier_trans earlier_vle [k] _ _ _ [] I2) as A.
  all: assert (EAT : default zero_sample (merge_At (mkMergeIterator st (Some h))) = v) by
    (unfold merge_At; cbn; destruct h as [|k0 h0]; [done|]; cbn in R; rewrite <- R, Ec; cbn; exact Ea).
  all: destruct (advance earlier [k] st h') as [st' h''] eqn:EA; destruct A as [I3 _].
  all: pose proof (concat_consume rs k v vs Er) as CC.
  all: assert (S' : Forall time_sorted (<[k := vs]> rs)) by
    (apply Forall_insert; [done|]; rewrite Forall_forall in S;
     assert (SV : time_sorted (v :: vs)) by (apply S; by eapply list_elem_of_lookup_2);
     by inversion SV).
  all: assert (VM : forall w, w ∈ concat rs -> t v <= t w) by
    (intros w W; apply (head_le rs); [done| |done]; intros j x xs Ej;
     assert (J : j ∈ h) by (destruct (decide (j ∈ h)) as [|J]; [done|];
       pose proof (inv_done _ _ _ _ _ I j _ J (not_elem_of_nil j) Ej); done);
     pose proof (M j x xs J Ej) as K; unfold vle, earlier in K; apply Z.ltb_ge in K; done).
  all: assert (LC : length (concat (<[k := vs]> rs)) = pred (length (concat rs))) by (rewrite CC; done).
  all: assert (EN : merge_Next (mkMergeIterator st (Some h)) = ((0 <? length h'')%nat, mkMergeIterator st' (Some h''))) by
    (unfold merge_Next; cbn [mh iterators]; rewrite EP, EA; done).
  - exists v, []. split; [done|]. rewrite L in LC. apply nil_length_inv in LC. rewrite CC, LC.
    split; [done|]. split; [by repeat constructor|]. cbn [yields].
    change (c_Next _) with (merge_Next (mkMergeIterator st (Some h))). rewrite EN. cbn.
    destruct h'' as [|j h'']; [done|].
    destruct (inv_h _ _ _ _ _ I3 j (list_elem_of_here _ _)) as (? & w & ws & _ & Ej & _).
    assert (W : w ∈ concat (<[k := vs]> rs)).
    { apply list_elem_of_In, in_concat. exists (w :: ws). split; [|by left].
      apply list_elem_of_In. by eapply list_elem_of_lookup_2. }
    rewrite LC in W. by apply elem_of_nil in W.
  - rewrite L in LC. cbn in LC.
    destruct (IH st' h'' _ LC I3 S') as (w & ws & EW & PW & SW & YW).
    exists v, (w :: ws). split; [done|]. split; [by rewrite PW, CC|]. split.
    + constructor; [done|]. apply Forall_forall. intros x X. apply VM. rewrite CC, <- PW.
      by apply list_elem_of_further.
    + cbn [yields]. change (c_Next _) with (merge_Next (mkMergeIterator st (Some h))). rewrite EN.
      assert (NE' : h'' <> []).
      { intros ->. rewrite (inv_empty _ _ _ _ I3) in LC; [done|]. intros j J. by apply elem_of_nil in J. }
      split; [by destruct h''|]. by split.
Qed.

Lemma merge_start its xss :
  Forall2 yields its xss -> Forall time_sorted xss ->
  exists ys, ys ≡ₚ concat xss /\ time_sorted ys /\ yields (newMergeIterator its) ys.
Proof.
  intros F S. pose proof (advance_inv earlier earlier_trans earlier_vle (seq 0 (length its)) its [] xss []) as A.
  rewrite app_nil_r in A. specialize (A (inv_start earlier _ _ F)).
  destruct (advance earlier (seq 0 (length its)) its []) as [st h] eqn:EA. destruct A as [I _].
  assert (EN : c_Next (newMergeIterator its) =
    ((0 <? length h)%nat, mkMergeIterator st (match h with [] => None | _ => Some h end))).
  { cbn. unfold merge_Next, newMergeIterator. cbn [mh iterators]. by rewrite EA. }
  destruct h as [|k h].
  - exists []. rewrite (inv_empty _ _ _ _ I) by (intros j J; by apply elem_of_nil in J).
    split; [done|]. split; [constructor|]. cbn [yields]. by rewrite EN.
  - destruct (concat xss) as [|x xs] eqn:EC.
    + exfalso. destruct (inv_h _ _ _ _ _ I k (list_elem_of_here _ _)) as (? & w & ws & _ & Ej & _).
      assert (W : w ∈ concat xss).
      { apply list_elem_of_In, in_concat. exists (w :: ws). split; [|by left].
        apply list_elem_of_In. by eapply list_elem_of_lookup_2. }
      rewrite EC in W. by apply elem_of_nil in W.
    + destruct (merge_running (length xs) st (k :: h) xss ltac:(by rewrite EC) I S) as (v & vs & EV & PV & SV & YV).
      exists (v :: vs). split; [by rewrite PV, EC|]. split; [done|]. cbn [yields]. rewrite EN. by split.
Qed.
End mergeIterator.

(** C27: a merged series yields every sample of its sources, once for each
    source that has it, in time order. *)
Theorem mergeIterator_sorted `{SI : SeriesIterator It} (its : list It) (xss : list (list sample))
  (F : Forall2 yields its xss) (S : Forall time_sorted xss) :
  exists ys, yields (newMergeIterator its) ys /\ ys ≡ₚ concat xss /\ time_sorted ys.
Proof. destruct (merge_start its xss F S) as (ys & P & T & Y). by exists ys. Qed.

(** * [mergeSeriesSet]: series with equal labels become one *)

Section mergeSeriesSet.
Context {S C : Type} (labels_of : S -> Labels) `{CU : Cursor C S}.

(** [seriesSetHeap.Less] *)
Definition label_less (a b : S) : bool := Compare (labels_of a) (labels_of b) <? 0.

Record mergeSeriesSet := mkMergeSeriesSet {
  currentLabels : Labels; currentSets : list nat; sheap : list nat; sets : list C
}.

(** [NewMergeSeriesSet] of several sets; a single set is returned as it is. *)
Definition NewMergeSeriesSet (ss : list C) : C + mergeSeriesSet :=
  match ss with
  | [c] => inl c
  | _ => let (st, h) := advance label_less (seq 0 (length ss)) ss [] in
         inr (mkMergeSeriesSet [] [] h st)
  end.

Definition labels_at (st : list C) (k : nat) : option Labels := (fun c => labels_of (c_At c)) <$> st !! k.

(** The loop that pops the sets whose series has the current labels. *)
Fixpoint pop_equal (fuel : nat) (ls : Labels) (st : list C) (h cur : list nat) : list nat * list nat :=
  match fuel with
  | O => (h, cur)
  | Datatypes.S f =>
    match h with
    | [] => (h, cur)
    | k :: _ =>
      if Equal ls (default [] (labels_at st k)) then
        match Pop (less label_less st) h with
        | None => (h, cur)
        | Some (x, h') => pop_equal f ls st h' (cur ++ [x])
        end
      else (h, cur)
    end
  end.

Definition set_Next (m : mergeSeriesSet) : bool * mergeSeriesSet :=
  let (st, h) := advance label_less (currentSets m) (sets m) (sheap m) in
  match h with
  | [] => (false, mkMergeSeriesSet (currentLabels m) (currentSets m) h st)
  | k :: _ =>
    let ls := default [] (labels_at st k) in
    let (h', cur) := pop_equal (length h) ls st h [] in
    (true, mkMergeSeriesSet ls cur h' st)
  end.

(** The series under the current sets. *)
Definition members (m : mergeSeriesSet) : list S := omap (fun k => c_At <$> sets m !! k) (currentSets m).

(** [At]: a series, or a [mergeSeries] of several. *)
Definition set_At (m : mergeSeriesSet) : S + (Labels * list S) :=
  match currentSets m, members m with
  | [_], [s] => inl s
  | _, ss => inr (currentLabels m, ss)
  end.

(** The groups the coming calls of [set_Next] make. *)
Fixpoint groups (m : mergeSeriesSet) (gs : list (Labels * list S)) : Prop :=
  match gs with
  | [] => fst (set_Next m) = false
  | g :: gs' => let (b, m') := set_Next m in
                b = true /\ (currentLabels m', members m') = g /\ groups m' gs'
  end.

(** What a set promises: its series in strictly increasing label order. *)
Definition label_sorted (ss : list S) : Prop :=
  StronglySorted (fun a b => Compare (labels_of a) (labels_of b) < 0) ss.

Lemma Compare_refl a : Compare a a = 0.
Proof. by apply Compare_0. Qed.

Lemma label_trans (a b c : S) : vle label_less a b -> vle label_less b c -> vle label_less a c.
Proof.
  unfold vle, label_less. rewrite !Z.ltb_ge. intros H1 H2.
  pose proof (Compare_le_trans (labels_of a) (labels_of b) (labels_of c)) as T.
  rewrite (Compare_opp (labels_of c)). rewrite Compare_opp in H1, H2. lia.
Qed.
Lemma label_vle (a b : S) : label_less a b = true -> vle label_less a b.
Proof. unfold vle, label_less. rewrite Z.ltb_ge, Z.ltb_lt, (Compare_opp (labels_of b)). lia. Qed.

Lemma inv_pend_perm st h rs pend pend' :
  pend ≡ₚ pend' -> inv label_less st h rs pend -> inv label_less st h rs pend'.
Proof.
  intros P [I ND HH HP HD]. split; try done.
  - by rewrite <- P.
  - intros k K. apply HP. by rewrite P.
  - intros k vs K1 K2. apply HD; [done|]. by rewrite P.
Qed.

Lemma sorted_insert rs k v vs :
  Forall label_sorted rs -> rs !! k = Some (v :: vs) ->
  Forall label_sorted (<[k := vs]> rs) /\ forall w, w ∈ vs -> Compare (labels_of v) (labels_of w) < 0.
Proof.
  intros SR E. rewrite Forall_forall in SR.
  assert (SV : label_sorted (v :: vs)) by (apply SR; by eapply list_elem_of_lookup_2).
  inversion SV as [|? ? S1 F]; subst. split.
  - apply Forall_insert; [by apply Forall_forall|done].
  - intros w W. rewrite Forall_forall in F. by apply F.
Qed.

(** The current sets after the loop: one series each, with the labels [ls];
    every value left is beyond them. *)
Lemma pop_equal_spec fuel ls st h rs pend cur :
  inv label_less st h rs pend -> Forall label_sorted rs -> (length h <= fuel)%nat ->
  (forall j w ws, j ∈ h -> rs !! j = Some (w :: ws) -> Compare ls (labels_of w) <= 0) ->
  (forall j vs w, j ∈ pend -> rs !! j = Some vs -> w ∈ vs -> Compare ls (labels_of w) < 0) ->
  let (h', cur') := pop_equal fuel ls st h cur in
  exists new vs rs', cur' = cur ++ new /\
    inv label_less st h' rs' (rev new ++ pend) /\ Forall label_sorted rs' /\
    omap (fun k => c_At <$> st !! k) new = vs /\ concat rs ≡ₚ vs ++ concat rs' /\
    Forall (fun v => labels_of v = ls) vs /\ length vs = length new /\
    (forall w, w ∈ concat rs' -> Compare ls (labels_of w) < 0).
Proof.
  revert h rs pend cur. induction fuel as [|fuel IH]; intros h rs pend cur I SR L HH HP; cbn [pop_equal].
  all: assert (DONE : (forall j w ws, j ∈ h -> rs !! j = Some (w :: ws) -> Compare ls (labels_of w) < 0) ->
    exists new vs rs', cur = cur ++ new /\
    inv label_less st h rs' (rev new ++ pend) /\ Forall label_sorted rs' /\
    omap (fun k => c_At <$> st !! k) new = vs /\ concat rs ≡ₚ vs ++ concat rs' /\
    Forall (fun v => labels_of v = ls) vs /\ length vs = length new /\
    (forall w, w ∈ concat rs' -> Compare ls (labels_of w) < 0)).
  1,3: intros B; exists [], [], rs; rewrite app_nil_r; repeat (split; [done || constructor|]);
    intros w W; apply list_elem_of_In, in_concat in W as (r & Hr & Hw);
    apply list_elem_of_In, list_elem_of_lookup in Hr as [j Hj]; rewrite <- list_elem_of_In in Hw;
    (destruct (decide (j ∈ pend)); [by apply (HP j r)|]);
    (destruct (decide (j ∈ h)) as [J|J]; [|rewrite (inv_done _ _ _ _ _ I j r J n Hj) in Hw; by apply elem_of_nil in Hw]);
    (destruct r as [|x r]; [by apply elem_of_nil in Hw|]);
    pose proof (B j x r J Hj) as BX; apply elem_of_cons in Hw as [->|Hw]; [done|];
    pose proof (proj2 (sorted_insert rs j x r SR Hj) w Hw) as XW; by apply (Compare_lt_trans _ (labels_of x)).
  - apply DONE. intros j w ws J. destruct h; [by apply elem_of_nil in J|cbn in L; lia].
  - destruct h as [|k h0]; [apply DONE; intros j w ws J; by apply elem_of_nil in J|].
    set (h := k :: h0) in *.
    destruct (Pop_Some (less label_less st) h ltac:(done)) as (x & h' & EP).
    destruct (root_min label_less label_trans label_vle _ _ _ _ _ _ I EP)
      as (v & vs & Er & (c & Ec & Ea & Y) & M & P & _ & R).
    assert (EL : labels_at st k = Some (labels_of v)).
    { cbn in R. subst x. unfold labels_at. rewrite Ec. cbn. by rewrite Ea. }
    assert (XH : x ∈ h) by (rewrite P; apply list_elem_of_here).
    rewrite EL. cbn [default from_option id]. destruct (Equal ls (labels_of v)) eqn:EQ.
    + apply Equal_iff in EQ. rewrite EP.
      pose proof (pop_inv label_less label_trans label_vle _ _ _ _ _ _ _ _ I EP Er) as I2.
      destruct (sorted_insert rs x v vs SR Er) as [SR2 B2].
      assert (NX : x ∉ h').
      { pose proof (inv_nodup _ _ _ _ _ I) as ND. rewrite P in ND. cbn in ND.
        apply NoDup_cons in ND as [NX _]. rewrite elem_of_app in NX. tauto. }
      specialize (IH h' (<[x := vs]> rs) (x :: pend) (cur ++ [x]) I2 SR2).
      assert (LH : length h = Datatypes.S (length h')) by (by rewrite P).
      specialize (IH ltac:(lia)). destruct (pop_equal fuel ls st h' (cur ++ [x])) as [h2 cur2].
      destruct IH as (new & us & rs2 & E1 & I3 & S3 & O3 & P3 & F3 & L3 & B3).
      * intros j w ws J Ej. apply (HH j w ws); [rewrite P; by apply list_elem_of_further|].
        rewrite list_lookup_insert_ne in Ej; [done|]. by intros ->.
      * intros j us w J Ej W. destruct (decide (j = x)) as [->|NJ].
        -- rewrite list_lookup_insert_eq in Ej by (by eapply lookup_lt_Some). injection Ej as <-.
           rewrite EQ. by apply B2.
        -- rewrite list_lookup_insert_ne in Ej by done. apply elem_of_cons in J as [|J]; [done|]. by apply (HP j us).
      * exists (x :: new), (v :: us), rs2. split; [by rewrite E1, <- app_assoc|]. split.
        { cbn [rev]. rewrite <- app_assoc. exact I3. }
        split; [done|]. split; [cbn; rewrite Ec; cbn; by rewrite Ea, O3|]. split.
        { rewrite (concat_consume rs x v vs Er), P3. done. }
        split; [by constructor|]. split; [cbn; by rewrite L3|done].
    + apply DONE. intros j w ws J Ej.
      assert (VL : Compare ls (labels_of v) < 0).
      { pose proof (HH x v vs XH Er). destruct (Z.eq_dec (Compare ls (labels_of v)) 0) as [E0|]; [|lia].
        apply Compare_0, Equal_iff in E0. congruence. }
      pose proof (M j w ws J Ej) as VW. unfold vle, label_less in VW. apply Z.ltb_ge in VW.
      rewrite Compare_opp in VW.
      destruct (Z.eq_dec (Compare (labels_of v) (labels_of w)) 0) as [E0|].
      * apply Compare_0 in E0. by rewrite <- E0.
      * apply (Compare_lt_trans _ (labels_of v)); lia.
Qed.

(** The groups of a merge of the values [xs]: label sets strictly increase,
    and each comes with the series that carry it. *)
Record merged (xs : list S) (gs : list (Labels * list S)) : Prop := {
  m_labels : Forall (fun g => g.2 <> [] /\ Forall (fun s => labels_of s = g.1) g.2) gs;
  m_sorted : StronglySorted (fun g g' : Labels * list S => Compare g.1 g'.1 < 0) gs;
  m_all : flat_map snd gs ≡ₚ xs
}.

Lemma merged_cons ls vs xs gs :
  vs <> [] -> Forall (fun v => labels_of v = ls) vs ->
  (forall w, w ∈ xs -> Compare ls (labels_of w) < 0) ->
  merged xs gs -> merged (vs ++ xs) ((ls, vs) :: gs).
Proof.
  intros NE F B [M1 M2 M3]. split.
  - by constructor.
  - constructor; [done|]. apply Forall_forall. intros g Hg. cbn.
    rewrite Forall_forall in M1. destruct (M1 g Hg) as [N G]. destruct (g.2) as [|w ws] eqn:E; [done|].
    apply Forall_cons in G as [<- _]. apply B. rewrite <- M3, list_elem_of_In, in_flat_map.
    exists g. rewrite E. split; [by apply list_elem_of_In|by left].
  - cbn. by rewrite M3.
Qed.

Lemma groups_running n m rs :
  (length (concat rs) < n)%nat -> inv label_less (sets m) (sheap m) rs (currentSets m) ->
  Forall label_sorted rs -> exists gs, groups m gs /\ merged (concat rs) gs.
Proof.
  revert m rs. induction n as [|n IH]; intros m rs L I SR; [lia|].
  pose proof (advance_inv label_less label_trans label_vle (currentSets m) (sets m) (sheap m) rs []) as A.
  rewrite app_nil_r in A. specialize (A I).
  destruct (advance label_less (currentSets m) (sets m) (sheap m)) as [st h] eqn:EA. destruct A as [I1 _].
  destruct h as [|k h0].
  { exists []. rewrite (inv_empty _ _ _ _ I1) by (intros j J; by apply elem_of_nil in J).
    split; [cbn; unfold set_Next; by rewrite EA|]. split; [constructor|constructor|done]. }
  set (h := k :: h0) in *.
  destruct (Pop_Some (less label_less st) h ltac:(done)) as (x & h1 & EP).
  destruct (root_min label_less label_trans label_vle _ _ _ _ _ _ I1 EP) as (v & vs0 & Er & (c & Ec & Ea & _) & M & _ & _ & R).
  cbn in R. subst x.
  assert (EL : default [] (labels_at st k) = labels_of v) by (unfold labels_at; rewrite Ec; cbn; by rewrite Ea).
  set (ls := labels_of v).
  assert (HH : forall j w ws, j ∈ h -> rs !! j = Some (w :: ws) -> Compare ls (labels_of w) <= 0).
  { intros j w ws J Ej. pose proof (M j w ws J Ej) as VW. unfold vle, label_less in VW.
    apply Z.ltb_ge in VW. rewrite Compare_opp. unfold ls. lia. }
  pose proof (pop_equal_spec (length h) ls st h rs [] [] I1 SR ltac:(lia) HH
    ltac:(intros j us w J; by apply elem_of_nil in J)) as PE.
  destruct (pop_equal (length h) ls st h []) as [h2 cur] eqn:EPE.
  destruct PE as (new & vs & rs' & E1 & I2 & S2 & O2 & P2 & F2 & L2 & B2). cbn in E1. subst cur.
  rewrite app_nil_r in I2.
  assert (NE : vs <> []).
  { intros ->. cbn in P2. assert (W : v ∈ concat rs').
    { rewrite <- P2, (concat_consume rs k v vs0 Er). apply list_elem_of_here. }
    specialize (B2 v W). unfold ls in B2. rewrite Compare_refl in B2. lia. }
  set (m' := mkMergeSeriesSet ls new h2 st).
  assert (EN : set_Next m = (true, m')).
  { unfold set_Next. rewrite EA. unfold h in *. rewrite EL. fold ls. by rewrite EPE. }
  destruct (IH m' rs') as (gs & G & MG).
  - rewrite P2, length_app in L. destruct vs; [done|]. cbn in L. lia.
  - apply (inv_pend_perm _ _ _ (rev new)); [symmetry; apply Permutation_rev|exact I2].
  - done.
  - exists ((ls, vs) :: gs). split.
    + cbn [groups]. rewrite EN. split; [done|]. split; [|done]. unfold members, m'. cbn. by rewrite O2.
    + destruct (merged_cons ls vs (concat rs') gs NE F2 B2 MG) as [M1 M2 M3]. split; [done|done|]. by rewrite P2.
Qed.
End mergeSeriesSet.


(** * Witnesses *)

Definition list_of (ts : list Z) : list_iterator := mkListIterator (map (fun x => mkSample x (of_Z x)) ts) 0.

Lemma mergeIterator_sorted_witness :
  exists ys, yields (newMergeIterator [list_of [1; 5]; list_of []; list_of [2; 5; 7]]) ys /\
    length ys = 5%nat /\ time_sorted ys.
Proof.
  destruct (mergeIterator_sorted [list_of [1; 5]; list_of []; list_of [2; 5; 7]]
    (map (map (fun x => mkSample x (of_Z x))) [[1; 5]; []; [2; 5; 7]])) as (ys & Y & P & T).
  - repeat constructor.
  - repeat constructor; discriminate.
  - exists ys. split; [exact Y|]. split; [rewrite P; reflexivity|exact T].
Defined.

(** A set of series that are their labels. *)
Definition labels_cursor : Cursor (list Labels) Labels := {|
  c_Next l := match l with [] | [_] => (false, []) | _ :: l' => (true, l') end;
  c_At l := default [] (head l) |}.

