(* ===== verification/TextParse.v ===== *)
(** pkg/textparse: the parser of the text exposition format.  lex.l.go is the
    automaton that golex generates from lex.l; its states and rules are written
    out here as they are there. *)

From S2P Require Import Prelude GoString GoFmt Float Labels.

Module textparse.

(** * The lexer *)

(** The start conditions. *)
Inductive lstate :=
| lstateInit | lstateName | lstateValue | lstateTimestamp
| lstateLabels | lstateLName | lstateLEq | lstateLValue | lstateLValueIn.

Inductive lex_error := EOF | LexError (msg : string).

Record lexer := mkLexer {
  lx_b : string; lx_i : nat; vstart : nat; tstart : nat;
  lx_err : option lex_error; lx_val : float64; lx_ts : option Z;
  offsets : list nat; mstart : nat; mend : nat; nextMstart : nat; lx_state : lstate
}.

Definition set_i (i : nat) (l : lexer) : lexer :=
  mkLexer (lx_b l) i (vstart l) (tstart l) (lx_err l) (lx_val l) (lx_ts l) (offsets l) (mstart l) (mend l) (nextMstart l) (lx_state l).
Definition set_err (e : option lex_error) (l : lexer) : lexer :=
  mkLexer (lx_b l) (lx_i l) (vstart l) (tstart l) e (lx_val l) (lx_ts l) (offsets l) (mstart l) (mend l) (nextMstart l) (lx_state l).
Definition set_state (s : lstate) (l : lexer) : lexer :=
  mkLexer (lx_b l) (lx_i l) (vstart l) (tstart l) (lx_err l) (lx_val l) (lx_ts l) (offsets l) (mstart l) (mend l) (nextMstart l) s.
Definition set_vstart (v : nat) (l : lexer) : lexer :=
  mkLexer (lx_b l) (lx_i l) v (tstart l) (lx_err l) (lx_val l) (lx_ts l) (offsets l) (mstart l) (mend l) (nextMstart l) (lx_state l).
Definition set_tstart (t : nat) (l : lexer) : lexer :=
  mkLexer (lx_b l) (lx_i l) (vstart l) t (lx_err l) (lx_val l) (lx_ts l) (offsets l) (mstart l) (mend l) (nextMstart l) (lx_state l).
Definition set_val (v : float64) (l : lexer) : lexer :=
  mkLexer (lx_b l) (lx_i l) (vstart l) (tstart l) (lx_err l) v (lx_ts l) (offsets l) (mstart l) (mend l) (nextMstart l) (lx_state l).
Definition set_ts (t : option Z) (l : lexer) : lexer :=
  mkLexer (lx_b l) (lx_i l) (vstart l) (tstart l) (lx_err l) (lx_val l) t (offsets l) (mstart l) (mend l) (nextMstart l) (lx_state l).
Definition set_offsets (o : list nat) (l : lexer) : lexer :=
  mkLexer (lx_b l) (lx_i l) (vstart l) (tstart l) (lx_err l) (lx_val l) (lx_ts l) o (mstart l) (mend l) (nextMstart l) (lx_state l).
Definition set_mstart (m : nat) (l : lexer) : lexer :=
  mkLexer (lx_b l) (lx_i l) (vstart l) (tstart l) (lx_err l) (lx_val l) (lx_ts l) (offsets l) m (mend l) (nextMstart l) (lx_state l).
Definition set_mend (m : nat) (l : lexer) : lexer :=
  mkLexer (lx_b l) (lx_i l) (vstart l) (tstart l) (lx_err l) (lx_val l) (lx_ts l) (offsets l) (mstart l) m (nextMstart l) (lx_state l).
Definition set_nextMstart (m : nat) (l : lexer) : lexer :=
  mkLexer (lx_b l) (lx_i l) (vstart l) (tstart l) (lx_err l) (lx_val l) (lx_ts l) (offsets l) (mstart l) (mend l) m (lx_state l).

(** [append(l.offsets, l.i)] *)
Definition mark (i : nat) (l : lexer) : lexer := set_offsets (offsets l ++ [i]) l.

Definition eof : Z := 0.

Definition in_value (s : lstate) : bool := match s with lstateLValueIn | lstateLValue => true | _ => false end.

(** [next] skips null bytes in label values. *)
Fixpoint next_loop (fuel : nat) (l : lexer) : Z * lexer :=
  match fuel with
  | O => (eof, l)
  | S f =>
    let l := set_i (S (lx_i l)) l in
    match String.get (lx_i l) (lx_b l) with
    | None => (eof, set_err (Some EOF) l)
    | Some c => if (rune c =? eof) && in_value (lx_state l) then next_loop f l else (rune c, l)
    end
  end.
Definition next (l : lexer) : Z * lexer := next_loop (S (String.length (lx_b l) - lx_i l)) l.

(** * The automaton *)

Inductive jump := yystate (n : nat) | yyrule (n : nat) | yyabort.

(** [a <= c && c <= b] *)
Definition rg (a b c : Z) : bool := (a <=? c) && (c <=? b).
Definition chr (a : string) (c : Z) : bool := match a with String x _ => c =? rune x | EmptyString => false end.
Definition blank (c : Z) : bool := (c =? 9) || chr " " c.
Definition letter (c : Z) : bool := rg (rune "A") (rune "Z") c || chr "_" c || rg (rune "a") (rune "z") c.

Definition yystates_init (n : nat) (c : Z) : jump :=
  match n with
  | 1%nat =>
    if chr "#" c then yystate 4
    else if chr ":" c || letter c then yystate 6
    else if (c =? 9) || (c =? 10) || (c =? 13) || chr " " c then yystate 3
    else if c =? 0 then yystate 2
    else yyabort
  | 2%nat => yyrule 1
  | 3%nat => if (c =? 9) || (c =? 10) || (c =? 13) || chr " " c then yystate 3 else yyrule 3
  | 4%nat => if c =? 10 then yystate 5 else if rg 1 9 c || (c =? 11) || (c =? 12) || rg 14 255 c then yystate 4 else yyabort
  | 5%nat => yyrule 2
  | _ => if rg (rune "0") (rune ":") c || letter c then yystate 6 else yyrule 4
  end.

Definition yystates_name (n : nat) (c : Z) : jump :=
  match n with
  | 7%nat => if blank c then yystate 8 else if chr "{" c then yystate 9 else yyabort
  | 8%nat => if blank c then yystate 8 else if chr "{" c then yystate 9 else yyrule 6
  | _ => yyrule 5
  end.

(** Bytes that can continue a value. *)
Definition dark (c : Z) : bool := rg 1 8 c || (c =? 11) || (c =? 12) || rg 14 31 c || rg (rune "!") 255 c.

Definition yystates_value (n : nat) (c : Z) : jump :=
  match n with
  | 10%nat => if chr "N" c then yystate 13 else if blank c then yystate 12
          else if rg 1 8 c || (c =? 11) || (c =? 12) || rg 14 31 c || rg (rune "!") (rune "M") c || rg (rune "O") 255 c then yystate 11
          else yyabort
  | 11%nat => if dark c then yystate 11 else yyrule 17
  | 12%nat => if blank c then yystate 12 else yyrule 15
  | 13%nat => if chr "a" c then yystate 14
          else if rg 1 8 c || (c =? 11) || (c =? 12) || rg 14 31 c || rg (rune "!") (rune "`") c || rg (rune "b") 255 c then yystate 11
          else yyrule 17
  | 14%nat => if chr "N" c then yystate 15
          else if rg 1 8 c || (c =? 11) || (c =? 12) || rg 14 31 c || rg (rune "!") (rune "M") c || rg (rune "O") 255 c then yystate 11
          else yyrule 17
  | _ => if dark c then yystate 11 else yyrule 16
  end.

Definition yystates_timestamp (n : nat) (c : Z) : jump :=
  match n with
  | 16%nat => if (c =? 10) || (c =? 13) then yystate 19 else if blank c then yystate 18 else if c =? 0 then yystate 17
          else if rg (rune "0") (rune "9") c then yystate 20 else yyabort
  | 17%nat => yyrule 21
  | 18%nat => if blank c then yystate 18 else yyrule 18
  | 19%nat => if (c =? 10) || (c =? 13) then yystate 19 else yyrule 20
  | _ => if rg (rune "0") (rune "9") c then yystate 20 else yyrule 19
  end.

Definition yystates_labels (n : nat) (c : Z) : jump :=
  match n with
  | 21%nat => if chr "," c then yystate 23 else if blank c then yystate 22 else if chr "}" c then yystate 25 else yyrule 9
  | 22%nat => if blank c then yystate 22 else yyrule 7
  | 23%nat => if blank c then yystate 24 else if chr "}" c then yystate 25 else yyrule 9
  | 24%nat => if blank c then yystate 24 else yyrule 9
  | _ => yyrule 8
  end.

Definition yystates_lname (n : nat) (c : Z) : jump :=
  match n with
  | 26%nat => if letter c then yystate 27 else yyabort
  | _ => if rg (rune "0") (rune "9") c || letter c then yystate 27 else yyrule 10
  end.

Definition yystates_leq (n : nat) (c : Z) : jump :=
  match n with
  | 28%nat | 29%nat => if chr "=" c then yystate 30 else if blank c then yystate 29 else yyabort
  | _ => yyrule 11
  end.

Definition yystates_lvalue (n : nat) (c : Z) : jump :=
  match n with
  | 31%nat => if c =? 34 then yystate 33 else if blank c then yystate 32 else yyabort
  | 32%nat => if blank c then yystate 32 else yyrule 12
  | _ => yyrule 13
  end.

Definition yystates_lvalue_in (n : nat) (c : Z) : jump :=
  match n with
  | 34%nat | 35%nat =>
    if c =? 34 then yystate 36 else if chr "\" c then yystate 37
    else if rg 1 (rune "!") c || rg (rune "#") (rune "[") c || rg (rune "]") 255 c then yystate 35 else yyabort
  | 36%nat => yyrule 14
  | _ => if rg 1 9 c || rg 11 255 c then yystate 35 else yyabort
  end.

(** The switch at the label of state [n]. *)
Definition delta (n : nat) (c : Z) : jump :=
  (if n <=? 6 then yystates_init n c
   else if n <=? 9 then yystates_name n c
   else if n <=? 15 then yystates_value n c
   else if n <=? 20 then yystates_timestamp n c
   else if n <=? 25 then yystates_labels n c
   else if n <=? 27 then yystates_lname n c
   else if n <=? 30 then yystates_leq n c
   else if n <=? 33 then yystates_lvalue n c
   else yystates_lvalue_in n c)%nat.

(** [yystart] of a start condition. *)
Definition start (s : lstate) : nat :=
  match s with
  | lstateInit => 1 | lstateName => 7 | lstateValue => 10 | lstateTimestamp => 16 | lstateLabels => 21
  | lstateLName => 26 | lstateLEq => 28 | lstateLValue => 31 | lstateLValueIn => 34
  end.

(** The automaton from state [n]: entering a state reads the next byte. *)
Fixpoint run (fuel : nat) (n : nat) (c : Z) (l : lexer) : option (jump * Z * lexer) :=
  match delta n c with
  | yystate n' => match fuel with O => None | S f => let (c, l) := next l in run f n' c l end
  | j => Some (j, c, l)
  end.

(** * The rules *)

Inductive action := Again (l : lexer) | Return (token : Z) (l : lexer).

(** [s[i:j]], a panic when out of range. *)
Definition slice (i j : nat) (s : string) : option string :=
  if ((i <=? j) && (j <=? String.length s))%nat then Some (str_slice i j s) else None.

(** [strconv.ParseInt(s, 10, 64)] of digits. *)
Definition ParseInt10 (s : string) : result num_error Z :=
  match ParseUint10 s with Err e => Err e | Ok v => if v <? 2 ^ 63 then Ok v else Err ErrRange end.

(** The number [strconv.ParseFloat] returns next to an error. *)
Definition ParseFloat_value (s : string) (e : num_error) : float64 :=
  match e, s with
  | ErrSyntax_num, _ | ErrRange, EmptyString => of_Z 0
  | ErrRange, String c _ => Inf (rune c =? rune "-")
  end.

Section lex.
Context `{UT : UnicodeTables}.

Definition fail (msg : string) (l : lexer) : action := Return (-1) (set_err (Some (LexError msg)) l).

Definition rule (n : nat) (l : lexer) : option action :=
  let i := lx_i l in
  match n with
  | 1 => Some (Return eof l)
  | 2 | 3 => Some (Again (set_mstart i l))
  | 4 => Some (Again (set_mend i (mark i (set_state lstateName l))))
  | 5 => Some (Again (set_state lstateLabels l))
  | 6 => Some (Again (set_vstart i (set_state lstateValue l)))
  | 7 => Some (Again l)
  | 8 => Some (Again (set_mend i (set_state lstateValue l)))
  | 9 => Some (Again (mark i (set_state lstateLName l)))
  | 10 => Some (Again (mark i (set_state lstateLEq l)))
  | 11 => Some (Again (set_state lstateLValue l))
  | 12 => Some (Again l)
  | 13 => Some (Again (mark i (set_state lstateLValueIn l)))
  | 14 =>
    let l := set_state lstateLabels l in
    o ← last (offsets l); v ← slice o (i - 1) (lx_b l);
    Some (if negb (ValidString v) then fail "invalid UTF-8 label value" l else Again (mark (i - 1) l))
  | 15 => Some (Again (set_vstart i l))
  | 16 => Some (Again (set_state lstateTimestamp (set_val NaN l)))
  | 17 =>
    v ← slice (vstart l) i (lx_b l);
    Some (match ParseFloat_signed v with
          | Err e => fail (num_error_msg "ParseFloat" v e) (set_val (ParseFloat_value v e) l)
          | Ok f => Again (set_state lstateTimestamp (set_err None (set_val f l)))
          end)
  | 18 => Some (Again (set_tstart i l))
  | 19 =>
    v ← slice (tstart l) i (lx_b l);
    Some (match ParseInt10 v with Err e => fail (num_error_msg "ParseInt" v e) l | Ok t => Again (set_ts (Some t) l) end)
  | 20 => Some (Return 1 (set_nextMstart i l))
  | _ => Some (Return 1 l)
  end%nat.

(** From [yystate0]; [None] is a panic. *)
Fixpoint lex_loop (fuel : nat) (c : Z) (l : lexer) : option (Z * lexer) :=
  match fuel with
  | O => None
  | S f =>
    match run (2 + (String.length (lx_b l) - lx_i l)) (start (lx_state l)) c l with
    | Some (yyrule n, c, l) =>
      match rule n l with
      | Some (Again l) => lex_loop f c l
      | Some (Return t l) => Some (t, l)
      | None => None
      end
    | Some (_, _, l) => Some (-1, set_err (Some (LexError "no token found")) l)
    | None => None
    end
  end.

Definition Lex (l : lexer) : option (Z * lexer) :=
  let l := set_state lstateInit l in
  match String.get (lx_i l) (lx_b l) with
  | None => Some (eof, l)
  | Some c =>
    let l := set_offsets [] (set_mstart (nextMstart l) (set_ts None l)) in
    lex_loop (2 * String.length (lx_b l) + 2) (rune c) l
  end.

(** * The parser *)

(** [New] of a parser; its own error and value are never set. *)
Definition New (b : string) : lexer := mkLexer b 0 0 0 None (of_Z 0) None [] 0 0 0 lstateInit.

(** [Next]; the token 1 is a sample. *)
Definition Next (l : lexer) : option (bool * lexer) :=
  r ← Lex l;
  let '(t, l) := r in
  if (t =? -1) || (t =? eof) then Some (false, l) else if t =? 1 then Some (true, l) else None.

Definition At (l : lexer) : option (string * option Z * float64) :=
  m ← slice (mstart l) (mend l) (lx_b l); Some (m, lx_ts l, lx_val l).

Definition Err (l : lexer) : option string :=
  match lx_err l with None | Some EOF => None | Some (LexError s) => Some s end.

(** The replacer: the first of its patterns that matches at a position. *)
Fixpoint replace (s : string) : string :=
  match s with
  | EmptyString => ""
  | String c s1 =>
    if rune c =? rune "\" then
      match s1 with
      | String d s' =>
        if rune d =? 34 then String "034" (replace s')
        else if rune d =? rune "\" then String "\" (replace s')
        else if rune d =? rune "n" then String "010" (replace s')
        else if rune d =? rune "t" then String "009" (replace s')
        else String c (replace s1)
      | EmptyString => String c ""
      end
    else String c (replace s1)
  end.

(** The loop of [Metric] over the offsets behind the first. *)
Fixpoint metric_labels (s : string) (base : nat) (os : list nat) : option Labels :=
  match os with
  | [] => Some []
  | a :: b :: c :: d :: os' =>
    n ← slice (a - base) (b - base) s; v ← slice (c - base) (d - base) s;
    ls ← metric_labels s base os';
    Some (mkLabel n (if contains_byte v (rune "\") then replace v else v) :: ls)
  | _ => None
  end.

(** [Metric] of an empty label set, and the string it returns. *)
Definition Metric (l : lexer) : option (string * Labels) :=
  s ← slice (mstart l) (mend l) (lx_b l);
  match offsets l with
  | [] => None
  | o :: os =>
    n ← slice 0 (o - mstart l) s; ls ← metric_labels s (mstart l) os;
    Some (s, mkLabel MetricName n :: sort_labels ls)
  end.
End lex.
End textparse.

(** What the parser yields for a sample: the text of its metric, the label set
    it stands for, the timestamp if there is one, and the value. *)
Record pentry := mkPEntry { p_met : string; p_lset : Labels; p_tp : option Z; p_v : float64 }.

Section parse.
Context `{UT : UnicodeTables}.

Definition sample_of (l : textparse.lexer) : option pentry :=
  a ← textparse.At l; m ← textparse.Metric l; Some (mkPEntry a.1.1 m.2 a.1.2 a.2).

(** All the samples of a body and the error at its end, as [append] reads them. *)
Fixpoint parse_loop (fuel : nat) (l : textparse.lexer) : option (list pentry * option string) :=
  match fuel with
  | O => None
  | S f =>
    r ← textparse.Next l;
    let '(ok, l) := r in
    if ok : bool then
      e ← sample_of l; rest ← parse_loop f l; Some (e :: rest.1, rest.2)
    else Some ([], textparse.Err l)
  end.
Definition read_samples (b : string) : option (list pentry * option string) := parse_loop (String.length b + 1) (textparse.New b).
End parse.
