(* ===== verification/TextFacts.v ===== *)
(** The lexer of the exposition format reads every input to its end: its
    automaton moves forward, no slice is out of range, and the offsets it keeps
    come in groups of four. *)

From S2P Require Import Prelude GoString GoFmt Float Labels TextParse.
Import textparse.

(** * The automaton, state by state *)

#[export] Instance lstate_eq_dec : EqDecision lstate.
Proof. solve_decision. Defined.

(** The start condition a state belongs to. *)
Definition group (n : nat) : lstate :=
  (if n <=? 6 then lstateInit else if n <=? 9 then lstateName else if n <=? 15 then lstateValue
   else if n <=? 20 then lstateTimestamp else if n <=? 25 then lstateLabels else if n <=? 27 then lstateLName
   else if n <=? 30 then lstateLEq else if n <=? 33 then lstateLValue else lstateLValueIn)%nat.

(** The rules that end a token of a start condition. *)
Definition rules (s : lstate) : list nat :=
  match s with
  | lstateInit => [1; 2; 3; 4] | lstateName => [5; 6] | lstateValue => [15; 16; 17] | lstateTimestamp => [18; 19; 20; 21]
  | lstateLabels => [7; 8; 9] | lstateLName => [10] | lstateLEq => [11] | lstateLValue => [12; 13] | lstateLValueIn => [14]
  end%nat.

(** The states and rules that only the end of the input, or a null byte, leads to. *)
Definition at_end_state (n : nat) : bool := ((n =? 2) || (n =? 17))%nat.
Definition at_end_rule (r : nat) : bool := ((r =? 1) || (r =? 21))%nat.

(** A state moves inside its group and never back to the state it starts from;
    on a null byte it stops or goes to a state that ends the token at once. *)
Definition step_ok (n : nat) (c : Z) : bool :=
  match delta n c with
  | yystate n' =>
    bool_decide (group n' = group n) && (n' <=? 37)%nat && negb (n' =? start (group n))%nat &&
    (negb (c =? 0) || at_end_state n') && negb (at_end_state n)
  | yyrule r =>
    bool_decide (r ∈ rules (group n)) && (negb (n =? start (group n)) || (r =? 9))%nat &&
    bool_decide (at_end_rule r = at_end_state n)
  | yyabort => negb (at_end_state n)
  end.

Lemma all_steps_ok : forallb (fun n => forallb (fun c => step_ok n (Z.of_nat c)) (seq 0 256)) (seq 0 38) = true.
Proof. vm_compute. reflexivity. Qed.

Lemma every_step_ok n c : (n <= 37)%nat -> 0 <= c <= 255 -> step_ok n c = true.
Proof.
  intros N C. pose proof all_steps_ok as A. rewrite forallb_forall in A.
  specialize (A n ltac:(apply in_seq; lia)). rewrite forallb_forall in A.
  specialize (A (Z.to_nat c) ltac:(apply in_seq; lia)). by rewrite Z2Nat.id in A by lia.
Qed.

(** * Reading bytes *)

Definition len (l : lexer) : nat := String.length (lx_b l).

(** The byte the automaton looks at; [eof] behind the end. *)
Definition byte_at (i : nat) (b : string) : Z := match String.get i b with Some c => rune c | None => eof end.

Lemma byte_at_range i b : 0 <= byte_at i b <= 255.
Proof. unfold byte_at, eof. destruct (String.get i b); [apply rune_range|lia]. Qed.

Lemma get_None i b : String.get i b = None <-> (String.length b <= i)%nat.
Proof.
  revert i. induction b as [|c b IH]; intros [|i]; cbn; try (split; [done|lia]); try (split; [lia|done]).
  rewrite IH. lia.
Qed.

Lemma byte_at_end i b : byte_at i b <> 0 -> (i < String.length b)%nat.
Proof. unfold byte_at. destruct (String.get i b) eqn:E; [|done]. intros _. apply Nat.nle_gt. intros L%get_None. congruence. Qed.

(** [moved l l' i']: [l'] is [l] with the position [i'], and possibly another error. *)
Definition moved (l l' : lexer) : Prop := exists i e, l' = set_i i (set_err e l).

Lemma moved_refl l : moved l l.
Proof. exists (lx_i l), (lx_err l). by destruct l. Qed.

Lemma moved_trans l l' l'' : moved l l' -> moved l' l'' -> moved l l''.
Proof. intros (i & e & ->) (i' & e' & ->). by exists i', e'. Qed.

Lemma next_loop_spec fuel l :
  (len l - lx_i l < fuel)%nat ->
  let '(c, l') := next_loop fuel l in
  moved l l' /\ c = byte_at (lx_i l') (lx_b l') /\ (lx_i l < lx_i l' <= S (lx_i l) `max` len l)%nat.
Proof.
  unfold len. revert l. induction fuel as [|f IH]; intros l F; [lia|]. cbn [next_loop].
  destruct (String.get _ _) as [a|] eqn:G; [destruct (_ && _) eqn:K|]; cbn in *.
  - assert (S (lx_i l) < String.length (lx_b l))%nat.
    { apply Nat.nle_gt. intros L%get_None. congruence. }
    specialize (IH (set_i (S (lx_i l)) l)). cbn in IH. specialize (IH ltac:(lia)).
    destruct (next_loop _ _) as [c l']. destruct IH as (M & E & B). split; [|split; [done|lia]].
    eapply moved_trans; [|done]. exists (S (lx_i l)), (lx_err l). by destruct l.
  - split; [exists (S (lx_i l)), (lx_err l); by destruct l|]. split; [|lia]. unfold byte_at. cbn. by rewrite G.
  - split; [by exists (S (lx_i l)), (Some EOF)|]. split; [|lia]. unfold byte_at. cbn. by rewrite G.
Qed.

Lemma next_spec l :
  let '(c, l') := next l in
  moved l l' /\ c = byte_at (lx_i l') (lx_b l') /\ (lx_i l < lx_i l' <= S (lx_i l) `max` len l)%nat.
Proof. apply next_loop_spec. unfold len. lia. Qed.

(** How the automaton may leave state [n]. *)
Definition token_end (n : nat) (l : lexer) (j : jump) (l' : lexer) : Prop :=
  match j with
  | yystate _ => False
  | yyrule r => r ∈ rules (group n) /\ (n = start (group n) -> r = 9%nat \/ (lx_i l < lx_i l')%nat) /\
                (lx_i l' <= len l' \/ at_end_rule r = true)%nat
  | yyabort => True
  end.

Lemma token_end_weaken n n' l l' l'' j :
  group n = group n' -> (lx_i l < lx_i l' <= lx_i l'')%nat -> token_end n' l' j l'' -> token_end n l j l''.
Proof. intros G B. unfold token_end. rewrite G. destruct j as [|r|]; [done| |done].
  intros (R & _ & E). split; [done|]. split; [|done]. intros _. right. lia.
Qed.

(** A token: the automaton stops, at a rule of its start condition or without
    one; a token that is not empty moves the position. *)
Lemma token_spec fuel n l :
  (n <= 37)%nat -> (lx_i l <= len l \/ at_end_state n = true)%nat ->
  (1 + (len l - lx_i l) <= fuel \/ at_end_state n = true)%nat ->
  exists j c' l', run fuel n (byte_at (lx_i l) (lx_b l)) l = Some (j, c', l') /\
    moved l l' /\ c' = byte_at (lx_i l') (lx_b l') /\ (lx_i l <= lx_i l')%nat /\
    token_end n l j l'.
Proof.
  assert (forall fuel n l, (n <= 37)%nat -> (lx_i l <= len l \/ at_end_state n = true)%nat ->
    match delta n (byte_at (lx_i l) (lx_b l)) with
    | yystate n' => True
    | _ => exists j c' l', run fuel n (byte_at (lx_i l) (lx_b l)) l = Some (j, c', l') /\
        moved l l' /\ c' = byte_at (lx_i l') (lx_b l') /\ (lx_i l <= lx_i l')%nat /\ token_end n l j l'
    end) as Stop.
  { intros f m k N I. pose proof (every_step_ok m _ N (byte_at_range (lx_i k) (lx_b k))) as S. unfold step_ok in S.
    destruct (delta m _) as [n'|r|] eqn:D; [done| |];
      (eexists _, _, _; split; [destruct f; cbn [run]; rewrite D; reflexivity|]; split; [apply moved_refl|]; do 2 (split; [done|])); [|done].
    apply andb_true_iff in S as [[S1 S2]%andb_true_iff S3]. apply bool_decide_eq_true in S1, S3. split; [done|].
    split; [|destruct I; [by left|right; congruence]].
    intros E%Nat.eqb_eq. rewrite E in S2. left. by apply Nat.eqb_eq. }
  revert n l. induction fuel as [|f IH]; intros n l N I F; pose proof (every_step_ok n _ N (byte_at_range (lx_i l) (lx_b l))) as K;
    unfold step_ok in K.
  - specialize (Stop 0%nat n l N I). destruct (delta n _) as [n'|r|] eqn:D; [|done|done].
    apply andb_true_iff in K as [_ K]. apply negb_true_iff in K. destruct F; [lia|congruence].
  - specialize (Stop (S f) n l N I). cbn [run] in *. destruct (delta n _) as [n'|r|] eqn:D; [clear Stop|done|done].
    repeat match goal with H : _ && _ = true |- _ => apply andb_true_iff in H as [? ?] end.
    pose proof (next_spec l) as X. destruct (next l) as [c l'] eqn:E. destruct X as (M & -> & B).
    assert (len l' = len l) as L by (by destruct M as (? & ? & ->)).
    assert (lx_i l < len l \/ at_end_state n' = true)%nat as P.
    { destruct (byte_at (lx_i l) (lx_b l) =? 0) eqn:Z; [by right|left]. apply byte_at_end. lia. }
    destruct (IH n' l') as (j & c' & l'' & R & M' & C' & B' & J);
      [by apply Nat.leb_le|rewrite L; destruct P; [left; lia|by right]|rewrite L; destruct P; [left; destruct F; [lia|by destruct (at_end_state n)]|by right]|].
    exists j, c', l''. split; [done|]. split; [by eapply moved_trans|]. split; [done|]. split; [lia|].
    apply (token_end_weaken n n' l l'); [symmetry; by eapply bool_decide_eq_true|lia|done].
Qed.

(** * The rules *)

(** Positions in ascending order between two bounds. *)
Fixpoint asc (lo : nat) (os : list nat) (hi : nat) : Prop :=
  match os with
  | [] => (lo <= hi)%nat
  | o :: os => (lo <= o)%nat /\ asc o os hi
  end.

Lemma asc_le lo os hi : asc lo os hi -> (lo <= hi)%nat.
Proof. revert lo. induction os as [|o os IH]; intros lo; cbn; [done|]. intros [? ?%IH]. lia. Qed.

Lemma asc_weaken lo os hi hi' : asc lo os hi -> (hi <= hi')%nat -> asc lo os hi'.
Proof. revert lo. induction os as [|o os IH]; intros lo; cbn; [lia|]. intros [? ?] L. eauto. Qed.

Lemma asc_snoc lo os hi hi' : asc lo os hi -> (hi <= hi')%nat -> asc lo (os ++ [hi]) hi'.
Proof. revert lo. induction os as [|o os IH]; intros lo; cbn; [lia|]. intros [? ?] L. eauto. Qed.

Lemma asc_last lo os hi o : asc lo os hi -> last os = Some o -> (o <= hi)%nat.
Proof.
  revert lo. induction os as [|o' os IH]; intros lo; [done|]. intros [? A]. destruct os as [|o'' os]; [|by apply (IH o')].
  cbn. intros [= ->]. by apply asc_le in A.
Qed.

(** How many positions a state has marked. *)
Definition count (s : lstate) (n : nat) : Prop :=
  match s with
  | lstateInit => n = 0%nat
  | lstateName | lstateLabels | lstateValue | lstateTimestamp => exists k, n = (4 * k + 1)%nat
  | lstateLName => exists k, n = (4 * k + 2)%nat
  | lstateLEq | lstateLValue => exists k, n = (4 * k + 3)%nat
  | lstateLValueIn => exists k, n = (4 * k + 4)%nat
  end.

(** Where the marked positions end: the metric is complete once its value is read. *)
Definition marks_end (l : lexer) : nat :=
  match lx_state l with lstateName | lstateValue | lstateTimestamp => mend l | _ => lx_i l end.

(** The positions the lexer keeps are behind it. *)
Definition behind (l : lexer) : Prop := (nextMstart l <= lx_i l /\ vstart l <= lx_i l /\ tstart l <= lx_i l)%nat.

Definition lex_ok (l : lexer) : Prop :=
  behind l /\ (lx_i l <= len l)%nat /\ asc (mstart l) (offsets l) (marks_end l) /\ (marks_end l <= lx_i l)%nat /\
  count (lx_state l) (length (offsets l)).

(** A lexer that has read a sample. *)
Definition sample_ok (l : lexer) : Prop :=
  (mend l <= len l)%nat /\ asc (mstart l) (offsets l) (mend l) /\ exists k, length (offsets l) = (4 * k + 1)%nat.

(** What the loop of the lexer uses up. *)
Definition measure (l : lexer) : nat := 2 * (len l - lx_i l) + match lx_state l with lstateLName => 0 | _ => 1 end.

Lemma slice_Some i j s : (i <= j <= String.length s)%nat -> slice i j s = Some (str_slice i j s).
Proof. intros [? ?]. unfold slice. by rewrite (proj2 (Nat.leb_le _ _)), (proj2 (Nat.leb_le _ _)). Qed.

Section rules.
Context `{UT : UnicodeTables}.

Definition rule_post (l : lexer) (i : nat) (a : option action) : Prop :=
  match a with
  | None => False
  | Some (Again l') => lex_ok l' /\ lx_b l' = lx_b l /\ lx_i l' = i /\ (measure l' < measure l)%nat
  | Some (Return t l') =>
    behind l' /\ lx_b l' = lx_b l /\ lx_i l' = i /\ (t = eof \/ t = -1 \/ t = 1 /\ (lx_i l < i)%nat /\ sample_ok l')
  end.

Lemma rule_ok l r i e :
  lex_ok l -> r ∈ rules (lx_state l) -> (r = 9%nat \/ (lx_i l < i)%nat) -> (lx_i l <= i)%nat ->
  (i <= len l \/ at_end_rule r = true)%nat ->
  rule_post l i (rule r (set_i i (set_err e l))).
Proof.
  destruct l as [b i0 vs ts err v t os ms me nm s]. unfold lex_ok, behind, marks_end, measure, len. cbn.
  intros ((? & ? & ?) & ? & A & ? & C) R M L E. pose proof (asc_le _ _ _ A).
  destruct s; cbn in R, A, C; repeat (apply elem_of_cons in R as [->|R]); try by apply elem_of_nil in R.
  all: try (apply nil_length_inv in C as ->). all: try (destruct M as [|M]; [lia|]).
  all: cbn in E; try (destruct E as [E|]; [|done]); cbn.
  all: try match goal with |- context [last ?x] =>
    destruct (last x) as [o|] eqn:O; [pose proof (asc_last _ _ _ _ A O)|apply last_None in O; rewrite O in C; cbn in C; destruct C; lia]; cbn end.
  all: try (rewrite slice_Some by lia; cbn).
  all: try match goal with |- context [ParseFloat_signed ?x] => destruct (ParseFloat_signed x) end.
  all: try match goal with |- context [ParseInt10 ?x] => destruct (ParseInt10 x) end.
  all: try match goal with |- context [ValidString ?x] => destruct (ValidString x) end.
  all: unfold lex_ok, behind, sample_ok, marks_end, measure, len; cbn; try rewrite length_app; cbn.
  all: try (destruct C as [k C]).
  all: repeat split; try lia; eauto using asc_weaken; try (eapply asc_snoc; [eapply asc_weaken; [done|]; lia|lia]);
    try (exists k; lia); try (exists (S k); lia); try (exists 0%nat; lia); try (right; right; repeat split; [lia|lia|eauto using asc_weaken|exists k; lia]).
Qed.

(** * The loops *)

Definition token_post (l : lexer) (t : Z) (l' : lexer) : Prop :=
  behind l' /\ lx_b l' = lx_b l /\ (t = eof \/ t = -1 \/ t = 1 /\ (lx_i l < lx_i l')%nat /\ sample_ok l').

Lemma lex_loop_ok fuel l :
  lex_ok l -> (measure l < fuel)%nat ->
  exists t l', lex_loop fuel (byte_at (lx_i l) (lx_b l)) l = Some (t, l') /\ token_post l t l'.
Proof.
  revert l. induction fuel as [|f IH]; intros l O F; [lia|]. pose proof O as (B & I & A & M & C).
  destruct (token_spec (2 + (String.length (lx_b l) - lx_i l)) (start (lx_state l)) l) as (j & c & l' & R & (i & e & ->) & -> & L & J);
    [by destruct (lx_state l); apply Nat.leb_le|by left|left; unfold len; lia|].
  cbn [lex_loop]. rewrite R. destruct j as [n|r|]; [done| |].
  - destruct J as (J1 & J2 & J3). assert (group (start (lx_state l)) = lx_state l) as G by by destruct (lx_state l).
    rewrite G in *. specialize (J2 eq_refl). pose proof (rule_ok l r i e O J1 J2 L J3) as P.
    destruct (rule r _) as [[l'|t l']|]; [| |done].
    + destruct P as (O' & Eb & Ei & Em). destruct (IH l' O' ltac:(lia)) as (t & l'' & E & B' & E' & T).
      cbn. rewrite <- Ei, <- Eb, E. exists t, l''. split; [done|]. split; [done|]. split; [congruence|].
      destruct T as [T|[T|(T & T' & T'')]]; [auto..|]. right. right. split; [done|]. split; [cbn in *; lia|done].
    + destruct P as (B' & Eb & Ei & T). exists t, l'. split; [done|]. split; [done|]. split; [done|].
      rewrite Ei. done.
  - eexists _, _. split; [done|]. split; [unfold behind in *; cbn in *; lia|]. split; [done|]. by right; left.
Qed.

Lemma Lex_ok l : behind l -> exists t l', Lex l = Some (t, l') /\ token_post l t l' /\ (t = 1 -> (lx_i l < len l)%nat).
Proof.
  intros B. unfold Lex. cbn. destruct (String.get (lx_i l) (lx_b l)) as [c|] eqn:G.
  - set (l1 := set_offsets _ _). destruct (lex_loop_ok (2 * String.length (lx_b l) + 2) l1) as (t & l' & E & P).
    + destruct l as [b i vs ts err v tm os ms me nm s]. unfold behind in B. cbn in *.
      assert (i < String.length b)%nat by (apply Nat.nle_gt; intros X%get_None; congruence).
      unfold lex_ok, behind, len, marks_end. cbn. lia.
    + unfold measure, len. cbn. lia.
    + exists t, l'. cbn in E. unfold byte_at in E. rewrite G in E. split; [done|]. split; [by destruct l|]. intros _.
      apply Nat.nle_gt. intros X%get_None. congruence.
  - eexists _, _. split; [done|]. split; [|done]. split; [done|]. split; [done|]. by left.
Qed.

Lemma metric_labels_ok s base lo os hi k :
  (base <= lo)%nat -> asc lo os hi -> (hi - base <= String.length s)%nat -> length os = (4 * k)%nat ->
  exists ls, metric_labels s base os = Some ls.
Proof.
  revert os lo. induction k as [|k IH]; intros os lo L A H K; [apply nil_length_inv in K as ->; by eexists|].
  destruct os as [|a [|b [|c [|d os]]]]; cbn in K; try lia. cbn in A. destruct A as (A1 & A2 & A3 & A4 & A).
  pose proof (asc_le _ _ _ A). cbn [metric_labels].
  rewrite slice_Some by lia. cbn. rewrite slice_Some by lia. cbn.
  destruct (IH os d) as [ls ->]; [lia|done..|lia|]. by eexists.
Qed.

Lemma sample_of_ok l : sample_ok l -> exists e, sample_of l = Some e.
Proof.
  intros (M & A & k & K). pose proof (asc_le _ _ _ A) as L. unfold sample_of, At, Metric.
  rewrite slice_Some by (unfold len in M; lia). cbn.
  destruct (offsets l) as [|o os] eqn:O; [cbn in K; lia|]. cbn in A, K. destruct A as [A1 A2].
  pose proof (asc_le _ _ _ A2) as L2. assert (String.length (str_slice (mstart l) (mend l) (lx_b l)) = mend l - mstart l)%nat as E.
  { unfold len in M. rewrite str_length_slice; lia. }
  rewrite slice_Some by (rewrite E; lia). cbn.
  destruct (metric_labels_ok (str_slice (mstart l) (mend l) (lx_b l)) (mstart l) o os (mend l) k) as [ls ->];
    [lia|done|lia|lia|by eexists].
Qed.

(** The calls of a reader: while [Next] returns true it takes the sample that
    [At] and [Metric] return, and [Err] when it returns false. *)
Inductive reads : lexer -> list pentry -> option string -> Prop :=
| reads_end l l' : Next l = Some (false, l') -> reads l [] (Err l')
| reads_sample l l' e es err : Next l = Some (true, l') -> sample_of l' = Some e -> reads l' es err -> reads l (e :: es) err.

Lemma parse_loop_ok fuel l :
  behind l -> (len l - lx_i l < fuel)%nat ->
  exists es err, parse_loop fuel l = Some (es, err) /\ reads l es err /\ (length es <= len l - lx_i l)%nat.
Proof.
  revert l. induction fuel as [|f IH]; intros l B F; [lia|]. cbn [parse_loop].
  destruct (Lex_ok l B) as (t & l' & EL & (B' & Eb & T) & I).
  assert (Next l = Some (if (t =? -1) || (t =? eof) then false else true, l') \/ t = 1 /\ Next l = Some (true, l')) as N.
  { unfold Next. rewrite EL. cbn. destruct T as [->|[->|(-> & _)]]; auto. }
  destruct T as [->|[->|(-> & L & S)]].
  1, 2: destruct N as [N|[? _]]; [|done]; cbn in N; rewrite N; cbn; eexists _, _; split; [done|]; split; [by constructor|cbn; lia].
  assert (Next l = Some (true, l')) as -> by (by destruct N as [N|[_ N]]). destruct (sample_of_ok l' S) as [e Ee].
  destruct (IH l' B') as (es & err & E & R & C); [specialize (I eq_refl); unfold len in *; rewrite Eb; lia|].
  cbn. rewrite Ee. cbn. rewrite E. eexists _, _. split; [done|]. split; [|specialize (I eq_refl); unfold len in *; rewrite Eb in C; cbn; lia].
  eapply reads_sample; [|done..]. by destruct N as [N|[_ N]].
Qed.

(** C31: reading a text with the parser of the exposition format ends, whatever
    the text is: calling [Next], and for every sample [At] and [Metric], never
    panics; there are at most as many samples as bytes; and then [Next] returns
    false, and [Err] the error there may be. *)
Theorem textparse_total (b : string) :
  exists es err, read_samples b = Some (es, err) /\ reads (New b) es err /\ (length es <= String.length b)%nat.
Proof.
  destruct (parse_loop_ok (String.length b + 1) (New b)) as (es & err & E & R & C); [unfold behind; cbn; lia|unfold len; cbn; lia|].
  exists es, err. split; [exact E|]. split; [exact R|]. unfold len in C. cbn in C. lia.
Qed.
End rules.
