(* ===== verification/Storage.v ===== *)
(** storage/interface.go: the errors, and the interfaces through which the other
    components use a storage. *)

From S2P Require Import Prelude Float Labels.

(** The errors a storage exposes, the sample limit of scrape/target.go, and any
    other by its text. *)
Inductive error :=
| ErrNotFound
| ErrOutOfOrderSample
| ErrDuplicateSampleForTimestamp
| ErrOutOfBounds
| errSampleLimit
| OtherError (s : string).

#[export] Instance error_eq_dec : EqDecision error.
Proof. solve_decision. Defined.

Definition error_Error (e : error) : string :=
  match e with
  | ErrNotFound => "not found"
  | ErrOutOfOrderSample => "out of order sample"
  | ErrDuplicateSampleForTimestamp => "duplicate sample for timestamp"
  | ErrOutOfBounds => "out of bounds"
  | errSampleLimit => "sample limit exceeded"
  | OtherError s => s
  end.

(** [Appender]: each call may change the appender. *)
Class Appender (A : Type) := {
  ap_Add : Labels -> Z -> float64 -> A -> (Z * option error) * A;
  ap_AddFast : Labels -> Z -> Z -> float64 -> A -> option error * A;
  ap_Commit : A -> option error * A;
  ap_Rollback : A -> option error * A
}.

(** [Querier]: [M] stands for the parameters and matchers of [Select], [SS]
    for the sets of series. *)
Class Querier (Q M SS : Type) := {
  q_is_noop : Q -> bool;
  q_Select : Q -> M -> result error SS;
  q_LabelValues : Q -> string -> result error (list string);
  q_Close : Q -> option error
}.

Class Storage (St Q A : Type) := {
  st_StartTime : St -> result error Z;
  st_Querier : St -> Z -> Z -> result error Q;
  st_Appender : St -> result error A;
  st_Close : St -> option error
}.
