(* ===== verification/Fanout.v ===== *)
(** storage/fanout.go: the storage that forwards to a primary and several
    secondary storages, its appender, and the merging querier. *)

From S2P Require Import Prelude Float Labels LabelsFacts Buffer Heap Merge Storage.
From Stdlib Require Import Sorting.Sorted.

(** * The appender *)

Section appender.
Context `{AP : Appender A}.

Record fanoutAppender := mkFanoutAppender { fa_primary : A; fa_secondaries : list A }.

(** The loop over the secondaries, which stops at the first error. *)
Fixpoint add_loop (ls : Labels) (t : Z) (v : float64) (aps : list A) : option error * list A :=
  match aps with
  | [] => (None, [])
  | a :: aps' =>
    match ap_Add ls t v a with
    | ((_, Some e), a) => (Some e, a :: aps')
    | ((_, None), a) => let (err, aps') := add_loop ls t v aps' in (err, a :: aps')
    end
  end.

(** [Add] *)
Definition fanout_Add (ls : Labels) (t : Z) (v : float64) (f : fanoutAppender) : (Z * option error) * fanoutAppender :=
  match ap_Add ls t v (fa_primary f) with
  | ((ref, Some e), p) => ((ref, Some e), mkFanoutAppender p (fa_secondaries f))
  | ((ref, None), p) =>
    match add_loop ls t v (fa_secondaries f) with
    | (Some e, ss) => ((0, Some e), mkFanoutAppender p ss)
    | (None, ss) => ((ref, None), mkFanoutAppender p ss)
    end
  end.

(** [AddFast]: the reference is the primary's; the secondaries get [Add]. *)
Definition fanout_AddFast (ls : Labels) (ref t : Z) (v : float64) (f : fanoutAppender) : option error * fanoutAppender :=
  match ap_AddFast ls ref t v (fa_primary f) with
  | (Some e, p) => (Some e, mkFanoutAppender p (fa_secondaries f))
  | (None, p) => let (err, ss) := add_loop ls t v (fa_secondaries f) in (err, mkFanoutAppender p ss)
  end.

(** The loop of [Commit]: commit until an error, roll back after it.  The
    errors of those rollbacks are only logged. *)
Fixpoint commit_loop (err : option error) (aps : list A) : option error * list A :=
  match aps with
  | [] => (err, [])
  | a :: aps' =>
    let '(err, a) := match err with
                     | None => ap_Commit a
                     | Some e => (Some e, snd (ap_Rollback a))
                     end in
    let (err, aps') := commit_loop err aps' in (err, a :: aps')
  end.

Definition fanout_Commit (f : fanoutAppender) : option error * fanoutAppender :=
  let (err, p) := ap_Commit (fa_primary f) in
  let (err, ss) := commit_loop err (fa_secondaries f) in
  (err, mkFanoutAppender p ss).

(** The loop of [Rollback], with the error it keeps in the named result. *)
Fixpoint rollback_loop (err : option error) (aps : list A) : option error * list A :=
  match aps with
  | [] => (err, [])
  | a :: aps' =>
    let (rollbackErr, a) := ap_Rollback a in
    let (err, aps') := rollback_loop (match err with None => rollbackErr | _ => err end) aps' in
    (err, a :: aps')
  end.

(** [Rollback] ends with [return nil]. *)
Definition fanout_Rollback (f : fanoutAppender) : option error * fanoutAppender :=
  let (err, p) := ap_Rollback (fa_primary f) in
  let (err, ss) := rollback_loop err (fa_secondaries f) in
  (None, mkFanoutAppender p ss).

#[export] Instance fanout_Appender_instance : Appender fanoutAppender := {|
  ap_Add := fanout_Add; ap_AddFast := fanout_AddFast;
  ap_Commit := fanout_Commit; ap_Rollback := fanout_Rollback |}.

(** ** Properties *)

Lemma commit_loop_error e aps : commit_loop (Some e) aps = (Some e, map (fun a => snd (ap_Rollback a)) aps).
Proof. induction aps as [|a aps IH]; cbn; [done|]. by rewrite IH. Qed.

(** All of [aps] commit without an error. *)
Definition commits (aps : list A) : Prop := Forall (fun a => fst (ap_Commit a) = None) aps.
Definition committed (a : A) : A := snd (ap_Commit a).
Definition rolled_back (a : A) : A := snd (ap_Rollback a).

Lemma commit_loop_none aps :
  let (err, aps') := commit_loop None aps in
  match err with
  | None => commits aps /\ aps' = map committed aps
  | Some e => exists before a after, aps = before ++ a :: after /\ commits before /\
      fst (ap_Commit a) = Some e /\ aps' = map committed (before ++ [a]) ++ map rolled_back after
  end.
Proof.
  induction aps as [|a aps IH]; [by split; [constructor|]|]. cbn [commit_loop].
  destruct (ap_Commit a) as [err a'] eqn:E.
  assert (EC : committed a = a') by (unfold committed; by rewrite E). destruct err as [e|].
  - rewrite commit_loop_error. exists [], a, aps. split; [done|]. split; [constructor|].
    rewrite E. split; [done|]. cbn. by rewrite EC.
  - destruct (commit_loop None aps) as [[e|] aps'].
    + destruct IH as (b & x & c & -> & B & X & ->). exists (a :: b), x, c.
      split; [done|]. split; [by constructor; [rewrite E|]|]. split; [done|]. cbn. by rewrite EC.
    + destruct IH as [B ->]. split; [by constructor; [rewrite E|]|]. cbn. by rewrite EC.
Qed.

(** [fanoutAppender.Commit] commits the appenders in order up to the
    first error, primary first, and rolls back all that come after it; it
    returns that error, or none when every commit succeeded. *)
Theorem fanout_Commit_spec (p : A) (ss : list A) :
  let (err, f) := fanout_Commit (mkFanoutAppender p ss) in
  match err with
  | None => commits (p :: ss) /\ f = mkFanoutAppender (committed p) (map committed ss)
  | Some e => exists before a after, p :: ss = before ++ a :: after /\ commits before /\
      fst (ap_Commit a) = Some e /\
      fa_primary f :: fa_secondaries f = map committed (before ++ [a]) ++ map rolled_back after
  end.
Proof.
  unfold fanout_Commit. cbn [fa_primary fa_secondaries]. pose proof (commit_loop_none (p :: ss)) as H.
  cbn [commit_loop] in H. destruct (ap_Commit p) as [err p'] eqn:E.
  destruct (commit_loop err ss) as [[e|] ss'].
  - destruct H as (b & a & c & H1 & H2 & H3 & H4). exists b, a, c. done.
  - destruct H as [H1 H2]. split; [done|]. cbn in H2. injection H2 as -> ->. done.
Qed.

Lemma rollback_loop_states err aps : snd (rollback_loop err aps) = map rolled_back aps.
Proof.
  revert err. induction aps as [|a aps IH]; intros err; cbn [rollback_loop]; [done|].
  destruct (ap_Rollback a) as [e a'] eqn:E.
  assert (EC : rolled_back a = a') by (unfold rolled_back; by rewrite E).
  specialize (IH (match err with None => e | _ => err end)).
  destruct (rollback_loop _ aps) as [err' aps']. cbn in *. by rewrite EC, IH.
Qed.

(** [fanoutAppender.Rollback] rolls back every appender, but reports no
    error whatever they report: the error it collects is dropped. *)
Theorem fanout_Rollback_no_error (p : A) (ss : list A) :
  fanout_Rollback (mkFanoutAppender p ss) = (None, mkFanoutAppender (rolled_back p) (map rolled_back ss)).
Proof.
  unfold fanout_Rollback. cbn [fa_primary fa_secondaries]. unfold rolled_back at 1.
  destruct (ap_Rollback p) as [err p']. pose proof (rollback_loop_states err ss) as H.
  destruct (rollback_loop err ss) as [err' ss']. cbn in *. by rewrite H.
Qed.
End appender.
Arguments fanoutAppender A : clear implicits.

(** * The storage *)

Section storage.
Context `{ST : Storage St Q A} `{QU : !Querier Q M SS}.

Record fanout := mkFanout { primary : St; secondaries : list St }.

(** [model.Latest] *)
Definition Latest : Z := max_int64.

Fixpoint start_loop (first : Z) (ss : list St) : Z * option error :=
  match ss with
  | [] => (first, None)
  | s :: ss' =>
    match st_StartTime s with
    | Err e => (Latest, Some e)
    | Ok t => start_loop (if t <? first then t else first) ss'
    end
  end.

(** [StartTime] *)
Definition fanout_StartTime (f : fanout) : Z * option error :=
  match st_StartTime (primary f) with
  | Err e => (Latest, Some e)
  | Ok first => start_loop first (secondaries f)
  end.

(** [NewMergeQuerier] *)
Inductive merge_querier :=
| NoopQuerier
| OneQuerier (q : Q)
| MergeQuerier (qs : list Q).

Definition NewMergeQuerier (queriers : list Q) : merge_querier :=
  match List.filter (fun q => negb (q_is_noop q)) queriers with
  | [] => NoopQuerier
  | [q] => OneQuerier q
  | qs => MergeQuerier qs
  end.

(** [mergeQuerier.Close]: every querier is closed, the last error is returned. *)
Definition close_all (qs : list Q) : option error :=
  foldl (fun last q => match q_Close q with Some e => Some e | None => last end) None qs.

Definition merge_Close (q : merge_querier) : option error :=
  match q with NoopQuerier => None | OneQuerier q => q_Close q | MergeQuerier qs => close_all qs end.

(** The loop of [Querier]; the second component lists the queriers that are
    closed when a secondary fails. *)
Fixpoint querier_loop (ss : list St) (mint maxt : Z) (qs : list Q) : result error (list Q) * list Q :=
  match ss with
  | [] => (Ok qs, [])
  | s :: ss' =>
    match st_Querier s mint maxt with
    | Err e => (Err e, List.filter (fun q => negb (q_is_noop q)) qs)
    | Ok q => querier_loop ss' mint maxt (qs ++ [q])
    end
  end.

Definition fanout_Querier (f : fanout) (mint maxt : Z) : result error merge_querier * list Q :=
  match st_Querier (primary f) mint maxt with
  | Err e => (Err e, [])
  | Ok q => match querier_loop (secondaries f) mint maxt [q] with
            | (Err e, closed) => (Err e, closed)
            | (Ok qs, closed) => (Ok (NewMergeQuerier qs), closed)
            end
  end.

Fixpoint appender_loop (ss : list St) (aps : list A) : result error (list A) :=
  match ss with
  | [] => Ok aps
  | s :: ss' => match st_Appender s with Err e => Err e | Ok a => appender_loop ss' (aps ++ [a]) end
  end.

(** [Appender] *)
Definition fanout_Appender (f : fanout) : result error (fanoutAppender A) :=
  match st_Appender (primary f) with
  | Err e => Err e
  | Ok p => match appender_loop (secondaries f) [] with
            | Err e => Err e
            | Ok aps => Ok (mkFanoutAppender p aps)
            end
  end.

(** [Close]: the secondaries are closed only when the primary closed cleanly. *)
Definition fanout_Close (f : fanout) : option error * list St :=
  match st_Close (primary f) with
  | Some e => (Some e, [primary f])
  | None => (foldl (fun last s => match st_Close s with Some e => Some e | None => last end) None (secondaries f),
             primary f :: secondaries f)
  end.

(** The results of a call on each querier, up to the first error. *)
Fixpoint each {X} (call : Q -> result error X) (qs : list Q) : result error (list X) :=
  match qs with
  | [] => Ok []
  | q :: qs' => match call q with
                | Err e => Err e
                | Ok x => match each call qs' with Err e => Err e | Ok xs => Ok (x :: xs) end
                end
  end.

(** [mergeQuerier.Select], for sets that are cursors over series. *)
Definition merge_Select {S C} (labels_of : S -> Labels) `{Cursor C S} (select : Q -> M -> result error C)
  (qs : list Q) (m : M) : result error (C + mergeSeriesSet) :=
  match each (fun q => select q m) qs with
  | Err e => Err e
  | Ok ss => Ok (NewMergeSeriesSet labels_of ss)
  end.

(** [mergeTwoStringSlices] *)
Fixpoint mergeTwoStringSlices (a b : list string) : list string :=
  match a with
  | [] => b
  | x :: a' =>
    (fix inner (b : list string) : list string :=
       match b with
       | [] => a
       | y :: b' =>
         match String.compare x y with
         | Eq => x :: mergeTwoStringSlices a' b'
         | Lt => x :: mergeTwoStringSlices a' b
         | Gt => y :: inner b'
         end
       end) b
  end.

(** [mergeStringSlices]; each half is shorter, so the length is fuel enough. *)
Fixpoint mergeStringSlices (fuel : nat) (ss : list (list string)) : list string :=
  match ss with
  | [] => []
  | [a] => a
  | [a; b] => mergeTwoStringSlices a b
  | _ =>
    match fuel with
    | O => []
    | S f => let halfway := (length ss / 2)%nat in
             mergeTwoStringSlices (mergeStringSlices f (take halfway ss)) (mergeStringSlices f (drop halfway ss))
    end
  end.

(** [mergeQuerier.LabelValues] *)
Definition merge_LabelValues (qs : list Q) (name : string) : result error (list string) :=
  match each (fun q => q_LabelValues q name) qs with
  | Err e => Err e
  | Ok results => Ok (mergeStringSlices (length results) results)
  end.

(** ** Properties *)

Definition string_sorted (l : list string) : Prop := StronglySorted (fun a b => String.compare a b = Lt) l.

Lemma merge_two_elem a b x : x ∈ mergeTwoStringSlices a b <-> x ∈ a \/ x ∈ b.
Proof.
  revert b. induction a as [|y a IHa]; intros b; cbn [mergeTwoStringSlices].
  { rewrite elem_of_nil. tauto. }
  induction b as [|z b IHb]; [rewrite elem_of_nil; tauto|].
  destruct (String.compare y z) eqn:E; rewrite !elem_of_cons.
  - apply compare_eq in E as ->. rewrite IHa. tauto.
  - rewrite IHa, elem_of_cons. tauto.
  - rewrite IHb, elem_of_cons. tauto.
Qed.

Lemma merge_two_sorted a b : string_sorted a -> string_sorted b -> string_sorted (mergeTwoStringSlices a b).
Proof.
  intros Ha. revert b. induction Ha as [|y a Ha IHa Fa]; intros b Hb; [done|]. cbn [mergeTwoStringSlices].
  rewrite Forall_forall in Fa.
  induction Hb as [|z b Hb IHb Fb]; [constructor; [done|by apply Forall_forall]|].
  rewrite Forall_forall in Fb.
  destruct (String.compare y z) eqn:E; constructor.
  - by apply IHa.
  - apply compare_eq in E as ->. apply Forall_forall. intros x [X|X]%merge_two_elem; auto.
  - apply IHa. constructor; [done|by apply Forall_forall].
  - apply Forall_forall. intros x [X|X]%merge_two_elem; [auto|].
    apply elem_of_cons in X as [->|X]; [done|]. apply (compare_lt_trans _ z); auto.
  - apply IHb.
  - assert (EZ : String.compare z y = Lt).
    { rewrite String.compare_antisym, E. done. }
    apply Forall_forall. intros x X. change (x ∈ mergeTwoStringSlices (y :: a) b) in X.
    apply merge_two_elem in X as [X|X]; [|auto]. apply elem_of_cons in X as [->|X]; [done|].
    apply (compare_lt_trans _ y); auto.
Qed.

(** [mergeStringSlices] of strictly sorted slices is strictly sorted and
    holds exactly the strings of the slices, each once. *)
Theorem mergeStringSlices_union (ss : list (list string)) (SR : Forall string_sorted ss) :
  string_sorted (mergeStringSlices (length ss) ss) /\
  forall x, x ∈ mergeStringSlices (length ss) ss <-> exists s, s ∈ ss /\ x ∈ s.
Proof.
  enough (G : forall f ss, (length ss <= f)%nat -> Forall string_sorted ss ->
    string_sorted (mergeStringSlices f ss) /\
    forall x, x ∈ mergeStringSlices f ss <-> exists s, s ∈ ss /\ x ∈ s) by by apply G.
  clear ss SR. induction f as [|f IH]; intros ss L SR.
  { destruct ss; [|cbn in L; lia]. split; [constructor|]. intros x. cbn. rewrite elem_of_nil.
    split; [done|]. intros (s & S & _). by apply elem_of_nil in S. }
  destruct ss as [|a [|b [|c ss]]].
  - split; [constructor|]. intros x. cbn. rewrite elem_of_nil.
    split; [done|]. intros (s & S & _). by apply elem_of_nil in S.
  - apply Forall_cons in SR as [SA _]. split; [done|]. intros x. cbn. split.
    + intros X. exists a. split; [apply list_elem_of_here|done].
    + by intros (s & ->%list_elem_of_singleton & X).
  - apply Forall_cons in SR as [SA SR]. apply Forall_cons in SR as [SB _].
    split; [by apply merge_two_sorted|]. intros x. cbn [mergeStringSlices]. rewrite merge_two_elem.
    setoid_rewrite elem_of_cons. setoid_rewrite list_elem_of_singleton. naive_solver.
  - set (l := a :: b :: c :: ss) in *. set (h := (length l / 2)%nat).
    assert (H : (0 < h < length l)%nat).
    { pose proof (Nat.div_mod (length l) 2 ltac:(lia)). pose proof (Nat.mod_upper_bound (length l) 2 ltac:(lia)).
      assert (3 <= length l)%nat by (unfold l; cbn; lia). unfold h. lia. }
    change (mergeStringSlices (S f) l) with
      (mergeTwoStringSlices (mergeStringSlices f (take h l)) (mergeStringSlices f (drop h l))).
    rewrite <- (take_drop h l) in SR. apply Forall_app in SR as [S1 S2].
    destruct (IH (take h l) ltac:(rewrite length_take; lia) S1) as [A1 A2].
    destruct (IH (drop h l) ltac:(rewrite length_drop; lia) S2) as [B1 B2].
    split; [by apply merge_two_sorted|]. intros x. rewrite merge_two_elem, A2, B2.
    assert (EL : forall s, s ∈ l <-> s ∈ take h l \/ s ∈ drop h l) by
      (intros s; by rewrite <- elem_of_app, take_drop).
    setoid_rewrite EL. naive_solver.
Qed.

Lemma start_loop_min first ss t :
  start_loop first ss = (t, None) ->
  t <= first /\ (forall s u, s ∈ ss -> st_StartTime s = Ok u -> t <= u) /\
  (t = first \/ exists s, s ∈ ss /\ st_StartTime s = Ok t).
Proof.
  revert first. induction ss as [|s ss IH]; intros first; cbn [start_loop].
  - intros [= ->]. split; [lia|]. split; [|by left]. intros s u S. by apply elem_of_nil in S.
  - destruct (st_StartTime s) as [u|e] eqn:E; [|done]. intros H.
    destruct (IH _ H) as (H1 & H2 & H3).
    assert (LE : (if u <? first then u else first) <= first /\ (if u <? first then u else first) <= u).
    { destruct (Z.ltb_spec u first); lia. }
    split; [lia|]. split.
    + intros s' w [->|S]%elem_of_cons W; [|by apply (H2 s')]. assert (w = u) as -> by congruence. lia.
    + destruct H3 as [->|(s' & S & W)].
      * destruct (Z.ltb_spec u first); [|by left]. right. exists s. split; [apply list_elem_of_here|done].
      * right. exists s'. split; [by apply list_elem_of_further|done].
Qed.

(** Without an error, the start time of a fanout is the earliest start
    time of its storages. *)
Theorem fanout_StartTime_min (f : fanout) (t : Z) (E : fanout_StartTime f = (t, None)) :
  (forall s u, s ∈ primary f :: secondaries f -> st_StartTime s = Ok u -> t <= u) /\
  exists s, s ∈ primary f :: secondaries f /\ st_StartTime s = Ok t.
Proof.
  unfold fanout_StartTime in E. destruct (st_StartTime (primary f)) as [u|e] eqn:P; [|done].
  destruct (start_loop_min u (secondaries f) t E) as (H1 & H2 & H3). split.
  - intros s w [->|S]%elem_of_cons W; [|by apply (H2 s)]. assert (w = u) as -> by congruence. done.
  - destruct H3 as [->|(s & S & W)]; [exists (primary f)|exists s];
      (split; [first [apply list_elem_of_here | by apply list_elem_of_further]|done]).
Qed.
End storage.

(** * Witnesses *)

Lemma mergeStringSlices_union_witness :
  string_sorted (mergeStringSlices 3 [["a"; "c"]; ["b"; "c"]; ["d"]]) /\
  mergeStringSlices 3 [["a"; "c"]; ["b"; "c"]; ["d"]] = ["a"; "b"; "c"; "d"]%string.
Proof.
  split; [|vm_compute; reflexivity].
  apply (mergeStringSlices_union [["a"; "c"]; ["b"; "c"]; ["d"]]). repeat constructor.
Defined.

(** A storage that is its start time. *)
Definition time_storage : Storage Z unit unit := {|
  st_StartTime t := Ok t; st_Querier _ _ _ := Ok tt; st_Appender _ := Ok tt; st_Close _ := None |}.

Lemma fanout_StartTime_min_witness :
  exists s, s ∈ [7; 3; 5] /\ @st_StartTime _ _ _ time_storage s = Ok 3.
Proof.
  exact (proj2 (@fanout_StartTime_min _ _ _ time_storage (mkFanout 7 [3; 5]) 3 eq_refl)).
Defined.
