(* ===== verification/Alerting.v ===== *)
(** rules/alerting.go: the state machine of an alerting rule. *)

From Stdlib Require Import Sorted.
From S2P Require Import Prelude GoString GoFmt Float Duration Labels LabelsFacts Lexer Ast Printer Value.

(** * Times *)

(** A [time.Time] is the number of nanoseconds since its zero value. *)
Notation Time := Z (only parsing).

Definition IsZero (ts : Time) : bool := ts =? 0.

(** [Time.Sub] saturates. *)
Definition Sub (a b : Time) : Duration := Z.max min_int64 (Z.min max_int64 (a - b)).
#[global] Arguments Sub : simpl never.

Lemma Sub_diag a : Sub a a = 0.
Proof. unfold Sub, max_int64, min_int64. lia. Qed.

(** [timestamp.FromTime]: milliseconds since the Unix epoch. *)
Definition unix_epoch : Time := 62135596800 * Second.
Definition FromTime (ts : Time) : Z := (ts - unix_epoch) / Millisecond.

(** * Alerts *)

Definition alertMetricName : string := "ALERTS".
Definition alertStateLabel : string := "alertstate".

Inductive AlertState := StateInactive | StatePending | StateFiring.

#[export] Instance AlertState_eq_dec : EqDecision AlertState.
Proof. solve_decision. Defined.

Definition state_num (s : AlertState) : Z :=
  match s with StateInactive => 0 | StatePending => 1 | StateFiring => 2 end.

Definition state_eqb (a b : AlertState) : bool := state_num a =? state_num b.

Definition AlertState_String (s : AlertState) : string :=
  match s with StateInactive => "inactive" | StatePending => "pending" | StateFiring => "firing" end.

Record Alert := mkAlert {
  State : AlertState; a_Labels : Labels; Annotations : Labels; a_Value : float64;
  ActiveAt : Time; FiredAt : Time; ResolvedAt : Time
}.

Section rule.
Context `{RE : Regexp} `{UT : UnicodeTables} `{XH : XXHash}.

Record AlertingRule := mkAlertingRule {
  name : string; vector : Expr; holdDuration : Duration; labels : Labels; annotations : Labels;
  active : gmap Z Alert
}.

Definition NewAlertingRule (n : string) (vec : Expr) (hold : Duration) (lbls anns : Labels) : AlertingRule :=
  mkAlertingRule n vec hold lbls anns ∅.

Definition rule_equal (r o : AlertingRule) : bool := (name r =? name o)%string && Equal (labels r) (labels o).

(** [r.sample] *)
Definition sample (r : AlertingRule) (alert : Alert) (ts : Time) : Sample :=
  let lb := foldl (fun lb l => Set_ lb (Name l) (Value l)) (NewBuilder (labels r)) (a_Labels alert) in
  let lb := Set_ lb MetricName alertMetricName in
  let lb := Set_ lb AlertName (name r) in
  let lb := Set_ lb alertStateLabel (AlertState_String (State alert)) in
  mkPSample (Builder_Labels lb) (FromTime ts) (of_Z 1).

(** [15 * time.Minute] *)
Definition resolvedRetention : Duration := 15 * Minute.

(** * [Eval] *)

(** The template expander, given the sample whose labels and value it may
    use; the template package and the queries templates may run are a
    parameter. *)
Variable expand : Sample -> Time -> string -> string.

(** The labels of a new alert; [None] would be the builder's panic. *)
Definition alert_labels (r : AlertingRule) (ts : Time) (smpl : Sample) : option Labels :=
  match Del (NewBuilder (Metric smpl)) [MetricName] with
  | None => None
  | Some lb =>
    let lb := foldl (fun lb l => Set_ lb (Name l) (expand smpl ts (Value l))) lb (labels r) in
    Some (Builder_Labels (Set_ lb AlertName (name r)))
  end.

Definition alert_annotations (r : AlertingRule) (ts : Time) (smpl : Sample) : Labels :=
  map (fun a => mkLabel (Name a) (expand smpl ts (Value a))) (annotations r).

(** One iteration of the loop over the query result: update the alert of the
    sample's fingerprint, or create a pending one. *)
Definition eval_sample (r : AlertingRule) (ts : Time) (smpl : Sample) (act : gmap Z Alert) : option (gmap Z Alert) :=
  match alert_labels r ts smpl with
  | None => None
  | Some lbls =>
    let anns := alert_annotations r ts smpl in
    let h := Hash (Metric smpl) in
    let fresh := mkAlert StatePending lbls anns (s_V smpl) ts 0 0 in
    Some (match act !! h with
          | Some a =>
            if state_eqb (State a) StateInactive then <[h := fresh]> act
            else <[h := mkAlert (State a) (a_Labels a) anns (s_V smpl) (ActiveAt a) (FiredAt a) (ResolvedAt a)]> act
          | None => <[h := fresh]> act
          end)
  end.

Fixpoint eval_samples (r : AlertingRule) (ts : Time) (res : list Sample) (act : gmap Z Alert) : option (gmap Z Alert) :=
  match res with
  | [] => Some act
  | smpl :: res' => match eval_sample r ts smpl act with
                    | None => None
                    | Some act => eval_samples r ts res' act
                    end
  end.

(** One iteration of the loop over the active alerts: the alert afterwards,
    [None] when it is deleted. *)
Definition eval_alert (hold : Duration) (ts : Time) (seen : bool) (a : Alert) : option Alert :=
  if negb seen then
    let gone := state_eqb (State a) StatePending ||
                (negb (IsZero (ResolvedAt a)) && (resolvedRetention <? Sub ts (ResolvedAt a))) in
    if gone then None
    else Some (if negb (state_eqb (State a) StateInactive)
               then mkAlert StateInactive (a_Labels a) (Annotations a) (a_Value a) (ActiveAt a) (FiredAt a) ts
               else a)
  else Some (if state_eqb (State a) StatePending && (hold <=? Sub ts (ActiveAt a))
             then mkAlert StateFiring (a_Labels a) (Annotations a) (a_Value a) (ActiveAt a) ts (ResolvedAt a)
             else a).

(** The fingerprints of a result. *)
Definition resultFPs (res : list Sample) : list Z := map (fun s => Hash (Metric s)) res.

(** The two loops.  The code ranges over a map, in any order: each iteration
    only touches its own alert, so the state does not depend on the order,
    and the order of the vector is unspecified. *)
Definition eval_result (r : AlertingRule) (ts : Time) (res : list Sample) : option (list Sample * AlertingRule) :=
  match eval_samples r ts res (active r) with
  | None => None
  | Some act =>
    let seen h := bool_decide (h ∈ resultFPs res) in
    let act' := map_imap (fun h a => eval_alert (holdDuration r) ts (seen h) a) act in
    let r' := mkAlertingRule (name r) (vector r) (holdDuration r) (labels r) (annotations r) act' in
    Some (omap (fun ha => if seen ha.1 then Some (sample r' ha.2 ts) else None) (map_to_list act'), r')
  end.

(** [Eval]; the outer [None] would be a panic. *)
Definition Eval (r : AlertingRule) (ts : Time) (query : string -> Time -> result string (list Sample))
  : option (result string (list Sample * AlertingRule)) :=
  match query (Expr_String (vector r)) ts with
  | Err e => Some (Err e)
  | Ok res => Ok <$> eval_result r ts res
  end.

(** [State]: the largest state. *)
Definition rule_State (r : AlertingRule) : AlertState :=
  foldl (fun m (ha : Z * Alert) => if state_num m <? state_num (State ha.2) then State ha.2 else m)
    StateInactive (map_to_list (active r)).

(** [currentAlerts] and [ActiveAlerts] *)
Definition currentAlerts (r : AlertingRule) : list Alert := (map_to_list (active r)).*2.
Definition ActiveAlerts (r : AlertingRule) : list Alert := List.filter (fun a => IsZero (ResolvedAt a)) (currentAlerts r).

(** * The transitions of one evaluation *)

Lemma alert_labels_some r ts smpl : exists ls, alert_labels r ts smpl = Some ls.
Proof.
  unfold alert_labels. cbn [Del]. rewrite Del1_eq by constructor. eauto.
Qed.

(** What the first loop makes of the alert of a fingerprint. *)
Definition refreshed (ts : Time) (a : option Alert) (a' : Alert) : Prop :=
  match a with
  | Some a =>
    match State a with
    | StateInactive => State a' = StatePending /\ ActiveAt a' = ts /\ FiredAt a' = 0 /\ ResolvedAt a' = 0
    | s => State a' = s /\ ActiveAt a' = ActiveAt a /\ FiredAt a' = FiredAt a /\
           ResolvedAt a' = ResolvedAt a /\ a_Labels a' = a_Labels a
    end
  | None => State a' = StatePending /\ ActiveAt a' = ts /\ FiredAt a' = 0 /\ ResolvedAt a' = 0
  end.

Lemma eval_sample_spec r ts smpl act :
  exists act', eval_sample r ts smpl act = Some act' /\
    (exists a', act' !! Hash (Metric smpl) = Some a' /\ refreshed ts (act !! Hash (Metric smpl)) a') /\
    forall h, h <> Hash (Metric smpl) -> act' !! h = act !! h.
Proof.
  unfold eval_sample. destruct (alert_labels_some r ts smpl) as [ls ->].
  destruct (act !! Hash (Metric smpl)) as [a|] eqn:E; [destruct (State a) eqn:Es; cbn [state_eqb state_num Z.eqb]|];
    (eexists; split; [done|]; split; [|intros h N; by rewrite lookup_insert_ne by congruence]);
    rewrite lookup_insert_eq; eexists; (split; [done|]); unfold refreshed;
    rewrite ?Es; by repeat split.
Qed.

Lemma refreshed_trans ts a b c : refreshed ts a b -> refreshed ts (Some b) c -> refreshed ts a c.
Proof.
  unfold refreshed. intros H1 H2.
  destruct a as [a|]; [destruct (State a)|]; destruct (State b); intuition congruence.
Qed.

Lemma eval_samples_spec r ts res act :
  exists act', eval_samples r ts res act = Some act' /\
    (forall h, h ∈ resultFPs res -> exists a', act' !! h = Some a' /\ refreshed ts (act !! h) a') /\
    (forall h, h ∉ resultFPs res -> act' !! h = act !! h).
Proof.
  revert act. induction res as [|smpl res IH]; intros act; cbn [eval_samples].
  - exists act. split; [done|]. split; [|done]. intros h H. by apply elem_of_nil in H.
  - destruct (eval_sample_spec r ts smpl act) as (act1 & -> & (a1 & E1 & R1) & O1).
    destruct (IH act1) as (act2 & -> & S2 & O2). exists act2. split; [done|]. cbn [resultFPs map].
    split; intros h H.
    + destruct (decide (h ∈ resultFPs res)) as [I|I].
      * destruct (S2 h I) as (a2 & E2 & R2). exists a2. split; [done|].
        destruct (decide (h = Hash (Metric smpl))) as [->|N]; [|by rewrite <- O1].
        rewrite E1 in R2. by apply (refreshed_trans ts _ a1).
      * apply elem_of_cons in H as [->|H]; [|done]. exists a1. by rewrite O2.
    + apply not_elem_of_cons in H as [H1 H2]. rewrite O2 by done. by apply O1.
Qed.

(** The alert of a fingerprint after an evaluation. *)
Definition transition (hold : Duration) (ts : Time) (seen : bool) (a a' : option Alert) : Prop :=
  if seen then exists b, refreshed ts a b /\ a' = eval_alert hold ts true b
  else a' = match a with None => None | Some a => eval_alert hold ts false a end.

Lemma eval_result_spec r ts res :
  exists vec r', eval_result r ts res = Some (vec, r') /\
    (name r' = name r /\ vector r' = vector r /\ holdDuration r' = holdDuration r /\
     labels r' = labels r /\ annotations r' = annotations r) /\
    (forall h, transition (holdDuration r) ts (bool_decide (h ∈ resultFPs res)) (active r !! h) (active r' !! h)) /\
    vec = omap (fun ha => if bool_decide (ha.1 ∈ resultFPs res) then Some (sample r' ha.2 ts) else None) (map_to_list (active r')).
Proof.
  unfold eval_result. destruct (eval_samples_spec r ts res (active r)) as (act & -> & S1 & S2).
  eexists _, _. split; [done|]. split; [done|]. split; [|done]. cbn. intros h.
  rewrite map_lookup_imap. unfold transition. case_bool_decide as I.
  - destruct (S1 h I) as (b & -> & R). exists b. split; [done|]. done.
  - rewrite (S2 h I). destruct (active r !! h); [|done]. done.
Qed.

(** * The state of an alert as a function of the history of results *)

(** The state and the times of an alert. *)
Record view := mkView { v_State : AlertState; v_ActiveAt : Time; v_FiredAt : Time; v_ResolvedAt : Time }.
Definition view_of (a : Alert) : view := mkView (State a) (ActiveAt a) (FiredAt a) (ResolvedAt a).

(** An evaluation: its time and the result of the query.  A history lists
    evaluations, the newest first. *)
Notation evaluation := (Time * list Sample)%type (only parsing).

Definition present (h : Z) (e : evaluation) : bool := bool_decide (h ∈ resultFPs e.2).

Fixpoint take_while {A} (f : A -> bool) (l : list A) : list A :=
  match l with x :: l' => if f x then x :: take_while f l' else [] | [] => [] end.
Fixpoint drop_while {A} (f : A -> bool) (l : list A) : list A :=
  match l with x :: l' => if f x then drop_while f l' else l | [] => [] end.

(** The times, newest first, of the evaluations since the element was last
    seen, and of the consecutive evaluations that saw it before those. *)
Definition absence (h : Z) (hist : list evaluation) : list Time :=
  (take_while (fun e => negb (present h e)) hist).*1.
Definition episode (h : Z) (hist : list evaluation) : list Time :=
  (take_while (present h) (drop_while (fun e => negb (present h e)) hist)).*1.

(** The first time of an episode that began at [t0] and lasted for [hold]. *)
Definition fired_at (hold : Duration) (t0 : Time) (ep : list Time) : option Time :=
  List.find (fun t => hold <=? Sub t t0) (rev ep).

Definition alert_spec (hold : Duration) (h : Z) (hist : list evaluation) : option view :=
  match last (episode h hist) with
  | None => None
  | Some t0 =>
    match last (absence h hist), fired_at hold t0 (episode h hist) with
    | None, None => Some (mkView StatePending t0 0 0)
    | None, Some tf => Some (mkView StateFiring t0 tf 0)
    | Some _, None => None
    | Some tr, Some tf =>
      if forallb (fun t => Sub t tr <=? resolvedRetention) (absence h hist)
      then Some (mkView StateInactive t0 tf tr) else None
    end
  end.

(** The evaluations of a rule, oldest first. *)
Fixpoint run_evals (r : AlertingRule) (evs : list evaluation) : option AlertingRule :=
  match evs with
  | [] => Some r
  | (ts, res) :: evs' => match eval_result r ts res with
                         | None => None
                         | Some (_, r') => run_evals r' evs'
                         end
  end.

Lemma absence_cons h ts res hist :
  absence h ((ts, res) :: hist) = if present h (ts, res) then [] else ts :: absence h hist.
Proof. unfold absence. cbn [take_while]. by destruct (present h (ts, res)). Qed.

Lemma episode_cons h ts res hist :
  episode h ((ts, res) :: hist) =
  if present h (ts, res) then ts :: (if absence h hist then episode h hist else []) else episode h hist.
Proof.
  unfold episode, absence. cbn [drop_while]. destruct (present h (ts, res)) eqn:E; [|done].
  cbn [negb take_while]. rewrite E. cbn. f_equal. destruct hist as [|e hist]; [done|]. cbn.
  by destruct (present h e) eqn:E'; cbn; rewrite ?E'.
Qed.


Lemma find_snoc {A} (f : A -> bool) l x :
  List.find f (l ++ [x]) = match List.find f l with Some y => Some y | None => if f x then Some x else None end.
Proof. induction l as [|y l IH]; cbn; [done|]. by destruct (f y). Qed.

Lemma fired_at_cons hold t0 ts ep :
  fired_at hold t0 (ts :: ep) =
  match fired_at hold t0 ep with Some t => Some t | None => if hold <=? Sub ts t0 then Some ts else None end.
Proof. unfold fired_at. cbn [rev]. by rewrite find_snoc. Qed.

(** What an evaluation does to the view of an alert. *)
Definition view_step (hold : Duration) (ts : Time) (seen : bool) (v : option view) : option view :=
  if seen then
    let b := match v with
             | Some b => match v_State b with StateInactive => mkView StatePending ts 0 0 | _ => b end
             | None => mkView StatePending ts 0 0
             end in
    Some (match v_State b with
          | StatePending => if hold <=? Sub ts (v_ActiveAt b)
                            then mkView StateFiring (v_ActiveAt b) ts (v_ResolvedAt b) else b
          | _ => b
          end)
  else
    match v with
    | None => None
    | Some b =>
      let gone := negb (IsZero (v_ResolvedAt b)) && (resolvedRetention <? Sub ts (v_ResolvedAt b)) in
      match v_State b with
      | StatePending => None
      | StateFiring => if gone then None else Some (mkView StateInactive (v_ActiveAt b) (v_FiredAt b) ts)
      | StateInactive => if gone then None else Some b
      end
    end.

Lemma transition_view hold ts seen a a' :
  transition hold ts seen a a' -> view_of <$> a' = view_step hold ts seen (view_of <$> a).
Proof.
  unfold transition, view_step, eval_alert, view_of. destruct seen.
  - intros (b & R & ->). destruct b as [sb lb an vb at_ ft rt], a as [[sa la aa va ata fta rta]|]; unfold refreshed in R; cbn in R.
    + destruct sa; cbn in R; destruct_and? R; subst; cbn; try done; by destruct (hold <=? _).
    + destruct_and? R; subst; cbn; by destruct (hold <=? _).
  - intros ->. destruct a as [a|]; [|done]. cbn. destruct (State a) eqn:E; cbn; [| |]; try done;
      destruct (_ && _); cbn; by rewrite ?E.
Qed.

Lemma absence_nil_episode h ts res hist :
  absence h ((ts, res) :: hist) = [] <-> present h (ts, res) = true.
Proof. rewrite absence_cons. by destruct (present h (ts, res)). Qed.

Lemma absence_nonzero h hist : Forall (fun e : evaluation => e.1 <> 0) hist -> Forall (fun t => t <> 0) (absence h hist).
Proof.
  unfold absence. induction 1 as [|e hist E H IH]; cbn; [constructor|].
  destruct (present h e); cbn; [constructor|by constructor].
Qed.

Lemma absence_nil_episode_nil h hist : absence h hist = [] -> episode h hist = [] -> hist = [].
Proof.
  unfold absence, episode. destruct hist as [|e hist]; [done|]. cbn. destruct (present h e) eqn:E; cbn; by rewrite ?E.
Qed.

Lemma last_cons_some {A} (x : A) l y : last l = Some y -> last (x :: l) = Some y.
Proof. rewrite last_cons. by intros ->. Qed.

(** The specification steps the same way. *)
Lemma alert_spec_step hold ts res h hist :
  Forall (fun e => e.1 <> 0) hist ->
  alert_spec hold h ((ts, res) :: hist) = view_step hold ts (present h (ts, res)) (alert_spec hold h hist).
Proof.
  intros NZ. pose proof (absence_nonzero h hist NZ) as NA. unfold alert_spec.
  rewrite absence_cons, episode_cons. destruct (present h (ts, res)).
  - rewrite last_cons. destruct (absence h hist) as [|t ab] eqn:EA.
    + destruct (last (episode h hist)) as [t0|] eqn:EL.
      * rewrite fired_at_cons. cbn [last]. destruct (fired_at hold t0 (episode h hist)); [done|].
        unfold view_step. cbn. by destruct (hold <=? Sub ts t0).
      * apply last_None in EL. rewrite EL. cbn. by destruct (hold <=? Sub ts ts).
    + destruct (last (t :: ab)) as [tr|] eqn:ET; [|by apply last_None in ET].
      assert (E : forall v, v = None \/ (exists b, v = Some b /\ v_State b = StateInactive) ->
        view_step hold ts true v = Some (if hold <=? Sub ts ts then mkView StateFiring ts ts 0 else mkView StatePending ts 0 0)).
      { intros v [->|(b & -> & Eb)]; unfold view_step; rewrite ?Eb; cbn; by destruct (hold <=? Sub ts ts). }
      cbn [last]. rewrite E; [unfold fired_at; cbn; by destruct (hold <=? Sub ts ts)|].
      destruct (last (episode h hist)) as [t0|]; [|auto]. destruct (fired_at hold t0 (episode h hist)); [|auto].
      destruct (forallb _ _); eauto.
  - destruct (last (episode h hist)) as [t0|]; [|done]. rewrite last_cons.
    destruct (last (absence h hist)) as [tr|] eqn:EL; destruct (fired_at hold t0 (episode h hist)) as [tf|]; [|done| |done].
    + cbn [forallb]. rewrite andb_comm. destruct (forallb _ _); [|done].
      unfold view_step, IsZero. cbn [v_State v_ResolvedAt]. rewrite (proj2 (Z.eqb_neq tr 0)).
      2:{ apply last_Some in EL as (l & EL). rewrite EL, Forall_app in NA. destruct NA as [_ NA].
          by apply Forall_cons in NA as [NA _]. }
      rewrite Z.leb_antisym. cbn [negb andb]. by destruct (_ <? _).
    + apply last_None in EL. rewrite EL. cbn [forallb]. by rewrite Sub_diag.
Qed.

(** Runs of the rule follow the specification. *)
Lemma run_evals_spec evs hist r :
  Forall (fun e => e.1 <> 0) hist -> Forall (fun e => e.1 <> 0) evs ->
  (forall h, view_of <$> active r !! h = alert_spec (holdDuration r) h hist) ->
  exists r', run_evals r evs = Some r' /\ holdDuration r' = holdDuration r /\ name r' = name r /\ labels r' = labels r /\
    forall h, view_of <$> active r' !! h = alert_spec (holdDuration r) h (rev evs ++ hist).
Proof.
  revert hist r. induction evs as [|[ts res] evs IH]; intros hist r NH NE H; [by exists r|].
  apply Forall_cons in NE as [Nts NE]. cbn [run_evals].
  destruct (eval_result_spec r ts res) as (vec & r1 & -> & (En & _ & Eh & El & _) & T & _).
  destruct (IH ((ts, res) :: hist) r1) as (r' & E & Eh' & En' & El' & S); [by constructor|done| |].
  - intros h. rewrite Eh, alert_spec_step by done. rewrite <- H. apply transition_view, T.
  - exists r'. rewrite E. repeat (split; [congruence|]). intros h. rewrite S, Eh. cbn. by rewrite <- app_assoc.
Qed.

(** C10: the alert a rule keeps for an element, after any sequence of
    evaluations, is a function of the history of the query's results.  It is
    pending from the first of the consecutive evaluations that returned the
    element ([ActiveAt]) until the first that is [holdDuration] later
    ([FiredAt]), from which it fires; once an evaluation no longer returns the
    element ([ResolvedAt]) a pending alert is dropped and a firing one kept as
    inactive for [resolvedRetention]; when the element returns, the alert
    starts afresh.  No evaluation fails. *)
Theorem alerting_history n vec hold lbls anns evs (NZ : Forall (fun e => e.1 <> 0) evs) :
  exists r, run_evals (NewAlertingRule n vec hold lbls anns) evs = Some r /\
    forall h, view_of <$> active r !! h = alert_spec hold h (rev evs).
Proof.
  destruct (run_evals_spec evs [] (NewAlertingRule n vec hold lbls anns)) as (r & E & _ & _ & _ & S); [done..|].
  exists r. split; [done|]. intros h. rewrite S. by rewrite app_nil_r.
Qed.

(** * When an alert fires *)

(** The element was in every result for at least [hold]. *)
Definition held (hold : Duration) (h : Z) (hist : list evaluation) : Prop :=
  exists now e0 l1 l2, hist = l1 ++ e0 :: l2 /\ head hist = Some now /\
    Forall (fun e => present h e = true) (l1 ++ [e0]) /\ hold <= Sub now.1 e0.1.

Definition newest_first (hist : list evaluation) : Prop := StronglySorted (fun e e' => e'.1 <= e.1) hist.

Lemma Sub_mono a a' b b' : a <= a' -> b' <= b -> Sub a b <= Sub a' b'.
Proof. unfold Sub. lia. Qed.

Lemma take_while_split {A} (f : A -> bool) l :
  Forall (fun x => f x = true) (take_while f l) /\ exists l', l = take_while f l ++ l'.
Proof.
  induction l as [|x l [IH (l' & E)]]; cbn; [by split; [constructor|exists []]|].
  destruct (f x) eqn:Ef; [|by split; [constructor|exists (x :: l)]].
  split; [by constructor|]. exists l'. cbn. by rewrite E at 1.
Qed.

Lemma take_while_app {A} (f : A -> bool) l l' :
  Forall (fun x => f x = true) l -> take_while f (l ++ l') = l ++ take_while f l'.
Proof. induction 1 as [|x l H _ IH]; cbn; [done|]. by rewrite H, IH. Qed.

Lemma find_none_forall {A} (f : A -> bool) l : List.find f l = None <-> Forall (fun x => f x = false) l.
Proof.
  induction l as [|x l IH]; cbn; [by split|]. rewrite Forall_cons. destruct (f x); [naive_solver|]. rewrite IH. tauto.
Qed.

Lemma find_some_first {T} (p : T -> bool) l a : List.find p l = Some a ->
  exists i, l !! i = Some a /\ p a = true /\ forall j b, (j < i)%nat -> l !! j = Some b -> p b = false.
Proof.
  induction l as [|x l IH]; [done|]. cbn. destruct (p x) eqn:P.
  - intros [= <-]. exists 0%nat. split_and!; [done..|]. intros j b J. lia.
  - intros F. destruct (IH F) as (i & L & Pa & B). exists (S i). split_and!; [done..|]. intros [|j] b J E; [by injection E as <-|].
    apply (B j); [lia|exact E].
Qed.

Lemma fired_at_none hold t0 ep : fired_at hold t0 ep = None <-> Forall (fun t => Sub t t0 < hold) ep.
Proof.
  unfold fired_at. rewrite find_none_forall, <- Permutation_rev. apply Forall_iff. intros t. apply Z.leb_gt.
Qed.

(** The times of a history that begins with the element. *)
Lemma seen_now h hist :
  absence h hist = [] -> episode h hist = (take_while (present h) hist).*1.
Proof.
  unfold absence, episode. destruct hist as [|e hist]; [done|]. cbn [take_while drop_while].
  by destruct (present h e) eqn:E; cbn [negb take_while]; rewrite ?E.
Qed.

Lemma newest_first_head e hist e' : newest_first (e :: hist) -> e' ∈ e :: hist -> e'.1 <= e.1.
Proof.
  unfold newest_first. inversion 1 as [|? ? _ F]; subst. intros [->|H']%elem_of_cons; [done|].
  rewrite Forall_forall in F. by apply F.
Qed.

Lemma newest_first_app l e l' e' : newest_first (l ++ e :: l') -> e' ∈ e :: l' -> e'.1 <= e.1.
Proof. induction l as [|x l IH]; [apply newest_first_head|]. cbn. inversion 1; subst. auto. Qed.

Lemma alert_spec_held hold h hist :
  newest_first hist -> held hold h hist -> v_State <$> alert_spec hold h hist = Some StateFiring.
Proof.
  intros SO (now & e0 & l1 & l2 & -> & HN & P & HT).
  assert (HP : exists l', l1 ++ e0 :: l2 = now :: l' /\ present h now = true).
  { destruct l1 as [|x l1]; cbn in HN; injection HN as ->; cbn in P; apply Forall_cons in P as [P _]; eauto. }
  assert (A0 : absence h (l1 ++ e0 :: l2) = []).
  { destruct HP as (l' & -> & P'). destruct now. by apply absence_nil_episode. }
  assert (EP : exists t0 ep, episode h (l1 ++ e0 :: l2) = now.1 :: ep /\ last (now.1 :: ep) = Some t0 /\ t0 <= e0.1).
  { rewrite seen_now by done.
    replace (l1 ++ e0 :: l2) with ((l1 ++ [e0]) ++ l2) by (by rewrite <- app_assoc).
    rewrite take_while_app by done. destruct (take_while_split (present h) l2) as [_ (l' & E2)].
    destruct (last ((l1 ++ [e0]) ++ take_while (present h) l2)) as [e1|] eqn:EL.
    2:{ apply last_None in EL. by destruct l1. }
    exists e1.1. destruct ((l1 ++ [e0]) ++ take_while (present h) l2) as [|x l] eqn:EX; [by destruct l1|].
    assert (x = now) as -> by (destruct l1; cbn in EX, HN; congruence).
    exists l.*1. split; [done|]. change (now.1 :: l.*1) with ((now :: l).*1). rewrite fmap_last. split; [exact (f_equal (fmap fst) EL)|].
    apply (newest_first_app l1 e0 l2); [done|]. rewrite <- EX, <- app_assoc in EL. cbn in EL.
    rewrite last_app, (last_cons e0) in EL. rewrite E2, elem_of_cons, elem_of_app.
    destruct (last (take_while (present h) l2)) eqn:EL2; injection EL as ->; [|by left].
    right; left. by apply last_Some_elem_of. }
  destruct EP as (t0 & ep & EE & EL & LE). unfold alert_spec. rewrite A0, EE, EL. cbn [last].
  destruct (fired_at hold t0 (now.1 :: ep)) eqn:EF; [done|]. apply fired_at_none, Forall_cons in EF as [EF _].
  pose proof (Sub_mono now.1 now.1 e0.1 t0). lia.
Qed.

Lemma alert_spec_firing hold h hist :
  newest_first hist -> v_State <$> alert_spec hold h hist = Some StateFiring -> held hold h hist.
Proof.
  intros SO. unfold alert_spec. destruct (last (episode h hist)) as [t0|] eqn:EL; [|done].
  destruct (last (absence h hist)) as [tr|] eqn:EA.
  { destruct (fired_at _ _ _); [|done]. by destruct (forallb _ _). }
  apply last_None in EA. rewrite (seen_now h hist EA) in *.
  destruct (fired_at hold t0 _) as [tf|] eqn:EF; [|done]. intros _.
  destruct (take_while_split (present h) hist) as [P (l2 & E)].
  rewrite fmap_last in EL. destruct (last (take_while _ _)) as [e0|] eqn:EL'; [|done]. injection EL as <-.
  apply last_Some in EL' as (l1 & EX). rewrite EX in *. unfold fired_at in EF. apply find_some in EF as [IF HF].
  rewrite <- in_rev, <- list_elem_of_In in IF. apply list_elem_of_fmap in IF as (e1 & -> & IF).
  destruct hist as [|now hist]; [by destruct l1|].
  exists now, e0, l1, l2. split; [by rewrite E, <- app_assoc|]. split; [done|]. split; [done|]. bool_prop.
  assert (I : e1 ∈ now :: hist) by (rewrite E, elem_of_app; by left).
  pose proof (newest_first_head now hist e1 SO I). pose proof (Sub_mono e1.1 now.1 e0.1 e0.1). lia.
Qed.

(** With evaluations in the order of time, an alert fires exactly when
    the query has returned its element without interruption for at least
    [holdDuration]: in the latest result, in one that much older, and in every
    one between. *)
Theorem alerting_fires_iff n vec hold lbls anns evs h
    (NZ : Forall (fun e => e.1 <> 0) evs) (SO : newest_first (rev evs)) :
  exists r, run_evals (NewAlertingRule n vec hold lbls anns) evs = Some r /\
    (State <$> active r !! h = Some StateFiring <-> held hold h (rev evs)).
Proof.
  destruct (run_evals_spec evs [] (NewAlertingRule n vec hold lbls anns)) as (r & E & _ & _ & _ & S); [done..|].
  exists r. split; [done|]. specialize (S h). rewrite app_nil_r in S. cbn in S.
  assert (V : State <$> active r !! h = v_State <$> alert_spec hold h (rev evs)) by (rewrite <- S; by destruct (active r !! h)).
  rewrite V. split; [by apply alert_spec_firing|by apply alert_spec_held].
Qed.

(** * The vector of an evaluation *)

Lemma foldl_Set_denote (ls : Labels) lb :
  wf_builder lb ->
  wf_builder (foldl (fun lb l => Set_ lb (Name l) (Value l)) lb ls) /\
  denote (foldl (fun lb l => Set_ lb (Name l) (Value l)) lb ls) = lift ls (denote lb).
Proof.
  revert lb. induction ls as [|l ls IH]; intros lb W; [done|]. cbn.
  rewrite <- (Set_denote lb) by done. by apply IH, Set_wf.
Qed.

Lemma NewBuilder_spec ls : wf_labels ls -> wf_builder (NewBuilder ls) /\ denote (NewBuilder ls) = Map ls.
Proof.
  intros W. split; [split; [done|constructor]|]. unfold denote. cbn.
  change (Map []) with (∅ : gmap string string). by rewrite (left_id_L ∅ (∪)).
Qed.

Lemma sample_Map r a ts :
  wf_labels (labels r) ->
  wf_labels (Metric (sample r a ts)) /\
  Map (Metric (sample r a ts)) =
    <[alertStateLabel := AlertState_String (State a)]> (<[AlertName := name r]> (<[MetricName := alertMetricName]>
      (lift (a_Labels a) (Map (labels r))))).
Proof.
  intros W. destruct (NewBuilder_spec (labels r) W) as [W0 D0].
  destruct (foldl_Set_denote (a_Labels a) _ W0) as [W1 D1]. unfold sample. cbn [Metric].
  edestruct Builder_Labels_spec as [WB MB]; [|split; [exact WB|]].
  - by do 3 apply Set_wf.
  - rewrite MB, !Set_denote by (done || by repeat apply Set_wf). by rewrite D1, D0.
Qed.

Lemma transition_seen hold ts a a' :
  transition hold ts true a a' -> exists b, a' = Some b /\ State b <> StateInactive /\ ResolvedAt b = default 0 (x ← a; if state_eqb (State x) StateInactive then None else Some (ResolvedAt x)).
Proof.
  unfold transition. intros (b & R & ->). unfold eval_alert. cbn [negb]. eexists; split; [done|].
  unfold refreshed in R. destruct a as [a|]; cbn; [destruct (State a); cbn|];
    destruct_and? R; destruct (state_eqb (State b) StatePending && _); cbn; split; congruence.
Qed.

Lemma omap_if_length {A B} (P : A -> Prop) `{!forall x, Decision (P x)} (g : A -> B) l :
  length (omap (fun x => if bool_decide (P x) then Some (g x) else None) l) = length (filter P l).
Proof.
  induction l as [|x l IH]; [done|]. rewrite filter_cons. case_decide; cbn; case_bool_decide; try done. cbn. by rewrite IH.
Qed.

(** As many entries of a map as there are keys, when all of them are in it. *)
Lemma map_filter_length {V} (m : gmap Z V) (ks : list Z) :
  (forall k, k ∈ ks -> is_Some (m !! k)) ->
  length (filter (fun kv : Z * V => kv.1 ∈ ks) (map_to_list m)) = size (list_to_set ks : gset Z).
Proof.
  intros H. unfold size, set_size. cbn. rewrite <- (length_fmap fst). apply Permutation_length.
  apply NoDup_Permutation.
  - apply NoDup_fmap_fst; [|apply NoDup_filter, NoDup_map_to_list].
    intros k v v' H1 H2. apply list_elem_of_filter in H1 as [_ H1], H2 as [_ H2].
    apply elem_of_map_to_list in H1, H2. congruence.
  - apply NoDup_elements.
  - intros k. rewrite elem_of_elements, elem_of_list_to_set, list_elem_of_fmap. split.
    + intros ([k' v] & -> & I). by apply list_elem_of_filter in I as [I _].
    + intros I. destruct (H k I) as [v Ev]. exists (k, v). split; [done|].
      apply list_elem_of_filter. split; [done|]. by apply elem_of_map_to_list.
Qed.

Lemma transition_unseen hold ts a b : transition hold ts false a (Some b) -> State b = StateInactive.
Proof.
  unfold transition, eval_alert. destruct a as [a|]; [|done]. cbn. destruct (_ || _); [done|].
  intros [= ->]. by destruct (State a) eqn:E.
Qed.

(** The samples an evaluation returns are those of the elements of the
    query's result, one per fingerprint and none for the inactive alerts that
    the rule keeps: pending or firing, with value 1 at the time of the
    evaluation, named ALERTS, and with the rule's name and the alert's state
    over the alert's labels over the rule's.  A failing query changes
    nothing and its error is returned. *)
Theorem Eval_vector r ts query (W : wf_labels (labels r)) :
  match query (Expr_String (vector r)) ts with
  | Err e => Eval r ts query = Some (Err e)
  | Ok res =>
    exists vec r', Eval r ts query = Some (Ok (vec, r')) /\ length vec = size (list_to_set (resultFPs res) : gset Z) /\
      (forall h, h ∈ resultFPs res <-> exists a, active r' !! h = Some a /\ State a <> StateInactive) /\
      (forall h a, active r' !! h = Some a -> State a <> StateInactive -> sample r' a ts ∈ vec) /\
      forall s, s ∈ vec -> s_V s = of_Z 1 /\ s_T s = FromTime ts /\ wf_labels (Metric s) /\
        exists h a, h ∈ resultFPs res /\ active r' !! h = Some a /\ State a <> StateInactive /\
          Map (Metric s) = <[alertStateLabel := AlertState_String (State a)]> (<[AlertName := name r]>
            (<[MetricName := alertMetricName]> (lift (a_Labels a) (Map (labels r)))))
  end.
Proof.
  unfold Eval. destruct (query _ _) as [res|e]; [|done].
  destruct (eval_result_spec r ts res) as (vec & r' & -> & (En & _ & _ & El & _) & T & EV).
  exists vec, r'. split; [done|].
  assert (A : forall h, h ∈ resultFPs res -> exists a, active r' !! h = Some a /\ State a <> StateInactive).
  { intros h I. specialize (T h). rewrite bool_decide_true in T by done.
    destruct (transition_seen _ _ _ _ T) as (a & -> & Na & _). eauto. }
  assert (M : forall s, s ∈ vec <-> exists h a, h ∈ resultFPs res /\ active r' !! h = Some a /\ s = sample r' a ts).
  { intros s. rewrite EV, list_elem_of_omap. split.
    - intros ([h a] & I & E). apply elem_of_map_to_list in I. cbn in E. case_bool_decide; [|done].
      injection E as <-. eauto.
    - intros (h & a & I & E & ->). exists (h, a). rewrite elem_of_map_to_list. split; [done|]. cbn.
      by rewrite bool_decide_true. }
  split.
  { rewrite EV, omap_if_length. apply map_filter_length. intros h I. destruct (A h I) as (a & -> & _). by eexists. }
  assert (A' : forall h a, active r' !! h = Some a -> State a <> StateInactive -> h ∈ resultFPs res).
  { intros h a E Na. destruct (decide (h ∈ resultFPs res)) as [I|I]; [done|]. specialize (T h).
    rewrite bool_decide_false, E in T by done. by apply transition_unseen in T. }
  split; [naive_solver|]. split; [intros h a E Na; apply M; eauto 10|].
  - intros s Hs. apply M in Hs as (h & a & I & E & ->). rewrite <- El in W.
    destruct (sample_Map r' a ts W) as [Wm EM]. rewrite El, En in EM.
    repeat (split; [done|]). exists h, a. destruct (A h I) as (a' & E' & Na).
    assert (a' = a) as -> by congruence. done.
Qed.

(** * What a rule reports of its alerts *)

Lemma max_state_ge (l : list (Z * Alert)) m :
  let mx := foldl (fun m (ha : Z * Alert) => if state_num m <? state_num (State ha.2) then State ha.2 else m) m l in
  state_num m <= state_num mx /\ (forall ha, ha ∈ l -> state_num (State ha.2) <= state_num mx) /\
  (mx = m \/ exists ha, ha ∈ l /\ State ha.2 = mx).
Proof.
  revert m. induction l as [|x l IH]; intros m; cbn.
  - split; [lia|]. split; [|by left]. intros ha H. by apply elem_of_nil in H.
  - destruct (IH (if state_num m <? state_num (State x.2) then State x.2 else m)) as (L & F & O).
    set (mx := foldl _ _ _) in *.
    assert (state_num m <= state_num mx /\ state_num (State x.2) <= state_num mx).
    { destruct (_ <? _) eqn:E; bool_prop; lia. }
    split; [lia|]. split.
    + intros ha [->|I]%elem_of_cons; [lia|]. auto.
    + destruct O as [O|(ha & I & O)]; [|right; exists ha; split; [by right|done]].
      rewrite O. destruct (_ <? _); [right; exists x; split; [by left|done]|by left].
Qed.

Lemma alert_spec_resolved hold h hist v :
  Forall (fun e => e.1 <> 0) hist -> alert_spec hold h hist = Some v -> (v_ResolvedAt v = 0 <-> v_State v <> StateInactive).
Proof.
  intros NZ. pose proof (absence_nonzero h hist NZ) as NA. unfold alert_spec.
  destruct (last (episode h hist)); [|done]. destruct (last (absence h hist)) as [tr|] eqn:EL; destruct (fired_at _ _ _); try done.
  - destruct (forallb _ _); [|done]. intros [= <-]. cbn. split; [|done]. intros ->.
    apply last_Some in EL as (l & EL). rewrite EL, Forall_app, Forall_singleton in NA. by destruct NA.
  - by intros [= <-].
  - by intros [= <-].
Qed.

(** After any evaluations, [State] is the largest state of the rule's
    alerts (inactive without one), and [ActiveAlerts], which selects by the
    resolution time, returns the alerts that are pending or firing. *)
Theorem alert_states_reported n vec hold lbls anns evs (NZ : Forall (fun e => e.1 <> 0) evs) :
  exists r, run_evals (NewAlertingRule n vec hold lbls anns) evs = Some r /\
    (forall a, a ∈ currentAlerts r -> state_num (State a) <= state_num (rule_State r)) /\
    (rule_State r <> StateInactive -> exists a, a ∈ currentAlerts r /\ State a = rule_State r) /\
    (forall a, a ∈ ActiveAlerts r <-> a ∈ currentAlerts r /\ State a <> StateInactive).
Proof.
  destruct (run_evals_spec evs [] (NewAlertingRule n vec hold lbls anns)) as (r & E & _ & _ & _ & S); [done..|].
  exists r. split; [done|]. destruct (max_state_ge (map_to_list (active r)) StateInactive) as (_ & F & O).
  split; [|split].
  - intros a (ha & -> & I)%list_elem_of_fmap. by apply F.
  - intros N. destruct O as [O|(ha & I & O)]; [by destruct N|]. exists ha.2. split; [|done].
    apply list_elem_of_fmap. eauto.
  - intros a. unfold ActiveAlerts. rewrite list_elem_of_In, filter_In, <- list_elem_of_In.
    assert (G : a ∈ currentAlerts r -> IsZero (ResolvedAt a) = true <-> State a <> StateInactive); [|tauto].
    intros ([h a'] & -> & I)%list_elem_of_fmap. apply elem_of_map_to_list in I. cbn.
    specialize (S h). rewrite I, app_nil_r in S. symmetry in S. apply alert_spec_resolved in S; [|by apply Forall_rev].
    unfold IsZero. rewrite Z.eqb_eq. exact S.
Qed.
End rule.

(** * Instances *)

#[local] Instance length_hash : XXHash := {| xxhash_Sum64 s := Z.of_nat (String.length s) |}.
#[local] Instance any_regexp : Regexp := {| regexp := string; regexp_Compile s := Ok s; MatchString r s := (r =? s)%string |}.
#[local] Instance any_print : UnicodeTables := {| is_print_high _ := true |}.

Definition same_text : Sample -> Time -> string -> string := fun _ _ s => s.
Definition smpl_a : Sample := mkPSample [mkLabel "__name__" "up"; mkLabel "job" "a"] 0 (of_Z 1).
Definition smpl_b : Sample := mkPSample [mkLabel "__name__" "up"; mkLabel "job" "bb"] 0 (of_Z 1).
Definition sample_evals : list (Z * list Sample) :=
  [(60 * Second, [smpl_a]); (120 * Second, [smpl_a; smpl_b]); (180 * Second, [smpl_a; smpl_b]); (240 * Second, [smpl_b])].
Definition sample_rule : AlertingRule :=
  NewAlertingRule "Down" (NumberLiteral (of_Z 1)) (2 * Minute) [mkLabel "severity" "page"] [].

Lemma alerting_history_witness :
  exists r, run_evals same_text sample_rule sample_evals = Some r /\
    view_of <$> active r !! Hash (Metric smpl_a) =
    Some (mkView StateInactive (60 * Second) (180 * Second) (240 * Second)).
Proof.
  destruct (alerting_history same_text "Down" (NumberLiteral (of_Z 1)) (2 * Minute) [mkLabel "severity" "page"] []
              sample_evals) as (r & E & S).
  - by repeat constructor.
  - exists r. split; [exact E|]. rewrite S. vm_compute. reflexivity.
Defined.

Lemma alerting_fires_iff_witness :
  exists r, run_evals same_text sample_rule sample_evals = Some r /\
    State <$> active r !! Hash (Metric smpl_b) = Some StateFiring.
Proof.
  destruct (alerting_fires_iff same_text "Down" (NumberLiteral (of_Z 1)) (2 * Minute) [mkLabel "severity" "page"] []
              sample_evals (Hash (Metric smpl_b))) as (r & E & F).
  - by repeat constructor.
  - by repeat constructor.
  - exists r. split; [exact E|]. apply F.
    exists (240 * Second, [smpl_b]), (120 * Second, [smpl_a; smpl_b]), [(240 * Second, [smpl_b]); (180 * Second, [smpl_a; smpl_b])],
      [(60 * Second, [smpl_a])].
    split; [done|]. split; [done|]. split; [by repeat constructor|done].
Defined.

Lemma Eval_vector_witness :
  wf_labels (labels sample_rule) /\
  match Eval same_text sample_rule (60 * Second) (fun _ _ => Ok [smpl_a; smpl_b; smpl_a]) with
  | Some (Ok (vec, _)) => length vec = 2%nat
  | _ => False
  end.
Proof.
  assert (W : wf_labels (labels sample_rule)) by by repeat constructor.
  split; [exact W|].
  destruct (Eval_vector same_text sample_rule (60 * Second) (fun _ _ => Ok [smpl_a; smpl_b; smpl_a]) W) as (vec & r' & -> & L & _).
  rewrite L. vm_compute. reflexivity.
Defined.

Lemma alert_states_reported_witness :
  exists r, run_evals same_text sample_rule sample_evals = Some r /\
    forall a, a ∈ ActiveAlerts r -> State a <> StateInactive.
Proof.
  destruct (alert_states_reported same_text "Down" (NumberLiteral (of_Z 1)) (2 * Minute) [mkLabel "severity" "page"] []
              sample_evals) as (r & E & _ & _ & A).
  - by repeat constructor.
  - exists r. split; [exact E|]. intros a I. by apply A in I as [_ I].
Defined.
