(* ===== verification/RuleFmt.v ===== *)
(** pkg/rulefmt/rulefmt.go: rule files and their validation, with the checks of
    names and values of common/model that it calls. *)

From S2P Require Import Prelude GoString GoFmt Float Duration Labels LabelsFacts Lexer Ast Relabel Parser.

(** * Names and values (common/model) *)

(** [IsValidMetricName]; the loop is over runes, all of one byte when valid. *)
Definition metric_char (first : bool) (b : Z) : bool := label_char first b || (b =? rune ":").
Definition IsValidMetricName (n : string) : bool :=
  match n with
  | EmptyString => false
  | String c s => metric_char true (rune c) && str_forall (metric_char false) s
  end.

(** [LabelValue.IsValid] *)
Definition LabelValue_IsValid (lv : string) : bool := ValidString lv.

(** * Rule files *)

(** [Rule], here [rulefmt_Rule], and [RuleGroup]; [RuleGroups] is the list of its groups. *)
Record rulefmt_Rule := mkRule {
  Record_ : string; Alert_ : string; Expr_ : string; For : Duration;
  r_Labels : gmap string string; r_Annotations : gmap string string
}.

Record RuleGroup := mkRuleGroup { g_Name : string; g_Interval : Duration; g_Rules : list rulefmt_Rule }.

Notation RuleGroups := (list RuleGroup) (only parsing).

(** [Error] *)
Record rulefmt_Error := mkError { e_Group : string; e_Rule : Z; e_RuleName : string; e_Err : string }.

Section validate.
Context `{RE : Regexp} `{UT : UnicodeTables} `{MO : MapOrder}.

(** [errors.Wrapf] puts the text in front of the cause. *)
Definition Error_Error (e : rulefmt_Error) : string :=
  "group " +:+ Quote (e_Group e) +:+ ", rule " +:+ Itoa (e_Rule e) +:+ ", " +:+ Quote (e_RuleName e) +:+ ": " +:+ e_Err e.

Definition when (b : bool) (err : string) : list string := if b then [err] else [].

(** The check of the expression. *)
Definition expr_errors (s : string) : list string :=
  if (s =? "")%string then ["field 'expr' must be set in rule"]
  else match ParseExpr s with Ok _ => [] | Err e => ["could not parse expression: " +:+ ParseErr_Error e] end.

(** [Rule.Validate] *)
Definition Rule_Validate (r : rulefmt_Rule) : list string :=
  let record := negb (Record_ r =? "")%string in
  let alert := negb (Alert_ r =? "")%string in
  when (record && alert) "only one of 'record' and 'alert' must be set" ++
  when (negb record && negb alert) "one of 'record' or 'alert' must be set" ++
  expr_errors (Expr_ r) ++
  (if record then
     when (0 <? Z.of_nat (size (r_Annotations r))) "invalid field 'annotations' in recording rule" ++
     when (negb (For r =? 0)) "invalid field 'for' in recording rule" ++
     when (negb (IsValidMetricName (Record_ r))) ("invalid recording rule name: " +:+ Record_ r)
   else []) ++
  flat_map (fun kv => when (negb (IsValid kv.1)) ("invalid label name: " +:+ kv.1) ++
                      when (negb (LabelValue_IsValid kv.2)) ("invalid label value: " +:+ kv.2)) (map_order (r_Labels r)) ++
  flat_map (fun kv => when (negb (IsValid kv.1)) ("invalid annotation name: " +:+ kv.1)) (map_order (r_Annotations r)).

(** The errors of a group's rules, from rule [i] on. *)
Fixpoint rule_errors (group : string) (i : Z) (rs : list rulefmt_Rule) : list string :=
  match rs with
  | [] => []
  | r :: rs' =>
    let ruleName := if negb (Alert_ r =? "")%string then Alert_ r else Record_ r in
    map (fun err => Error_Error (mkError group i ruleName err)) (Rule_Validate r) ++ rule_errors group (i + 1) rs'
  end.

(** The loop of [RuleGroups.Validate], with the names seen so far. *)
Fixpoint validate_loop (seen : gset string) (gs : RuleGroups) : list string :=
  match gs with
  | [] => []
  | g :: gs' =>
    when (g_Name g =? "")%string "Groupname should not be empty" ++
    when (bool_decide (g_Name g ∈ seen)) ("groupname: " +:+ String "034" (g_Name g) +:+ String "034" " is repeated in the same file") ++
    rule_errors (g_Name g) 0 (g_Rules g) ++ validate_loop ({[g_Name g]} ∪ seen) gs'
  end.

Definition Validate (gs : RuleGroups) : list string := validate_loop ∅ gs.

(** [ParseFile]: reading the file and decoding its YAML is a parameter. *)
Definition ParseFile (decode : string -> result string RuleGroups) (file : string) : result (list string) RuleGroups :=
  match decode file with
  | Err e => Err [e]
  | Ok gs => match Validate gs with [] => Ok gs | errs => Err errs end
  end.

(** * What validation decides *)

Definition all_labels (P : string -> string -> Prop) (m : gmap string string) : Prop := forall k v, m !! k = Some v -> P k v.

(** A well-formed rule: a record or an alert, with an expression that parses
    and valid names and values. *)
Record valid_rule (r : rulefmt_Rule) : Prop := {
  valid_kind : (Record_ r = "" <-> Alert_ r <> "");
  valid_expr : exists e, ParseExpr (Expr_ r) = Ok e;
  valid_record : Record_ r <> "" -> r_Annotations r = ∅ /\ For r = 0 /\ IsValidMetricName (Record_ r) = true;
  valid_labels : all_labels (fun k v => IsValid k = true /\ LabelValue_IsValid v = true) (r_Labels r);
  valid_annotations : all_labels (fun k _ => IsValid k = true) (r_Annotations r)
}.

Definition valid_groups (gs : RuleGroups) : Prop :=
  NoDup (map g_Name gs) /\ Forall (fun g => g_Name g <> "" /\ Forall valid_rule (g_Rules g)) gs.

Lemma when_nil b err : when b err = [] <-> b = false.
Proof. by destruct b. Qed.

Lemma flat_map_nil {A B} (f : A -> list B) l : flat_map f l = [] <-> forall x, x ∈ l -> f x = [].
Proof.
  induction l as [|x l IH]; cbn; [split; [intros _ y Y; by apply elem_of_nil in Y|done]|].
  rewrite app_nil, IH. setoid_rewrite elem_of_cons. naive_solver.
Qed.

Lemma flat_map_order {B} (f : string * string -> list B) m :
  flat_map f (map_order m) = [] <-> forall k v, m !! k = Some v -> f (k, v) = [].
Proof.
  rewrite flat_map_nil. split.
  - intros H k v E. by apply H, elem_of_map_order.
  - intros H [k v] E. by apply H, elem_of_map_order.
Qed.

Lemma empty_not_parsed e : ParseExpr "" <> Ok e.
Proof. vm_compute. discriminate. Qed.

Lemma expr_errors_nil s : expr_errors s = [] <-> exists e, ParseExpr s = Ok e.
Proof.
  unfold expr_errors. destruct (String.eqb_spec s "") as [->|N].
  - split; [done|]. intros [e E]. by apply empty_not_parsed in E.
  - destruct (ParseExpr s) as [e|e]; split; try done; [by eexists|by intros []].
Qed.

Lemma record_errors_nil r :
  (if negb (Record_ r =? "")%string then
     when (0 <? Z.of_nat (size (r_Annotations r))) "invalid field 'annotations' in recording rule" ++
     when (negb (For r =? 0)) "invalid field 'for' in recording rule" ++
     when (negb (IsValidMetricName (Record_ r))) ("invalid recording rule name: " +:+ Record_ r)
   else []) = [] <->
  (Record_ r <> "" -> r_Annotations r = ∅ /\ For r = 0 /\ IsValidMetricName (Record_ r) = true).
Proof.
  destruct (String.eqb_spec (Record_ r) "") as [E|N]; cbn [negb]; [done|].
  rewrite !app_nil, !when_nil, !negb_false_iff, Z.eqb_eq, Z.ltb_ge. rewrite <- map_size_empty_iff. split.
  - intros (A & F & V) _. split; [lia|done].
  - intros H. destruct (H N) as (A & F & V). split; [lia|done].
Qed.

Lemma Rule_Validate_nil r : Rule_Validate r = [] <-> valid_rule r.
Proof.
  unfold Rule_Validate. cbv zeta. rewrite !app_nil, record_errors_nil, !when_nil, expr_errors_nil, !flat_map_order.
  assert (K : (negb (Record_ r =? "")%string && negb (Alert_ r =? "")%string = false /\
               negb (negb (Record_ r =? "")%string) && negb (negb (Alert_ r =? "")%string) = false)
              <-> (Record_ r = "" <-> Alert_ r <> "")).
  { destruct (String.eqb_spec (Record_ r) ""), (String.eqb_spec (Alert_ r) ""); cbn; naive_solver. }
  assert (L : (forall k v, r_Labels r !! k = Some v -> when (negb (IsValid k)) ("invalid label name: " +:+ k) ++
                 when (negb (LabelValue_IsValid v)) ("invalid label value: " +:+ v) = []) <->
              all_labels (fun k v => IsValid k = true /\ LabelValue_IsValid v = true) (r_Labels r)).
  { unfold all_labels. setoid_rewrite app_nil. setoid_rewrite when_nil. by setoid_rewrite negb_false_iff. }
  assert (A : (forall k v : string, r_Annotations r !! k = Some v -> when (negb (IsValid k)) ("invalid annotation name: " +:+ k) = [])
              <-> all_labels (fun k _ => IsValid k = true) (r_Annotations r)).
  { unfold all_labels. setoid_rewrite when_nil. by setoid_rewrite negb_false_iff. }
  cbn [fst snd]. rewrite L, A. split.
  - intros (H1 & H2 & H3 & H4 & H5 & H6). split; [by apply K|done..].
  - intros [V1 V2 V3 V4 V5]. apply K in V1 as [H1 H2]. done.
Qed.

Lemma rule_errors_nil group i rs : rule_errors group i rs = [] <-> Forall valid_rule rs.
Proof.
  revert i. induction rs as [|r rs IH]; intros i; cbn [rule_errors]; [done|].
  rewrite app_nil, IH, Forall_cons, <- Rule_Validate_nil. destruct (Rule_Validate r); naive_solver.
Qed.

Lemma validate_loop_nil seen gs :
  validate_loop seen gs = [] <->
  (forall g, g ∈ gs -> g_Name g ∉ seen) /\ NoDup (map g_Name gs) /\
  Forall (fun g => g_Name g <> "" /\ Forall valid_rule (g_Rules g)) gs.
Proof.
  revert seen. induction gs as [|g gs IH]; intros seen; cbn [validate_loop map].
  { split; [intros _|done]. split; [intros g G; by apply elem_of_nil in G|]. split; constructor. }
  rewrite !app_nil, !when_nil, rule_errors_nil, IH, bool_decide_eq_false, NoDup_cons, Forall_cons.
  rewrite <- not_true_iff_false, String.eqb_eq. setoid_rewrite elem_of_cons.
  assert (M : g_Name g ∉ map g_Name gs <-> forall g', g' ∈ gs -> g_Name g' <> g_Name g).
  { rewrite list_elem_of_fmap. naive_solver. }
  rewrite M. set_solver.
Qed.

(** C34: validation reports no error exactly for the groups with distinct,
    non-empty names whose rules are well-formed. *)
Theorem Validate_decides (gs : RuleGroups) : Validate gs = [] <-> valid_groups gs.
Proof. unfold Validate, valid_groups. rewrite validate_loop_nil. set_solver. Qed.
End validate.
