(* ===== verification/Rules.v ===== *)
(** rules/recording.go and rules/manager.go: recording rules, the evaluation of a
    rule group with its staleness markers, and the manager that loads groups and
    carries their state over a reload. *)

From S2P Require Import Prelude GoString GoFmt Float Duration Labels Lexer Ast Printer Value Relabel Parser Evaluator Engine.
From S2P Require Import Storage Alerting RuleFmt.

(** What the code around a group provides: whether the group was told to
    stop, the functions of [ManagerOptions], and the storage after an appender
    was committed. *)
Class Host (W A : Type) := {
  h_done : W -> bool * W;
  h_Query : string -> Time -> W -> result string Vector * W;
  h_Notify : string -> list Alert -> W -> W;
  h_Appender : W -> result error A * W;
  h_Settle : A -> W -> W
}.

Section rules.
Context `{RE : Regexp} `{UT : UnicodeTables} `{XH : XXHash} `{MO : MapOrder}.

(** * Rules *)

(** [RecordingRule] *)
Record RecordingRule := mkRecordingRule { rr_name : string; rr_vector : Expr; rr_labels : Labels }.

Definition NewRecordingRule (n : string) (vec : Expr) (lset : Labels) : RecordingRule := mkRecordingRule n vec lset.

(** The implementations of the interface [Rule]. *)
Inductive Rule :=
| Recording (r : RecordingRule)
| Alerting (r : AlertingRule).

Definition Rule_Name (r : Rule) : string := match r with Recording r => rr_name r | Alerting r => name r end.
Definition Rule_vector (r : Rule) : Expr := match r with Recording r => rr_vector r | Alerting r => vector r end.

(** The template expander of alerting rules. *)
Variable expand : Sample -> Time -> string -> string.

(** ** Evaluation of a rule *)

(** The labels of a recorded sample; [None] would be the builder's panic. *)
Fixpoint override_loop (lbls : Labels) (lb : Builder) : option Builder :=
  match lbls with
  | [] => Some lb
  | l :: lbls' => lb ← (if (Labels.Value l =? "")%string then Del lb [Name l] else Some (Set_ lb (Name l) (Labels.Value l)));
                  override_loop lbls' lb
  end.
Definition override (rule : RecordingRule) (metric : Labels) : option Labels :=
  Builder_Labels <$> override_loop (rr_labels rule) (Set_ (NewBuilder metric) MetricName (rr_name rule)).

(** The loop of [RecordingRule.Eval]. *)
Fixpoint record_samples (rule : RecordingRule) (vec : Vector) : option Vector :=
  match vec with
  | [] => Some []
  | s :: vec' => m ← override rule (Metric s); vec'' ← record_samples rule vec';
                 Some (mkPSample m (s_T s) (s_V s) :: vec'')
  end.

(** [Eval] of a rule, given the answer of its query; alerting rules change
    their state. *)
Definition Rule_Eval (rule : Rule) (ts : Time) (answer : result string Vector) : option (result string (Vector * Rule)) :=
  match rule with
  | Recording r =>
    match answer with
    | Err e => Some (Err e)
    | Ok vec => (fun vec => Ok (vec, rule)) <$> record_samples r vec
    end
  | Alerting r =>
    match Alerting.Eval expand r ts (fun _ _ => answer) with
    | None => None
    | Some (Err e) => Some (Err e)
    | Some (Ok (vec, r)) => Some (Ok (vec, Alerting r))
    end
  end.

(** [EngineQueryFunc], given the result of the instant query. *)
Definition vector_of_result (res : Result) : result string Vector :=
  match r_Err res, r_Value res with
  | Some e, _ => Err e
  | None, Some (VVector v) => Ok v
  | None, Some (VScalar T V) => Ok [mkPSample [] T V]
  | None, _ => Err "rule result is not a vector or scalar"
  end.
Definition EngineQueryFunc (run : query -> option Result) (qs : string) (t : Time) : option (result string Vector) :=
  match NewInstantQuery qs (t - unix_epoch) with
  | Err e => Some (Err e)
  | Ok q => vector_of_result <$> run q
  end.

(** ** Groups *)

(** [Group], without what only its goroutine and its metrics use. *)
Record Group := mkGroup {
  gr_name : string; gr_file : string; gr_interval : Duration; gr_rules : list Rule;
  seriesInPreviousEval : list (gmap string Labels)
}.

Definition NewGroup (n file : string) (interval : Duration) (rules : list Rule) : Group :=
  mkGroup n file interval rules (map (fun _ => ∅) rules).

Definition Group_hash (g : Group) : Z := Hash (New [mkLabel "name" (gr_name g); mkLabel "file" (gr_file g)]).

(** [offset], at the Unix time [now]; [None] is the panic of a division by zero. *)
Definition Group_offset (now : Z) (g : Group) : option Duration :=
  if gr_interval g =? 0 then None
  else
    let base := i64 (now - Z.rem now (gr_interval g)) in
    let offset := Z.modulo (Group_hash g) (u64 (gr_interval g)) in
    let next := i64 (base + i64 offset) in
    let next := if next <? now then i64 (next + gr_interval g) else next in
    Some (i64 (next - now)).

(** ** Evaluation of a group *)

Section eval.
Context {W A : Type} `{HO : !Host W A} `{AP : !Appender A}.

(** The loop over the result: the series that were accepted, by their text. *)
Fixpoint add_samples (vec : Vector) (app : A) (returned : gmap string Labels) : A * gmap string Labels :=
  match vec with
  | [] => (app, returned)
  | s :: vec' =>
    match ap_Add (Metric s) (s_T s) (s_V s) app with
    | ((_, Some _), app) => add_samples vec' app returned
    | ((_, None), app) => add_samples vec' app (<[Labels_String (Metric s) := Metric s]> returned)
    end
  end.

(** The loop over the series of the previous evaluation. *)
Fixpoint add_stale (prev : list (string * Labels)) (returned : gmap string Labels) (t : Z) (app : A) : A :=
  match prev with
  | [] => app
  | (metric, lset) :: prev' =>
    match returned !! metric with
    | Some _ => add_stale prev' returned t app
    | None => add_stale prev' returned t (snd (ap_Add lset t StaleNaN app))
    end
  end.

Definition set_rule (i : nat) (rule : Rule) (g : Group) : Group :=
  mkGroup (gr_name g) (gr_file g) (gr_interval g) (<[i := rule]> (gr_rules g)) (seriesInPreviousEval g).
Definition set_series (i : nat) (series : gmap string Labels) (g : Group) : Group :=
  mkGroup (gr_name g) (gr_file g) (gr_interval g) (gr_rules g) (<[i := series]> (seriesInPreviousEval g)).

(** What the evaluation of a rule does once it has a result. *)
Definition record_result (i : nat) (ts : Time) (vec : Vector) (g : Group) (w : W) : Group * W :=
  match h_Appender w with
  | (Err _, w) => (g, w)
  | (Ok app, w) =>
    let prev := default ∅ (seriesInPreviousEval g !! i) in
    let (app, returned) := add_samples vec app ∅ in
    let app := add_stale (map_order prev) returned (Alerting.FromTime ts) app in
    match ap_Commit app with
    | (Some _, app) => (g, h_Settle app w)
    | (None, app) => (set_series i returned g, h_Settle app w)
    end
  end.

Definition notify (rule : Rule) (w : W) : W :=
  match rule with
  | Alerting r => h_Notify (Expr_String (vector r)) (currentAlerts r) w
  | Recording _ => w
  end.

(** The function literal of [Group.Eval]; [None] is a panic. *)
Definition eval_rule (i : nat) (rule : Rule) (ts : Time) (g : Group) (w : W) : option (Group * W) :=
  let (answer, w) := h_Query (Expr_String (Rule_vector rule)) ts w in
  match Rule_Eval rule ts answer with
  | None => None
  | Some (Err _) => Some (g, w)
  | Some (Ok (vec, rule)) => Some (record_result i ts vec (set_rule i rule g) (notify rule w))
  end.

(** The loop of [Group.Eval]. *)
Fixpoint eval_rules (i : nat) (rules : list Rule) (ts : Time) (g : Group) (w : W) : option (Group * W) :=
  match rules with
  | [] => Some (g, w)
  | rule :: rules' =>
    let (stop, w) := h_done w in
    if stop : bool then Some (g, w)
    else gw ← eval_rule i rule ts g w; eval_rules (S i) rules' ts gw.1 gw.2
  end.

Definition Group_Eval (ts : Time) (g : Group) (w : W) : option (Group * W) := eval_rules 0 (gr_rules g) ts g w.
End eval.

(** ** Carrying state over *)

(** The indices of the rules of each name, in order. *)
Fixpoint rule_map (i : nat) (rules : list Rule) (m : gmap string (list nat)) : gmap string (list nat) :=
  match rules with
  | [] => m
  | r :: rules' => rule_map (S i) rules' (<[Rule_Name r := default [] (m !! Rule_Name r) ++ [i]]> m)
  end.

(** The alerts of an alerting rule go to another one. *)
Definition copy_alerts (from : option Rule) (rule : Rule) : Rule :=
  match rule, from with
  | Alerting ar, Some (Alerting far) =>
    Alerting (mkAlertingRule (name ar) (vector ar) (holdDuration ar) (labels ar) (annotations ar) (active far ∪ active ar))
  | _, _ => rule
  end.

Fixpoint copy_loop (from : Group) (rules : list Rule) (series : list (gmap string Labels)) (m : gmap string (list nat))
  : list Rule * list (gmap string Labels) :=
  match rules, series with
  | rule :: rules', s :: series' =>
    match default [] (m !! Rule_Name rule) with
    | [] => let (rs, ss) := copy_loop from rules' series' m in (rule :: rs, s :: ss)
    | fi :: indexes =>
      let (rs, ss) := copy_loop from rules' series' (<[Rule_Name rule := indexes]> m) in
      (copy_alerts (gr_rules from !! fi) rule :: rs, default ∅ (seriesInPreviousEval from !! fi) :: ss)
    end
  | _, _ => (rules, series)
  end.

Definition copyState (g from : Group) : Group :=
  let (rs, ss) := copy_loop from (gr_rules g) (seriesInPreviousEval g) (rule_map 0 (gr_rules from) ∅) in
  mkGroup (gr_name g) (gr_file g) (gr_interval g) rs ss.

(** * The manager *)

Definition groupKey (n file : string) : string := n +:+ ";" +:+ file.

(** The rule a file describes. *)
Definition make_rule (r : rulefmt_Rule) : result string Rule :=
  match ParseExpr (Expr_ r) with
  | Err e => Err (ParseErr_Error e)
  | Ok expr =>
    Ok (if negb (Alert_ r =? "")%string
        then Alerting (NewAlertingRule (Alert_ r) expr (For r) (FromMap (r_Labels r)) (FromMap (r_Annotations r)))
        else Recording (NewRecordingRule (Record_ r) expr (FromMap (r_Labels r))))
  end.

Fixpoint load_file (interval : Duration) (file : string) (rgs : list RuleGroup) (groups : gmap string Group)
  : result (list string) (gmap string Group) :=
  match rgs with
  | [] => Ok groups
  | rg :: rgs' =>
    let itv := if negb (g_Interval rg =? 0) then g_Interval rg else interval in
    match mapM_result make_rule (g_Rules rg) with
    | Err e => Err [e]
    | Ok rules => load_file interval file rgs' (<[groupKey (g_Name rg) file := NewGroup (g_Name rg) file itv rules]> groups)
    end
  end.

Fixpoint load_files (decode : string -> result string (list RuleGroup)) (interval : Duration) (files : list string)
  (groups : gmap string Group) : result (list string) (gmap string Group) :=
  match files with
  | [] => Ok groups
  | fn :: files' =>
    match ParseFile decode fn with
    | Err errs => Err errs
    | Ok rgs => match load_file interval fn rgs groups with
                | Err errs => Err errs
                | Ok groups => load_files decode interval files' groups
                end
    end
  end.

Definition loadGroups decode (interval : Duration) (files : list string) : result (list string) (gmap string Group) :=
  load_files decode interval files ∅.

(** [Update] of the groups, and the keys of the old groups that are stopped
    for good. *)
Definition carry_over (old : gmap string Group) (newg : Group) : Group :=
  match old !! groupKey (gr_name newg) (gr_file newg) with
  | Some oldg => copyState newg oldg
  | None => newg
  end.
Definition Manager_Update decode (interval : Duration) (files : list string) (old : gmap string Group)
  : result string (gmap string Group * gmap string Group) :=
  match loadGroups decode interval files with
  | Err _ => Err "error loading rules, previous rule set restored"
  | Ok groups => Ok (carry_over old <$> groups, filter (fun kg => groups !! kg.1 = None) old)
  end.

(** [Rules] and [AlertingRules] *)
Definition Manager_Rules (groups : gmap string Group) : list Rule := flat_map (fun kg => gr_rules kg.2) (map_order groups).
Definition Manager_AlertingRules (groups : gmap string Group) : list AlertingRule :=
  omap (fun r => match r with Alerting ar => Some ar | Recording _ => None end) (Manager_Rules groups).
End rules.
