(* ===== verification/RulesFacts.v ===== *)
(** Theorems about rules/recording.go and rules/manager.go: the slot of a group,
    the labels of recorded samples, the batches a group appends over its
    evaluations, loading, and the state carried over a reload. *)

From S2P Require Import Prelude GoString GoFmt Float Duration Labels LabelsFacts Lexer Ast Printer Value Relabel Parser.
From S2P Require Import Engine Storage Alerting RuleFmt Rules.

Section facts.
Context `{RE : Regexp} `{UT : UnicodeTables} `{XH : XXHash} `{MO : MapOrder}.
Variable expand : Sample -> Time -> string -> string.

(** * The slot of a group *)

(** [offset] waits less than an interval, and the evaluation then falls on
    a time whose remainder by the interval only depends on the group: groups
    keep their slot over restarts. *)
Theorem offset_slot (now : Z) (g : Group)
  (I : 0 < gr_interval g) (N : 0 <= now) (B : now + gr_interval g <= max_int64) :
  exists off, Group_offset now g = Some off /\ 0 <= off < gr_interval g /\
    (now + off) mod gr_interval g = Group_hash g mod gr_interval g.
Proof.
  unfold Group_offset. set (itv := gr_interval g) in *. set (h := Group_hash g).
  assert (U : u64 itv = itv) by (unfold u64; apply Z.mod_small; unfold max_int64 in B; lia).
  rewrite U. rewrite (Z.rem_mod_nonneg now itv) by lia.
  pose proof (Z.mod_pos_bound now itv I). pose proof (Z.mod_pos_bound h itv I).
  pose proof (Z.div_mod now itv ltac:(lia)) as D. unfold max_int64 in B.
  assert (IT : forall z, 0 <= z <= 2 ^ 63 - 1 -> i64 z = z) by (intros; apply i64_id; unfold min_int64, max_int64; lia).
  assert (Q : 0 <= itv * (now / itv)) by (apply Z.mul_nonneg_nonneg; [lia|apply Z.div_pos; lia]).
  destruct (Z.eqb_spec itv 0) as [|_]; [lia|]. eexists; split; [reflexivity|].
  rewrite (IT (now - now mod itv)), (IT (h mod itv)), (IT (now - now mod itv + h mod itv)) by lia.
  destruct (Z.ltb_spec (now - now mod itv + h mod itv) now).
  - rewrite (IT (now - now mod itv + h mod itv + itv)) by lia.
    rewrite (IT (now - now mod itv + h mod itv + itv - now)) by lia. split; [lia|].
    replace (now + _) with (h mod itv + (now / itv + 1) * itv) by lia.
    rewrite Z.mod_add, Z.mod_mod; lia.
  - rewrite (IT (now - now mod itv + h mod itv - now)) by lia. split; [lia|].
    replace (now + _) with (h mod itv + now / itv * itv) by lia. rewrite Z.mod_add, Z.mod_mod; lia.
Qed.

(** * Recorded samples *)

(** The updates a recording rule makes to the labels of a sample. *)
Definition label_op (l : Label) : builder_op :=
  if (Labels.Value l =? "")%string then OpDel [Name l] else OpSet (Name l) (Labels.Value l).
Definition override_ops (rule : RecordingRule) : list builder_op :=
  OpSet MetricName (rr_name rule) :: map label_op (rr_labels rule).

Lemma override_loop_ops ls lb : override_loop ls lb = run_ops lb (map label_op ls).
Proof.
  revert lb. induction ls as [|l ls IH]; intros lb; [done|]. cbn [override_loop map run_ops]. unfold label_op at 1.
  destruct (_ =? _)%string; cbn [run_op mbind option_bind]; [|apply IH].
  cbn. destruct (Del1 lb (Name l)); [apply IH|done].
Qed.

Lemma override_spec rule m : wf_labels m ->
  override rule m = Some (FromMap (foldl apply_op (Map m) (override_ops rule))).
Proof.
  intros W. destruct (labels_of_ops m (override_ops rule) W) as (b & E & F). unfold override.
  rewrite override_loop_ops.
  assert (E' : run_ops (Set_ (NewBuilder m) MetricName (rr_name rule)) (map label_op (rr_labels rule)) = Some b) by exact E.
  rewrite E', <- F. reflexivity.
Qed.

Lemma record_samples_spec rule vec : Forall (fun s => wf_labels (Metric s)) vec ->
  record_samples rule vec =
  Some (map (fun s => mkPSample (FromMap (foldl apply_op (Map (Metric s)) (override_ops rule))) (s_T s) (s_V s)) vec).
Proof. induction 1 as [|s vec W _ IH]; [done|]. cbn. by rewrite override_spec, IH by done. Qed.

(** The label a sample has after the updates, when the rule's labels have distinct names. *)
Lemma label_ops_lookup ls m n : NoDup (map Name ls) ->
  foldl apply_op m (map label_op ls) !! n =
  match list_find (fun l => Name l = n) ls with
  | Some (_, l) => if (Labels.Value l =? "")%string then None else Some (Labels.Value l)
  | None => m !! n
  end.
Proof.
  revert m. induction ls as [|l ls IH]; intros m ND; [done|]. cbn [map foldl list_find].
  apply NoDup_cons in ND as [NI ND]. rewrite IH by done.
  destruct (decide (Name l = n)) as [<-|N].
  - destruct (list_find _ ls) as [[i l']|] eqn:F.
    { apply list_find_Some in F as (L & E & _). exfalso. apply NI. rewrite <- E. apply list_elem_of_fmap. exists l'.
      split; [done|]. by eapply list_elem_of_lookup_2. }
    cbn. unfold label_op. destruct (_ =? _)%string; cbn; [apply lookup_delete_eq|apply lookup_insert_eq].
  - assert (K : apply_op m (label_op l) !! n = m !! n).
    { unfold label_op. destruct (_ =? _)%string; cbn; [by apply lookup_delete_ne|by apply lookup_insert_ne]. }
    destruct (list_find _ ls) as [[i l']|]; done.
Qed.

(** A recording rule writes each sample of its query's result once, in
    order, with its time and value; a label its file gives a value has that
    value, one it gives the empty value is removed, the metric name is the
    rule's unless overridden, and all others are kept. *)
Theorem recording_labels (rule : RecordingRule) (ts : Time) (vec : Vector)
  (W : Forall (fun s => wf_labels (Metric s)) vec) (ND : NoDup (map Name (rr_labels rule))) :
  exists vec', Rule_Eval expand (Recording rule) ts (Ok vec) = Some (Ok (vec', Recording rule)) /\
    Forall2 (fun s s' =>
      s_T s' = s_T s /\ s_V s' = s_V s /\ wf_labels (Metric s') /\
      forall n, Map (Metric s') !! n =
        match list_find (fun l => Name l = n) (rr_labels rule) with
        | Some (_, l) => if (Labels.Value l =? "")%string then None else Some (Labels.Value l)
        | None => if decide (n = MetricName) then Some (rr_name rule) else Map (Metric s) !! n
        end) vec vec'.
Proof.
  eexists. split; [cbn; by rewrite record_samples_spec|]. apply Forall2_fmap_r, Forall_Forall2_diag, Forall_forall.
  intros s _. cbn. split; [done|]. split; [done|]. split; [apply FromMap_wf|]. intros n. rewrite Map_FromMap.
  unfold override_ops. cbn [foldl apply_op]. rewrite label_ops_lookup by done.
  destruct (list_find _ _) as [[i l]|]; [done|]. destruct (decide (n = MetricName)) as [->|N].
  - apply lookup_insert_eq.
  - by apply lookup_insert_ne.
Qed.

(** * The batches of a group *)

(** What happens around one evaluation of a rule: the answer of its query, and
    the errors of its appender. *)
Record outcome := mkOutcome {
  o_answer : result string Vector; o_Appender : option error;
  o_Add : Labels -> Z -> float64 -> option error; o_Commit : option error
}.

(** A host that plays outcomes and logs, newest first, the calls of [Add] of
    each rule evaluated; its appender counts the calls. *)
Record script := mkScript { sc_outcomes : list outcome; sc_now : outcome; sc_log : list (list (Labels * Z * float64)) }.
Record log_appender := mkLog { la_o : outcome; la_adds : list (Labels * Z * float64) }.

#[local] Instance log_Appender : Appender log_appender := {|
  ap_Add l t v a := ((Z.of_nat (length (la_adds a)), o_Add (la_o a) l t v), mkLog (la_o a) (la_adds a ++ [(l, t, v)]));
  ap_AddFast _ _ _ _ a := (Some ErrNotFound, a);
  ap_Commit a := (o_Commit (la_o a), a);
  ap_Rollback a := (None, a)
|}.

Definition default_outcome : outcome := mkOutcome (Err "") None (fun _ _ _ => None) None.

#[local] Instance script_Host : Host script log_appender := {|
  h_done w := (false, w);
  h_Query _ _ w :=
    let o := default default_outcome (head (sc_outcomes w)) in
    (o_answer o, mkScript (tail (sc_outcomes w)) o ([] :: sc_log w));
  h_Notify _ _ w := w;
  h_Appender w := (match o_Appender (sc_now w) with Some e => Err e | None => Ok (mkLog (sc_now w) []) end, w);
  h_Settle a w := mkScript (sc_outcomes w) (sc_now w) (la_adds a :: tail (sc_log w))
|}.

(** The samples of an evaluation, and those the appender accepts. *)
Definition add_call (s : Sample) : Labels * Z * float64 := (Metric s, s_T s, s_V s).
Definition accepted (o : outcome) (vec : Vector) : list Labels :=
  omap (fun s => match o_Add o (Metric s) (s_T s) (s_V s) with Some _ => None | None => Some (Metric s) end) vec.

(** The evaluation of one rule as its specification has it: a rule and the
    series of its last committed batch become the same afterwards, and the
    batch: the samples in order, and behind them, in any order, a staleness
    marker for each series of the last committed batch that the rule does not
    return now. *)
Notation parts := (list (Labels * Z * float64) * list (Labels * Z * float64))%type.
Definition rule_batch (ts : Time) (o : outcome) (last : list Labels) (vec : Vector) : parts :=
  (map add_call vec, map (fun l => (l, Alerting.FromTime ts, StaleNaN)) (base.filter (fun l => l ∉ accepted o vec) last)).

Definition rule_step (ts : Time) (o : outcome) (st : Rule * list Labels) : Rule * list Labels * parts :=
  match Rule_Eval expand st.1 ts (o_answer o) with
  | Some (Ok (vec, rule)) =>
    match o_Appender o with
    | Some _ => ((rule, st.2), ([], []))
    | None => ((rule, match o_Commit o with Some _ => st.2 | None => remove_dups (accepted o vec) end),
               rule_batch ts o st.2 vec)
    end
  | _ => (st, ([], []))
  end.

(** Samples whose label names have no [=], so that their text determines them;
    answers with well-formed label sets. *)
Definition plain_vec (vec : Vector) : Prop := Forall (fun s => Forall plain_name (Metric s)) vec.
Definition plain_eval (ts : Time) (o : outcome) (rule : Rule) : Prop :=
  match Rule_Eval expand rule ts (o_answer o) with
  | Some (Ok (vec, _)) => plain_vec vec
  | _ => True
  end.

Definition wf_answer (o : outcome) : Prop :=
  match o_answer o with Ok vec => Forall (fun s => wf_labels (Metric s)) vec | Err _ => True end.

Lemma Rule_Eval_total rule ts o : wf_answer o -> is_Some (Rule_Eval expand rule ts (o_answer o)).
Proof.
  unfold wf_answer. destruct rule as [r|r]; cbn [Rule_Eval].
  - destruct (o_answer o) as [vec|e]; [|by eexists]. intros W. rewrite record_samples_spec by done. by eexists.
  - intros _. unfold Alerting.Eval. destruct (o_answer o) as [vec|e]; [|by eexists].
    destruct (eval_result_spec expand r ts vec) as (v & r' & -> & _). by eexists.
Qed.

(** A map from texts to series, as the set of its series. *)
Definition holds_series (m : gmap string Labels) (ls : list Labels) : Prop :=
  NoDup ls /\ Forall (Forall plain_name) ls /\ forall k l, m !! k = Some l <-> l ∈ ls /\ k = Labels_String l.

Lemma holds_series_order m ls : holds_series m ls -> (map_order m) ≡ₚ map (fun l => (Labels_String l, l)) ls.
Proof.
  intros (ND & P & H). apply NoDup_Permutation.
  - rewrite map_order_perm. apply NoDup_map_to_list.
  - apply NoDup_fmap_2_strong; [|done]. by intros x y _ _ [= _ ->].
  - intros [k l]. rewrite elem_of_map_order, H, list_elem_of_fmap. naive_solver.
Qed.

Lemma add_samples_spec vec o adds returned :
  exists returned', add_samples vec (mkLog o adds) returned = (mkLog o (adds ++ map add_call vec), returned') /\
    forall k, returned' !! k = match list_find (fun l => Labels_String l = k) (reverse (accepted o vec)) with
                               | Some (_, l) => Some l
                               | None => returned !! k
                               end.
Proof.
  revert adds returned. induction vec as [|s vec IH]; intros adds returned.
  { exists returned. by rewrite app_nil_r. }
  cbn [add_samples ap_Add log_Appender la_o la_adds accepted omap list_omap map]. fold (accepted o vec).
  destruct (o_Add o (Metric s) (s_T s) (s_V s)).
  - destruct (IH (adds ++ [(Metric s, s_T s, s_V s)]) returned) as (r & E & R).
    exists r. rewrite E, <- app_assoc. done.
  - destruct (IH (adds ++ [(Metric s, s_T s, s_V s)]) (<[Labels_String (Metric s) := Metric s]> returned)) as (r & E & R).
    exists r. rewrite E, <- app_assoc. split; [done|]. intros k. rewrite R, reverse_cons.
    destruct (list_find _ (reverse _)) as [[i l]|] eqn:F; [by rewrite (list_find_app_l _ _ _ _ _ F)|].
    rewrite list_find_app_r by done. cbn [list_find]. destruct (decide _) as [<-|N]; cbn; [apply lookup_insert_eq|].
    by apply lookup_insert_ne.
Qed.

Lemma add_samples_holds vec o : plain_vec vec ->
  exists returned, add_samples vec (mkLog o []) ∅ = (mkLog o (map add_call vec), returned) /\
    holds_series returned (remove_dups (accepted o vec)) /\
    forall l, Forall plain_name l -> (returned !! Labels_String l = None <-> l ∉ accepted o vec).
Proof.
  intros P. destruct (add_samples_spec vec o [] ∅) as (r & E & R). exists r. split; [done|].
  assert (PA : Forall (Forall plain_name) (accepted o vec)).
  { apply Forall_forall. intros l (s & S & A)%list_elem_of_omap. destruct (o_Add _ _ _ _); [done|]. injection A as <-.
    unfold plain_vec in P. rewrite Forall_forall in P. by apply P. }
  rewrite Forall_forall in PA.
  assert (H : forall k l, r !! k = Some l <-> l ∈ accepted o vec /\ k = Labels_String l).
  { intros k l. rewrite R, lookup_empty. destruct (list_find _ _) as [[i l']|] eqn:F.
    - apply list_find_Some in F as (L & K & _). apply list_elem_of_lookup_2 in L. rewrite elem_of_reverse in L. split.
      + intros [= <-]. done.
      + intros [I ->]. f_equal. apply Labels_String_injective; [by apply PA..|done].
    - apply list_find_None in F. split; [done|]. intros [I ->]. rewrite Forall_forall in F. exfalso.
      apply (F l); [by rewrite elem_of_reverse|done]. }
  split; [split; [apply NoDup_remove_dups|]; split|].
  - apply Forall_forall. intros l I. apply PA. by rewrite elem_of_remove_dups in I.
  - intros k l. by rewrite elem_of_remove_dups.
  - intros l Pl. rewrite eq_None_not_Some. unfold is_Some. setoid_rewrite H. split.
    + intros N I. by apply N; exists l.
    + intros N (l' & I & T). apply N.
      by rewrite (Labels_String_injective l l' Pl (PA l' I) T).
Qed.

Lemma add_stale_spec prev returned t o adds :
  add_stale prev returned t (mkLog o adds) =
  mkLog o (adds ++ map (fun kl => (kl.2, t, StaleNaN)) (base.filter (fun kl => returned !! kl.1 = None) prev)).
Proof.
  revert adds. induction prev as [|[k l] prev IH]; intros adds; cbn [add_stale]; [by rewrite app_nil_r|].
  rewrite filter_cons. cbn [fst]. destruct (returned !! k) eqn:R.
  - rewrite decide_False by done. apply IH.
  - rewrite decide_True by done. cbn [snd ap_Add log_Appender la_o la_adds]. rewrite IH, <- app_assoc. done.
Qed.

Lemma record_result_spec i ts vec o g m last outs log :
  seriesInPreviousEval g !! i = Some m -> holds_series m last -> plain_vec vec ->
  exists m' batch,
    record_result i ts vec g (mkScript outs o ([] :: log)) = (set_series i m' g, mkScript outs o (batch :: log)) /\
    match o_Appender o with
    | Some _ => m' = m /\ batch = []
    | None => holds_series m' (match o_Commit o with Some _ => last | None => remove_dups (accepted o vec) end) /\
              laid_out batch (rule_batch ts o last vec)
    end.
Proof.
  intros S H P. assert (SAME : set_series i m g = g) by (destruct g; unfold set_series; cbn in *; by rewrite list_insert_id).
  unfold record_result. cbn [h_Appender script_Host sc_now]. destruct (o_Appender o) as [e|].
  { exists m, []. by rewrite SAME. }
  destruct (add_samples_holds vec o P) as (r & E & R & NI). rewrite E, S. cbn [default from_option id].
  rewrite add_stale_spec. cbn [ap_Commit log_Appender la_o h_Settle script_Host la_adds sc_outcomes sc_now sc_log tail].
  set (batch := map add_call vec ++ _).
  assert (B : laid_out batch (rule_batch ts o last vec)).
  { unfold batch, rule_batch. eexists. split; [done|]. cbn [snd]. rewrite (holds_series_order _ _ H). destruct H as (_ & PL & _).
    clear -NI PL. induction PL as [|l last Pl PL IH]; [done|]. cbn [map]. rewrite !filter_cons. cbn [fst].
    destruct (decide (l ∈ accepted o vec)) as [I|I].
    - rewrite decide_False by (by rewrite NI; naive_solver). rewrite decide_False by naive_solver. apply IH.
    - rewrite decide_True by (by apply NI). rewrite decide_True by done. cbn [map snd]. by rewrite IH. }
  destruct (o_Commit o) as [e|]; [exists m, batch|exists r, batch]; by rewrite ?SAME.
Qed.

Lemma eval_rule_spec i ts rule o g m last outs now log :
  gr_rules g !! i = Some rule -> seriesInPreviousEval g !! i = Some m -> holds_series m last ->
  wf_answer o -> plain_eval ts o rule ->
  let step := rule_step ts o (rule, last) in
  exists m' batch,
    eval_rule expand i rule ts g (mkScript (o :: outs) now log) =
      Some (set_series i m' (set_rule i step.1.1 g), mkScript outs o (batch :: log)) /\
    holds_series m' step.1.2 /\ laid_out batch step.2.
Proof.
  intros R S H W P. cbv zeta. unfold eval_rule, rule_step, plain_eval in *.
  cbn [h_Query script_Host sc_outcomes head default from_option id tail sc_log].
  assert (SAME : set_series i m (set_rule i rule g) = g).
  { destruct g; unfold set_series, set_rule; cbn in *; by rewrite !list_insert_id. }
  destruct (Rule_Eval_total rule ts o W) as [[[vec rule']|e] E]; cbn [fst]; rewrite E in *.
  - assert (N : notify rule' (mkScript outs o ([] :: log)) = mkScript outs o ([] :: log)) by by destruct rule'.
    rewrite N. destruct (record_result_spec i ts vec o (set_rule i rule' g) m last outs log S H P) as (m' & b & -> & K).
    exists m', b. destruct (o_Appender o); [|done]. destruct K as [-> ->]. split; [done|]. split; [done|apply laid_out_all].
  - exists m, []. cbn [fst snd]. rewrite SAME. split; [done|]. split; [done|apply laid_out_all].
Qed.

(** An evaluation of a group as the pointwise evaluation of its rules, and a
    history of evaluations. *)
Fixpoint group_step (ts : Time) (outs : list outcome) (sts : list (Rule * list Labels))
  : list (Rule * list Labels) * list parts :=
  match outs, sts with
  | o :: outs', st :: sts' =>
    let r := group_step ts outs' sts' in
    ((rule_step ts o st).1 :: r.1, (rule_step ts o st).2 :: r.2)
  | _, _ => ([], [])
  end.

Fixpoint group_spec (evs : list (Time * list outcome)) (sts : list (Rule * list Labels))
  : list (Rule * list Labels) * list (list parts) :=
  match evs with
  | [] => (sts, [])
  | (ts, outs) :: evs' =>
    let r := group_step ts outs sts in
    let rs := group_spec evs' r.1 in (rs.1, r.2 :: rs.2)
  end.

(** The same with [Group_Eval]: the batches of the evaluations, oldest first. *)
Fixpoint run_group (evs : list (Time * list outcome)) (g : Group)
  : option (Group * list (list (list (Labels * Z * float64)))) :=
  match evs with
  | [] => Some (g, [])
  | (ts, outs) :: evs' =>
    gw ← Group_Eval expand ts g (mkScript outs default_outcome []);
    rs ← run_group evs' gw.1; Some (rs.1, rev (sc_log gw.2) :: rs.2)
  end.

(** Histories with one outcome per rule and evaluation, whose answers are well
    formed and whose samples are determined by their text. *)
Fixpoint good_history (evs : list (Time * list outcome)) (sts : list (Rule * list Labels)) : Prop :=
  match evs with
  | [] => True
  | (ts, outs) :: evs' =>
    Forall2 (fun o st => wf_answer o /\ plain_eval ts o st.1) outs sts /\ good_history evs' (group_step ts outs sts).1
  end.

Lemma insert_middle {T} i (l : list T) x y k : length l = i -> <[i := x]> (l ++ y :: k) = l ++ x :: k.
Proof. intros <-. rewrite insert_app_r_alt, Nat.sub_diag by lia. done. Qed.

#[export] Instance plain_name_dec l : Decision (plain_name l).
Proof. unfold plain_name. apply _. Defined.

#[export] Instance wf_labels_dec ls : Decision (wf_labels ls).
Proof.
  induction ls as [|l ls [W|W]]; [left; constructor| |right; by inversion 1].
  destruct (decide (Forall (fun l' => String.ltb (Name l) (Name l') = true) ls)) as [F|F]; [left; by constructor|right; by inversion 1].
Defined.

#[export] Instance good_eval_dec ts o rule : Decision (wf_answer o /\ plain_eval ts o rule).
Proof.
  apply and_dec.
  - unfold wf_answer. destruct (o_answer o); apply _.
  - unfold plain_eval, plain_vec. destruct (Rule_Eval expand rule ts (o_answer o)) as [[[vec r]|e]|]; apply _.
Defined.

#[export] Instance good_history_dec evs sts : Decision (good_history evs sts).
Proof. revert sts. induction evs as [|[ts outs] evs IH]; intros sts; cbn [good_history]; apply _. Defined.

Lemma eval_rules_spec ts outs sts g now log pre spre ms :
  Forall2 (fun o st => wf_answer o /\ plain_eval ts o st.1) outs sts ->
  gr_rules g = pre ++ map fst sts -> seriesInPreviousEval g = spre ++ ms -> length spre = length pre ->
  Forall2 holds_series ms (map snd sts) ->
  let r := group_step ts outs sts in
  exists now' batches ms',
    eval_rules expand (length pre) (map fst sts) ts g (mkScript outs now log) =
      Some (mkGroup (gr_name g) (gr_file g) (gr_interval g) (pre ++ map fst r.1) (spre ++ ms'),
            mkScript [] now' (rev batches ++ log)) /\
    Forall2 laid_out batches r.2 /\ Forall2 holds_series ms' (map snd r.1).
Proof.
  intros F. revert g now log pre spre ms. induction F as [|o [rule last] outs sts [W P] F IH]; intros g now log pre spre ms R S L H.
  { inversion H; subst. exists now, [], []. cbn [map fst snd group_step] in *. rewrite <- R, <- S. by destruct g. }
  cbn [map fst snd] in R, H. apply Forall2_cons_inv_r in H as (m & ms1 & Hm & Hms & ->).
  destruct (eval_rule_spec (length pre) ts rule o g m last outs now log) as (m' & b & EV & HM & B);
    [rewrite R; by apply list_lookup_middle|rewrite S; by apply list_lookup_middle|done..|].
  cbn [map fst eval_rules h_done script_Host]. rewrite EV. cbn [mbind option_bind fst snd].
  set (st' := rule_step ts o (rule, last)) in *.
  destruct (IH (set_series (length pre) m' (set_rule (length pre) st'.1.1 g)) o (b :: log) (pre ++ [st'.1.1]) (spre ++ [m']) ms1)
    as (now' & bs & ms' & E & B' & H').
  { cbn. by rewrite R, insert_middle, <- app_assoc. }
  { cbn. by rewrite S, insert_middle, <- app_assoc. }
  { rewrite !length_app. cbn. lia. }
  { done. }
  rewrite length_app, Nat.add_1_r in E. rewrite E. exists now', (b :: bs), (m' :: ms').
  cbn [rev group_step fst snd map gr_name gr_file gr_interval set_series set_rule]. rewrite <- !app_assoc.
  split; [done|]. by split; constructor.
Qed.

(** C9: over any history of evaluations of a new group, whatever the query, the
    appender and the commit of each rule answer, each evaluation of a rule that
    gets an appender appends the rule's samples, in order, and behind them, in
    some order, exactly one staleness marker for each series that the rule's last
    committed evaluation appended and that it does not now; an evaluation that
    fails appends nothing and leaves what the next one compares with. This holds
    when queries answer with well-formed label sets and no label name of a
    recorded sample has an equals sign: the code tells series apart by their
    text. *)
Theorem group_history n f itv rules (evs : list (Time * list outcome))
  (G : good_history evs (map (fun r => (r, [])) rules)) :
  exists g bs, run_group evs (NewGroup n f itv rules) = Some (g, bs) /\
    Forall2 (Forall2 laid_out) bs (group_spec evs (map (fun r => (r, [])) rules)).2 /\
    gr_rules g = map fst (group_spec evs (map (fun r => (r, [])) rules)).1.
Proof.
  assert (H : forall sts ms, good_history evs sts -> Forall2 holds_series ms (map snd sts) ->
    exists g bs, run_group evs (mkGroup n f itv (map fst sts) ms) = Some (g, bs) /\
      Forall2 (Forall2 laid_out) bs (group_spec evs sts).2 /\ gr_rules g = map fst (group_spec evs sts).1).
  { clear G. induction evs as [|[ts outs] evs' IH]; intros sts ms G H; [by eexists _, []|].
    destruct G as [F G]. cbn [run_group]. unfold Group_Eval. cbn [gr_rules].
    destruct (eval_rules_spec ts outs sts (mkGroup n f itv (map fst sts) ms) default_outcome [] [] [] ms)
      as (now' & bs & ms' & E & B & H'); [done..|].
    cbn [length app] in E. rewrite E. cbn [mbind option_bind fst snd gr_name gr_file gr_interval sc_log].
    destruct (IH _ ms' G H') as (g & bs' & E' & B' & R'). rewrite E'. cbn [mbind option_bind fst snd].
    eexists _, _. split; [done|]. cbn [group_spec snd fst]. rewrite app_nil_r, rev_involutive. by split; [constructor|]. }
  destruct (H (map (fun r => (r, [])) rules) (map (fun _ => ∅) rules)) as (g & bs & E & B & R); [done| |].
  - clear. induction rules as [|r rules IH]; [constructor|]. cbn. constructor; [|done].
    split; [constructor|]. split; [constructor|]. intros k l. rewrite lookup_empty. set_solver.
  - exists g, bs. rewrite map_map in E. cbn in E. rewrite map_id in E. done.
Qed.
End facts.

(** * Concrete groups *)

#[local] Existing Instances any_print length_hash no_regexp tree_order.

Definition sample_expand : Sample -> Time -> string -> string := fun _ _ s => s.
Definition job_rule : RecordingRule :=
  NewRecordingRule "job:up" (NumberLiteral (of_Z 1)) [mkLabel "instance" ""; mkLabel "team" "db"].
Definition up_a : Sample := mkPSample [mkLabel "__name__" "up"; mkLabel "instance" "a1"; mkLabel "job" "a"] 0 (of_Z 1).
Definition up_b : Sample := mkPSample [mkLabel "__name__" "up"; mkLabel "instance" "b1"; mkLabel "job" "b"] 0 (of_Z 1).
Definition down_rule : AlertingRule := NewAlertingRule "Down" (NumberLiteral (of_Z 1)) (2 * Minute) [mkLabel "severity" "page"] [].
Definition answered (vec : Vector) : outcome := mkOutcome (Ok vec) None (fun _ _ _ => None) None.
Definition sample_history : list (Time * list outcome) :=
  [(60 * Second, [answered [up_a; up_b]; answered [up_a]]);
   (120 * Second, [mkOutcome (Err "query timed out") None (fun _ _ _ => None) None; answered [up_a]]);
   (180 * Second, [answered [up_b]; answered []])].

Lemma batch_lengths {T} (bs : list (list (list T))) ps :
  Forall2 (Forall2 laid_out) bs ps -> map (map length) bs = map (map (fun p => length p.1 + length p.2)%nat) ps.
Proof. induction 1 as [|b p bs ps P _ IH]; [done|]. cbn. by rewrite (laid_out_lengths _ _ P), IH. Qed.

Lemma offset_slot_witness :
  exists off, Group_offset 1000000007 (NewGroup "g" "f.yml" Minute []) = Some off /\ 0 <= off < Minute.
Proof.
  destruct (offset_slot 1000000007 (NewGroup "g" "f.yml" Minute [])) as (off & E & B & _); [by vm_compute..|].
  by exists off.
Defined.

Lemma recording_labels_witness :
  exists vec', Rule_Eval sample_expand (Recording job_rule) 0 (Ok [up_a]) = Some (Ok (vec', Recording job_rule)) /\
    length vec' = 1%nat /\ Forall (fun s => Map (Metric s) !! "instance" = None /\ Map (Metric s) !! "job" = Some "a") vec'.
Proof.
  destruct (recording_labels sample_expand job_rule 0 [up_a]) as (vec' & E & F).
  - by repeat constructor.
  - repeat constructor; set_solver.
  - exists vec'. split; [done|]. split; [by rewrite <- (Forall2_length _ _ _ F)|].
    apply Forall_forall. intros s' I. apply list_elem_of_lookup in I as [i I].
    destruct (Forall2_lookup_r _ _ _ _ _ F I) as (s & S & _ & _ & _ & M). destruct i; [|done].
    injection S as <-. rewrite !M. by vm_compute.
Defined.

Lemma group_history_witness :
  exists g bs, run_group sample_expand sample_history (NewGroup "g" "f.yml" Minute [Recording job_rule; Alerting down_rule]) = Some (g, bs) /\
    map (map length) bs = [[2; 1]; [0; 1]; [2; 1]]%nat.
Proof.
  destruct (group_history sample_expand "g" "f.yml" Minute [Recording job_rule; Alerting down_rule] sample_history) as (g & bs & E & B & _).
  - apply (bool_decide_unpack _). vm_compute. exact I.
  - exists g, bs. split; [done|]. rewrite (batch_lengths _ _ B). vm_compute. reflexivity.
Defined.
