(* ===== verification/ReloadFacts.v ===== *)
(** Theorems about loading rule files and reloading them in rules/manager.go. *)

From S2P Require Import Prelude GoString GoFmt Float Duration Labels LabelsFacts Lexer Ast Printer Value Relabel Parser.
From S2P Require Import Evaluator Engine Storage Alerting RuleFmt Rules.

Section facts.
Context `{RE : Regexp} `{UT : UnicodeTables} `{XH : XXHash} `{MO : MapOrder}.
Variable expand : Sample -> Time -> string -> string.

(** * Matching the rules of two groups *)

(** The positions, from [i] on, of the rules of a name. *)
Fixpoint positions (i : nat) (rules : list Rule) (n : string) : list nat :=
  match rules with
  | [] => []
  | r :: rules' => if decide (Rule_Name r = n) then i :: positions (S i) rules' n else positions (S i) rules' n
  end.

Definition named (n : string) (rules : list Rule) : nat := length (base.filter (fun r => Rule_Name r = n) rules).

(** The rule that the [i]-th of [rules] gets its state from: as many rules of
    its name come before it as before the [i]-th. *)
Definition matched (from rules : list Rule) (i : nat) : option nat :=
  r ← rules !! i; positions 0 from (Rule_Name r) !! named (Rule_Name r) (take i rules).

Lemma rule_map_spec i rules m n :
  default [] (rule_map i rules m !! n) = default [] (m !! n) ++ positions i rules n.
Proof.
  revert i m. induction rules as [|r rules IH]; intros i m; cbn [rule_map positions]; [by rewrite app_nil_r|].
  rewrite IH. destruct (decide (Rule_Name r = n)) as [<-|N].
  - rewrite lookup_insert_eq. cbn. by rewrite <- app_assoc.
  - by rewrite lookup_insert_ne.
Qed.

(** What one rule and its series become, given the position matched. *)
Definition take_over (from : Group) (fi : option nat) (rs : Rule * gmap string Labels) : Rule * gmap string Labels :=
  match fi with
  | Some fi => (copy_alerts (gr_rules from !! fi) rs.1, default ∅ (seriesInPreviousEval from !! fi))
  | None => rs
  end.

Lemma copy_loop_spec from rules series m : length series = length rules ->
  forall i r s, rules !! i = Some r -> series !! i = Some s ->
    let rs := copy_loop from rules series m in
    let p := take_over from (default [] (m !! Rule_Name r) !! named (Rule_Name r) (take i rules)) (r, s) in
    rs.1 !! i = Some p.1 /\ rs.2 !! i = Some p.2.
Proof.
  revert series m. induction rules as [|r0 rules IH]; intros [|s0 series] m L i r s R S; try done.
  injection L as L. cbn [copy_loop]. destruct (default [] (m !! Rule_Name r0)) as [|fi idx] eqn:D.
  - destruct (copy_loop from rules series m) as [rs ss] eqn:E. destruct i as [|i].
    + injection R as ->. injection S as ->. by rewrite D.
    + pose proof (IH series m L i r s R S) as K. rewrite E in K. cbn [fst snd] in *. cbn [take lookup list_lookup].
      unfold named in *. rewrite filter_cons. destruct (decide (Rule_Name r0 = Rule_Name r)) as [E'|N]; [|done].
      rewrite <- E' in K |- *. rewrite D in *. done.
  - destruct (copy_loop from rules series _) as [rs ss] eqn:E. destruct i as [|i].
    + injection R as ->. injection S as ->. by rewrite D.
    + pose proof (IH series (<[Rule_Name r0:=idx]> m) L i r s R S) as K. rewrite E in K. cbn [fst snd] in *. cbn [take lookup list_lookup].
      unfold named in *. rewrite filter_cons. destruct (decide (Rule_Name r0 = Rule_Name r)) as [E'|N].
      * rewrite <- E' in K |- *. rewrite lookup_insert_eq in K. rewrite D. done.
      * by rewrite lookup_insert_ne in K.
Qed.

Lemma copy_loop_length from rules series m : length series = length rules ->
  length (copy_loop from rules series m).1 = length rules /\ length (copy_loop from rules series m).2 = length rules.
Proof.
  revert series m. induction rules as [|r rules IH]; intros [|s series] m L; try done. injection L as L. cbn [copy_loop].
  destruct (default [] _) as [|fi idx].
  - destruct (IH series m L). destruct (copy_loop _ _ _ _). cbn in *. lia.
  - destruct (IH series (<[Rule_Name r:=idx]> m) L). destruct (copy_loop _ _ _ _). cbn in *. lia.
Qed.

Lemma copyState_lookup (g from : Group) : length (seriesInPreviousEval g) = length (gr_rules g) ->
  (length (gr_rules (copyState g from)) = length (gr_rules g) /\
   length (seriesInPreviousEval (copyState g from)) = length (gr_rules g)) /\
  (gr_name (copyState g from), gr_file (copyState g from), gr_interval (copyState g from)) =
    (gr_name g, gr_file g, gr_interval g) /\
  forall i r s, gr_rules g !! i = Some r -> seriesInPreviousEval g !! i = Some s ->
    let p := take_over from (matched (gr_rules from) (gr_rules g) i) (r, s) in
    gr_rules (copyState g from) !! i = Some p.1 /\ seriesInPreviousEval (copyState g from) !! i = Some p.2.
Proof.
  intros L. unfold copyState, matched.
  pose proof (copy_loop_spec from (gr_rules g) _ (rule_map 0 (gr_rules from) ∅) L) as K.
  pose proof (copy_loop_length from (gr_rules g) _ (rule_map 0 (gr_rules from) ∅) L) as [K3 K4].
  destruct (copy_loop _ _ _ _) as [rs ss]. cbn [fst snd gr_rules seriesInPreviousEval gr_name gr_file gr_interval] in *.
  split; [done|]. split; [done|]. intros i r s R S. destruct (K i r s R S) as [K1 K2].
  rewrite rule_map_spec, lookup_empty in K1, K2. rewrite R. cbn [mbind option_bind]. done.
Qed.

(** A group takes over the state of an old one rule by rule: the first rule
    of a name gets the alerts and the series of the first old rule of that
    name, the second those of the second, and so on; a rule with no such old
    rule keeps its own, and nothing else of the group changes. *)
Theorem copyState_matches (g from : Group) (i : nat) (r : Rule) (s : gmap string Labels)
  (L : length (seriesInPreviousEval g) = length (gr_rules g))
  (R : gr_rules g !! i = Some r) (S : seriesInPreviousEval g !! i = Some s) :
  let g' := copyState g from in
  let p := take_over from (matched (gr_rules from) (gr_rules g) i) (r, s) in
  gr_rules g' !! i = Some p.1 /\ seriesInPreviousEval g' !! i = Some p.2 /\
  length (gr_rules g') = length (gr_rules g) /\
  (gr_name g', gr_file g', gr_interval g') = (gr_name g, gr_file g, gr_interval g).
Proof. destruct (copyState_lookup g from L) as ([L1 L2] & F & K). destruct (K i r s R S). done. Qed.

(** * Loading *)

Definition group_for (interval : Duration) (file : string) (rg : RuleGroup) : result string Group :=
  (fun rules => NewGroup (g_Name rg) file (if negb (g_Interval rg =? 0) then g_Interval rg else interval) rules)
  <$> mapM_result make_rule (g_Rules rg).

(** The groups inserted for a file, in order. *)
Definition entry (interval : Duration) (file : string) (rg : RuleGroup) (kg : string * Group) : Prop :=
  kg.1 = groupKey (g_Name rg) file /\ group_for interval file rg = Ok kg.2.
Definition insert_all (kgs : list (string * Group)) (m : gmap string Group) : gmap string Group :=
  foldl (fun m kg => <[kg.1 := kg.2]> m) m kgs.

Lemma insert_all_lookup kgs m k g :
  (forall kg kg', kg ∈ kgs -> kg' ∈ kgs -> kg.1 = kg'.1 -> kg = kg') -> (forall kg, kg ∈ kgs -> m !! kg.1 = None \/ m !! kg.1 = Some kg.2) ->
  insert_all kgs m !! k = Some g <-> (k, g) ∈ kgs \/ m !! k = Some g.
Proof.
  revert m. induction kgs as [|[k0 g0] kgs IH]; intros m D M; [set_solver|]. cbn [insert_all foldl fst snd].
  fold (insert_all kgs (<[k0:=g0]> m)). rewrite IH.
  - rewrite lookup_insert_Some, elem_of_cons. split; [naive_solver|].
    intros [[[= <- <-]|I]|H]; [by right; left|by left|]. destruct (decide (k0 = k)) as [<-|N]; [|by right; right].
    right; left. split; [done|]. destruct (M (k0, g0) ltac:(left)) as [E|E]; cbn in E; congruence.
  - intros kg kg' I I'. apply D; by right.
  - intros kg I. destruct (decide (k0 = kg.1)) as [E|N].
    + right. rewrite E, lookup_insert_eq. rewrite <- (D (k0, g0) kg ltac:(left) ltac:(by right) E). done.
    + rewrite lookup_insert_ne by done. apply M. by right.
Qed.

Lemma make_rule_valid r : valid_rule r -> exists rule, make_rule r = Ok rule.
Proof. intros V. destruct (valid_expr r V) as [e E]. unfold make_rule. rewrite E. by eexists. Qed.

Lemma mapM_make_rule rs : Forall valid_rule rs -> exists rules, mapM_result make_rule rs = Ok rules.
Proof.
  induction 1 as [|r rs V _ (rules & IH)]; [by eexists|]. cbn. destruct (make_rule_valid r V) as [rule ->]. rewrite IH. by eexists.
Qed.

Lemma load_file_spec interval file rgs m : Forall (fun g => g_Name g <> "" /\ Forall valid_rule (g_Rules g)) rgs ->
  exists kgs, Forall2 (entry interval file) rgs kgs /\ load_file interval file rgs m = Ok (insert_all kgs m).
Proof.
  intros V. revert m. induction V as [|rg rgs [_ V] _ IH]; intros m; [by exists []; split; [constructor|]|].
  destruct (mapM_make_rule _ V) as [rules E]. cbn [load_file]. rewrite E.
  set (g := NewGroup (g_Name rg) file (if negb (g_Interval rg =? 0) then g_Interval rg else interval) rules).
  destruct (IH (<[groupKey (g_Name rg) file := g]> m)) as (kgs & F & L).
  exists ((groupKey (g_Name rg) file, g) :: kgs). split; [|exact L]. constructor; [|done]. split; [done|]. unfold group_for. by rewrite E.
Qed.

Lemma ParseFile_valid decode file rgs : ParseFile decode file = Ok rgs -> valid_groups rgs.
Proof.
  unfold ParseFile, Validate. destruct (decode file) as [gs|e]; [|done].
  destruct (validate_loop ∅ gs) eqn:E; [|done]. intros [= <-]. apply validate_loop_nil in E as (_ & H). exact H.
Qed.

(** The entries of all the files, in order. *)
Definition file_entries decode interval (file : string) (kgs : list (string * Group)) : Prop :=
  exists rgs, ParseFile decode file = Ok rgs /\ Forall2 (entry interval file) rgs kgs.

Lemma load_files_spec decode interval files m :
  Forall (fun f => is_Ok (ParseFile decode f)) files ->
  exists kgss, Forall2 (file_entries decode interval) files kgss /\
    load_files decode interval files m = Ok (insert_all (concat kgss) m).
Proof.
  intros P. revert m. induction P as [|f files [rgs E] _ IH]; intros m; [by exists []; split; [constructor|]|].
  cbn [load_files]. rewrite E. destruct (load_file_spec interval f rgs m) as (kgs & F & ->).
  { by apply ParseFile_valid in E as []. }
  destruct (IH (insert_all kgs m)) as (kgss & FF & ->). exists (kgs :: kgss). split; [constructor; [by exists rgs|done]|].
  cbn [concat]. unfold insert_all. by rewrite foldl_app.
Qed.

Definition loads decode interval (files : list string) (kg : string * Group) : Prop :=
  exists f rgs rg, f ∈ files /\ ParseFile decode f = Ok rgs /\ rg ∈ rgs /\ entry interval f rg kg.

Definition plain_groups decode (files : list string) : Prop :=
  forall f rgs rg, f ∈ files -> ParseFile decode f = Ok rgs -> rg ∈ rgs -> contains_byte (g_Name rg) (rune ";") = false.

Lemma Forall2_elem_l {T U} (R : T -> U -> Prop) l k x : Forall2 R l k -> x ∈ l -> exists y, y ∈ k /\ R x y.
Proof. induction 1 as [|a b l k RAB _ IH]; [by intros ?%elem_of_nil|]. rewrite elem_of_cons. setoid_rewrite elem_of_cons. naive_solver. Qed.

Lemma Forall2_elem_r {T U} (R : T -> U -> Prop) l k y : Forall2 R l k -> y ∈ k -> exists x, x ∈ l /\ R x y.
Proof. intros F%Forall2_flip. by apply (Forall2_elem_l _ _ _ _ F). Qed.

Lemma entries_spec decode interval files kgss : Forall2 (file_entries decode interval) files kgss ->
  forall kg, kg ∈ concat kgss <-> loads decode interval files kg.
Proof.
  intros F [k g]. unfold loads. rewrite list_elem_of_In, in_concat. setoid_rewrite <- list_elem_of_In. split.
  - intros (kgs & J & I). apply (Forall2_elem_r _ _ _ _ F) in J as (f & If & rgs & E & G).
    apply (Forall2_elem_r _ _ _ _ G) in I as (rg & Ir & En). by exists f, rgs, rg.
  - intros (f & rgs & rg & If & E & Ir & En1 & En2). apply (Forall2_elem_l _ _ _ _ F) in If as (kgs & J & rgs' & E' & G).
    rewrite E in E'. injection E' as <-. apply (Forall2_elem_l _ _ _ _ G) in Ir as ([k' g'] & I & K1 & K2).
    exists kgs. split; [done|]. cbn in *. rewrite En2 in K2. injection K2 as ->. by subst.
Qed.

Lemma loads_functional decode interval files kg kg' : plain_groups decode files ->
  loads decode interval files kg -> loads decode interval files kg' -> kg.1 = kg'.1 -> kg = kg'.
Proof.
  destruct kg as [k g], kg' as [k' g']. cbn. intros P (f & rgs & rg & If & E & Ir & K & G) (f' & rgs' & rg' & If' & E' & Ir' & K' & G') Q.
  cbn in *. subst. unfold groupKey in Q. change (";" +:+ ?x) with (String ";" x) in Q.
  apply split_at_byte in Q as [N <-]; [|by apply (P f rgs rg)|by apply (P f' rgs' rg')]. rewrite E in E'. injection E' as <-.
  apply ParseFile_valid in E as [ND _].
  assert (R : rg = rg').
  { apply list_elem_of_lookup in Ir as [i Hi], Ir' as [j Hj].
    assert (i = j) as ->; [|congruence]. apply (NoDup_lookup (map g_Name rgs) i j (g_Name rg) ND).
    - by rewrite list_lookup_fmap, Hi.
    - rewrite list_lookup_fmap, Hj. cbn. by rewrite N. }
  subst. by rewrite G in G'; injection G' as <-.
Qed.

Lemma loadGroups_lookup decode interval files :
  Forall (fun f => is_Ok (ParseFile decode f)) files -> plain_groups decode files ->
  exists groups, loadGroups decode interval files = Ok groups /\
    forall k g, groups !! k = Some g <-> loads decode interval files (k, g).
Proof.
  intros V P. destruct (load_files_spec decode interval files ∅ V) as (kgss & F & E).
  eexists. split; [exact E|]. intros k g. rewrite insert_all_lookup.
  - rewrite (entries_spec _ _ _ _ F), lookup_empty. naive_solver.
  - intros kg kg'. rewrite !(entries_spec _ _ _ _ F). by apply loads_functional.
  - intros kg _. left. apply lookup_empty.
Qed.

(** When every file decodes and passes validation, [loadGroups] succeeds,
    no expression fails to parse a second time, and the result has exactly one
    group for each group of each file, under its key. *)
Theorem loadGroups_loads decode interval files
  (V : Forall (fun f => is_Ok (ParseFile decode f)) files) (P : plain_groups decode files) :
  exists groups, loadGroups decode interval files = Ok groups /\
    (forall k g, groups !! k = Some g <->
      exists f rgs rg, f ∈ files /\ ParseFile decode f = Ok rgs /\ rg ∈ rgs /\
        k = groupKey (g_Name rg) f /\ group_for interval f rg = Ok g) /\
    forall f rgs rg, f ∈ files -> ParseFile decode f = Ok rgs -> rg ∈ rgs ->
      exists g, groups !! groupKey (g_Name rg) f = Some g.
Proof.
  destruct (loadGroups_lookup decode interval files V P) as (groups & E & L). exists groups. split; [done|]. split; [done|].
  intros f rgs rg If Ef Ir. pose proof (ParseFile_valid _ _ _ Ef) as [_ VR]. rewrite Forall_forall in VR.
  destruct (mapM_make_rule _ (proj2 (VR rg Ir))) as [rules R]. eexists. apply L. exists f, rgs, rg.
  split; [done|]. split; [done|]. split; [done|]. split; [done|]. unfold group_for. by rewrite R.
Qed.

(** * Reloading *)

(** Two states of the same group: evaluations only change the alerts and the
    series of its rules. *)
Definition same_rule (r r' : Rule) : Prop :=
  match r, r' with
  | Recording r, Recording r' => r = r'
  | Alerting r, Alerting r' =>
    name r = name r' /\ vector r = vector r' /\ holdDuration r = holdDuration r' /\ labels r = labels r' /\
    annotations r = annotations r'
  | _, _ => False
  end.

Definition same_group (g g' : Group) : Prop :=
  (gr_name g, gr_file g, gr_interval g) = (gr_name g', gr_file g', gr_interval g') /\
  Forall2 same_rule (gr_rules g) (gr_rules g') /\ length (seriesInPreviousEval g) = length (seriesInPreviousEval g').

#[local] Instance same_rule_equivalence : Equivalence same_rule.
Proof.
  split; unfold Reflexive, Symmetric, Transitive, same_rule.
  - by intros [r|r].
  - intros [r|r] [r'|r']; naive_solver.
  - intros [r|r] [r'|r'] [r''|r'']; try done; intuition congruence.
Qed.

#[local] Instance same_group_preorder : PreOrder same_group.
Proof.
  split.
  - intros g. by split.
  - intros g g' g'' (A & B & C) (A' & B' & C'). split; [congruence|]. split; [by etrans|congruence].
Qed.

Lemma Rule_Eval_same rule ts answer vec rule' : Rule_Eval expand rule ts answer = Some (Ok (vec, rule')) -> same_rule rule rule'.
Proof.
  destruct rule as [r|r]; cbn [Rule_Eval].
  - destruct answer as [v|]; [|done]. destruct (record_samples r v); [|done]. by intros [= _ <-].
  - unfold Alerting.Eval. destruct answer as [v|]; [|done].
    destruct (eval_result_spec expand r ts v) as (vec1 & r' & -> & F & _). intros [= _ <-]. cbn. naive_solver.
Qed.

Section host.
Context {W A : Type} `{HO : !Host W A} `{AP : !Appender A}.

Lemma record_result_same i ts vec g w :
  gr_rules (record_result i ts vec g w).1 = gr_rules g /\ same_group g (record_result i ts vec g w).1.
Proof.
  unfold record_result. destruct (h_Appender w) as [[app|e] w']; [|done]. destruct (add_samples vec app ∅) as [app' r].
  destruct (ap_Commit _) as [[e|] app'']; [done|]. split; [done|]. split; [done|]. cbn. by rewrite length_insert.
Qed.

Lemma eval_rule_same i rule ts g w g' w' :
  gr_rules g !! i = Some rule -> eval_rule expand i rule ts g w = Some (g', w') ->
  same_group g g' /\ drop (S i) (gr_rules g') = drop (S i) (gr_rules g).
Proof.
  intros R. unfold eval_rule. destruct (h_Query _ ts w) as [answer w1].
  destruct (Rule_Eval expand rule ts answer) as [[[vec rule']|e]|] eqn:E; [|by intros [= <- _]|done].
  intros [= G]. destruct (record_result_same i ts vec (set_rule i rule' g) (notify rule' w1)) as [E1 E2].
  rewrite G in E1, E2. cbn [fst] in *. rewrite E1. cbn [gr_rules set_rule]. rewrite drop_insert_lt by lia.
  split; [|done]. transitivity (set_rule i rule' g); [|done]. split; [done|]. split; [|done]. cbn.
  rewrite <- (list_insert_id (gr_rules g) i rule R) at 1. apply Forall2_insert; [|by eapply Rule_Eval_same].
  done.
Qed.

Lemma eval_rules_same rules i ts g w g' w' :
  drop i (gr_rules g) = rules -> eval_rules expand i rules ts g w = Some (g', w') -> same_group g g'.
Proof.
  revert i g w. induction rules as [|rule rules IH]; intros i g w D; cbn [eval_rules]; [by intros [= <- _]|].
  destruct (h_done w) as [[] w1]; [by intros [= <- _]|].
  destruct (eval_rule expand i rule ts g w1) as [[g1 w2]|] eqn:E; [|done]. cbn [mbind option_bind fst snd]. intros K.
  assert (R : gr_rules g !! i = Some rule) by (rewrite <- (Nat.add_0_r i), <- lookup_drop, D; done).
  destruct (eval_rule_same _ _ _ _ _ _ _ R E) as [SG DR]. transitivity g1; [done|].
  apply (IH (S i) g1 w2); [|done]. rewrite DR. rewrite (drop_S _ rule i R) in D. by injection D.
Qed.
End host.

(** The states a group reaches by evaluations, whatever its host. *)
Inductive evolves : Group -> Group -> Prop :=
| evolves_refl g : evolves g g
| evolves_step g g1 g2 W A (HO : Host W A) (AP : Appender A) ts w w' :
    evolves g g1 -> Group_Eval expand ts g1 w = Some (g2, w') -> evolves g g2.

Lemma evolves_same g g' : evolves g g' -> same_group g g'.
Proof.
  induction 1 as [g|g g1 g2 W A HO AP ts w w' _ IH E]; [done|]. transitivity g1; [done|].
  unfold Group_Eval in E. by apply (eval_rules_same (gr_rules g1) 0 ts g1 w g2 w').
Qed.

Lemma positions_self rules k i r : rules !! i = Some r ->
  positions k rules (Rule_Name r) !! named (Rule_Name r) (take i rules) = Some (k + i)%nat.
Proof.
  revert k i. induction rules as [|r0 rules IH]; intros k [|i] R; try done.
  - injection R as ->. cbn [positions take]. rewrite decide_True by done. by rewrite Nat.add_0_r.
  - cbn [positions take]. unfold named. rewrite filter_cons. specialize (IH (S k) i R). unfold named in IH.
    rewrite Nat.add_succ_r. destruct (decide _); exact IH.
Qed.

Lemma same_rule_name r r' : same_rule r r' -> Rule_Name r = Rule_Name r'.
Proof. destruct r, r'; cbn; naive_solver. Qed.

Lemma positions_same rules rules' k n : Forall2 same_rule rules rules' -> positions k rules n = positions k rules' n.
Proof.
  intros F. revert k. induction F as [|r r' rules rules' S F IH]; intros k; [done|]. cbn [positions].
  by rewrite (same_rule_name _ _ S), IH.
Qed.

(** Rules as [NewGroup] gets them: no alert is active. *)
Definition fresh_rule (r : Rule) : Prop := match r with Alerting r => active r = ∅ | Recording _ => True end.

Lemma copyState_fresh g g' : same_group g g' -> Forall fresh_rule (gr_rules g) ->
  length (seriesInPreviousEval g) = length (gr_rules g) -> copyState g g' = g'.
Proof.
  intros (N & F & L) FR LS. destruct (copyState_lookup g g' LS) as ([L1 L2] & N' & K).
  pose proof (Forall2_length _ _ _ F) as LF.
  assert (M : forall i r', gr_rules g' !! i = Some r' -> matched (gr_rules g') (gr_rules g) i = Some i).
  { intros i r' R'. destruct (Forall2_lookup_r _ _ _ _ _ F R') as (r & R & S). unfold matched. rewrite R.
    cbn [mbind option_bind]. rewrite <- (positions_same _ _ 0 _ F). by apply positions_self. }
  assert (P : forall i, gr_rules (copyState g g') !! i = gr_rules g' !! i /\
                        seriesInPreviousEval (copyState g g') !! i = seriesInPreviousEval g' !! i).
  { intros i. destruct (gr_rules g' !! i) as [r'|] eqn:R'.
    - destruct (Forall2_lookup_r _ _ _ _ _ F R') as (r & R & S).
      pose proof (lookup_lt_Some _ _ _ R') as LT.
      destruct (lookup_lt_is_Some_2 (seriesInPreviousEval g) i ltac:(lia)) as [s Hs].
      destruct (lookup_lt_is_Some_2 (seriesInPreviousEval g') i ltac:(lia)) as [s' Hs'].
      destruct (K i r s R Hs) as [K1 K2]. rewrite K1, K2. rewrite (M i r' R'). cbn [take_over fst snd]. rewrite R', Hs'.
      split; [|done]. f_equal. rewrite Forall_lookup in FR. specialize (FR i r R). destruct r as [r|r], r' as [r'|r']; cbn in *; try done.
      + by subst.
      + rewrite FR, (right_id_L ∅ (∪)). destruct r', S as (-> & -> & -> & -> & ->). done.
    - apply lookup_ge_None in R'. rewrite !lookup_ge_None_2 by lia. done. }
  destruct (copyState g g') as [n f i rs ss], g' as [n' f' i' rs' ss']. cbn in *.
  assert (rs = rs') as -> by (apply list_eq; apply P). assert (ss = ss') as -> by (apply list_eq; apply P). congruence.
Qed.

Lemma make_rule_fresh r rule : make_rule r = Ok rule -> fresh_rule rule.
Proof. unfold make_rule. destruct (ParseExpr _); [|done]. intros [= <-]. by destruct (negb _). Qed.

Lemma group_for_fresh interval f rg g : group_for interval f rg = Ok g ->
  Forall fresh_rule (gr_rules g) /\ length (seriesInPreviousEval g) = length (gr_rules g) /\
  gr_name g = g_Name rg /\ gr_file g = f.
Proof.
  unfold group_for. destruct (mapM_result make_rule (g_Rules rg)) as [rules|] eqn:E; [|done]. intros [= <-].
  cbn. rewrite length_map. split; [|done]. revert rules E.
  induction (g_Rules rg) as [|r rs IH]; intros rules; cbn [mapM_result]; [intros [= <-]; constructor|].
  destruct (make_rule r) as [rule|] eqn:ER; [|done]. destruct (mapM_result make_rule rs) as [rules'|]; [|done].
  intros [= <-]. constructor; [by apply make_rule_fresh in ER|by apply IH].
Qed.

Lemma load_files_ok decode interval files m m' :
  load_files decode interval files m = Ok m' -> Forall (fun f => is_Ok (ParseFile decode f)) files.
Proof.
  revert m. induction files as [|f files IH]; intros m; [constructor|]. cbn [load_files].
  destruct (ParseFile decode f) as [rgs|] eqn:E; [|done]. destruct (load_file _ _ _ _) as [m1|]; [|done].
  intros H. constructor; [by exists rgs|by apply (IH m1)].
Qed.

(** C16: reloading unchanged rule files loses nothing, if no group's name has a
    semicolon: whatever evaluations the groups went through since the files were
    loaded, the groups after the reload are the same, alerts and series
    included, and none is stopped for good. *)
Theorem reload_unchanged decode interval files groups old
  (L : loadGroups decode interval files = Ok groups) (P : plain_groups decode files)
  (E : map_relation (fun _ => evolves) (fun _ _ => False) (fun _ _ => False) groups old) :
  Manager_Update decode interval files old = Ok (old, ∅).
Proof.
  destruct (loadGroups_lookup decode interval files (load_files_ok _ _ _ _ _ L) P) as (groups' & L' & K).
  rewrite L in L'. injection L' as <-. unfold Manager_Update. rewrite L. f_equal. f_equal.
  - apply map_eq. intros k. rewrite lookup_fmap. specialize (E k).
    destruct (groups !! k) as [g|] eqn:G, (old !! k) as [g'|] eqn:O; cbn in E |- *; try done. f_equal.
    apply K in G as (f & rgs & rg & _ & _ & _ & Kk & Gg). cbn in Kk, Gg. destruct (group_for_fresh _ _ _ _ Gg) as (FR & LS & N & F).
    unfold carry_over. rewrite N, F, <- Kk, O. apply copyState_fresh; [by apply evolves_same|done..].
  - apply map_eq. intros k. rewrite lookup_empty, map_lookup_filter_None. specialize (E k).
    destruct (groups !! k) as [g|] eqn:G, (old !! k) as [g'|] eqn:O; cbn in E; try done; [|by left].
    right. intros g1 _. cbn. by rewrite G.
Qed.
End facts.

(** * Concrete files *)

#[local] Existing Instances any_print length_hash no_regexp tree_order.

Definition sample_groups : list RuleGroup :=
  [mkRuleGroup "g" 0 [mkRule "job:up:sum" "" "sum(up)" 0 {["team" := "db"]} ∅; mkRule "" "Down" "up == 0" Minute ∅ ∅];
   mkRuleGroup "h" Minute [mkRule "job:up:sum" "" "up" 0 ∅ ∅]].
Definition sample_file (f : string) : result string (list RuleGroup) :=
  if (f =? "r.yml")%string then Ok sample_groups else Err "no such file".

Lemma sample_file_ok : Forall (fun f => is_Ok (ParseFile sample_file f)) ["r.yml"].
Proof. constructor; [|constructor]. eexists. vm_compute. reflexivity. Qed.

Lemma sample_file_plain : plain_groups sample_file ["r.yml"].
Proof.
  intros f rgs rg ->%list_elem_of_singleton E.
  assert (D : ParseFile sample_file "r.yml" = Ok sample_groups) by (vm_compute; reflexivity).
  rewrite D in E. injection E as <-. revert rg. apply Forall_forall. unfold sample_groups. by repeat constructor.
Qed.

Lemma loadGroups_loads_witness :
  exists groups g, loadGroups sample_file (30 * Second) ["r.yml"] = Ok groups /\ groups !! "h;r.yml" = Some g.
Proof.
  destruct (loadGroups_loads sample_file (30 * Second) ["r.yml"] sample_file_ok sample_file_plain) as (groups & E & _ & K).
  destruct (K "r.yml" _ (mkRuleGroup "h" Minute [mkRule "job:up:sum" "" "up" 0 ∅ ∅]) ltac:(left) ltac:(vm_compute; reflexivity) ltac:(right; left))
    as [g G].
  exists groups, g. split; [exact E|exact G].
Defined.

Lemma reload_unchanged_witness :
  exists groups, loadGroups sample_file (30 * Second) ["r.yml"] = Ok groups /\
    Manager_Update sample_file (30 * Second) ["r.yml"] groups = Ok (groups, ∅).
Proof.
  destruct (loadGroups_lookup sample_file (30 * Second) ["r.yml"] sample_file_ok sample_file_plain) as (groups & E & _).
  exists groups. split; [exact E|].
  apply (reload_unchanged (fun _ _ s => s) sample_file (30 * Second) ["r.yml"] groups groups E sample_file_plain).
  intros k. destruct (groups !! k); constructor.
Defined.

Lemma copyState_matches_witness :
  let r n := Recording (NewRecordingRule n (NumberLiteral (of_Z 1)) []) in
  let series l : gmap string Labels := {["k" := [mkLabel "a" l]]} in
  let from := mkGroup "g" "f" Minute [r "x"; r "y"; r "x"] [series "1"; series "2"; series "3"] in
  let g := NewGroup "g" "f" Minute [r "y"; r "x"; r "x"; r "x"] in
  seriesInPreviousEval (copyState g from) !! 2%nat = Some (series "3") /\
  seriesInPreviousEval (copyState g from) !! 3%nat = Some ∅.
Proof.
  intros r series from g. split.
  - exact (proj1 (proj2 (copyState_matches g from 2 (r "x") ∅ eq_refl eq_refl eq_refl))).
  - exact (proj1 (proj2 (copyState_matches g from 3 (r "x") ∅ eq_refl eq_refl eq_refl))).
Defined.

(** A rule that selects by an equality matcher on the metric name alone
    passes validation and is loaded, but the text a group queries for it is
    empty, so its query fails whatever the storage holds. *)
Theorem nameless_rule_fails (f : query -> option Result) (ts : Time) :
  let r := mkRule "job:up" "" "{__name__='up'}" 0 ∅ ∅ in
  Rule_Validate r = [] /\ (fun rule => Expr_String (Rule_vector rule)) <$> make_rule r = Ok "" /\
  exists e, EngineQueryFunc f "" ts = Some (Err e) /\
    forall rule, Rule_Eval (fun _ _ s => s) rule ts (Err e) = Some (Err e).
Proof.
  split; [vm_compute; reflexivity|]. split; [vm_compute; reflexivity|].
  assert (E : exists e, ParseExpr "" = Err e) by (vm_compute; by eexists). destruct E as [e E].
  unfold EngineQueryFunc, NewInstantQuery. rewrite E. eexists. split; [done|]. by intros [r'|r'].
Qed.
