(* ===== verification/Target.v ===== *)
(** scrape/target.go: targets, the appenders that limit what a scrape may store,
    and the labels of discovered targets, with the mutation of sample labels of
    scrape/scrape.go and what they use of net, config and util/strutil. *)

From S2P Require Import Prelude GoString GoFmt Float Duration Labels LabelsFacts Relabel Storage Alerting RuleFmt.

(** * Label names (common/model/labels.go) *)

Definition ExportedLabelPrefix : string := "exported_".
Definition SchemeLabel : string := "__scheme__".
Definition AddressLabel : string := "__address__".
Definition MetricsPathLabel : string := "__metrics_path__".
Definition ReservedLabelPrefix : string := "__".
Definition MetaLabelPrefix : string := "__meta_".
Definition ParamLabelPrefix : string := "__param_".
Definition JobLabel : string := "job".
Definition InstanceLabel : string := "instance".

(** [strings.HasPrefix] *)
Definition HasPrefix (s pre : string) : bool := String.prefix pre s.

(** * Sanitized label names (util/strutil/strconv.go) *)

Definition label_rune (r : Z) : bool :=
  ((rune "a" <=? r) && (r <=? rune "z")) || ((rune "A" <=? r) && (r <=? rune "Z")) || ((rune "0" <=? r) && (r <=? rune "9")) || (r =? rune "_").
Fixpoint sanitize (fuel : nat) (s : string) : string :=
  match fuel, s with
  | S fuel, String c _ =>
    let (r, w) := DecodeRuneInString s in String (if label_rune r then c else "_") (sanitize fuel (str_drop w s))
  | _, _ => ""
  end.
(** [SanitizeLabelName]; each step takes a byte at least. *)
Definition SanitizeLabelName (name : string) : string := sanitize (String.length name) name.

(** * Hosts and ports (net) *)

Fixpoint index_byte (s : string) (b : Z) : Z :=
  match s with
  | EmptyString => -1
  | String c s' => if rune c =? b then 0 else let i := index_byte s' b in if i <? 0 then -1 else i + 1
  end.

(** The host and the port, or the reason of the error. *)
Definition SplitHostPort (hostport : string) : result string (string * string) :=
  let len := Z.of_nat (String.length hostport) in
  let slice a b := str_slice (Z.to_nat a) (Z.to_nat b) hostport in
  let i := last_index hostport (rune ":") in
  let finish host j k :=
    if 0 <=? index_byte (slice j len) (rune "[") then Err "unexpected '[' in address"
    else if 0 <=? index_byte (slice k len) (rune "]") then Err "unexpected ']' in address"
    else Ok (host, slice (i + 1) len) in
  if i <? 0 then Err "missing port in address"
  else if index_byte hostport (rune "[") =? 0 then
    let end_ := index_byte hostport (rune "]") in
    if end_ <? 0 then Err "missing ']' in address"
    else if end_ + 1 =? len then Err "missing port in address"
    else if end_ + 1 =? i then finish (slice 1 end_) 1 (end_ + 1)
    else if index_byte (slice (end_ + 1) len) (rune ":") =? 0 then Err "too many colons in address"
    else Err "missing port in address"
  else
    let host := slice 0 i in
    if 0 <=? index_byte host (rune ":") then Err "too many colons in address" else finish host 0 0.

(** [net.JoinHostPort] *)
Definition JoinHostPort (host port : string) : string :=
  if contains_byte host (rune ":") then "[" +:+ host +:+ "]:" +:+ port else host +:+ ":" +:+ port.

(** * Targets *)

Inductive TargetHealth := HealthUnknown | HealthGood | HealthBad.

Definition TargetHealth_String (h : TargetHealth) : string :=
  match h with HealthUnknown => "unknown" | HealthGood => "up" | HealthBad => "down" end.

Record Target := mkTarget {
  discoveredLabels : Labels; t_labels : Labels; t_params : gmap string (list string);
  lastError : option error; lastScrape : Time; health : TargetHealth
}.

Definition NewTarget (lbls discovered : Labels) (params : gmap string (list string)) : Target :=
  mkTarget discovered lbls params None 0 HealthUnknown.

(** [Labels], here [Target_Labels] *)
Definition Target_Labels (t : Target) : Labels :=
  List.filter (fun l => negb (HasPrefix (Name l) ReservedLabelPrefix)) (t_labels t).

Definition SetDiscoveredLabels (l : Labels) (t : Target) : Target :=
  mkTarget l (t_labels t) (t_params t) (lastError t) (lastScrape t) (health t).

Definition Target_report (start : Time) (err : option error) (t : Target) : Target :=
  mkTarget (discoveredLabels t) (t_labels t) (t_params t) err start
    (match err with None => HealthGood | Some _ => HealthBad end).

(** [offset] at the Unix time [now], for the target's hash. *)
Definition Target_offset (now hash : Z) (interval : Duration) : option Duration :=
  if interval =? 0 then None
  else
    let base := Z.rem now interval in
    let offset := Z.modulo hash (u64 interval) in
    let next := i64 (base + i64 offset) in
    Some (if interval <? next then i64 (next - interval) else next).

(** * Appenders that limit a scrape *)

Section appenders.
Context {A : Type} `{AP : !Appender A}.

Record timeLimitAppender := mkTimeLimit { tl_Appender : A; maxTime : Z }.

Definition timeLimit_Add (l : Labels) (t : Z) (v : float64) (app : timeLimitAppender) : (Z * option error) * timeLimitAppender :=
  if maxTime app <? t then ((0, Some ErrOutOfBounds), app)
  else
    let '((ref, err), a) := ap_Add l t v (tl_Appender app) in
    ((match err with Some _ => 0 | None => ref end, err), mkTimeLimit a (maxTime app)).

Definition timeLimit_AddFast (l : Labels) (ref t : Z) (v : float64) (app : timeLimitAppender) : option error * timeLimitAppender :=
  if maxTime app <? t then (Some ErrOutOfBounds, app)
  else let '(err, a) := ap_AddFast l ref t v (tl_Appender app) in (err, mkTimeLimit a (maxTime app)).

#[export] Instance timeLimit_Appender : Appender timeLimitAppender := {|
  ap_Add := timeLimit_Add;
  ap_AddFast := timeLimit_AddFast;
  ap_Commit app := let '(err, a) := ap_Commit (tl_Appender app) in (err, mkTimeLimit a (maxTime app));
  ap_Rollback app := let '(err, a) := ap_Rollback (tl_Appender app) in (err, mkTimeLimit a (maxTime app))
|}.

Record limitAppender := mkLimit { l_Appender : A; limit : Z; l_i : Z }.

(** The count of the samples, [Some] when the limit is exceeded. *)
Definition count_sample (v : float64) (app : limitAppender) : limitAppender * bool :=
  if negb (IsStaleNaN v) then
    let i := i64 (l_i app + 1) in (mkLimit (l_Appender app) (limit app) i, limit app <? i)
  else (app, false).

Definition limit_Add (l : Labels) (t : Z) (v : float64) (app : limitAppender) : (Z * option error) * limitAppender :=
  let (app, over) := count_sample v app in
  if over then ((0, Some errSampleLimit), app)
  else
    let '((ref, err), a) := ap_Add l t v (l_Appender app) in
    ((match err with Some _ => 0 | None => ref end, err), mkLimit a (limit app) (l_i app)).

Definition limit_AddFast (l : Labels) (ref t : Z) (v : float64) (app : limitAppender) : option error * limitAppender :=
  let (app, over) := count_sample v app in
  if over then (Some errSampleLimit, app)
  else let '(err, a) := ap_AddFast l ref t v (l_Appender app) in (err, mkLimit a (limit app) (l_i app)).

#[export] Instance limit_Appender : Appender limitAppender := {|
  ap_Add := limit_Add;
  ap_AddFast := limit_AddFast;
  ap_Commit app := let '(err, a) := ap_Commit (l_Appender app) in (err, mkLimit a (limit app) (l_i app));
  ap_Rollback app := let '(err, a) := ap_Rollback (l_Appender app) in (err, mkLimit a (limit app) (l_i app))
|}.
End appenders.
Arguments timeLimitAppender A : clear implicits.
Arguments limitAppender A : clear implicits.

(** [appender]: the time limit, below the sample limit when there is one. *)
Inductive scrapeAppender (A : Type) :=
| Timed (a : timeLimitAppender A)
| Limited (a : limitAppender (timeLimitAppender A)).
Arguments Timed {A}.
Arguments Limited {A}.

Definition maxAheadTime : Duration := 10 * Minute.

Definition appender {A} (now : Time) (lim : Z) (app : A) : scrapeAppender A :=
  let app := mkTimeLimit app (FromTime (now + maxAheadTime)) in
  if 0 <? lim then Limited (mkLimit app lim 0) else Timed app.

(** The method called on the appender inside. *)
Definition through {A R} (f : timeLimitAppender A -> R * timeLimitAppender A)
  (g : limitAppender (timeLimitAppender A) -> R * limitAppender (timeLimitAppender A)) (a : scrapeAppender A) : R * scrapeAppender A :=
  match a with
  | Timed a => let '(r, a) := f a in (r, Timed a)
  | Limited a => let '(r, a) := g a in (r, Limited a)
  end.

#[export] Instance scrape_Appender {A} `{!Appender A} : Appender (scrapeAppender A) := {|
  ap_Add l t v := through (ap_Add l t v) (ap_Add l t v);
  ap_AddFast l r t v := through (ap_AddFast l r t v) (ap_AddFast l r t v);
  ap_Commit := through ap_Commit ap_Commit;
  ap_Rollback := through ap_Rollback ap_Rollback
|}.

(** * Labels *)

(** The fields of [config.ScrapeConfig] that are used. *)
Record ScrapeConfig `{Regexp} := mkScrapeConfig {
  JobName : string; HonorLabels : bool; Params : gmap string (list string);
  ScrapeInterval : Duration; ScrapeTimeout : Duration; MetricsPath : string; Scheme : string; SampleLimit : Z;
  RelabelConfigs : list RelabelConfig; MetricRelabelConfigs : list RelabelConfig
}.

(** [targetgroup.Group] *)
Record TargetGroup := mkTargetGroup { tg_Targets : list (gmap string string); tg_Labels : gmap string string; Source : string }.

Section labels.
Context `{RE : Regexp} `{RR : !RegexpReplace} `{HM : MD5} `{UT : UnicodeTables} `{MO : MapOrder}.

(** A target's label over a sample's: the sample's is kept under another name. *)
Definition override_label (lset : Labels) (lb : Builder) (l : Label) : Builder :=
  let lv := Get lset (Name l) in
  let lb := if negb (lv =? "")%string then Set_ lb (ExportedLabelPrefix +:+ Name l) lv else lb in
  Set_ lb (Name l) (Labels.Value l).

(** A label without a value is removed. *)
Definition drop_empty (l : Label) (lb : Builder) : option Builder :=
  if (Labels.Value l =? "")%string then Del lb [Name l] else Some lb.

(** [mutateSampleLabels]; the inner [None] is the nil label set of a dropped
    sample, the outer one a panic. *)
Definition mutateSampleLabels (lset : Labels) (target : Target) (honor : bool) (rc : list RelabelConfig) : option (option Labels) :=
  let lb := NewBuilder lset in
  let lb :=
    if honor then foldl (fun lb l => if Has lset (Name l) then lb else Set_ lb (Name l) (Labels.Value l)) lb (Target_Labels target)
    else foldl (override_label lset) lb (Target_Labels target) in
  lb ← range_labels drop_empty (Builder_Labels lb) lb;
  let res := Builder_Labels lb in
  match rc with [] => Some (Some res) | _ => Process (Some res) rc end.

Definition mutateReportSampleLabels (lset : Labels) (target : Target) : Labels :=
  Builder_Labels (foldl (override_label lset) (NewBuilder lset) (Target_Labels target)).

(** [config.CheckTargetAddress] *)
Definition CheckTargetAddress (address : string) : option string :=
  if ContainsRune address (rune "/") then Some (Quote address +:+ " is not a valid hostname") else None.

(** The function literal [addPort] of [populateLabels]. *)
Definition addPort (s : string) : bool :=
  match SplitHostPort s with
  | Ok _ => false
  | Err _ => match SplitHostPort (s +:+ ":1234") with Ok _ => true | Err _ => false end
  end.

(** The address with the port its scheme implies. *)
Definition with_port (cfg : ScrapeConfig) (scheme addr : string) : result string string :=
  if addPort addr then
    if (scheme =? "http")%string || (scheme =? "")%string then Ok (addr +:+ ":80")
    else if (scheme =? "https")%string then Ok (addr +:+ ":443")
    else Err ("invalid scheme: " +:+ Quote (Scheme cfg))
  else Ok addr.

(** The first label whose value is not valid. *)
Fixpoint bad_value (ls : Labels) : option string :=
  match ls with
  | [] => None
  | l :: ls' => if negb (LabelValue_IsValid (Labels.Value l))
                then Some ("invalid label value for " +:+ Quote (Name l) +:+ ": " +:+ Quote (Labels.Value l))
                else bad_value ls'
  end.

(** The labels before relabelling. *)
Definition default_labels (lset : Labels) (cfg : ScrapeConfig) : Labels :=
  let scrapeLabels := [mkLabel JobLabel (JobName cfg); mkLabel MetricsPathLabel (MetricsPath cfg); mkLabel SchemeLabel (Scheme cfg)] in
  let lb := foldl (fun lb l => if (Get lset (Name l) =? "")%string then Set_ lb (Name l) (Labels.Value l) else lb)
              (NewBuilder lset) scrapeLabels in
  let lb := foldl (fun lb kv => match kv.2 with [] => lb | v :: _ => Set_ lb (ParamLabelPrefix +:+ kv.1) v end)
              lb (map_order (Params cfg)) in
  Builder_Labels lb.

(** [populateLabels]: the labels of the target, nil when it is dropped, and those before relabelling. *)
Definition populateLabels (lset : Labels) (cfg : ScrapeConfig) : option (result string (option Labels * option Labels)) :=
  let preRelabelLabels := default_labels lset cfg in
  lset ← Process (Some preRelabelLabels) (RelabelConfigs cfg);
  match lset with
  | None => Some (Ok (None, Some preRelabelLabels))
  | Some lset =>
    if (Get lset AddressLabel =? "")%string then Some (Err "no address")
    else
      let lb := NewBuilder lset in
      match with_port cfg (Get lset SchemeLabel) (Get lset AddressLabel) with
      | Err e => Some (Err e)
      | Ok addr =>
        let lb := if addPort (Get lset AddressLabel) then Set_ lb AddressLabel addr else lb in
        match CheckTargetAddress addr with
        | Some e => Some (Err e)
        | None =>
          lb ← range_labels (fun l lb => if HasPrefix (Name l) MetaLabelPrefix then Del lb [Name l] else Some lb) lset lb;
          let lb := if (Get lset InstanceLabel =? "")%string then Set_ lb InstanceLabel addr else lb in
          let res := Builder_Labels lb in
          match bad_value res with
          | Some e => Some (Err e)
          | None => Some (Ok (Some res, Some preRelabelLabels))
          end
        end
      end
  end.

(** The labels of a target of a group. *)
Definition group_labels (tg : TargetGroup) (tlset : gmap string string) : Labels :=
  let pairs := map (fun kv => mkLabel kv.1 kv.2) in
  New (pairs (map_order tlset) ++
       pairs (List.filter (fun kv => match tlset !! kv.1 with Some _ => false | None => true end) (map_order (tg_Labels tg)))).

(** The loop of [targetsFromGroup]. *)
Fixpoint targets_loop (i : Z) (tg : TargetGroup) (cfg : ScrapeConfig) (tlsets : list (gmap string string)) (targets : list Target)
  : option (result string (list Target)) :=
  match tlsets with
  | [] => Some (Ok targets)
  | tlset :: tlsets' =>
    r ← populateLabels (group_labels tg tlset) cfg;
    match r with
    | Err e => Some (Err ("instance " +:+ Itoa i +:+ " in group " +:+ Source tg +:+ ": " +:+ e))
    | Ok (None, None) => targets_loop (i + 1) tg cfg tlsets' targets
    | Ok (lbls, orig) =>
      targets_loop (i + 1) tg cfg tlsets' (targets ++ [NewTarget (default [] lbls) (default [] orig) (Params cfg)])
    end
  end.

Definition targetsFromGroup (tg : TargetGroup) (cfg : ScrapeConfig) : option (result string (list Target)) :=
  targets_loop 0 tg cfg (tg_Targets tg) [].
End labels.
