(* ===== verification/Scrape.v ===== *)
(** scrape/scrape.go: the cache of a scrape loop, the appending of a scrape's
    samples with its staleness markers, the report samples, and the pool that
    keeps loops in line with the targets. *)

From S2P Require Import Prelude GoString GoFmt Float Duration Labels Relabel TextParse Storage Alerting Target.

(** * The cache *)

Record cacheEntry := mkEntry { ce_ref : Z; ce_lastIter : Z; ce_hash : Z; ce_lset : Labels }.

(** The iterations in [c_dropped] are those the code's pointers point to. *)
Record scrapeCache := mkCache {
  c_iter : Z; c_entries : gmap string cacheEntry; c_dropped : gmap string Z;
  seriesCur : gmap Z Labels; seriesPrev : gmap Z Labels
}.

Definition newScrapeCache : scrapeCache := mkCache 0 ∅ ∅ ∅ ∅.

Definition iterDone (c : scrapeCache) : scrapeCache :=
  mkCache (u64 (c_iter c + 1))
    (base.filter (fun se : string * cacheEntry => u64 (c_iter c - ce_lastIter se.2) <= 2) (c_entries c))
    (base.filter (fun si : string * Z => u64 (c_iter c - si.2) <= 2) (c_dropped c))
    ∅ (seriesCur c).

(** [get]: the entry as it is after its iteration was set. *)
Definition get (met : string) (c : scrapeCache) : option cacheEntry * scrapeCache :=
  match c_entries c !! met with
  | None => (None, c)
  | Some e =>
    let e := mkEntry (ce_ref e) (c_iter c) (ce_hash e) (ce_lset e) in
    (Some e, mkCache (c_iter c) (<[met := e]> (c_entries c)) (c_dropped c) (seriesCur c) (seriesPrev c))
  end.

Definition addRef (met : string) (ref : Z) (lset : Labels) (hash : Z) (c : scrapeCache) : scrapeCache :=
  if ref =? 0 then c
  else mkCache (c_iter c) (<[met := mkEntry ref (c_iter c) hash lset]> (c_entries c)) (c_dropped c) (seriesCur c) (seriesPrev c).

Definition addDropped (met : string) (c : scrapeCache) : scrapeCache :=
  mkCache (c_iter c) (c_entries c) (<[met := c_iter c]> (c_dropped c)) (seriesCur c) (seriesPrev c).

Definition getDropped (met : string) (c : scrapeCache) : bool * scrapeCache :=
  match c_dropped c !! met with
  | None => (false, c)
  | Some _ => (true, mkCache (c_iter c) (c_entries c) (<[met := c_iter c]> (c_dropped c)) (seriesCur c) (seriesPrev c))
  end.

Definition trackStaleness (hash : Z) (lset : Labels) (c : scrapeCache) : scrapeCache :=
  mkCache (c_iter c) (c_entries c) (c_dropped c) (<[hash := lset]> (seriesCur c)) (seriesPrev c).

(** The series [forEachStale] calls its function with, until it returns false. *)
Definition stale_series `{MapOrder} (c : scrapeCache) : list Labels :=
  map snd (List.filter (fun hl => match seriesCur c !! hl.1 with Some _ => false | None => true end) (map_order (seriesPrev c))).

(** * Appending a scrape *)

Section loop.
Context `{XH : XXHash} `{MO : MapOrder} {A : Type} `{AP : !Appender A}.
Variable sampleMutator : Labels -> option (option Labels).
Variable reportSampleMutator : Labels -> Labels.

(** The variables of [append]'s loop; the counters that are only logged are
    left out. *)
Record vars := mkVars { v_app : A; v_cache : scrapeCache; v_total : Z; v_added : Z; v_err : option error }.

Definition set_app (a : A) (err : option error) (x : vars) : vars := mkVars a (v_cache x) (v_total x) (v_added x) err.
Definition set_cache (c : scrapeCache) (x : vars) : vars := mkVars (v_app x) c (v_total x) (v_added x) (v_err x).
Definition count (x : vars) : vars := mkVars (v_app x) (v_cache x) (v_total x) (v_added x + 1) (v_err x).
Definition set_err (err : option error) (x : vars) : vars := mkVars (v_app x) (v_cache x) (v_total x) (v_added x) err.

(** The part of an iteration for a metric that is not cached; the boolean is
    false after a [break loop], and [None] is a panic. *)
Definition add_new (e : pentry) (t : Z) (x : vars) : option (vars * bool) :=
  let hash := Hash (p_lset e) in
  lset ← sampleMutator (p_lset e);
  match lset with
  | None => Some (set_cache (addDropped (p_met e) (v_cache x)) x, true)
  | Some lset =>
    let '((ref, err), a) := ap_Add lset t (p_v e) (v_app x) in
    let x := set_app a err x in
    match err with
    | Some ErrOutOfOrderSample | Some ErrDuplicateSampleForTimestamp | Some ErrOutOfBounds => Some (set_err None x, true)
    | Some errSampleLimit => Some (count x, true)
    | Some _ => Some (x, false)
    | None =>
      let c := match p_tp e with None => trackStaleness hash lset (v_cache x) | Some _ => v_cache x end in
      Some (count (set_cache (addRef (p_met e) ref lset hash c) x), true)
    end
  end.

(** One iteration of the loop. *)
Definition append_sample (defTime : Z) (e : pentry) (x : vars) : option (vars * bool) :=
  let x := mkVars (v_app x) (v_cache x) (v_total x + 1) (v_added x) (v_err x) in
  let t := default defTime (p_tp e) in
  let (dropped, c) := getDropped (p_met e) (v_cache x) in
  let x := set_cache c x in
  if dropped then Some (x, true)
  else
    let (ce, c) := get (p_met e) (v_cache x) in
    let x := set_cache c x in
    match ce with
    | None => add_new e t x
    | Some ce =>
      let '(err, a) := ap_AddFast (ce_lset ce) (ce_ref ce) t (p_v e) (v_app x) in
      let x := set_app a err x in
      match err with
      | None =>
        Some (count (match p_tp e with None => set_cache (trackStaleness (ce_hash ce) (ce_lset ce) (v_cache x)) x | Some _ => x end), true)
      | Some ErrNotFound => add_new e t x
      | Some ErrOutOfOrderSample | Some ErrDuplicateSampleForTimestamp | Some ErrOutOfBounds => Some (x, true)
      | Some errSampleLimit => Some (count x, true)
      | Some _ => Some (x, false)
      end
    end.

(** The loop: the variables, and whether it ran to the end of the samples. *)
Fixpoint append_loop (defTime : Z) (es : list pentry) (x : vars) : option (vars * bool) :=
  match es with
  | [] => Some (x, true)
  | e :: es' =>
    match append_sample defTime e x with
    | None => None
    | Some (x, false) => Some (x, false)
    | Some (x, true) => append_loop defTime es' x
    end
  end.

(** The function [append] passes to [forEachStale], over the stale series. *)
Fixpoint add_stale_series (defTime : Z) (ls : list Labels) (app : A) : A * option error :=
  match ls with
  | [] => (app, None)
  | l :: ls' =>
    let '((_, err), app) := ap_Add l defTime StaleNaN app in
    match err with
    | None | Some ErrOutOfOrderSample | Some ErrDuplicateSampleForTimestamp => add_stale_series defTime ls' app
    | Some _ => (app, err)
    end
  end.

(** [append]: the samples the parser yields and its error, the time of the
    scrape, and a new appender; the appender at the end stands for the storage. *)
Record appended := mkAppended { a_total : Z; a_added : Z; a_err : option error; a_app : A; a_cache : scrapeCache }.

Definition scrapeLoop_append (es : list pentry) (p_Err : option error) (ts : Time) (app : A) (c : scrapeCache) : option appended :=
  let defTime := Alerting.FromTime ts in
  match append_loop defTime es (mkVars app c 0 0 None) with
  | None => None
  | Some (x, ended) =>
    let err := match v_err x with None => if ended then p_Err else None | e => e end in
    let '(app, err) :=
      match err with None => add_stale_series defTime (stale_series (v_cache x)) (v_app x) | Some _ => (v_app x, err) end in
    match err with
    | Some _ => Some (mkAppended (v_total x) (v_added x) err (snd (ap_Rollback app)) (v_cache x))
    | None =>
      match ap_Commit app with
      | (Some e, app) => Some (mkAppended (v_total x) (v_added x) (Some e) app (v_cache x))
      | (None, app) => Some (mkAppended (v_total x) (v_added x) None app (iterDone (v_cache x)))
      end
    end
  end.

(** * Report samples *)

(** The names end in the byte 0xff, which no scraped metric has. *)
Definition report_suffix : string := String "255" "".
Definition scrapeHealthMetricName : string := "up" +:+ report_suffix.
Definition scrapeDurationMetricName : string := "scrape_duration_seconds" +:+ report_suffix.
Definition scrapeSamplesMetricName : string := "scrape_samples_scraped" +:+ report_suffix.
Definition samplesPostRelabelMetricName : string := "scrape_samples_post_metric_relabeling" +:+ report_suffix.

Definition add_report (s : string) (t : Z) (v : float64) (app : A) (c : scrapeCache) : option error * A * scrapeCache :=
  let lset := [mkLabel MetricName (str_take (String.length s - 1) s)] in
  let hash := Hash lset in
  let lset := reportSampleMutator lset in
  let '((ref, err), app) := ap_Add lset t v app in
  match err with
  | None => (None, app, addRef s ref lset hash c)
  | Some ErrOutOfOrderSample | Some ErrDuplicateSampleForTimestamp => (None, app, c)
  | Some e => (Some e, app, c)
  end.

Definition addReportSample (s : string) (t : Z) (v : float64) (app : A) (c : scrapeCache) : option error * A * scrapeCache :=
  let (ce, c) := get s c in
  match ce with
  | None => add_report s t v app c
  | Some ce =>
    let '(err, app) := ap_AddFast (ce_lset ce) (ce_ref ce) t v app in
    match err with
    | None => (None, app, c)
    | Some ErrNotFound => add_report s t v app c
    | Some ErrOutOfOrderSample | Some ErrDuplicateSampleForTimestamp => (None, app, c)
    | Some e => (Some e, app, c)
    end
  end.

Fixpoint add_reports (t : Z) (svs : list (string * float64)) (app : A) (c : scrapeCache) : option error * A * scrapeCache :=
  match svs with
  | [] => let '(err, app) := ap_Commit app in (err, app, c)
  | (s, v) :: svs' =>
    match addReportSample s t v app c with
    | (Some e, app, c) => (Some e, snd (ap_Rollback app), c)
    | (None, app, c) => add_reports t svs' app c
    end
  end.

(** [Duration.Seconds] *)
Definition Seconds (d : Duration) : float64 :=
  fadd (of_Z (Z.quot d Second)) (fdiv (of_Z (Z.rem d Second)) (of_decimal false 1 9)).

(** [report], without the report to the target. *)
Definition scrapeLoop_report (start : Time) (duration : Duration) (scraped added : Z) (err : option error) (app : A) (c : scrapeCache)
  : option error * A * scrapeCache :=
  add_reports (Alerting.FromTime start)
    [(scrapeHealthMetricName, match err with None => of_Z 1 | Some _ => of_Z 0 end);
     (scrapeDurationMetricName, Seconds duration);
     (scrapeSamplesMetricName, of_Z scraped);
     (samplesPostRelabelMetricName, of_Z added)] app c.

Definition reportStale (start : Time) (app : A) (c : scrapeCache) : option error * A * scrapeCache :=
  add_reports (Alerting.FromTime start)
    [(scrapeHealthMetricName, StaleNaN); (scrapeDurationMetricName, StaleNaN);
     (scrapeSamplesMetricName, StaleNaN); (samplesPostRelabelMetricName, StaleNaN)] app c.
End loop.

(** * The loop *)

(** One scrape of [run]: when it starts, how long it took, the times the
    appenders are made, and the samples and parse error of the body, or the
    error of the request. *)
Record tick := mkTick { tk_start : Time; tk_duration : Duration; tk_now : Time; tk_answer : result error (list pentry * option error) }.

Section run.
Context `{XH : XXHash} `{MO : MapOrder} {St A : Type} `{AP : !Appender A}.
Variable sampleMutator : Labels -> option (option Labels).
Variable reportSampleMutator : Labels -> Labels.

(** The storage: a new appender ([None] makes the loop panic), and the storage
    once an appender is done with. *)
Variable Open : St -> option A.
Variable Close : A -> St.
Variable SampleLimit : Z.

Definition new_appender (now : Time) (s : St) : option (scrapeAppender A) := appender now SampleLimit <$> Open s.
Definition inner (a : scrapeAppender A) : A :=
  match a with Timed a => tl_Appender a | Limited a => tl_Appender (l_Appender a) end.

Record loop_state := mkLoop { lp_cache : scrapeCache; lp_target : Target; lp_store : St }.

Definition loop_append (es : list pentry) (p_Err : option error) (ts now : Time) (l : loop_state) : option (appended (A := scrapeAppender A) * loop_state) :=
  app ← new_appender now (lp_store l);
  r ← scrapeLoop_append sampleMutator es p_Err ts app (lp_cache l);
  Some (r, mkLoop (a_cache r) (lp_target l) (Close (inner (a_app r)))).

(** An iteration of [mainLoop] once the scrape is answered: a scrape that failed
    is appended as an empty one, and after an append that failed an empty one is
    appended. *)
Definition scrape_answered (es : list pentry) (p_Err scrapeErr : option error) (k : tick) (l : loop_state) : option loop_state :=
  rl ← loop_append es p_Err (tk_start k) (tk_now k) l;
  let '(r, l) := rl in
  l ← (match a_err r with
       | Some _ => snd <$> loop_append [] None (tk_start k) (tk_now k) l
       | None => Some l
       end);
  let scrapeErr := match scrapeErr with None => a_err r | e => e end in
  let t := Target_report (tk_start k) scrapeErr (lp_target l) in
  app ← new_appender (tk_now k) (lp_store l);
  let '(_, app, c) := scrapeLoop_report reportSampleMutator (tk_start k) (tk_duration k) (a_total r) (a_added r) scrapeErr app (lp_cache l) in
  Some (mkLoop c t (Close (inner app))).

Definition scrape_once (k : tick) (l : loop_state) : option loop_state :=
  match tk_answer k with
  | Ok (es, p_Err) => scrape_answered es p_Err None k l
  | Err e => scrape_answered [] None (Some e) k l
  end.

Fixpoint run_ticks (ks : list tick) (l : loop_state) : option loop_state :=
  match ks with [] => Some l | k :: ks' => l ← scrape_once k l; run_ticks ks' l end.

(** [endOfRunStaleness], once its waits are over; [last] is the start of the
    last scrape. *)
Definition endOfRunStaleness (last staleTime now : Time) (l : loop_state) : option loop_state :=
  if IsZero last then Some l
  else
    rl ← loop_append [] None staleTime now l;
    let l := rl.2 in
    app ← new_appender now (lp_store l);
    let '(_, app, c) := reportStale reportSampleMutator staleTime app (lp_cache l) in
    Some (mkLoop c (lp_target l) (Close (inner app))).
End run.
