(* ===== verification/ScrapePool.v ===== *)
(** scrape/scrape.go and scrape/manager.go: the pool that keeps scrape loops in
    line with the discovered targets, and the manager of the pools. *)

From S2P Require Import Prelude GoString GoFmt Float Duration Labels Relabel Storage Alerting Target.

Section pool.
Context `{RE : Regexp} `{RR : !RegexpReplace} `{HM : MD5} `{UT : UnicodeTables} `{MO : MapOrder} `{!EqDecision ScrapeConfig}.

(** [Target.hash]: a digest of the target's labels and URL. *)
Variable target_hash : Labels -> gmap string (list string) -> Z.
Definition hash (t : Target) : Z := target_hash (t_labels t) (t_params t).

(** ** The pool *)

(** A running loop, by what it was started with; [lp_serial] tells loops apart. *)
Record loop := mkLoop { lp_serial : nat; lp_interval : Duration; lp_timeout : Duration; lp_limit : Z; lp_honor : bool; lp_mrc : list RelabelConfig }.

Inductive event := Started (h : Z) (l : loop) | Stopped (h : Z) (l : loop).

Record scrapePool := mkPool {
  sp_config : ScrapeConfig; sp_targets : gmap Z Target; sp_dropped : list Target; sp_loops : gmap Z loop; sp_next : nat
}.

Definition newScrapePool (cfg : ScrapeConfig) : scrapePool := mkPool cfg ∅ [] ∅ 0.

(** [sp.newLoop] *)
Definition newLoop (sp : scrapePool) : loop :=
  let cfg := sp_config sp in
  mkLoop (sp_next sp) (ScrapeInterval cfg) (ScrapeTimeout cfg) (SampleLimit cfg) (HonorLabels cfg) (MetricRelabelConfigs cfg).

(** The first loop of [sync]: the pool, the hashes seen and the loops started. *)
Fixpoint sync_add (targets : list Target) (sp : scrapePool) (unique : gset Z) : scrapePool * gset Z * list event :=
  match targets with
  | [] => (sp, unique, [])
  | t :: targets' =>
    let h := hash t in
    let unique := {[h]} ∪ unique in
    match sp_targets sp !! h with
    | None =>
      let l := newLoop sp in
      let sp := mkPool (sp_config sp) (<[h := t]> (sp_targets sp)) (sp_dropped sp) (<[h := l]> (sp_loops sp)) (S (sp_next sp)) in
      let '(sp, unique, evs) := sync_add targets' sp unique in (sp, unique, Started h l :: evs)
    | Some old =>
      let old := SetDiscoveredLabels (discoveredLabels t) old in
      sync_add targets' (mkPool (sp_config sp) (<[h := old]> (sp_targets sp)) (sp_dropped sp) (sp_loops sp) (sp_next sp)) unique
    end
  end.

(** The loop whose hash is a key, for [Stopped]; [None] would be a nil loop. *)
Definition stops (sp : scrapePool) (hs : list Z) : list event :=
  omap (fun h => Stopped h <$> sp_loops sp !! h) hs.

Definition sync (targets : list Target) (sp : scrapePool) : scrapePool * list event :=
  let '(sp, unique, evs) := sync_add targets sp ∅ in
  let gone := List.filter (fun h => negb (bool_decide (h ∈ unique))) (map fst (map_order (sp_targets sp))) in
  (mkPool (sp_config sp) (base.filter (fun ht => ht.1 ∈ unique) (sp_targets sp)) (sp_dropped sp)
     (foldr base.delete (sp_loops sp) gone) (sp_next sp),
   evs ++ stops sp gone).

(** The targets of the groups: those to scrape, and those dropped.  A group
    that yields an error is skipped. *)
Definition is_active (t : Target) : bool := match Target_Labels t with [] => false | _ => true end.
Definition is_dropped (t : Target) : bool :=
  negb (is_active t) && match discoveredLabels t with [] => false | _ => true end.

Fixpoint all_targets (tgs : list TargetGroup) (cfg : ScrapeConfig) : option (list Target) :=
  match tgs with
  | [] => Some []
  | tg :: tgs' =>
    r ← targetsFromGroup tg cfg; rest ← all_targets tgs' cfg;
    Some (match r with Ok ts => ts ++ rest | Err _ => rest end)
  end.

(** [Sync]; [None] is a panic of relabelling. *)
Definition Sync (tgs : list TargetGroup) (sp : scrapePool) : option (scrapePool * list Target * list Target * list event) :=
  ts ← all_targets tgs (sp_config sp);
  let dropped := List.filter is_dropped ts in
  let sp := mkPool (sp_config sp) (sp_targets sp) dropped (sp_loops sp) (sp_next sp) in
  let (sp, evs) := sync (List.filter is_active ts) sp in
  Some (sp, map snd (map_order (sp_targets sp)), dropped, evs).

(** [reload]: every loop is stopped and started again with the new configuration. *)
Fixpoint reload_loops (hs : list (Z * loop)) (sp : scrapePool) : scrapePool * list event :=
  match hs with
  | [] => (sp, [])
  | (h, old) :: hs' =>
    let l := newLoop sp in
    let sp := mkPool (sp_config sp) (sp_targets sp) (sp_dropped sp) (<[h := l]> (sp_loops sp)) (S (sp_next sp)) in
    let '(sp, evs) := reload_loops hs' sp in (sp, Stopped h old :: Started h l :: evs)
  end.

Definition pool_reload (cfg : ScrapeConfig) (sp : scrapePool) : scrapePool * list event :=
  reload_loops (map_order (sp_loops sp)) (mkPool cfg (sp_targets sp) (sp_dropped sp) (sp_loops sp) (sp_next sp)).

Definition pool_stop (sp : scrapePool) : scrapePool * list event :=
  let hs := map fst (map_order (sp_loops sp)) in
  (mkPool (sp_config sp) (foldr base.delete (sp_targets sp) hs) (sp_dropped sp) (foldr base.delete (sp_loops sp) hs) (sp_next sp),
   stops sp hs).

(** ** The manager *)

Record Manager := mkManager {
  m_scrapeConfigs : gmap string ScrapeConfig; m_scrapePools : gmap string scrapePool;
  targetsActive : list Target; targetsDropped : list Target; targetsAll : gmap string (list Target)
}.

Definition NewManager : Manager := mkManager ∅ ∅ [] [] ∅.

(** [ApplyConfig], given the configurations of the new file. *)
Definition apply_pool (configs : gmap string ScrapeConfig) (name : string) (sp : scrapePool) : option scrapePool * list event :=
  match configs !! name with
  | None => (None, (pool_stop sp).2)
  | Some cfg => if bool_decide (sp_config sp = cfg) then (Some sp, [])
                else let (sp, evs) := pool_reload cfg sp in (Some sp, evs)
  end.

Definition ApplyConfig (cfgs : list ScrapeConfig) (m : Manager) : Manager * list (string * list event) :=
  let configs := foldl (fun c cfg => <[JobName cfg := cfg]> c) ∅ cfgs in
  (mkManager configs (map_imap (fun name sp => (apply_pool configs name sp).1) (m_scrapePools m))
     (targetsActive m) (targetsDropped m) (targetsAll m),
   map (fun nsp => (nsp.1, (apply_pool configs nsp.1 nsp.2).2)) (map_order (m_scrapePools m))).

(** [targetsUpdate] *)
Definition append_all (all : gmap string (list Target)) (kts : list (string * list Target)) : gmap string (list Target) :=
  foldl (fun all kt => <[kt.1 := default [] (all !! kt.1) ++ kt.2]> all) all kts.

Definition targetsUpdate (active dropped : gmap string (list Target)) (m : Manager) : Manager :=
  mkManager (m_scrapeConfigs m) (m_scrapePools m)
    (concat (map snd (map_order active))) (concat (map snd (map_order dropped)))
    (append_all (append_all ∅ (map_order active)) (map_order dropped)).

(** The loop of [reload] over the target sets. *)
Fixpoint reload_loop (tsets : list (string * list TargetGroup)) (m : Manager) (active dropped : gmap string (list Target))
  : option (Manager * gmap string (list Target) * gmap string (list Target)) :=
  match tsets with
  | [] => Some (m, active, dropped)
  | (name, tgs) :: tsets' =>
    let sp := match m_scrapePools m !! name with
              | Some sp => Some sp
              | None => newScrapePool <$> m_scrapeConfigs m !! name
              end in
    match sp with
    | None => reload_loop tsets' m active dropped
    | Some sp =>
      r ← Sync tgs sp;
      let '(sp, a, d, _) := r in
      reload_loop tsets' (mkManager (m_scrapeConfigs m) (<[name := sp]> (m_scrapePools m)) (targetsActive m) (targetsDropped m) (targetsAll m))
        (<[name := a]> active) (<[name := d]> dropped)
    end
  end.

Definition reload (t : gmap string (list TargetGroup)) (m : Manager) : option Manager :=
  r ← reload_loop (map_order t) m ∅ ∅;
  let '(m, active, dropped) := r in Some (targetsUpdate active dropped m).
End pool.
