(* ===== verification/ScrapeFacts.v ===== *)
(** Theorems about the scrape loop: what a history of scrapes writes, and the
    limits of its appenders. *)

From S2P Require Import Prelude GoString GoFmt Float Duration Labels LabelsFacts Relabel TextParse Storage Alerting Target Scrape.

Section history.
Context `{XH : XXHash} `{MO : MapOrder}.
Variable sampleMutator : Labels -> option (option Labels).
Variable reportSampleMutator : Labels -> Labels.

(** * A storage that accepts every sample *)

Notation call := (Labels * Z * float64)%type.

(** The batches committed, and the one under way.  References are assigned by a
    function of the labels, and may be forgotten at any time. *)
Record log_appender := mkLog { lg_done : list (list call); lg_cur : list call }.
Variable assign : Labels -> Z.
Variable found : log_appender -> Z -> bool.

#[local] Instance log_Appender : Appender log_appender := {|
  ap_Add l t v a := ((assign l, None), mkLog (lg_done a) (lg_cur a ++ [(l, t, v)]));
  ap_AddFast l ref t v a :=
    if found a ref then (None, mkLog (lg_done a) (lg_cur a ++ [(l, t, v)])) else (Some ErrNotFound, a);
  ap_Commit a := (None, mkLog (lg_done a ++ [lg_cur a]) []);
  ap_Rollback a := (None, mkLog (lg_done a) [])
|}.

Definition Open (st : list (list call)) : option log_appender := Some (mkLog st []).

(** * What a scrape writes *)

(** The label set a metric's text stands for. *)
Variable text : string -> Labels.

Definition is_report (s : string) : bool := last_index s 255 =? Z.of_nat (String.length s) - 1.

(** Samples as the parser yields them: their labels are those of their text,
    which does not end like the names of the report samples; relabelling does
    not panic; an explicit timestamp is not too far ahead. *)
Definition good_entry (max : Z) (e : pentry) : Prop :=
  p_lset e = text (p_met e) /\ is_report (p_met e) = false /\ sampleMutator (p_lset e) <> None /\
  match p_tp e with Some t => t <= max | None => True end.

(** The sample written for an entry, if it is not dropped. *)
Definition sample_call (defTime : Z) (e : pentry) : option call :=
  match sampleMutator (p_lset e) with
  | Some (Some l) => Some (l, default defTime (p_tp e), p_v e)
  | _ => None
  end.

(** The series of the samples without a timestamp, by the hash of the labels
    they were exposed with. *)
Definition see (m : gmap Z Labels) (e : pentry) : gmap Z Labels :=
  match p_tp e, sampleMutator (p_lset e) with
  | None, Some (Some l) => <[Hash (p_lset e) := l]> m
  | _, _ => m
  end.
Definition seen (es : list pentry) : gmap Z Labels := foldl see ∅ es.

(** Staleness markers for the series of one scrape that another does not have. *)
Definition markers (t : Z) (prev cur : gmap Z Labels) : list call :=
  map (fun hl => (hl.2, t, StaleNaN)) (map_to_list (prev ∖ cur)).

Definition report_call (t : Z) (s : string) (v : float64) : call :=
  (reportSampleMutator [mkLabel MetricName (str_take (String.length s - 1) s)], t, v).

Definition report_calls (k : tick) (scraped added : Z) (ok : bool) : list call :=
  let t := Alerting.FromTime (tk_start k) in
  [report_call t scrapeHealthMetricName (if ok then of_Z 1 else of_Z 0);
   report_call t scrapeDurationMetricName (Seconds (tk_duration k));
   report_call t scrapeSamplesMetricName (of_Z scraped);
   report_call t samplesPostRelabelMetricName (of_Z added)].

(** The two batches of a tick after a scrape that saw the series [prev], and
    the series it saw: its samples when it succeeded, in order, and behind them
    markers for the series of [prev] it did not see; and its report. *)
Definition tick_batches (prev : gmap Z Labels) (k : tick) : list (list call * list call) * gmap Z Labels :=
  let t := Alerting.FromTime (tk_start k) in
  let '(es, ok) := match tk_answer k with Ok (es, None) => (es, true) | Ok (es, Some _) => (es, false) | Err _ => ([], false) end in
  let samples := omap (sample_call t) es in
  let report := report_calls k (Z.of_nat (length es)) (Z.of_nat (length samples)) ok in
  ([(if ok then samples else [], markers t prev (seen es)); (report, [])], seen es).

Fixpoint history (prev : gmap Z Labels) (ks : list tick) : list (list call * list call) :=
  match ks with
  | [] => []
  | k :: ks' => let r := tick_batches prev k in r.1 ++ history r.2 ks'
  end.

(** Ticks whose appenders are made after the scrape started, or up to ten
    minutes before, and whose samples are good. *)
Definition max_time (k : tick) : Z := Alerting.FromTime (tk_now k + maxAheadTime).
Definition good_tick (k : tick) : Prop :=
  Alerting.FromTime (tk_start k) <= max_time k /\
  match tk_answer k with Ok (es, _) => Forall (good_entry (max_time k)) es | Err _ => True end.

(** * The cache *)

(** Entries of the cache belong to their text, and dropped texts are dropped. *)
Definition entry_ok (met : string) (e : cacheEntry) : Prop :=
  if is_report met then ce_lset e = reportSampleMutator [mkLabel MetricName (str_take (String.length met - 1) met)]
  else ce_hash e = Hash (text met) /\ sampleMutator (text met) = Some (Some (ce_lset e)).

Record cache_ok (c : scrapeCache) : Prop := {
  ok_entries : map_Forall entry_ok (c_entries c);
  ok_dropped : map_Forall (fun met _ => sampleMutator (text met) = Some None) (c_dropped c)
}.

(** Two caches that track the same series. *)
Definition same_series (c c' : scrapeCache) : Prop := seriesCur c' = seriesCur c /\ seriesPrev c' = seriesPrev c.

Lemma get_ok met c : cache_ok c ->
  cache_ok (get met c).2 /\ same_series c (get met c).2 /\ match (get met c).1 with Some e => entry_ok met e | None => True end.
Proof.
  intros [E D]. unfold get. destruct (c_entries c !! met) as [e|] eqn:L; [|by repeat split].
  pose proof (map_Forall_lookup_1 _ _ _ _ E L) as Oe.
  assert (O : entry_ok met (mkEntry (ce_ref e) (c_iter c) (ce_hash e) (ce_lset e))).
  { unfold entry_ok in *. cbn. by destruct (is_report met). }
  split; [|by repeat split]. split; [|done]. cbn. by apply map_Forall_insert_2.
Qed.

Lemma addRef_ok met ref lset hash c : cache_ok c -> entry_ok met (mkEntry ref (c_iter c) hash lset) ->
  cache_ok (addRef met ref lset hash c) /\ same_series c (addRef met ref lset hash c).
Proof.
  intros [E D] O. unfold addRef. destruct (ref =? 0); [by repeat split|]. split; [|by repeat split].
  split; [|done]. by apply map_Forall_insert_2.
Qed.

Lemma addDropped_ok met c : cache_ok c -> sampleMutator (text met) = Some None ->
  cache_ok (addDropped met c) /\ same_series c (addDropped met c).
Proof. intros [E D] N. split; [|by repeat split]. split; [done|]. by apply map_Forall_insert_2. Qed.

Lemma getDropped_ok met c : cache_ok c ->
  cache_ok (getDropped met c).2 /\ same_series c (getDropped met c).2 /\
  ((getDropped met c).1 = true -> sampleMutator (text met) = Some None).
Proof.
  intros [E D]. unfold getDropped. destruct (c_dropped c !! met) as [i|] eqn:L; [|by repeat split].
  pose proof (map_Forall_lookup_1 _ _ _ _ D L) as N. split; [|by repeat split]. split; [done|]. by apply map_Forall_insert_2.
Qed.

Lemma iterDone_ok c : cache_ok c -> cache_ok (iterDone c).
Proof. intros [E D]. split; cbn; intros k x [L _]%map_lookup_filter_Some; [by apply E|by apply (D k x)]. Qed.

(** * The loop over the samples *)

Definition at_batch (max : Z) (done : list (list call)) (cur : list call) : scrapeAppender log_appender :=
  Timed (mkTimeLimit (mkLog done cur) max).

Lemma Add_at_batch max done cur l t v : t <= max ->
  ap_Add l t v (at_batch max done cur) = ((assign l, None), at_batch max done (cur ++ [(l, t, v)])).
Proof. intros T. cbn. unfold timeLimit_Add. cbn [maxTime tl_Appender]. by rewrite (proj2 (Z.ltb_ge _ _) T). Qed.

Lemma AddFast_at_batch max done cur l ref t v : t <= max ->
  ap_AddFast l ref t v (at_batch max done cur) = (None, at_batch max done (cur ++ [(l, t, v)])) \/
  ap_AddFast l ref t v (at_batch max done cur) = (Some ErrNotFound, at_batch max done cur).
Proof.
  intros T. cbn. unfold timeLimit_AddFast. cbn [maxTime tl_Appender]. rewrite (proj2 (Z.ltb_ge _ _) T). cbn.
  destruct (found (mkLog done cur) ref); [by left|by right].
Qed.

Definition written (t : Z) (e : pentry) : list call := match sample_call t e with Some c => [c] | None => [] end.

(** The state after a sample: what was appended, the series seen, and nothing
    else that can be told. *)
Definition after (max t : Z) (done : list (list call)) (e : pentry) (x x' : vars (A := scrapeAppender log_appender)) (cur : list call) : Prop :=
  v_app x' = at_batch max done (cur ++ written t e) /\ cache_ok (v_cache x') /\
  seriesCur (v_cache x') = see (seriesCur (v_cache x)) e /\ seriesPrev (v_cache x') = seriesPrev (v_cache x) /\
  v_total x' = v_total x + 1 /\ v_added x' = v_added x + Z.of_nat (length (written t e)).

Lemma add_new_spec max t done cur e (x : vars (A := scrapeAppender log_appender)) : good_entry max e -> t <= max ->
  v_app x = at_batch max done cur -> cache_ok (v_cache x) ->
  exists x', add_new sampleMutator e (default t (p_tp e)) x = Some (x', true) /\
    v_app x' = at_batch max done (cur ++ written t e) /\ cache_ok (v_cache x') /\
    seriesCur (v_cache x') = see (seriesCur (v_cache x)) e /\ seriesPrev (v_cache x') = seriesPrev (v_cache x) /\
    v_total x' = v_total x /\ v_added x' = v_added x + Z.of_nat (length (written t e)) /\
    (sampleMutator (p_lset e) = Some None -> v_err x' = v_err x) /\
    (sampleMutator (p_lset e) <> Some None -> v_err x' = None).
Proof.
  intros (T & NR & NP & TM) Tm A C. unfold add_new, written, sample_call, see.
  destruct (sampleMutator (p_lset e)) as [[l|]|] eqn:M; [| |done]; cbn [mbind option_bind].
  - rewrite A, Add_at_batch by (destruct (p_tp e); done).
    assert (O : forall c, cache_ok c -> entry_ok (p_met e) (mkEntry (assign l) (c_iter c) (Hash (p_lset e)) l)).
    { intros c _. unfold entry_ok. rewrite NR. by rewrite <- T. }
    set (c := match p_tp e with None => trackStaleness (Hash (p_lset e)) l (v_cache x) | Some _ => v_cache x end).
    assert (C' : cache_ok c) by (unfold c; destruct (p_tp e); [done|]; by destruct C).
    destruct (addRef_ok (p_met e) (assign l) l (Hash (p_lset e)) c C' (O c C')) as [C2 [S1 S2]].
    eexists. split; [reflexivity|]. cbn [v_app v_cache count set_cache set_app v_total v_added v_err]. split; [done|].
    cbn [v_cache set_app]. fold c. split; [done|]. rewrite S1, S2. unfold c. by destruct (p_tp e).
  - destruct (addDropped_ok (p_met e) (v_cache x) C) as [C2 [S1 S2]]; [by rewrite <- T|].
    eexists. split; [reflexivity|]. cbn [v_app v_cache set_cache v_total v_added v_err length]. rewrite app_nil_r, Z.add_0_r.
    rewrite S1, S2. split; [done|]. split; [done|]. destruct (p_tp e); done.
Qed.

Lemma append_sample_spec max t done cur e (x : vars (A := scrapeAppender log_appender)) : good_entry max e -> t <= max ->
  v_app x = at_batch max done cur -> cache_ok (v_cache x) -> v_err x = None ->
  exists x', append_sample sampleMutator t e x = Some (x', true) /\ after max t done e x x' cur /\ v_err x' = None.
Proof.
  intros G Tm A C N. unfold append_sample, after.
  set (x0 := mkVars (v_app x) (v_cache x) (v_total x + 1) (v_added x) (v_err x)).
  destruct (getDropped_ok (p_met e) (v_cache x) C) as (C1 & [S1 S1'] & D). cbn [v_cache x0].
  destruct (getDropped (p_met e) (v_cache x)) as [dropped c1]. cbn [fst snd] in *.
  destruct dropped.
  { assert (M : sampleMutator (p_lset e) = Some None) by (destruct G as [-> _]; auto).
    eexists. split; [reflexivity|]. unfold written, sample_call, see. rewrite M. cbn. rewrite app_nil_r, Z.add_0_r.
    rewrite S1, S1'. by destruct (p_tp e). }
  destruct (get_ok (p_met e) c1 C1) as (C2 & [S2 S2'] & O). cbn [v_cache set_cache].
  destruct (get (p_met e) c1) as [ce c2]. cbn [fst snd] in *.
  assert (NEW : forall err, (err = None \/ (err <> None /\ exists ce', ce = Some ce')) ->
    exists x', add_new sampleMutator e (default t (p_tp e)) (set_app (v_app x) err (set_cache c2 (set_cache c1 x0))) = Some (x', true) /\
      (v_app x' = at_batch max done (cur ++ written t e) /\ cache_ok (v_cache x') /\
       seriesCur (v_cache x') = see (seriesCur (v_cache x)) e /\ seriesPrev (v_cache x') = seriesPrev (v_cache x) /\
       v_total x' = v_total x + 1 /\ v_added x' = v_added x + Z.of_nat (length (written t e))) /\ v_err x' = None).
  { intros err Herr.
    destruct (add_new_spec max t done cur e (set_app (v_app x) err (set_cache c2 (set_cache c1 x0))) G Tm) as
      (x' & E & A' & C' & SC & SP & T' & AD & E1 & E2); [done|done|].
    exists x'. split; [done|]. cbn [v_cache set_app set_cache v_total v_added v_err x0] in *. rewrite S2, S1 in SC. rewrite S2', S1' in SP.
    split; [done|]. destruct (sampleMutator (p_lset e)) as [[l|]|] eqn:M; [by apply E2| |by apply E2].
    rewrite E1 by done. destruct Herr as [->|[_ [ce' ->]]]; [done|]. exfalso. destruct G as (T & NR & _).
    unfold entry_ok in O. rewrite NR in O. destruct O as [_ O]. rewrite <- T in O. congruence. }
  destruct ce as [ce|].
  - cbn [v_app set_cache x0]. rewrite A.
    assert (TM : default t (p_tp e) <= max) by (destruct G as (_ & _ & _ & TM); by destruct (p_tp e)).
    destruct (AddFast_at_batch max done cur (ce_lset ce) (ce_ref ce) (default t (p_tp e)) (p_v e) TM) as [F|F]; rewrite F.
    + eexists. split; [reflexivity|]. destruct G as (T & NR & _). unfold entry_ok in O. rewrite NR in O. destruct O as [H M].
      rewrite <- T in H, M. unfold written, sample_call, see. rewrite M. cbn [length].
      destruct (p_tp e); cbn [v_app v_cache count set_cache set_app v_total v_added v_err x0 trackStaleness seriesCur seriesPrev default from_option id];
        rewrite ?S2, ?S2', ?S1, ?S1', ?H; repeat split; try done; try apply C2.
    + rewrite <- A. apply NEW. right. by split; [|eexists].
  - destruct (NEW None (or_introl eq_refl)) as (x' & E & R). exists x'. split; [|done]. rewrite <- E. f_equal.
    unfold set_app, set_cache, x0. cbn. by rewrite N.
Qed.

Lemma omap_written t e es : omap (sample_call t) (e :: es) = written t e ++ omap (sample_call t) es.
Proof. unfold written. cbn. by destruct (sample_call t e). Qed.

Lemma append_loop_spec max t done cur es (x : vars (A := scrapeAppender log_appender)) : Forall (good_entry max) es -> t <= max ->
  v_app x = at_batch max done cur -> cache_ok (v_cache x) -> v_err x = None ->
  exists x', append_loop sampleMutator t es x = Some (x', true) /\
    v_app x' = at_batch max done (cur ++ omap (sample_call t) es) /\ cache_ok (v_cache x') /\
    seriesCur (v_cache x') = foldl see (seriesCur (v_cache x)) es /\ seriesPrev (v_cache x') = seriesPrev (v_cache x) /\
    v_total x' = v_total x + Z.of_nat (length es) /\
    v_added x' = v_added x + Z.of_nat (length (omap (sample_call t) es)) /\ v_err x' = None.
Proof.
  intros G Tm. revert cur x. induction G as [|e es G Gs IH]; intros cur x A C N.
  { exists x. cbn. rewrite app_nil_r, !Z.add_0_r. done. }
  destruct (append_sample_spec max t done cur e x G Tm A C N) as (x1 & E & (A1 & C1 & S1 & P1 & T1 & D1) & N1).
  destruct (IH _ x1 A1 C1 N1) as (x2 & E2 & A2 & C2 & S2 & P2 & T2 & D2 & N2).
  exists x2. cbn [append_loop]. rewrite E, omap_written. split; [done|]. rewrite app_assoc. split; [done|]. split; [done|].
  cbn [foldl length]. rewrite <- S1, P2, length_app. split; [done|]. split; [done|]. split; [lia|]. split; [lia|done].
Qed.

Lemma add_stale_series_spec max t done cur ls : t <= max ->
  add_stale_series t ls (at_batch max done cur) = (at_batch max done (cur ++ map (fun l => (l, t, StaleNaN)) ls), None).
Proof.
  intros Tm. revert cur. induction ls as [|l ls IH]; intros cur; [cbn; by rewrite app_nil_r|].
  cbn [add_stale_series]. rewrite Add_at_batch by done. rewrite IH. by rewrite <- app_assoc.
Qed.

Lemma stale_series_markers t c :
  map (fun l => (l, t, StaleNaN)) (stale_series c) ≡ₚ markers t (seriesPrev c) (seriesCur c).
Proof.
  unfold stale_series, markers. rewrite map_map. apply Permutation_map, NoDup_Permutation.
  - apply NoDup_ListNoDup, List.NoDup_filter, NoDup_ListNoDup. rewrite map_order_perm. apply NoDup_map_to_list.
  - apply NoDup_map_to_list.
  - intros [h l]. rewrite list_elem_of_In, filter_In, <- list_elem_of_In, elem_of_map_order, elem_of_map_to_list, lookup_difference_Some.
    cbn. destruct (seriesCur c !! h); naive_solver.
Qed.

(** [append] of good samples: the error is the parser's. *)
Lemma append_spec st now ts es perr c max : Forall (good_entry max) es ->
  max = Alerting.FromTime (now + maxAheadTime) -> Alerting.FromTime ts <= max -> cache_ok c ->
  let t := Alerting.FromTime ts in
  let cur := foldl see (seriesCur c) es in
  exists r, scrapeLoop_append sampleMutator es perr ts (appender now 0 (mkLog st [])) c = Some r /\
    cache_ok (a_cache r) /\ a_err r = perr /\ a_total r = Z.of_nat (length es) /\
    a_added r = Z.of_nat (length (omap (sample_call t) es)) /\
    match perr with
    | Some _ => a_app r = at_batch max st [] /\ seriesCur (a_cache r) = cur /\ seriesPrev (a_cache r) = seriesPrev c
    | None => (exists batch, a_app r = at_batch max (st ++ [batch]) [] /\
                 laid_out batch (omap (sample_call t) es, markers t (seriesPrev c) cur)) /\
              seriesCur (a_cache r) = ∅ /\ seriesPrev (a_cache r) = cur
    end.
Proof.
  intros G -> Tm C t cur. unfold scrapeLoop_append.
  change (appender now 0 (mkLog st [])) with (at_batch (Alerting.FromTime (now + maxAheadTime)) st []).
  destruct (append_loop_spec _ t st [] es (mkVars (at_batch (Alerting.FromTime (now + maxAheadTime)) st []) c 0 0 None) G Tm)
    as (x & E & A & C' & SC & SP & TT & DD & NN); [done..|].
  fold t. rewrite E, NN, A. cbn [v_cache v_total v_added] in *. rewrite Z.add_0_l in TT, DD. destruct perr as [e|].
  - eexists. split; [reflexivity|]. cbn [a_cache a_err a_total a_added a_app]. done.
  - rewrite add_stale_series_spec by done.
    eexists. split; [reflexivity|]. cbn [a_cache a_err a_total a_added a_app]. split; [by apply iterDone_ok|].
    split; [done|]. split; [done|]. split; [done|]. split; [|by cbn; rewrite SC].
    eexists. split; [reflexivity|]. eexists. split; [done|]. cbn [snd]. by rewrite stale_series_markers, SC, SP.
Qed.

(** * The report samples *)

Lemma add_report_spec max t done cur s v c : t <= max -> cache_ok c -> is_report s = true ->
  exists c', add_report reportSampleMutator s t v (at_batch max done cur) c =
      (None, at_batch max done (cur ++ [report_call t s v]), c') /\ cache_ok c' /\ same_series c c'.
Proof.
  intros Tm C R. unfold add_report. rewrite Add_at_batch by done. eexists. split; [reflexivity|].
  apply addRef_ok; [done|]. unfold entry_ok. by rewrite R.
Qed.

Lemma addReportSample_spec max t done cur s v c : t <= max -> cache_ok c -> is_report s = true ->
  exists c', addReportSample reportSampleMutator s t v (at_batch max done cur) c =
      (None, at_batch max done (cur ++ [report_call t s v]), c') /\ cache_ok c' /\ same_series c c'.
Proof.
  intros Tm C R. unfold addReportSample. destruct (get_ok s c C) as (C1 & S1 & O). destruct (get s c) as [ce c1]. cbn [fst snd] in *.
  assert (NEW : exists c', add_report reportSampleMutator s t v (at_batch max done cur) c1 =
      (None, at_batch max done (cur ++ [report_call t s v]), c') /\ cache_ok c' /\ same_series c c').
  { destruct (add_report_spec max t done cur s v c1 Tm C1 R) as (c' & E & C' & S'). exists c'. split; [done|].
    split; [done|]. destruct S1, S'. split; congruence. }
  destruct ce as [ce|]; [|done].
  destruct (AddFast_at_batch max done cur (ce_lset ce) (ce_ref ce) t v Tm) as [F|F]; rewrite F; [|done].
  exists c1. split; [|done]. unfold entry_ok in O. rewrite R in O. by rewrite O.
Qed.

Lemma add_reports_spec max t done cur svs c : t <= max -> cache_ok c -> Forall (fun sv => is_report sv.1 = true) svs ->
  exists c', add_reports reportSampleMutator t svs (at_batch max done cur) c =
      (None, at_batch max (done ++ [cur ++ map (fun sv => report_call t sv.1 sv.2) svs]) [], c') /\ cache_ok c' /\ same_series c c'.
Proof.
  intros Tm C F. revert cur c C. induction F as [|[s v] svs R F IH]; intros cur c C; cbn [add_reports map].
  { exists c. cbn. rewrite app_nil_r. done. }
  destruct (addReportSample_spec max t done cur s v c Tm C R) as (c1 & E & C1 & S1). rewrite E.
  destruct (IH (cur ++ [report_call t s v]) c1 C1) as (c2 & E2 & C2 & S2). exists c2. rewrite E2, <- app_assoc.
  split; [done|]. split; [done|]. destruct S1, S2. split; congruence.
Qed.

(** * A tick, and a history of ticks *)

Notation run_loop := (run_ticks sampleMutator reportSampleMutator Open lg_done 0).
Notation once := (scrape_once sampleMutator reportSampleMutator Open lg_done 0).

(** Between ticks only the series of the last scrape are tracked. *)
Definition between (prev : gmap Z Labels) (c : scrapeCache) : Prop := cache_ok c /\ seriesCur c = ∅ /\ seriesPrev c = prev.

Lemma loop_append_spec st now ts es perr c tg max : Forall (good_entry max) es ->
  max = Alerting.FromTime (now + maxAheadTime) -> Alerting.FromTime ts <= max -> cache_ok c ->
  let t := Alerting.FromTime ts in
  let cur := foldl see (seriesCur c) es in
  exists r c' st', loop_append sampleMutator Open lg_done 0 es perr ts now (mkLoop c tg st) = Some (r, mkLoop c' tg st') /\
    cache_ok c' /\ a_err r = perr /\ a_total r = Z.of_nat (length es) /\ a_added r = Z.of_nat (length (omap (sample_call t) es)) /\
    match perr with
    | Some _ => st' = st /\ seriesCur c' = cur /\ seriesPrev c' = seriesPrev c
    | None => (exists batch, st' = st ++ [batch] /\ laid_out batch (omap (sample_call t) es, markers t (seriesPrev c) cur)) /\
              seriesCur c' = ∅ /\ seriesPrev c' = cur
    end.
Proof.
  intros G M Tm C t cur. destruct (append_spec st now ts es perr c max G M Tm C) as (r & E & C' & Er & To & Ad & R).
  exists r, (a_cache r), (lg_done (inner (a_app r))). unfold loop_append, new_appender, Open. cbn [lp_store lp_cache lp_target].
  cbn [fmap option_fmap option_map mbind option_bind]. rewrite E. cbn [mbind option_bind]. repeat (split; [done|]).
  destruct perr.
  - destruct R as (-> & R). done.
  - destruct R as ((b & -> & P) & R). split; [by exists b|done].
Qed.

Lemma report_calls_map k scraped added (err : option error) :
  report_calls k scraped added (match err with None => true | Some _ => false end) =
  map (fun sv => report_call (Alerting.FromTime (tk_start k)) sv.1 sv.2)
    [(scrapeHealthMetricName, match err with None => of_Z 1 | Some _ => of_Z 0 end);
     (scrapeDurationMetricName, Seconds (tk_duration k)); (scrapeSamplesMetricName, of_Z scraped);
     (samplesPostRelabelMetricName, of_Z added)].
Proof. by destruct err. Qed.

(** The appends of a tick: one that succeeds, or one that fails and an empty one. *)
Lemma appends_spec prev k c tg st es perr : Alerting.FromTime (tk_start k) <= max_time k -> Forall (good_entry (max_time k)) es ->
  between prev c ->
  let t := Alerting.FromTime (tk_start k) in
  exists r c1 st1, loop_append sampleMutator Open lg_done 0 es perr (tk_start k) (tk_now k) (mkLoop c tg st) = Some (r, mkLoop c1 tg st1) /\
    a_err r = perr /\ a_total r = Z.of_nat (length es) /\ a_added r = Z.of_nat (length (omap (sample_call t) es)) /\
    exists c2 b, (match perr with
                  | Some _ => snd <$> loop_append sampleMutator Open lg_done 0 [] None (tk_start k) (tk_now k) (mkLoop c1 tg st1)
                  | None => Some (mkLoop c1 tg st1)
                  end) = Some (mkLoop c2 tg (st ++ [b])) /\ between (seen es) c2 /\
      laid_out b (match perr with None => omap (sample_call t) es | Some _ => [] end, markers t prev (seen es)).
Proof.
  intros Tm Ge (C & SC & SP) t.
  destruct (loop_append_spec st (tk_now k) (tk_start k) es perr c tg _ Ge eq_refl Tm C) as (r & c1 & st1 & E & C1 & Er & To & Ad & R).
  exists r, c1, st1. repeat (split; [done|]). destruct perr as [pe|].
  - destruct R as (-> & S1 & P1).
    destruct (loop_append_spec st (tk_now k) (tk_start k) [] None c1 tg _ (List.Forall_nil _) eq_refl Tm C1)
      as (r2 & c2 & st2 & E2 & C2 & _ & _ & _ & (b & -> & P) & S2 & P2). exists c2, b. rewrite E2. split; [done|].
    cbn [foldl omap list_omap app] in P, P2. rewrite S1, P1, SP, SC in P. rewrite S1, SC in P2. done.
  - destruct R as ((b & -> & P) & S1 & P1). exists c1, b. rewrite SC, SP in P. rewrite SC in P1. done.
Qed.

Lemma answered_spec prev k c tg st es perr (serr : option error) :
  Alerting.FromTime (tk_start k) <= max_time k -> Forall (good_entry (max_time k)) es -> between prev c ->
  let t := Alerting.FromTime (tk_start k) in
  let ok := match (match serr with None => perr | e => e end) with None => true | Some _ => false end in
  exists c' tg' bs,
    scrape_answered sampleMutator reportSampleMutator Open lg_done 0 es perr serr k (mkLoop c tg st) = Some (mkLoop c' tg' (st ++ bs)) /\
    between (seen es) c' /\
    Forall2 laid_out bs [(match perr with None => omap (sample_call t) es | Some _ => [] end, markers t prev (seen es));
                         (report_calls k (Z.of_nat (length es)) (Z.of_nat (length (omap (sample_call t) es))) ok, [])].
Proof.
  intros Tm Ge Bt t ok.
  destruct (appends_spec prev k c tg st es perr Tm Ge Bt) as (r & c1 & st1 & E & Er & To & Ad & c2 & b & E2 & (C2 & S2 & P2) & B).
  unfold scrape_answered. rewrite E. cbn [mbind option_bind]. rewrite Er, E2. cbn [mbind option_bind lp_target lp_store lp_cache].
  unfold new_appender, Open. cbn [fmap option_fmap option_map mbind option_bind]. unfold scrapeLoop_report.
  rewrite To, Ad. set (err := match serr with None => perr | e => e end) in *.
  change (appender (tk_now k) 0 (mkLog (st ++ [b]) [])) with (at_batch (max_time k) (st ++ [b]) []).
  match goal with |- context [add_reports _ ?tt ?svs _ _] =>
    destruct (add_reports_spec (max_time k) tt (st ++ [b]) [] svs c2 Tm C2) as (c3 & E3 & C3 & S3 & P3); [by repeat constructor|]; rewrite E3 end.
  eexists _, _, [b; _]. cbn [inner at_batch tl_Appender lg_done]. rewrite <- app_assoc. split; [reflexivity|].
  split; [split; [done|]; split; congruence|]. constructor; [done|]. constructor; [|constructor].
  unfold ok. rewrite report_calls_map. apply laid_out_all.
Qed.

Lemma tick_spec prev k c tg st : good_tick k -> between prev c ->
  exists c' tg' bs, once k (mkLoop c tg st) = Some (mkLoop c' tg' (st ++ bs)) /\
    between (tick_batches prev k).2 c' /\ Forall2 laid_out bs (tick_batches prev k).1.
Proof.
  intros [Tm G] B. unfold scrape_once, tick_batches. destruct (tk_answer k) as [[es [pe|]]|e].
  - exact (answered_spec prev k c tg st es (Some pe) None Tm G B).
  - exact (answered_spec prev k c tg st es None None Tm G B).
  - exact (answered_spec prev k c tg st [] None (Some e) Tm (List.Forall_nil _) B).
Qed.

Fixpoint last_seen (prev : gmap Z Labels) (ks : list tick) : gmap Z Labels :=
  match ks with [] => prev | k :: ks' => last_seen (tick_batches prev k).2 ks' end.

Lemma run_spec prev ks c tg st : Forall good_tick ks -> between prev c ->
  exists c' tg' bs, run_loop ks (mkLoop c tg st) = Some (mkLoop c' tg' (st ++ bs)) /\
    between (last_seen prev ks) c' /\ Forall2 laid_out bs (history prev ks).
Proof.
  intros G. revert prev c tg st. induction G as [|k ks Gk G IH]; intros prev c tg st B.
  { exists c, tg, []. cbn. rewrite app_nil_r. split; [done|]. split; [done|constructor]. }
  destruct (tick_spec prev k c tg st Gk B) as (c1 & tg1 & bs1 & E & B1 & P1).
  destruct (IH _ c1 tg1 (st ++ bs1) B1) as (c2 & tg2 & bs & El & B2 & P). exists c2, tg2, (bs1 ++ bs).
  cbn [run_ticks]. rewrite E. cbn [mbind option_bind]. rewrite app_assoc. split; [done|]. split; [done|].
  cbn [history]. by apply Forall2_app.
Qed.

Lemma between_new : between ∅ newScrapeCache.
Proof. split; [|done]. split; apply map_Forall_empty. Qed.


(** When a loop is stopped after a history of scrapes, every series the last
    scrape saw gets a staleness marker, and so do the four report series. *)
Theorem end_of_run (tg : Target) (ks : list tick) (st : list (list call)) (last staleTime now : Time)
  (G : Forall good_tick ks) (L : last <> 0) (T : Alerting.FromTime staleTime <= Alerting.FromTime (now + maxAheadTime)) :
  exists l l' bs b, run_loop ks (mkLoop newScrapeCache tg st) = Some l /\ lp_store l = st ++ bs /\
    endOfRunStaleness sampleMutator reportSampleMutator Open lg_done 0 last staleTime now l = Some l' /\
    lp_store l' = st ++ bs ++ [b; map (fun s => report_call (Alerting.FromTime staleTime) s StaleNaN)
      [scrapeHealthMetricName; scrapeDurationMetricName; scrapeSamplesMetricName; samplesPostRelabelMetricName]] /\
    b ≡ₚ map (fun hl => (hl.2, Alerting.FromTime staleTime, StaleNaN)) (map_to_list (last_seen ∅ ks)).
Proof.
  destruct (run_spec ∅ ks newScrapeCache tg st G between_new) as (c & tg' & bs & E & (C & SC & SP) & _).
  destruct (loop_append_spec (st ++ bs) now staleTime [] None c tg' _ (List.Forall_nil _) eq_refl T C)
    as (r & c1 & st1 & E1 & C1 & _ & _ & _ & (b & -> & P) & S1 & P1).
  exists (mkLoop c tg' (st ++ bs)).
  unfold endOfRunStaleness, IsZero. rewrite (proj2 (Z.eqb_neq last 0) L), E1. cbn [mbind option_bind snd lp_store lp_cache lp_target].
  unfold new_appender, Open. cbn [fmap option_fmap option_map mbind option_bind]. unfold reportStale.
  change (appender now 0 (mkLog ((st ++ bs) ++ [b]) [])) with (at_batch (Alerting.FromTime (now + maxAheadTime)) ((st ++ bs) ++ [b]) []).
  match goal with |- context [add_reports _ ?tt ?svs _ _] =>
    destruct (add_reports_spec (Alerting.FromTime (now + maxAheadTime)) tt ((st ++ bs) ++ [b]) [] svs c1 T C1) as (c3 & E3 & _);
      [by repeat constructor|]; rewrite E3 end.
  eexists _, bs, b. split; [exact E|]. split; [done|]. split; [reflexivity|].
  cbn [inner at_batch tl_Appender lg_done lp_store app]. rewrite <- !app_assoc. split; [done|].
  destruct P as (b' & Eb & P). rewrite Eb. cbn [fst snd omap list_omap app foldl] in *. rewrite P, SP, SC. unfold markers. by rewrite map_difference_empty.
Qed.

(** * The limits *)

(** The samples of a batch that count: staleness markers do not. *)
Definition counted (cur : list call) : Z := Z.of_nat (length (List.filter (fun c : call => negb (IsStaleNaN c.2)) cur)).

(** An appender with a sample limit after at most [k] samples. *)
Definition within (st : list (list call)) (max lim k : Z) (app : scrapeAppender log_appender) : Prop :=
  exists cur i, app = Limited (mkLimit (mkTimeLimit (mkLog st cur) max) lim i) /\ 0 <= i <= k /\
    counted cur <= Z.min i lim /\ Forall (fun c : call => c.1.2 <= max) cur.

Lemma within_mono st max lim k k' app : k <= k' -> within st max lim k app -> within st max lim k' app.
Proof. intros K (cur & i & E & I & C & F). exists cur, i. split; [done|]. split; [lia|done]. Qed.

Lemma counted_snoc cur l t v : counted (cur ++ [(l, t, v)]) = counted cur + (if IsStaleNaN v then 0 else 1).
Proof. unfold counted. rewrite List.filter_app, length_app. cbn. destruct (IsStaleNaN v); cbn; lia. Qed.

Lemma count_sample_spec lim i v (a : timeLimitAppender log_appender) k : 0 <= i <= k -> k < max_int64 ->
  let r := count_sample v (mkLimit a lim i) in
  exists i', r.1 = mkLimit a lim i' /\ 0 <= i' <= k + 1 /\ i <= i' /\
    (r.2 = false -> if IsStaleNaN v then i' = i else i' = i + 1 /\ i' <= lim).
Proof.
  intros I K. unfold count_sample. destruct (IsStaleNaN v); cbn [negb]; cbv zeta.
  - exists i. cbn. split; [done|]. split; [lia|]. split; [lia|done].
  - cbn [l_Appender limit l_i]. rewrite i64_id by (unfold min_int64, max_int64 in *; lia). exists (i + 1). cbn. split; [done|].
    split; [lia|]. split; [lia|]. intros H%Z.ltb_ge. lia.
Qed.

Lemma Add_within st max lim k l t v app : k < max_int64 -> within st max lim k app -> within st max lim (k + 1) (ap_Add l t v app).2.
Proof.
  intros K (cur & i & -> & I & C & F). cbn. unfold limit_Add.
  destruct (count_sample_spec lim i v (mkTimeLimit (mkLog st cur) max) k I K) as (i' & E & I' & LE & S).
  destruct (count_sample v _) as [app' over]. cbn [fst snd] in *. subst app'. destruct over.
  { exists cur, i'. cbn. split; [done|]. split; [lia|]. split; [lia|done]. }
  specialize (S eq_refl). cbn. unfold timeLimit_Add. cbn [maxTime tl_Appender]. destruct (Z.ltb_spec max t).
  - exists cur, i'. cbn. split; [done|]. split; [lia|]. split; [lia|done].
  - exists (cur ++ [(l, t, v)]), i'. cbn. split; [done|]. split; [lia|]. rewrite counted_snoc. split; [destruct (IsStaleNaN v); lia|].
    apply Forall_app. split; [done|]. by constructor.
Qed.

Lemma AddFast_within st max lim k l r t v app : k < max_int64 -> within st max lim k app -> within st max lim (k + 1) (ap_AddFast l r t v app).2.
Proof.
  intros K (cur & i & -> & I & C & F). cbn. unfold limit_AddFast.
  destruct (count_sample_spec lim i v (mkTimeLimit (mkLog st cur) max) k I K) as (i' & E & I' & LE & S).
  destruct (count_sample v _) as [app' over]. cbn [fst snd] in *. subst app'. destruct over.
  { exists cur, i'. cbn. split; [done|]. split; [lia|]. split; [lia|done]. }
  specialize (S eq_refl). cbn. unfold timeLimit_AddFast. cbn [maxTime tl_Appender]. destruct (Z.ltb_spec max t).
  - exists cur, i'. cbn. split; [done|]. split; [lia|]. split; [lia|done].
  - cbn. destruct (found (mkLog st cur) r).
    + exists (cur ++ [(l, t, v)]), i'. cbn. split; [done|]. split; [lia|]. rewrite counted_snoc. split; [destruct (IsStaleNaN v); lia|].
      apply Forall_app. split; [done|]. by constructor.
    + exists cur, i'. cbn. split; [done|]. split; [lia|]. split; [lia|done].
Qed.

Lemma add_new_within st max lim k e t x x' go : k < max_int64 -> within st max lim k (v_app x) ->
  add_new sampleMutator e t x = Some (x', go) -> within st max lim (k + 1) (v_app x').
Proof.
  intros K W. unfold add_new. destruct (sampleMutator (p_lset e)) as [[l|]|]; [| |done]; cbn [mbind option_bind].
  - pose proof (Add_within st max lim k l t (p_v e) _ K W) as W'. destruct (ap_Add l t (p_v e) (v_app x)) as [[ref err] a].
    destruct err as [[]|]; intros [= <- _]; exact W'.
  - intros [= <- _]. apply (within_mono st max lim k); [lia|done].
Qed.

Lemma append_sample_within st max lim k t e x x' go : k + 1 < max_int64 -> within st max lim k (v_app x) ->
  append_sample sampleMutator t e x = Some (x', go) -> within st max lim (k + 2) (v_app x').
Proof.
  intros K W. unfold append_sample. cbn [v_cache v_app v_total v_added v_err].
  destruct (getDropped (p_met e) (v_cache x)) as [[] c1].
  { intros [= <- _]. apply (within_mono st max lim k); [lia|done]. }
  cbn [v_cache set_cache]. destruct (get (p_met e) c1) as [[ce|] c2].
  - cbn [v_app set_cache]. pose proof (AddFast_within st max lim k (ce_lset ce) (ce_ref ce) (default t (p_tp e)) (p_v e) _ ltac:(lia) W) as W'.
    destruct (ap_AddFast _ _ _ _ _) as [err a]. cbn [snd] in W'.
    destruct err as [[]|]; try (intros [= <- _]; apply (within_mono st max lim (k + 1)); [lia|exact W']).
    + intros E. replace (k + 2) with (k + 1 + 1) by lia. eapply add_new_within; [| |exact E]; [lia|exact W'].
    + intros [= <- _]. apply (within_mono st max lim (k + 1)); [lia|]. destruct (p_tp e); exact W'.
  - intros E. apply (within_mono st max lim (k + 1)); [lia|]. eapply add_new_within; [| |exact E]; [lia|exact W].
Qed.

Lemma append_loop_within st max lim t es k x x' go : k + 2 * Z.of_nat (length es) < max_int64 -> within st max lim k (v_app x) ->
  append_loop sampleMutator t es x = Some (x', go) -> within st max lim (k + 2 * Z.of_nat (length es)) (v_app x').
Proof.
  revert k x. induction es as [|e es IH]; intros k x K W; cbn [append_loop].
  { intros [= <- _]. apply (within_mono st max lim k); [lia|done]. }
  cbn [length] in *. destruct (append_sample sampleMutator t e x) as [[x1 go1]|] eqn:E; [|done].
  apply (append_sample_within st max lim k) in E; [|lia|done]. destruct go1.
  - intros E2. apply (IH (k + 2)) in E2; [|lia|done]. refine (within_mono _ _ _ _ _ _ _ E2). lia.
  - intros [= <- _]. refine (within_mono _ _ _ _ _ _ _ E). lia.
Qed.

(** A marker does not count, whatever the count is. *)
Definition limited (st : list (list call)) (max lim : Z) (app : scrapeAppender log_appender) : Prop :=
  exists cur i, app = Limited (mkLimit (mkTimeLimit (mkLog st cur) max) lim i) /\ counted cur <= lim /\ Forall (fun c : call => c.1.2 <= max) cur.

Lemma add_stale_limited st max lim t ls app : limited st max lim app -> limited st max lim (add_stale_series t ls app).1.
Proof.
  revert app. induction ls as [|l ls IH]; intros app W; [done|]. cbn [add_stale_series].
  assert (W' : limited st max lim (ap_Add l t StaleNaN app).2).
  { destruct W as (cur & i & -> & C & F). cbn. unfold limit_Add, count_sample. cbn. unfold timeLimit_Add. cbn [maxTime tl_Appender].
    destruct (Z.ltb_spec max t); [by exists cur, i|]. exists (cur ++ [(l, t, StaleNaN)]), i. cbn. split; [done|].
    rewrite counted_snoc. cbn. split; [lia|]. apply Forall_app. split; [done|]. by constructor. }
  destruct (ap_Add l t StaleNaN app) as [[ref err] a]. destruct err as [[]|]; auto.
Qed.

Lemma add_new_total {B} `{AP : !Appender B} e t (x : vars (A := B)) : sampleMutator (p_lset e) <> None ->
  is_Some (add_new sampleMutator e t x).
Proof.
  intros M. unfold add_new. destruct (sampleMutator (p_lset e)) as [[l|]|]; [| |done]; cbn [mbind option_bind]; [|by eexists].
  destruct (ap_Add _ _ _ _) as [[ref err] a]. destruct err as [[]|]; by eexists.
Qed.

Lemma append_loop_total {B} `{AP : !Appender B} t es (x : vars (A := B)) :
  Forall (fun e => sampleMutator (p_lset e) <> None) es -> is_Some (append_loop sampleMutator t es x).
Proof.
  intros F. revert x. induction F as [|e es M F IH]; intros x; cbn [append_loop]; [by eexists|].
  assert (T : is_Some (append_sample sampleMutator t e x)).
  { unfold append_sample. destruct (getDropped _ _) as [[] c1]; [by eexists|]. destruct (get _ _) as [[ce|] c2]; [|by apply add_new_total].
    destruct (ap_AddFast _ _ _ _ _) as [err a]. destruct err as [[]|]; try by eexists. by apply add_new_total. }
  destruct T as [[x1 []] ->]; [apply IH|by eexists].
Qed.

(** C30: whatever is scraped and whatever the cache holds, a scrape commits at
    most one batch; it has no more samples than the sample limit, staleness
    markers apart, and none that is more than ten minutes ahead. *)
Theorem limits_enforced (es : list pentry) (p_Err : option error) (ts now : Time) (lim : Z) (st : list (list call)) (c : scrapeCache)
  (M : Forall (fun e => sampleMutator (p_lset e) <> None) es) (P : 0 < lim) (S : 2 * Z.of_nat (length es) < max_int64) :
  exists r bs, scrapeLoop_append sampleMutator es p_Err ts (appender now lim (mkLog st [])) c = Some r /\
    lg_done (inner (a_app r)) = st ++ bs /\ (length bs <= 1)%nat /\
    Forall (fun b => counted b <= lim /\ Forall (fun c : call => c.1.2 <= Alerting.FromTime (now + maxAheadTime)) b) bs.
Proof.
  assert (R : exists r, scrapeLoop_append sampleMutator es p_Err ts (appender now lim (mkLog st [])) c = Some r).
  { unfold scrapeLoop_append. destruct (append_loop_total (Alerting.FromTime ts) es (mkVars (appender now lim (mkLog st [])) c 0 0 None) M) as [[x go] ->].
    destruct (match v_err x with None => if go then p_Err else None | e => e end); [by eexists|].
    destruct (add_stale_series _ _ _) as [app [e|]]; [by eexists|]. destruct (ap_Commit app) as [[e|] app']; by eexists. }
  destruct R as [r R]. exists r.
  cut (exists bs, lg_done (inner (a_app r)) = st ++ bs /\ (length bs <= 1)%nat /\
    Forall (fun b => counted b <= lim /\ Forall (fun c : call => c.1.2 <= Alerting.FromTime (now + maxAheadTime)) b) bs).
  { intros (bs & H). by exists bs. }
  unfold scrapeLoop_append, appender in R. rewrite (proj2 (Z.ltb_lt 0 lim) P) in R.
  set (max := Alerting.FromTime (now + maxAheadTime)) in *.
  destruct (append_loop _ _ _ _) as [[x go]|] eqn:E; [|done].
  apply (append_loop_within st max lim _ es 0) in E; [|lia|].
  2: { exists [], 0. split; [done|]. split; [lia|]. split; [|constructor]. change (counted []) with 0. lia. }
  assert (W : limited st max lim (v_app x)).
  { destruct E as (cur & i & -> & I & C & F). exists cur, i. split; [done|]. split; [|done]. clear -C. lia. }
  destruct (match v_err x with None => if go then p_Err else None | e => e end) as [e|].
  - injection R as <-. cbn [a_app]. destruct W as (cur & i & -> & C & F). exists []. cbn. rewrite app_nil_r.
    split; [done|]. split; [lia|constructor].
  - pose proof (add_stale_limited st max lim (Alerting.FromTime ts) (stale_series (v_cache x)) _ W) as W2.
    destruct (add_stale_series _ _ _) as [app err]. cbn [fst] in W2. destruct W2 as (cur & i & -> & C & F). destruct err as [e|].
    + injection R as <-. exists []. cbn. rewrite app_nil_r. split; [done|]. split; [lia|constructor].
    + injection R as <-. exists [cur]. cbn. split; [done|]. split; [lia|]. by repeat constructor.
Qed.
End history.

(** * Concrete scrapes *)

#[local] Existing Instances length_hash tree_order.

Definition named (s : string) : Labels := [mkLabel "__name__" s].
Definition exposed (s : string) (v : Z) : pentry := mkPEntry s (named s) None (of_Z v).
Definition exposed_at (s : string) (t v : Z) : pentry := mkPEntry s (named s) (Some t) (of_Z v).
Definition keep_all (l : Labels) : option (option Labels) := Some (Some l).
Definition at_minute (n : Z) : Time := unix_epoch + n * Minute.
Definition sample_ticks : list tick :=
  [mkTick (at_minute 1) Second (at_minute 1) (Ok ([exposed "a" 1; exposed "bb" 2], None));
   mkTick (at_minute 2) Second (at_minute 2) (Ok ([exposed "a" 3], Some (OtherError "no token found")));
   mkTick (at_minute 3) Second (at_minute 3) (Err (OtherError "connection refused"))].
Definition no_target : Target := NewTarget [] [] ∅.
Definition by_length (l : Labels) : Z := Z.of_nat (length l).
Definition forgets (a : log_appender) (ref : Z) : bool := Z.even (Z.of_nat (length (lg_cur a))).

Lemma sample_ticks_good : Forall (good_tick keep_all named) sample_ticks.
Proof. repeat constructor; by vm_compute. Qed.


Lemma end_of_run_witness :
  exists l l', run_ticks keep_all (fun l => l) Open lg_done 0 (AP := log_Appender by_length forgets)
      (take 1 sample_ticks) (mkLoop newScrapeCache no_target []) = Some l /\
    endOfRunStaleness keep_all (fun l => l) Open lg_done 0 (AP := log_Appender by_length forgets) (at_minute 1) (at_minute 2) (at_minute 2) l = Some l' /\
    map length (lp_store l') = [2; 4; 2; 4]%nat.
Proof.
  destruct (end_of_run keep_all (fun l => l) by_length forgets named no_target (take 1 sample_ticks) [] (at_minute 1) (at_minute 2) (at_minute 2))
    as (l & l' & bs & b & E & S & E' & S' & P).
  - apply Forall_take, sample_ticks_good.
  - by vm_compute.
  - by vm_compute.
  - exists l, l'. split; [exact E|]. split; [exact E'|].
    vm_compute in E. injection E as <-. vm_compute in E'. injection E' as <-. vm_compute. reflexivity.
Defined.

(** * A storage that keeps each series in order *)

(** A sample older than the last one committed for its labels is refused. *)
Definition late (l : Labels) (t : Z) (a : log_appender) : bool :=
  existsb (fun c : Labels * Z * float64 => bool_decide (c.1.1 = l) && (t <? c.1.2)) (concat (lg_done a)).
Definition ordered_Appender : Appender log_appender := {|
  ap_Add l t v a := if late l t a then ((0, Some ErrOutOfOrderSample), a)
                    else ((by_length l, None), mkLog (lg_done a) (lg_cur a ++ [(l, t, v)]));
  ap_AddFast l ref t v a := if late l t a then (Some ErrOutOfOrderSample, a)
                            else (None, mkLog (lg_done a) (lg_cur a ++ [(l, t, v)]));
  ap_Commit a := (None, mkLog (lg_done a ++ [lg_cur a]) []);
  ap_Rollback a := (None, mkLog (lg_done a) [])
|}.

(** A sample that is out of order is meant to be dropped alone, and is when
    its series is not cached.  When the series is cached and no later sample is
    accepted, the error of [AddFast] is left over and the whole scrape is rolled
    back: here a second scrape exposes a new sample of [bb] and an old one of
    [a], and [bb] is lost only because [a] was scraped before. *)
Theorem late_sample_fails_scrape :
  let scrape := scrapeLoop_append (AP := ordered_Appender) keep_all in
  let second := [exposed "bb" 1; exposed_at "a" 50 1] in
  exists r, scrape [exposed_at "a" 100 1] None (at_minute 1) (mkLog [] []) newScrapeCache = Some r /\ a_err r = None /\
    (exists r2, scrape second None (at_minute 2) (a_app r) (a_cache r) = Some r2 /\
       a_err r2 = Some ErrOutOfOrderSample /\ lg_done (a_app r2) = lg_done (a_app r)) /\
    (exists r2, scrape second None (at_minute 2) (a_app r) newScrapeCache = Some r2 /\
       a_err r2 = None /\ lg_done (a_app r2) = lg_done (a_app r) ++ [[(named "bb", Alerting.FromTime (at_minute 2), of_Z 1)]]).
Proof.
  eexists. split; [vm_compute; reflexivity|]. split; [reflexivity|].
  split; eexists; (split; [vm_compute; reflexivity|]); by split.
Qed.

(** The sample limit counts a cached sample twice when the storage has
    forgotten its reference: two samples pass a limit of three at first, and
    the same two samples are refused in the next scrape. *)
Theorem limit_counts_twice :
  let scrape app := scrapeLoop_append (AP := scrape_Appender (Appender0 := log_Appender by_length (fun _ _ => false))) keep_all
                      [exposed "a" 1; exposed "bb" 1] None (at_minute 1) app in
  exists r, scrape (appender (at_minute 1) 3 (mkLog [] [])) newScrapeCache = Some r /\ a_err r = None /\ a_added r = 2 /\
    exists r2, scrape (appender (at_minute 1) 3 (inner (a_app r))) (a_cache r) = Some r2 /\ a_err r2 = Some errSampleLimit.
Proof.
  eexists. split; [vm_compute; reflexivity|]. split; [reflexivity|]. split; [reflexivity|].
  eexists. split; [vm_compute; reflexivity|reflexivity].
Qed.

Lemma limits_enforced_witness :
  exists r bs, scrapeLoop_append (AP := scrape_Appender (Appender0 := log_Appender by_length forgets)) keep_all
      [exposed "a" 1; exposed "bb" 2; exposed "a" 3] None (at_minute 1) (appender (at_minute 1) 3 (mkLog [] [])) newScrapeCache = Some r /\
    lg_done (inner (a_app r)) = bs /\ Forall (fun b => counted b <= 3) bs.
Proof.
  destruct (limits_enforced keep_all by_length forgets [exposed "a" 1; exposed "bb" 2; exposed "a" 3] None (at_minute 1) (at_minute 1) 3 []
              newScrapeCache ltac:(by repeat constructor) ltac:(lia) ltac:(vm_compute; reflexivity)) as (r & bs & R & E & _ & F).
  exists r, bs. split; [exact R|]. split; [exact E|]. apply (Forall_impl _ _ _ F). by intros b [C _].
Defined.
