(* ===== verification/TargetFacts.v ===== *)
(** Theorems about the labels of targets and samples, and about the pool of
    scrape loops. *)

From S2P Require Import Prelude GoString GoFmt Float Duration Labels LabelsFacts Relabel Storage Alerting RuleFmt Target ScrapePool.

(** * Builders as maps *)

Lemma foldl_builder {T} (f : Builder -> T -> Builder) (g : gmap string string -> T -> gmap string string) ts lb :
  (forall lb x, wf_builder lb -> wf_builder (f lb x) /\ denote (f lb x) = g (denote lb) x) ->
  wf_builder lb -> wf_builder (foldl f lb ts) /\ denote (foldl f lb ts) = foldl g (denote lb) ts.
Proof.
  intros F. revert lb. induction ts as [|x ts IH]; intros lb W; [done|]. destruct (F lb x W) as [W' D]. cbn.
  destruct (IH _ W') as [W2 D2]. split; [done|]. by rewrite D2, D.
Qed.

Lemma range_builder f (g : gmap string string -> Label -> gmap string string) ls lb :
  (forall l lb, wf_builder lb -> exists lb', f l lb = Some lb' /\ wf_builder lb' /\ denote lb' = g (denote lb) l) ->
  wf_builder lb -> exists lb', range_labels f ls lb = Some lb' /\ wf_builder lb' /\ denote lb' = foldl g (denote lb) ls.
Proof.
  intros F. revert lb. induction ls as [|l ls IH]; intros lb W; [by exists lb|]. destruct (F l lb W) as (lb1 & E & W1 & D).
  destruct (IH lb1 W1) as (lb2 & E2 & W2 & D2). exists lb2. cbn. rewrite E. split; [done|]. split; [done|]. by rewrite D2, D.
Qed.

(** Deleting the labels of a test. *)
Lemma del_if_spec (p : Label -> bool) l lb : wf_builder lb ->
  exists lb', (if p l then Del lb [Name l] else Some lb) = Some lb' /\ wf_builder lb' /\
    denote lb' = (if p l then base.delete (Name l) (denote lb) else denote lb).
Proof.
  intros W. destruct (p l); [|by exists lb]. destruct (Del_spec lb [Name l] W) as (lb' & E & W' & _ & D). by exists lb'.
Qed.

Lemma delete_if_lookup (p : Label -> bool) ls (m : gmap string string) n :
  foldl (fun m l => if p l then base.delete (Name l) m else m) m ls !! n =
  if existsb (fun l => p l && (Name l =? n)%string) ls then None else m !! n.
Proof.
  revert m. induction ls as [|l ls IH]; intros m; [done|]. cbn [foldl existsb]. rewrite IH.
  destruct (p l); cbn [andb]; [|done]. destruct (String.eqb_spec (Name l) n) as [<-|N]; cbn [orb].
  - rewrite lookup_delete_eq. by destruct (existsb _ ls).
  - by rewrite lookup_delete_ne.
Qed.

(** On the labels of the map itself. *)
Lemma delete_if_filter (p : string -> string -> bool) ls : wf_labels ls ->
  foldl (fun m l => if p (Name l) (Labels.Value l) then base.delete (Name l) m else m) (Map ls) ls =
  base.filter (fun kv => p kv.1 kv.2 = false) (Map ls).
Proof.
  intros W. apply map_eq. intros n. rewrite (delete_if_lookup (fun l => p (Name l) (Labels.Value l))).
  destruct (existsb _ ls) eqn:E.
  - apply existsb_exists in E as ([n' v] & I & E). cbn in E. apply andb_true_iff in E as [P ->%String.eqb_eq].
    symmetry. apply map_lookup_filter_None. right. intros x L. cbn. apply list_elem_of_In, (Map_lookup ls n v (wf_names _ W)) in I.
    rewrite I in L. injection L as <-. by rewrite P.
  - destruct (Map ls !! n) as [v|] eqn:L; symmetry.
    + apply map_lookup_filter_Some. split; [done|]. cbn. destruct (p n v) eqn:P; [|done].
      apply (Map_lookup ls n v (wf_names _ W)) in L. rewrite <- E. symmetry. apply existsb_exists. exists (mkLabel n v).
      split; [by apply list_elem_of_In|]. cbn. by rewrite P, String.eqb_refl.
    + apply map_lookup_filter_None. by left.
Qed.

Lemma Has_Map ls n : Has ls n = true <-> is_Some (Map ls !! n).
Proof.
  rewrite <- not_eq_None_Some, Map_lookup_None. unfold names. induction ls as [|l ls IH]; cbn [Has map].
  - split; [done|]. intros H. by destruct H; apply not_elem_of_nil.
  - rewrite not_elem_of_cons. destruct (String.eqb_spec (Name l) n) as [->|N]; [naive_solver|]. rewrite IH. naive_solver.
Qed.

Section labels.
Context `{RE : Regexp} `{RR : !RegexpReplace} `{HM : MD5} `{UT : UnicodeTables} `{MO : MapOrder}.

(** * The labels of a scraped sample *)

(** The value a sample's own label moves to under [n]. *)
Definition exported (own : gmap string string) (tl : Labels) (n : string) : option string :=
  match list_find (fun l => ExportedLabelPrefix +:+ Name l = n) tl with
  | Some (_, l) => match own !! Name l with Some lv => if (lv =? "")%string then None else Some lv | None => None end
  | None => None
  end.

(** Labels of the target come first, or last when the sample's are honoured. *)
Definition merged (honor : bool) (own : gmap string string) (tl : Labels) (n : string) : option string :=
  if honor then match own !! n with Some v => Some v | None => Map tl !! n end
  else match Map tl !! n, exported own tl n with Some v, _ => Some v | None, Some v => Some v | None, None => own !! n end.

Definition override_map (own m : gmap string string) (l : Label) : gmap string string :=
  let lv := default "" (own !! Name l) in
  <[Name l := Labels.Value l]> (if negb (lv =? "")%string then <[ExportedLabelPrefix +:+ Name l := lv]> m else m).

Lemma override_label_spec ls lb l : wf_labels ls -> wf_builder lb ->
  wf_builder (override_label ls lb l) /\ denote (override_label ls lb l) = override_map (Map ls) (denote lb) l.
Proof.
  intros W B. unfold override_label, override_map. rewrite (Get_Map ls (Name l)) by (by apply wf_names).
  destruct (negb _).
  - split; [by apply Set_wf, Set_wf|]. by rewrite !Set_denote by auto using Set_wf.
  - split; [by apply Set_wf|]. by rewrite Set_denote.
Qed.

Lemma Map_cons_lookup l ls n : NoDup (names (l :: ls)) ->
  Map (l :: ls) !! n = if decide (Name l = n) then Some (Labels.Value l) else Map ls !! n.
Proof.
  intros ND. pose proof (proj1 (NoDup_cons (Name l) (names ls)) ND) as [NI NDl]. apply option_eq. intros v. rewrite Map_lookup by done.
  rewrite elem_of_cons. destruct (decide (Name l = n)) as [<-|N].
  - split; [|intros [= <-]; left; by destruct l]. intros [<-|I]; [done|]. exfalso. apply NI.
    apply list_elem_of_fmap. by exists (mkLabel (Name l) v).
  - rewrite Map_lookup by done. split; [|by right]. intros [E|I]; [|done]. destruct N. by rewrite <- E.
Qed.

Lemma prefix_inj (p a b : string) : p +:+ a = p +:+ b -> a = b.
Proof. induction p as [|c p IH]; [done|]. intros [= E]. by apply IH. Qed.

Lemma prefix_app (p x : string) : String.prefix p (p +:+ x) = true.
Proof.
  induction p as [|c p IH]; [by destruct x|]. rewrite str_app_cons. unfold String.prefix; fold String.prefix.
  by destruct (Ascii.ascii_dec c c).
Qed.

Lemma override_fold own tl m n : NoDup (names tl) -> Forall (fun l => HasPrefix (Name l) ExportedLabelPrefix = false) tl ->
  foldl (override_map own) m tl !! n =
  match Map tl !! n, exported own tl n with Some v, _ => Some v | None, Some v => Some v | None, None => m !! n end.
Proof.
  intros ND F. revert m. induction F as [|l tl P F IH]; intros m; [done|]. pose proof ND as ND'.
  apply NoDup_cons in ND as [NI ND]. cbn [foldl]. rewrite IH by done. rewrite Map_cons_lookup by done. clear IH.
  assert (PE : forall l', HasPrefix (Name l') ExportedLabelPrefix = false -> forall x, ExportedLabelPrefix +:+ x <> Name l').
  { intros l' H x E. rewrite <- E in H. unfold HasPrefix in H. by rewrite prefix_app in H. }
  unfold exported at 2. cbn [list_find]. destruct (decide (Name l = n)) as [<-|N].
  - assert (T : Map tl !! Name l = None) by (by apply Map_lookup_None). rewrite T.
    assert (X : exported own tl (Name l) = None).
    { unfold exported. destruct (list_find _ tl) as [[i l']|] eqn:L; [|done]. apply list_find_Some in L as (_ & E & _). by apply PE in E. }
    rewrite X. unfold override_map. apply lookup_insert_eq.
  - destruct (Map tl !! n) as [v|]; [done|]. unfold override_map. rewrite lookup_insert_ne by done.
    destruct (decide (ExportedLabelPrefix +:+ Name l = n)) as [E|E].
    + assert (X : exported own tl n = None).
      { unfold exported. destruct (list_find _ tl) as [[i l']|] eqn:L; [|done]. apply list_find_Some in L as (L & E' & _). exfalso.
        apply NI. rewrite <- E in E'. apply prefix_inj in E'. rewrite <- E'. apply list_elem_of_fmap. exists l'. split; [done|].
        by eapply list_elem_of_lookup_2. }
      rewrite X. subst n. cbn. destruct (own !! Name l) as [lv|]; cbn; [|done]. destruct (lv =? "")%string; cbn; [done|].
      apply lookup_insert_eq.
    + replace (match exported own tl n with Some v => Some v | None => _ end)
        with (match exported own tl n with Some v => Some v | None => m !! n end)
        by (destruct (exported own tl n); [done|]; destruct (negb _); [by rewrite lookup_insert_ne|done]).
      unfold exported. by destruct (list_find _ tl) as [[i l']|].
Qed.

Definition honor_map (own m : gmap string string) (l : Label) : gmap string string :=
  if decide (is_Some (own !! Name l)) then m else <[Name l := Labels.Value l]> m.

Lemma honor_fold (own : gmap string string) tl n : NoDup (names tl) ->
  foldl (honor_map own) own tl !! n = match own !! n with Some v => Some v | None => Map tl !! n end.
Proof.
  intros ND.
  assert (G : forall m : gmap string string, foldl (honor_map own) m tl !! n =
    match own !! n with Some _ => m !! n | None => match Map tl !! n with Some v => Some v | None => m !! n end end).
  { induction tl as [|l tl IH]; intros m; [by destruct (own !! n)|].
    pose proof (proj1 (NoDup_cons (Name l) (names tl)) ND) as [NI NDl].
    cbn [foldl]. rewrite IH by done. rewrite Map_cons_lookup by done. unfold honor_map. destruct (own !! n) as [v|] eqn:O.
    - destruct (decide (is_Some (own !! Name l))) as [D|D]; [done|]. apply lookup_insert_ne. intros E. apply D. rewrite E, O. done.
    - destruct (decide (Name l = n)) as [<-|N].
      + rewrite (proj2 (Map_lookup_None tl (Name l)) NI). rewrite decide_False by (rewrite O; by intros []). apply lookup_insert_eq.
      + destruct (Map tl !! n); [done|]. destruct (decide _); [done|]. by apply lookup_insert_ne. }
  rewrite G. destruct (own !! n) as [v|] eqn:O; [done|]. by destruct (Map tl !! n).
Qed.

(** C28: the labels of a scraped sample.  If the sample's and the target's
    labels are sorted, with no name twice, no label of the target starts with
    [exported_], and every hashmod rule has a modulus, relabelling does not
    panic, and the labels before the relabelling rules are, for each name: with
    honor_labels the sample's own value, else the target's; without it the
    target's value, the sample's own value of a label the target has moving
    under the prefix [exported_].  Labels of the target that start with two
    underscores do not count, and labels with an empty value are dropped. *)
Theorem mutateSampleLabels_spec (lset : Labels) (target : Target) (honor : bool) (rc : list RelabelConfig)
  (W : wf_labels lset) (WT : wf_labels (t_labels target)) (V : Forall valid_config rc)
  (P : Forall (fun l => HasPrefix (Name l) ExportedLabelPrefix = false) (t_labels target)) :
  exists m : gmap string string,
    mutateSampleLabels lset target honor rc = Some (FromMap <$> process_map rc m) /\
    forall n, m !! n = match merged honor (Map lset) (Target_Labels target) n with
                       | Some v => if (v =? "")%string then None else Some v
                       | None => None
                       end.
Proof.
  unfold mutateSampleLabels. set (tl := Target_Labels target).
  assert (WL : wf_labels tl) by (by apply wf_filter).
  assert (PL : Forall (fun l => HasPrefix (Name l) ExportedLabelPrefix = false) tl).
  { apply Forall_forall. intros l [I _]%list_elem_of_In%filter_In. rewrite Forall_forall in P. by apply P, list_elem_of_In. }
  destruct (NewBuilder_spec lset W) as [B0 D0].
  set (lb := if honor then _ else _).
  assert (B : wf_builder lb /\ forall n, denote lb !! n = merged honor (Map lset) tl n).
  { unfold lb, merged. destruct honor.
    - destruct (foldl_builder (fun lb l => if Has lset (Name l) then lb else Set_ lb (Name l) (Labels.Value l)) (honor_map (Map lset)) tl (NewBuilder lset))
        as [B1 D1]; [|done|].
      + intros b l Wb. unfold honor_map. destruct (Has lset (Name l)) eqn:H.
        * rewrite decide_True by (by apply Has_Map). done.
        * rewrite decide_False by (rewrite <- Has_Map, H; done). split; [by apply Set_wf|by apply Set_denote].
      + split; [done|]. intros n. rewrite D1, D0. apply honor_fold. by apply wf_names.
    - destruct (foldl_builder (override_label lset) (override_map (Map lset)) tl (NewBuilder lset)) as [B1 D1]; [|done|].
      + intros b l Wb. by apply override_label_spec.
      + split; [done|]. intros n. rewrite D1, D0. apply override_fold; [by apply wf_names|done]. }
  destruct B as [Bw Bm]. destruct (Builder_Labels_spec lb Bw) as [WB MB].
  destruct (range_builder drop_empty (fun m l => if (Labels.Value l =? "")%string then base.delete (Name l) m else m) (Builder_Labels lb) lb)
    as (lb' & E & W' & D'); [|done|].
  { intros l b Wb. exact (del_if_spec (fun l => (Labels.Value l =? "")%string) l b Wb). }
  rewrite E. cbn [mbind option_bind]. destruct (Builder_Labels_spec lb' W') as [WR MR].
  rewrite <- MB, (delete_if_filter (fun _ v => (v =? "")%string)) in D' by done.
  exists (Map (Builder_Labels lb')). split.
  - destruct rc as [|cfg rc]; [by rewrite <- (FromMap_Map _ WR) at 1|]. by apply Process_spec.
  - intros n. rewrite MR, D'. rewrite map_lookup_filter, MB, Bm. destruct (merged honor _ tl n) as [v|]; [|done].
    cbn. by destruct (v =? "")%string.
Qed.

(** * The labels of a target *)

Lemma default_labels_wf lset cfg : wf_labels lset -> wf_labels (default_labels lset cfg).
Proof.
  intros W. destruct (NewBuilder_spec lset W) as [B0 _]. unfold default_labels. apply Builder_Labels_spec.
  set (add_default := fun lb (l : Label) => if (Get lset (Name l) =? "")%string then Set_ lb (Name l) (Labels.Value l) else lb).
  set (add_param := fun lb (kv : string * list string) => match kv.2 with [] => lb | v :: _ => Set_ lb (ParamLabelPrefix +:+ kv.1) v end).
  assert (WD : forall (ls : Labels) lb, wf_builder lb -> wf_builder (foldl add_default lb ls)).
  { induction ls as [|l ls IH]; intros lb Wb; [done|]. apply IH. unfold add_default. destruct (_ =? _)%string; [by apply Set_wf|done]. }
  assert (WP : forall (kvs : list (string * list string)) lb, wf_builder lb -> wf_builder (foldl add_param lb kvs)).
  { induction kvs as [|[k [|v vs]] kvs IH]; intros lb Wb; [done|by apply IH|]. by apply IH, Set_wf. }
  by apply WP, WD.
Qed.

Lemma bad_value_spec ls : bad_value ls = None <-> Forall (fun l => LabelValue_IsValid (Labels.Value l) = true) ls.
Proof.
  induction ls as [|l ls IH]; [by split|]. cbn [bad_value]. rewrite Forall_cons, <- IH.
  destruct (LabelValue_IsValid (Labels.Value l)); cbn; naive_solver.
Qed.

(** What the labels of a target are after relabelling gave [m] and the address
    became [addr]. *)
Definition target_label (m : gmap string string) (addr n : string) : option string :=
  if decide (n = InstanceLabel /\ default "" (m !! InstanceLabel) = "") then Some addr
  else if HasPrefix n MetaLabelPrefix then None
  else if decide (n = AddressLabel) then Some addr else m !! n.

(** [populateLabels] as a decision on the relabelled labels. *)
Definition populated (cfg : ScrapeConfig) (m : gmap string string) (r : result string (option Labels * option Labels)) (pre : Labels) : Prop :=
  let lookup n := default "" (m !! n) in
  if (lookup AddressLabel =? "")%string then r = Err "no address"
  else
    match with_port cfg (lookup SchemeLabel) (lookup AddressLabel) with
    | Err e => r = Err e
    | Ok addr =>
      if ContainsRune addr (rune "/") then r = Err (Quote addr +:+ " is not a valid hostname")
      else exists res, wf_labels res /\ (forall n, Map res !! n = target_label m addr n) /\
        if forallb (fun l => LabelValue_IsValid (Labels.Value l)) res then r = Ok (Some res, Some pre) else exists e, r = Err e
    end.

Lemma finish_labels (ls : Labels) addr (keep : bool) : wf_labels ls -> (keep = false -> default "" (Map ls !! AddressLabel) = addr) ->
  Map ls !! AddressLabel <> None ->
  exists lb, range_labels (fun l lb => if HasPrefix (Name l) MetaLabelPrefix then Del lb [Name l] else Some lb) ls
      (if keep then Set_ (NewBuilder ls) AddressLabel addr else NewBuilder ls) = Some lb /\
    let lb := if (Get ls InstanceLabel =? "")%string then Set_ lb InstanceLabel addr else lb in
    wf_labels (Builder_Labels lb) /\ forall n, Map (Builder_Labels lb) !! n = target_label (Map ls) addr n.
Proof.
  intros W K NN. destruct (NewBuilder_spec ls W) as [B0 D0].
  set (lb0 := if keep then Set_ (NewBuilder ls) AddressLabel addr else NewBuilder ls).
  assert (B1 : wf_builder lb0 /\ denote lb0 = <[AddressLabel := addr]> (Map ls)).
  { unfold lb0. destruct keep; [split; [by apply Set_wf|by rewrite Set_denote, D0]|]. split; [done|]. rewrite D0. symmetry.
    apply insert_id. specialize (K eq_refl). destruct (Map ls !! AddressLabel); [by cbn in K; subst|done]. }
  destruct B1 as [B1 D1].
  destruct (range_builder (fun l lb => if HasPrefix (Name l) MetaLabelPrefix then Del lb [Name l] else Some lb)
              (fun (m : gmap string string) l => if HasPrefix (Name l) MetaLabelPrefix then base.delete (Name l) m else m) ls lb0) as (lb & E & B2 & D2); [|done|].
  { intros l b Wb. exact (del_if_spec (fun l => HasPrefix (Name l) MetaLabelPrefix) l b Wb). }
  exists lb. split; [done|]. cbv zeta. rewrite (Get_Map ls InstanceLabel) by (by apply wf_names).
  set (lb2 := if (default "" (Map ls !! InstanceLabel) =? "")%string then Set_ lb InstanceLabel addr else lb).
  assert (B3 : wf_builder lb2 /\ forall n, denote lb2 !! n = target_label (Map ls) addr n).
  { assert (L : forall n, denote lb !! n = if HasPrefix n MetaLabelPrefix then None else if decide (n = AddressLabel) then Some addr else Map ls !! n).
    { intros n. rewrite D2, D1, (delete_if_lookup (fun l => HasPrefix (Name l) MetaLabelPrefix)).
      destruct (HasPrefix n MetaLabelPrefix) eqn:H.
      - destruct (existsb _ ls) eqn:X; [done|]. destruct (decide (n = AddressLabel)) as [->|NA]; [by vm_compute in H|].
        rewrite lookup_insert_ne by done. apply Map_lookup_None. intros I. apply list_elem_of_fmap in I as (l & Hn & I).
        rewrite <- not_true_iff_false in X. apply X, existsb_exists. exists l. split; [by apply list_elem_of_In|]. by rewrite <- Hn, H, String.eqb_refl.
      - replace (existsb _ ls) with false; [destruct (decide (n = AddressLabel)) as [->|NA]; [apply lookup_insert_eq|by apply lookup_insert_ne]|].
        symmetry. apply not_true_is_false. intros (l & _ & [HH Hn%String.eqb_eq]%andb_true_iff)%existsb_exists. congruence. }
    unfold lb2, target_label. destruct (String.eqb_spec (default "" (Map ls !! InstanceLabel)) "") as [Ei|Ni].
    - split; [by apply Set_wf|]. intros n. rewrite Set_denote by done. destruct (decide (n = InstanceLabel)) as [->|NI].
      + rewrite decide_True by done. apply lookup_insert_eq.
      + rewrite decide_False by naive_solver. rewrite lookup_insert_ne by done. apply L.
    - split; [done|]. intros n. rewrite decide_False by naive_solver. apply L. }
  destruct B3 as [B3 D3]. destruct (Builder_Labels_spec lb2 B3) as [WR MR]. split; [done|]. intros n. by rewrite MR.
Qed.

(** C29: [populateLabels] never panics; it drops the target when relabelling
    does, and otherwise decides on the relabelled labels alone: no address, a
    scheme without a port or a slash in the address are errors, and the labels
    of a target are the relabelled ones without those of discovery, with the
    port of the scheme added to the address and the instance defaulting to the
    address, all of them valid UTF-8. *)
Theorem populateLabels_spec (lset : Labels) (cfg : ScrapeConfig) (W : wf_labels lset) (V : Forall valid_config (RelabelConfigs cfg)) :
  exists r, populateLabels lset cfg = Some r /\
    match process_map (RelabelConfigs cfg) (Map (default_labels lset cfg)) with
    | None => r = Ok (None, Some (default_labels lset cfg))
    | Some m => populated cfg m r (default_labels lset cfg)
    end.
Proof.
  pose proof (default_labels_wf lset cfg W) as WD. unfold populateLabels. set (pre := default_labels lset cfg) in *.
  rewrite (Process_spec pre _ WD V). cbn [mbind option_bind]. destruct (process_map _ _) as [m|]; [|by eexists].
  cbn [fmap option_fmap option_map]. set (ls := FromMap m). assert (WL : wf_labels ls) by apply FromMap_wf.
  assert (M : Map ls = m) by apply Map_FromMap. rewrite !(Get_Map ls) by (by apply wf_names).
  unfold populated. rewrite <- M. destruct (String.eqb_spec (default "" (Map ls !! AddressLabel)) "") as [_|NA]; [by eexists|].
  destruct (with_port cfg _ _) as [addr|e] eqn:WP; [|by eexists]. unfold CheckTargetAddress.
  destruct (ContainsRune addr (rune "/")); [by eexists|].
  destruct (finish_labels ls addr (addPort (default "" (Map ls !! AddressLabel))) WL) as (lb & E & WR & MR).
  { intros A. unfold with_port in WP. rewrite A in WP. by injection WP. }
  { intros N. by rewrite N in NA. }
  rewrite E. cbn [mbind option_bind]. rewrite (Get_Map ls) in WR, MR by (by apply wf_names).
  set (res := Builder_Labels _) in *. destruct (bad_value res) as [e|] eqn:BV.
  - eexists. split; [done|]. exists res. split; [done|]. split; [done|]. replace (forallb _ res) with false; [by eexists|].
    symmetry. apply not_true_is_false. intros F. rewrite forallb_forall in F. 
    assert (N : bad_value res = None) by (apply bad_value_spec, Forall_forall; intros l I; by apply F, list_elem_of_In). congruence.
  - eexists. split; [done|]. exists res. split; [done|]. split; [done|]. replace (forallb _ res) with true; [done|].
    symmetry. apply forallb_forall. apply bad_value_spec in BV. rewrite Forall_forall in BV. intros l I. by apply BV, list_elem_of_In.
Qed.
End labels.

(** * The pool *)

Section pool.
Context `{RE : Regexp} `{RR : !RegexpReplace} `{HM : MD5} `{UT : UnicodeTables} `{MO : MapOrder} `{!EqDecision ScrapeConfig}.
Variable target_hash : Labels -> gmap string (list string) -> Z.
Notation hash := (hash target_hash).

Definition ev_hash (e : event) : Z := match e with Started h _ => h | Stopped h _ => h end.

(** Targets and loops have the same set of hashes, which are those of the targets. *)
Definition in_sync (sp : scrapePool) : Prop :=
  dom (sp_targets sp) = dom (sp_loops sp) /\ map_Forall (fun h t => hash t = h) (sp_targets sp).

Definition hashes (ts : list Target) : gset Z := list_to_set (map hash ts).

Lemma hash_discovered l t : hash (SetDiscoveredLabels l t) = hash t.
Proof. done. Qed.

Lemma sync_add_spec ts sp unique : in_sync sp ->
  let '(sp', unique', evs) := sync_add target_hash ts sp unique in
  in_sync sp' /\ sp_config sp' = sp_config sp /\ unique' = hashes ts ∪ unique /\
  dom (sp_loops sp') = hashes ts ∪ dom (sp_loops sp) /\
  (forall h l, sp_loops sp !! h = Some l -> sp_loops sp' !! h = Some l) /\
  NoDup (map ev_hash evs) /\
  (forall e, e ∈ evs <-> exists h l, e = Started h l /\ h ∈ hashes ts /\ sp_loops sp !! h = None /\ sp_loops sp' !! h = Some l).
Proof.
  revert sp unique. induction ts as [|t ts IH]; intros sp unique I; cbn [sync_add].
  { unfold hashes. cbn. split; [done|]. split; [done|]. split; [set_solver|]. split; [set_solver|]. split; [done|]. split; [constructor|].
    intros e. split; [by intros ?%elem_of_nil|]. intros (h & l & _ & H & _). set_solver. }
  pose proof I as [D F].
  assert (HC : hashes (t :: ts) = {[hash t]} ∪ hashes ts) by done.
  destruct (sp_targets sp !! hash t) as [old|] eqn:O.
  - set (sp1 := mkPool _ _ _ _ _).
    assert (I1 : in_sync sp1).
    { split; cbn.
      - rewrite dom_insert_L, <- D. apply elem_of_dom_2 in O. set_solver.
      - apply map_Forall_insert_2; [|done]. rewrite hash_discovered. by apply (F (hash t)). }
    specialize (IH sp1 ({[hash t]} ∪ unique) I1). destruct (sync_add _ ts sp1 _) as [[sp' unique'] evs].
    destruct IH as (I' & C & U & DL & K & ND & E). cbn [sp_loops sp_config sp1] in *.
    assert (HD : hash t ∈ dom (sp_loops sp)) by (rewrite <- D; by apply elem_of_dom_2 in O).
    split; [done|]. split; [done|]. rewrite HC. split; [set_solver|]. split; [set_solver|]. split; [done|]. split; [done|].
    intros e. rewrite E. split; intros (h & l & -> & H & N & L); exists h, l; (split; [done|]); (split; [|done]); [set_solver|].
    apply not_elem_of_dom in N. set_solver.
  - set (l := newLoop sp). set (sp1 := mkPool _ _ _ _ _).
    assert (NL : sp_loops sp !! hash t = None) by (apply not_elem_of_dom; rewrite <- D; by apply not_elem_of_dom).
    assert (I1 : in_sync sp1).
    { split; cbn; [by rewrite !dom_insert_L, D|]. by apply map_Forall_insert_2. }
    specialize (IH sp1 ({[hash t]} ∪ unique) I1). destruct (sync_add _ ts sp1 _) as [[sp' unique'] evs].
    destruct IH as (I' & C & U & DL & K & ND & E). cbn [sp_loops sp_config sp1] in *.
    assert (KH : sp_loops sp' !! hash t = Some l) by (apply K, lookup_insert_eq).
    assert (NE : hash t ∉ map ev_hash evs).
    { intros Hin. apply list_elem_of_fmap in Hin as (e & Eh & Ie). apply E in Ie as (h & l' & -> & _ & N & _). cbn in Eh. subst h.
      by rewrite lookup_insert_eq in N. }
    split; [done|]. split; [done|]. rewrite HC. split; [set_solver|]. split; [rewrite DL, dom_insert_L; set_solver|]. split.
    { intros h l' L. apply K. rewrite lookup_insert_ne; [done|]. intros <-. congruence. }
    split; [cbn; by constructor|].
    intros e. rewrite elem_of_cons, E. split.
    + intros [->|(h & l' & -> & H & N & L)]; [exists (hash t), l; set_solver|]. exists h, l'. split; [done|]. split; [set_solver|]. split; [|done].
      destruct (decide (h = hash t)) as [->|NH]; [by rewrite lookup_insert_eq in N|by rewrite lookup_insert_ne in N].
    + intros (h & l' & -> & H & N & L). destruct (decide (h = hash t)) as [->|NH].
      * left. rewrite KH in L. by injection L as <-.
      * right. exists h, l'. split; [done|]. split; [set_solver|]. split; [by rewrite lookup_insert_ne|done].
Qed.

Lemma delete_list_lookup {V} (m : gmap Z V) hs h :
  foldr base.delete m hs !! h = if decide (h ∈ hs) then None else m !! h.
Proof.
  induction hs as [|k hs IH]; cbn; [by rewrite decide_False by apply not_elem_of_nil|].
  destruct (decide (h = k)) as [->|N].
  - rewrite lookup_delete_eq, decide_True; [done|by left].
  - rewrite lookup_delete_ne, IH by done. apply bool_decide_if || (destruct (decide (h ∈ hs)); [rewrite decide_True|rewrite decide_False]; set_solver).
Qed.

Lemma elem_of_stops sp hs e : e ∈ stops sp hs <-> exists h l, e = Stopped h l /\ h ∈ hs /\ sp_loops sp !! h = Some l.
Proof.
  unfold stops. rewrite list_elem_of_omap. split.
  - intros (h & I & E). destruct (sp_loops sp !! h) as [l|] eqn:L; [|done]. injection E as <-. by exists h, l.
  - intros (h & l & -> & I & L). exists h. by rewrite L.
Qed.

Lemma stops_hashes sp hs : map ev_hash (stops sp hs) `sublist_of` hs.
Proof.
  induction hs as [|h hs IH]; [constructor|]. unfold stops in *. cbn. destruct (sp_loops sp !! h); cbn; by constructor.
Qed.

(** The keys that a second pass of [sync] removes. *)
Lemma gone_spec sp (unique : gset Z) h :
  h ∈ List.filter (fun h => negb (bool_decide (h ∈ unique))) (map fst (map_order (sp_targets sp))) <->
  h ∈ dom (sp_targets sp) /\ h ∉ unique.
Proof.
  rewrite list_elem_of_In, filter_In, <- list_elem_of_In, negb_true_iff, bool_decide_eq_false, list_elem_of_fmap, elem_of_dom.
  split; intros [H N]; (split; [|done]).
  - destruct H as ([k t] & -> & I). apply elem_of_map_order in I. by exists t.
  - destruct H as [t I]. exists (h, t). split; [done|]. by apply elem_of_map_order.
Qed.

(** What [sync] does to a pool. *)
Definition synced (ts : list Target) (sp sp' : scrapePool) (evs : list event) : Prop :=
  in_sync sp' /\ sp_config sp' = sp_config sp /\ dom (sp_loops sp') = hashes ts /\
  (forall h l, sp_loops sp !! h = Some l -> h ∈ hashes ts -> sp_loops sp' !! h = Some l) /\
  NoDup (map ev_hash evs) /\
  forall e, e ∈ evs <->
    match e with
    | Started h l => h ∈ hashes ts /\ sp_loops sp !! h = None /\ sp_loops sp' !! h = Some l
    | Stopped h l => sp_loops sp !! h = Some l /\ h ∉ hashes ts
    end.

Lemma sync_spec ts sp : in_sync sp -> synced ts sp (sync target_hash ts sp).1 (sync target_hash ts sp).2.
Proof.
  intros I. unfold sync, synced. pose proof (sync_add_spec ts sp ∅ I) as S. destruct (sync_add target_hash ts sp ∅) as [[sp1 unique] evs].
  destruct S as ([D1 F1] & C & U & DL & K & ND & E). rewrite (right_id_L ∅ (∪)) in U. subst unique.
  set (gone := List.filter _ _). cbn [fst snd sp_targets sp_loops sp_config].
  assert (G : forall h, h ∈ gone <-> h ∈ dom (sp_loops sp1) /\ h ∉ hashes ts) by (intros h; unfold gone; by rewrite gone_spec, D1).
  assert (GL : forall h, foldr base.delete (sp_loops sp1) gone !! h = if decide (h ∈ hashes ts) then sp_loops sp1 !! h else None).
  { intros h. rewrite delete_list_lookup. destruct (decide (h ∈ gone)) as [Hg|Hg]; rewrite G in Hg.
    - by rewrite decide_False by apply Hg.
    - destruct (decide (h ∈ hashes ts)); [done|]. apply not_elem_of_dom. naive_solver. }
  assert (DG : dom (foldr base.delete (sp_loops sp1) gone) = hashes ts).
  { apply set_eq. intros h. rewrite elem_of_dom, GL. destruct (decide (h ∈ hashes ts)) as [Hh|Hh].
    - split; [done|]. intros _. apply elem_of_dom. rewrite DL. set_solver.
    - split; [by intros []|done]. }
  split; [split; cbn|].
  { rewrite DG. apply set_eq. intros h. rewrite elem_of_dom. split.
    - intros [t [_ Ht]%map_lookup_filter_Some]. done.
    - intros Hh. assert (Hd : h ∈ dom (sp_targets sp1)) by (rewrite D1, DL; set_solver). apply elem_of_dom in Hd as [t L].
      exists t. by apply map_lookup_filter_Some. }
  { intros h t [L _]%map_lookup_filter_Some. by apply F1. }
  split; [done|]. split; [done|]. split; [|split].
  - intros h l L Hh. rewrite GL, decide_True by done. by apply K.
  - rewrite map_app. apply NoDup_app. split; [done|]. split.
    + intros h Hh Hs. apply list_elem_of_fmap in Hh as (e & -> & Ie). apply E in Ie as (h & l & -> & Hh & _). cbn in Hs.
      apply (sublist_subseteq _ _ (stops_hashes sp1 gone)) in Hs. apply G in Hs. naive_solver.
    + refine (sublist_NoDup _ _ _ (stops_hashes sp1 gone)). unfold gone. apply NoDup_ListNoDup, List.NoDup_filter, NoDup_ListNoDup.
      rewrite map_order_perm. apply NoDup_fst_map_to_list.
  - intros e. rewrite elem_of_app, E, elem_of_stops. destruct e as [h l|h l].
    + split; [intros [(h' & l' & [= <- <-] & H)|(? & ? & ? & _)]|intros H]; [|done|].
      * destruct H as (A & B & L). by rewrite GL, decide_True by done.
      * left. exists h, l. split; [done|]. rewrite GL, decide_True in H by apply H. done.
    + split; [intros [(? & ? & ? & _)|(h' & l' & [= <- <-] & Hg & L)]|intros [L Hh]]; [done| |].
      * apply G in Hg as [_ Hh]. split; [|done]. destruct (sp_loops sp !! h) as [l0|] eqn:L0; [rewrite (K h l0 L0) in L; by injection L as ->|].
        exfalso. apply elem_of_dom_2 in L. rewrite DL in L. apply not_elem_of_dom in L0. set_solver.
      * right. exists h, l. split; [done|]. split; [|by apply K]. apply G. split; [|done]. rewrite DL. apply elem_of_dom_2 in L. set_solver.
Qed.

(** C26: [Sync] of target groups leaves exactly one loop for each active target
    they describe, duplicates apart: loops already running for a target go on
    untouched, one loop is started for each new target, and exactly the loops of
    targets that are gone are stopped; the active targets it returns are those
    of the loops, and the dropped ones those without labels. *)
Theorem Sync_matches (tgs : list TargetGroup) (sp : scrapePool) (ts : list Target)
  (I : in_sync sp) (T : all_targets tgs (sp_config sp) = Some ts) :
  exists sp' active evs, Sync target_hash tgs sp = Some (sp', active, List.filter is_dropped ts, evs) /\
    in_sync sp' /\ sp_config sp' = sp_config sp /\ dom (sp_loops sp') = hashes (List.filter is_active ts) /\
    (forall h l, sp_loops sp !! h = Some l -> h ∈ hashes (List.filter is_active ts) -> sp_loops sp' !! h = Some l) /\
    NoDup (map ev_hash evs) /\
    (forall e, e ∈ evs <->
      match e with
      | Started h l => h ∈ hashes (List.filter is_active ts) /\ sp_loops sp !! h = None /\ sp_loops sp' !! h = Some l
      | Stopped h l => sp_loops sp !! h = Some l /\ h ∉ hashes (List.filter is_active ts)
      end) /\
    NoDup (map hash active) /\ hashes active = dom (sp_loops sp').
Proof.
  unfold Sync. rewrite T. cbn [mbind option_bind]. set (sp0 := mkPool _ _ _ _ _).
  assert (I0 : in_sync sp0) by exact I. pose proof (sync_spec (List.filter is_active ts) sp0 I0) as S.
  destruct (sync target_hash _ sp0) as [sp' evs]. unfold synced in S. cbn [fst snd] in S. destruct S as (I' & C & D & K & N & E).
  eexists _, _, _. split; [reflexivity|]. do 6 (split; [done|]). destruct I' as [D' F'].
  assert (M : map hash (map snd (map_order (sp_targets sp'))) = map fst (map_order (sp_targets sp'))).
  { rewrite map_map. apply map_ext_in. intros [h t] Hin. apply F'. by apply elem_of_map_order, list_elem_of_In. }
  split.
  - rewrite M, map_order_perm. apply NoDup_fst_map_to_list.
  - unfold hashes. rewrite M, <- D'. apply set_eq. intros h. rewrite elem_of_list_to_set, list_elem_of_fmap, elem_of_dom. split.
    + intros ([k t] & -> & Hin). apply elem_of_map_order in Hin. by exists t.
    + intros [t Hin]. exists (h, t). split; [done|]. by apply elem_of_map_order.
Qed.

(** ** Every operation keeps targets and loops in line *)

Lemma reload_loops_spec hs sp : Forall (fun hl => hl.1 ∈ dom (sp_loops sp)) hs ->
  sp_targets (reload_loops hs sp).1 = sp_targets sp /\ dom (sp_loops (reload_loops hs sp).1) = dom (sp_loops sp).
Proof.
  revert sp. induction hs as [|[h l] hs IH]; intros sp F; [done|]. apply Forall_cons in F as [Hh F]. cbn [reload_loops].
  set (sp1 := mkPool _ _ _ _ _). destruct (IH sp1) as [T L].
  - cbn. rewrite dom_insert_L. apply (Forall_impl _ _ _ F). set_solver.
  - destruct (reload_loops hs sp1) as [sp2 evs]. cbn [fst] in *. rewrite T, L. cbn. rewrite dom_insert_L. set_solver.
Qed.

Lemma pool_reload_in_sync cfg sp : in_sync sp -> in_sync (pool_reload cfg sp).1.
Proof.
  intros [D F]. unfold pool_reload. destruct (reload_loops_spec (map_order (sp_loops sp)) (mkPool cfg (sp_targets sp) (sp_dropped sp) (sp_loops sp) (sp_next sp)))
    as [T L].
  - apply Forall_forall. intros [h l] I. apply elem_of_map_order in I. cbn. by apply elem_of_dom_2 in I.
  - split; [by rewrite T, L|by rewrite T].
Qed.

Lemma pool_stop_in_sync sp : in_sync sp -> in_sync (pool_stop sp).1.
Proof.
  intros [D F]. assert (E : forall V (m : gmap Z V), dom m = dom (sp_loops sp) -> foldr base.delete m (map fst (map_order (sp_loops sp))) = ∅).
  { intros V m E. apply map_eq. intros h. rewrite delete_list_lookup, lookup_empty. destruct (decide _) as [|N]; [done|].
    apply not_elem_of_dom. rewrite E. intros [l L]%elem_of_dom. apply N, list_elem_of_fmap. exists (h, l). split; [done|].
    by apply elem_of_map_order. }
  split; cbn; rewrite !E by done; [done|apply map_Forall_empty].
Qed.

(** ** The manager *)

(** Loops as a configuration would start them. *)
Definition current (cfg : ScrapeConfig) (l : loop) : Prop :=
  lp_interval l = ScrapeInterval cfg /\ lp_timeout l = ScrapeTimeout cfg /\ lp_limit l = SampleLimit cfg /\
  lp_honor l = HonorLabels cfg /\ lp_mrc l = MetricRelabelConfigs cfg.
Definition pool_ok (sp : scrapePool) : Prop := in_sync sp /\ map_Forall (fun _ l => current (sp_config sp) l) (sp_loops sp).

Lemma sync_add_current ts sp unique : map_Forall (fun _ l => current (sp_config sp) l) (sp_loops sp) ->
  map_Forall (fun _ l => current (sp_config sp) l) (sp_loops (sync_add target_hash ts sp unique).1.1).
Proof.
  revert sp unique. induction ts as [|t ts IH]; intros sp unique F; cbn [sync_add]; [done|]. destruct (sp_targets sp !! hash t) as [old|].
  - set (sp1 := mkPool _ _ _ _ _). exact (IH sp1 _ F).
  - set (sp1 := mkPool _ _ _ _ _). specialize (IH sp1 ({[hash t]} ∪ unique)). destruct (sync_add _ ts sp1 _) as [[sp2 u] evs]. cbn [fst] in *.
    apply IH. cbn. apply map_Forall_insert_2; [by repeat split|done].
Qed.

Lemma Sync_ok tgs sp r : pool_ok sp -> Sync target_hash tgs sp = Some r -> pool_ok r.1.1.1 /\ sp_config r.1.1.1 = sp_config sp.
Proof.
  intros [I F]. unfold Sync. destruct (all_targets tgs (sp_config sp)) as [ts|]; [|done]. cbn [mbind option_bind].
  set (sp0 := mkPool _ _ _ _ _). assert (I0 : in_sync sp0) by exact I.
  pose proof (sync_spec (List.filter is_active ts) sp0 I0) as S. pose proof (sync_add_current (List.filter is_active ts) sp0 ∅ F) as CF.
  assert (SUB : sp_loops (sync target_hash (List.filter is_active ts) sp0).1 ⊆ sp_loops (sync_add target_hash (List.filter is_active ts) sp0 ∅).1.1).
  { unfold sync. destruct (sync_add _ _ _ _) as [[sp1 u] evs]. cbn. apply map_subseteq_spec. intros h l. rewrite delete_list_lookup.
    by destruct (decide _). }
  destruct (sync target_hash _ sp0) as [sp' evs]. cbn [fst snd] in *. destruct S as (I' & C & _). intros [= <-]. cbn [fst].
  split; [|done]. split; [done|]. intros h l L. rewrite C. apply (CF h). by eapply lookup_weaken.
Qed.

Lemma reload_loops_current hs sp : 
  (forall h l, sp_loops sp !! h = Some l -> current (sp_config sp) l \/ h ∈ map fst hs) ->
  sp_config (reload_loops hs sp).1 = sp_config sp /\ map_Forall (fun _ l => current (sp_config sp) l) (sp_loops (reload_loops hs sp).1).
Proof.
  revert sp. induction hs as [|[h l] hs IH]; intros sp F; cbn [reload_loops].
  - split; [done|]. intros h l L. destruct (F h l L) as [|H]; [done|]. by apply elem_of_nil in H.
  - set (sp1 := mkPool _ _ _ _ _). destruct (IH sp1) as [C G].
    + cbn. intros h' l' L. destruct (decide (h = h')) as [<-|N].
      * left. rewrite lookup_insert_eq in L. injection L as <-. by repeat split.
      * rewrite lookup_insert_ne in L by done. destruct (F h' l' L) as [|[E|H]%elem_of_cons]; [by left|by cbn in E|by right].
    + by destruct (reload_loops hs sp1) as [sp2 evs].
Qed.

Lemma pool_reload_ok cfg sp : pool_ok sp -> pool_ok (pool_reload cfg sp).1 /\ sp_config (pool_reload cfg sp).1 = cfg.
Proof.
  intros [I F]. pose proof (pool_reload_in_sync cfg sp I) as I'. unfold pool_reload in *.
  destruct (reload_loops_current (map_order (sp_loops sp)) (mkPool cfg (sp_targets sp) (sp_dropped sp) (sp_loops sp) (sp_next sp))) as [C G].
  - cbn. intros h l L. right. apply list_elem_of_fmap. exists (h, l). split; [done|]. by apply elem_of_map_order.
  - split; [|done]. split; [done|]. by rewrite C.
Qed.

(** The managers reachable by applying configurations and target sets. *)
Inductive managed : Manager -> Prop :=
| managed_new : managed NewManager
| managed_config cfgs m : managed m -> managed (ApplyConfig cfgs m).1
| managed_reload t m m' : managed m -> reload target_hash t m = Some m' -> managed m'.

Definition pools_ok (m : Manager) : Prop :=
  forall name sp, m_scrapePools m !! name = Some sp -> pool_ok sp /\ m_scrapeConfigs m !! name = Some (sp_config sp).

Lemma reload_loop_ok tsets m active dropped r : pools_ok m -> reload_loop target_hash tsets m active dropped = Some r -> pools_ok r.1.1.
Proof.
  revert m active dropped. induction tsets as [|[name tgs] tsets IH]; intros m active dropped P; cbn [reload_loop]; [by intros [= <-]|].
  destruct (match m_scrapePools m !! name with Some sp => Some sp | None => newScrapePool <$> m_scrapeConfigs m !! name end) as [sp|] eqn:E; [|by apply IH].
  assert (OK : pool_ok sp /\ m_scrapeConfigs m !! name = Some (sp_config sp)).
  { destruct (m_scrapePools m !! name) as [sp'|] eqn:L; [injection E as <-; by apply P|].
    destruct (m_scrapeConfigs m !! name) as [cfg|]; [|done]. injection E as <-. split; [|done].
    split; [split; [done|apply map_Forall_empty]|apply map_Forall_empty]. }
  destruct (Sync target_hash tgs sp) as [[[[sp' a] d] evs]|] eqn:S; [|done]. cbn [mbind option_bind]. apply IH.
  destruct (Sync_ok tgs sp _ (proj1 OK) S) as [OK' C]. cbn [fst] in OK', C. intros n sp1. cbn [m_scrapePools m_scrapeConfigs].
  destruct (decide (name = n)) as [<-|N].
  - rewrite lookup_insert_eq. intros [= <-]. split; [done|]. rewrite C. apply OK.
  - rewrite lookup_insert_ne by done. apply P.
Qed.

(** Whatever configurations and target sets the manager is given, every
    scrape pool runs with the configuration now in force for its job, so do all
    its loops, and its targets and loops have the same set of hashes. *)
Theorem manager_current (m : Manager) (R : managed m) :
  forall name sp, m_scrapePools m !! name = Some sp ->
    m_scrapeConfigs m !! name = Some (sp_config sp) /\ dom (sp_targets sp) = dom (sp_loops sp) /\
    map_Forall (fun _ l => current (sp_config sp) l) (sp_loops sp).
Proof.
  cut (pools_ok m). { intros P name sp L. by destruct (P name sp L) as [[[D _] F] C]. }
  induction R as [|cfgs m R IH|t m m' R IH E].
  - intros name sp L. unfold NewManager in L. cbn [m_scrapePools] in L. by rewrite lookup_empty in L.
  - intros name sp. cbn. rewrite map_lookup_imap. destruct (m_scrapePools m !! name) as [sp0|] eqn:L0; [|done].
    cbn [mbind option_bind]. unfold apply_pool. destruct (foldl _ _ cfgs !! name) as [cfg|]; [|done].
    destruct (IH name sp0 L0) as [OK C]. case_bool_decide as B; cbn [fst].
    + intros [= <-]. by rewrite B.
    + destruct (pool_reload_ok cfg sp0 OK) as [OK' C']. destruct (pool_reload cfg sp0) as [sp1 evs]. intros [= <-]. cbn in *. by rewrite C'.
  - unfold reload in E. destruct (reload_loop target_hash (map_order t) m ∅ ∅) as [[[m1 a] d]|] eqn:RL; [|done].
    injection E as <-. apply reload_loop_ok in RL; [|done]. exact RL.
Qed.
End pool.

(** * The time of the first scrape *)

(** The wait of [Target.offset] is at most an interval, but the scrapes
    then fall on a time whose remainder by the interval is twice the starting
    time plus the hash: unlike the slot of a rule group it is not a property of
    the target, and changes when the server restarts. *)
Theorem target_offset_slot (now h : Z) (interval : Duration)
  (I : 0 < interval) (N : 0 <= now) (B : 2 * interval <= max_int64) :
  exists off, Target_offset now h interval = Some off /\ 0 <= off <= interval /\
    (now + off) mod interval = (2 * now + h) mod interval.
Proof.
  unfold Target_offset, max_int64 in *. rewrite (proj2 (Z.eqb_neq interval 0)) by lia. rewrite (Z.rem_mod_nonneg now interval) by lia.
  assert (U : u64 interval = interval) by (unfold u64; apply Z.mod_small; lia). rewrite U.
  pose proof (Z.mod_pos_bound now interval I). pose proof (Z.mod_pos_bound h interval I).
  rewrite (i64_id (h mod interval)), (i64_id (now mod interval + h mod interval)) by (unfold min_int64, max_int64; lia).
  assert (K : forall k, (now + (now mod interval + h mod interval - k * interval)) mod interval = (2 * now + h) mod interval).
  { intros k. replace (now + (now mod interval + h mod interval - k * interval)) with (now + (now mod interval + h mod interval) + (- k) * interval) by lia.
    rewrite Z.mod_add by lia. rewrite Z.add_mod, (Z.add_mod (now mod interval)), !Z.mod_mod by lia.
    rewrite <- (Z.add_mod now h), <- Z.add_mod by lia. f_equal. lia. }
  eexists. split; [reflexivity|]. destruct (Z.ltb_spec interval (now mod interval + h mod interval)).
  - rewrite i64_id by (unfold min_int64, max_int64; lia). split; [lia|]. rewrite <- (K 1). f_equal. lia.
  - split; [lia|]. rewrite <- (K 0). f_equal. lia.
Qed.

Lemma target_offset_slot_witness :
  exists off, Target_offset 70 55 60 = Some off /\ (70 + off) mod 60 = 15.
Proof.
  destruct (target_offset_slot 70 55 60) as (off & E & _ & M); [lia|lia|vm_compute; discriminate|].
  exists off. split; [exact E|]. rewrite M. reflexivity.
Defined.

(** * Concrete targets *)

#[local] Existing Instances literal_regexp literal_replace zero_md5 any_print tree_order.

#[export] Instance RelabelAction_eq_dec : EqDecision RelabelAction.
Proof. solve_decision. Defined.
#[local] Instance regexp_eq_dec : EqDecision (@regexp literal_regexp) := String.string_dec.
#[local] Instance RelabelConfig_eq_dec : EqDecision (@RelabelConfig literal_regexp).
Proof. solve_decision. Defined.
#[local] Instance ScrapeConfig_eq_dec : EqDecision (@ScrapeConfig literal_regexp).
Proof. solve_decision. Defined.

Definition node_config : ScrapeConfig := mkScrapeConfig literal_regexp "node" false {["m" := ["x"]]} Minute (10 * Second) "/metrics" "http" 0 [] [].
Definition node_labels : Labels := [mkLabel "__address__" "db:9100"; mkLabel "__meta_zone" "eu"; mkLabel "job" "node"].
Definition node_target : Target := NewTarget [mkLabel "__address__" "db:9100"; mkLabel "instance" "db:9100"; mkLabel "job" "node"] node_labels ∅.

Lemma mutateSampleLabels_spec_witness :
  exists m : gmap string string,
    mutateSampleLabels [mkLabel "__name__" "up"; mkLabel "job" "own"] node_target false [] = Some (Some (FromMap m)) /\
    m !! "job" = Some "node" /\ m !! "exported_job" = Some "own" /\ m !! "__address__" = None.
Proof.
  destruct (mutateSampleLabels_spec [mkLabel "__name__" "up"; mkLabel "job" "own"] node_target false []) as (m & E & L).
  - by repeat constructor.
  - by repeat constructor.
  - constructor.
  - by repeat constructor.
  - exists m. split; [exact E|]. rewrite !L. by vm_compute.
Defined.

Lemma populateLabels_spec_witness :
  exists r, populateLabels [mkLabel "__address__" "db"; mkLabel "__meta_zone" "eu"] node_config = Some (Ok r).
Proof.
  destruct (populateLabels_spec [mkLabel "__address__" "db"; mkLabel "__meta_zone" "eu"] node_config) as (r & E & _).
  - by repeat constructor.
  - constructor.
  - vm_compute in E. eexists. vm_compute. reflexivity.
Defined.

Definition label_lengths (ls : Labels) (params : gmap string (list string)) : Z :=
  foldl (fun n l => n + Z.of_nat (String.length (Labels.Value l))) 0 ls.
Definition node_groups : list TargetGroup :=
  [mkTargetGroup [{["__address__" := "a:1"]}; {["__address__" := "bbb:1"]}; {["__address__" := "a:1"]}] ∅ "file"].

Lemma Sync_matches_witness :
  exists ts sp' active evs, all_targets node_groups node_config = Some ts /\
    Sync label_lengths node_groups (newScrapePool node_config) = Some (sp', active, [], evs) /\ size (sp_loops sp') = 2%nat.
Proof.
  assert (T : exists ts, all_targets node_groups node_config = Some ts) by (eexists; vm_compute; reflexivity).
  destruct T as [ts T].
  destruct (Sync_matches label_lengths node_groups (newScrapePool node_config) ts) as (sp' & active & evs & S & _ & _ & D & _).
  - split; [done|apply map_Forall_empty].
  - exact T.
  - vm_compute in T. injection T as <-. eexists _, sp', active, evs. split; [vm_compute; reflexivity|].
    split; [exact S|]. rewrite <- size_dom, D. vm_compute. reflexivity.
Defined.

Lemma manager_current_witness :
  exists m, reload label_lengths {["node" := node_groups]} (ApplyConfig [node_config] NewManager).1 = Some m /\
    forall sp, m_scrapePools m !! "node" = Some sp -> m_scrapeConfigs m !! "node" = Some (sp_config sp).
Proof.
  assert (R : exists m, reload label_lengths {["node" := node_groups]} (ApplyConfig [node_config] NewManager).1 = Some m)
    by (eexists; vm_compute; reflexivity).
  destruct R as [m R]. exists m. split; [exact R|]. intros sp L.
  apply (manager_current label_lengths m) in L as [C _]; [exact C|].
  eapply managed_reload; [|exact R]. apply managed_config, managed_new.
Defined.
