(* ===== verification/Discovery.v ===== *)
(** discovery/manager.go: the manager of the discovery mechanisms.

    For each mechanism of a job the manager runs a goroutine that takes its
    updates and one that passes the groups of all jobs on, every five seconds
    when there are new ones.  The manager and its goroutines are a system of
    steps that interleave; a step is what happens between two points where a
    goroutine can wait for a lock or a channel. *)

From S2P Require Import Prelude GoString GoFmt Target.

(** * Providers *)

(** [StaticProvider] with what it has still to send, or another mechanism. *)
Inductive Discoverer (D : Type) := StaticProvider (TargetGroups : option (list TargetGroup)) | Mechanism (d : D).
Arguments StaticProvider {D} TargetGroups. Arguments Mechanism {D} d.

(** [ServiceDiscoveryConfig]: the mechanisms that the constructors of their
    packages make, some of which can fail. *)
Record ServiceDiscoveryConfig (D : Type) := mkSDConfig {
  DNSSDConfigs : list D; FileSDConfigs : list D;
  ConsulSDConfigs : list (result string D); MarathonSDConfigs : list (result string D); KubernetesSDConfigs : list (result string D);
  ServersetSDConfigs : list D; NerveSDConfigs : list D; EC2SDConfigs : list D; OpenstackSDConfigs : list (result string D);
  GCESDConfigs : list (result string D); AzureSDConfigs : list D; TritonSDConfigs : list (result string D);
  StaticConfigs : list TargetGroup
}.
Arguments mkSDConfig {D}. Arguments DNSSDConfigs {D} s. Arguments FileSDConfigs {D} s. Arguments ConsulSDConfigs {D} s.
Arguments MarathonSDConfigs {D} s. Arguments KubernetesSDConfigs {D} s. Arguments ServersetSDConfigs {D} s.
Arguments NerveSDConfigs {D} s. Arguments EC2SDConfigs {D} s. Arguments OpenstackSDConfigs {D} s. Arguments GCESDConfigs {D} s.
Arguments AzureSDConfigs {D} s. Arguments TritonSDConfigs {D} s. Arguments StaticConfigs {D} s.

(** The set's name and the provider's. *)
Notation poolKey := (string * string)%type (only parsing).
Notation target_map := (gmap poolKey (gmap string TargetGroup)) (only parsing).
Notation sync_map := (gmap string (list TargetGroup)) (only parsing).

#[export] Instance TargetGroup_eq_dec : EqDecision TargetGroup.
Proof. solve_decision. Defined.

Section manager.
Context {D : Type} `{MO : MapOrder}.

Local Notation providers_map := (gmap string (Discoverer D)).

(** [app] over the configurations of a mechanism; one that cannot be made is
    left out, and keeps its number. *)
Fixpoint app_ok (mech : string) (i : Z) (ds : list (result string D)) (providers : providers_map) : providers_map :=
  match ds with
  | [] => providers
  | d :: ds =>
    app_ok mech (i + 1) ds (match d with Ok d => <[mech +:+ "/" +:+ Itoa i := Mechanism d]> providers | Err _ => providers end)
  end.
Definition app_all (mech : string) (ds : list D) (providers : providers_map) : providers_map :=
  app_ok mech 0 (map Ok ds) providers.

(** [NewStaticProvider] numbers the groups. *)
Fixpoint number_groups (i : Z) (groups : list TargetGroup) : list TargetGroup :=
  match groups with
  | [] => []
  | tg :: groups => mkTargetGroup (tg_Targets tg) (tg_Labels tg) (Itoa i) :: number_groups (i + 1) groups
  end.
Definition NewStaticProvider (groups : list TargetGroup) : Discoverer D := StaticProvider (Some (number_groups 0 groups)).

Definition providersFromConfig (cfg : ServiceDiscoveryConfig D) : providers_map :=
  let providers := app_all "dns" (DNSSDConfigs cfg) ∅ in
  let providers := app_all "file" (FileSDConfigs cfg) providers in
  let providers := app_ok "consul" 0 (ConsulSDConfigs cfg) providers in
  let providers := app_ok "marathon" 0 (MarathonSDConfigs cfg) providers in
  let providers := app_ok "kubernetes" 0 (KubernetesSDConfigs cfg) providers in
  let providers := app_all "serverset" (ServersetSDConfigs cfg) providers in
  let providers := app_all "nerve" (NerveSDConfigs cfg) providers in
  let providers := app_all "ec2" (EC2SDConfigs cfg) providers in
  let providers := app_ok "openstack" 0 (OpenstackSDConfigs cfg) providers in
  let providers := app_ok "gce" 0 (GCESDConfigs cfg) providers in
  let providers := app_all "azure" (AzureSDConfigs cfg) providers in
  let providers := app_ok "triton" 0 (TritonSDConfigs cfg) providers in
  if (0 <? length (StaticConfigs cfg))%nat then <["static/0" := NewStaticProvider (StaticConfigs cfg)]> providers else providers.

(** * The manager *)

(** [runProvider]: waiting for an update; with one in hand, before
    [updateGroup]; before setting the flag; returned. *)
Inductive provider_phase := Waiting | Received (tgs : list (option TargetGroup)) | Updated | Returned.
Record provider := mkProvider { pr_key : poolKey; pr_worker : Discoverer D; pr_cancelled : bool; pr_phase : provider_phase }.

(** [runUpdater]: waiting for the ticker; sending a map, which it does while
    it holds the lock of the flag; returned. *)
Inductive updater_phase := Idle | Sending (ts : sync_map) | Stopped.
Record updater := mkUpdater { up_cancelled : bool; up_phase : updater_phase }.

(** [Manager]; [done] says that its context is cancelled, [synced] lists the
    maps that were received from [syncCh]. *)
Record Manager := mkManager {
  targets : target_map; recentlyUpdated : bool; providers : list provider; updaters : list updater; done : bool; synced : list sync_map
}.

Definition NewManager : Manager := mkManager ∅ false [] [] false [].

(** [updateGroup]; a nil group is skipped. *)
Definition update_one (key : poolKey) (targets : target_map) (tg : option TargetGroup) : target_map :=
  match tg with
  | None => targets
  | Some tg => <[key := <[Source tg := tg]> (default ∅ (targets !! key))]> targets
  end.
Definition updateGroup (key : poolKey) (tgs : list (option TargetGroup)) (targets : target_map) : target_map :=
  foldl (update_one key) targets tgs.

(** [allGroups] *)
Definition append_group (name : string) (tSets : sync_map) (kv : string * TargetGroup) : sync_map :=
  <[name := default [] (tSets !! name) ++ [kv.2]]> tSets.
Definition allGroups (targets : target_map) : sync_map :=
  foldl (fun tSets kt => foldl (append_group kt.1.1) tSets (map_order kt.2)) ∅ (map_order targets).

Definition cancel_provider (p : provider) : provider := mkProvider (pr_key p) (pr_worker p) true (pr_phase p).
Definition cancel_updater (u : updater) : updater := mkUpdater true (up_phase u).

(** [cancelDiscoverers] *)
Definition cancelDiscoverers (m : Manager) : Manager :=
  mkManager ∅ (recentlyUpdated m) (map cancel_provider (providers m)) (map cancel_updater (updaters m)) (done m) (synced m).

(** [startProvider] *)
Definition startProvider (m : Manager) (key : poolKey) (worker : Discoverer D) : Manager :=
  mkManager (targets m) (recentlyUpdated m) (providers m ++ [mkProvider key worker (done m) Waiting])
    (updaters m ++ [mkUpdater (done m) Idle]) (done m) (synced m).

Definition ApplyConfig (cfg : gmap string (ServiceDiscoveryConfig D)) (m : Manager) : Manager :=
  foldl (fun m ns => foldl (fun m pw => startProvider m (ns.1, pw.1) pw.2) m (map_order (providersFromConfig ns.2)))
    (cancelDiscoverers m) (map_order cfg).

(** * The steps *)

Inductive event :=
| Apply (cfg : gmap string (ServiceDiscoveryConfig D))
| ContextDone
| Receive (i : nat) (tgs : list (option TargetGroup))   (** [case tgs, ok := <-updates] *)
| Closed (i : nat)                                      (** the channel was closed *)
| ProviderDone (i : nat)
| Update (i : nat)                                      (** [m.updateGroup(poolKey, tgs)] *)
| SetFlag (i : nat)                                     (** [m.recentlyUpdated = true] under its lock *)
| Tick (j : nat)                                        (** the flag's lock is taken, the map made *)
| Sync (j : nat)                                        (** the map is received *)
| UpdaterDone (j : nat).

(** An updater that sends holds the lock of the flag. *)
Definition sending (u : updater) : bool := match up_phase u with Sending _ => true | _ => false end.
Definition flag_locked (m : Manager) : bool := existsb sending (updaters m).

Definition set_provider (i : nat) (p : provider) (m : Manager) : Manager :=
  mkManager (targets m) (recentlyUpdated m) (<[i := p]> (providers m)) (updaters m) (done m) (synced m).
Definition set_updater (j : nat) (ph : updater_phase) (m : Manager) : Manager :=
  mkManager (targets m) (recentlyUpdated m) (providers m)
    (alter (fun u => mkUpdater (up_cancelled u) ph) j (updaters m)) (done m) (synced m).
Definition with_phase (p : provider) (ph : provider_phase) : provider := mkProvider (pr_key p) (pr_worker p) (pr_cancelled p) ph.

(** Whether a worker can send [tgs], and the worker afterwards; a static
    provider sends its groups once and closes the channel. *)
Definition can_send (w : Discoverer D) (tgs : list (option TargetGroup)) : option (Discoverer D) :=
  match w with
  | Mechanism _ => Some w
  | StaticProvider (Some gs) => if bool_decide (tgs = map Some gs) then Some (StaticProvider None) else None
  | StaticProvider None => None
  end.

(** [None]: the step cannot happen in this state. *)
Definition step (ev : event) (m : Manager) : option Manager :=
  match ev with
  | Apply cfg => Some (ApplyConfig cfg m)
  | ContextDone =>
    Some (mkManager (targets m) (recentlyUpdated m) (map cancel_provider (providers m)) (map cancel_updater (updaters m)) true (synced m))
  | Receive i tgs =>
    p ← providers m !! i;
    match pr_phase p with
    | Waiting => w ← can_send (pr_worker p) tgs; Some (set_provider i (mkProvider (pr_key p) w (pr_cancelled p) (Received tgs)) m)
    | _ => None
    end
  | Closed i =>
    p ← providers m !! i;
    match pr_phase p, pr_worker p with
    | Waiting, StaticProvider (Some _) => if pr_cancelled p then Some (set_provider i (with_phase p Returned) m) else None
    | Waiting, _ => Some (set_provider i (with_phase p Returned) m)
    | _, _ => None
    end
  | ProviderDone i =>
    p ← providers m !! i;
    match pr_phase p with
    | Waiting => if pr_cancelled p then Some (set_provider i (with_phase p Returned) m) else None
    | _ => None
    end
  | Update i =>
    p ← providers m !! i;
    match pr_phase p with
    | Received tgs =>
      let m := set_provider i (with_phase p Updated) m in
      Some (mkManager (updateGroup (pr_key p) tgs (targets m)) (recentlyUpdated m) (providers m) (updaters m) (done m) (synced m))
    | _ => None
    end
  | SetFlag i =>
    p ← providers m !! i;
    match pr_phase p with
    | Updated =>
      if flag_locked m then None
      else let m := set_provider i (with_phase p Waiting) m in
           Some (mkManager (targets m) true (providers m) (updaters m) (done m) (synced m))
    | _ => None
    end
  | Tick j =>
    u ← updaters m !! j;
    match up_phase u with
    | Idle => if flag_locked m then None
              else if recentlyUpdated m then Some (set_updater j (Sending (allGroups (targets m))) m) else Some m
    | _ => None
    end
  | Sync j =>
    u ← updaters m !! j;
    match up_phase u with
    | Sending ts =>
      let m := set_updater j Idle m in
      Some (mkManager (targets m) false (providers m) (updaters m) (done m) (synced m ++ [ts]))
    | _ => None
    end
  | UpdaterDone j =>
    u ← updaters m !! j;
    match up_phase u with
    | Idle => if up_cancelled u then Some (set_updater j Stopped m) else None
    | _ => None
    end
  end.

Fixpoint run (evs : list event) (m : Manager) : option Manager :=
  match evs with
  | [] => Some m
  | ev :: evs => m ← step ev m; run evs m
  end.

(** ** The way to the scrape manager *)

(** main.go: the discovery configuration of each job. *)
Definition job_configs (scfgs : list (string * ServiceDiscoveryConfig D)) : gmap string (ServiceDiscoveryConfig D) :=
  foldl (fun c v => <[v.1 := v.2]> c) ∅ scfgs.
End manager.
