(* ===== verification/DiscoveryFacts.v ===== *)
(** What the discovery manager delivers: no update is lost between its
    goroutines, and what it delivers is the latest group of every source; where
    the groups of a removed mechanism come back, and a job keeps targets. *)

From S2P Require Import Prelude GoString GoFmt Labels Relabel Alerting Target ScrapePool Discovery.

Section discovery.
Context {D : Type} `{MO : MapOrder}.
Implicit Types m : @Manager D.

(** * Starting the providers *)

(** The providers of a configuration, with their keys. *)
Definition new_providers (cfg : gmap string (ServiceDiscoveryConfig D)) : list (poolKey * Discoverer D) :=
  concat (map (fun ns => map (fun pw => ((ns.1, pw.1), pw.2)) (map_order (providersFromConfig ns.2))) (map_order cfg)).

Definition start_all (kws : list (poolKey * Discoverer D)) m : Manager :=
  mkManager (targets m) (recentlyUpdated m)
    (providers m ++ map (fun kw => mkProvider kw.1 kw.2 (done m) Waiting) kws)
    (updaters m ++ map (fun _ => mkUpdater (done m) Idle) kws) (done m) (synced m).

Lemma start_all_nil m : start_all [] m = m.
Proof. destruct m. unfold start_all. cbn. by rewrite !app_nil_r. Qed.

Lemma start_all_app kws kws' m : start_all kws' (start_all kws m) = start_all (kws ++ kws') m.
Proof. unfold start_all. cbn. by rewrite !map_app, !app_assoc. Qed.

Lemma ApplyConfig_eq cfg m : ApplyConfig cfg m = start_all (new_providers cfg) (cancelDiscoverers m).
Proof.
  unfold ApplyConfig, new_providers. generalize (cancelDiscoverers m). generalize (map_order cfg) as nss.
  assert (G : forall n pws m, foldl (fun m (pw : string * Discoverer D) => startProvider m (n, pw.1) pw.2) m pws =
    start_all (map (fun pw => ((n, pw.1), pw.2)) pws) m).
  { intros n pws. induction pws as [|pw pws IH]; intros m0; cbn [foldl map]; [by rewrite start_all_nil|].
    rewrite IH. change (startProvider m0 (n, pw.1) pw.2) with (start_all [((n, pw.1), pw.2)] m0). by rewrite start_all_app. }
  induction nss as [|ns nss IH]; intros m0; cbn [foldl map concat]; [by rewrite start_all_nil|].
  by rewrite IH, G, start_all_app.
Qed.

Lemma NoDup_map_order_keys {A} (x : gmap string A) : NoDup (map fst (map_order x)).
Proof. rewrite (map_order_perm _ _ x). apply NoDup_fst_map_to_list. Qed.

Lemma new_providers_keys cfg : NoDup (map fst (new_providers cfg)).
Proof.
  unfold new_providers. rewrite concat_map, map_map. pose proof (NoDup_map_order_keys cfg) as N. revert N.
  generalize (map_order cfg) as nss. induction nss as [|[n sd] nss IH]; cbn [map concat fst snd]; [constructor|].
  intros [N1 N2]%NoDup_cons. apply NoDup_app. split; [|split; [|by apply IH]].
  - rewrite map_map. cbn. rewrite <- (map_map (fun pw : string * Discoverer D => pw.1) (fun x => (n, x))).
    apply (NoDup_fmap_2 (pair n)), NoDup_map_order_keys.
  - intros k I J. rewrite map_map in I. apply list_elem_of_fmap in I as (pw & -> & _).
    apply list_elem_of_In, in_concat in J as (l & Il & Ik). apply in_map_iff in Il as ([n' sd'] & <- & I').
    rewrite map_map in Ik. apply in_map_iff in Ik as (pw' & [= -> _] & _). apply N1, list_elem_of_In, in_map_iff. by exists (n, sd').
Qed.

(** * The lock and the flag *)

Definition is_updated (p : @provider D) : Prop := pr_phase p = Updated.

(** The updater that sends holds the lock; what was last received, or will be
    when a goroutine goes on, is what there is. *)
Record flag_inv m : Prop := {
  fi_lock j k u w : updaters m !! j = Some u -> updaters m !! k = Some w -> sending u = true -> sending w = true -> j = k;
  fi_flag u : u ∈ updaters m -> sending u = true -> recentlyUpdated m = true;
  fi_snap u ts : u ∈ updaters m -> up_phase u = Sending ts -> ts = allGroups (targets m) \/ targets m = ∅ \/ Exists is_updated (providers m);
  fi_sync : recentlyUpdated m = true \/ targets m = ∅ \/ Exists is_updated (providers m) \/ last (synced m) = Some (allGroups (targets m))
}.

Lemma flag_inv_new : flag_inv NewManager.
Proof. constructor; cbn; try done; try (intros u Hu; by apply elem_of_nil in Hu); try (intros u ts Hu; by apply elem_of_nil in Hu). by right; left. Qed.

Lemma flag_locked_false m u : flag_locked m = false -> u ∈ updaters m -> sending u = false.
Proof.
  intros F I. apply not_true_is_false. intros S. apply not_true_iff_false in F. apply F.
  apply existsb_exists. exists u. split; [by apply list_elem_of_In|done].
Qed.

Lemma sending_phase (u : updater) ts : up_phase u = Sending ts -> sending u = true.
Proof. intros E. unfold sending. by rewrite E. Qed.

(** Cancelling changes neither phases nor the order of the updaters. *)
Lemma cancelled_updaters us j u : (map cancel_updater us) !! j = Some u -> exists w, us !! j = Some w /\ up_phase u = up_phase w /\ sending u = sending w.
Proof. rewrite list_lookup_map. intros (w & -> & E)%fmap_Some. exists w. by subst. Qed.

Lemma flag_inv_start kws m : flag_inv m -> flag_inv (start_all kws m).
Proof.
  intros [L F S Y].
  assert (N : forall j u, updaters (start_all kws m) !! j = Some u -> sending u = true -> updaters m !! j = Some u).
  { intros j u. cbn. rewrite lookup_app. destruct (updaters m !! j); [done|]. intros E Su.
    apply list_elem_of_lookup_2, list_elem_of_fmap in E as (? & -> & _). done. }
  constructor; cbn.
  - intros j k u w Ej Ek Su Sw. by apply (L j k u w); try apply N.
  - intros u [j Ej]%list_elem_of_lookup Su. apply (F u); [|done]. eapply list_elem_of_lookup_2. by apply (N j).
  - intros u ts [j Ej]%list_elem_of_lookup E. pose proof (sending_phase _ _ E) as Su.
    destruct (S u ts (list_elem_of_lookup_2 _ _ _ (N j u Ej Su)) E) as [?|[?|X]]; [by left|by right; left|].
    right; right. apply Exists_app. by left.
  - destruct Y as [?|[?|[X|?]]]; [by left|by right; left| |by right; right; right]. right; right; left. apply Exists_app. by left.
Qed.

(** Cancelling the goroutines, with or without the targets. *)
Lemma flag_inv_cancel t d m : t = ∅ \/ t = targets m -> flag_inv m ->
  flag_inv (mkManager t (recentlyUpdated m) (map cancel_provider (providers m)) (map cancel_updater (updaters m)) d (synced m)).
Proof.
  intros T [L F S Y]. assert (X : Exists is_updated (providers m) -> Exists is_updated (map cancel_provider (providers m))).
  { intros E. apply Exists_exists in E as (p & I & U). apply Exists_exists. exists (cancel_provider p). split; [|done].
    by apply list_elem_of_fmap_2. }
  constructor; cbn.
  - intros j k u w Ej Ek Su Sw. apply cancelled_updaters in Ej as (u' & Ej & _ & E1), Ek as (w' & Ek & _ & E2).
    apply (L j k u' w'); congruence.
  - intros u [j Ej]%list_elem_of_lookup Su. apply cancelled_updaters in Ej as (u' & Ej & _ & E1).
    apply (F u'); [by eapply list_elem_of_lookup_2|congruence].
  - intros u ts [j Ej]%list_elem_of_lookup E. apply cancelled_updaters in Ej as (u' & Ej & E1 & _).
    destruct T as [->| ->]; [by right; left|]. rewrite E1 in E. destruct (S u' ts (list_elem_of_lookup_2 _ _ _ Ej) E) as [?|[?|?]]; auto.
  - destruct T as [->| ->]; [by right; left|]. destruct Y as [?|[?|[?|?]]]; auto.
Qed.

Lemma updated_insert i p p' ps : ps !! i = Some p -> ~ is_updated p -> Exists is_updated ps -> Exists is_updated (<[i := p']> ps).
Proof.
  intros E N X. apply Exists_exists in X as (q & [j Ej]%list_elem_of_lookup & U). apply Exists_exists. exists q. split; [|done].
  apply list_elem_of_lookup. exists j. rewrite list_lookup_insert_ne; [done|]. intros ->. congruence.
Qed.

Lemma flag_inv_provider i p p' m : providers m !! i = Some p -> ~ is_updated p -> flag_inv m -> flag_inv (set_provider i p' m).
Proof.
  intros E N [L F S Y]. pose proof (updated_insert i p p' _ E N) as X. constructor; cbn; [done|done| |].
  - intros u ts I P. destruct (S u ts I P) as [?|[?|?]]; auto.
  - destruct Y as [?|[?|[?|?]]]; auto.
Qed.

(** An updater goes from one phase to another that does not send. *)
Lemma altered_updaters (us : list updater) (j : nat) ph (k : nat) u : (forall ts, ph <> Sending ts) ->
  alter (fun u => mkUpdater (up_cancelled u) ph) j us !! k = Some u -> sending u = true -> us !! k = Some u /\ k <> j.
Proof.
  intros N E S. destruct (decide (j = k)) as [<-|J].
  - rewrite list_lookup_alter_eq in E. destruct (us !! j); [|done]. injection E as <-. unfold sending in S. cbn in S.
    destruct ph; try done. by edestruct N.
  - rewrite list_lookup_alter_ne in E by done. done.
Qed.

Lemma setflag_flag_inv i m m' : flag_inv m -> step (SetFlag i) m = Some m' -> flag_inv m'.
Proof.
  intros I E. cbn [step] in E. destruct (providers m !! i) as [p|] eqn:P; [|done]. cbn in E. destruct (pr_phase p) eqn:Ph; try done.
  destruct (flag_locked m) eqn:FL; [done|]. injection E as <-. destruct I as [L F S Y]. constructor; cbn; [done|done| |by left].
  intros u ts Iu Pu. pose proof (flag_locked_false m u FL Iu) as C. by rewrite (sending_phase u ts Pu) in C.
Qed.

Lemma tick_flag_inv j m m' : flag_inv m -> step (Tick j) m = Some m' -> flag_inv m'.
Proof.
  intros I E. cbn [step] in E. destruct (updaters m !! j) as [u|] eqn:U; [|done]. cbn in E. destruct (up_phase u) eqn:Ph; try done.
  destruct (flag_locked m) eqn:FL; [done|]. destruct (recentlyUpdated m) eqn:RU; [|by injection E as <-]. injection E as <-.
  assert (N : forall k w, updaters (set_updater j (Sending (allGroups (targets m))) m) !! k = Some w -> sending w = true ->
    k = j /\ up_phase w = Sending (allGroups (targets m))).
  { intros k w Ek Sw. cbn in Ek. destruct (decide (j = k)) as [<-|J].
    - rewrite list_lookup_alter_eq, U in Ek. cbn in Ek. by injection Ek as <-.
    - rewrite list_lookup_alter_ne in Ek by done. pose proof (flag_locked_false m w FL (list_elem_of_lookup_2 _ _ _ Ek)). congruence. }
  destruct I as [L F S Y]. constructor; [| | |by left].
  + intros k k' w w' Ek Ek' Sw Sw'. apply (N k w) in Sw as [-> _]; [|done]. by apply (N k' w') in Sw' as [-> _].
  + done.
  + intros w ts [k Ek]%list_elem_of_lookup Pw. apply (N k w) in Ek as [_ Q]; [|by apply (sending_phase w ts)]. left. cbn. congruence.
Qed.

Lemma sync_flag_inv j m m' : flag_inv m -> step (Sync j) m = Some m' -> flag_inv m'.
Proof.
  intros I E. cbn [step] in E. destruct (updaters m !! j) as [u|] eqn:U; [|done]. cbn in E. destruct (up_phase u) as [|ts|] eqn:Ph; try done. injection E as <-.
  destruct I as [L F S Y].
  assert (N : forall k w, alter (fun u => mkUpdater (up_cancelled u) Idle) j (updaters m) !! k = Some w -> sending w = true -> False).
  { intros k w Ek Sw. apply altered_updaters in Ek as [Ek J]; [|done..].
    apply J. apply (L k j w u); [done..|]. by apply (sending_phase u ts). }
  constructor; cbn.
  + intros k k' w w' Ek _ Sw _. by destruct (N k w).
  + intros w [k Ek]%list_elem_of_lookup Sw. by destruct (N k w).
  + intros w ts' [k Ek]%list_elem_of_lookup Pw. destruct (N k w Ek). by apply (sending_phase w ts').
  + right. destruct (S u ts (list_elem_of_lookup_2 _ _ _ U) Ph) as [->|[?|?]]; auto. right; right. apply last_snoc.
Qed.

Lemma updater_done_flag_inv j m m' : flag_inv m -> step (UpdaterDone j) m = Some m' -> flag_inv m'.
Proof.
  intros I E. cbn [step] in E. destruct (updaters m !! j) as [u|] eqn:U; [|done]. cbn in E. destruct (up_phase u) eqn:Ph; try done.
  destruct (up_cancelled u); [|done]. injection E as <-. destruct I as [L F S Y]. constructor; cbn; [| | |done].
  + intros k k' w w' Ek Ek' Sw Sw'. apply altered_updaters in Ek as [Ek _]; [|done..]. apply altered_updaters in Ek' as [Ek' _]; [|done..]. by apply (L k k' w w').
  + intros w [k Ek]%list_elem_of_lookup Sw. apply altered_updaters in Ek as [Ek _]; [|done..]. apply (F w); [by eapply list_elem_of_lookup_2|done].
  + intros w ts [k Ek]%list_elem_of_lookup Pw. apply altered_updaters in Ek as [Ek _]; [|done|by apply (sending_phase w ts)].
    apply (S w ts); [by eapply list_elem_of_lookup_2|done].
Qed.

Lemma step_flag_inv ev m m' : flag_inv m -> step ev m = Some m' -> flag_inv m'.
Proof.
  intros I E. destruct ev as [cfg| |i tgs|i|i|i|i|j|j|j]; [cbn [step] in E..| | | |].
  - injection E as <-. rewrite ApplyConfig_eq. apply flag_inv_start. apply flag_inv_cancel; [by left|done].
  - injection E as <-. apply flag_inv_cancel; [by right|done].
  - destruct (providers m !! i) as [p|] eqn:P; [|done]. cbn in E. destruct (pr_phase p) eqn:Ph; try done.
    destruct (can_send _ _); [|done]. injection E as <-. apply (flag_inv_provider i p); [done|by unfold is_updated; rewrite Ph|done].
  - destruct (providers m !! i) as [p|] eqn:P; [|done]. cbn in E.
    assert (m' = set_provider i (with_phase p Returned) m /\ pr_phase p = Waiting) as [-> Ph] by (repeat case_match; by simplify_eq).
    apply (flag_inv_provider i p); [done|by unfold is_updated; rewrite Ph|done].
  - destruct (providers m !! i) as [p|] eqn:P; [|done]. cbn in E. destruct (pr_phase p) eqn:Ph; try done.
    destruct (pr_cancelled p); [|done]. injection E as <-. apply (flag_inv_provider i p); [done|by unfold is_updated; rewrite Ph|done].
  - destruct (providers m !! i) as [p|] eqn:P; [|done]. cbn in E. destruct (pr_phase p) eqn:Ph; try done. injection E as <-.
    assert (X : Exists is_updated (<[i := with_phase p Updated]> (providers m))).
    { apply Exists_exists. exists (with_phase p Updated). split; [|done]. apply list_elem_of_lookup. exists i.
      apply list_lookup_insert_eq. by eapply lookup_lt_Some. }
    destruct I as [L F S Y]. constructor; cbn; auto.
  - by apply (setflag_flag_inv i m).
  - by apply (tick_flag_inv j m).
  - by apply (sync_flag_inv j m).
  - by apply (updater_done_flag_inv j m).
Qed.

(** * The latest groups *)

(** The groups that the [i]th provider has sent. *)
Definition received (i : nat) (evs : list (@event D)) : list (option TargetGroup) :=
  concat (map (fun ev => match ev with Receive k tgs => if (k =? i)%nat then tgs else [] | _ => [] end) evs).

(** The latest group of every source. *)
Definition keep_latest (l : gmap string TargetGroup) (tg : option TargetGroup) : gmap string TargetGroup :=
  match tg with Some g => <[Source g := g]> l | None => l end.
Definition latest (tgs : list (option TargetGroup)) : gmap string TargetGroup := foldl keep_latest ∅ tgs.

Definition view (t : target_map) (k : poolKey) : gmap string TargetGroup := default ∅ (t !! k).

Lemma updateGroup_view key tgs t k :
  view (updateGroup key tgs t) k = if decide (k = key) then foldl keep_latest (view t key) tgs else view t k.
Proof.
  revert t. induction tgs as [|tg tgs IH]; intros t; cbn [updateGroup foldl]; [case_decide; by subst|].
  unfold updateGroup in IH. rewrite IH. destruct tg as [g|]; [|done]. unfold view. cbn [update_one].
  case_decide as K; [by rewrite lookup_insert_eq|]. by rewrite lookup_insert_ne.
Qed.

(** A provider's groups, in the slices in which they were sent. *)
Definition receive (V : gmap string TargetGroup) (gs : list TargetGroup) : gmap string TargetGroup := foldl keep_latest V (map Some gs).
Definition receive_all (V : gmap string TargetGroup) (sent : list (list TargetGroup)) : gmap string TargetGroup := foldl receive V sent.

Lemma receive_all_concat sent : forall V, receive_all V sent = receive V (concat sent).
Proof. unfold receive_all, receive. induction sent as [|gs sent IH]; intros V; [done|]. cbn. by rewrite IH, map_app, foldl_app. Qed.

Lemma view_sent key sent : view (updateGroup key (map Some (concat sent)) ∅) key = receive_all ∅ sent.
Proof. rewrite updateGroup_view, decide_True by done. unfold view. rewrite lookup_empty. by rewrite receive_all_concat. Qed.

(** Of several groups with a source that are the same, the last is one of them. *)
Lemma receive_one V gs s x : (forall g, g ∈ gs -> Source g = s -> g = x) ->
  receive V gs !! s = if existsb (fun g => (Source g =? s)%string) gs then Some x else V !! s.
Proof.
  revert V. induction gs as [|g gs IH]; intros V U; [done|]. change (receive V (g :: gs)) with (receive (<[Source g := g]> V) gs).
  rewrite IH by (intros h I; apply U; by right). cbn [existsb]. destruct (existsb _ gs); [by rewrite orb_true_r|]. rewrite orb_false_r.
  destruct (String.eqb_spec (Source g) s) as [E|E]; [|by rewrite lookup_insert_ne]. rewrite E, lookup_insert_eq. f_equal. by apply U; [left|].
Qed.

(** Every set of groups in [t] has one, and belongs to one of [ks]. *)
Definition filled (ks : list poolKey) (t : target_map) : Prop := forall k v, t !! k = Some v -> v <> ∅ /\ k ∈ ks.

Lemma updateGroup_filled ks key tgs t : key ∈ ks -> filled ks t -> filled ks (updateGroup key tgs t).
Proof.
  intros K. revert t. induction tgs as [|tg tgs IH]; intros t F; [done|]. apply IH. destruct tg as [g|]; [|done].
  intros k v. cbn [update_one]. destruct (decide (key = k)) as [<-|N].
  - rewrite lookup_insert_eq. intros [= <-]. split; [|done]. intros E. apply (f_equal (.!! Source g)) in E. by rewrite lookup_insert_eq in E.
  - rewrite lookup_insert_ne by done. apply F.
Qed.

Definition pending_groups (p : @provider D) : list (option TargetGroup) := match pr_phase p with Received tgs => tgs | _ => [] end.

(** The providers behind the first [n], which have returned, have the keys
    [ks]; what they sent in [evs] is in the map, but for what they hold. *)
Record map_inv (n : nat) (ks : list poolKey) (evs : list (@event D)) m : Prop := {
  mi_length : length (providers m) = (n + length ks)%nat;
  mi_old i p : providers m !! i = Some p -> (i < n)%nat -> pr_phase p = Returned;
  mi_view i k p : ks !! i = Some k -> providers m !! (n + i)%nat = Some p -> pr_key p = k /\
    exists applied, view (targets m) k = latest applied /\ received (n + i) evs = applied ++ pending_groups p;
  mi_filled : filled ks (targets m)
}.

Lemma received_snoc i evs ev : received i (evs ++ [ev]) = received i evs ++ received i [ev].
Proof. unfold received. by rewrite map_app, concat_app. Qed.

Lemma received_other i ev : (forall tgs, ev <> Receive i tgs) -> received i [ev] = [].
Proof.
  intros N. unfold received. cbn. destruct ev as [| |k tgs| | | | | | |]; try done. destruct (Nat.eqb_spec k i) as [->|]; [by destruct (N tgs)|done].
Qed.

(** A step that leaves the map as it is, and changes at most the provider [i]. *)
Lemma map_inv_phase n ks evs ev m m' i p p' : map_inv n ks evs m ->
  providers m !! i = Some p -> pr_phase p <> Returned -> providers m' = <[i := p']> (providers m) -> targets m' = targets m ->
  pr_key p' = pr_key p -> pending_groups p' = pending_groups p ++ received i [ev] -> (forall k, k <> i -> received k [ev] = []) ->
  map_inv n ks (evs ++ [ev]) m'.
Proof.
  intros [L O V F] P NR EP ET EK EQ EO. constructor; rewrite ?EP, ?ET.
  - by rewrite length_insert.
  - intros k q Ek Lk. destruct (decide (i = k)) as [<-|N]; [|rewrite list_lookup_insert_ne in Ek by done; by apply (O k)].
    destruct NR. by apply (O i p).
  - intros j k q Ej Eq. destruct (decide (i = n + j)%nat) as [->|N].
    + rewrite list_lookup_insert_eq in Eq by (by eapply lookup_lt_Some). injection Eq as <-. rewrite EK, EQ.
      destruct (V j k p Ej P) as (K & a & VA & R). split; [done|]. exists a. split; [done|]. by rewrite received_snoc, R, app_assoc.
    + rewrite list_lookup_insert_ne in Eq by done. destruct (V j k q Ej Eq) as (K & a & VA & R). split; [done|]. exists a.
      split; [done|]. by rewrite received_snoc, EO, app_nil_r.
  - done.
Qed.

Lemma map_inv_same n ks evs ev m m' : map_inv n ks evs m -> (forall k, received k [ev] = []) ->
  targets m' = targets m -> (exists f, providers m' = map f (providers m) /\ forall p, pr_phase (f p) = pr_phase p /\ pr_key (f p) = pr_key p) ->
  map_inv n ks (evs ++ [ev]) m'.
Proof.
  intros [L O V F] EO ET (f & EP & Hf).
  assert (LK : forall i q, providers m' !! i = Some q -> exists p, providers m !! i = Some p /\ q = f p).
  { intros i q. rewrite EP, list_lookup_map. intros (p & -> & E)%fmap_Some. by exists p. }
  constructor; rewrite ?ET; [|..|done].
  - by rewrite EP, length_map.
  - intros i q (p & E & ->)%LK Li. rewrite (proj1 (Hf p)). by apply (O i).
  - intros j k q Ej (p & E & ->)%LK. destruct (V j k p Ej E) as (K & a & VA & R). rewrite (proj2 (Hf p)). split; [done|]. exists a.
    split; [done|]. rewrite received_snoc, EO, app_nil_r. unfold pending_groups in *. by rewrite (proj1 (Hf p)).
Qed.

Lemma update_map_inv n ks evs i m m' : NoDup ks -> map_inv n ks evs m -> step (Update i) m = Some m' -> map_inv n ks (evs ++ [Update i]) m'.
Proof.
  intros ND [L O V F] E. cbn [step] in E. destruct (providers m !! i) as [p|] eqn:P; [|done]. cbn in E.
  destruct (pr_phase p) as [|tgs| |] eqn:Ph; try done. injection E as <-.
  assert (I : (n <= i)%nat) by (destruct (Nat.lt_ge_cases i n) as [C|]; [|done]; specialize (O i p P C); congruence).
  assert (B : (i < length (providers m))%nat) by (by eapply lookup_lt_Some).
  destruct (lookup_lt_is_Some_2 ks (i - n)) as [key Ekey]; [lia|].
  replace i with (n + (i - n))%nat in P by lia. destruct (V (i - n)%nat key p Ekey P) as (K & a & VA & R).
  assert (RO : forall k, received k [Update i] = []) by done.
  constructor; cbn.
  - by rewrite length_insert.
  - intros k q Ek Lk. rewrite list_lookup_insert_ne in Ek by lia. by apply (O k).
  - intros j k q Ej Eq. rewrite updateGroup_view, K. rewrite received_snoc, RO, app_nil_r. case_decide as D'.
    + subst k. assert (j = (i - n)%nat) as -> by (by apply (NoDup_lookup ks j (i - n) key)).
      replace (n + (i - n))%nat with i in * by lia. rewrite list_lookup_insert_eq in Eq by done. injection Eq as <-.
      split; [done|]. exists (a ++ tgs). rewrite VA. unfold latest. rewrite foldl_app. split; [done|].
      unfold pending_groups in *. rewrite Ph in R. cbn. by rewrite app_nil_r.
    + assert (i <> n + j)%nat by (intros ->; replace (n + j - n)%nat with j in Ekey by lia; congruence).
      rewrite list_lookup_insert_ne in Eq by done. destruct (V j k q Ej Eq) as (Kq & b & VB & RB). split; [done|]. by exists b.
  - rewrite K. apply updateGroup_filled; [by eapply list_elem_of_lookup_2|done].
Qed.

Lemma step_map_inv n ks evs ev m m' : NoDup ks -> (forall cfg, ev <> Apply cfg) -> map_inv n ks evs m -> step ev m = Some m' ->
  map_inv n ks (evs ++ [ev]) m'.
Proof.
  intros ND NA I E. assert (SAME : forall m', targets m' = targets m -> providers m' = providers m -> (forall k, received k [ev] = []) -> map_inv n ks (evs ++ [ev]) m').
  { intros m1 ET EP EO. apply (map_inv_same n ks evs ev m m1); [done..|]. exists id. by rewrite map_id. }
  destruct ev as [cfg| |i tgs|i|i|i|i|j|j|j]; [by destruct (NA cfg)| | | | | | | | |].
  - injection E as <-. apply (map_inv_same n ks evs _ m); [done..|]. by exists cancel_provider.
  - cbn [step] in E. destruct (providers m !! i) as [p|] eqn:P; [|done]. cbn in E. destruct (pr_phase p) eqn:Ph; try done.
    destruct (can_send _ _) as [w|]; [|done]. injection E as <-.
    apply (map_inv_phase n ks evs _ m _ i p (mkProvider (pr_key p) w (pr_cancelled p) (Received tgs))); try done; [congruence| |].
    + unfold pending_groups, received. cbn. rewrite Ph, Nat.eqb_refl. by rewrite app_nil_r.
    + intros k N. apply received_other. by intros tgs' [= -> _].
  - cbn [step] in E. destruct (providers m !! i) as [p|] eqn:P; [|done]. cbn in E.
    assert (m' = set_provider i (with_phase p Returned) m /\ pr_phase p = Waiting) as [-> Ph] by (repeat case_match; by simplify_eq).
    apply (map_inv_phase n ks evs _ m _ i p (with_phase p Returned)); try done; [congruence|]. unfold pending_groups. by rewrite Ph.
  - cbn [step] in E. destruct (providers m !! i) as [p|] eqn:P; [|done]. cbn in E. destruct (pr_phase p) eqn:Ph; try done.
    destruct (pr_cancelled p); [|done]. injection E as <-.
    apply (map_inv_phase n ks evs _ m _ i p (with_phase p Returned)); try done; [congruence|]. unfold pending_groups. by rewrite Ph.
  - by apply (update_map_inv n ks evs i m).
  - cbn [step] in E. destruct (providers m !! i) as [p|] eqn:P; [|done]. cbn in E. destruct (pr_phase p) eqn:Ph; try done.
    destruct (flag_locked m); [done|]. injection E as <-.
    apply (map_inv_phase n ks evs _ m _ i p (with_phase p Waiting)); try done; [congruence|]. unfold pending_groups. by rewrite Ph.
  - apply SAME; [| |done]; cbn [step] in E; destruct (updaters m !! j); try done; cbn in E; repeat case_match; by simplify_eq.
  - apply SAME; [| |done]; cbn [step] in E; destruct (updaters m !! j); try done; cbn in E; repeat case_match; by simplify_eq.
  - apply SAME; [| |done]; cbn [step] in E; destruct (updaters m !! j); try done; cbn in E; repeat case_match; by simplify_eq.
Qed.

Lemma run_snoc evs ev m : run (evs ++ [ev]) m = m ← run evs m; step ev m.
Proof.
  revert m. induction evs as [|e evs IH]; intros m; cbn; [by destruct (step ev m)|]. destruct (step e m); cbn; [apply IH|done].
Qed.

Definition no_apply (evs : list (@event D)) : Prop := forall cfg, Apply cfg ∉ evs.

Lemma run_map_inv n ks evs m m' : NoDup ks -> no_apply evs -> map_inv n ks [] m -> run evs m = Some m' -> map_inv n ks evs m'.
Proof.
  intros ND. revert m'. induction evs as [|ev evs IH] using rev_ind; intros m' NA I E; [by injection E as <-|].
  rewrite run_snoc in E. destruct (run evs m) as [m1|]; [|done]. cbn in E.
  apply (step_map_inv n ks evs ev m1); [done| | |done].
  - intros cfg ->. apply (NA cfg), elem_of_app. right. apply list_elem_of_here.
  - apply IH; [|done..]. intros cfg C. apply (NA cfg), elem_of_app. by left.
Qed.

Lemma run_flag_inv evs m m' : flag_inv m -> run evs m = Some m' -> flag_inv m'.
Proof.
  revert m. induction evs as [|ev evs IH]; intros m I E; [by injection E as <-|]. cbn in E.
  destruct (step ev m) as [m1|] eqn:S; [|done]. apply (IH m1); [by apply (step_flag_inv ev m)|done].
Qed.

(** * The map for the receiver *)

Definition values (v : gmap string TargetGroup) : list TargetGroup := map snd (map_order v).

Definition groups_of (job : string) (kvs : list (poolKey * gmap string TargetGroup)) : list TargetGroup :=
  concat (map (fun kv => if decide (kv.1.1 = job) then values kv.2 else []) kvs).

Lemma append_groups_lookup name kvs (ts : sync_map) (job : string) :
  foldl (append_group name) ts kvs !! job =
  if decide (job = name /\ kvs <> []) then Some (default [] (ts !! job) ++ map snd kvs) else ts !! job.
Proof.
  revert ts. induction kvs as [|kv kvs IH]; intros ts; cbn [foldl]; [case_decide; naive_solver|].
  rewrite IH. unfold append_group. destruct (decide (job = name)) as [->|N].
  - rewrite lookup_insert_eq. rewrite (decide_True (P := name = name /\ kv :: kvs <> [])) by done.
    case_decide as K; cbn; [by rewrite <- app_assoc|]. destruct kvs; [done|naive_solver].
  - rewrite lookup_insert_ne by done. rewrite !decide_False by naive_solver. done.
Qed.

Lemma allGroups_from kts (ts : sync_map) job :
  Forall (fun kt => kt.2 <> ∅) kts ->
  foldl (fun ts (kt : poolKey * gmap string TargetGroup) => foldl (append_group kt.1.1) ts (map_order kt.2)) ts kts !! job =
  match groups_of job kts with [] => ts !! job | gs => Some (default [] (ts !! job) ++ gs) end.
Proof.
  intros NE. revert ts. induction NE as [|kt kts N NE IH]; intros ts; [done|]. cbn [foldl]. rewrite IH, append_groups_lookup.
  assert (MO1 : map_order kt.2 <> []).
  { intros E. apply N. apply map_to_list_empty_iff. pose proof (map_order_perm _ _ kt.2) as P. rewrite E in P. by apply Permutation_nil in P. }
  unfold groups_of. cbn [map concat]. destruct (decide (kt.1.1 = job)) as [K|K].
  - rewrite decide_True by done. unfold values. destruct (map_order kt.2) as [|x xs] eqn:EX; [done|]. cbn [map app].
    destruct (concat _) eqn:EC; cbn; [by rewrite app_nil_r|]. by rewrite <- app_assoc.
  - rewrite decide_False by naive_solver. done.
Qed.

(** [allGroups]: the groups of a set, of all its providers; no entry for a set
    without any. *)
Lemma allGroups_lookup ks t job : filled ks t ->
  allGroups t !! job = match groups_of job (map_order t) with [] => None | gs => Some gs end.
Proof.
  intros F. unfold allGroups. rewrite allGroups_from; [by rewrite lookup_empty|].
  apply Forall_forall. intros [k v] I. apply elem_of_map_order in I. by apply (F k).
Qed.

Lemma groups_of_perm job kvs kvs' : kvs ≡ₚ kvs' -> groups_of job kvs ≡ₚ groups_of job kvs'.
Proof. intros P. unfold groups_of. by rewrite P. Qed.

(** The providers that have sent nothing add nothing. *)
Lemma groups_of_filled (job : string) (ks : list (string * string)) (t : target_map) : NoDup ks -> filled ks t ->
  groups_of job (map_order t) ≡ₚ groups_of job (map (fun k => (k, view t k)) ks).
Proof.
  intros ND F.
  assert (E : groups_of job (map (fun k => (k, view t k)) ks) = groups_of job (map (fun k => (k, view t k)) (base.filter (fun k => is_Some (t !! k)) ks))).
  { clear -MO. unfold groups_of. induction ks as [|k ks IH]; [done|]. rewrite filter_cons. destruct (decide (is_Some (t !! k))) as [S|S]; cbn [map concat]; [by rewrite IH|].
    rewrite IH. cbn [fst snd]. case_decide; [|done]. unfold view. destruct (t !! k); [destruct S; by eexists|].
    cbn. unfold values. assert (map_order (∅ : gmap string TargetGroup) = []) as ->; [|done].
    apply Permutation_nil. by rewrite map_order_perm, map_to_list_empty. }
  rewrite E. apply groups_of_perm. rewrite map_order_perm. apply NoDup_Permutation.
  - apply NoDup_map_to_list.
  - apply (NoDup_fmap_1 fst). change (NoDup (map fst (map (fun k => (k, view t k)) (base.filter (fun k => is_Some (t !! k)) ks)))).
    rewrite map_map. cbn. rewrite map_id. by apply NoDup_filter.
  - intros [k v]. rewrite elem_of_map_to_list, list_elem_of_map. split.
    + intros L. exists k. unfold view. rewrite L. split; [done|]. rewrite list_elem_of_filter. split; [done|]. by destruct (F k v L).
    + intros (k' & [= -> ->] & [[w Lw] _]%list_elem_of_filter). unfold view. by rewrite Lw.
Qed.

(** * Delivery *)

Lemma start_map_inv cfg m : Forall (fun p => pr_phase p = Returned) (providers m) ->
  map_inv (length (providers m)) (map fst (new_providers cfg)) [] (ApplyConfig cfg m).
Proof.
  intros R. rewrite ApplyConfig_eq. constructor; cbn.
  - by rewrite length_app, !length_map.
  - intros i p E L. rewrite lookup_app_l in E by (by rewrite length_map). apply list_elem_of_lookup_2, list_elem_of_fmap in E as (q & -> & I).
    rewrite Forall_forall in R. exact (R q I).
  - intros i k p Ek Ep. rewrite lookup_app_r in Ep by (rewrite length_map; lia). rewrite length_map, Nat.add_comm, Nat.add_sub in Ep.
    rewrite list_lookup_map in Ek. rewrite list_lookup_map in Ep. destruct (new_providers cfg !! i) as [kw|]; [|done].
    injection Ek as <-. injection Ep as <-. split; [done|]. exists []. split; [unfold view; by rewrite lookup_empty|done].
  - intros k v E. by rewrite lookup_empty in E.
Qed.

(** C15: nothing is lost between the goroutines of the discovery manager. When
    the providers of a configuration have been started, those of earlier ones
    having returned, then, however the goroutines interleave, once all of them
    wait and the flag is down, the map that was last received on [syncCh] has for
    every job exactly the latest group of each source of each of its
    providers; if there is no such map then no provider has sent a group. *)
Theorem discovery_delivers (past evs : list event) (m0 m : Manager) (cfg : gmap string (ServiceDiscoveryConfig D))
  (R0 : run past NewManager = Some m0) (S0 : Forall (fun p => pr_phase p = Returned) (providers m0))
  (R : run (Apply cfg :: evs) m0 = Some m) (NA : no_apply evs) (Q : recentlyUpdated m = false)
  (QP : Forall (fun p => pr_phase p = Waiting \/ pr_phase p = Returned) (providers m)) :
  let sent i := latest (received (length (providers m0) + i) evs) in
  (forall i, (i < length (new_providers cfg))%nat -> sent i = ∅) \/
  exists ts, last (synced m) = Some ts /\ forall job,
    default [] (ts !! job) ≡ₚ concat (imap (fun i kw => if decide (kw.1.1 = job) then values (sent i) else []) (new_providers cfg)).
Proof.
  intros sent. cbn [run step] in R. set (m1 := ApplyConfig cfg m0) in R. cbn in R. set (ks := map fst (new_providers cfg)).
  assert (ND : NoDup ks) by apply new_providers_keys.
  pose proof (run_map_inv _ ks evs m1 m ND NA (start_map_inv cfg m0 S0) R) as [L O V F].
  assert (FI : flag_inv m).
  { apply (run_flag_inv (past ++ Apply cfg :: evs) NewManager); [apply flag_inv_new|].
    clear -R R0. revert R0. generalize (@NewManager D). induction past as [|ev past IH]; intros m2 R0; cbn in R0 |- *; [by injection R0 as ->|].
    destruct (step ev m2); [|done]. by apply IH. }
  assert (VW : forall i k, ks !! i = Some k -> view (targets m) k = sent i).
  { intros i k Ek. destruct (lookup_lt_is_Some_2 (providers m) (length (providers m0) + i)) as [p Ep].
    { rewrite L. apply lookup_lt_Some in Ek. lia. }
    destruct (V i k p Ek Ep) as (_ & a & -> & RC). unfold sent. rewrite RC. f_equal. rewrite Forall_forall in QP.
    specialize (QP p (list_elem_of_lookup_2 _ _ _ Ep)). unfold pending_groups. destruct QP as [-> | ->]; by rewrite app_nil_r. }
  destruct (fi_sync m FI) as [C|[T|[X|Y]]]; [congruence| | |].
  - left. intros i Li. destruct (lookup_lt_is_Some_2 ks i) as [k Ek]; [by unfold ks; rewrite length_map|].
    rewrite <- (VW i k Ek), T. unfold view. by rewrite lookup_empty.
  - exfalso. apply Exists_exists in X as (p & I & U). rewrite Forall_forall in QP. unfold is_updated in U. destruct (QP p I); congruence.
  - right. exists (allGroups (targets m)). split; [done|]. intros job. rewrite (allGroups_lookup ks) by done.
    transitivity (groups_of job (map_order (targets m))); [by destruct (groups_of _ _)|].
    rewrite (groups_of_filled job ks) by done. unfold groups_of. apply Permutation_refl'. f_equal. apply list_eq. intros i.
    specialize (VW i). unfold ks in VW |- *. rewrite !map_map, list_lookup_imap.
    rewrite list_lookup_map. rewrite list_lookup_map in VW.
    destruct (new_providers cfg !! i) as [kw|]; [|done]. cbn in VW |- *. by rewrite (VW _ eq_refl).
Qed.

(** * A job without providers *)

(** Nothing of the job is on its way: its providers have returned, and
    neither the groups nor the maps being sent hold any of it. *)
Record silent (job : string) m : Prop := {
  si_providers : Forall (fun p => (pr_key p).1 = job -> pr_phase p = Returned) (providers m);
  si_targets k : k.1 = job -> targets m !! k = None;
  si_sending : Forall (fun u => forall ts, up_phase u = Sending ts -> ts !! job = None) (updaters m)
}.

Lemma allGroups_silent (job : string) (t : target_map) : (forall k, k.1 = job -> t !! k = None) -> allGroups t !! job = None.
Proof.
  intros N. unfold allGroups. assert (G : forall kts (ts : sync_map), Forall (fun kt => kt.1.1 <> job) kts -> ts !! job = None ->
    foldl (fun ts (kt : poolKey * gmap string TargetGroup) => foldl (append_group kt.1.1) ts (map_order kt.2)) ts kts !! job = None).
  { intros kts ts F. revert ts. induction F as [|kt kts K F IH]; intros ts E; [done|]. cbn [foldl]. apply IH.
    rewrite append_groups_lookup, decide_False by naive_solver. done. }
  apply G; [|by rewrite lookup_empty]. apply Forall_forall. intros [k v] I K. apply elem_of_map_order in I. by rewrite (N k K) in I.
Qed.

Lemma updateGroup_other (key : string * string) (tgs : list (option TargetGroup)) (t : target_map) (k : string * string) : k <> key -> updateGroup key tgs t !! k = t !! k.
Proof.
  intros K. revert t. induction tgs as [|tg tgs IH]; intros t; [done|]. cbn [updateGroup foldl]. unfold updateGroup in IH. rewrite IH.
  destruct tg; [|done]. cbn [update_one]. by rewrite lookup_insert_ne.
Qed.

Lemma silent_provider job i p p' m : providers m !! i = Some p -> pr_phase p <> Returned -> pr_key p' = pr_key p ->
  silent job m -> silent job (set_provider i p' m) /\ (pr_key p).1 <> job.
Proof.
  intros E N K [P T U]. assert (J : (pr_key p).1 <> job) by (intros J; apply N, (Forall_lookup_1 _ _ _ _ P E J)).
  split; [|done]. constructor; [|done|done]. cbn. apply Forall_insert; [done|]. by rewrite K.
Qed.

Lemma silent_updater job j ph m : (forall ts, ph = Sending ts -> ts !! job = None) -> silent job m -> silent job (set_updater j ph m).
Proof.
  intros N [P T U]. constructor; [done|done|]. cbn. apply Forall_alter; [done|]. intros u _ _. done.
Qed.

(** A step keeps the job silent, and adds no map with it. *)
Lemma step_silent job ev m m' : (forall cfg, ev <> Apply cfg) -> silent job m -> step ev m = Some m' ->
  silent job m' /\ exists tss, synced m' = synced m ++ tss /\ Forall (fun ts => ts !! job = None) tss.
Proof.
  intros NA I E. assert (NIL : synced m = synced m ++ [] /\ Forall (fun ts : sync_map => ts !! job = None) []) by (rewrite app_nil_r; by split).
  destruct ev as [cfg| |i tgs|i|i|i|i|j|j|j]; [by destruct (NA cfg)|cbn [step] in E..].
  - injection E as <-. destruct I as [P T U]. split; [|by exists []].
    constructor; cbn; [apply Forall_map; eapply Forall_impl; [exact P|done]|done|apply Forall_map; eapply Forall_impl; [exact U|done]].
  - destruct (providers m !! i) as [p|] eqn:P; [|done]. cbn in E. destruct (pr_phase p) eqn:Ph; try done.
    destruct (can_send _ _); [|done]. injection E as <-. split; [|by exists []]. apply (silent_provider job i p); [done|congruence|done|done].
  - destruct (providers m !! i) as [p|] eqn:P; [|done]. cbn in E.
    assert (m' = set_provider i (with_phase p Returned) m /\ pr_phase p = Waiting) as [-> Ph] by (repeat case_match; by simplify_eq).
    split; [|by exists []]. apply (silent_provider job i p); [done|congruence|done|done].
  - destruct (providers m !! i) as [p|] eqn:P; [|done]. cbn in E. destruct (pr_phase p) eqn:Ph; try done.
    destruct (pr_cancelled p); [|done]. injection E as <-. split; [|by exists []]. apply (silent_provider job i p); [done|congruence|done|done].
  - destruct (providers m !! i) as [p|] eqn:P; [|done]. cbn in E. destruct (pr_phase p) eqn:Ph; try done. injection E as <-.
    destruct (silent_provider job i p (with_phase p Updated) m) as [[S1 S2 S3] J]; [done|congruence|done|done|]. split; [|by exists []].
    constructor; [done| |done]. intros k K. cbn. rewrite updateGroup_other by congruence. by apply S2.
  - destruct (providers m !! i) as [p|] eqn:P; [|done]. cbn in E. destruct (pr_phase p) eqn:Ph; try done. destruct (flag_locked m); [done|].
    injection E as <-. destruct (silent_provider job i p (with_phase p Waiting) m) as [[S1 S2 S3] J]; [done|congruence|done|done|].
    split; [by constructor|by exists []].
  - destruct (updaters m !! j) as [u|] eqn:U; [|done]. cbn in E. destruct (up_phase u); try done. destruct (flag_locked m); [done|].
    destruct (recentlyUpdated m); injection E as <-; (split; [|by exists []]); [|done]. apply silent_updater; [|done].
    intros ts [= <-]. apply allGroups_silent. by destruct I.
  - destruct (updaters m !! j) as [u|] eqn:U; [|done]. cbn in E. destruct (up_phase u) as [|ts|] eqn:Ph; try done. injection E as <-.
    destruct (silent_updater job j Idle m) as [S1 S2 S3]; [done|done|]. split; [by constructor|]. exists [ts]. split; [done|].
    constructor; [|constructor]. apply (Forall_lookup_1 _ _ _ _ (si_sending _ _ I) U ts Ph).
  - destruct (updaters m !! j) as [u|] eqn:U; [|done]. cbn in E. destruct (up_phase u); try done. destruct (up_cancelled u); [|done].
    injection E as <-. split; [by apply silent_updater|by exists []].
Qed.

Lemma run_silent job evs m m' : no_apply evs -> silent job m -> run evs m = Some m' ->
  exists tss, synced m' = synced m ++ tss /\ Forall (fun ts => ts !! job = None) tss.
Proof.
  revert m. induction evs as [|ev evs IH]; intros m NA I E; [injection E as ->; exists []; by rewrite app_nil_r|]. cbn in E.
  destruct (step ev m) as [m1|] eqn:S; [|done]. destruct (step_silent job ev m m1) as [I1 (ts1 & E1 & F1)]; [|done|done|].
  { intros cfg ->. apply (NA cfg), list_elem_of_here. }
  destruct (IH m1) as (ts2 & E2 & F2); [|done|done|].
  { intros cfg C. apply (NA cfg). by apply list_elem_of_further. }
  exists (ts1 ++ ts2). rewrite E2, E1, app_assoc. split; [done|]. by apply Forall_app.
Qed.

Lemma start_silent job cfg m : Forall (fun p => (pr_key p).1 = job -> pr_phase p = Returned) (providers m) ->
  Forall (fun u => forall ts, up_phase u = Sending ts -> ts !! job = None) (updaters m) ->
  (forall sd, cfg !! job = Some sd -> providersFromConfig sd = ∅) -> silent job (ApplyConfig cfg m).
Proof.
  intros P U E. rewrite ApplyConfig_eq. constructor; cbn.
  - apply Forall_app. split; [apply Forall_map; eapply Forall_impl; [exact P|done]|]. apply Forall_map, Forall_forall.
    intros kw I K. cbn in K. exfalso. unfold new_providers in I. apply list_elem_of_In, in_concat in I as (l & Il & I).
    apply in_map_iff in Il as ([n sd] & <- & In). apply list_elem_of_In, elem_of_map_order in In.
    apply in_map_iff in I as (pw & <- & I). cbn in *. subst n. rewrite (E sd In) in I.
    apply list_elem_of_In in I. destruct pw as [q w]. apply elem_of_map_order in I. by rewrite lookup_empty in I.
  - intros k _. apply lookup_empty.
  - apply Forall_app. split; [apply Forall_map; eapply Forall_impl; [exact U|done]|]. apply Forall_map, Forall_forall. by intros.
Qed.
End discovery.

(** * With the scrape manager *)

Section scraping.
Context {D : Type} `{RE : Regexp} `{RR : !RegexpReplace} `{HM : MD5} `{UT : UnicodeTables} `{MO : MapOrder} `{!EqDecision ScrapeConfig}.
Variable target_hash : Labels -> gmap string (list string) -> Z.

(** [scrape.Manager.Run] over the maps it receives. *)
Fixpoint reload_all (tss : list (gmap string (list TargetGroup))) (sm : ScrapePool.Manager) : option ScrapePool.Manager :=
  match tss with
  | [] => Some sm
  | ts :: tss => sm ← ScrapePool.reload target_hash ts sm; reload_all tss sm
  end.

Lemma reload_loop_other job tsets : forall sm a d r, job ∉ map fst tsets ->
  ScrapePool.reload_loop target_hash tsets sm a d = Some r -> m_scrapePools r.1.1 !! job = m_scrapePools sm !! job.
Proof.
  induction tsets as [|[name tgs] tsets IH]; intros sm a d r N E; cbn in N; [by injection E as <-|].
  apply not_elem_of_cons in N as [N1 N2]. cbn [ScrapePool.reload_loop] in E.
  destruct (match m_scrapePools sm !! name with Some sp => Some sp | None => newScrapePool <$> m_scrapeConfigs sm !! name end) as [sp|].
  - destruct (ScrapePool.Sync target_hash tgs sp) as [[[[sp' x] y] z]|]; [|done]. cbn in E. rewrite (IH _ _ _ _ N2 E). cbn. by rewrite lookup_insert_ne.
  - by apply (IH _ _ _ _ N2 E).
Qed.

Lemma reload_other job ts sm sm' : ts !! job = None -> ScrapePool.reload target_hash ts sm = Some sm' ->
  m_scrapePools sm' !! job = m_scrapePools sm !! job.
Proof.
  intros N E. unfold ScrapePool.reload in E. destruct (ScrapePool.reload_loop _ _ _ _ _) as [[[sm1 a] d]|] eqn:R; [|done].
  cbn in E. injection E as <-. cbn. apply (reload_loop_other job) in R; [done|]. intros I.
  apply list_elem_of_map in I as ([k v] & -> & I). apply elem_of_map_order in I. cbn in N. congruence.
Qed.

Lemma reload_all_other job tss : Forall (fun ts => ts !! job = None) tss -> forall sm sm', reload_all tss sm = Some sm' ->
  m_scrapePools sm' !! job = m_scrapePools sm !! job.
Proof.
  induction 1 as [|ts tss N F IH]; intros sm sm' E; [by injection E as <-|]. cbn in E.
  destruct (ScrapePool.reload _ _ _) as [sm1|] eqn:R; [|done]. cbn in E. by rewrite (IH _ _ E), (reload_other job ts sm sm1).
Qed.

(** C37: a job whose new discovery configuration has no provider goes on
    scraping its old targets, if at that [ApplyConfig] all the job's providers
    so far have returned, and no updater is in the middle of sending a map that
    has the job: until the next [ApplyConfig], whatever the goroutines do, no
    map that the scrape manager receives has the job, and none of these maps
    changes the job's scrape pool. *)
Theorem emptied_job_keeps_targets (job : string) (cfg : gmap string (ServiceDiscoveryConfig D)) (evs : list event) (m m' : Discovery.Manager)
  (P : Forall (fun p => (pr_key p).1 = job -> pr_phase p = Returned) (providers m))
  (U : Forall (fun u => forall ts, up_phase u = Sending ts -> ts !! job = None) (updaters m))
  (E : forall sd, cfg !! job = Some sd -> providersFromConfig sd = ∅)
  (NA : no_apply evs) (R : run (Apply cfg :: evs) m = Some m') :
  exists tss, synced m' = synced m ++ tss /\ Forall (fun ts => ts !! job = None) tss /\
    forall sm sm', reload_all tss sm = Some sm' -> m_scrapePools sm' !! job = m_scrapePools sm !! job.
Proof.
  cbn [run step] in R. cbn in R. destruct (run_silent job evs (Discovery.ApplyConfig cfg m) m') as (tss & ES & F); [done|by apply start_silent|done|].
  exists tss. split; [|split; [done|by apply reload_all_other]].
  rewrite ES. f_equal. by rewrite ApplyConfig_eq.
Qed.
End scraping.

(** * Stale groups *)

Section stale.
Context {D : Type} `{MO : MapOrder}.

Lemma latest_nonempty tgs g : Some g ∈ tgs -> latest tgs <> ∅.
Proof.
  assert (K : forall ts l, l <> ∅ -> foldl keep_latest l ts <> ∅).
  { induction ts as [|tg ts IH]; intros l N; [done|]. apply IH. destruct tg; [apply insert_non_empty|done]. }
  intros G. unfold latest. apply list_elem_of_split in G as (a & b & ->). rewrite foldl_app. cbn. apply K, insert_non_empty.
Qed.

(** What a step does to the groups, to the maps that are being sent and to
    those that were received. *)
Lemma step_maps ev (m m' : @Manager D) : (forall cfg, ev <> Apply cfg) -> step ev m = Some m' ->
  (targets m' = targets m \/ exists key tgs, targets m' = updateGroup key tgs (targets m)) /\
  (forall u ts, u ∈ updaters m' -> up_phase u = Sending ts -> ts = allGroups (targets m) \/ exists u', u' ∈ updaters m /\ up_phase u' = Sending ts) /\
  (synced m' = synced m \/ exists u ts, u ∈ updaters m /\ up_phase u = Sending ts /\ synced m' = synced m ++ [ts]).
Proof.
  intros NA E.
  assert (Same : forall us : list updater, us = updaters m -> forall u ts, u ∈ us -> up_phase u = Sending ts ->
    ts = allGroups (targets m) \/ exists u', u' ∈ updaters m /\ up_phase u' = Sending ts) by (intros us -> u ts Hu Pu; right; by exists u).
  assert (Alt : forall j ph, (forall ts, ph = Sending ts -> ts = allGroups (targets m)) -> forall u ts,
    u ∈ alter (fun u => mkUpdater (up_cancelled u) ph) j (updaters m) -> up_phase u = Sending ts ->
    ts = allGroups (targets m) \/ exists u', u' ∈ updaters m /\ up_phase u' = Sending ts).
  { intros j ph Ph u ts [k Hk]%list_elem_of_lookup_1 Pu. destruct (decide (j = k)) as [->|N].
    - rewrite list_lookup_alter_eq in Hk. destruct (updaters m !! k); [|done]. injection Hk as <-. left. by apply Ph.
    - rewrite list_lookup_alter_ne in Hk by done. right. exists u. split; [by eapply list_elem_of_lookup_2|done]. }
  destruct ev as [cfg| |i tgs|i|i|i|i|j|j|j]; [by destruct (NA cfg)|cbn [step] in E..].
  - injection E as <-. cbn. split; [by left|]. split; [|by left]. intros u ts (u' & -> & Hu)%list_elem_of_fmap Pu. right. by exists u'.
  - destruct (providers m !! i) as [p|]; [|done]. cbn in E. destruct (pr_phase p); try done. destruct (can_send _ _); [|done]. injection E as <-.
    split; [by left|]. split; [by apply Same|by left].
  - destruct (providers m !! i) as [p|]; [|done]. cbn in E.
    assert (m' = set_provider i (with_phase p Returned) m) as -> by (repeat case_match; by simplify_eq). split; [by left|]. split; [by apply Same|by left].
  - destruct (providers m !! i) as [p|]; [|done]. cbn in E. destruct (pr_phase p); try done. destruct (pr_cancelled p); [|done]. injection E as <-.
    split; [by left|]. split; [by apply Same|by left].
  - destruct (providers m !! i) as [p|]; [|done]. cbn in E. destruct (pr_phase p) as [|tgs| |]; try done. injection E as <-.
    split; [right; by exists (pr_key p), tgs|]. split; [by apply Same|by left].
  - destruct (providers m !! i) as [p|]; [|done]. cbn in E. destruct (pr_phase p); try done. destruct (flag_locked m); [done|]. injection E as <-.
    split; [by left|]. split; [by apply Same|by left].
  - destruct (updaters m !! j) as [u|]; [|done]. cbn in E. destruct (up_phase u); try done. destruct (flag_locked m); [done|].
    destruct (recentlyUpdated m); injection E as <-; (split; [by left|]; split; [|by left]); [apply Alt; by intros ts [= <-]|by apply Same].
  - destruct (updaters m !! j) as [u|] eqn:U; [|done]. cbn in E. destruct (up_phase u) as [|ts|] eqn:Ph; try done. injection E as <-.
    split; [by left|]. split; [by apply Alt|]. right. exists u, ts. split; [by eapply list_elem_of_lookup_2|done].
  - destruct (updaters m !! j) as [u|]; [|done]. cbn in E. destruct (up_phase u); try done. destruct (up_cancelled u); [|done]. injection E as <-.
    split; [by left|]. split; [by apply Alt|by left].
Qed.

(** A map has a group of each of [srcs] for a job. *)
Definition has_sources (job : string) (srcs : gset string) (ts : gmap string (list TargetGroup)) : Prop :=
  exists gs, ts !! job = Some gs /\ forall s, s ∈ srcs -> exists g, g ∈ gs /\ Source g = s.

(** The sources are there, and in every map that is being sent, but for [hand]. *)
Record carries (key : poolKey) (srcs : gset string) (hand : gmap string (list TargetGroup) -> Prop) (m : @Manager D) : Prop := {
  ca_filled : forall k v, targets m !! k = Some v -> v <> ∅;
  ca_view : forall s, s ∈ srcs -> exists g, view (targets m) key !! s = Some g /\ Source g = s;
  ca_sending : forall u ts, u ∈ updaters m -> up_phase u = Sending ts -> hand ts \/ has_sources key.1 srcs ts
}.

Lemma keep_latest_sources tgs : forall (l : gmap string TargetGroup) s,
  (exists g, l !! s = Some g /\ Source g = s) -> exists g, foldl keep_latest l tgs !! s = Some g /\ Source g = s.
Proof.
  induction tgs as [|[g|] tgs IH]; intros l s E; [done| |by apply IH]. cbn. apply IH.
  destruct (decide (Source g = s)) as [<-|N]; [exists g; by rewrite lookup_insert_eq|by rewrite lookup_insert_ne].
Qed.

Lemma keep_latest_keyed tgs : forall (l : gmap string TargetGroup), (forall s g, l !! s = Some g -> Source g = s) ->
  forall s g, foldl keep_latest l tgs !! s = Some g -> Source g = s.
Proof.
  induction tgs as [|[g|] tgs IH]; intros l K; [done| |by apply IH]. apply IH. intros s h.
  destruct (decide (Source g = s)) as [<-|N]; cbn; [rewrite lookup_insert_eq; by intros [= <-]|rewrite lookup_insert_ne by done; apply K].
Qed.

Lemma allGroups_sources (key : poolKey) (srcs : gset string) (t : target_map) : srcs <> ∅ -> (forall k v, t !! k = Some v -> v <> ∅) ->
  (forall s, s ∈ srcs -> exists g, view t key !! s = Some g /\ Source g = s) -> has_sources key.1 srcs (allGroups t).
Proof.
  intros Ne F Vw. set (ks := map fst (map_to_list t)).
  assert (filled ks t) as Fk.
  { intros k v L. split; [by eapply F|]. apply list_elem_of_fmap. exists (k, v). by rewrite elem_of_map_to_list. }
  assert (forall g s, view t key !! s = Some g -> g ∈ groups_of key.1 (map_order t)) as In.
  { intros g s L. unfold view in L. destruct (t !! key) as [v|] eqn:T; cbn in L; [|by rewrite lookup_empty in L].
    unfold groups_of. apply list_elem_of_In, in_concat. exists (values v). split.
    - apply in_map_iff. exists (key, v). cbn. rewrite decide_True by done. split; [done|]. by apply list_elem_of_In, elem_of_map_order.
    - apply list_elem_of_In, list_elem_of_fmap. exists (s, g). split; [done|]. by apply elem_of_map_order. }
  unfold has_sources. rewrite (allGroups_lookup ks) by done. destruct (groups_of key.1 (map_order t)) as [|x xs] eqn:G.
  - exfalso. apply set_choose_L in Ne as [s Hs]. destruct (Vw s Hs) as (g & L & _). apply In in L. by apply elem_of_nil in L.
  - exists (x :: xs). split; [done|]. intros s Hs. destruct (Vw s Hs) as (g & L & E). exists g. split; [by eapply In|done].
Qed.

Lemma step_carries ev key srcs hand (m m' : @Manager D) : (forall cfg, ev <> Apply cfg) -> srcs <> ∅ -> carries key srcs hand m -> step ev m = Some m' ->
  carries key srcs hand m' /\ exists tss, synced m' = synced m ++ tss /\ Forall (fun ts => hand ts \/ has_sources key.1 srcs ts) tss.
Proof.
  intros NA Ne [F Vw Se] E. destruct (step_maps ev m m' NA E) as (T & U & Sy). split; [split|].
  - destruct T as [->|(k & tgs & ->)]; [done|]. intros k' v L. set (ks := k :: map fst (map_to_list (targets m))).
    assert (filled ks (targets m)) as Fk.
    { intros k1 v1 L1. split; [by eapply F|]. right. apply list_elem_of_fmap. exists (k1, v1). by rewrite elem_of_map_to_list. }
    by destruct (updateGroup_filled ks k tgs _ (list_elem_of_here _ _) Fk k' v L).
  - destruct T as [->|(k & tgs & ->)]; [done|]. intros s Hs. rewrite updateGroup_view. case_decide; [|by apply Vw].
    subst k. apply keep_latest_sources. by apply Vw.
  - intros u ts Hu Pu. destruct (U u ts Hu Pu) as [->|(u' & Hu' & Pu')]; [right; by apply allGroups_sources|by eapply Se].
  - destruct Sy as [->|(u & ts & Hu & Pu & ->)]; [exists []; by rewrite app_nil_r|]. exists [ts]. split; [done|]. apply Forall_singleton. by eapply Se.
Qed.

Lemma run_carries key srcs hand evs : forall m m' : @Manager D, no_apply evs -> srcs <> ∅ -> carries key srcs hand m -> run evs m = Some m' ->
  exists tss, synced m' = synced m ++ tss /\ Forall (fun ts => hand ts \/ has_sources key.1 srcs ts) tss.
Proof.
  induction evs as [|ev evs IH]; intros m m' NA Ne I E; [injection E as ->; exists []; by rewrite app_nil_r|]. cbn in E.
  destruct (step ev m) as [m1|] eqn:S; [|done].
  destruct (step_carries ev key srcs hand m m1) as [I1 (ts1 & E1 & F1)]; [intros cfg ->; apply (NA cfg), list_elem_of_here|done..|].
  destruct (IH m1 m') as (ts2 & E2 & F2); [intros cfg C; apply (NA cfg); by apply list_elem_of_further|done..|].
  exists (ts1 ++ ts2). rewrite E2, E1, app_assoc. split; [done|]. by apply Forall_app.
Qed.

(** C39: a provider that has received an update, with at least one group that
    is not nil, when [ApplyConfig] cancels it still writes it: once it has, the
    map that is sent has the job again, with the provider's groups, even if the
    job is in no configuration any more. And from then on until the next
    [ApplyConfig], whatever the goroutines do, every map that the receiver gets
    has a group of each of the update's sources for the job - but for a map
    that an updater was already sending. *)
Theorem stale_groups_return (m : @Manager D) (i : nat) (p : provider) (tgs : list (option TargetGroup)) (g : TargetGroup)
  (cfg : gmap string (ServiceDiscoveryConfig D))
  (P : providers m !! i = Some p) (PH : pr_phase p = Received tgs) (G : Some g ∈ tgs) :
  exists m', run [Apply cfg; Update i] m = Some m' /\
    (exists gs, allGroups (targets m') !! (pr_key p).1 = Some gs /\ gs ≡ₚ values (latest tgs)) /\
    forall evs m'', no_apply evs -> run evs m' = Some m'' ->
      exists tss, synced m'' = synced m ++ tss /\
        Forall (fun ts => (exists u, u ∈ updaters m /\ up_phase u = Sending ts) \/ has_sources (pr_key p).1 (dom (latest tgs)) ts) tss.
Proof.
  cbn [run step]. cbn. rewrite ApplyConfig_eq. unfold start_all, cancelDiscoverers. cbn [providers done updaters targets recentlyUpdated synced].
  assert (Ep : (map cancel_provider (providers m) ++ map (fun kw => mkProvider kw.1 kw.2 (done m) Waiting) (new_providers cfg)) !! i = Some (cancel_provider p)).
  { rewrite lookup_app_l by (rewrite length_map; by eapply lookup_lt_Some). by rewrite list_lookup_map, P. }
  rewrite Ep. cbn. rewrite PH. eexists. split; [done|]. cbn.
  set (t := updateGroup (pr_key p) tgs ∅).
  assert (F : filled [pr_key p] t) by (apply updateGroup_filled; [apply list_elem_of_here|intros k v; by rewrite lookup_empty]).
  assert (V : view t (pr_key p) = latest tgs).
  { unfold t. rewrite updateGroup_view, decide_True by done. unfold view. by rewrite lookup_empty. }
  assert (NE : latest tgs <> ∅) by (by apply (latest_nonempty _ g)).
  assert (GP : groups_of (pr_key p).1 (map_order t) ≡ₚ values (latest tgs)).
  { rewrite (groups_of_filled _ [pr_key p]) by (done || apply NoDup_singleton). unfold groups_of. cbn [map concat].
    rewrite decide_True by done. cbn. by rewrite app_nil_r, V. }
  split.
  - rewrite (allGroups_lookup [pr_key p]) by done. destruct (groups_of _ _) as [|x xs] eqn:EG; [|by eexists].
    exfalso. apply Permutation_nil in GP. apply NE, map_to_list_empty_iff. pose proof (map_order_perm _ _ (latest tgs)) as MP. unfold values in GP.
    destruct (map_order (latest tgs)); [by apply Permutation_nil in MP|done].
  - intros evs m'' NA R. apply (run_carries (pr_key p) (dom (latest tgs)) (fun ts => exists u, u ∈ updaters m /\ up_phase u = Sending ts)) in R;
      [done|done|by rewrite dom_empty_iff_L|]. split; cbn [targets updaters].
    + intros k v L. by destruct (F k v L).
    + intros s [x L]%elem_of_dom. rewrite V. exists x. split; [done|]. unfold latest in L. by apply (keep_latest_keyed tgs ∅) in L.
    + intros u ts Hu Pu. left. apply elem_of_app in Hu as [(u' & -> & Hu)%list_elem_of_fmap|(kw & -> & _)%list_elem_of_fmap]; [by exists u'|done].
Qed.
End stale.

(** * Runs *)

#[local] Existing Instances literal_regexp literal_replace zero_md5 any_print tree_order.

Definition static_config (groups : list TargetGroup) : ServiceDiscoveryConfig unit :=
  mkSDConfig [] [] [] [] [] [] [] [] [] [] [] [] groups.
Definition host_group (host : string) : TargetGroup := mkTargetGroup [{["__address__" := host]}] ∅ "".
Definition sent_group (host : string) : TargetGroup := mkTargetGroup [{["__address__" := host]}] ∅ "0".

Definition config_a : gmap string (ServiceDiscoveryConfig unit) := {["a" := static_config [host_group "h:1"]]}.
(** Job [a] without its mechanism, and a job [b]. *)
Definition config_b : gmap string (ServiceDiscoveryConfig unit) :=
  {["a" := static_config []; "b" := static_config [host_group "h:2"]]}.

Definition delivery (i : nat) (host : string) : list (@event unit) :=
  [Receive i [Some (sent_group host)]; Update i; SetFlag i; Closed i; Tick i; Discovery.Sync i].

Definition after_a : option (@Manager unit) := run (Apply config_a :: delivery 0 "h:1") NewManager.

Lemma discovery_delivers_witness :
  exists m ts, after_a = Some m /\ last (synced m) = Some ts /\ default [] (ts !! "a") ≡ₚ [sent_group "h:1"].
Proof.
  assert (E : exists m, after_a = Some m /\ recentlyUpdated m = false /\ Forall (fun p => pr_phase p = Waiting \/ pr_phase p = Returned) (providers m)).
  { eexists. split; [vm_compute; reflexivity|]. split; [reflexivity|].
    apply List.Forall_cons; [right; reflexivity|apply List.Forall_nil]. }
  destruct E as (m & E & Q & QP).
  assert (NA : no_apply (delivery 0 "h:1")) by (intros cfg I; repeat (apply elem_of_cons in I as [I|I]; [discriminate I|]); by apply elem_of_nil in I).
  destruct (discovery_delivers [] (delivery 0 "h:1") NewManager m config_a eq_refl (List.Forall_nil _) E NA Q QP) as [N|(ts & L & H)].
  - specialize (N 0%nat ltac:(vm_compute; lia)). exfalso. apply (f_equal (.!! "0")) in N. vm_compute in N. discriminate N.
  - exists m, ts. split; [exact E|]. split; [exact L|]. rewrite (H "a"). vm_compute. reflexivity.
Defined.

Lemma emptied_job_keeps_targets_witness :
  exists m m' tss, after_a = Some m /\ run (Apply config_b :: delivery 1 "h:2") m = Some m' /\
    synced m' = synced m ++ tss /\ tss = [{["b" := [sent_group "h:2"]]}] /\
    forall sm sm', reload_all (fun _ _ => 0) tss sm = Some sm' -> m_scrapePools sm' !! "a" = m_scrapePools sm !! "a".
Proof.
  assert (E : exists m m', after_a = Some m /\ run (Apply config_b :: delivery 1 "h:2") m = Some m' /\
    drop (length (synced m)) (synced m') = [{["b" := [sent_group "h:2"]]}] /\
    Forall (fun p => pr_phase p = Returned) (providers m) /\ Forall (fun u => up_phase u = Idle) (updaters m)).
  { eexists _, _. split; [vm_compute; reflexivity|]. split; [vm_compute; reflexivity|]. split; [vm_compute; reflexivity|]. split; repeat constructor. }
  destruct E as (m & m' & E & R & S & P & U).
  assert (NA : no_apply (delivery 1 "h:2")) by (intros cfg I; repeat (apply elem_of_cons in I as [I|I]; [discriminate I|]); by apply elem_of_nil in I).
  destruct (emptied_job_keeps_targets (fun _ _ => 0) "a" config_b (delivery 1 "h:2") m m') as (tss & ES & _ & H).
  - eapply List.Forall_impl; [|exact P]. intros p Hp _. exact Hp.
  - eapply List.Forall_impl; [|exact U]. intros u Hu ts Ht. rewrite Hu in Ht. discriminate Ht.
  - intros sd Esd. vm_compute in Esd. injection Esd as <-. vm_compute. reflexivity.
  - exact NA.
  - exact R.
  - exists m, m', tss. split; [exact E|]. split; [exact R|]. split; [exact ES|]. split; [|exact H].
    rewrite ES, drop_app_length in S. exact S.
Defined.

Lemma stale_groups_return_witness :
  exists m m', run [Apply config_a; Receive 0 [Some (sent_group "h:1")]] NewManager = Some m /\
    run [Apply config_b; Update 0] m = Some m' /\ (exists gs, allGroups (targets m') !! "a" = Some gs /\ gs ≡ₚ [sent_group "h:1"]) /\
    exists m'' ts, run (delivery 1 "h:2") m' = Some m'' /\ synced m'' = [ts] /\ has_sources "a" {["0"]} ts.
Proof.
  assert (E : exists m p, run [Apply config_a; Receive 0 [Some (sent_group "h:1")]] NewManager = Some m /\
    providers m !! 0%nat = Some p /\ pr_phase p = Received [Some (sent_group "h:1")] /\ pr_key p = ("a", "static/0") /\
    synced m = [] /\ Forall (fun u => up_phase u = Idle) (updaters m))
    by (eexists _, _; split; [vm_compute; reflexivity|]; repeat split; first [reflexivity|repeat constructor]).
  destruct E as (m & p & E & P & PH & K & Sy & U). exists m.
  destruct (stale_groups_return m 0 p _ (sent_group "h:1") config_b P PH (list_elem_of_here _ _)) as (m' & R & (gs & A & G) & L).
  rewrite K in A, L. exists m'. split; [exact E|]. split; [exact R|]. split; [exists gs; split; [exact A|]; rewrite G; vm_compute; reflexivity|].
  assert (R2 : exists m'' ts, run (delivery 1 "h:2") m' = Some m'' /\ synced m'' = [ts]).
  { clear -E R. vm_compute in E. injection E as <-. vm_compute in R. injection R as <-. eexists _, _. split; vm_compute; reflexivity. }
  destruct R2 as (m'' & ts & R2 & S2). exists m'', ts. split; [exact R2|]. split; [exact S2|].
  assert (NA : no_apply (delivery 1 "h:2")) by (intros cfg I; repeat (apply elem_of_cons in I as [I|I]; [discriminate I|]); by apply elem_of_nil in I).
  destruct (L _ _ NA R2) as (tss & S3 & F). rewrite Sy in S3. cbn in S3. rewrite S2 in S3. subst tss.
  apply List.Forall_inv in F. destruct F as [(u & Hu & Pu)|F]; [|exact F].
  rewrite List.Forall_forall in U. rewrite (U u) in Pu; [discriminate Pu|by apply list_elem_of_In].
Defined.
