(* ===== verification/FileSD.v ===== *)
(** discovery/file/file.go: discovery of target groups in files.

    The file system is what globs, opening and reading give at the time of a
    call; decoding JSON and YAML is a parameter, as is the watcher, whose events
    are inputs.  The collector of time stamps is left out. *)

From S2P Require Import Prelude GoString GoFmt Float Duration Target Pattern.

(** * Configuration *)

(** [patFileSDName] *)
Definition patFileSDName : re :=
  Seq (Star (not_lit "*")) (Seq (opt (Seq (lit "*") (Star (not_lit "/")))) (Seq (lit ".") (one_of ["json"; "yml"; "yaml"; "JSON"; "YML"; "YAML"]))).

Record SDConfig := mkSDConfig { Files : list string; RefreshInterval : Duration }.
Definition DefaultSDConfig : SDConfig := mkSDConfig [] (5 * Minute).

Section file.
Context `{UT : UnicodeTables} `{MO : MapOrder}.

Definition SDConfig_UnmarshalYAML (unmarshal : SDConfig -> result string SDConfig) : result string SDConfig :=
  match unmarshal DefaultSDConfig with
  | Err e => Err e
  | Ok c =>
    if (length (Files c) =? 0)%nat then Err "file service discovery config must contain at least one path name"
    else
      match List.find (fun name => negb (matches patFileSDName name)) (Files c) with
      | Some name => Err ("path name " +:+ Quote name +:+ " is not valid for file discovery")
      | None => Ok c
      end
  end.

(** * Files *)

Definition fileSDFilepathLabel : string := MetaLabelPrefix +:+ "filepath".

Definition fileSource (filename : string) (i : Z) : string := filename +:+ ":" +:+ Itoa i.

(** [filepath.Ext]: from the last dot of the last element. *)
Definition Ext (path : string) : string :=
  let i := last_index path (rune ".") in
  if (0 <=? i) && (last_index path (rune "/") <? i) then str_drop (Z.to_nat i) path else "".

(** What opening a file gives: its content, and its time of modification. *)
Record opened := mkOpened { ReadAll : result string string; ModTime : result string Z }.

Variable json_Unmarshal : string -> result string (list (option TargetGroup)).
Variable yaml_UnmarshalStrict : string -> result string (list (option TargetGroup)).

Record Discovery := mkDiscovery {
  paths : list string; interval : Duration; timestamps : gmap string float64; lastRefresh : gmap string Z;
  (* the paths that were given to the watcher *)
  watched : list string
}.

Definition NewDiscovery (conf : SDConfig) : Discovery := mkDiscovery (Files conf) (RefreshInterval conf) ∅ ∅ [].

Definition writeTimestamp (filename : string) (timestamp : float64) (d : Discovery) : Discovery :=
  mkDiscovery (paths d) (interval d) (<[filename := timestamp]> (timestamps d)) (lastRefresh d) (watched d).
Definition deleteTimestamp (filename : string) (d : Discovery) : Discovery :=
  mkDiscovery (paths d) (interval d) (base.delete filename (timestamps d)) (lastRefresh d) (watched d).

(** [listFiles]; a pattern that cannot be expanded is skipped. *)
Definition listFiles (Glob : string -> result string (list string)) (d : Discovery) : list string :=
  flat_map (fun p => match Glob p with Ok files => files | Err _ => [] end) (paths d).

(** [watchFiles] *)
Definition watch_path (p : string) : string :=
  let idx := last_index p (rune "/") in if -1 <? idx then str_take (Z.to_nat idx) p else "./".
Definition watchFiles (d : Discovery) : Discovery :=
  mkDiscovery (paths d) (interval d) (timestamps d) (lastRefresh d) (watched d ++ map watch_path (paths d)).

(** The groups get their source and the label with the file's name. *)
Fixpoint own_groups (filename : string) (i : Z) (tgs : list (option TargetGroup)) : result string (list TargetGroup) :=
  match tgs with
  | [] => Ok []
  | None :: _ => Err "nil target group item found"
  | Some tg :: tgs =>
    match own_groups filename (i + 1) tgs with
    | Err e => Err e
    | Ok gs => Ok (mkTargetGroup (tg_Targets tg) (<[fileSDFilepathLabel := filename]> (tg_Labels tg)) (fileSource filename i) :: gs)
    end
  end.

(** The decoder for the extension of a file; there is none for others. *)
Definition decoder (filename : string) : option (string -> result string (list (option TargetGroup))) :=
  let ext := ToLower (Ext filename) in
  if (ext =? ".json")%string then Some json_Unmarshal
  else if (ext =? ".yml")%string || (ext =? ".yaml")%string then Some yaml_UnmarshalStrict
  else None.

(** [readFile]; [None] is its panic. *)
Definition readFile (filename : string) (Open : result string opened) (d : Discovery) : option (result string (list TargetGroup) * Discovery) :=
  match Open with
  | Err e => Some (Err e, d)
  | Ok fd =>
    match ReadAll fd with
    | Err e => Some (Err e, d)
    | Ok content =>
      match ModTime fd with
      | Err e => Some (Err e, d)
      | Ok modTime =>
        decode ← decoder filename;
        match decode content with
        | Err e => Some (Err e, d)
        | Ok tgs =>
          match own_groups filename 0 tgs with
          | Err e => Some (Err e, d)
          | Ok targetGroups => Some (Ok targetGroups, writeTimestamp filename (of_Z modTime) d)
          end
        end
      end
    end
  end.

(** * Refreshing *)

Section refreshing.
(** Sends are numbered within a refresh; [alive n] says that the [n]th is
    received, and does not find the context done instead. *)
Variable alive : nat -> bool.

(** The loop over the files; the [k]th file that is read gives [Open k].  The
    result has the counts, what was sent, and whether the loop went to its end. *)
Fixpoint read_loop (Open : nat -> string -> result string opened) (k : nat) (ps : list string) (ref : gmap string Z)
    (sent : list (list TargetGroup)) (d : Discovery) : option (gmap string Z * list (list TargetGroup) * Discovery * bool) :=
  match ps with
  | [] => Some (ref, sent, d, true)
  | p :: ps =>
    r ← readFile p (Open k p) d;
    match r with
    | (Err _, d) => read_loop Open (S k) ps (<[p := default 0 (lastRefresh d !! p)]> ref) sent d
    | (Ok tgroups, d) =>
      if alive (length sent) then read_loop Open (S k) ps (<[p := Z.of_nat (length tgroups)]> ref) (sent ++ [tgroups]) d
      else Some (ref, sent, d, false)
    end
  end.

(** Empty groups for [n] sources of a file from the [i]th on. *)
Fixpoint send_empty (f : string) (i : Z) (n : nat) (sent : list (list TargetGroup)) : list (list TargetGroup) * bool :=
  match n with
  | O => (sent, true)
  | S n => if alive (length sent) then send_empty f (i + 1) n (sent ++ [[mkTargetGroup [] ∅ (fileSource f i)]]) else (sent, false)
  end.

(** The loop over the counts of the last refresh. *)
Fixpoint remove_loop (ref : gmap string Z) (last : list (string * Z)) (sent : list (list TargetGroup)) (d : Discovery)
    : list (list TargetGroup) * Discovery * bool :=
  match last with
  | [] => (sent, d, true)
  | (f, n) :: last =>
    let m := default 0 (ref !! f) in
    if negb (bool_decide (is_Some (ref !! f))) || (m <? n) then
      match send_empty f m (Z.to_nat (n - m)) sent with
      | (sent, true) => remove_loop ref last sent (deleteTimestamp f d)
      | (sent, false) => (sent, deleteTimestamp f d, false)
      end
    else remove_loop ref last sent d
  end.

Definition refresh (Glob : string -> result string (list string)) (Open : nat -> string -> result string opened) (d : Discovery)
    : option (list (list TargetGroup) * Discovery) :=
  r ← read_loop Open 0 (listFiles Glob d) ∅ [] d;
  match r with
  | (_, sent, d, false) => Some (sent, d)
  | (ref, sent, d, true) =>
    match remove_loop ref (map_order (lastRefresh d)) sent d with
    | (sent, d, false) => Some (sent, d)
    | (sent, d, true) => Some (sent, watchFiles (mkDiscovery (paths d) (interval d) (timestamps d) ref (watched d)))
    end
  end.
End refreshing.

(** * [Run] *)

(** What the loop receives, with the file system it then finds. *)
Record files := mkFiles { Glob : string -> result string (list string); Open : nat -> string -> result string opened; Alive : nat -> bool }.
Inductive input :=
| Started (fs : files)
| Event (Name : string) (Op : Z) (fs : files)
| Ticker (fs : files)
| WatchError.

Variable Chmod : Z.

Definition handle (i : input) (d : Discovery) : option (list (list TargetGroup) * Discovery) :=
  match i with
  | Started fs | Ticker fs => refresh (Alive fs) (Glob fs) (Open fs) d
  | Event name op fs =>
    if (String.length name =? 0)%nat then Some ([], d)
    else if Z.lxor op Chmod =? 0 then Some ([], d)
    else refresh (Alive fs) (Glob fs) (Open fs) d
  | WatchError => Some ([], d)
  end.

(** The loop until the context is done: all that was sent. *)
Fixpoint loop (ins : list input) (d : Discovery) : option (list (list TargetGroup) * Discovery) :=
  match ins with
  | [] => Some ([], d)
  | i :: ins => r ← handle i d; r' ← loop ins r.2; Some (r.1 ++ r'.1, r'.2)
  end.
Definition Run (fs : files) (ins : list input) (d : Discovery) : option (list (list TargetGroup) * Discovery) :=
  loop (Started fs :: ins) d.
End file.
