(* ===== verification/FileSDFacts.v ===== *)
(** File discovery: what the receiver of the groups is left with after any
    sequence of refreshes. *)

From S2P Require Import Prelude GoString GoFmt Float Duration Alerting Target Pattern Discovery DiscoveryFacts FileSD.

(** * Sources *)

(** The value of a string of digits. *)
Fixpoint dec_value (s : string) (acc : Z) : Z :=
  match s with EmptyString => acc | String c s => dec_value s (acc * 10 + (rune c - rune "0")) end.

Lemma itoa_pos_value f z acc : 0 <= z < 10 ^ Z.of_nat f -> dec_value (itoa_pos f z acc) 0 = dec_value acc z.
Proof.
  revert z acc. induction f as [|f IH]; intros z acc Hz.
  - change (10 ^ Z.of_nat 0) with 1 in Hz. by assert (z = 0) as -> by lia.
  - rewrite Nat2Z.inj_succ, Z.pow_succ_r in Hz by lia. cbn [itoa_pos].
    pose proof (Z.mod_pos_bound z 10 ltac:(lia)). pose proof (Z.div_mod z 10 ltac:(lia)).
    assert (S : forall a, a = z / 10 -> dec_value (String (digit (z mod 10)) acc) a = dec_value acc z).
    { intros a ->. cbn [dec_value]. f_equal. unfold digit. rewrite rune_byte_of; change (rune "0") with 48; lia. }
    destruct (Z.ltb_spec z 10); [by apply S; rewrite Z.div_small; lia|].
    rewrite IH; [by apply S|]. split; [apply Z.div_pos; lia|apply Z.div_lt_upper_bound; lia].
Qed.

Lemma Itoa_inj x y : 0 <= x -> 0 <= y -> Itoa x = Itoa y -> x = y.
Proof.
  assert (forall z, 0 <= z -> dec_value (Itoa z) 0 = z) as V.
  { intros z Hz. rewrite Itoa_nonneg by done. rewrite itoa_pos_value; [done|]. split; [done|].
    destruct (Z.eq_dec z 0) as [->|]; [done|]. pose proof (Z.log2_spec z ltac:(lia)) as [_ L]. pose proof (Z.log2_nonneg z).
    rewrite Nat2Z.inj_succ, Z2Nat.id by done. eapply Z.lt_le_trans; [exact L|]. apply Z.pow_le_mono_l. lia. }
  intros X Y E. by rewrite <- (V x X), <- (V y Y), E.
Qed.

Lemma Itoa_digits z : 0 <= z -> str_forall is_digit (Itoa z) = true.
Proof. intros. rewrite Itoa_nonneg by done. by apply itoa_pos_digits. Qed.

(** The last colon of a source stands before the number. *)
Lemma digits_no_colon s : str_forall is_digit s = true -> last_index s (rune ":") = -1.
Proof.
  induction s as [|c s IH]; [done|]. cbn [str_forall last_index]. intros D. apply andb_true_iff in D as [D1 D2]. rewrite IH by done.
  change (0 <=? -1) with false. cbn iota. destruct (Z.eqb_spec (rune c) (rune ":")) as [E|]; [|done]. by rewrite E in D1.
Qed.

Lemma last_colon f s : str_forall is_digit s = true -> last_index (f +:+ ":" +:+ s) (rune ":") = Z.of_nat (String.length f).
Proof.
  intros D. rewrite last_index_app, (last_index_app ":"), digits_no_colon by done.
  change (last_index ":" (rune ":")) with 0. change (0 <=? -1) with false. rewrite Z.leb_refl. apply Z.add_0_r.
Qed.

Lemma str_app_inv s1 s2 t1 t2 : String.length s1 = String.length t1 -> s1 +:+ s2 = t1 +:+ t2 -> s1 = t1 /\ s2 = t2.
Proof.
  revert t1. induction s1 as [|c s1 IH]; intros [|d t1] L E; try discriminate; [done|].
  rewrite !str_app_cons in E. injection E as -> E. injection L as L. destruct (IH t1 L E) as [-> ->]. done.
Qed.

Lemma fileSource_inj f i f' i' : 0 <= i -> 0 <= i' -> fileSource f i = fileSource f' i' -> f = f' /\ i = i'.
Proof.
  intros I I' E. unfold fileSource in E.
  assert (String.length f = String.length f') as L.
  { apply Nat2Z.inj. rewrite <- (last_colon f (Itoa i)), <- (last_colon f' (Itoa i')), E by by apply Itoa_digits. done. }
  apply str_app_inv in E as [-> E]; [|done]. split; [done|]. rewrite !str_app_cons, !str_app_nil_l in E. injection E as E. by apply Itoa_inj.
Qed.

(** * What the receiver knows *)

Notation file_map := (gmap string (list TargetGroup)) (only parsing).

Definition groups_of_file (K : file_map) (f : string) : list TargetGroup := default [] (K !! f).

(** The groups of a file from the [i]th on. *)
Definition owned (f : string) (i : nat) (gs : list TargetGroup) : Prop :=
  forall j g, gs !! j = Some g -> Source g = fileSource f (Z.of_nat (i + j)).

Lemma owned_cons f i g gs : owned f i (g :: gs) -> Source g = fileSource f (Z.of_nat i) /\ owned f (S i) gs.
Proof.
  intros O. split; [rewrite <- (Nat.add_0_r i); by apply (O 0%nat)|]. intros j h E. rewrite Nat.add_succ_comm. by apply (O (S j)).
Qed.

Lemma receive_other f i gs V s :
  owned f i gs -> (forall j, (j < length gs)%nat -> s <> fileSource f (Z.of_nat (i + j))) -> receive V gs !! s = V !! s.
Proof.
  revert i V. induction gs as [|g gs IH]; intros i V O N; [done|]. apply owned_cons in O as [Eg O].
  change (receive V (g :: gs)) with (receive (<[Source g := g]> V) gs). rewrite (IH (S i)); [|done|].
  - rewrite lookup_insert_ne; [done|]. rewrite Eg. intros E. apply (N 0%nat); [cbn; lia|]. by rewrite Nat.add_0_r.
  - intros j J. rewrite Nat.add_succ_comm. apply N. cbn. lia.
Qed.

Lemma receive_in f i gs V j g : owned f i gs -> gs !! j = Some g -> receive V gs !! fileSource f (Z.of_nat (i + j)) = Some g.
Proof.
  revert i V j. induction gs as [|h gs IH]; intros i V j O E; [done|]. apply owned_cons in O as [Eh O].
  change (receive V (h :: gs)) with (receive (<[Source h := h]> V) gs). destruct j as [|j]; cbn in E.
  - injection E as ->. rewrite (receive_other f (S i)); [|done|].
    + by rewrite Eh, Nat.add_0_r, lookup_insert_eq.
    + intros j _ X. apply fileSource_inj in X as [_ X]; lia.
  - rewrite <- Nat.add_succ_comm. by apply IH.
Qed.

Lemma receive_cases f i gs V s g : owned f i gs -> receive V gs !! s = Some g ->
  (exists j, gs !! j = Some g /\ s = fileSource f (Z.of_nat (i + j))) \/
  (V !! s = Some g /\ forall j, (j < length gs)%nat -> s <> fileSource f (Z.of_nat (i + j))).
Proof.
  revert i V. induction gs as [|h gs IH]; intros i V O L; [right; split; [done|intros j J; cbn in J; lia]|].
  pose proof (owned_cons f i h gs O) as [Eh O']. change (receive V (h :: gs)) with (receive (<[Source h := h]> V) gs) in L.
  destruct (IH (S i) _ O' L) as [(j & J & ->)|[L' N]]; [left; exists (S j); by rewrite <- Nat.add_succ_comm|].
  destruct (decide (Source h = s)) as [E|E].
  - left. exists 0%nat. rewrite <- E, lookup_insert_eq in L'. by rewrite <- E, Eh, Nat.add_0_r.
  - right. rewrite lookup_insert_ne in L' by done. split; [done|]. intros [|j] J; [rewrite Nat.add_0_r; congruence|].
    rewrite <- Nat.add_succ_comm. apply N. cbn in J. lia.
Qed.

(** [V] has the groups of [K] and, but for stale ones, no other group with
    targets. *)
Record knows (stale : string -> nat -> Prop) (K : file_map) (V : gmap string TargetGroup) : Prop := {
  knows_in : forall f i g, groups_of_file K f !! i = Some g -> V !! fileSource f (Z.of_nat i) = Some g;
  knows_only : forall s g, V !! s = Some g -> tg_Targets g <> [] ->
    exists f i, s = fileSource f (Z.of_nat i) /\ (groups_of_file K f !! i = Some g \/ stale f i)
}.

(** The indices that a file had in [known], and has not in [K]. *)
Definition shrunk (known K : file_map) (f : string) (i : nat) : Prop :=
  (length (groups_of_file K f) <= i < length (groups_of_file known f))%nat.

Lemma groups_of_insert K f gs f' : groups_of_file (<[f := gs]> K) f' = if decide (f = f') then gs else groups_of_file K f'.
Proof. unfold groups_of_file. case_decide as E; [by rewrite E, lookup_insert_eq|by rewrite lookup_insert_ne]. Qed.

Lemma knows_read known K V f gs :
  knows (shrunk known K) K V -> groups_of_file K f = groups_of_file known f -> owned f 0 gs ->
  knows (shrunk known (<[f := gs]> K)) (<[f := gs]> K) (receive V gs).
Proof.
  intros [I O] E W. split.
  - intros f' i g. rewrite groups_of_insert. case_decide as F; [subst f'; by apply (receive_in f 0)|]. intros L.
    rewrite (receive_other f 0 gs); [by apply I|done|]. intros j _ X. apply fileSource_inj in X as [X _]; [done|lia..].
  - intros s g L T. apply (receive_cases f 0) in L as [(j & J & ->)|[L N]]; [|
      |done].
    + exists f, j. split; [done|]. left. by rewrite groups_of_insert, decide_True.
    + destruct (O s g L T) as (f' & i & -> & C). exists f', i. split; [done|]. unfold shrunk in *. rewrite groups_of_insert.
      case_decide as F; [subst f'|done]. right. rewrite E in C. split; [destruct (decide (i < length gs)%nat) as [J|]; [by apply N in J|lia]|].
      destruct C as [C|C]; [by apply lookup_lt_Some in C|lia].
Qed.

Definition empty_group (f : string) (i : nat) : TargetGroup := mkTargetGroup [] ∅ (fileSource f (Z.of_nat i)).

(** An empty group makes its source fresh. *)
Lemma knows_empty stale K V f i : knows stale K V -> (length (groups_of_file K f) <= i)%nat ->
  knows (fun f' i' => stale f' i' /\ ~ (f' = f /\ i' = i)) K (receive V [empty_group f i]).
Proof.
  intros [I O] L. change (receive V [empty_group f i]) with (<[fileSource f (Z.of_nat i) := empty_group f i]> V). split.
  - intros f' i' g E. rewrite lookup_insert_ne; [by apply I|]. intros X. apply fileSource_inj in X as [<- X]; [|lia..].
    apply lookup_lt_Some in E. lia.
  - intros s g. destruct (decide (fileSource f (Z.of_nat i) = s)) as [<-|N]; [rewrite lookup_insert_eq; by intros [= <-]|].
    rewrite lookup_insert_ne by done. intros E T. destruct (O s g E T) as (f' & i' & -> & C). exists f', i'. split; [done|].
    destruct C as [C|C]; [by left|right]. split; [done|]. intros [-> ->]. done.
Qed.

Lemma knows_weaken (stale stale' : string -> nat -> Prop) K V :
  knows stale K V -> (forall f i, stale f i -> stale' f i) -> knows stale' K V.
Proof. intros [I O] W. split; [done|]. intros s g E T. destruct (O s g E T) as (f & i & -> & [C|C]); eauto 8. Qed.

(** Forgetting a file leaves its groups stale. *)
Lemma knows_forget known (R : file_map) V :
  knows (shrunk known (R ∪ known)) (R ∪ known) V -> knows (shrunk known R) R V.
Proof.
  intros [I O]. assert (forall f, groups_of_file (R ∪ known) f = match R !! f with Some gs => gs | None => groups_of_file known f end) as U.
  { intros f. unfold groups_of_file. rewrite lookup_union. by destruct (R !! f), (known !! f). }
  split.
  - intros f i g E. apply I. rewrite U. unfold groups_of_file in E. by destruct (R !! f).
  - intros s g E T. destruct (O s g E T) as (f & i & -> & C). exists f, i. split; [done|].
    unfold shrunk in *. rewrite U in C. unfold groups_of_file at 1 2. destruct (R !! f) as [gs|]; [done|]. right. cbn.
    destruct C as [C|C]; [apply lookup_lt_Some in C; unfold groups_of_file in *; lia|lia].
Qed.

Lemma send_empty_spec V0 alive f K n : (forall k, alive k = true) -> forall m stale sent,
  knows stale K (receive_all V0 sent) -> (length (groups_of_file K f) <= m)%nat ->
  exists sent', send_empty alive f (Z.of_nat m) n sent = (sent', true) /\
    knows (fun f' i => stale f' i /\ ~ (f' = f /\ (m <= i < m + n)%nat)) K (receive_all V0 sent').
Proof.
  intros A. induction n as [|n IH]; intros m stale sent J L; cbn [send_empty].
  - exists sent. split; [done|]. eapply knows_weaken; [exact J|]. intros f' i S. split; [done|]. intros [_ X]. lia.
  - rewrite A. replace (Z.of_nat m + 1) with (Z.of_nat (S m)) by lia.
    destruct (IH (S m) (fun f' i => stale f' i /\ ~ (f' = f /\ i = m)) (sent ++ [[empty_group f m]])) as (sent' & E & J'); [|lia|].
    + unfold receive_all. rewrite foldl_app. by apply knows_empty.
    + exists sent'. split; [exact E|]. eapply knows_weaken; [exact J'|]. intros f' i [[S N] N']. split; [done|]. intros [-> X].
      destruct (decide (i = m)); [by apply N|]. apply N'. split; [done|lia].
Qed.

(** * Reading *)

Definition counts (K : file_map) : gmap string Z := (fun gs : list TargetGroup => Z.of_nat (length gs)) <$> K.

Lemma counts_lookup K f : default 0 (counts K !! f) = Z.of_nat (length (groups_of_file K f)).
Proof. unfold counts, groups_of_file. rewrite lookup_fmap. by destruct (K !! f). Qed.

Section history.
Context `{UT : UnicodeTables} `{MO : MapOrder}.
Variable json yaml : string -> result string (list (option TargetGroup)).

(** What a file holds when it is opened so. *)
Definition file_groups (p : string) (o : result string opened) : option (result string (list TargetGroup)) :=
  fst <$> readFile json yaml p o (mkDiscovery [] 0 ∅ ∅ []).

Lemma own_groups_owned f : forall tgs i gs, own_groups f (Z.of_nat i) tgs = Ok gs -> owned f i gs.
Proof.
  induction tgs as [|[tg|] tgs IH]; intros i gs; cbn [own_groups]; [intros [= <-] j g E; by destruct j| |done].
  replace (Z.of_nat i + 1) with (Z.of_nat (S i)) by lia. destruct (own_groups f (Z.of_nat (S i)) tgs) as [gs'|] eqn:G; [|done].
  intros [= <-] [|j] g E; cbn in E; [injection E as <-; by rewrite Nat.add_0_r|]. rewrite <- Nat.add_succ_comm. by eapply IH.
Qed.

Lemma readFile_spec p o d : decoder json yaml p <> None ->
  exists r d', readFile json yaml p o d = Some (r, d') /\ file_groups p o = Some r /\ paths d' = paths d /\ lastRefresh d' = lastRefresh d /\
    match r with Ok gs => owned p 0 gs | Err _ => True end.
Proof.
  intros D. unfold file_groups, readFile. destruct o as [fd|]; [|by eauto 10].
  destruct (ReadAll fd) as [content|]; [|by eauto 10]. destruct (ModTime fd) as [t|]; [|by eauto 10].
  destruct (decoder json yaml p) as [decode|]; [|done]. cbn [mbind option_bind]. destruct (decode content) as [tgs|]; [|by eauto 10].
  destruct (own_groups p 0 tgs) as [gs|] eqn:G; [|by eauto 10]. eexists _, _. split_and!; [done..|]. by eapply (own_groups_owned p tgs 0).
Qed.

(** The files that a refresh knows, from those known before: the groups of a
    file that can be read, the old ones when it cannot. *)
Fixpoint refreshed (known : file_map) (Open : nat -> string -> result string opened) (k : nat) (ps : list string) (R : file_map) : file_map :=
  match ps with
  | [] => R
  | p :: ps =>
    refreshed known Open (S k) ps (<[p := match file_groups p (Open k p) with Some (Ok gs) => gs | _ => groups_of_file known p end]> R)
  end.

Lemma read_loop_spec V0 alive known Open : (forall k, alive k = true) -> forall ps k R sent d,
  NoDup ps -> (forall p, p ∈ ps -> R !! p = None /\ decoder json yaml p <> None) -> lastRefresh d = counts known ->
  knows (shrunk known (R ∪ known)) (R ∪ known) (receive_all V0 sent) ->
  exists sent' d', read_loop json yaml alive Open k ps (counts R) sent d = Some (counts (refreshed known Open k ps R), sent', d', true) /\
    paths d' = paths d /\ lastRefresh d' = counts known /\
    knows (shrunk known (refreshed known Open k ps R ∪ known)) (refreshed known Open k ps R ∪ known) (receive_all V0 sent').
Proof.
  intros A. induction ps as [|p ps IH]; intros k R sent d N F L J; cbn [read_loop refreshed]; [by eauto 10|].
  apply NoDup_cons in N as [Np N]. destruct (F p (list_elem_of_here p ps)) as [Rp Dp].
  assert (groups_of_file (R ∪ known) p = groups_of_file known p) as G.
  { unfold groups_of_file. rewrite lookup_union, Rp. by destruct (known !! p). }
  assert (forall gs q, q ∈ ps -> <[p := gs]> R !! q = None /\ decoder json yaml q <> None) as F'.
  { intros gs q Q. rewrite lookup_insert_ne by (intros ->; done). apply F. by apply list_elem_of_further. }
  destruct (readFile_spec p (Open k p) d Dp) as (r & d' & E & FG & P' & L' & O). rewrite E, FG. cbn [mbind option_bind].
  assert (forall gs sent', knows (shrunk known (<[p := gs]> (R ∪ known))) (<[p := gs]> (R ∪ known)) (receive_all V0 sent') ->
    exists s d2, read_loop json yaml alive Open (S k) ps (<[p := Z.of_nat (length gs)]> (counts R)) sent' d' =
      Some (counts (refreshed known Open (S k) ps (<[p := gs]> R)), s, d2, true) /\ paths d2 = paths d /\ lastRefresh d2 = counts known /\
      knows (shrunk known (refreshed known Open (S k) ps (<[p := gs]> R) ∪ known)) (refreshed known Open (S k) ps (<[p := gs]> R) ∪ known) (receive_all V0 s)) as Rest.
  { intros gs sent' J'. destruct (IH (S k) (<[p := gs]> R) sent' d') as (s & d2 & E2 & P2 & L2 & J2); [done|by apply F'|congruence| |].
    - by rewrite <- insert_union_l.
    - unfold counts at 1 in E2. rewrite fmap_insert in E2. exists s, d2. by rewrite P2, P'. }
  destruct r as [gs|e].
  - rewrite A. apply Rest. unfold receive_all. rewrite foldl_app. by apply knows_read.
  - rewrite L', L, counts_lookup. apply Rest. destruct J as [I J].
    assert (forall f, groups_of_file (<[p := groups_of_file known p]> (R ∪ known)) f = groups_of_file (R ∪ known) f) as Same.
    { intros f. rewrite groups_of_insert. case_decide as X; [by rewrite <- X|done]. }
    split; unfold shrunk; setoid_rewrite Same; [apply I|apply J].
Qed.

(** * Removing *)

Lemma remove_loop_spec V0 alive known R : (forall k, alive k = true) -> forall (ls : list (string * Z)) sent d,
  (forall f n, (f, n) ∈ ls -> counts known !! f = Some n) ->
  knows (fun f i => shrunk known R f i /\ f ∈ map fst ls) R (receive_all V0 sent) ->
  exists sent' d', remove_loop alive (counts R) ls sent d = (sent', d', true) /\ paths d' = paths d /\ lastRefresh d' = lastRefresh d /\
    knows (fun _ _ => False) R (receive_all V0 sent').
Proof.
  intros A. induction ls as [|[f n] ls IH]; intros sent d C J; cbn [remove_loop].
  { exists sent, d. split_and!; [done..|]. eapply knows_weaken; [exact J|]. intros f i [_ X]. by apply elem_of_nil in X. }
  pose proof (counts_lookup known f) as En. rewrite (C f n) in En by apply list_elem_of_here. cbn in En. subst n.
  assert (forall f n, (f, n) ∈ ls -> counts known !! f = Some n) as C' by (intros; apply C; by apply list_elem_of_further).
  rewrite counts_lookup. destruct (negb _ || _) eqn:B.
  - destruct (send_empty_spec V0 alive f R (Z.to_nat (Z.of_nat (length (groups_of_file known f)) - Z.of_nat (length (groups_of_file R f)))) A
      (length (groups_of_file R f)) _ sent J ltac:(lia)) as (sent' & E & J'). rewrite E.
    destruct (IH sent' (deleteTimestamp f d) C') as (sent2 & d2 & E2 & P2 & L2 & J2); [|by exists sent2, d2].
    eapply knows_weaken; [exact J'|]. intros f' i [[Sh X] N]. split; [done|]. cbn in X. apply elem_of_cons in X as [->|X]; [|done].
    destruct N. split; [done|]. unfold shrunk in Sh. lia.
  - apply IH; [done..|]. eapply knows_weaken; [exact J|]. intros f' i [Sh X]. split; [done|]. cbn in X. apply elem_of_cons in X as [->|X]; [|done].
    apply orb_false_iff in B as [_ B]. apply Z.ltb_ge in B. unfold shrunk in Sh. lia.
Qed.

(** * A refresh *)

Definition next (known : file_map) (fs : files) (ps : list string) : file_map := refreshed known (Open fs) 0 ps ∅.

Lemma refresh_spec V0 known fs d :
  (forall k, Alive fs k = true) -> NoDup (listFiles (Glob fs) d) -> Forall (fun p => decoder json yaml p <> None) (listFiles (Glob fs) d) ->
  lastRefresh d = counts known -> knows (fun _ _ => False) known V0 ->
  exists new d', refresh json yaml (Alive fs) (Glob fs) (Open fs) d = Some (new, d') /\ paths d' = paths d /\
    lastRefresh d' = counts (next known fs (listFiles (Glob fs) d)) /\
    knows (fun _ _ => False) (next known fs (listFiles (Glob fs) d)) (receive_all V0 new).
Proof.
  intros A N D L J. unfold refresh, next.
  assert (knows (shrunk known (∅ ∪ known)) (∅ ∪ known) (receive_all V0 [])) as J0.
  { rewrite (left_id_L ∅ (∪)). eapply knows_weaken; [exact J|done]. }
  destruct (read_loop_spec V0 (Alive fs) known (Open fs) A _ 0 ∅ [] d N) as (sent & d' & E & P' & L' & J'); [|done|done|].
  { intros p Hp. split; [apply lookup_empty|]. by eapply Forall_forall in D. }
  change (counts ∅) with (∅ : gmap string Z) in E. rewrite E. cbn [mbind option_bind]. apply knows_forget in J'.
  set (R := refreshed known (Open fs) 0 (listFiles (Glob fs) d) ∅) in *.
  destruct (remove_loop_spec V0 (Alive fs) known R A (map_order (lastRefresh d')) sent d') as (sent2 & d2 & E2 & P2 & L2 & J2).
  - intros f n. by rewrite elem_of_map_order, L'.
  - eapply knows_weaken; [exact J'|]. intros f i S. split; [done|].
    assert (exists n, counts known !! f = Some n) as [n Hn].
    { unfold counts. rewrite lookup_fmap. unfold shrunk, groups_of_file at 2 in S. destruct (known !! f); [by eexists|cbn in S; lia]. }
    apply list_elem_of_map. exists (f, n). split; [done|]. by rewrite elem_of_map_order, L'.
  - rewrite E2. eexists _, _. split_and!; [done| |done|exact J2]. cbn. congruence.
Qed.
(** * File names *)

Definition extensions : list string := ["json"; "yml"; "yaml"; "JSON"; "YML"; "YAML"].
Definition has_extension (f : string) : Prop := exists x e, e ∈ extensions /\ f = x +:+ "." +:+ e.

Lemma valid_name f : matches patFileSDName f = true -> has_extension f.
Proof.
  rewrite matches_lang. unfold patFileSDName, opt. rewrite lang_seq_iff. setoid_rewrite lang_seq_iff. intros (s1 & ? & -> & _ & s2 & s3 & -> & _ & D).
  apply lang_seq_iff in D as (? & e & -> & D & E). apply lang_lit in D as ->. apply lang_one_of in E.
  exists (s1 +:+ s2), e. split; [done|]. by rewrite str_app_assoc.
Qed.

Lemma extension_decoder f : has_extension f -> decoder json yaml f <> None.
Proof.
  intros (x & e & E & ->). pose proof (last_index_bound x (rune "/")) as B.
  assert (last_index ("." +:+ e) (rune ".") = 0 /\ last_index ("." +:+ e) (rune "/") = -1 /\
          ToLower ("." +:+ e) ∈ [".json"; ".yml"; ".yaml"]) as (D & S & L).
  { unfold extensions in E. rewrite !elem_of_cons, elem_of_nil in E. destruct_or! E; subst e; try done;
      (split_and!; [by vm_compute..|by apply (bool_decide_unpack _); vm_compute]). }
  unfold decoder, Ext. rewrite !(last_index_app x), D, S. rewrite Z.leb_refl. change (0 <=? -1) with false. cbn iota.
  rewrite (proj2 (Z.leb_le 0 _)), (proj2 (Z.ltb_lt _ _)), Z.add_0_r, Nat2Z.id, str_drop_length_app by lia. cbn [andb].
  rewrite !elem_of_cons, elem_of_nil in L. destruct_or! L; rewrite ?L; by vm_compute.
Qed.

(** * Runs *)

Variable Chmod : Z.

(** The file system that an input makes the loop read. *)
Definition refreshing (i : input) : option files :=
  match i with
  | Started fs | Ticker fs => Some fs
  | Event name op fs => if (String.length name =? 0)%nat || (Z.lxor op Chmod =? 0) then None else Some fs
  | WatchError => None
  end.

(** No file is listed twice and no send finds the context done; what a
    pattern matches ends as the pattern does. *)
Definition good_files (conf : SDConfig) (fs : files) : Prop :=
  (forall k, Alive fs k = true) /\ NoDup (listFiles (Glob fs) (NewDiscovery conf)) /\
  forall p ps f, Glob fs p = Ok ps -> f ∈ ps -> has_extension p -> has_extension f.

Definition known_after (conf : SDConfig) (fss : list files) (K : file_map) : file_map :=
  foldl (fun K fs => next K fs (listFiles (Glob fs) (NewDiscovery conf))) K fss.

Lemma listed_decoders conf fs : Forall (fun p => matches patFileSDName p = true) (Files conf) -> good_files conf fs ->
  Forall (fun p => decoder json yaml p <> None) (listFiles (Glob fs) (NewDiscovery conf)).
Proof.
  intros V (_ & _ & G). apply Forall_forall. intros f F. apply extension_decoder. apply list_elem_of_In in F.
  apply in_flat_map in F as (p & P & F). destruct (Glob fs p) as [ps|] eqn:E; [|done].
  eapply G; [exact E|by apply list_elem_of_In|]. apply valid_name. by apply (proj1 (Forall_forall _ _) V), list_elem_of_In.
Qed.

Lemma loop_spec conf : Forall (fun p => matches patFileSDName p = true) (Files conf) -> forall ins K V d,
  Forall (good_files conf) (omap refreshing ins) -> paths d = Files conf -> lastRefresh d = counts K -> knows (fun _ _ => False) K V ->
  exists sent d', loop json yaml Chmod ins d = Some (sent, d') /\ paths d' = Files conf /\
    lastRefresh d' = counts (known_after conf (omap refreshing ins) K) /\
    knows (fun _ _ => False) (known_after conf (omap refreshing ins) K) (receive_all V sent).
Proof.
  intros C. induction ins as [|i ins IH]; intros K V d G P L J; [by exists [], d|]. cbn [loop].
  assert (forall h, refreshing i = None -> handle json yaml Chmod i d = h -> h = Some ([], d)) as Skip.
  { intros h R <-. destruct i as [| |name op fs|]; cbn in R |- *; try done. destruct (_ =? _)%nat; [done|]. by destruct (_ =? 0). }
  cbn [omap list_omap] in G |- *. destruct (refreshing i) as [fs|] eqn:R.
  - apply List.Forall_cons_iff in G as [G0 G]. assert (handle json yaml Chmod i d = refresh json yaml (Alive fs) (Glob fs) (Open fs) d) as ->.
    { destruct i as [| |name op fs'|]; cbn in R |- *; try congruence. destruct (_ =? _)%nat; [done|]. destruct (_ =? 0); [done|]. by injection R as ->. }
    assert (listFiles (Glob fs) d = listFiles (Glob fs) (NewDiscovery conf)) as EL by (unfold listFiles; by rewrite P).
    destruct (refresh_spec V K fs d) as (new & d1 & E & P1 & L1 & J1); [apply G0|rewrite EL; apply G0|rewrite EL; by apply listed_decoders|done..|].
    rewrite E. cbn [mbind option_bind fst snd]. rewrite EL in L1, J1.
    destruct (IH _ _ d1 G (eq_trans P1 P) L1 J1) as (sent & d2 & E2 & P2 & L2 & J2). rewrite E2. eexists _, _. split_and!; [done..|].
    unfold receive_all in *. by rewrite foldl_app.
  - rewrite (Skip _ eq_refl eq_refl). cbn [mbind option_bind fst snd]. destruct (IH K V d G P L J) as (sent & d2 & E2 & R2). rewrite E2. by exists sent, d2.
Qed.
End history.


(** * Witness: a file that loses its second group *)

#[local] Existing Instances any_print tree_order.

Definition number_of_groups (s : string) : result string (list (option TargetGroup)) :=
  Ok (if (s =? "2")%string then [Some (host_group "a"); Some (host_group "b")] else [Some (host_group "a")]).
Definition with_content (s : string) : files :=
  mkFiles (fun p => Ok [p]) (fun _ _ => Ok (mkOpened (Ok s) (Ok 1000))) (fun _ => true).
Definition one_file : SDConfig := mkSDConfig ["t.json"] (5 * Minute).

