(* ===== verification/Marathon.v ===== *)
(** discovery/marathon/marathon.go: discovery of the tasks that a Marathon
    server runs, and that the discovery manager has the groups of the last list
    of apps that could be fetched.

    The HTTP client and the JSON decoder are parameters. *)

From S2P Require Import Prelude GoString GoFmt Duration Target Discovery DiscoveryFacts.

(** * Apps *)

Record Task := mkTask { t_ID : string; t_Host : string; Ports : list Z }.

(** The labels of port mappings and definitions are all that they have. *)
Record App := mkApp {
  a_ID : string; Tasks : list Task; a_Labels : gmap string string; Image : string;
  DockerPortMappings : list (gmap string string); PortMappings : list (gmap string string); PortDefinitions : list (gmap string string)
}.

Definition metaLabelPrefix : string := MetaLabelPrefix +:+ "marathon_".
Definition appLabelPrefix : string := metaLabelPrefix +:+ "app_label_".
Definition appLabel : string := metaLabelPrefix +:+ "app".
Definition imageLabel : string := metaLabelPrefix +:+ "image".
Definition portIndexLabel : string := metaLabelPrefix +:+ "port_index".
Definition taskLabel : string := metaLabelPrefix +:+ "task".
Definition portMappingLabelPrefix : string := metaLabelPrefix +:+ "port_mapping_label_".
Definition portDefinitionLabelPrefix : string := metaLabelPrefix +:+ "port_definition_label_".
Definition appListPath : string := "/v2/apps/?embed=apps.tasks".

(** * Configuration *)

(** What the code reads of the settings of the HTTP client. *)
Record HTTPClientConfig := mkHTTP { has_BasicAuth : bool; BearerToken : string; BearerTokenFile : string }.
Record SDConfig := mkSDConfig {
  Servers : list string; RefreshInterval : Duration; AuthToken : string; AuthTokenFile : string; http_config : HTTPClientConfig
}.
Definition DefaultSDConfig : SDConfig := mkSDConfig [] (30 * Second) "" "" (mkHTTP false "" "").

Definition given (s : string) : bool := (0 <? String.length s)%nat.

Definition SDConfig_UnmarshalYAML (Validate : HTTPClientConfig -> option string) (unmarshal : SDConfig -> result string SDConfig) : result string SDConfig :=
  match unmarshal DefaultSDConfig with
  | Err e => Err e
  | Ok c =>
    let token := given (AuthToken c) || given (AuthTokenFile c) in
    let h := http_config c in
    if (length (Servers c) =? 0)%nat then Err "marathon_sd: must contain at least one Marathon server"
    else if given (AuthToken c) && given (AuthTokenFile c) then Err "marathon_sd: at most one of auth_token & auth_token_file must be configured"
    else if has_BasicAuth h && token then Err "marathon_sd: at most one of basic_auth, auth_token & auth_token_file must be configured"
    else if (given (BearerToken h) || given (BearerTokenFile h)) && token then
      Err "marathon_sd: at most one of bearer_token, bearer_token_file, auth_token & auth_token_file must be configured"
    else match Validate h with Some e => Err e | None => Ok c end
  end.

(** * Target groups *)

Section marathon.
Context `{MO : MapOrder}.

Definition targetForTask (task : Task) (port : Z) : string := JoinHostPort (t_Host task) (Itoa port).

Definition add_labels (prefix : string) (kvs : gmap string string) (target : gmap string string) : gmap string string :=
  foldl (fun t kv => <[prefix +:+ SanitizeLabelName kv.1 := kv.2]> t) target (map_order kvs).
(** The labels of the [i]th port, when there are as many. *)
Definition port_labels (prefix : string) (i : nat) (ports : list (gmap string string)) (target : gmap string string) : gmap string string :=
  match ports !! i with Some kvs => add_labels prefix kvs target | None => target end.

Definition task_target (app : App) (t : Task) (i : nat) (port : Z) : gmap string string :=
  let target : gmap string string :=
    <[portIndexLabel := Itoa (Z.of_nat i)]> (<[taskLabel := t_ID t]> {[AddressLabel := targetForTask t port]}) in
  port_labels portMappingLabelPrefix i (PortMappings app)
    (port_labels portMappingLabelPrefix i (DockerPortMappings app) (port_labels portDefinitionLabelPrefix i (PortDefinitions app) target)).

(** Tasks without ports have no targets. *)
Definition targetsForApp (app : App) : list (gmap string string) :=
  flat_map (fun t => imap (task_target app t) (Ports t)) (Tasks app).

Definition createTargetGroup (app : App) : TargetGroup :=
  mkTargetGroup (targetsForApp app) (add_labels appLabelPrefix (a_Labels app) (<[imageLabel := Image app]> {[appLabel := a_ID app]})) (a_ID app).

Definition AppsToTargetGroups (apps : list App) : gmap string TargetGroup :=
  foldl (fun tgroups a => let group := createTargetGroup a in <[Source group := group]> tgroups) ∅ apps.

(** * Fetching *)

Variable parseAppJSON : string -> result string (list App).

(** [Do]: a request's status and body, or the reason why there is none. *)
Variable Do : string -> result string (Z * result string string).

Definition fetchApps (url : string) : result string (list App) :=
  '(StatusCode, body) ← Do url;
  if (StatusCode <? 200) || (300 <=? StatusCode) then Err ("Non 2xx status '" +:+ Itoa StatusCode +:+ "' response during marathon service discovery")
  else
    body ← body;
    match parseAppJSON body with Ok apps => Ok apps | Err e => Err (e +:+ " in " +:+ url) end.

(** The server with a random number; [rand.Intn] panics without servers. *)
Definition RandomAppsURL (n : nat) (servers : list string) : option string :=
  server ← servers !! (n mod length servers)%nat; Some (server +:+ appListPath).

Record Discovery := mkDiscovery { servers : list string; lastRefresh : gmap string TargetGroup }.
Definition NewDiscovery (conf : SDConfig) : Discovery := mkDiscovery (Servers conf) ∅.

Definition fetchTargetGroups (n : nat) (d : Discovery) : option (result string (gmap string TargetGroup)) :=
  url ← RandomAppsURL n (servers d); Some (apps ← fetchApps url; Ok (AppsToTargetGroups apps)).

(** [updateServices], given what was fetched and when everything that is sent
    is received: the slices that are sent. *)
Definition updateServices (targetMap : result string (gmap string TargetGroup)) (d : Discovery) : list (list TargetGroup) * Discovery :=
  match targetMap with
  | Err _ => ([], d)
  | Ok targetMap =>
    (map snd (map_order targetMap) ::
     omap (fun sg => match targetMap !! sg.1 with Some _ => None | None => Some [mkTargetGroup [] ∅ sg.1] end) (map_order (lastRefresh d)),
     mkDiscovery (servers d) targetMap)
  end.

End marathon.

Section facts.
Context `{MO : MapOrder} (parseAppJSON : string -> result string (list App)).

(** [Run]: what is sent over a sequence of ticks, each with a random number and
    the answers of the servers; [None] is a panic. *)
Fixpoint Run (ticks : list (nat * (string -> result string (Z * result string string)))) (d : Discovery) : option (list (list TargetGroup) * Discovery) :=
  match ticks with
  | [] => Some ([], d)
  | (n, Do) :: ticks =>
    tgs ← fetchTargetGroups parseAppJSON Do n d;
    let (sent, d) := updateServices tgs d in
    '(rest, d) ← Run ticks d; Some (sent ++ rest, d)
  end.

(** The groups of the last list of apps that was fetched. *)
Definition last_list (servers : list string) (n : nat) (Do : string -> result string (Z * result string string)) (m : gmap string TargetGroup) : gmap string TargetGroup :=
  match url ← RandomAppsURL n servers; Some (fetchApps parseAppJSON Do url) with Some (Ok apps) => AppsToTargetGroups apps | _ => m end.
Definition last_apps (servers : list string) (ticks : list (nat * (string -> result string (Z * result string string)))) (m : gmap string TargetGroup) : gmap string TargetGroup :=
  foldl (fun m tick => last_list servers tick.1 tick.2 m) m ticks.

Lemma AppsToTargetGroups_source apps s g : AppsToTargetGroups apps !! s = Some g -> Source g = s.
Proof.
  unfold AppsToTargetGroups. assert (I : forall s g, (∅ : gmap string TargetGroup) !! s = Some g -> Source g = s) by done. revert I.
  generalize (∅ : gmap string TargetGroup). intros m I. revert s g. induction apps as [|a apps IH] in m, I |- *; [done|]. cbn [foldl]. apply IH.
  intros s g. destruct (decide (a_ID a = s)) as [<-|N]; [rewrite lookup_insert_eq; by intros [= <-]|rewrite lookup_insert_ne by done; apply I].
Qed.

(** What was sent so far is what the last list says. *)
Definition current (m V : gmap string TargetGroup) : Prop :=
  (forall s g, m !! s = Some g -> Source g = s /\ V !! s = Some g) /\ forall s g, m !! s = None -> V !! s = Some g -> tg_Targets g = [].

Lemma existsb_source gs s : existsb (fun g => (Source g =? s)%string) gs = true <-> exists g, g ∈ gs /\ Source g = s.
Proof.
  rewrite existsb_exists. split; intros (g & I & E); exists g; rewrite ?list_elem_of_In, ?String.eqb_eq in *; by rewrite ?list_elem_of_In, ?String.eqb_eq.
Qed.

Lemma elem_of_sent tm d g : g ∈ concat (updateServices (Ok tm) d).1 <->
  (exists s, tm !! s = Some g) \/ exists s, tm !! s = None /\ is_Some (lastRefresh d !! s) /\ g = mkTargetGroup [] ∅ s.
Proof.
  cbn [updateServices fst concat]. rewrite elem_of_app.
  apply Morphisms_Prop.or_iff_morphism.
  - rewrite list_elem_of_In, in_map_iff. split.
    + intros ([s g'] & <- & I). exists s. by apply list_elem_of_In, elem_of_map_order in I.
    + intros [s E]. exists (s, g). split; [done|]. by apply list_elem_of_In, elem_of_map_order.
  - rewrite list_elem_of_In, in_concat. split.
    + intros (l & I & Ig). apply list_elem_of_In, list_elem_of_omap in I as ([s g'] & I & E). apply elem_of_map_order in I. cbn in E.
      destruct (tm !! s) eqn:T; [done|]. injection E as <-. destruct Ig as [<-|[]]. exists s. by rewrite I.
    + intros (s & T & [g' I] & ->). exists [mkTargetGroup [] ∅ s]. split; [|by left].
      apply list_elem_of_In, list_elem_of_omap. exists (s, g'). cbn. rewrite T. split; [by apply elem_of_map_order|done].
Qed.

Lemma update_current r d V : (forall tm s g, r = Ok tm -> tm !! s = Some g -> Source g = s) -> current (lastRefresh d) V ->
  let '(sent, d') := updateServices r d in
  current (lastRefresh d') (receive_all V sent) /\ servers d' = servers d /\ lastRefresh d' = match r with Ok tm => tm | Err _ => lastRefresh d end.
Proof.
  intros Src [C1 C2]. destruct r as [tm|e]; [|by split]. pose proof (elem_of_sent tm d) as E. destruct (updateServices (Ok tm) d) as [sent d'] eqn:U.
  assert (lastRefresh d' = tm /\ servers d' = servers d) as [-> Sv] by (by injection U as _ <-). split; [|done]. rewrite receive_all_concat. split.
  - intros s g T. split; [by apply (Src tm)|]. rewrite (receive_one V _ s g).
    + rewrite (proj2 (existsb_source _ _)); [done|]. exists g. split; [apply E; left; by exists s|by apply (Src tm)].
    + intros h [[s' T']|(s' & T' & _ & ->)]%E H; [pose proof (Src tm s' h eq_refl T'); congruence|cbn in H; congruence].
  - intros s g T. rewrite (receive_one V _ s (mkTargetGroup [] ∅ s)).
    + destruct (existsb _ _) eqn:X; [by intros [= <-]|]. destruct (lastRefresh d !! s) as [h|] eqn:L; [|by apply C2].
      assert (existsb (fun g => (Source g =? s)%string) (concat sent) = true) as Y; [|by rewrite Y in X].
      apply existsb_source. exists (mkTargetGroup [] ∅ s). split; [|done]. apply E. right. exists s. by rewrite L.
    + intros h [[s' T']|(s' & T' & _ & ->)]%E H; [pose proof (Src tm s' h eq_refl T'); congruence|cbn in H; by rewrite H].
Qed.

Lemma Run_current ticks : forall d V, servers d <> [] -> current (lastRefresh d) V ->
  exists sent d', Run ticks d = Some (sent, d') /\ current (last_apps (servers d) ticks (lastRefresh d)) (receive_all V sent).
Proof.
  induction ticks as [|[n Do] ticks IH]; intros d V N C; [by exists [], d|]. cbn [Run].
  unfold last_apps. cbn [foldl fst snd]. change (foldl _ ?m ticks) with (last_apps (servers d) ticks m).
  unfold fetchTargetGroups, last_list, RandomAppsURL.
  destruct (servers d !! (n mod length (servers d))%nat) as [server|] eqn:S.
  2: { apply lookup_ge_None in S. pose proof (Nat.mod_upper_bound n (length (servers d)) ltac:(by destruct (servers d))). lia. }
  cbn [mbind option_bind]. set (r := fetchApps parseAppJSON Do (server +:+ appListPath)).
  pose proof (update_current (apps ← r; Ok (AppsToTargetGroups apps)) d V) as U.
  destruct (updateServices _ d) as [sent d'] eqn:E. destruct U as (C' & Sv & L); [|done|].
  { intros tm s g T. destruct r as [apps|]; [|done]. injection T as <-. apply AppsToTargetGroups_source. }
  destruct (IH d' (receive_all V sent)) as (rest & d2 & R & C2); [by rewrite Sv|done|].
  exists (sent ++ rest), d2. rewrite R. split; [done|]. rewrite Sv, L in C2. unfold receive_all in *. rewrite foldl_app.
  by destruct r as [apps|].
Qed.

(** Whatever the servers answer, the discovery manager has for every app of the
    last list that could be fetched its group as it was there, and no targets
    for any other app; a fetch that fails changes nothing. [Run] does not panic
    with a configuration that was accepted. *)
Theorem marathon_current Validate unmarshal conf ticks key (U : SDConfig_UnmarshalYAML Validate unmarshal = Ok conf) :
  exists sent d, Run ticks (NewDiscovery conf) = Some (sent, d) /\
    let held := view (updateGroup key (map Some (concat sent)) ∅) key in
    forall s, match last_apps (Servers conf) ticks ∅ !! s with
              | Some g => held !! s = Some g
              | None => forall g, held !! s = Some g -> tg_Targets g = []
              end.
Proof.
  assert (Servers conf <> []) as N.
  { unfold SDConfig_UnmarshalYAML in U. destruct (unmarshal _) as [c|]; [|done]. destruct (Servers c) as [|? ?] eqn:E; [done|]. cbn [length Nat.eqb] in U.
    repeat match type of U with (if ?b then _ else _) = _ => destruct b; [done|] end. destruct (Validate _); [done|]. injection U as <-. by rewrite E. }
  destruct (Run_current ticks (NewDiscovery conf) ∅ N) as (sent & d & R & [C1 C2]); [by split|].
  exists sent, d. split; [done|]. cbn zeta. rewrite view_sent. intros s. destruct (last_apps _ _ _ !! s) as [g|] eqn:L; [by apply C1|].
  intros g. by apply C2.
Qed.
End facts.
