(* ===== verification/Dns.v ===== *)
(** discovery/dns/dns.go: discovery by DNS records.

    The resolver's configuration and the exchanges with its servers are
    parameters; an exchange may answer differently each time, so they are
    numbered. *)

From S2P Require Import Prelude GoString GoFmt Duration Alerting Target Discovery DiscoveryFacts.

(** * Messages of the DNS library *)

Inductive RR := SRV (Target : string) (Port : Z) | A (addr : string) | AAAA (addr : string) | OtherRR.
Record Msg := mkMsg { Id : Z; Rcode : Z; Answer : list RR }.

Definition RcodeSuccess : Z := 0.
Definition RcodeNameError : Z := 3.
Definition TypeA : Z := 1.
Definition TypeAAAA : Z := 28.
Definition TypeSRV : Z := 33.

(** The question: over TCP or not, with the option for larger messages or
    not. *)
Record request := mkRequest { q_tcp : bool; q_edns : bool; q_id : Z; q_name : string; q_type : Z; q_server : string }.
Inductive exchange_error := ErrTruncated | OtherErr (e : string).

Record ClientConfig := mkClientConfig { Servers : list string; Port_ : string; NameList : string -> list string }.

(** * Configuration *)

(** [strings.ToUpper], as far as a comparison with ASCII text can tell: of the
    other letters the long s and the dotless i have ASCII capitals. *)
Definition upper_byte (c : ascii) : ascii := if (rune "a" <=? rune c) && (rune c <=? rune "z") then byte_of (rune c - 32) else c.
Fixpoint ToUpper (s : string) : string :=
  match s with
  | String c (String d t as s) =>
    if (rune c =? 197) && (rune d =? 191) then String "S" (ToUpper t)
    else if (rune c =? 196) && (rune d =? 177) then String "I" (ToUpper t)
    else String (upper_byte c) (ToUpper s)
  | String c "" => String (upper_byte c) ""
  | EmptyString => ""
  end.

Record SDConfig := mkSDConfig { Names : list string; RefreshInterval : Duration; Type_ : string; Port : Z }.
Definition DefaultSDConfig : SDConfig := mkSDConfig [] (30 * Second) "SRV" 0.

Definition SDConfig_UnmarshalYAML (unmarshal : SDConfig -> result string SDConfig) : result string SDConfig :=
  match unmarshal DefaultSDConfig with
  | Err e => Err e
  | Ok c =>
    if (length (Names c) =? 0)%nat then Err "DNS-SD config must contain at least one SRV record name"
    else
      let t := ToUpper (Type_ c) in
      if (t =? "SRV")%string then Ok c
      else if (t =? "A")%string || (t =? "AAAA")%string then
        if Port c =? 0 then Err "a port is required in DNS-SD configs for all record types except SRV" else Ok c
      else Err ("invalid DNS-SD records type " +:+ Type_ c)
  end.

Record Discovery := mkDiscovery { names : list string; interval : Duration; port : Z; qtype : Z }.
Definition NewDiscovery (conf : SDConfig) : Discovery :=
  let t := ToUpper (Type_ conf) in
  let qtype := if (t =? "A")%string then TypeA else if (t =? "AAAA")%string then TypeAAAA else TypeSRV in
  mkDiscovery (Names conf) (RefreshInterval conf) (Port conf) qtype.

(** [strings.TrimRight] of dots. *)
Fixpoint trim_dots (s : string) : string :=
  match s with
  | EmptyString => ""
  | String c s => match trim_dots s with "" => if Ascii.eqb c "." then "" else String c "" | t => String c t end
  end.

Section dns.
Context `{UT : UnicodeTables}.

(** The [n]th exchange; the identifier of the [n]th question is random; and
    what a domain name is made fully qualified. *)
Variable Exchange : nat -> request -> result exchange_error Msg.
Variable new_id : nat -> Z.
Variable Fqdn : string -> string.

(** * Looking up *)

(** [askServerForName]: a truncated answer is asked for again over TCP, once;
    the client stays on TCP.  The result has the client's network and the
    number of exchanges so far. *)
Definition ask_once (n : nat) (tcp : bool) (name : string) (queryType : Z) (servAddr : string) (edns : bool) : result exchange_error Msg :=
  Exchange n (mkRequest tcp edns (new_id n) (Fqdn name) queryType servAddr).
Definition check_id (n : nat) (r : result exchange_error Msg) : result string Msg :=
  match r with
  | Err ErrTruncated => Err "got truncated message on TCP (64kiB limit exceeded?)"
  | Err (OtherErr e) => Err e
  | Ok response =>
    if negb (new_id n =? Id response) then Err ("DNS ID mismatch, request: " +:+ Itoa (new_id n) +:+ ", response: " +:+ Itoa (Id response))
    else Ok response
  end.
Definition askServerForName (n : nat) (tcp : bool) (name : string) (queryType : Z) (servAddr : string) : result string Msg * bool * nat :=
  match ask_once n tcp name queryType servAddr true with
  | Err ErrTruncated =>
    if tcp then (check_id n (Err ErrTruncated), tcp, S n)
    else (check_id (S n) (ask_once (S n) true name queryType servAddr false), true, S (S n))
  | r => (check_id n r, tcp, S n)
  end.

(** [lookupFromAnyServer]: the servers are asked in turn, with one client. *)
Fixpoint ask_servers (n : nat) (tcp : bool) (name : string) (qtype : Z) (port : string) (servers : list string) : result string Msg * nat :=
  match servers with
  | [] => (Err ("could not resolve " +:+ name +:+ ": no servers returned a viable answer"), n)
  | server :: servers =>
    match askServerForName n tcp name qtype (JoinHostPort server port) with
    | (Err _, tcp, n) => ask_servers n tcp name qtype port servers
    | (Ok msg, tcp, n) =>
      if (Rcode msg =? RcodeSuccess) || (Rcode msg =? RcodeNameError) then (Ok msg, n) else ask_servers n tcp name qtype port servers
    end
  end.
Definition lookupFromAnyServer (n : nat) (name : string) (qtype : Z) (conf : ClientConfig) : result string Msg * nat :=
  ask_servers n false name qtype (Port_ conf) (Servers conf).

(** [lookupWithSearchPath] *)
Fixpoint search_loop (n : nat) (allResponsesValid : bool) (name : string) (qtype : Z) (conf : ClientConfig) (lnames : list string) : result string Msg * nat :=
  match lnames with
  | [] =>
    (if allResponsesValid then Ok (mkMsg 0 0 [])
     else Err ("could not resolve " +:+ Quote name +:+ ": all servers responded with errors to at least one search domain"), n)
  | lname :: lnames =>
    match lookupFromAnyServer n lname qtype conf with
    | (Err _, n) => search_loop n false name qtype conf lnames
    | (Ok response, n) => if Rcode response =? RcodeSuccess then (Ok response, n) else search_loop n allResponsesValid name qtype conf lnames
    end
  end.
Definition lookupWithSearchPath (n : nat) (name : string) (qtype : Z) (resolvConf : result string ClientConfig) : result string Msg * nat :=
  match resolvConf with
  | Err e => (Err ("could not load resolv.conf: " +:+ e), n)
  | Ok conf => search_loop n true name qtype conf (NameList conf name)
  end.

(** * Refreshing *)

Definition dnsNameLabel : string := MetaLabelPrefix +:+ "dns_name".

(** The address of a record; others are skipped. *)
Definition record_target (d : Discovery) (r : RR) : option string :=
  match r with
  | SRV target p => Some (JoinHostPort (trim_dots target) (Itoa p))
  | A addr | AAAA addr => Some (JoinHostPort addr (Itoa (port d)))
  | OtherRR => None
  end.
Definition dns_group (d : Discovery) (name : string) (answer : list RR) : TargetGroup :=
  mkTargetGroup (map (fun target => <[AddressLabel := target]> {[dnsNameLabel := name]}) (omap (record_target d) answer)) ∅ name.

(** [refresh], when the group is received: what is sent, or the error. *)
Definition refresh (n : nat) (d : Discovery) (name : string) (resolvConf : result string ClientConfig) : result string TargetGroup * nat :=
  match lookupWithSearchPath n name (qtype d) resolvConf with
  | (Err e, n) => (Err e, n)
  | (Ok response, n) => (Ok (dns_group d name (Answer response)), n)
  end.

(** [refreshAll] refreshes the names at the same time: their groups are sent
    in the order in which the lookups end. A run is a sequence of refreshes in
    that order; as an exchange may have any answer, how the lookups overlap makes
    no difference. *)
Fixpoint run (n : nat) (d : Discovery) (ns : list (string * result string ClientConfig)) : list (list TargetGroup) * nat :=
  match ns with
  | [] => ([], n)
  | (name, conf) :: ns =>
    match refresh n d name conf with
    | (Err _, n) => run n d ns
    | (Ok g, n) => let (sent, n) := run n d ns in ([g] :: sent, n)
    end
  end.

(** * The outcomes of a lookup *)

(** What becomes of the answer to the [n]th question. *)
Definition accepted (n : nat) (r : result exchange_error Msg) (o : option Msg) : Prop :=
  match r with
  | Ok m => o = (if decide (Id m = new_id n) then Some m else None)
  | Err _ => o = None
  end.

(** How a server is asked, from the [n]th exchange on: with the option for
    larger messages; again over TCP, and without the option, when the answer was
    truncated and did not come over TCP; not a third time. *)
Inductive asks (name : string) (qt : Z) (addr : string) : nat -> bool -> option Msg -> bool -> nat -> Prop :=
| asks_once n tcp r o :
    Exchange n (mkRequest tcp true (new_id n) (Fqdn name) qt addr) = r -> (r = Err ErrTruncated -> tcp = true) -> accepted n r o ->
    asks name qt addr n tcp o tcp (S n)
| asks_again n r o :
    Exchange n (mkRequest false true (new_id n) (Fqdn name) qt addr) = Err ErrTruncated ->
    Exchange (S n) (mkRequest true false (new_id (S n)) (Fqdn name) qt addr) = r -> accepted (S n) r o ->
    asks name qt addr n false o true (S (S n)).

(** An answer that settles the question for one name. *)
Definition viable (m : Msg) : Prop := Rcode m = RcodeSuccess \/ Rcode m = RcodeNameError.

(** The servers are asked in turn, up to the first viable answer; after a
    truncated answer the others are asked over TCP too. *)
Inductive tries (name : string) (qt : Z) (p : string) : list string -> nat -> bool -> option Msg -> nat -> Prop :=
| tries_none n tcp : tries name qt p [] n tcp None n
| tries_viable server servers n tcp m tcp' n' :
    asks name qt (JoinHostPort server p) n tcp (Some m) tcp' n' -> viable m -> tries name qt p (server :: servers) n tcp (Some m) n'
| tries_next server servers n tcp o tcp' n' r n'' :
    asks name qt (JoinHostPort server p) n tcp o tcp' n' -> (forall m, o = Some m -> ~ viable m) ->
    tries name qt p servers n' tcp' r n'' -> tries name qt p (server :: servers) n tcp r n''.

(** What comes of each of the names in turn, if all are asked. *)
Inductive outcomes (qt : Z) (conf : ClientConfig) : nat -> list string -> list (option Msg) -> Prop :=
| outcomes_nil n : outcomes qt conf n [] []
| outcomes_cons n lname lnames r n' rs :
    tries lname qt (Port_ conf) (Servers conf) n false r n' -> outcomes qt conf n' lnames rs -> outcomes qt conf n (lname :: lnames) (r :: rs).

(** An answer that ends the search. *)
Definition is_success (r : option Msg) : bool := match r with Some m => Rcode m =? RcodeSuccess | None => false end.

Fixpoint dots (k : nat) : string := match k with O => "" | S k => "." +:+ dots k end.

(** The targets that a list of records stands for; the host of an SRV record
    is what is in front of the dots at its end. *)
Inductive record_targets (d : Discovery) (name : string) : list RR -> list (gmap string string) -> Prop :=
| rt_nil : record_targets d name [] []
| rt_SRV host k p rs ts : (forall h, host <> h +:+ ".") -> record_targets d name rs ts ->
    record_targets d name (SRV (host +:+ dots k) p :: rs) ({[AddressLabel := JoinHostPort host (Itoa p); dnsNameLabel := name]} :: ts)
| rt_A addr rs ts : record_targets d name rs ts ->
    record_targets d name (A addr :: rs) ({[AddressLabel := JoinHostPort addr (Itoa (port d)); dnsNameLabel := name]} :: ts)
| rt_AAAA addr rs ts : record_targets d name rs ts ->
    record_targets d name (AAAA addr :: rs) ({[AddressLabel := JoinHostPort addr (Itoa (port d)); dnsNameLabel := name]} :: ts)
| rt_Other rs ts : record_targets d name rs ts -> record_targets d name (OtherRR :: rs) ts.

(** The records of the last answer for a name, over a run of refreshes. *)
Fixpoint last_answer (n : nat) (d : Discovery) (name : string) (ns : list (string * result string ClientConfig)) (before : option (list RR)) : option (list RR) :=
  match ns with
  | [] => before
  | (x, conf) :: ns =>
    let (r, n') := lookupWithSearchPath n x (qtype d) conf in
    last_answer n' d name ns (match r with Ok m => if (x =? name)%string then Some (Answer m) else before | Err _ => before end)
  end.

Definition answer_of (r : result string Msg) : option Msg := match r with Ok m => Some m | Err _ => None end.

Lemma check_id_accepted n r : accepted n r (answer_of (check_id n r)).
Proof.
  unfold check_id, accepted. destruct r as [m|[|e]]; [|done..]. case_decide as E; [by rewrite E, Z.eqb_refl|].
  by destruct (Z.eqb_spec (new_id n) (Id m)) as [X|]; [destruct E|].
Qed.

Lemma askServerForName_asks n tcp name qt addr r tcp' n' :
  askServerForName n tcp name qt addr = (r, tcp', n') -> asks name qt addr n tcp (answer_of r) tcp' n'.
Proof.
  unfold askServerForName. intros E. destruct (ask_once n tcp name qt addr true) as [m|[|e]] eqn:X.
  - injection E as <- <- <-. by eapply asks_once; [exact X| |apply check_id_accepted].
  - destruct tcp.
    + injection E as <- <- <-. eapply asks_once; [exact X|done|]. exact (check_id_accepted n (Err ErrTruncated)).
    + injection E as <- <- <-. eapply asks_again; [exact X|done|apply check_id_accepted].
  - injection E as <- <- <-. by eapply asks_once; [exact X| |apply (check_id_accepted n (Err (OtherErr e)))].
Qed.

Lemma ask_servers_tries servers name qt p : forall n tcp r n',
  ask_servers n tcp name qt p servers = (r, n') -> tries name qt p servers n tcp (answer_of r) n'.
Proof.
  induction servers as [|s servers IH]; intros n tcp r n'; cbn [ask_servers]; [intros [= <- <-]; constructor|].
  destruct (askServerForName _ _ _ _ _) as [[o tcp'] n2] eqn:E. apply askServerForName_asks in E. destruct o as [m|e]; cbn [answer_of] in E.
  - destruct ((Rcode m =? RcodeSuccess) || (Rcode m =? RcodeNameError)) eqn:V.
    + intros [= <- <-]. eapply tries_viable; [exact E|]. unfold viable. apply orb_true_iff in V as [V|V]; apply Z.eqb_eq in V; auto.
    + intros R. eapply tries_next; [exact E| |by apply IH]. intros m' [= <-] [W|W]; by rewrite W in V.
  - intros R. eapply tries_next; [exact E|done|by apply IH].
Qed.

Lemma tries_are_viable name qt p servers n tcp m n' : tries name qt p servers n tcp (Some m) n' -> viable m.
Proof. remember (Some m) as o eqn:E. induction 1; simplify_eq; auto. Qed.

Lemma outcomes_viable qt conf n lnames os m : outcomes qt conf n lnames os -> Some m ∈ os -> viable m.
Proof.
  induction 1 as [|n l ls r n' rs T _ IH]; [by intros ?%elem_of_nil|]. intros [<-|I]%elem_of_cons; [by eapply tries_are_viable|by apply IH].
Qed.

Lemma search_path_spec name qt conf : forall lnames n ok, exists os, outcomes qt conf n lnames os /\
  let r := (search_loop n ok name qt conf lnames).1 in
  match List.find is_success os with
  | Some s => answer_of r = s
  | None => if ok && forallb (fun o => match o with Some _ => true | None => false end) os then r = Ok (mkMsg 0 0 []) else exists e, r = Err e
  end.
Proof.
  induction lnames as [|l lnames IH]; intros n ok; cbn [search_loop]; [exists []; split; [constructor|]; destruct ok; cbn; eauto|].
  destruct (lookupFromAnyServer n l qt conf) as [r n'] eqn:E. apply ask_servers_tries in E. destruct r as [m|e]; cbn [answer_of] in E.
  - destruct (IH n' ok) as (os & O & S). exists (Some m :: os). split; [by econstructor|]. cbn [List.find is_success forallb].
    by destruct (Rcode m =? RcodeSuccess).
  - destruct (IH n' false) as (os & O & S). exists (None :: os). split; [by econstructor|]. cbn [List.find is_success forallb andb] in *.
    by rewrite andb_false_r.
Qed.

(** ** What the discovery manager is told *)

Lemma trim_dots_spec s : exists k, s = trim_dots s +:+ dots k /\ forall h, trim_dots s <> h +:+ ".".
Proof.
  induction s as [|c s (k & E & N)]; [exists 0%nat; split; [done|by intros []]|]. cbn [trim_dots]. destruct (trim_dots s) as [|d t] eqn:T.
  - destruct (Ascii.eqb_spec c ".") as [->|D]; [exists (S k); split; [by rewrite E at 1|by intros []]|].
    exists k. split; [by rewrite E at 1|]. intros [|e h] H; [by injection H|]. injection H as _ H. by destruct h.
  - exists k. split; [by rewrite E at 1|]. intros [|e h] H; [by injection H|]. injection H as _ H. by apply (N h).
Qed.

Lemma group_targets d name answer : record_targets d name answer (tg_Targets (dns_group d name answer)).
Proof.
  induction answer as [|[host p| | |] answer IH]; [by constructor| |by constructor..].
  destruct (trim_dots_spec host) as (k & E & N). rewrite E at 1. by apply rt_SRV.
Qed.

Lemma run_latest d name ns : forall n V before,
  V !! name = dns_group d name <$> before ->
  receive_all V (run n d ns).1 !! name = dns_group d name <$> last_answer n d name ns before.
Proof.
  induction ns as [|[x conf] ns IH]; intros n V before B; [done|]. cbn [run last_answer]. unfold refresh.
  destruct (lookupWithSearchPath n x (qtype d) conf) as [[m|e] n']; [|by apply IH].
  specialize (IH n' (<[x := dns_group d x (Answer m)]> V) (if (x =? name)%string then Some (Answer m) else before)).
  destruct (run n' d ns) as [sent n2]. cbn [fst] in *.
  change (receive_all V ([dns_group d x (Answer m)] :: sent)) with (receive_all (<[x := dns_group d x (Answer m)]> V) sent). apply IH.
  destruct (String.eqb_spec x name) as [->|N]; [by rewrite lookup_insert_eq|by rewrite lookup_insert_ne].
Qed.

(** C23: a DNS lookup, whatever the servers answer.  Each name of the search
    path is asked of the servers in turn, up to the first answer that is for the
    question asked and says that the name exists or that it does not; a
    truncated answer is asked for again, once, of the same server over TCP.  The
    three outcomes that the comment of [lookupWithSearchPath] describes are the
    only ones: the first name that exists gives its answer, also when there are
    no records in it; with no such name, and every name known not to exist,
    there are no records; otherwise it is an error. *)
Theorem dns_lookup_outcomes (n : nat) (name : string) (qt : Z) (conf : ClientConfig) :
  exists os, outcomes qt conf n (NameList conf name) os /\
  let r := (lookupWithSearchPath n name qt (Ok conf)).1 in
  ((exists i m, r = Ok m /\ Rcode m = RcodeSuccess /\ os !! i = Some (Some m) /\
     forall j m', (j < i)%nat -> os !! j = Some (Some m') -> Rcode m' = RcodeNameError) \/
   (r = Ok (mkMsg 0 0 []) /\ forall o, o ∈ os -> exists m, o = Some m /\ Rcode m = RcodeNameError) \/
   ((exists e, r = Err e) /\ None ∈ os /\ forall m, Some m ∈ os -> Rcode m = RcodeNameError)).
Proof.
  destruct (search_path_spec name qt conf (NameList conf name) n true) as (os & O & S). exists os. split; [exact O|]. cbn zeta in *.
  unfold lookupWithSearchPath. set (r := (search_loop _ _ _ _ _ _).1) in *.
  assert (forall m, Some m ∈ os -> is_success (Some m) = false -> Rcode m = RcodeNameError) as NX.
  { intros m I B. destruct (outcomes_viable _ _ _ _ _ _ O I) as [X|X]; [|done]. cbn in B. by apply Z.eqb_neq in B. }
  destruct (List.find is_success os) as [s|] eqn:F.
  - left. apply find_some_first in F as (i & Hi & Hs & Before). destruct s as [m|]; [|done]. exists i, m. apply Z.eqb_eq in Hs as Hr.
    split; [destruct r as [m0|e0]; cbn in S; congruence|]. split; [done|]. split; [done|].
    intros j m' J L. apply NX; [by apply list_elem_of_lookup_2 in L|]. by apply (Before j).
  - right. apply find_none_forall in F. assert (forall m, Some m ∈ os -> Rcode m = RcodeNameError) as NX'.
    { intros m I. apply NX; [done|]. eapply Forall_forall in F; [|exact I]. exact F. }
    destruct (forallb _ os) eqn:B.
    + left. split; [exact S|]. intros o I. rewrite forallb_forall in B. apply list_elem_of_In, B in I as X. destruct o as [m|]; [|done].
      exists m. split; [done|]. by apply NX', list_elem_of_In.
    + right. split; [exact S|]. split; [|exact NX']. clear -B. induction os as [|[m|] os IH]; [done| |by left]. right. by apply IH.
Qed.

(** C36: what the discovery manager holds of DNS discovery, over any sequence
    of lookups, in the order in which they end, and with any answers: nothing
    for a name that no lookup has succeeded for; else one group, whose source is
    the name, of the last lookup of it that was not an error. Its targets are
    the answer's records of the types SRV, A and AAAA, in order: an SRV record's
    host, without dots at its end, with its port, the others' address with the
    configured port; each also has the label of the name. *)
Theorem dns_discovery_current (n : nat) (d : Discovery) (name : string) (ns : list (string * result string ClientConfig)) (key : poolKey) :
  let held := view (updateGroup key (map Some (concat (run n d ns).1)) ∅) key !! name in
  match last_answer n d name ns None with
  | None => held = None
  | Some answer => exists ts, held = Some (mkTargetGroup ts ∅ name) /\ record_targets d name answer ts
  end.
Proof.
  cbn zeta. rewrite view_sent, (run_latest d name ns n ∅ None) by by rewrite lookup_empty.
  destruct (last_answer n d name ns None) as [answer|]; [|done]. exists (tg_Targets (dns_group d name answer)). split; [done|apply group_targets].
Qed.
End dns.
