(* ===== verification/Kubernetes.v ===== *)
(** discovery/kubernetes: discovery of the objects of a Kubernetes cluster.

    The client library's types are records of the fields that the code reads;
    its informers keep a store of objects and call handlers when one changes,
    and its work queues hand out every key that was added since it was last
    handed out. *)

From S2P Require Import Prelude GoString GoFmt Target.

(** * Objects *)

Record OwnerReference := mkOwner { Kind : string; or_Name : string; Controller : option bool }.
Record ObjectMeta := mkMeta {
  Namespace : string; Name : string; UID : string; Labels : gmap string string; Annotations : gmap string string;
  OwnerReferences : list OwnerReference
}.

Record ContainerPort := mkContainerPort { cp_Name : string; cp_Port : Z; cp_Protocol : string }.
Record Container := mkContainer { c_Name : string; c_Ports : list ContainerPort }.
(** A condition has a type and a status. *)
Record Pod := mkPod {
  pod_meta : ObjectMeta; PodIP : string; HostIP : string; Conditions : list (string * string); NodeName : string; Containers : list Container
}.

Record ServicePort := mkServicePort { sp_Name : string; sp_Port : Z; sp_Protocol : string }.
Record Service := mkService { svc_meta : ObjectMeta; svc_Ports : list ServicePort }.

(** An address has a type and a value. *)
Record Node := mkNode { node_meta : ObjectMeta; Addresses : list (string * string); KubeletPort : Z }.

(** Whether the slice of TLS settings is not nil; the paths of a rule, when it
    is one for HTTP. *)
Record IngressRule := mkIngressRule { Host : string; HTTPPaths : option (list string) }.
Record Ingress := mkIngress { ing_meta : ObjectMeta; TLS : bool; Rules : list IngressRule }.

Record ObjectReference := mkObjectRef { ref_Kind : string; ref_Namespace : string; ref_Name : string }.
Record EndpointAddress := mkEndpointAddress { IP : string; TargetRef : option ObjectReference }.
Record EndpointPort := mkEndpointPort { ep_Name : string; ep_Port : Z; ep_Protocol : string }.
Record EndpointSubset := mkSubset { ReadyAddresses : list EndpointAddress; NotReadyAddresses : list EndpointAddress; ss_Ports : list EndpointPort }.
Record Endpoints := mkEndpoints { ep_meta : ObjectMeta; Subsets : list EndpointSubset }.

(** The constants of the API. *)
Class ApiConstants := {
  PodReady : string; ConditionUnknown : string;
  NodeInternalIP : string; NodeExternalIP : string; NodeLegacyHostIP : string; NodeHostName : string
}.

(** * Labels *)

Definition metaLabelPrefix : string := MetaLabelPrefix +:+ "kubernetes_".
Definition meta_label (s : string) : string := metaLabelPrefix +:+ s.
Definition namespaceLabel : string := meta_label "namespace".

Section kubernetes.
Context `{MO : MapOrder} `{AC : ApiConstants}.

Local Notation LabelSet := (gmap string string).

(** The loops over an object's labels and annotations. *)
Definition add_prefixed (prefix : string) (kvs : LabelSet) (ls : LabelSet) : LabelSet :=
  foldl (fun ls kv => <[SanitizeLabelName (meta_label prefix +:+ kv.1) := kv.2]> ls) ls (map_order kvs).
Definition add_meta (prefix : string) (m : ObjectMeta) (ls : LabelSet) : LabelSet :=
  add_prefixed (prefix +:+ "_annotation_") (Annotations m) (add_prefixed (prefix +:+ "_label_") (Labels m) ls).

Definition FormatUint (z : Z) : string := Itoa (u64 z).

(** * Pods (pod.go) *)

Definition podSourceFromNamespaceAndName (namespace name : string) : string := "pod/" +:+ namespace +:+ "/" +:+ name.

Definition GetControllerOf (m : ObjectMeta) : option OwnerReference :=
  List.find (fun ref => match Controller ref with Some b => b | None => false end) (OwnerReferences m).

Definition podReady (pod : Pod) : string :=
  match List.find (fun cond => (cond.1 =? PodReady)%string) (Conditions pod) with
  | Some cond => ToLower cond.2
  | None => ToLower ConditionUnknown
  end.

Definition podLabels (pod : Pod) : LabelSet :=
  let m := pod_meta pod in
  let ls : LabelSet :=
    <[meta_label "pod_uid" := UID m]> (<[meta_label "pod_host_ip" := HostIP pod]> (<[meta_label "pod_node_name" := NodeName pod]>
      (<[meta_label "pod_ready" := podReady pod]> (<[meta_label "pod_ip" := PodIP pod]> (<[meta_label "pod_name" := Name m]> ∅))))) in
  let ls :=
    match GetControllerOf m with
    | None => ls
    | Some createdBy =>
      let ls := if negb (Kind createdBy =? "")%string then <[meta_label "pod_controller_kind" := Kind createdBy]> ls else ls in
      if negb (or_Name createdBy =? "")%string then <[meta_label "pod_controller_name" := or_Name createdBy]> ls else ls
    end in
  add_meta "pod" m ls.

(** The labels of a container's port. *)
Definition port_labels (container : string) (port : ContainerPort) (protocol : string) (ls : LabelSet) : LabelSet :=
  <[meta_label "pod_container_port_protocol" := protocol]> (<[meta_label "pod_container_port_number" := FormatUint (cp_Port port)]>
    (<[meta_label "pod_container_port_name" := cp_Name port]> (<[meta_label "pod_container_name" := container]> ls))).

Definition container_targets (ip : string) (c : Container) : list LabelSet :=
  match c_Ports c with
  | [] => [<[meta_label "pod_container_name" := c_Name c]> {[AddressLabel := ip]}]
  | ports => map (fun port => port_labels (c_Name c) port (cp_Protocol port) {[AddressLabel := JoinHostPort ip (FormatUint (cp_Port port))]}) ports
  end.

Definition buildPod (pod : Pod) : TargetGroup :=
  let m := pod_meta pod in
  let source := podSourceFromNamespaceAndName (Namespace m) (Name m) in
  if (String.length (PodIP pod) =? 0)%nat then mkTargetGroup [] ∅ source
  else mkTargetGroup (flat_map (container_targets (PodIP pod)) (Containers pod)) (<[namespaceLabel := Namespace m]> (podLabels pod)) source.

(** * Services (service.go) *)

Definition serviceSourceFromNamespaceAndName (namespace name : string) : string := "svc/" +:+ namespace +:+ "/" +:+ name.

Definition serviceLabels (svc : Service) : LabelSet :=
  let m := svc_meta svc in
  add_meta "service" m (<[namespaceLabel := Namespace m]> {[meta_label "service_name" := Name m]}).

Definition buildService (svc : Service) : TargetGroup :=
  let m := svc_meta svc in
  mkTargetGroup
    (map (fun port : ServicePort =>
       <[meta_label "service_port_protocol" := sp_Protocol port]> (<[meta_label "service_port_name" := sp_Name port]>
         {[AddressLabel := JoinHostPort (Name m +:+ "." +:+ Namespace m +:+ ".svc") (Itoa (sp_Port port))]})) (svc_Ports svc))
    (serviceLabels svc) (serviceSourceFromNamespaceAndName (Namespace m) (Name m)).

(** * Nodes (node.go) *)

Definition nodeSourceFromName (name : string) : string := "node/" +:+ name.

Definition nodeLabels (n : Node) : LabelSet := add_meta "node" (node_meta n) {[meta_label "node_name" := Name (node_meta n)]}.

Definition address_map (addrs : list (string * string)) : gmap string (list string) :=
  foldl (fun m a => <[a.1 := default [] (m !! a.1) ++ [a.2]]> m) ∅ addrs.

(** [nodeAddress]; a type in the map has an address. *)
Definition nodeAddress (node : Node) : option string * gmap string (list string) :=
  let m := address_map (Addresses node) in
  let first t := m !! t ≫= head in
  (match first NodeInternalIP with
   | Some a => Some a
   | None =>
     match first NodeExternalIP with
     | Some a => Some a
     | None => match first NodeLegacyHostIP with Some a => Some a | None => first NodeHostName end
     end
   end, m).

(** [buildNode]: a node without an address has the nil group. *)
Definition buildNode (node : Node) : option TargetGroup :=
  let (addr, addrMap) := nodeAddress node in
  a ← addr;
  let t : LabelSet := <[InstanceLabel := Name (node_meta node)]> {[AddressLabel := JoinHostPort a (Itoa (KubeletPort node))]} in
  let t := foldl (fun t ta => <[SanitizeLabelName (meta_label "node_address_" +:+ ta.1) := default "" (head ta.2)]> t) t (map_order addrMap) in
  Some (mkTargetGroup [t] (nodeLabels node) (nodeSourceFromName (Name (node_meta node)))).

(** * Ingresses (ingress.go) *)

Definition ingressSourceFromNamespaceAndName (namespace name : string) : string := "ingress/" +:+ namespace +:+ "/" +:+ name.

Definition ingressLabels (ingress : Ingress) : LabelSet :=
  let m := ing_meta ingress in
  add_meta "ingress" m (<[namespaceLabel := Namespace m]> {[meta_label "ingress_name" := Name m]}).

Definition pathsFromIngressRule (rv : IngressRule) : list string :=
  match HTTPPaths rv with None => ["/"] | Some paths => map (fun p => if (p =? "")%string then "/" else p) paths end.

Definition buildIngress (ingress : Ingress) : TargetGroup :=
  let m := ing_meta ingress in
  let schema := if TLS ingress then "https" else "http" in
  mkTargetGroup
    (flat_map (fun rule => map (fun path =>
       <[meta_label "ingress_path" := path]> (<[meta_label "ingress_host" := Host rule]> (<[meta_label "ingress_scheme" := schema]>
         ({[AddressLabel := Host rule]} : LabelSet)))) (pathsFromIngressRule rule)) (Rules ingress))
    (ingressLabels ingress) (ingressSourceFromNamespaceAndName (Namespace m) (Name m)).
(** * Endpoints (endpoints.go) *)

Definition endpointsSourceFromNamespaceAndName (namespace name : string) : string := "endpoints/" +:+ namespace +:+ "/" +:+ name.

(** What the store of pods has under a namespace and name. *)
Variable podStore : string -> string -> option Pod.

Definition resolvePodRef (ref : option ObjectReference) : option Pod :=
  r ← ref; if (ref_Kind r =? "Pod")%string then podStore (ref_Namespace r) (ref_Name r) else None.

(** [podEntry], by the pod's namespace and name. *)
Record podEntry := mkPodEntry { pe_pod : Pod; servicePorts : list EndpointPort }.

(** The labels of the container port that has the endpoint's number; of
    several containers the last one counts, of a container's ports the first. *)
Definition match_container (port : EndpointPort) (ls : LabelSet) (c : Container) : LabelSet :=
  match List.find (fun cport => ep_Port port =? cp_Port cport) (c_Ports c) with
  | Some cport => port_labels (c_Name c) cport (ep_Protocol port) ls
  | None => ls
  end.

(** The function literal [add]. *)
Definition add_endpoint (addr : EndpointAddress) (port : EndpointPort) (ready : string) (st : list LabelSet * gmap string podEntry)
    : list LabelSet * gmap string podEntry :=
  let (targets, seenPods) := st in
  let target : LabelSet :=
    <[meta_label "endpoint_ready" := ready]> (<[meta_label "endpoint_port_protocol" := ep_Protocol port]>
      (<[meta_label "endpoint_port_name" := ep_Name port]> {[AddressLabel := JoinHostPort (IP addr) (FormatUint (ep_Port port))]})) in
  let target :=
    match TargetRef addr with
    | Some r => <[meta_label "endpoint_address_target_name" := ref_Name r]> (<[meta_label "endpoint_address_target_kind" := ref_Kind r]> target)
    | None => target
    end in
  match resolvePodRef (TargetRef addr) with
  | None => (targets ++ [target], seenPods)
  | Some pod =>
    let s := Namespace (pod_meta pod) +:+ "/" +:+ Name (pod_meta pod) in
    let sp := default (mkPodEntry pod []) (seenPods !! s) in
    let target := foldl (match_container port) (podLabels pod ∪ target) (Containers pod) in
    (targets ++ [target], <[s := mkPodEntry (pe_pod sp) (servicePorts sp ++ [port])]> seenPods)
  end.

Definition add_subset (st : list LabelSet * gmap string podEntry) (ss : EndpointSubset) : list LabelSet * gmap string podEntry :=
  foldl (fun st port =>
    let st := foldl (fun st addr => add_endpoint addr port "true" st) st (ReadyAddresses ss) in
    foldl (fun st addr => add_endpoint addr port "false" st) st (NotReadyAddresses ss)) st (ss_Ports ss).

(** The targets of a pod's container ports that no endpoint covers. *)
Definition unseen_targets (pe : podEntry) : list LabelSet :=
  flat_map (fun c =>
    flat_map (fun cport =>
      if existsb (fun eport => cp_Port cport =? ep_Port eport) (servicePorts pe) then []
      else [podLabels (pe_pod pe) ∪
            port_labels (c_Name c) cport (cp_Protocol cport) {[AddressLabel := JoinHostPort (PodIP (pe_pod pe)) (FormatUint (cp_Port cport))]}])
      (c_Ports c)) (Containers (pe_pod pe)).

(** [buildEndpoints], with what the store of services has under the same
    namespace and name. *)
Definition buildEndpoints (svc : option Service) (eps : Endpoints) : TargetGroup :=
  let m := ep_meta eps in
  let labels : LabelSet := <[meta_label "endpoints_name" := Name m]> {[namespaceLabel := Namespace m]} in
  let labels := match svc with Some svc => serviceLabels svc ∪ labels | None => labels end in
  let (targets, seenPods) := foldl add_subset ([], ∅) (Subsets eps) in
  mkTargetGroup (targets ++ flat_map (fun spe => unseen_targets spe.2) (map_order seenPods)) labels
    (endpointsSourceFromNamespaceAndName (Namespace m) (Name m)).
End kubernetes.

(** * Controllers *)

(** The keys under which the client library stores objects. *)
Class MetaKeys := { MetaKey : string -> string -> string; SplitMetaNamespaceKey : string -> option (string * string) }.

(** What the discovery of a kind of objects is made of: [V] is the kind of the
    objects that are looked up under the same key, and [W] what else is looked
    up, of which the controller is not told when it changes. *)
Class Resource (O V W : Type) := {
  r_meta : O -> ObjectMeta;
  r_source : string -> string -> string;
  r_build : W -> option V -> O -> option TargetGroup
}.

#[export] Instance pod_Resource `{MapOrder} `{ApiConstants} : Resource Pod unit unit :=
  {| r_meta := pod_meta; r_source := podSourceFromNamespaceAndName; r_build _ _ o := Some (buildPod o) |}.
#[export] Instance service_Resource `{MapOrder} : Resource Service unit unit :=
  {| r_meta := svc_meta; r_source := serviceSourceFromNamespaceAndName; r_build _ _ o := Some (buildService o) |}.
#[export] Instance node_Resource `{MapOrder} `{ApiConstants} : Resource Node unit unit :=
  {| r_meta := node_meta; r_source _ name := nodeSourceFromName name; r_build _ _ o := buildNode o |}.
#[export] Instance ingress_Resource `{MapOrder} : Resource Ingress unit unit :=
  {| r_meta := ing_meta; r_source := ingressSourceFromNamespaceAndName; r_build _ _ o := Some (buildIngress o) |}.
(** The informer of pods has no handler: their store is only read. *)
#[export] Instance endpoints_Resource `{MapOrder} `{ApiConstants} : Resource Endpoints Service (string -> string -> option Pod) :=
  {| r_meta := ep_meta; r_source := endpointsSourceFromNamespaceAndName; r_build podStore svc o := Some (buildEndpoints podStore svc o) |}.

(** A work queue: a key that waits is handed out once, in any order. *)
Class WorkQueue (Q : Type) := {
  waiting : Q -> gset string;
  q_Add : string -> Q -> Q;
  q_Get : Q -> option (string * Q);
  waiting_Add k q : waiting (q_Add k q) = {[k]} ∪ waiting q;
  waiting_Get q : match q_Get q with
                  | Some (k, q') => k ∈ waiting q /\ waiting q' = waiting q ∖ {[k]}
                  | None => waiting q = ∅
                  end
}.

Section controller.
Context `{MK : MetaKeys} {Obj V W Q : Type} `{R : !Resource Obj V W} `{WQ : !WorkQueue Q}.

(** The stores of an informer's objects, of those they are related to, and of
    what else is read; the notifications that have not reached a handler,
    [false] for those of the second store (there are none of the third); the
    queue; what [process] holds, a key and then what it is going to send; and
    the groups that were sent. *)
Record controller := mkController {
  store : gmap string Obj; related : gmap string V; unwatched : W; events : list (bool * string); queue : Q;
  worker : option (string * option (option TargetGroup)); sent : list TargetGroup
}.

(** What [process] makes of a key. *)
Definition process (c : controller) (key : string) : option TargetGroup :=
  '(namespace, name) ← SplitMetaNamespaceKey key;
  match store c !! key with
  | None => Some (mkTargetGroup [] ∅ (r_source namespace name))
  | Some o => r_build (unwatched c) (related c !! key) o
  end.

Definition object_key (o : Obj) : string := MetaKey (Namespace (r_meta o)) (Name (r_meta o)).

Inductive event :=
| Update (o : Obj)                   (** an object was added or changed *)
| Delete (key : string)
| Relate (key : string) (v : option V)
| Unwatched (w : W)
| Notify                           (** a handler runs *)
| Get | Read | Send.               (** the steps of [process] *)

Definition set_queue (f : Q -> Q) (evs : list (bool * string)) (c : controller) : controller :=
  mkController (store c) (related c) (unwatched c) evs (f (queue c)) (worker c) (sent c).
Definition set_worker (w : option (string * option (option TargetGroup))) (c : controller) : controller :=
  mkController (store c) (related c) (unwatched c) (events c) (queue c) w (sent c).

(** [None]: the step cannot happen.  The handler of a related object only
    queues a key that the store has. *)
Definition step (ev : event) (c : controller) : option controller :=
  match ev with
  | Update o =>
    let key := object_key o in
    Some (mkController (<[key := o]> (store c)) (related c) (unwatched c) (events c ++ [(true, key)]) (queue c) (worker c) (sent c))
  | Delete key => Some (mkController (base.delete key (store c)) (related c) (unwatched c) (events c ++ [(true, key)]) (queue c) (worker c) (sent c))
  | Relate key v =>
    Some (mkController (store c) (partial_alter (fun _ => v) key (related c)) (unwatched c) (events c ++ [(false, key)]) (queue c) (worker c) (sent c))
  | Unwatched w => Some (mkController (store c) (related c) w (events c) (queue c) (worker c) (sent c))
  | Notify =>
    match events c with
    | [] => None
    | (own, key) :: evs =>
      if own || bool_decide (is_Some (store c !! key)) then Some (set_queue (q_Add key) evs c) else Some (set_queue id evs c)
    end
  | Get =>
    match worker c with
    | Some _ => None
    | None => '(key, q) ← q_Get (queue c); Some (set_worker (Some (key, None)) (set_queue (fun _ => q) (events c) c))
    end
  | Read =>
    match worker c with Some (key, None) => Some (set_worker (Some (key, Some (process c key))) c) | _ => None end
  | Send =>
    match worker c with
    | Some (key, Some tg) =>
      Some (mkController (store c) (related c) (unwatched c) (events c) (queue c) None (match tg with Some g => sent c ++ [g] | None => sent c end))
    | _ => None
    end
  end.

Fixpoint run (evs : list event) (c : controller) : option controller :=
  match evs with [] => Some c | ev :: evs => c ← step ev c; run evs c end.

Definition new_controller (q : Q) (w : W) : controller := mkController ∅ ∅ w [] q None [].

(** The events of the cluster that an informer for a namespace is told, which
    is the empty string for all. *)
Definition in_namespace (namespace ns : string) : bool := (namespace =? "")%string || (ns =? namespace)%string.
Definition visible (namespace : string) (ev : event) : bool :=
  match ev with
  | Update o => in_namespace namespace (Namespace (r_meta o))
  | Delete key | Relate key _ => match SplitMetaNamespaceKey key with Some (ns, _) => in_namespace namespace ns | None => false end
  | _ => true
  end.
End controller.

(** * [Run]: the informers of the namespaces *)

(** An informer's list function reads the loop's variable, which is one for all
    iterations, when it is called: the state of the loop is that variable and
    how many informers were made. *)
Record namespace_loop := mkLoop { variable : string; todo : list string; informers : nat }.
Definition getNamespaces (names : list string) : list string := match names with [] => [""] | _ => names end.
Definition start_loop (names : list string) : namespace_loop := mkLoop "" (getNamespaces names) 0.
Definition next_namespace (l : namespace_loop) : option namespace_loop :=
  match todo l with [] => None | ns :: nss => Some (mkLoop ns nss (S (informers l))) end.
(** The namespace that the [i]th informer lists when it is called now. *)
Definition ListFunc (i : nat) (l : namespace_loop) : option string := if (i <? informers l)%nat then Some (variable l) else None.
