(* ===== verification/KubernetesFacts.v ===== *)
(** Discovery in Kubernetes: once the controller has nothing left to do, the
    discovery manager holds what the cluster's objects say. *)

From S2P Require Import Prelude GoString GoFmt Target Discovery DiscoveryFacts Kubernetes.

(** * What a kind of objects promises *)

(** Names are valid where the keys can be split and sources do not collide. *)
Class ResourceLaws (Obj V W : Type) `{MetaKeys} `{!Resource Obj V W} := {
  r_valid : string -> string -> Prop;
  split_key ns name : r_valid ns name -> SplitMetaNamespaceKey (MetaKey ns name) = Some (ns, name);
  source_inj ns name ns' name' : r_valid ns name -> r_valid ns' name' -> r_source ns name = r_source ns' name' -> ns = ns' /\ name = name';
  build_source w v (o : Obj) g : r_build w v o = Some g -> Source g = r_source (Namespace (r_meta o)) (Name (r_meta o))
}.

Section controller_facts.
Context `{MK : MetaKeys} {Obj V W Q : Type} `{R : !Resource Obj V W} `{WQ : !WorkQueue Q} `{RL : !ResourceLaws Obj V W}.

Notation controller := (@controller Obj V W Q).
Notation event := (@event Obj V W).
Implicit Types (c : controller) (ev : event).

Definition valid_key (k : string) : Prop := exists ns name, k = MetaKey ns name /\ r_valid ns name.

Definition valid_event ev : Prop :=
  match ev with
  | Update o => r_valid (Namespace (r_meta o)) (Name (r_meta o))
  | Delete k | Relate k _ => valid_key k
  | _ => True
  end.

(** The group that was sent last for the source of a key. *)
Definition source_of (k : string) : string :=
  match SplitMetaNamespaceKey k with Some (ns, name) => r_source ns name | None => "" end.
Definition told c (k : string) : option TargetGroup := latest (map Some (sent c)) !! source_of k.

(** It is what the stores say, with one of the values [ws] of what is read
    without being followed. *)
Definition up_to_date c (ws : list W) (k : string) : Prop :=
  match store c !! k with
  | None => forall g, told c k = Some g -> tg_Targets g = []
  | Some o => exists w, w ∈ ws /\ forall g, r_build w (related c !! k) o = Some g -> told c k = Some g
  end.

Definition pending c (k : string) : Prop :=
  (true, k) ∈ events c \/ ((false, k) ∈ events c /\ is_Some (store c !! k)) \/ k ∈ waiting (queue c).

Definition set_unwatched c (w : W) : controller := mkController (store c) (related c) w (events c) (queue c) (worker c) (sent c).

(** A key is on its way, or what was sent for it is up to date. *)
Definition attended c (ws : list W) (k : string) : Prop :=
  pending c k \/
  match worker c with
  | Some (k', r) =>
    if decide (k' = k) then match r with None => True | Some v => exists w, w ∈ ws /\ v = process (set_unwatched c w) k end else up_to_date c ws k
  | None => up_to_date c ws k
  end.

(** A group is empty, or it was built from an object as it was once. *)
Definition built_from (H : list Obj) (g : TargetGroup) : Prop :=
  tg_Targets g = [] \/ exists o w v, o ∈ H /\ r_valid (Namespace (r_meta o)) (Name (r_meta o)) /\ r_build w v o = Some g.

(** For the values [S] that each key may have been processed with, and the
    objects [H] so far. *)
Record inv c (S : string -> list W) (H : list Obj) : Prop := {
  inv_store : forall k o, store c !! k = Some o -> k = object_key o /\ r_valid (Namespace (r_meta o)) (Name (r_meta o)) /\ o ∈ H;
  inv_keys : (forall b k, (b, k) ∈ events c -> valid_key k) /\ (forall k, k ∈ waiting (queue c) -> valid_key k) /\
             (forall k r, worker c = Some (k, r) -> valid_key k);
  inv_read : forall k g, worker c = Some (k, Some (Some g)) -> Source g = source_of k /\ built_from H g;
  inv_sent : Forall (built_from H) (sent c);
  inv_now : forall k, unwatched c ∈ S k;
  inv_attended : forall k, valid_key k -> attended c (S k) k
}.

(** What is left to do. *)
Definition work c : nat :=
  4 * length (events c) + 3 * size (waiting (queue c)) + match worker c with Some (_, None) => 2 | Some (_, Some _) => 1 | None => 0 end.

Definition is_internal ev : Prop := match ev with Notify | Get | Read | Send => True | _ => False end.

(** The objects that the informer has listed, and those they are related to. *)
Definition listed_step (s : gmap string Obj * gmap string V) ev : gmap string Obj * gmap string V :=
  match ev with
  | Update o => (<[object_key o := o]> s.1, s.2)
  | Delete key => (base.delete key s.1, s.2)
  | Relate key v => (s.1, partial_alter (fun _ => v) key s.2)
  | _ => s
  end.
Definition listed (evs : list event) : gmap string Obj * gmap string V := foldl listed_step (∅, ∅) evs.

(** What is not followed, and the values it has had since the last event of
    each key. *)
Definition since_step (st : W * (string -> list W)) ev : W * (string -> list W) :=
  match ev with
  | Update o => (st.1, fun k => if decide (object_key o = k) then [st.1] else st.2 k)
  | Delete key | Relate key _ => (st.1, fun k => if decide (key = k) then [st.1] else st.2 k)
  | Unwatched w => (w, fun k => st.2 k ++ [w])
  | _ => st
  end.
Definition since (w : W) (evs : list event) : W * (string -> list W) := foldl since_step (w, fun _ => [w]) evs.

(** The objects as they have been. *)
Definition updates (evs : list event) : list Obj := omap (fun ev => match ev with Update o => Some o | _ => None end) evs.

Lemma source_of_inj k k' : valid_key k -> valid_key k' -> source_of k = source_of k' -> k = k'.
Proof.
  intros (ns & n & -> & VK) (ns' & n' & -> & VK'). unfold source_of. rewrite !split_key by done. intros E. by apply source_inj in E as [-> ->].
Qed.

Lemma built_from_mono H H' g : H ⊆ H' -> built_from H g -> built_from H' g.
Proof. intros S [B|(o & w & v & B & B')]; [by left|right; exists o, w, v; auto]. Qed.

Lemma process_source c S H k g : inv c S H -> valid_key k -> process c k = Some g -> Source g = source_of k /\ built_from H g.
Proof.
  intros I (ns & n & -> & VK) P. unfold process, source_of in *. rewrite split_key in * by done. cbn in P.
  destruct (store c !! MetaKey ns n) as [o|] eqn:So; [|injection P as <-; split; [done|by left]]. apply (inv_store c S H I) in So as (E & Vo & Ho).
  split; [|right; by exists o, (unwatched c), (related c !! MetaKey ns n)].
  apply build_source in P as ->. unfold object_key in E. apply (f_equal SplitMetaNamespaceKey) in E. rewrite !split_key in E by done. by injection E as -> ->.
Qed.

Lemma told_send c k k' g st : sent st = sent c ++ [g] -> Source g = source_of k' -> valid_key k -> valid_key k' ->
  told st k = if decide (k' = k) then Some g else told c k.
Proof.
  intros E S K K'. unfold told. rewrite E, map_app. unfold latest. rewrite foldl_app. cbn. rewrite S. case_decide as D; [by rewrite D, lookup_insert_eq|].
  rewrite lookup_insert_ne; [done|]. intros X. by apply source_of_inj in X.
Qed.

(** What only depends on the parts that a step leaves alone. *)
Lemma attended_same c st ws ws' k :
  (pending c k -> pending st k) -> worker st = worker c -> sent st = sent c -> store st !! k = store c !! k ->
  (is_Some (store c !! k) -> related st !! k = related c !! k) -> (is_Some (store c !! k) -> ws ⊆ ws') -> (exists w, w ∈ ws') ->
  attended c ws k -> attended st ws' k.
Proof.
  intros P Wk S St Re Sub [w0 W0] [A|A]; [left; auto|right]. rewrite Wk.
  assert (forall w, w ∈ ws -> exists w', w' ∈ ws' /\ process (set_unwatched st w') k = process (set_unwatched c w) k) as Pr.
  { intros w Hw. unfold process. destruct (store c !! k) eqn:So.
    - exists w. split; [by apply (Sub ltac:(by eexists))|]. destruct (SplitMetaNamespaceKey k) as [[ns n]|]; [|done]. cbn. by rewrite St, So, Re.
    - exists w0. split; [done|]. destruct (SplitMetaNamespaceKey k) as [[ns n]|]; [|done]. cbn. by rewrite St, So. }
  assert (up_to_date c ws k -> up_to_date st ws' k) as U.
  { unfold up_to_date, told. rewrite S, St. destruct (store c !! k); [|done]. rewrite Re by done. intros (w & Hw & B). exists w. split; [by apply Sub|done]. }
  destruct (worker c) as [[k' r]|]; [|auto]. case_decide; [|auto]. destruct r; [|done]. destruct A as (w & Hw & ->).
  destruct (Pr w Hw) as (w' & Hw' & E). by exists w'.
Qed.

(** ** The steps *)

Lemma pending_event c st k e : events st = events c ++ [e] -> queue st = queue c ->
  (is_Some (store c !! k) -> is_Some (store st !! k)) -> pending c k -> pending st k.
Proof. unfold pending. intros -> -> S [P|[[P Q']|P]]; [left; set_solver|right; left; split; [set_solver|auto]|by right; right]. Qed.

(** A change of the objects, or of a related one. *)
Lemma change_inv c st (b : bool) key S S' H H' : inv c S H -> valid_key key ->
  events st = events c ++ [(b, key)] -> queue st = queue c -> worker st = worker c -> sent st = sent c -> unwatched st = unwatched c ->
  (forall k, k <> key -> store st !! k = store c !! k /\ related st !! k = related c !! k /\ S' k = S k) -> S' key = [unwatched c] ->
  (b = false -> store st = store c) -> H ⊆ H' ->
  (forall k o, store st !! k = Some o -> k = object_key o /\ r_valid (Namespace (r_meta o)) (Name (r_meta o)) /\ o ∈ H') -> inv st S' H'.
Proof.
  intros I Vkey E Q' Wk Se Un Other Key Rel HH St. destruct (inv_keys c S H I) as (K1 & K2 & K3).
  assert (forall k, unwatched st ∈ S' k) as Now.
  { intros k. rewrite Un. destruct (decide (k = key)) as [->|N]; [rewrite Key; by left|]. destruct (Other k N) as (_ & _ & ->). apply (inv_now c S H I). }
  split; [exact St| |rewrite Wk; intros k g Hg| |exact Now|].
  - rewrite E, Q', Wk. split_and!; [|done..]. intros b' k [X|X]%elem_of_app; [by eapply K1|]. apply list_elem_of_singleton in X. by injection X as _ ->.
  - destruct (inv_read c S H I k g Hg) as [? B]. split; [done|by eapply built_from_mono].
  - rewrite Se. eapply Forall_impl; [exact (inv_sent c S H I)|]. intros g. by apply built_from_mono.
  - intros k Vk. pose proof (inv_attended c S H I k Vk) as A. assert (exists w, w ∈ S' k) as Ne by (eexists; apply Now).
    destruct (decide (k = key)) as [->|N].
    + destruct b; [left; left; rewrite E; set_solver|]. destruct (store c !! key) as [o|] eqn:Sk.
      * left. right. left. rewrite E, (Rel eq_refl), Sk. split; [set_solver|by eexists].
      * apply (attended_same c _ (S key)); [|exact Wk|exact Se|by rewrite (Rel eq_refl)|rewrite Sk; by intros [? ?]|rewrite Sk; by intros [? ?]|done|exact A].
        eapply pending_event; [exact E|exact Q'|by rewrite (Rel eq_refl)].
    + destruct (Other k N) as (Sk & Rk & Sek). apply (attended_same c _ (S k)); [|exact Wk|exact Se|exact Sk|by intros _|by rewrite Sek|done|exact A].
      eapply pending_event; [exact E|exact Q'|by rewrite Sk].
Qed.

Lemma unwatched_inv c S H w : inv c S H -> inv (set_unwatched c w) (fun k => S k ++ [w]) H.
Proof.
  intros [? ? ? ? ? A]. split; [done..| |]; cbn; [intros k; set_solver|]. intros k Vk.
  apply (attended_same c _ (S k)); [done..| |exists w; set_solver|by apply A]. intros _. set_solver.
Qed.

Lemma notify_inv c c' S H : inv c S H -> step Notify c = Some c' -> inv c' S H.
Proof.
  intros I Es. cbn [step] in Es. destruct (events c) as [|[own key] evs] eqn:E; [done|]. destruct (inv_keys c S H I) as (K1 & K2 & K3). rewrite E in K1.
  assert (valid_key key) as Vkey by (eapply (K1 own); left).
  assert (exists f, c' = set_queue f evs c /\ (forall k, k ∈ waiting (queue c) -> k ∈ waiting (f (queue c))) /\
            (forall k, k ∈ waiting (f (queue c)) -> valid_key k) /\
            (own || bool_decide (is_Some (store c !! key)) = true -> key ∈ waiting (f (queue c)))) as (f & -> & Q1 & Q2 & Q3).
  { destruct (_ || _); injection Es as <-; eexists; (split; [done|]).
    - split_and!; intros *; rewrite ?waiting_Add; set_solver.
    - by split_and!. }
  split; [apply (inv_store c S H I)| |apply (inv_read c S H I)|apply (inv_sent c S H I)|apply (inv_now c S H I)|].
  - split_and!; [|exact Q2|exact K3]. intros b k H'. eapply (K1 b). by right.
  - intros k Vk. apply (attended_same c _ (S k)); [|done..|eexists; apply (inv_now c S H I)|by apply (inv_attended c S H I)].
    unfold pending. cbn [events queue store set_queue]. rewrite E, !elem_of_cons.
    intros [[[= <- <-]|P]|[[[[= <- <-]|P] So]|P]]; [right; right; by apply Q3|by left| |by right; left|right; right; auto].
    right. right. apply Q3. by apply orb_true_iff; right; apply bool_decide_eq_true.
Qed.

Lemma get_inv c c' S H : inv c S H -> step Get c = Some c' -> inv c' S H.
Proof.
  intros I Es. cbn [step] in Es. destruct (worker c) eqn:Wk; [done|]. pose proof (waiting_Get (queue c)) as G.
  destruct (q_Get (queue c)) as [[key q]|]; [|done]. destruct G as [G1 G2]. injection Es as <-. destruct (inv_keys c S H I) as (K1 & K2 & K3).
  split; [apply (inv_store c S H I)| |done|apply (inv_sent c S H I)|apply (inv_now c S H I)|].
  - cbn. split_and!; [exact K1| |intros k r [= <- _]; auto]. intros k. rewrite G2. set_solver.
  - intros k Vk. unfold attended, pending. cbn. rewrite G2. destruct (decide (key = k)) as [->|N]; [by right|].
    destruct (inv_attended c S H I k Vk) as [P|A]; [left|by right; rewrite Wk in A].
    destruct P as [P|[P|P]]; [by left|by right; left|right; right; set_solver].
Qed.

Lemma read_inv c c' S H : inv c S H -> step Read c = Some c' -> inv c' S H.
Proof.
  intros I Es. cbn [step] in Es. destruct (worker c) as [[key [v|]]|] eqn:Wk; [done| |done]. injection Es as <-. destruct (inv_keys c S H I) as (K1 & K2 & K3).
  split; [apply (inv_store c S H I)| | |apply (inv_sent c S H I)|apply (inv_now c S H I)|].
  - cbn. split_and!; [exact K1|exact K2|intros k r [= <- _]; by eapply K3].
  - cbn. intros k g [= <- P]. apply (process_source c S H key g I); [by eapply K3|done].
  - intros k Vk. unfold attended. cbn. destruct (inv_attended c S H I k Vk) as [P|A]; [by left|right]. rewrite Wk in A. case_decide as D; [|done].
    exists (unwatched c). split; [apply (inv_now c S H I)|by subst key].
Qed.

Lemma send_inv c c' S H : inv c S H -> step Send c = Some c' -> inv c' S H.
Proof.
  intros I Es. cbn [step] in Es. destruct (worker c) as [[key [tg|]]|] eqn:Wk; [|done..]. injection Es as <-. destruct (inv_keys c S H I) as (K1 & K2 & K3).
  assert (valid_key key) as Vkey by by eapply K3.
  assert (forall g, tg = Some g -> Source g = source_of key /\ built_from H g) as Sg by (intros g ->; by apply (inv_read c S H I)).
  split; [apply (inv_store c S H I)|by split_and!|done| |apply (inv_now c S H I)|].
  { cbn. destruct tg as [g|]; [|exact (inv_sent c S H I)]. apply Forall_app. split; [exact (inv_sent c S H I)|]. apply Forall_singleton. by apply Sg. }
  intros k Vk. destruct (inv_attended c S H I k Vk) as [P|A]; [by left|right]. rewrite Wk in A. cbn [worker].
  set (st := mkController _ _ _ _ _ _ _). case_decide as D.
  - subst k. destruct A as (w & Hw & Etg). unfold up_to_date. cbn [store related st]. unfold process in Etg.
    destruct Vkey as (ns & n & -> & Vn). rewrite split_key in Etg by done. cbn in Etg.
    assert (forall g, tg = Some g -> told st (MetaKey ns n) = Some g) as T.
    { intros g ->. rewrite (told_send c (MetaKey ns n) (MetaKey ns n) g st); [by rewrite decide_True|done|by apply Sg|by exists ns, n..]. }
    destruct (store c !! MetaKey ns n) as [o|] eqn:So.
    + exists w. split; [done|]. intros g B. apply T. by rewrite Etg.
    + intros g. rewrite (T _ Etg). by intros [= <-].
  - unfold up_to_date in *. cbn [store related st]. assert (told st k = told c k) as ->; [|exact A].
    destruct tg as [g|]; [|done]. rewrite (told_send c k key g st); [by rewrite decide_False|done|by apply Sg|done..].
Qed.

(** What the values [S] and the objects [H] are after a step. *)
Lemma controller_step_inv ev c c' S H : valid_event ev -> inv c S H -> step ev c = Some c' ->
  unwatched c' = (since_step (unwatched c, S) ev).1 /\ inv c' (since_step (unwatched c, S) ev).2 (H ++ updates [ev]).
Proof.
  intros Vev I Es. unfold updates, since_step. cbn [omap list_omap fst snd].
  destruct ev as [o|key|key v|w| | | |]; cbn in Vev; rewrite ?app_nil_r.
  5: { split; [|by apply (notify_inv c)]. cbn in Es. destruct (events c) as [|[own key] ?]; [done|]. destruct (_ || _); by injection Es as <-. }
  5: { split; [|by apply (get_inv c)]. cbn in Es. destruct (worker c); [done|]. destruct (q_Get _) as [[key q]|]; [|done]. by injection Es as <-. }
  5: { split; [|by apply (read_inv c)]. cbn in Es. destruct (worker c) as [[key [v|]]|]; [done| |done]. by injection Es as <-. }
  5: { split; [|by apply (send_inv c)]. cbn in Es. destruct (worker c) as [[key [v|]]|]; [|done..]. by injection Es as <-. }
  4: { injection Es as <-. split; [done|by apply (unwatched_inv c)]. }
  all: injection Es as <-; (split; [done|]).
  - apply (change_inv c _ true (object_key o) S _ H _ I); [by eexists _, _|done..| |by cbn; rewrite decide_True|done|set_solver|]; cbn.
    + intros k N. by rewrite lookup_insert_ne, decide_False.
    + intros k o'. destruct (decide (object_key o = k)) as [<-|N]; [rewrite lookup_insert_eq; intros [= <-]; split_and!; [done..|set_solver]|].
      rewrite lookup_insert_ne by done. intros (? & ? & ?)%(inv_store c S H I). split_and!; [done..|set_solver].
  - apply (change_inv c _ true key S _ H _ I Vev); [done..| |by cbn; rewrite decide_True|done|done|]; cbn.
    + intros k N. by rewrite lookup_delete_ne, decide_False.
    + intros k o'. destruct (decide (key = k)) as [<-|N]; [by rewrite lookup_delete_eq|rewrite lookup_delete_ne by done; apply (inv_store c S H I)].
  - apply (change_inv c _ false key S _ H _ I Vev); [done..| |by cbn; rewrite decide_True|done|done|apply (inv_store c S H I)]; cbn.
    intros k N. by rewrite lookup_partial_alter_ne, decide_False.
Qed.

Lemma controller_run_inv evs : forall c c' S H, Forall valid_event evs -> inv c S H -> run evs c = Some c' ->
  inv c' (foldl since_step (unwatched c, S) evs).2 (H ++ updates evs).
Proof.
  induction evs as [|ev evs IH]; intros c c' S H Vs I; [intros [= <-]; by rewrite app_nil_r|]. inversion_clear Vs as [|? ? V1 V2]. cbn [run foldl].
  destruct (step ev c) as [c1|] eqn:E; [|done]. intros Er. destruct (controller_step_inv ev c c1 S H V1 I E) as [E1 I1].
  specialize (IH c1 c' _ _ V2 I1 Er). rewrite E1, <- app_assoc in IH. rewrite <- surjective_pairing in IH.
  replace (updates [ev] ++ updates evs) with (updates (ev :: evs)) in IH; [done|]. unfold updates. cbn. by destruct ev.
Qed.

Lemma new_inv q w : waiting q = ∅ -> inv (new_controller q w) (fun _ => [w]) [].
Proof.
  intros W0. split; [done| |done|by constructor|intros k; cbn; by left|].
  - cbn. rewrite W0. split_and!; [by intros ? ? ?%elem_of_nil|set_solver|done].
  - intros k _; right; unfold up_to_date; cbn; rewrite lookup_empty; intros g X; done.
Qed.

(** * Draining *)

Lemma internal_work ev c c' : is_internal ev -> step ev c = Some c' -> (work c' < work c)%nat.
Proof.
  intros N H. unfold work. destruct ev; try done; cbn [step] in H.
  - destruct (events c) as [|[own key] evs]; [done|]. destruct (_ || _); injection H as <-; cbn; [|lia]. rewrite waiting_Add.
    pose proof (size_union_alt {[key]} (waiting (queue c))). pose proof (subseteq_size (waiting (queue c) ∖ {[key]}) (waiting (queue c)) ltac:(set_solver)) as L.
    rewrite (union_comm_L {[key]}), size_union_alt. pose proof (subseteq_size ({[key]} ∖ waiting (queue c)) {[key]} ltac:(set_solver)) as L'.
    rewrite size_singleton in L'. lia.
  - destruct (worker c); [done|]. pose proof (waiting_Get (queue c)) as G. destruct (q_Get _) as [[key q]|]; [|done]. destruct G as [G1 G2].
    injection H as <-. cbn. rewrite G2, size_difference by set_solver. rewrite size_singleton.
    pose proof (subseteq_size {[key]} (waiting (queue c)) ltac:(set_solver)) as L. rewrite size_singleton in L. lia.
  - destruct (worker c) as [[key [v|]]|]; [done| |done]. injection H as <-. cbn. lia.
  - destruct (worker c) as [[key [v|]]|]; [|done..]. injection H as <-. cbn. lia.
Qed.

Lemma work_enabled c : (0 < work c)%nat -> exists ev c', is_internal ev /\ step ev c = Some c'.
Proof.
  intros Wp. unfold work in Wp. destruct (worker c) as [[k [v|]]|] eqn:Wk.
  - exists Send. cbn. rewrite Wk. eauto.
  - exists Read. cbn. rewrite Wk. eauto.
  - destruct (events c) as [|[own key] evs] eqn:E.
    + exists Get. cbn. rewrite Wk. pose proof (waiting_Get (queue c)) as G. destruct (q_Get _) as [[k q]|]; [by eauto|].
      rewrite G, size_empty in Wp. cbn in Wp. lia.
    + exists Notify. cbn. rewrite E. destruct (_ || _); eauto.
Qed.
(** * The cluster *)

Lemma step_listed ev c c' : step ev c = Some c' -> (store c', related c') = listed_step (store c, related c) ev.
Proof.
  destruct ev; cbn [step]; try by intros [= <-].
  - destruct (events c) as [|[own key] evs]; [done|]. destruct (_ || _); by intros [= <-].
  - destruct (worker c); [done|]. destruct (q_Get _) as [[key q]|]; [|done]. by intros [= <-].
  - destruct (worker c) as [[key [v|]]|]; [done| |done]. by intros [= <-].
  - destruct (worker c) as [[key [v|]]|]; [|done..]. by intros [= <-].
Qed.

Lemma run_listed evs : forall c c', run evs c = Some c' -> (store c', related c') = foldl listed_step (store c, related c) evs.
Proof.
  induction evs as [|ev evs IH]; intros c c'; cbn [run foldl]; [by intros [= <-]|].
  destruct (step ev c) as [c1|] eqn:E; [|done]. intros R1. rewrite <- (step_listed ev c c1 E). by apply IH.
Qed.

(** The events of other keys do not matter. *)
Definition key_of ev : option string :=
  match ev with Update o => Some (object_key o) | Delete key | Relate key _ => Some key | _ => None end.

Lemma visible_key namespace ev ns name : valid_event ev -> r_valid ns name -> key_of ev = Some (MetaKey ns name) ->
  visible namespace ev = in_namespace namespace ns.
Proof.
  intros Vev Vn. destruct ev as [o|key|key v| | | | |]; try done; cbn in *; intros E.
  - injection E as E. unfold object_key in E. apply (f_equal SplitMetaNamespaceKey) in E. rewrite !split_key in E by done. by injection E as -> _.
  - injection E as ->. by rewrite split_key.
  - injection E as ->. by rewrite split_key.
Qed.

Lemma listed_other (s s' : gmap string Obj * gmap string V) ev k : (s.1 !! k = s'.1 !! k /\ s.2 !! k = s'.2 !! k) -> key_of ev <> Some k ->
  (listed_step s ev).1 !! k = s'.1 !! k /\ (listed_step s ev).2 !! k = s'.2 !! k.
Proof.
  intros E N. destruct ev as [o|key|key v| | | | |]; cbn in *; try done; assert (forall x, Some x <> Some k -> x <> k) as C by congruence; apply C in N.
  - by rewrite lookup_insert_ne.
  - by rewrite lookup_delete_ne.
  - by rewrite lookup_partial_alter_ne.
Qed.

Lemma listed_same (s s' : gmap string Obj * gmap string V) ev k : (s.1 !! k = s'.1 !! k /\ s.2 !! k = s'.2 !! k) ->
  (listed_step s ev).1 !! k = (listed_step s' ev).1 !! k /\ (listed_step s ev).2 !! k = (listed_step s' ev).2 !! k.
Proof.
  intros [E1 E2]. destruct ev as [o|key|key v| | | | |]; cbn; try done.
  - by destruct (decide (object_key o = k)) as [->|]; rewrite ?lookup_insert_eq, ?lookup_insert_ne.
  - by destruct (decide (key = k)) as [->|]; rewrite ?lookup_delete_eq, ?lookup_delete_ne.
  - destruct (decide (key = k)) as [->|]; rewrite ?lookup_partial_alter_eq, ?lookup_partial_alter_ne by done; done.
Qed.

Lemma since_same (st st' : W * (string -> list W)) ev k : st.1 = st'.1 /\ st.2 k = st'.2 k -> (since_step st ev).1 = (since_step st' ev).1 /\ (since_step st ev).2 k = (since_step st' ev).2 k.
Proof. intros [E1 E2]. destruct ev; cbn; rewrite ?E1, ?E2; split; try done; by case_decide. Qed.

(** An informer for a namespace knows the same of the namespace's keys, and
    nothing of the others. *)
Lemma sees_namespace namespace evs ns name (w : W) : Forall valid_event evs -> r_valid ns name -> in_namespace namespace ns = true ->
  let k := MetaKey ns name in let seen := List.filter (visible namespace) evs in
  (listed seen).1 !! k = (listed evs).1 !! k /\ (listed seen).2 !! k = (listed evs).2 !! k /\ (since w seen).2 k = (since w evs).2 k.
Proof.
  intros Vs Vn In k. cbn zeta. unfold listed, since.
  enough (forall s s' st st', (s.1 !! k = s'.1 !! k /\ s.2 !! k = s'.2 !! k) -> (st.1 = st'.1 /\ st.2 k = st'.2 k) ->
    let f := List.filter (visible namespace) evs in
    ((foldl listed_step s f).1 !! k = (foldl listed_step s' evs).1 !! k /\ (foldl listed_step s f).2 !! k = (foldl listed_step s' evs).2 !! k) /\
    (foldl since_step st f).2 k = (foldl since_step st' evs).2 k) as G.
  { destruct (G (∅, ∅) (∅, ∅) (w, fun _ => [w]) (w, fun _ => [w])) as [[-> ->] ->]; done. }
  induction Vs as [|ev evs Vev Vs IH]; intros s s' st st' Es Et; cbn zeta; [by split; [|apply Et]|]. cbn [List.filter].
  destruct (visible namespace ev) eqn:Vi; cbn [foldl]; [apply IH; [by apply listed_same|by apply since_same]|].
  assert (key_of ev <> Some k) as N.
  { intros E. apply (visible_key namespace ev ns name Vev Vn) in E. congruence. }
  apply IH.
  - destruct (listed_other s' s ev k) as [E1 E2]; [by destruct Es|done|done].
  - destruct ev as [o|key|key v| | | | |]; try done; cbn in *; destruct Et as [-> ->]; rewrite ?decide_False by congruence; done.
Qed.

Lemma sees_no_other namespace evs ns name : Forall valid_event evs -> r_valid ns name -> in_namespace namespace ns = false ->
  (listed (List.filter (visible namespace) evs)).1 !! MetaKey ns name = None.
Proof.
  intros Vs Vn In. unfold listed.
  enough (forall s, s.1 !! MetaKey ns name = None -> (foldl listed_step s (List.filter (visible namespace) evs)).1 !! MetaKey ns name = None) as G by (by apply G).
  induction Vs as [|ev evs Vev Vs IH]; intros s Es; [done|]. cbn [List.filter]. destruct (visible namespace ev) eqn:Vi; cbn [foldl]; [|by apply IH].
  apply IH. destruct ev as [o|key|key v| | | | |]; try done; cbn in *.
  - rewrite lookup_insert_ne; [done|]. intros E.
    pose proof (visible_key namespace (Update o) ns name Vev Vn (f_equal Some E)) as X. cbn in X. congruence.
  - rewrite lookup_delete_ne; [done|]. intros ->. rewrite split_key in Vi by done. congruence.
Qed.

Lemma updates_filter (p : event -> bool) evs : updates (List.filter p evs) ⊆ updates evs.
Proof. induction evs as [|ev evs IH]; [done|]. unfold updates in *. cbn. destruct (p ev), ev; cbn; set_solver. Qed.

Lemma quiet_up_to_date c S H k : inv c S H -> valid_key k -> work c = 0%nat -> up_to_date c (S k) k.
Proof.
  intros I Vk Wk. unfold work in Wk. destruct (events c) eqn:E; [|done]. cbn in Wk.
  assert (waiting (queue c) = ∅) as Q0 by (apply leibniz_equiv, size_empty_inv; lia).
  destruct (inv_attended c S H I k Vk) as [[P|[[P _]|P]]|A].
  - rewrite E in P. by apply elem_of_nil in P.
  - rewrite E in P. by apply elem_of_nil in P.
  - rewrite Q0 in P. set_solver.
  - destruct (worker c) as [[k' [r|]]|]; [lia..|done].
Qed.

(** What was sent for a source is empty or was built from an object of it. *)
Lemma told_built c S H ns name g : inv c S H -> r_valid ns name -> told c (MetaKey ns name) = Some g ->
  tg_Targets g = [] \/ exists o w v, o ∈ H /\ object_key o = MetaKey ns name /\ r_build w v o = Some g.
Proof.
  intros I Vn. unfold told, source_of. rewrite split_key by done. intros L.
  assert (g ∈ sent c /\ Source g = r_source ns name) as [Hg Sg].
  { clear -L. induction (sent c) as [|g' gs IH] using rev_ind; [done|]. rewrite map_app in L. unfold latest in L. rewrite foldl_app in L. cbn in L.
    fold (latest (map Some gs)) in L. destruct (decide (Source g' = r_source ns name)) as [E|N].
    - rewrite E, lookup_insert_eq in L. injection L as <-. split; [set_solver|done].
    - rewrite lookup_insert_ne in L by done. apply IH in L as [? ?]. split; [set_solver|done]. }
  pose proof (proj1 (Forall_forall _ _) (inv_sent c S H I) g Hg) as [B|(o & w & v & Ho & Vo & B)]; [by left|]. right. exists o, w, v. split; [done|]. split; [|done].
  apply build_source in B. rewrite Sg in B. apply source_inj in B as [-> ->]; [done..|]. done.
Qed.

End controller_facts.

(** * The kinds of objects *)

Definition slash_free (s : string) : Prop := contains_byte s (rune "/") = false.

(** Keys are split again into a namespace and a name that have no slash. *)
Class MetaKeysLaws `{MetaKeys} : Prop :=
  split_MetaKey ns name : slash_free ns -> slash_free name -> SplitMetaNamespaceKey (MetaKey ns name) = Some (ns, name).

Lemma slash_inj p ns name ns' name' : slash_free ns -> slash_free ns' ->
  p +:+ ns +:+ "/" +:+ name = p +:+ ns' +:+ "/" +:+ name' -> ns = ns' /\ name = name'.
Proof. intros N N' E. apply (inj (String.append p)) in E. by eapply (split_at_byte "/"). Qed.

Section kinds.
Context `{MO : MapOrder} `{AC : ApiConstants} `{ML : MetaKeysLaws}.

#[export] Instance pod_laws : ResourceLaws Pod unit unit.
Proof.
  refine {| r_valid ns name := slash_free ns /\ slash_free name |}; [intros ns name []; by apply split_MetaKey| |].
  - intros ns name ns' name' [N _] [N' _] E. exact (slash_inj "pod/" _ _ _ _ N N' E).
  - intros w v o g [= <-]. cbn. unfold buildPod. by destruct (_ =? _)%nat.
Defined.

#[export] Instance service_laws : ResourceLaws Service unit unit.
Proof.
  refine {| r_valid ns name := slash_free ns /\ slash_free name |}; [intros ns name []; by apply split_MetaKey| |by intros w v o g [= <-]].
  intros ns name ns' name' [N _] [N' _] E. exact (slash_inj "svc/" _ _ _ _ N N' E).
Defined.

#[export] Instance ingress_laws : ResourceLaws Ingress unit unit.
Proof.
  refine {| r_valid ns name := slash_free ns /\ slash_free name |}; [intros ns name []; by apply split_MetaKey| |by intros w v o g [= <-]].
  intros ns name ns' name' [N _] [N' _] E. exact (slash_inj "ingress/" _ _ _ _ N N' E).
Defined.

(** Nodes have no namespace, and their source has none. *)
#[export] Instance node_laws : ResourceLaws Node unit unit.
Proof.
  refine {| r_valid ns name := ns = "" /\ slash_free name |}; [intros ns name [-> N]; by apply split_MetaKey| |].
  - intros ns name ns' name' [-> _] [-> _] E. split; [done|]. by apply (inj (String.append "node/")) in E.
  - intros w v o g. cbn. unfold buildNode. destruct (nodeAddress o) as [addr m]. intros (a & _ & E)%bind_Some. by injection E as <-.
Defined.

#[export] Instance endpoints_laws : ResourceLaws Endpoints Service (string -> string -> option Pod).
Proof.
  refine {| r_valid ns name := slash_free ns /\ slash_free name |}; [intros ns name []; by apply split_MetaKey| |].
  - intros ns name ns' name' [N _] [N' _] E. exact (slash_inj "endpoints/" _ _ _ _ N N' E).
  - intros w v o g [= <-]. cbn. unfold buildEndpoints. by destruct (foldl _ _ _).
Defined.
End kinds.


(** * The namespaces *)

(** However the loop over several namespaces is left, all informers list the
    last namespace from then on, and the others are lost. *)
Lemma namespaces_lost names l i : rtc (fun a b => next_namespace a = Some b) (start_loop names) l -> todo l = [] ->
  (i < length (getNamespaces names))%nat -> ListFunc i l = list.last (getNamespaces names).
Proof.
  enough (forall a b, rtc (fun a b => next_namespace a = Some b) a b -> todo b = [] ->
            informers b = (informers a + length (todo a))%nat /\ variable b = default (variable a) (list.last (todo a))) as L.
  { intros St E I. apply (L _ _ St) in E as [E1 E2]. unfold ListFunc. cbn in E1, E2. rewrite E1, E2. clear -I.
    rewrite (proj2 (Nat.ltb_lt _ _)) by lia. destruct (getNamespaces names) as [|n ns]; [cbn in I; lia|]. by rewrite last_cons; destruct (list.last ns). }
  clear. intros a b St E. induction St as [a|a a' b H _ IH]; [rewrite E; cbn; by rewrite Nat.add_0_r|].
  unfold next_namespace in H. destruct (todo a) as [|ns nss]; [done|]. injection H as <-. destruct (IH E) as [-> ->]. cbn. split; [lia|].
  rewrite last_cons. by destruct (list.last nss).
Qed.

(** * A pod that comes and goes *)

Definition set_queue_example : WorkQueue (gset string).
Proof.
  refine {| waiting q := q; q_Add k q := {[k]} ∪ q; q_Get q := match elements q with [] => None | k :: _ => Some (k, q ∖ {[k]}) end |}; [done|].
  intros q. pose proof (elem_of_elements q) as E. destruct (elements q) as [|k ks] eqn:El; [by apply leibniz_equiv, elements_empty_inv|].
  split; [|done]. apply E. left.
Defined.

(** The part in front of the first slash and the one behind it. *)
Fixpoint cut_slash (s : string) : option (string * string) :=
  match s with
  | EmptyString => None
  | String c s => if Ascii.eqb c "/" then Some ("", s) else '(a, b) ← cut_slash s; Some (String c a, b)
  end.

Definition example_keys : MetaKeys := {|
  MetaKey ns name := if (ns =? "")%string then name else ns +:+ "/" +:+ name;
  SplitMetaNamespaceKey key := Some (default ("", key) (cut_slash key))
|}.

Lemma cut_slash_free s : slash_free s -> cut_slash s = None /\ forall t, cut_slash (s +:+ "/" +:+ t) = Some (s, t).
Proof.
  unfold slash_free. induction s as [|c s IH]; [done|]. rewrite contains_byte_cons. intros [N F]%orb_false_iff.
  destruct (IH F) as [E1 E2]. assert (Ascii.eqb c "/" = false) as C by (destruct (Ascii.eqb_spec c "/") as [->|_]; [by rewrite Z.eqb_refl in N|done]).
  split; [cbn [cut_slash]; by rewrite C, E1|]. intros t. change (String c s +:+ "/" +:+ t) with (String c (s +:+ "/" +:+ t)).
  cbn [cut_slash]. by rewrite C, E2.
Qed.

Lemma example_keys_laws : @MetaKeysLaws example_keys.
Proof.
  intros ns name N F. cbn. destruct (String.eqb_spec ns "") as [->|_]; [by rewrite (proj1 (cut_slash_free name F))|].
  by rewrite (proj2 (cut_slash_free ns N)).
Qed.

Definition example_api : ApiConstants := {|
  PodReady := "Ready"; ConditionUnknown := "Unknown";
  NodeInternalIP := "InternalIP"; NodeExternalIP := "ExternalIP"; NodeLegacyHostIP := "LegacyHostIP"; NodeHostName := "Hostname"
|}.

#[local] Existing Instances set_queue_example example_keys example_keys_laws example_api tree_order.

Definition web : Pod :=
  mkPod (mkMeta "default" "web" "u1" {["app" := "web"]} ∅ []) "10.0.0.1" "192.168.0.1" [("Ready", "True")] "n1"
    [mkContainer "nginx" [mkContainerPort "http" 80 "TCP"]].
Definition gone : Pod := mkPod (mkMeta "default" "gone" "u2" ∅ ∅ []) "10.0.0.2" "192.168.0.1" [] "n1" [mkContainer "c" []].

Definition foreign : Pod := mkPod (mkMeta "other" "db" "u3" ∅ ∅ []) "10.0.0.3" "192.168.0.1" [] "n1" [mkContainer "c" []].

(** The second pod is deleted after it was read, and a third one is in another
    namespace. *)
Definition web_events : list (@event Pod unit unit) :=
  [Update gone; Notify; Get; Update web; Update foreign; Read; Delete "default/gone"; Send; Notify; Notify; Get; Read; Send; Get; Read; Send].

