(* ===== verification/Notifier.v ===== *)
(** notifier/notifier.go: the queue of alert notifications, the loop that sends
    them, and the sets of Alertmanagers they go to; with the function of
    cmd/prometheus/main.go through which the rules feed the queue. *)

From S2P Require Import Prelude GoString GoFmt Float Duration Labels LabelsFacts Relabel Lexer Ast Printer Storage Alerting RuleFmt Target.

(** * Alerts *)

(** [notifier.Alert] *)
Record n_Alert := mkNAlert {
  n_Labels : Labels; n_Annotations : Labels; StartsAt : Time; EndsAt : Time; GeneratorURL : string
}.

Definition Alert_Name (a : n_Alert) : string := Get (n_Labels a) AlertName.

Definition Alert_ResolvedAt (a : n_Alert) (ts : Time) : bool :=
  if IsZero (EndsAt a) then false else negb (ts <? EndsAt a).

(** [url.QueryEscape] *)
Definition unreserved (c : Z) : bool :=
  ((rune "a" <=? c) && (c <=? rune "z")) || ((rune "A" <=? c) && (c <=? rune "Z")) || ((rune "0" <=? c) && (c <=? rune "9")) ||
  (c =? rune "-") || (c =? rune "_") || (c =? rune ".") || (c =? rune "~").
Fixpoint QueryEscape (s : string) : string :=
  match s with
  | EmptyString => ""
  | String c s' =>
    (if unreserved (rune c) then String c ""
     else if rune c =? rune " " then "+"
     else String "%" (hex_digits_upper 2 (rune c))) +:+ QueryEscape s'
  end.

(** util/strutil *)
Definition TableLinkForExpression (expr : string) : string := "/graph?g0.expr=" +:+ QueryEscape expr +:+ "&g0.tab=1".

(** * Paths *)

(** The elements of a path. *)
Fixpoint split_path (s acc : string) : list string :=
  match s with
  | EmptyString => [acc]
  | String c s' => if rune c =? rune "/" then acc :: split_path s' "" else split_path s' (acc +:+ String c "")
  end.

(** [path.Clean] of a path that starts with a slash: the elements that are left. *)
Definition clean_element (out : list string) (e : string) : list string :=
  if (e =? "")%string || (e =? ".")%string then out
  else if (e =? "..")%string then removelast out
  else out ++ [e].
Definition clean_rooted (s : string) : string := "/" +:+ str_join "/" (foldl clean_element [] (split_path s "")).

Definition alertPushEndpoint : string := "/api/v1/alerts".
Definition postPath (pre : string) : string := clean_rooted ("//" +:+ pre +:+ "/" +:+ alertPushEndpoint).

(** * The queue *)

Section notifier.
Context `{RE : Regexp} `{RR : !RegexpReplace} `{HM : MD5} `{UT : UnicodeTables} `{MO : MapOrder}.

Record Options := mkOptions { QueueCapacity : Z; ExternalLabels : gmap string string; AlertRelabelConfigs : list RelabelConfig }.

Record AlertmanagerConfig := mkAmConfig { am_Scheme : string; PathPrefix : string; am_RelabelConfigs : list RelabelConfig }.

(** [alertmanagerLabels] are the labels of an Alertmanager. *)
Record alertmanagerSet := mkAmSet { am_cfg : AlertmanagerConfig; ams : list Labels; droppedAms : list Labels }.

Record Manager := mkManager {
  queue : list n_Alert; opts : Options; more : bool; alertmanagers : gmap string alertmanagerSet;
  (* the counter of dropped alerts *)
  dropped : Z
}.

Definition NewManager (o : Options) : Manager := mkManager [] o false ∅ 0.

Definition set_queue (q : list n_Alert) (m : Manager) : Manager := mkManager q (opts m) (more m) (alertmanagers m) (dropped m).
Definition set_more (b : bool) (m : Manager) : Manager := mkManager (queue m) (opts m) b (alertmanagers m) (dropped m).
Definition add_dropped (d : Z) (m : Manager) : Manager := mkManager (queue m) (opts m) (more m) (alertmanagers m) (dropped m + d).
Definition set_ams (s : gmap string alertmanagerSet) (m : Manager) : Manager := mkManager (queue m) (opts m) (more m) s (dropped m).

(** [setMore]: the channel holds one signal. *)
Definition setMore (m : Manager) : Manager := set_more true m.

Definition maxBatchSize : nat := 64.

Definition queueLen (m : Manager) : Z := Z.of_nat (length (queue m)).

Definition nextBatch (m : Manager) : list n_Alert * Manager :=
  if (maxBatchSize <? length (queue m))%nat then (take maxBatchSize (queue m), set_queue (drop maxBatchSize (queue m)) m)
  else (queue m, set_queue [] m).

(** The external labels that the alert does not have. *)
Definition attach_external (ext : gmap string string) (a : n_Alert) : n_Alert :=
  let lb := foldl (fun lb kv => if (Get (n_Labels a) kv.1 =? "")%string then Set_ lb kv.1 kv.2 else lb)
                  (NewBuilder (n_Labels a)) (map_order ext) in
  mkNAlert (Builder_Labels lb) (n_Annotations a) (StartsAt a) (EndsAt a) (GeneratorURL a).

(** [None] is a panic of the relabelling. *)
Fixpoint relabelAlerts (cfgs : list RelabelConfig) (alerts : list n_Alert) : option (list n_Alert) :=
  match alerts with
  | [] => Some []
  | a :: alerts =>
    ls ← Process (Some (n_Labels a)) cfgs;
    rest ← relabelAlerts cfgs alerts;
    Some (match ls with
          | Some ls => mkNAlert ls (n_Annotations a) (StartsAt a) (EndsAt a) (GeneratorURL a) :: rest
          | None => rest
          end)
  end.

(** [s[d:]], a panic when out of range. *)
Definition slice_from {A} (d : Z) (l : list A) : option (list A) :=
  if (0 <=? d) && (d <=? Z.of_nat (length l)) then Some (drop (Z.to_nat d) l) else None.

Definition Send (alerts : list n_Alert) (m : Manager) : option Manager :=
  alerts ← relabelAlerts (AlertRelabelConfigs (opts m)) (map (attach_external (ExternalLabels (opts m))) alerts);
  let d := Z.of_nat (length alerts) - QueueCapacity (opts m) in
  am ← (if 0 <? d then rest ← slice_from d alerts; Some (rest, add_dropped d m) else Some (alerts, m));
  let '(alerts, m) := am in
  let d := Z.of_nat (length (queue m)) + Z.of_nat (length alerts) - QueueCapacity (opts m) in
  m ← (if 0 <? d then rest ← slice_from d (queue m); Some (add_dropped d (set_queue rest m)) else Some m);
  Some (setMore (set_queue (queue m ++ alerts) m)).

(** [sendAlerts] of main.go, for the alerts of a rule with the expression [expr]. *)
Definition convert_alert (externalURL expr : string) (a : Alert) : n_Alert :=
  mkNAlert (a_Labels a) (Annotations a) (FiredAt a) (if negb (IsZero (ResolvedAt a)) then ResolvedAt a else 0)
    (externalURL +:+ TableLinkForExpression expr).
Definition sendAlerts (externalURL expr : string) (alerts : list Alert) (m : Manager) : option Manager :=
  let res := map (convert_alert externalURL expr) (List.filter (fun a => negb (state_eqb (State a) StatePending)) alerts) in
  if (0 <? length alerts)%nat then Send res m else Some m.

(** * Alertmanagers *)

(** [url.URL.String] of a scheme, a host and a path. *)
Class URLString := URL_String : string -> string -> string -> string.
Context `{US : URLString}.

Definition pathLabel : string := "__alerts_path__".

(** [alertmanagerLabels.url], as a string. *)
Definition am_url (a : Labels) : string := URL_String (Get a SchemeLabel) (Get a AddressLabel) (Get a pathLabel).

(** The labels of an Alertmanager before relabelling. *)
Definition am_labels (tg : TargetGroup) (cfg : AlertmanagerConfig) (tlset : gmap string string) : Labels :=
  let pairs := map (fun kv => mkLabel kv.1 kv.2) in
  pairs (map_order tlset) ++ [mkLabel SchemeLabel (am_Scheme cfg); mkLabel pathLabel (postPath (PathPrefix cfg))] ++
  pairs (List.filter (fun kv => match tlset !! kv.1 with Some _ => false | None => true end) (map_order (tg_Labels tg))).

(** The address with the port its scheme implies. *)
Definition am_addr (cfg : AlertmanagerConfig) (lset : Labels) : result string string :=
  let addr := Get lset AddressLabel in
  if addPort addr then
    let scheme := Get lset SchemeLabel in
    if (scheme =? "http")%string || (scheme =? "")%string then Ok (addr +:+ ":80")
    else if (scheme =? "https")%string then Ok (addr +:+ ":443")
    else Err ("invalid scheme: " +:+ Quote (am_Scheme cfg))
  else Ok addr.

(** The loop of [alertmanagerFromGroup]; the builder it fills is not used. *)
Fixpoint am_loop (tg : TargetGroup) (cfg : AlertmanagerConfig) (tlsets : list (gmap string string)) (res dropped : list Labels)
  : option (result string (list Labels * list Labels)) :=
  match tlsets with
  | [] => Some (Ok (res, dropped))
  | tlset :: tlsets =>
    let lbls := am_labels tg cfg tlset in
    lset ← Process (Some (New lbls)) (am_RelabelConfigs cfg);
    match lset with
    | None => am_loop tg cfg tlsets res (dropped ++ [lbls])
    | Some lset =>
      let lb := NewBuilder lset in
      match am_addr cfg lset with
      | Err e => Some (Err e)
      | Ok addr =>
        let lb := if addPort (Get lset AddressLabel) then Set_ lb AddressLabel addr else lb in
        match CheckTargetAddress addr with
        | Some e => Some (Err e)
        | None =>
          _ ← range_labels (fun l lb => if HasPrefix (Name l) MetaLabelPrefix then Del lb [Name l] else Some lb) lset lb;
          am_loop tg cfg tlsets (res ++ [lset]) dropped
        end
      end
    end
  end.

Definition alertmanagerFromGroup (tg : TargetGroup) (cfg : AlertmanagerConfig) : option (result string (list Labels * list Labels)) :=
  am_loop tg cfg (tg_Targets tg) [] [].

(** The groups that can be read; the others are logged. *)
Fixpoint all_ams (tgs : list TargetGroup) (cfg : AlertmanagerConfig) : option (list Labels * list Labels) :=
  match tgs with
  | [] => Some ([], [])
  | tg :: tgs =>
    r ← alertmanagerFromGroup tg cfg;
    rest ← all_ams tgs cfg;
    Some (match r with Ok (a, d) => (a ++ rest.1, d ++ rest.2) | Err _ => rest end)
  end.

(** The first Alertmanager of each URL. *)
Fixpoint dedup_ams (allAms : list Labels) (seen : gset string) : list Labels :=
  match allAms with
  | [] => []
  | am :: allAms => if bool_decide (am_url am ∈ seen) then dedup_ams allAms seen else am :: dedup_ams allAms ({[am_url am]} ∪ seen)
  end.

Definition am_sync (tgs : list TargetGroup) (s : alertmanagerSet) : option alertmanagerSet :=
  r ← all_ams tgs (am_cfg s); Some (mkAmSet (am_cfg s) (dedup_ams r.1 ∅) r.2).

Fixpoint reload_loop (tgs : list (string * list TargetGroup)) (sets : gmap string alertmanagerSet) : option (gmap string alertmanagerSet) :=
  match tgs with
  | [] => Some sets
  | (id, tgroup) :: tgs =>
    match sets !! id with
    | None => reload_loop tgs sets
    | Some am => am ← am_sync tgroup am; reload_loop tgs (<[id := am]> sets)
    end
  end.
Definition reload (tgs : gmap string (list TargetGroup)) (m : Manager) : option Manager :=
  sets ← reload_loop (map_order tgs) (alertmanagers m); Some (set_ams sets m).

Definition Alertmanagers (m : Manager) : list string := flat_map (fun kv => map am_url (ams kv.2)) (map_order (alertmanagers m)).
Definition DroppedAlertmanagers (m : Manager) : list string := flat_map (fun kv => map am_url (droppedAms kv.2)) (map_order (alertmanagers m)).

(** The client of a configuration, and the hash of its JSON form that is the key
    of its set; either can fail. *)
Variable new_client : AlertmanagerConfig -> option string.
Variable config_key : AlertmanagerConfig -> result string string.

Definition newAlertmanagerSet (cfg : AlertmanagerConfig) : result string alertmanagerSet :=
  match new_client cfg with Some e => Err e | None => Ok (mkAmSet cfg [] []) end.

Fixpoint new_sets (cfgs : list AlertmanagerConfig) (amSets : gmap string alertmanagerSet) : result string (gmap string alertmanagerSet) :=
  match cfgs with
  | [] => Ok amSets
  | cfg :: cfgs =>
    match newAlertmanagerSet cfg with
    | Err e => Err e
    | Ok s => match config_key cfg with Err e => Err e | Ok k => new_sets cfgs (<[k := s]> amSets) end
    end
  end.

(** [ApplyConfig]: the labels and the relabelling change also when a set cannot be made. *)
Definition ApplyConfig (ext : gmap string string) (relabel_configs : list RelabelConfig) (cfgs : list AlertmanagerConfig) (m : Manager)
  : Manager * option string :=
  let o := mkOptions (QueueCapacity (opts m)) ext relabel_configs in
  match new_sets cfgs ∅ with
  | Err e => (mkManager (queue m) o (more m) (alertmanagers m) (dropped m), Some e)
  | Ok amSets => (mkManager (queue m) o (more m) amSets (dropped m), None)
  end.

(** [sendOne]: the request's error, or the status of the response. *)
Definition sendOne (Do : string -> list n_Alert -> result string Z) (url : string) (alerts : list n_Alert) : option string :=
  match Do url alerts with
  | Err e => Some e
  | Ok status => if negb (status / 100 =? 2) then Some ("bad response status " +:+ Itoa status) else None
  end.

(** [sendAll]: whether one Alertmanager took the alerts. *)
Definition sendAll (Do : string -> list n_Alert -> result string Z) (alerts : list n_Alert) (m : Manager) : bool :=
  existsb (fun url => match sendOne Do url alerts with None => true | Some _ => false end) (Alertmanagers m).

(** * [Run] *)

(** Where the loop is: at its select, in front of [nextBatch], sending a batch,
    behind the send, or gone. *)
Inductive phase := Selecting | Woken | Sending (alerts : list n_Alert) | Sent | Stopped.

(** The steps of the loop and of the goroutines that call the manager; each is
    atomic under the manager's lock. *)
Inductive event :=
| EvSend (alerts : list n_Alert)
| EvApplyConfig (ext : gmap string string) (relabel_configs : list RelabelConfig) (cfgs : list AlertmanagerConfig)
| EvDone | EvTargets (ts : gmap string (list TargetGroup)) | EvMore
| EvBatch | EvSendAll (Do : string -> list n_Alert -> result string Z) | EvCheck.

(** The queue's length is asked and the signal set under two locks, but only
    [Send] comes between, and it sets the signal itself. *)
Definition step (e : event) (s : Manager * phase) : option (Manager * phase) :=
  let '(m, p) := s in
  match e, p with
  | EvSend alerts, _ => m ← Send alerts m; Some (m, p)
  | EvApplyConfig ext rl cfgs, _ => Some ((ApplyConfig ext rl cfgs m).1, p)
  | EvDone, Selecting => Some (m, Stopped)
  | EvTargets ts, Selecting => m ← reload ts m; Some (m, Woken)
  | EvMore, Selecting => if more m then Some (set_more false m, Woken) else None
  | EvBatch, Woken => let (alerts, m) := nextBatch m in Some (m, Sending alerts)
  | EvSendAll Do, Sending alerts =>
    Some (if negb (sendAll Do alerts m) then add_dropped (Z.of_nat (length alerts)) m else m, Sent)
  | EvCheck, Sent => Some (if 0 <? queueLen m then setMore m else m, Selecting)
  | _, _ => None
  end.

Fixpoint run (es : list event) (s : Manager * phase) : option (Manager * phase) :=
  match es with
  | [] => Some s
  | e :: es => s ← step e s; run es s
  end.
End notifier.
