(* ===== verification/NotifierFacts.v ===== *)
(** The notification queue: what a call of [Send] does to it, what the loop
    takes out of it, and where the alerts go. *)

From S2P Require Import Prelude GoString GoFmt Float Duration Labels LabelsFacts Relabel Lexer Ast Printer Storage Alerting RuleFmt Target TargetFacts Notifier.

Section facts.
Context `{RE : Regexp} `{RR : !RegexpReplace} `{HM : MD5} `{UT : UnicodeTables} `{MO : MapOrder} `{US : URLString}.
Variable new_client : AlertmanagerConfig -> option string.
Variable config_key : AlertmanagerConfig -> result string string.

(** * External labels and relabelling *)

(** The labels of an alert with the external labels it lacks. *)
Definition fill (ext own : gmap string string) : gmap string string :=
  filter (fun kv => default "" (own !! kv.1) = "") ext ∪ own.

Lemma fill_lookup ext own n :
  fill ext own !! n = if decide (default "" (own !! n) = "") then (match ext !! n with Some v => Some v | None => own !! n end) else own !! n.
Proof.
  unfold fill. apply option_eq. intros v. rewrite lookup_union_Some_raw, map_lookup_filter_Some, map_lookup_filter_None. cbn.
  destruct (decide _) as [D|D]; destruct (ext !! n) as [x|] eqn:E; naive_solver.
Qed.

Definition fill_step (own m : gmap string string) (kv : string * string) : gmap string string :=
  if (default "" (own !! kv.1) =? "")%string then <[kv.1 := kv.2]> m else m.

Lemma fill_fold_other own n kvs m : n ∉ map fst kvs -> foldl (fill_step own) m kvs !! n = m !! n.
Proof.
  revert m. induction kvs as [|[k v] kvs IH]; intros m; [done|]. cbn. intros [N1 N2]%not_elem_of_cons. rewrite IH by done.
  unfold fill_step. cbn. destruct (_ =? _)%string; [|done]. by apply lookup_insert_ne.
Qed.

Lemma fill_fold own n v kvs m : NoDup (map fst kvs) -> (n, v) ∈ kvs ->
  foldl (fill_step own) m kvs !! n = if decide (default "" (own !! n) = "") then Some v else m !! n.
Proof.
  revert m. induction kvs as [|[k w] kvs IH]; intros m ND I; [by apply elem_of_nil in I|].
  cbn in ND. apply NoDup_cons in ND as [NI ND]. cbn [foldl]. apply elem_of_cons in I as [[= -> ->]|I].
  - rewrite fill_fold_other by done. unfold fill_step. cbn.
    destruct (String.eqb_spec (default "" (own !! k)) ""); [rewrite decide_True by done; apply lookup_insert_eq|by rewrite decide_False].
  - rewrite IH by done. destruct (decide _); [done|]. unfold fill_step. cbn. destruct (_ =? _)%string; [|done].
    apply lookup_insert_ne. intros ->. apply NI. apply list_elem_of_fmap. by exists (n, v).
Qed.

Lemma map_order_keys {A} (m : gmap string A) : NoDup (map fst (map_order m)).
Proof. rewrite map_order_perm. apply NoDup_fst_map_to_list. Qed.

Lemma fill_order ext own : foldl (fill_step own) own (map_order ext) = fill ext own.
Proof.
  apply map_eq. intros n. rewrite fill_lookup. destruct (ext !! n) as [v|] eqn:E.
  - rewrite (fill_fold own n v); [done|apply map_order_keys|by apply elem_of_map_order].
  - rewrite fill_fold_other; [by destruct (decide _)|]. intros ([k v] & -> & I)%list_elem_of_fmap.
    apply elem_of_map_order in I. cbn in E. congruence.
Qed.

Lemma attach_spec ext a : wf_labels (n_Labels a) -> n_Labels (attach_external ext a) = FromMap (fill ext (Map (n_Labels a))).
Proof.
  intros W. unfold attach_external. cbn [n_Labels]. destruct (NewBuilder_spec _ W) as [B0 D0].
  destruct (foldl_builder (fun lb kv => if (Get (n_Labels a) kv.1 =? "")%string then Set_ lb kv.1 kv.2 else lb)
    (fill_step (Map (n_Labels a))) (map_order ext) (NewBuilder (n_Labels a))) as [B D]; [|done|].
  - intros lb kv Wb. unfold fill_step. rewrite Get_Map by (by apply wf_names). destruct (_ =? _)%string; [|done].
    split; [by apply Set_wf|by apply Set_denote].
  - destruct (Builder_Labels_spec _ B) as [WB MB]. apply Map_inj; [done|apply FromMap_wf|].
    by rewrite Map_FromMap, MB, D, D0, fill_order.
Qed.

Definition with_labels (a : n_Alert) (m : gmap string string) : n_Alert :=
  mkNAlert (FromMap m) (n_Annotations a) (StartsAt a) (EndsAt a) (GeneratorURL a).

(** What [Send] puts in the queue for an alert. *)
Definition outgoing (o : Options) (a : n_Alert) : option n_Alert :=
  with_labels a <$> process_map (AlertRelabelConfigs o) (fill (ExternalLabels o) (Map (n_Labels a))).

Definition accepted_by (m : Manager) (alerts : list n_Alert) : option (list n_Alert) :=
  relabelAlerts (AlertRelabelConfigs (opts m)) (map (attach_external (ExternalLabels (opts m))) alerts).

Lemma relabelAlerts_eq m alerts : Forall (fun a => wf_labels (n_Labels a)) alerts -> Forall valid_config (AlertRelabelConfigs (opts m)) ->
  accepted_by m alerts = Some (omap (outgoing (opts m)) alerts).
Proof.
  intros W V. unfold accepted_by. induction W as [|a alerts Wa W IH]; [done|]. cbn [map relabelAlerts].
  rewrite attach_spec by done. rewrite Process_spec by (first [done|apply FromMap_wf]). rewrite Map_FromMap. cbn [mbind option_bind].
  rewrite IH. cbn [mbind option_bind]. f_equal. cbn [omap list_omap]. unfold outgoing at 3.
  by destruct (process_map (AlertRelabelConfigs (opts m)) (fill (ExternalLabels (opts m)) (Map (n_Labels a)))).
Qed.

(** * [Send] *)

(** How many alerts do not fit. *)
Definition overflow (m : Manager) (new : list n_Alert) : nat := (length (queue m) + length new) - Z.to_nat (QueueCapacity (opts m)).

Definition bounded (m : Manager) : Prop := 0 <= QueueCapacity (opts m) /\ queueLen m <= QueueCapacity (opts m).

Lemma slice_from_ok {A} d (l : list A) : 0 <= d <= Z.of_nat (length l) -> slice_from d l = Some (drop (Z.to_nat d) l).
Proof. intros [? ?]. unfold slice_from. by rewrite (proj2 (Z.leb_le _ _)), (proj2 (Z.leb_le _ _)). Qed.

Lemma Send_accepted m alerts new : bounded m -> accepted_by m alerts = Some new ->
  Send alerts m = Some (mkManager (drop (overflow m new) (queue m ++ new)) (opts m) true (alertmanagers m) (dropped m + Z.of_nat (overflow m new))).
Proof.
  intros [C L] A. unfold queueLen in L. unfold Send. fold (accepted_by m alerts). rewrite A. cbn [mbind option_bind].
  unfold overflow. set (cap := QueueCapacity (opts m)) in *.
  destruct (0 <? Z.of_nat (length new) - cap) eqn:E1; bool_prop.
  - rewrite slice_from_ok by lia. cbn [mbind option_bind]. rewrite length_drop.
    change (queue (add_dropped _ m)) with (queue m). change (opts (add_dropped _ m)) with (opts m). fold cap.
    replace (Z.of_nat (length (queue m)) + Z.of_nat (length new - Z.to_nat (Z.of_nat (length new) - cap)) - cap)
      with (Z.of_nat (length (queue m))) by lia.
    rewrite drop_app. rewrite (drop_ge (queue m)) by lia. cbn [app].
    destruct (0 <? Z.of_nat (length (queue m))) eqn:E2; bool_prop.
    + rewrite slice_from_ok by lia. cbn [mbind option_bind]. rewrite drop_ge by lia. unfold setMore, set_more, set_queue, add_dropped. cbn.
      do 2 f_equal; [f_equal; lia|lia].
    + destruct (queue m) eqn:Q; [|cbn in *; lia]. cbn [mbind option_bind]. unfold setMore, set_more, set_queue, add_dropped. cbn. rewrite Q. cbn.
      do 2 f_equal; [f_equal; lia|lia].
  - cbn [mbind option_bind]. fold cap. destruct (0 <? Z.of_nat (length (queue m)) + Z.of_nat (length new) - cap) eqn:E2; bool_prop.
    + rewrite slice_from_ok by lia. cbn [mbind option_bind]. rewrite drop_app_le by lia. unfold setMore, set_more, set_queue, add_dropped. cbn.
      do 2 f_equal; [do 2 f_equal; lia|lia].
    + cbn [mbind option_bind]. replace (_ + _ - _)%nat with 0%nat by lia. unfold setMore, set_more, set_queue. cbn. f_equal. f_equal. lia.
Qed.

Lemma Send_inv m alerts m' : bounded m -> Send alerts m = Some m' ->
  exists new, accepted_by m alerts = Some new /\
    m' = mkManager (drop (overflow m new) (queue m ++ new)) (opts m) true (alertmanagers m) (dropped m + Z.of_nat (overflow m new)).
Proof.
  intros B S. destruct (accepted_by m alerts) as [new|] eqn:A.
  - rewrite (Send_accepted _ _ _ B A) in S. injection S as <-. by exists new.
  - unfold Send in S. fold (accepted_by m alerts) in S. by rewrite A in S.
Qed.

Lemma overflow_bound m new : bounded m -> (overflow m new <= length (queue m ++ new))%nat /\
  Z.of_nat (length (drop (overflow m new) (queue m ++ new))) <= QueueCapacity (opts m).
Proof. intros [? ?]. rewrite length_drop, length_app. unfold overflow. lia. Qed.

(** What [sendAlerts] hands to [Send]: the alerts that are not pending. *)
Definition converted (url expr : string) (alerts : list Alert) : list n_Alert :=
  map (convert_alert url expr) (List.filter (fun a => negb (state_eqb (State a) StatePending)) alerts).

Lemma converted_wf url expr alerts : Forall (fun a => wf_labels (a_Labels a)) alerts ->
  Forall (fun a => wf_labels (n_Labels a)) (converted url expr alerts).
Proof.
  intros W. apply Forall_forall. intros x (a & -> & I)%list_elem_of_fmap. apply list_elem_of_In, filter_In in I as [I _].
  rewrite Forall_forall in W. cbn. apply W. by apply list_elem_of_In.
Qed.

(** C21: the alerts of a rule reach the queue of notifications: those that are
    not pending get the external labels they lack and are relabelled, and what
    is left goes behind what is queued; when that is more than the capacity the
    oldest notifications go and are counted as dropped, so the queue holds the
    newest ones. The loop is signalled, and nothing else changes. *)
Theorem sendAlerts_keeps_newest (url expr : string) (alerts : list Alert) (m : Manager) (N : alerts <> [])
  (C : 0 <= QueueCapacity (opts m)) (L : queueLen m <= QueueCapacity (opts m))
  (W : Forall (fun a => wf_labels (a_Labels a)) alerts) (V : Forall valid_config (AlertRelabelConfigs (opts m))) :
  let all := queue m ++ omap (outgoing (opts m)) (converted url expr alerts) in
  let over := (length all - Z.to_nat (QueueCapacity (opts m)))%nat in
  sendAlerts url expr alerts m = Some (mkManager (drop over all) (opts m) true (alertmanagers m) (dropped m + Z.of_nat over)).
Proof.
  cbv zeta. unfold sendAlerts. destruct alerts as [|a alerts]; [done|]. cbn [length Nat.ltb Nat.leb]. fold (converted url expr (a :: alerts)).
  rewrite (Send_accepted m _ _ (conj C L) (relabelAlerts_eq m _ (converted_wf url expr _ W) V)). unfold overflow. by rewrite length_app.
Qed.

(** * The loop *)

Notation run := (run new_client config_key).
Notation step := (step new_client config_key).

(** What a run has accepted, handed to [sendAll], and failed to send. *)
Definition accepts (e : event) (m : Manager) : list n_Alert :=
  match e with EvSend alerts => default [] (accepted_by m alerts) | _ => [] end.
Definition takes (e : event) (m : Manager) : list (list n_Alert) :=
  match e with EvBatch => [(nextBatch m).1] | _ => [] end.
Definition fails (e : event) (m : Manager) (p : phase) : nat :=
  match e, p with EvSendAll Do, Sending alerts => if sendAll Do alerts m then O else length alerts | _, _ => O end.

Fixpoint log (es : list event) (s : Manager * phase) : list n_Alert * list (list n_Alert) * nat :=
  match es with
  | [] => ([], [], O)
  | e :: es =>
    match step e s with
    | None => ([], [], O)
    | Some s' =>
      let '(acc, bs, f) := log es s' in
      (accepts e s.1 ++ acc, takes e s.1 ++ bs, (fails e s.1 s.2 + f)%nat)
    end
  end.

(** The invariant, for what has been accepted, taken and failed so far. *)
Record queue_inv (cap : Z) (acc : list n_Alert) (bs : list (list n_Alert)) (f : nat) (m : Manager) (p : phase) : Prop := {
  inv_cap : QueueCapacity (opts m) = cap;
  inv_bound : queueLen m <= cap;
  inv_signal : p = Selecting -> queue m <> [] -> more m = true;
  inv_order : concat bs ++ queue m `sublist_of` acc;
  inv_batch : Forall (fun b => (length b <= maxBatchSize)%nat) bs;
  inv_count : dropped m = Z.of_nat (length acc) - Z.of_nat (length (concat bs)) - queueLen m + Z.of_nat f
}.

Lemma nextBatch_spec m : exists b rest, nextBatch m = (b, set_queue rest m) /\ queue m = b ++ rest /\ (length b <= maxBatchSize)%nat.
Proof.
  unfold nextBatch. destruct (_ <? _)%nat eqn:E.
  - eexists _, _. split; [done|]. rewrite take_drop. split; [done|]. rewrite length_take. lia.
  - exists (queue m), []. split; [done|]. rewrite app_nil_r. split; [done|]. apply Nat.ltb_ge in E. done.
Qed.

Lemma reload_keeps tgs m m' : reload tgs m = Some m' -> exists s, m' = set_ams s m.
Proof. unfold reload. destruct (reload_loop _ _) as [s|]; [|done]. cbn. intros [= <-]. by exists s. Qed.

Lemma mgr_step_inv cap acc bs f e m p m' p' :
  0 <= cap -> queue_inv cap acc bs f m p -> step e (m, p) = Some (m', p') ->
  queue_inv cap (acc ++ accepts e m) (bs ++ takes e m) (f + fails e m p) m' p'.
Proof.
  intros C I S. pose proof I as [Ic Ib Is Io Ik In]. unfold queueLen in *.
  destruct e, p; cbn in S; try done; cbn [accepts takes fails]; rewrite ?app_nil_r, ?Nat.add_0_r.
  all: try (destruct (Send alerts m) as [m1|] eqn:E; [|done]; cbn in S; injection S as <- <-;
    apply Send_inv in E as (new & E & ->); [|split; unfold queueLen; lia]; rewrite E; cbn [default];
    destruct (overflow_bound m new) as [O1 O2]; [split; unfold queueLen; lia|]; rewrite length_drop, length_app in *;
    constructor; unfold queueLen; cbn; [done|rewrite length_drop, length_app; lia|done| |done|
      rewrite length_drop, !length_app; lia];
    etrans; [apply sublist_app; [done|apply sublist_drop]|]; rewrite (assoc_L (++)); by apply sublist_app).
  all: try (injection S as <- <-; unfold ApplyConfig; destruct (new_sets _ _ _ _); by constructor).
  all: try (injection S as <- <-; by constructor).
  - destruct (reload ts m) as [m1|] eqn:E; [|done]. injection S as <- <-. apply reload_keeps in E as [s ->]. by constructor.
  - destruct (more m) eqn:E; [|done]. injection S as <- <-. by constructor.
  - destruct (nextBatch_spec m) as (b & rest & E & Q & L). rewrite E in *. injection S as <- <-. cbn [fst].
    rewrite Q in *. rewrite !length_app in *.
    constructor; unfold queueLen; cbn; [done|lia|done| | |].
    + rewrite concat_app. cbn. rewrite app_nil_r, <- (assoc_L (++)). done.
    + apply Forall_app. split; [done|]. by constructor.
    + rewrite concat_app, length_app. cbn. rewrite app_nil_r. lia.
  - injection S as <- <-. destruct (sendAll Do alerts m); cbn; constructor; unfold queueLen; cbn; try done; lia.
  - injection S as <- <-. destruct (0 <? queueLen m) eqn:E.
    + by constructor.
    + constructor; try done. intros _ Q. unfold queueLen in E. apply Z.ltb_ge in E. destruct (queue m); [done|cbn in E; lia].
Qed.

Lemma mgr_run_inv cap es : forall acc bs f m p m' p', 0 <= cap -> queue_inv cap acc bs f m p -> run es (m, p) = Some (m', p') ->
  let '(acc', bs', f') := log es (m, p) in queue_inv cap (acc ++ acc') (bs ++ bs') (f + f') m' p'.
Proof.
  induction es as [|e es IH]; intros acc bs f m p m' p' C I R; cbn [Notifier.run log] in R |- *.
  - injection R as <- <-. by rewrite !app_nil_r, Nat.add_0_r.
  - destruct (step e (m, p)) as [[m1 p1]|] eqn:S; [|done]. cbn [mbind option_bind] in R.
    pose proof (mgr_step_inv _ _ _ _ _ _ _ _ _ C I S) as I1. specialize (IH _ _ _ _ _ _ _ C I1 R).
    destruct (log es (m1, p1)) as [[acc' bs'] f']. cbn [fst snd]. by rewrite <- !(assoc_L (++)), <- Nat.add_assoc in IH.
Qed.

Lemma nextBatch_take m : nextBatch m = (take maxBatchSize (queue m), set_queue (drop maxBatchSize (queue m)) m).
Proof.
  unfold nextBatch. destruct (_ <? _)%nat eqn:E; [done|]. apply Nat.ltb_ge in E. by rewrite take_ge, drop_ge.
Qed.

(** The queue as its specification has it: alerts are put behind those that
    wait, and of too many the newest stay; a batch is the oldest 64. *)
Inductive queue_op := Put (alerts : list n_Alert) | TakeBatch.
Definition newest (cap : Z) (l : list n_Alert) : list n_Alert := drop (length l - Z.to_nat cap) l.
Definition buffer_step (cap : Z) (st : list n_Alert * list (list n_Alert)) (op : queue_op) : list n_Alert * list (list n_Alert) :=
  match op with
  | Put alerts => (newest cap (st.1 ++ alerts), st.2)
  | TakeBatch => (drop 64 st.1, st.2 ++ [take 64 st.1])
  end.

(** What a run does with the queue: the notifications that are accepted are put
    into it when they come, and the loop takes batches. *)
Definition op_of (e : event) (m : Manager) : list queue_op :=
  match e with EvSend _ => [Put (accepts e m)] | EvBatch => [TakeBatch] | _ => [] end.
Fixpoint ops (es : list event) (s : Manager * phase) : list queue_op :=
  match es with
  | [] => []
  | e :: es => match step e s with Some s' => op_of e s.1 ++ ops es s' | None => [] end
  end.

Lemma step_buffer cap acc bs f e m p m' p' : 0 <= cap -> queue_inv cap acc bs f m p -> step e (m, p) = Some (m', p') ->
  foldl (buffer_step cap) (queue m, bs) (op_of e m) = (queue m', bs ++ takes e m).
Proof.
  intros C I S. pose proof I as [Ic Ib _ _ _ _].
  destruct e, p; cbn in S; try done; cbn [op_of takes accepts foldl buffer_step fst snd]; rewrite ?app_nil_r.
  all: try (destruct (Send alerts m) as [m1|] eqn:E; [|done]; cbn in S; injection S as <- <-;
    apply Send_inv in E as (new & E & ->); [|split; unfold queueLen in *; lia]; rewrite E; unfold newest, overflow;
    rewrite length_app, Ic; done).
  all: try (injection S as <- <-; unfold ApplyConfig; by destruct (new_sets _ _ _ _)).
  all: try (injection S as <- <-; done).
  - destruct (reload ts m) as [m1|] eqn:E; [|done]. injection S as <- <-. by apply reload_keeps in E as [s ->].
  - destruct (more m) eqn:E; [|done]. by injection S as <- <-.
  - rewrite nextBatch_take in S |- *. by injection S as <- <-.
  - injection S as <- <-. by destruct (sendAll Do alerts m).
  - injection S as <- <-. by destruct (0 <? queueLen m).
Qed.

Lemma run_buffer cap es : forall acc bs f m p m' p', 0 <= cap -> queue_inv cap acc bs f m p -> run es (m, p) = Some (m', p') ->
  foldl (buffer_step cap) (queue m, bs) (ops es (m, p)) = (queue m', bs ++ (log es (m, p)).1.2).
Proof.
  induction es as [|e es IH]; intros acc bs f m p m' p' C I R; cbn [Notifier.run log ops] in R |- *.
  - injection R as <- <-. by rewrite !app_nil_r.
  - destruct (step e (m, p)) as [[m1 p1]|] eqn:S; [|done]. cbn [mbind option_bind] in R.
    pose proof (mgr_step_inv _ _ _ _ _ _ _ _ _ C I S) as I1. rewrite foldl_app. cbn [fst].
    rewrite (step_buffer _ _ _ _ _ _ _ _ _ C I S), (IH _ _ _ _ _ _ _ C I1 R).
    destruct (log es (m1, p1)) as [[acc' bs'] f']. cbn [fst snd]. by rewrite <- (assoc_L (++)).
Qed.

(** C12: in every interleaving of senders, reconfigurations and the loop, the
    queue and the batches that the loop takes are those of a bounded queue, for
    any capacity that is not negative:
    notifications are put, as they come, behind those that wait, and when there
    are more than the capacity exactly the newest stay; a batch is the oldest
    64, or all. So the queue stays within its capacity, and what was taken and
    what waits is in the order in which it was accepted; the counter of dropped
    alerts is exact, counting those that no Alertmanager took; and a loop that
    waits with alerts in its queue has a signal to wake it. *)
Theorem notifier_queue (o : Options) (es : list event) (m : Manager) (p : phase)
  (C : 0 <= QueueCapacity o) (R : run es (NewManager o, Selecting) = Some (m, p)) :
  let '(accepted, batches, failed) := log es (NewManager o, Selecting) in
  foldl (buffer_step (QueueCapacity o)) ([], []) (ops es (NewManager o, Selecting)) = (queue m, batches) /\
  queueLen m <= QueueCapacity o /\
  concat batches ++ queue m `sublist_of` accepted /\
  Forall (fun b => (length b <= 64)%nat) batches /\
  dropped m = Z.of_nat (length accepted) - Z.of_nat (length (concat batches)) - queueLen m + Z.of_nat failed /\
  (p = Selecting -> queue m <> [] -> more m = true).
Proof.
  assert (I : queue_inv (QueueCapacity o) [] [] 0 (NewManager o) Selecting) by (by constructor).
  pose proof (mgr_run_inv _ es [] [] 0%nat _ _ _ _ C I R) as J. pose proof (run_buffer _ es [] [] 0%nat _ _ _ _ C I R) as F.
  destruct (log _ _) as [[acc bs] f]. split; [exact F|]. by destruct J.
Qed.

(** One turn of the loop, with the answers [Do] of the Alertmanagers. *)
Definition turn (Do : string -> list n_Alert -> result string Z) : list event := [EvMore; EvBatch; EvSendAll Do; EvCheck].

Lemma run_turn Do m : more m = true ->
  exists m' f, run (turn Do) (m, Selecting) = Some (m', Selecting) /\ queue m' = drop maxBatchSize (queue m) /\
    (queue m' <> [] -> more m' = true) /\ log (turn Do) (m, Selecting) = ([], [take maxBatchSize (queue m)], f).
Proof.
  intros M. set (m1 := set_more false m). set (b := take maxBatchSize (queue m)). set (m2 := set_queue (drop maxBatchSize (queue m)) m1).
  set (m3 := if negb (sendAll Do b m2) then add_dropped (Z.of_nat (length b)) m2 else m2).
  set (m4 := if 0 <? queueLen m3 then setMore m3 else m3).
  assert (S1 : step EvMore (m, Selecting) = Some (m1, Woken)) by (cbn; by rewrite M).
  assert (B : nextBatch m1 = (b, m2)) by apply nextBatch_take.
  assert (S2 : step EvBatch (m1, Woken) = Some (m2, Sending b)) by (cbn; by rewrite B).
  assert (S3 : step (EvSendAll Do) (m2, Sending b) = Some (m3, Sent)) by done.
  assert (S4 : step EvCheck (m3, Sent) = Some (m4, Selecting)) by done.
  assert (Q3 : queue m3 = drop maxBatchSize (queue m)) by (unfold m3; by destruct (negb _)).
  assert (Q4 : queue m4 = drop maxBatchSize (queue m)) by (rewrite <- Q3; unfold m4; by destruct (0 <? _)).
  exists m4, (fails (EvSendAll Do) m2 (Sending b) + 0)%nat. split; [|split; [done|split]].
  - unfold turn. cbn [Notifier.run]. rewrite S1. cbn [mbind option_bind]. rewrite S2. cbn [mbind option_bind]. rewrite S3. cbn [mbind option_bind].
    by rewrite S4.
  - rewrite Q4. intros N. unfold m4, queueLen. rewrite Q3. by destruct (drop maxBatchSize (queue m)).
  - unfold turn. cbn [log]. rewrite S1, S2, S3, S4. cbn [fst snd takes accepts app]. by rewrite B.
Qed.

Lemma run_app es es' s : run (es ++ es') s = match run es s with Some s' => run es' s' | None => None end.
Proof. revert s. induction es as [|e es IH]; intros s; [done|]. cbn [app Notifier.run]. destruct (step e s); [apply IH|done]. Qed.

Lemma log_app es es' s s' : run es s = Some s' ->
  (log (es ++ es') s).1.2 = (log es s).1.2 ++ (log es' s').1.2.
Proof.
  revert s. induction es as [|e es IH]; intros s R; [by injection R as ->|]. cbn [app Notifier.run log] in *.
  destruct (step e s) as [s1|]; [|done]. cbn [mbind option_bind] in R. specialize (IH _ R).
  destruct (log (es ++ es') s1) as [[? ?] ?], (log es s1) as [[? ?] ?]. cbn in *. by rewrite IH, (assoc_L (++)).
Qed.

Lemma run_turns Dos m : (queue m <> [] -> more m = true) -> (length (queue m) <= length Dos * maxBatchSize)%nat ->
  (length Dos * maxBatchSize < length (queue m) + maxBatchSize)%nat ->
  exists m', run (concat (map turn Dos)) (m, Selecting) = Some (m', Selecting) /\ queue m' = [] /\
    concat (log (concat (map turn Dos)) (m, Selecting)).1.2 = queue m.
Proof.
  revert m. induction Dos as [|Do Dos IH]; intros m Q L U.
  - exists m. destruct (queue m) as [|a q] eqn:E; [done|cbn in L; lia].
  - cbn [map concat length Nat.mul] in *. assert (M : more m = true) by (apply Q; intros E; rewrite E in U; unfold maxBatchSize in U; cbn [length] in U; lia).
    destruct (run_turn Do m M) as (m1 & f & R1 & Q1 & M1 & L1).
    destruct (IH m1 M1) as (m2 & R2 & Q2 & L2); [rewrite Q1, length_drop; unfold maxBatchSize in *; lia| |].
    { rewrite Q1, length_drop. destruct (le_lt_dec (length (queue m)) maxBatchSize); [|lia].
      destruct Dos as [|Do' Dos]; cbn [length Nat.mul] in *; unfold maxBatchSize in *; lia. }
    exists m2. rewrite run_app, R1. split; [done|]. split; [done|].
    rewrite (log_app _ _ _ _ R1), L1, concat_app, L2, Q1. cbn. by rewrite app_nil_r, take_drop.
Qed.

(** C35: nothing is stranded in the queue: from any state in which the loop
    waits, as many turns as there are batches of 64 empty the queue, and hand
    over its alerts in order, whatever the Alertmanagers answer. *)
Theorem notifier_drains (o : Options) (es : list event) (m : Manager) (Dos : list (string -> list n_Alert -> result string Z))
  (C : 0 <= QueueCapacity o) (R : run es (NewManager o, Selecting) = Some (m, Selecting))
  (N : length Dos = ((length (queue m) + 63) / 64)%nat) :
  exists m', run (concat (map turn Dos)) (m, Selecting) = Some (m', Selecting) /\ queue m' = [] /\
    concat (log (concat (map turn Dos)) (m, Selecting)).1.2 = queue m.
Proof.
  assert (I : queue_inv (QueueCapacity o) [] [] 0 (NewManager o) Selecting) by (by constructor).
  pose proof (mgr_run_inv _ es [] [] 0%nat _ _ _ _ C I R) as J. destruct (log _ _) as [[acc bs] f].
  pose proof (Nat.div_mod (length (queue m) + 63) 64 ltac:(done)) as D.
  pose proof (Nat.mod_upper_bound (length (queue m) + 63) 64 ltac:(done)). rewrite <- N in D. unfold maxBatchSize.
  apply run_turns; [by apply J|unfold maxBatchSize; lia|unfold maxBatchSize; lia].
Qed.

(** * Alertmanagers *)

(** What relabelling makes of a discovered Alertmanager. *)
Definition relabelled (cfg : AlertmanagerConfig) (tg : TargetGroup) (tlset : gmap string string) : option Labels :=
  match Process (Some (New (am_labels tg cfg tlset))) (am_RelabelConfigs cfg) with Some r => r | None => None end.

Lemma am_loop_result tg cfg tlsets res dr res' dr' :
  am_loop tg cfg tlsets res dr = Some (Ok (res', dr')) -> res' = res ++ omap (relabelled cfg tg) tlsets.
Proof.
  revert res dr. induction tlsets as [|ts tlsets IH]; intros res dr; cbn [am_loop]; [intros [= <- <-]; by rewrite app_nil_r|].
  assert (X : omap (relabelled cfg tg) (ts :: tlsets) = match relabelled cfg tg ts with Some y => [y] | None => [] end ++ omap (relabelled cfg tg) tlsets)
    by (cbn; by destruct (relabelled cfg tg ts)).
  rewrite X. clear X. unfold relabelled at 1. destruct (Process _ _) as [[lset|]|]; [| |done]; cbn [mbind option_bind].
  - destruct (am_addr cfg lset) as [addr|]; [|done]. destruct (CheckTargetAddress addr); [done|].
    destruct (range_labels _ _ _); [|done]. cbn [mbind option_bind]. intros E. apply IH in E. by rewrite E, <- (assoc_L (++)).
  - apply IH.
Qed.

Lemma dedup_spec all : forall seen, NoDup (map am_url (dedup_ams all seen)) /\
  (forall u, u ∈ map am_url (dedup_ams all seen) <-> u ∈ map am_url all /\ u ∉ seen) /\
  (forall a, a ∈ dedup_ams all seen -> a ∈ all).
Proof.
  induction all as [|a all IH]; intros seen; cbn [dedup_ams].
  - split; [constructor|]. split; [|done]. intros u. cbn. split; [intros I; by apply elem_of_nil in I|by intros [I%elem_of_nil _]].
  - destruct (bool_decide (am_url a ∈ seen)) eqn:B.
    + apply bool_decide_eq_true in B. destruct (IH seen) as (N & U & A). split; [done|]. split.
      * intros u. rewrite U. cbn. rewrite elem_of_cons. naive_solver.
      * intros b I. right. auto.
    + apply bool_decide_eq_false in B. destruct (IH ({[am_url a]} ∪ seen)) as (N & U & A). split; [|split].
      * cbn. constructor; [|done]. rewrite U. set_solver.
      * intros u. cbn. rewrite !elem_of_cons, U. destruct (decide (u = am_url a)) as [->|]; set_solver.
      * intros b [->|I]%elem_of_cons; [by left|right; auto].
Qed.

(** A set keeps one Alertmanager for every URL that a readable group gives,
    no two with the same, and each has just the labels that relabelling
    returned: the port inferred for its address and the removal of its meta
    labels, which go into a builder that is never read, have no effect. *)
Theorem am_sync_spec (tgs : list TargetGroup) (s s' : alertmanagerSet) (E : am_sync tgs s = Some s') :
  NoDup (map am_url (ams s')) /\
  (forall a, a ∈ ams s' -> exists tg ts, tg ∈ tgs /\ ts ∈ tg_Targets tg /\ relabelled (am_cfg s) tg ts = Some a) /\
  (forall tg r d ts a, tg ∈ tgs -> alertmanagerFromGroup tg (am_cfg s) = Some (Ok (r, d)) -> ts ∈ tg_Targets tg ->
     relabelled (am_cfg s) tg ts = Some a -> am_url a ∈ map am_url (ams s')).
Proof.
  unfold am_sync in E. destruct (all_ams tgs (am_cfg s)) as [[all dr]|] eqn:A; [|done]. injection E as <-. cbn [ams fst].
  destruct (dedup_spec all ∅) as (N & U & I).
  assert (G : (forall a, a ∈ all -> exists tg ts, tg ∈ tgs /\ ts ∈ tg_Targets tg /\ relabelled (am_cfg s) tg ts = Some a) /\
    (forall tg r d ts a, tg ∈ tgs -> alertmanagerFromGroup tg (am_cfg s) = Some (Ok (r, d)) -> ts ∈ tg_Targets tg ->
       relabelled (am_cfg s) tg ts = Some a -> a ∈ all)).
  { clear N U I. revert all dr A. induction tgs as [|tg tgs IH]; intros all dr A; cbn [all_ams] in A.
    - injection A as <- <-. split; [intros a I; by apply elem_of_nil in I|intros ????? I; by apply elem_of_nil in I].
    - destruct (alertmanagerFromGroup tg (am_cfg s)) as [g|] eqn:F; [|done]. cbn [mbind option_bind] in A.
      destruct (all_ams tgs (am_cfg s)) as [[all1 dr1]|]; [|done]. cbn [mbind option_bind fst snd] in A.
      destruct (IH _ _ eq_refl) as [G1 G2].
      assert (X : all = match g with Ok (a, _) => a ++ all1 | Err _ => all1 end) by (destruct g as [[? ?]|]; by injection A as <- <-).
      subst all. clear A. split.
      + intros a Ia. destruct g as [[a1 d1]|].
        * apply elem_of_app in Ia as [Ia|Ia]; [|destruct (G1 a Ia) as (tg' & ts & ? & ?); exists tg', ts; split; [by right|done]].
          unfold alertmanagerFromGroup in F. apply am_loop_result in F. rewrite F in Ia. cbn [app] in Ia.
          apply list_elem_of_omap in Ia as (ts & ? & ?). exists tg, ts. split; [by left|done].
        * destruct (G1 a Ia) as (tg' & ts & ? & ?). exists tg', ts. split; [by right|done].
      + intros tg' r d ts a [->|It]%elem_of_cons Fr Its Ra.
        * rewrite Fr in F. injection F as <-. apply elem_of_app. left. unfold alertmanagerFromGroup in Fr.
          apply am_loop_result in Fr. rewrite Fr. cbn [app]. apply list_elem_of_omap. by exists ts.
        * destruct g as [[? ?]|]; [apply elem_of_app; right|]; by eapply G2. }
  destruct G as [G1 G2]. split; [done|]. split; [auto|].
  intros tg r d ts a It F Its Ra. apply U. split; [|set_solver]. apply list_elem_of_fmap. exists a. split; [done|]. by eapply G2.
Qed.
End facts.

(** * A concrete manager *)

#[local] Existing Instances literal_regexp literal_replace zero_md5 any_print tree_order.
#[local] Instance plain_url : URLString := fun scheme host path => scheme +:+ "://" +:+ host +:+ path.

Definition small : Options := mkOptions 2 {[ "dc" := "eu"; "team" := "x" ]} [].
Definition firing (n : string) : Alert :=
  mkAlert StateFiring [mkLabel "alertname" n; mkLabel "team" "y"] [] (of_Z 1) 1 1 0.

Lemma sendAlerts_keeps_newest_witness :
  sendAlerts "http://p" "up == 0" [firing "a"; mkAlert StatePending [mkLabel "alertname" "p"] [] (of_Z 1) 1 0 0; firing "b"; firing "c"] (NewManager small) =
  Some (mkManager
    (map (fun n => mkNAlert [mkLabel "alertname" n; mkLabel "dc" "eu"; mkLabel "team" "y"] [] 1 0 "http://p/graph?g0.expr=up+%3D%3D+0&g0.tab=1") ["b"; "c"])
    small true ∅ 1).
Proof.
  rewrite sendAlerts_keeps_newest; [vm_compute; reflexivity|done|vm_compute; discriminate|vm_compute; discriminate| |constructor].
  repeat constructor.
Defined.

Definition notification (n : string) : n_Alert := mkNAlert [mkLabel "alertname" n] [] 1 0 "".
Definition nobody (url : string) (alerts : list n_Alert) : result string Z := Err "refused".
Definition no_client (cfg : AlertmanagerConfig) : option string := None.
Definition by_prefix (cfg : AlertmanagerConfig) : result string string := Ok (PathPrefix cfg).

(** Three alerts for a queue of two; a fourth comes while a batch is sent. *)
Definition busy : list event :=
  [EvSend [notification "a"; notification "b"; notification "c"]; EvMore; EvBatch; EvSend [notification "d"]; EvSendAll nobody; EvCheck].
Definition after_busy : Manager * phase :=
  match run no_client by_prefix busy (NewManager small, Selecting) with Some s => s | None => (NewManager small, Stopped) end.

Lemma notifier_queue_witness :
  dropped after_busy.1 = 3 /\ (after_busy.2 = Selecting -> queue after_busy.1 <> [] -> more after_busy.1 = true).
Proof.
  assert (R : run no_client by_prefix busy (NewManager small, Selecting) = Some (after_busy.1, after_busy.2)) by (vm_compute; reflexivity).
  pose proof (notifier_queue no_client by_prefix small busy _ _ ltac:(vm_compute; discriminate) R) as H.
  destruct (log _ _ busy _) as [[acc bs] f] eqn:E. destruct H as (_ & _ & _ & _ & D & S). split; [|exact S].
  vm_compute in E. injection E as <- <- <-. rewrite D. vm_compute. reflexivity.
Defined.

Lemma notifier_drains_witness :
  exists m', run no_client by_prefix (concat (map turn [nobody])) (after_busy.1, Selecting) = Some (m', Selecting) /\ queue m' = [] /\
    length (queue after_busy.1) = 1%nat.
Proof.
  assert (R : run no_client by_prefix busy (NewManager small, Selecting) = Some (after_busy.1, Selecting)) by (vm_compute; reflexivity).
  destruct (notifier_drains no_client by_prefix small busy _ [nobody] ltac:(vm_compute; discriminate) R) as (m' & Rm & Q & _);
    [vm_compute; reflexivity|].
  exists m'. split; [exact Rm|]. split; [exact Q|vm_compute; reflexivity].
Defined.

(** An Alertmanager without a port, found twice. *)
Definition am_group : TargetGroup :=
  mkTargetGroup [{[ "__address__" := "am" ]}; {[ "__address__" := "am"; "__meta_zone" := "a" ]}] ∅ "file".
Definition am_set : alertmanagerSet := mkAmSet (mkAmConfig "http" "/x/../alerts" []) [] [].
Definition synced : alertmanagerSet := default am_set (am_sync [am_group] am_set).

Lemma am_sync_spec_witness : NoDup (map am_url (ams synced)) /\ map am_url (ams synced) = ["http://am/alerts/api/v1/alerts"].
Proof.
  assert (E : am_sync [am_group] am_set = Some synced) by (vm_compute; reflexivity).
  split; [exact (proj1 (am_sync_spec _ _ _ E))|vm_compute; reflexivity].
Defined.
