(* ===== verification/TextCreate.v ===== *)
(** expfmt/text_create.go of the client library, which the exporters vendor:
    the writer of the text exposition format, with the messages of
    client_model/go/metrics.pb.go it writes. *)

From S2P Require Import Prelude GoString GoFmt Float.

(** * The messages *)

Module dto.
Inductive MetricType := COUNTER | GAUGE | SUMMARY | UNTYPED | HISTOGRAM | MetricType_other (n : Z).

Record LabelPair := mkLabelPair { LabelPair_Name : option string; LabelPair_Value : option string }.
Record Gauge := mkGauge { Gauge_Value : option float64 }.
Record Counter := mkCounter { Counter_Value : option float64 }.
Record Untyped := mkUntyped { Untyped_Value : option float64 }.
Record Quantile := mkQuantile { Quantile_Quantile : option float64; Quantile_Value : option float64 }.
Record Summary := mkSummary {
  Summary_SampleCount : option Z; Summary_SampleSum : option float64; Summary_Quantile : list Quantile
}.
Record Bucket := mkBucket { Bucket_CumulativeCount : option Z; Bucket_UpperBound : option float64 }.
Record Histogram := mkHistogram {
  Histogram_SampleCount : option Z; Histogram_SampleSum : option float64; Histogram_Bucket : list Bucket
}.
Record Metric := mkMetric {
  Metric_Label : list LabelPair; Metric_Gauge : option Gauge; Metric_Counter : option Counter;
  Metric_Summary : option Summary; Metric_Untyped : option Untyped; Metric_Histogram : option Histogram;
  Metric_TimestampMs : option Z
}.
Record MetricFamily := mkMetricFamily {
  MetricFamily_Name : option string; MetricFamily_Help : option string;
  MetricFamily_Type : option MetricType; MetricFamily_Metric : list Metric
}.

Definition MetricType_String (t : MetricType) : string :=
  match t with
  | COUNTER => "COUNTER" | GAUGE => "GAUGE" | SUMMARY => "SUMMARY" | UNTYPED => "UNTYPED" | HISTOGRAM => "HISTOGRAM"
  | MetricType_other n => Itoa n
  end.

(** The getters of the optional fields. *)
Definition get_string (s : option string) : string := default "" s.
Definition get_float (f : option float64) : float64 := default (of_Z 0) f.
Definition get_uint64 (n : option Z) : Z := default 0 n.
Definition GetType (m : MetricFamily) : MetricType := default COUNTER (MetricFamily_Type m).
End dto.

(** * The writer *)

Inductive create_error :=
| NoMetrics | NoName
| Expected (what name : string)
| UnexpectedType (name : string)
| WriteError (e : string).

(** [io.Writer]: how many bytes were written, the error, and the writer. *)
Class Writer (W : Type) := Write : string -> W -> nat * option string * W.

(** [bytes.Buffer] takes everything. *)
#[export] Instance buffer_writer : Writer string := fun p w => (String.length p, None, w +:+ p).

Section create.
Context `{WW : Writer W}.

(** What the functions return: [written], the error, the writer. *)
Definition written : Type := nat * option create_error * W.

(** [fmt.Fprint] and [fmt.Fprintf] of a formatted text. *)
Definition emit (s : string) (out : W) : written :=
  let '(n, err, out) := Write s out in (n, WriteError <$> err, out).

(** [n, err := r; written += n; if err != nil { return written, err }] *)
Definition and_then (r : written) (k : W -> written) : written :=
  let '(n, err, out) := r in
  match err with
  | Some _ => (n, err, out)
  | None => let '(m, err, out) := k out in ((n + m)%nat, err, out)
  end.

(** The same with [written += n] behind the test of the error. *)
Definition and_then_late (r : written) (k : W -> written) : written :=
  let '(n, err, out) := r in
  match err with
  | Some _ => (O, err, out)
  | None => let '(m, err, out) := k out in ((n + m)%nat, err, out)
  end.

Definition done (out : W) : written := (O, None, out).
Definition stop (e : create_error) (out : W) : written := (O, Some e, out).

Fixpoint for_each {A} (f : A -> W -> written) (l : list A) (out : W) : written :=
  match l with
  | [] => done out
  | x :: l => and_then (f x out) (for_each f l)
  end.

(** The replacers of [escapeString]: each pattern is one byte. *)
Definition escape_byte (includeDoubleQuote : bool) (c : ascii) : string :=
  if rune c =? rune "\" then "\\"
  else if rune c =? 10 then "\n"
  else if (rune c =? 34) && includeDoubleQuote then String "\" (String "034" "")
  else String c "".
Fixpoint escapeString (v : string) (includeDoubleQuote : bool) : string :=
  match v with
  | EmptyString => ""
  | String c v => escape_byte includeDoubleQuote c +:+ escapeString v includeDoubleQuote
  end.

(** [%c%s="%s"] *)
Definition pair_text (separator : ascii) (name value : string) : string :=
  String separator (name +:+ String "=" (String "034" (escapeString value true +:+ String "034" ""))).

Fixpoint pairs_loop (separator : ascii) (ls : list dto.LabelPair) (k : ascii -> W -> written) (out : W) : written :=
  match ls with
  | [] => k separator out
  | lp :: ls =>
    and_then (emit (pair_text separator (dto.get_string (dto.LabelPair_Name lp)) (dto.get_string (dto.LabelPair_Value lp))) out)
             (pairs_loop "," ls k)
  end.

Definition labelPairsToText (ls : list dto.LabelPair) (additionalLabelName additionalLabelValue : string) (out : W) : written :=
  if (length ls =? 0)%nat && (additionalLabelName =? "")%string then done out
  else
    pairs_loop "{" ls (fun separator out =>
      if negb (additionalLabelName =? "")%string then
        and_then (emit (pair_text separator additionalLabelName additionalLabelValue) out) (emit "}")
      else emit "}" out) out.

Definition newline : string := String "010" "".

Definition writeSample (name : string) (metric : dto.Metric) (additionalLabelName additionalLabelValue : string)
  (value : float64) (out : W) : written :=
  and_then (emit name out) (fun out =>
  and_then (labelPairsToText (dto.Metric_Label metric) additionalLabelName additionalLabelValue out) (fun out =>
  and_then (emit (" " +:+ Sprint_float value) out) (fun out =>
  match dto.Metric_TimestampMs metric with
  | Some t => and_then (emit (" " +:+ Itoa t) out) (emit newline)
  | None => emit newline out
  end))).

Definition QuantileLabel : string := "quantile".
Definition BucketLabel : string := "le".

Definition write_summary (name : string) (metric : dto.Metric) (s : dto.Summary) (out : W) : written :=
  and_then (for_each (fun q => writeSample name metric QuantileLabel (Sprint_float (dto.get_float (dto.Quantile_Quantile q)))
                                           (dto.get_float (dto.Quantile_Value q))) (dto.Summary_Quantile s) out) (fun out =>
  and_then_late (writeSample (name +:+ "_sum") metric "" "" (dto.get_float (dto.Summary_SampleSum s)) out)
    (writeSample (name +:+ "_count") metric "" "" (of_Z (dto.get_uint64 (dto.Summary_SampleCount s))))).

Definition is_inf_bound (q : dto.Bucket) : bool :=
  match num (dto.get_float (dto.Bucket_UpperBound q)) with S754_infinity false => true | _ => false end.

Definition write_histogram (name : string) (metric : dto.Metric) (h : dto.Histogram) (out : W) : written :=
  let count := of_Z (dto.get_uint64 (dto.Histogram_SampleCount h)) in
  let infSeen := existsb is_inf_bound (dto.Histogram_Bucket h) in
  let rest :=
    fun out => and_then_late (writeSample (name +:+ "_sum") metric "" "" (dto.get_float (dto.Histogram_SampleSum h)) out)
                 (writeSample (name +:+ "_count") metric "" "" count) in
  and_then (for_each (fun q => writeSample (name +:+ "_bucket") metric BucketLabel (Sprint_float (dto.get_float (dto.Bucket_UpperBound q)))
                                           (of_Z (dto.get_uint64 (dto.Bucket_CumulativeCount q)))) (dto.Histogram_Bucket h) out) (fun out =>
  if infSeen then rest out
  else and_then_late (writeSample (name +:+ "_bucket") metric BucketLabel "+Inf" count out) rest).

(** The body of the loop over the metrics of a family. *)
Definition write_metric (metricType : dto.MetricType) (name : string) (metric : dto.Metric) (out : W) : written :=
  match metricType with
  | dto.COUNTER =>
    match dto.Metric_Counter metric with
    | None => stop (Expected "counter" name) out
    | Some c => writeSample name metric "" "" (dto.get_float (dto.Counter_Value c)) out
    end
  | dto.GAUGE =>
    match dto.Metric_Gauge metric with
    | None => stop (Expected "gauge" name) out
    | Some g => writeSample name metric "" "" (dto.get_float (dto.Gauge_Value g)) out
    end
  | dto.UNTYPED =>
    match dto.Metric_Untyped metric with
    | None => stop (Expected "untyped" name) out
    | Some u => writeSample name metric "" "" (dto.get_float (dto.Untyped_Value u)) out
    end
  | dto.SUMMARY =>
    match dto.Metric_Summary metric with
    | None => stop (Expected "summary" name) out
    | Some s => write_summary name metric s out
    end
  | dto.HISTOGRAM =>
    match dto.Metric_Histogram metric with
    | None => stop (Expected "histogram" name) out
    | Some h => write_histogram name metric h out
    end
  | dto.MetricType_other _ => stop (UnexpectedType name) out
  end.

Definition type_line (name : string) (t : dto.MetricType) : string :=
  "# TYPE " +:+ name +:+ " " +:+ ToLower (dto.MetricType_String t) +:+ newline.
Definition help_line (name help : string) : string :=
  "# HELP " +:+ name +:+ " " +:+ escapeString help false +:+ newline.

Definition MetricFamilyToText (m : dto.MetricFamily) (out : W) : written :=
  let name := dto.get_string (dto.MetricFamily_Name m) in
  let body :=
    fun out =>
    and_then (emit (type_line name (dto.GetType m)) out)
             (for_each (write_metric (dto.GetType m) name) (dto.MetricFamily_Metric m)) in
  if (length (dto.MetricFamily_Metric m) =? 0)%nat then stop NoMetrics out
  else if (name =? "")%string then stop NoName out
  else match dto.MetricFamily_Help m with
       | Some help => and_then (emit (help_line name help) out) body
       | None => body out
       end.
End create.
