(* ===== verification/TextWrite.v ===== *)
(** What the writer of the text exposition format writes: a metric family comes
    out as its samples, one line each, behind the lines of its help and type. *)

From S2P Require Import Prelude GoString GoFmt Float TextCreate.

(** * The samples of a family, and their text *)

(** A sample as it stands on a line. *)
Record text_sample := mkTextSample { t_name : string; t_labels : list (string * string); t_value : float64; t_time : option Z }.

Definition pair_of (lp : dto.LabelPair) : string * string :=
  (dto.get_string (dto.LabelPair_Name lp), dto.get_string (dto.LabelPair_Value lp)).

Definition sample_of_metric (name : string) (m : dto.Metric) (extra : list (string * string)) (v : float64) : text_sample :=
  mkTextSample name (map pair_of (dto.Metric_Label m) ++ extra) v (dto.Metric_TimestampMs m).

Definition summary_samples (name : string) (m : dto.Metric) (s : dto.Summary) : list text_sample :=
  map (fun q => sample_of_metric name m [(QuantileLabel, Sprint_float (dto.get_float (dto.Quantile_Quantile q)))]
                  (dto.get_float (dto.Quantile_Value q))) (dto.Summary_Quantile s) ++
  [sample_of_metric (name +:+ "_sum") m [] (dto.get_float (dto.Summary_SampleSum s));
   sample_of_metric (name +:+ "_count") m [] (of_Z (dto.get_uint64 (dto.Summary_SampleCount s)))].

Definition histogram_samples (name : string) (m : dto.Metric) (h : dto.Histogram) : list text_sample :=
  let count := of_Z (dto.get_uint64 (dto.Histogram_SampleCount h)) in
  map (fun q => sample_of_metric (name +:+ "_bucket") m [(BucketLabel, Sprint_float (dto.get_float (dto.Bucket_UpperBound q)))]
                  (of_Z (dto.get_uint64 (dto.Bucket_CumulativeCount q)))) (dto.Histogram_Bucket h) ++
  (if existsb is_inf_bound (dto.Histogram_Bucket h) then []
   else [sample_of_metric (name +:+ "_bucket") m [(BucketLabel, "+Inf")] count]) ++
  [sample_of_metric (name +:+ "_sum") m [] (dto.get_float (dto.Histogram_SampleSum h)); sample_of_metric (name +:+ "_count") m [] count].

(** The samples of a metric, when it has the value its family's type asks for. *)
Definition metric_samples (t : dto.MetricType) (name : string) (m : dto.Metric) : option (list text_sample) :=
  match t with
  | dto.COUNTER => (fun c => [sample_of_metric name m [] (dto.get_float (dto.Counter_Value c))]) <$> dto.Metric_Counter m
  | dto.GAUGE => (fun g => [sample_of_metric name m [] (dto.get_float (dto.Gauge_Value g))]) <$> dto.Metric_Gauge m
  | dto.UNTYPED => (fun u => [sample_of_metric name m [] (dto.get_float (dto.Untyped_Value u))]) <$> dto.Metric_Untyped m
  | dto.SUMMARY => summary_samples name m <$> dto.Metric_Summary m
  | dto.HISTOGRAM => histogram_samples name m <$> dto.Metric_Histogram m
  | dto.MetricType_other _ => None
  end.

(** The samples of all the metrics. *)
Fixpoint all_samples (t : dto.MetricType) (name : string) (ms : list dto.Metric) : option (list text_sample) :=
  match ms with
  | [] => Some []
  | m :: ms => a ← metric_samples t name m; b ← all_samples t name ms; Some (a ++ b)
  end.

Fixpoint pairs_text (separator : ascii) (ls : list (string * string)) : string :=
  match ls with
  | [] => ""
  | (n, v) :: ls => pair_text separator n v +:+ pairs_text "," ls
  end.
Definition labels_text (ls : list (string * string)) : string :=
  match ls with [] => "" | _ => pairs_text "{" ls +:+ "}" end.

Definition time_text (t : option Z) : string := match t with Some t => " " +:+ Itoa t | None => "" end.

Definition metric_text (s : text_sample) : string := t_name s +:+ labels_text (t_labels s).
Definition line (s : text_sample) : string :=
  metric_text s +:+ " " +:+ Sprint_float (t_value s) +:+ time_text (t_time s) +:+ newline.
Fixpoint lines (ss : list text_sample) : string :=
  match ss with [] => "" | s :: ss => line s +:+ lines ss end.

Lemma lines_app a b : lines (a ++ b) = lines a +:+ lines b.
Proof. induction a as [|s a IH]; [done|]. cbn [lines app]. by rewrite IH, str_app_assoc. Qed.

(** * What the writer writes *)

(** [f] appends [t] to a buffer. *)
Definition writes (f : string -> written (W := string)) (t : string) : Prop :=
  forall out, f out = (String.length t, None, out +:+ t).

Lemma writes_emit t : writes (emit t) t.
Proof. done. Qed.

Lemma writes_done : writes done "".
Proof. intros out. by rewrite str_app_nil_r. Qed.

Lemma writes_then f k t u : writes f t -> writes k u -> writes (fun out => and_then (f out) k) (t +:+ u).
Proof. intros F K out. unfold and_then. by rewrite F, K, str_length_app, str_app_assoc. Qed.

Lemma writes_late f k t u : writes f t -> writes k u -> writes (fun out => and_then_late (f out) k) (t +:+ u).
Proof. intros F K out. unfold and_then_late. by rewrite F, K, str_length_app, str_app_assoc. Qed.

Lemma writes_each {A} (f : A -> string -> written) (g : A -> text_sample) l :
  (forall x, x ∈ l -> writes (f x) (line (g x))) -> writes (for_each f l) (lines (map g l)).
Proof.
  induction l as [|x l IH]; intros F; [apply writes_done|]. cbn [for_each map lines].
  apply writes_then; [apply F; left|]. apply IH. intros y Y. apply F. by right.
Qed.

#[local] Hint Resolve writes_emit writes_done writes_then writes_late : core.

Lemma writes_pairs sep ls k u :
  (forall s, writes (k s) (u s)) ->
  writes (pairs_loop sep ls k) (pairs_text sep (map pair_of ls) +:+ u (match ls with [] => sep | _ => "," end%char)).
Proof.
  intros K. revert sep. induction ls as [|lp ls IH]; intros sep; cbn [pairs_loop map pairs_text pair_of]; [by rewrite str_app_nil_l|].
  rewrite str_app_assoc. apply writes_then; [done|]. specialize (IH ","%char). by destruct ls.
Qed.

Lemma pairs_text_app sep a b :
  pairs_text sep (a ++ b) = pairs_text sep a +:+ pairs_text (match a with [] => sep | _ => "," end%char) b.
Proof.
  revert sep. induction a as [|[n v] a IH]; intros sep; [done|]. cbn [pairs_text app]. rewrite IH, str_app_assoc.
  by destruct a.
Qed.

(** The additional label: none, or one with a name. *)
Definition extra (an av : string) : list (string * string) := if (an =? "")%string then [] else [(an, av)].

Lemma writes_labels ls an av : writes (labelPairsToText ls an av) (labels_text (map pair_of ls ++ extra an av)).
Proof.
  intros out. unfold labelPairsToText, extra. destruct (an =? "")%string eqn:E.
  - destruct ls as [|lp ls]; [by apply writes_done|]. cbn [length Nat.eqb andb negb].
    rewrite (writes_pairs "{" (lp :: ls) _ (fun _ => "}")), app_nil_r; [done|]. intros s. apply writes_emit.
  - rewrite andb_false_r. cbn [negb].
    rewrite (writes_pairs "{" ls _ (fun sep => pair_text sep an av +:+ "}")); [|auto].
    assert (forall sep, pair_text sep an av = pairs_text sep [(an, av)]) as P by (intros; cbn; by rewrite str_app_nil_r).
    rewrite P. rewrite <- str_app_assoc.
    assert (match ls with [] => "{" | _ => "," end%char = match map pair_of ls with [] => "{" | _ => "," end%char) as -> by by destruct ls.
    rewrite <- pairs_text_app. unfold labels_text. by destruct (map pair_of ls).
Qed.

Lemma writes_sample name m an av v :
  writes (writeSample name m an av v) (line (sample_of_metric name m (extra an av) v)).
Proof.
  intros out. unfold writeSample, line, metric_text, sample_of_metric. cbn [t_name t_labels t_value t_time].
  rewrite !str_app_assoc. revert out. apply writes_then; [done|]. apply writes_then; [apply writes_labels|].
  rewrite <- str_app_assoc. apply writes_then; [done|].
  destruct (dto.Metric_TimestampMs m); [|done]. apply writes_then; done.
Qed.

Lemma writes_metric t name m ss :
  metric_samples t name m = Some ss -> writes (write_metric t name m) (lines ss).
Proof.
  assert (forall n v, writes (writeSample n m "" "" v) (lines [sample_of_metric n m [] v])) as P.
  { intros n v out. cbn [lines]. rewrite str_app_nil_r. apply (writes_sample n m "" "" v). }
  destruct t; cbn [metric_samples]; intros E; [apply fmap_Some in E as (x & Hx & ->); unfold write_metric; rewrite Hx..|done];
    try (intros out; apply P); unfold write_summary, write_histogram.
  - unfold summary_samples. rewrite lines_app. apply writes_then.
    + apply writes_each. intros q _. apply (writes_sample name m QuantileLabel).
    + apply (writes_late _ _ _ (lines [_])); [|apply P]. apply (writes_sample _ m "" "").
  - unfold histogram_samples. rewrite !lines_app. apply writes_then.
    + apply writes_each. intros q _. apply (writes_sample _ m BucketLabel).
    + destruct (existsb _ _).
      * apply (writes_late _ _ _ (lines [_])); [|apply P]. apply (writes_sample _ m "" "").
      * apply writes_late; [intros out; cbn [lines]; rewrite str_app_nil_r; apply (writes_sample _ m BucketLabel)|].
        apply (writes_late _ _ _ (lines [_])); [|apply P]. apply (writes_sample _ m "" "").
Qed.

(** The text of a family. *)
Definition family_text (m : dto.MetricFamily) (ss : list text_sample) : string :=
  let name := dto.get_string (dto.MetricFamily_Name m) in
  match dto.MetricFamily_Help m with Some help => help_line name help | None => "" end +:+
  type_line name (dto.GetType m) +:+ lines ss.

Definition family_samples (m : dto.MetricFamily) : option (list text_sample) :=
  all_samples (dto.GetType m) (dto.get_string (dto.MetricFamily_Name m)) (dto.MetricFamily_Metric m).

Lemma writes_all t name ms ss : all_samples t name ms = Some ss -> writes (for_each (write_metric t name) ms) (lines ss).
Proof.
  revert ss. induction ms as [|m ms IH]; intros ss; cbn; [intros [= <-]; apply writes_done|].
  destruct (metric_samples t name m) as [a|] eqn:M; [|done]. destruct (all_samples t name ms) as [b|]; [|done].
  cbn. intros [= <-]. rewrite lines_app. apply writes_then; [by apply writes_metric|auto].
Qed.

Lemma writes_family m ss :
  dto.MetricFamily_Metric m <> [] -> dto.get_string (dto.MetricFamily_Name m) <> "" -> family_samples m = Some ss ->
  writes (MetricFamilyToText m) (family_text m ss).
Proof.
  intros M N S. unfold MetricFamilyToText, family_text. destruct (dto.MetricFamily_Metric m) as [|x ms] eqn:E; [done|].
  cbn [length Nat.eqb]. rewrite (proj2 (String.eqb_neq _ _) N). rewrite <- E. unfold family_samples in S.
  destruct (dto.MetricFamily_Help m) as [h|]; [apply writes_then; [done|]|rewrite str_app_nil_l];
    (apply writes_then; [done|by apply writes_all]).
Qed.
