(* ===== verification/TextRead.v ===== *)
(** How the parser of the exposition format reads the parts of a line that the
    client library has written: names, labels with their escaped values. *)

From S2P Require Import Prelude GoString GoFmt Float Duration Labels Relabel TextParse TextFacts RuleFmt TextCreate TextWrite.
Import textparse.

(** * Bytes *)

(** A claim about bytes holds when it holds for each of them. *)
Lemma for_bytes (Q : Z -> bool) c :
  forallb (fun k => Q (Z.of_nat k)) (seq 0 256) = true -> 0 <= c <= 255 -> Q c = true.
Proof.
  intros A C. rewrite forallb_forall in A. specialize (A (Z.to_nat c) ltac:(apply in_seq; lia)).
  by rewrite Z2Nat.id in A by lia.
Qed.

Instance jump_eq_dec : EqDecision jump.
Proof. solve_decision. Defined.

(** On the bytes of a class, state [n] goes to [j]. *)
Definition goes (P : Z -> bool) (n : nat) (j : jump) : bool :=
  forallb (fun k => implb (P (Z.of_nat k)) (bool_decide (delta n (Z.of_nat k) = j))) (seq 0 256).

Lemma goes_delta P n j c : goes P n j = true -> 0 <= c <= 255 -> P c = true -> delta n c = j.
Proof.
  intros G C E. pose proof (for_bytes (fun c => implb (P c) (bool_decide (delta n c = j))) c G C) as B. cbn in B.
  rewrite E in B. by apply bool_decide_eq_true in B.
Qed.

(** The first byte of a text, [eof] when there is none. *)
Definition first (s : string) : Z := match s with EmptyString => 0 | String c _ => rune c end.

Lemma first_range s : 0 <= first s <= 255.
Proof. destruct s; cbn; [lia|apply rune_range]. Qed.

Lemma byte_at_first i b : byte_at i b = first (str_drop i b).
Proof.
  unfold byte_at, eof. revert i. induction b as [|c b IH]; intros [|i]; try done. apply IH.
Qed.

Lemma drop_more w s i b : str_drop i b = w +:+ s -> str_drop (i + String.length w) b = s.
Proof. intros E. by rewrite <- str_drop_drop, E, str_drop_length_app. Qed.

Lemma drop_inside i b s : str_drop i b = s -> s <> "" -> (i < String.length b)%nat.
Proof. intros E N. apply Nat.nle_gt. intros L. by rewrite str_drop_all in E by lia. Qed.

Lemma slice_drop i w s b : str_drop i b = w +:+ s -> str_slice i (i + String.length w) b = w.
Proof.
  intros E. unfold str_slice. rewrite E. replace (i + String.length w - i)%nat with (String.length w) by lia.
  apply str_take_length_app.
Qed.

(** * Moving forward *)

(** The byte the automaton is at, and the text from there on. *)
Definition cur (l : lexer) : Z := byte_at (lx_i l) (lx_b l).
Definition looks (l : lexer) (s : string) : Prop := str_drop (lx_i l) (lx_b l) = s.

Definition fwd (k : nat) (l : lexer) : lexer :=
  set_i (lx_i l + k) (set_err (if (len l <=? lx_i l + k)%nat then Some EOF else lx_err l) l).

Lemma cur_first l s : looks l s -> cur l = first s.
Proof. intros <-. apply byte_at_first. Qed.

Lemma looks_fwd w s l : looks l (w +:+ s) -> looks (fwd (String.length w) l) s.
Proof. apply drop_more. Qed.

Lemma looks_fwd1 a s l : looks l (String a s) -> looks (fwd 1 l) s.
Proof. apply (drop_more (String a "") s). Qed.

Lemma fwd_fwd j k l : fwd j (fwd k l) = fwd (k + j) l.
Proof.
  destruct l. unfold fwd, len, set_i, set_err. cbn. f_equal; [lia|]. rewrite Nat.add_assoc.
  repeat case_match; bool_prop; try done; lia.
Qed.

Lemma fwd_0 l s : looks l s -> s <> "" -> fwd 0 l = l.
Proof.
  intros E N. pose proof (drop_inside _ _ _ E N). unfold fwd, len. rewrite Nat.add_0_r, (proj2 (Nat.leb_gt _ _)) by done.
  by destruct l.
Qed.

Lemma next_fwd l a s :
  looks l (String a s) -> (in_value (lx_state l) = true -> first s <> 0) -> next l = (cur (fwd 1 l), fwd 1 l).
Proof.
  intros E N. pose proof (looks_fwd1 a s l E) as E1. rewrite (cur_first _ _ E1). unfold next. cbn [next_loop].
  unfold looks, fwd in E1. cbn in E1. cbn [lx_i lx_b lx_state set_i].
  assert (lx_i l + 1 = S (lx_i l))%nat as P by lia. rewrite P in E1. unfold fwd. rewrite P.
  pose proof (drop_inside _ _ _ E ltac:(done)) as I.
  pose proof (byte_at_first (S (lx_i l)) (lx_b l)) as B. unfold byte_at in B. rewrite E1 in B.
  destruct (String.get _ _) as [c|] eqn:G.
  - rewrite B. assert (S (lx_i l) < String.length (lx_b l))%nat.
    { apply Nat.nle_gt. intros X%get_None. congruence. }
    unfold len. rewrite (proj2 (Nat.leb_gt _ _)) by done.
    destruct ((first s =? eof) && in_value (lx_state l)) eqn:K; [|by destruct l].
    apply andb_true_iff in K as [K1 K2]. destruct (N K2). by apply Z.eqb_eq in K1.
  - apply get_None in G. unfold len. rewrite (proj2 (Nat.leb_le _ _)) by done. rewrite <- B. by destruct l.
Qed.

(** * Tokens *)

(** From state [n] the automaton ends up in [j]. *)
Definition Runs (n : nat) (l : lexer) (j : jump) (l' : lexer) : Prop :=
  exists f, run f n (cur l) l = Some (j, cur l', l').

Lemma run_more f k n c l r : run f n c l = Some r -> run (f + k) n c l = Some r.
Proof.
  revert n c l. induction f as [|f IH]; intros n c l; destruct k as [|k]; cbn [run Nat.add]; try done;
    destruct (delta n c); try done; destruct (next l); [|apply IH]. rewrite Nat.add_0_r. done.
Qed.

Lemma run_unique f g n c l r r' : run f n c l = Some r -> run g n c l = Some r' -> r = r'.
Proof. intros R%(run_more _ g) R'%(run_more _ f). rewrite Nat.add_comm, R in R'. congruence. Qed.

Lemma Runs_stop n l s P r :
  looks l s -> goes P n (yyrule r) = true -> P (first s) = true -> Runs n l (yyrule r) l.
Proof.
  intros E G F. exists 0%nat. cbn [run]. rewrite (cur_first _ _ E). by rewrite (goes_delta P n (yyrule r)); [| |apply first_range|].
Qed.

Lemma Runs_go n n' l a s P j l' :
  looks l (String a s) -> (in_value (lx_state l) = true -> first s <> 0) ->
  goes P n (yystate n') = true -> P (rune a) = true -> Runs n' (fwd 1 l) j l' -> Runs n l j l'.
Proof.
  intros E N G F [f R]. exists (S f). cbn [run]. rewrite (cur_first _ _ E). cbn [first].
  rewrite (goes_delta P n (yystate n')); [|done|apply rune_range|done]. by rewrite (next_fwd _ _ _ E N).
Qed.

(** A state that stays where it is on a class of bytes that are not null. *)
Lemma Runs_loop n l w s P j l' :
  looks l (w +:+ s) -> first s <> 0 -> P 0 = false -> goes P n (yystate n) = true -> str_forall P w = true ->
  Runs n (fwd (String.length w) l) j l' -> Runs n l j l'.
Proof.
  intros E N Z G F. revert l E. induction w as [|a w IH]; intros l E R.
  - cbn [String.length] in R. rewrite (fwd_0 l s) in R; [done|done|by intros ->].
  - cbn in F. apply andb_true_iff in F as [F1 F2].
    eapply (Runs_go n n l a (w +:+ s) P); [done| |done|done|].
    + intros _. destruct w as [|b w]; [done|]. intros X. change (rune b = 0) in X. cbn [str_forall] in F2. by rewrite X, Z in F2.
    + apply IH; [done|by eapply looks_fwd1|]. by rewrite fwd_fwd.
Qed.

Section read.
Context `{UT : UnicodeTables}.

(** From [l] the lexer returns the token [t] with the state [l']. *)
Definition Lexes (l : lexer) (t : Z) (l' : lexer) : Prop := exists f, lex_loop f (cur l) l = Some (t, l').

Lemma lex_loop_more f k c l r : lex_loop f c l = Some r -> lex_loop (f + k) c l = Some r.
Proof.
  revert c l. induction f as [|f IH]; intros c l; [done|]. cbn [lex_loop Nat.add].
  destruct (run _ _ _ _) as [[[[] ?] ?]|]; try done. destruct (rule _ _) as [[]|]; try done. apply IH.
Qed.

Lemma lex_loop_unique f g c l r r' : lex_loop f c l = Some r -> lex_loop g c l = Some r' -> r = r'.
Proof. intros R%(lex_loop_more _ g) R'%(lex_loop_more _ f). rewrite Nat.add_comm, R in R'. congruence. Qed.

Lemma group_start s : group (start s) = s.
Proof. by destruct s. Qed.

(** The fuel of a token is enough for the run that reads it. *)
Lemma Runs_run l j l' :
  (lx_i l <= len l)%nat -> Runs (start (lx_state l)) l j l' ->
  run (2 + (String.length (lx_b l) - lx_i l)) (start (lx_state l)) (cur l) l = Some (j, cur l', l').
Proof.
  intros I [f R]. destruct (token_spec (2 + (String.length (lx_b l) - lx_i l)) (start (lx_state l)) l) as (j2 & c2 & l2 & R2 & _);
    [by destruct (lx_state l); apply Nat.leb_le|by left|left; unfold len; lia|].
  unfold cur at 1. rewrite R2. f_equal. by eapply run_unique.
Qed.

Lemma Lexes_token l r l1 l2 t l' :
  (lx_i l <= len l)%nat -> Runs (start (lx_state l)) l (yyrule r) l1 -> rule r l1 = Some (Again l2) -> cur l2 = cur l1 ->
  Lexes l2 t l' -> Lexes l t l'.
Proof.
  intros I R A C [f L]. exists (S f). cbn [lex_loop]. rewrite (Runs_run _ _ _ I R), A, <- C. done.
Qed.

Lemma Lexes_end l r l1 t l' :
  (lx_i l <= len l)%nat -> Runs (start (lx_state l)) l (yyrule r) l1 -> rule r l1 = Some (Return t l') -> Lexes l t l'.
Proof. intros I R A. exists 1%nat. cbn [lex_loop]. by rewrite (Runs_run _ _ _ I R), A. Qed.

Lemma looks_in l s : looks l s -> s <> "" -> (lx_i l <= len l)%nat.
Proof. intros E N. apply Nat.lt_le_incl. by eapply drop_inside. Qed.

(** [l] moved by [k] to the state [s], with more positions marked. *)
Definition adv (l : lexer) (k : nat) (s : lstate) (os : list nat) : lexer := set_state s (set_offsets (offsets l ++ os) (fwd k l)).

Lemma adv_adv l k s os k' s' os' : adv (adv l k s os) k' s' os' = adv l (k + k') s' (os ++ os').
Proof.
  unfold adv. rewrite app_assoc. rewrite <- fwd_fwd. by destruct l.
Qed.

Lemma looks_adv w s l st os : looks l (w +:+ s) -> looks (adv l (String.length w) st os) s.
Proof. apply looks_fwd. Qed.

(** * Escaped values *)

Definition esc (v : string) : string := escapeString v true.

(** The bytes that keep the automaton inside of a value. *)
Definition plain_byte (c : Z) : bool := negb (c =? 0) && negb (c =? 34) && negb (c =? 92).
Definition no_nul (s : string) : bool := str_forall (fun c => negb (c =? 0)) s.

Lemma first_app_nz w s : no_nul w = true -> first s <> 0 -> first (w +:+ s) <> 0.
Proof. destruct w as [|a w]; [done|]. intros [N _]%andb_true_iff _. by apply negb_true_iff, Z.eqb_neq in N. Qed.

Lemma no_nul_esc v b : no_nul v = true -> no_nul (escapeString v b) = true.
Proof.
  induction v as [|c v IH]; [done|]. intros [N1 N2]%andb_true_iff. cbn [escapeString].
  unfold no_nul. rewrite str_forall_app, andb_true_iff. split; [|by apply IH].
  unfold escape_byte. repeat case_match; try done. cbn. by rewrite N1.
Qed.

(** A value is read up to the quote behind it. *)
Lemma Runs_value n l v s j l' :
  n = 34%nat \/ n = 35%nat -> looks l (esc v +:+ s) -> first s <> 0 -> s <> "" -> no_nul v = true ->
  (forall m, m = 34%nat \/ m = 35%nat -> Runs m (fwd (String.length (esc v)) l) j l') -> Runs n l j l'.
Proof.
  intros N E S Z V R. revert n N l E R. induction v as [|c v IH]; intros n N l E R.
  - specialize (R n N). cbn [esc escapeString String.length] in R. rewrite (fwd_0 l s) in R; done.
  - apply andb_true_iff in V as [V1 V2]. specialize (IH V2).
    assert (first (esc v +:+ s) <> 0) as F by (apply first_app_nz; [by apply no_nul_esc|done]).
    assert (forall k l1, l1 = fwd k l -> looks l1 (esc v +:+ s) ->
      String.length (esc (String c v)) = (k + String.length (esc v))%nat -> Runs 35 l1 j l') as Rest.
    { intros k l1 -> L K. apply (IH 35%nat); [by right|done|]. intros m M. rewrite fwd_fwd, <- K. by apply R. }
    unfold esc in E. cbn [escapeString] in E. fold (esc v) in E. rewrite str_app_assoc in E.
    assert (String.length (esc (String c v)) = String.length (escape_byte true c) + String.length (esc v))%nat as LE
      by (unfold esc; cbn [escapeString]; by rewrite str_length_app).
    assert (forall d, escape_byte true c = String "\" (String d "") -> rune d <> 10 -> rune d <> 0 -> Runs n l j l') as Two.
    { intros d Q D D'. rewrite Q, !str_app_cons, str_app_nil_l in E. rewrite Q in LE.
      apply (Runs_go n 37 l "\" (String d (esc v +:+ s)) (fun c => c =? 92)); [done|by intros _|by destruct N as [-> | ->]|done|].
      apply (Runs_go 37 35 _ d (esc v +:+ s) (fun c => negb (c =? 10) && negb (c =? 0))); [by eapply looks_fwd1|done|done| |].
      { by rewrite (proj2 (Z.eqb_neq _ _) D), (proj2 (Z.eqb_neq _ _) D'). }
      rewrite fwd_fwd. apply (Rest 2%nat); [done| |done]. rewrite <- (fwd_fwd 1 1). eapply looks_fwd1, looks_fwd1. exact E. }
    unfold escape_byte in *. destruct (rune c =? rune "\") eqn:E1; [by apply (Two "\"%char)|].
    destruct (rune c =? 10) eqn:E2; [by apply (Two "n"%char)|].
    destruct (rune c =? 34) eqn:E3; [by apply (Two "034"%char)|].
    cbn [andb] in *. rewrite str_app_cons, str_app_nil_l in E.
    apply (Runs_go n 35 l c (esc v +:+ s) plain_byte); [done|by intros _|by destruct N as [-> | ->]| |].
    { unfold plain_byte. rewrite V1, E3. change 92 with (rune "\"). by rewrite E1. }
    apply (Rest 1%nat); [done|by eapply looks_fwd1|done].
Qed.

(** * Labels *)

Lemma Lexes_adv l r k s os t l' :
  (lx_i l <= len l)%nat -> Runs (start (lx_state l)) l (yyrule r) (fwd k l) ->
  rule r (fwd k l) = Some (Again (adv l k s os)) -> Lexes (adv l k s os) t l' -> Lexes l t l'.
Proof. intros. by eapply Lexes_token. Qed.

Definition digit (c : Z) : bool := rg (rune "0") (rune "9") c.
Definition any_byte (c : Z) : bool := true.

Lemma label_char_first c : 0 <= c <= 255 -> label_char true c = letter c.
Proof. intros C. apply eqb_prop. by apply (for_bytes (fun c => Bool.eqb (label_char true c) (letter c))). Qed.

Lemma label_char_rest c : 0 <= c <= 255 -> label_char false c = digit c || letter c.
Proof. intros C. apply eqb_prop. by apply (for_bytes (fun c => Bool.eqb (label_char false c) (digit c || letter c))). Qed.

Lemma str_forall_ext p q s : (forall c, 0 <= c <= 255 -> p c = q c) -> str_forall p s = str_forall q s.
Proof. intros E. induction s as [|c s IH]; [done|]. cbn. by rewrite E, IH by apply rune_range. Qed.

(** The name of a label. *)
Lemma lex_label_name l n s t l' :
  lx_state l = lstateLName -> looks l (n +:+ String "=" s) -> IsValid n = true ->
  Lexes (adv l (String.length n) lstateLEq [lx_i l + String.length n]%nat) t l' -> Lexes l t l'.
Proof.
  intros St E V K. assert (n +:+ String "=" s <> "") as NE by by destruct n.
  apply (Lexes_adv l 10 (String.length n) lstateLEq [lx_i l + String.length n]%nat); [by eapply looks_in| |by destruct l|done].
  rewrite St. destruct n as [|c n]; [done|]. cbn [IsValid] in V. apply andb_true_iff in V as [V1 V2].
  rewrite label_char_first in V1 by apply rune_range. rewrite (str_forall_ext _ _ _ label_char_rest) in V2.
  rewrite str_app_cons in E. apply (Runs_go 26 27 l c (n +:+ String "=" s) letter); [done|by rewrite St|done|done|].
  apply (Runs_loop 27 _ n (String "=" s) (fun c => digit c || letter c)); [by eapply looks_fwd1|done..|].
  rewrite fwd_fwd. apply (Runs_stop 27 _ (String "=" s) (fun c => c =? 61)); [|done..].
  by apply (looks_fwd (String c n)).
Qed.

(** The sign and the quote in front of a value. *)
Lemma lex_label_eq l s t l' :
  lx_state l = lstateLEq -> looks l (String "=" (String "034" s)) -> first s <> 0 ->
  Lexes (adv l 2 lstateLValueIn [lx_i l + 2]%nat) t l' -> Lexes l t l'.
Proof.
  intros St E N K.
  apply (Lexes_adv l 11 1 lstateLValue []); [by eapply looks_in|rewrite St| |].
  - apply (Runs_go 28 30 l "=" (String "034" s) (fun c => c =? 61)); [done|by rewrite St|done|done|].
    by apply (Runs_stop 30 _ (String "034" s) any_byte); [eapply looks_fwd1|..].
  - unfold adv. rewrite app_nil_r. by destruct l.
  - assert (looks (adv l 1 lstateLValue []) (String "034" s)) as E1 by by apply (looks_adv (String "=" "")).
    apply (Lexes_adv _ 13 1 lstateLValueIn [lx_i l + 2]%nat); [by eapply looks_in| | |by rewrite adv_adv].
    + apply (Runs_go 31 33 _ "034" s (fun c => c =? 34)); [done|done|done|done|].
      by apply (Runs_stop 33 _ s any_byte); [eapply looks_fwd1|..].
    + replace (lx_i l + 2)%nat with (lx_i (fwd 1 (adv l 1 lstateLValue []))) by (cbn; lia). by destruct l.
Qed.

Lemma slice_looks l w s : looks l (w +:+ s) -> s <> "" -> slice (lx_i l) (lx_i l + String.length w) (lx_b l) = Some w.
Proof.
  intros E N. pose proof (drop_inside _ _ _ (drop_more _ _ _ _ E) N).
  rewrite slice_Some by lia. by rewrite (slice_drop _ w s).
Qed.

(** The value and the quote behind it. *)
Lemma lex_label_value l v s t l' :
  lx_state l = lstateLValueIn -> last (offsets l) = Some (lx_i l) ->
  looks l (esc v +:+ String "034" s) -> no_nul v = true -> ValidString (esc v) = true -> first s <> 0 ->
  Lexes (adv l (String.length (esc v) + 1) lstateLabels [lx_i l + String.length (esc v)]%nat) t l' -> Lexes l t l'.
Proof.
  intros St La E V U N K. assert (esc v +:+ String "034" s <> "") as NE by by destruct (esc v).
  apply (Lexes_adv l 14 (String.length (esc v) + 1) lstateLabels [lx_i l + String.length (esc v)]%nat); [by eapply looks_in| | |done].
  - rewrite St. apply (Runs_value 34 l v (String "034" s)); [by left|done..|]. intros m M.
    pose proof (looks_fwd _ _ _ E) as E1. apply (Runs_go m 36 _ "034" s (fun c => c =? 34)); [done|done|by destruct M as [-> | ->]|done|].
    rewrite fwd_fwd. apply (Runs_stop 36 _ s any_byte); [|done..]. rewrite <- fwd_fwd. by eapply looks_fwd1.
  - cbn [rule]. cbn [lx_i fwd set_i]. replace (lx_i l + (String.length (esc v) + 1) - 1)%nat with (lx_i l + String.length (esc v))%nat by lia.
    unfold fwd, set_state. cbn [offsets set_i set_err lx_b]. rewrite La. cbn.
    rewrite (slice_looks l (esc v) (String "034" s)) by done. cbn. rewrite U. by destruct l.
Qed.

(** The text of a label, without what separates it from the one in front. *)
Definition label_text (n v : string) : string := n +:+ String "=" (String "034" (esc v +:+ String "034" "")).

(** The positions that are marked in a label that starts at [p]. *)
Definition label_marks (p : nat) (n v : string) : list nat :=
  let q := (p + String.length n)%nat in [p; q; (q + 2)%nat; (q + 2 + String.length (esc v))%nat].

(** A name and a value that survive: the value is UTF-8 and has no null byte. *)
Definition pair_ok (nv : string * string) : bool := IsValid nv.1 && ValidString (esc nv.2) && no_nul nv.2.

Lemma length_label_text n v : String.length (label_text n v) = (String.length n + 2 + String.length (esc v) + 1)%nat.
Proof. unfold label_text. rewrite str_length_app. cbn [String.length]. rewrite str_length_app. cbn [String.length]. lia. Qed.

(** A whole label, behind what rule 9 has read. *)
Lemma lex_label l d n v s t l' :
  lx_state l = lstateLabels -> (lx_i l <= len l)%nat -> Runs 21 l (yyrule 9) (fwd d l) ->
  looks (fwd d l) (label_text n v +:+ s) -> pair_ok (n, v) = true -> first s <> 0 ->
  Lexes (adv l (d + String.length (label_text n v)) lstateLabels (label_marks (lx_i l + d) n v)) t l' -> Lexes l t l'.
Proof.
  intros St I R E [[V1 V2]%andb_true_iff V3]%andb_true_iff N K.
  unfold label_text in E. rewrite str_app_assoc, !str_app_cons, str_app_assoc, str_app_cons, str_app_nil_l in E.
  apply (Lexes_adv l 9 d lstateLName [lx_i l + d]%nat); [done|by rewrite St|by destruct l|].
  eapply lex_label_name; [done|exact E|done|]. rewrite adv_adv.
  pose proof (looks_adv n _ (fwd d l) lstateLEq [] E) as E1.
  assert (forall k st os w, looks (adv l k st os) w <-> looks (fwd k l) w) as Lk by done.
  unfold adv in E1 at 1. rewrite fwd_fwd in E1. cbn in E1.
  apply (lex_label_eq _ (esc v +:+ String "034" s)); [done|by apply Lk|apply first_app_nz; [by apply no_nul_esc|done]|].
  rewrite adv_adv.
  assert (looks (fwd (d + String.length n + 2) l) (esc v +:+ String "034" s)) as E2.
  { rewrite <- fwd_fwd. by apply (looks_fwd (String "=" (String "034" ""))). }
  apply (lex_label_value _ v s); [done| |by apply Lk|done..|].
  { cbn. rewrite last_app. cbn. f_equal. lia. }
  rewrite adv_adv. revert K. rewrite length_label_text.
  match goal with |- Lexes (adv l ?a _ ?b) _ _ -> Lexes (adv l ?c _ ?e) _ _ =>
    replace a with c by lia; replace b with e; [done|unfold label_marks; cbn; repeat (apply (f_equal2 (@cons nat)); [lia|]); done] end.
Qed.

(** The positions of labels of which the first starts at [p]. *)
Fixpoint all_marks (p : nat) (ls : list (string * string)) : list nat :=
  match ls with
  | [] => []
  | (n, v) :: ls => label_marks p n v ++ all_marks (p + String.length (label_text n v) + 1) ls
  end.

Lemma pair_text_sep sep n v : pair_text sep n v = String sep (label_text n v).
Proof. done. Qed.

Lemma first_pairs ls s : first s <> 0 -> first (pairs_text "," ls +:+ s) <> 0.
Proof. by destruct ls as [|[n v] ls]. Qed.

(** The labels behind the first. *)
Lemma lex_pairs ls l s t l' :
  lx_state l = lstateLabels -> looks l (pairs_text "," ls +:+ s) -> forallb pair_ok ls = true -> first s <> 0 -> s <> "" ->
  Lexes (adv l (String.length (pairs_text "," ls)) lstateLabels (all_marks (lx_i l + 1) ls)) t l' -> Lexes l t l'.
Proof.
  revert l. induction ls as [|[n v] ls IH]; intros l St E V F N K.
  - cbn in K. unfold adv in K. rewrite (fwd_0 l s), app_nil_r in K; [|done..].
    replace l with (set_state lstateLabels (set_offsets (offsets l) l)); [done|]. rewrite <- St. by destruct l.
  - cbn [forallb] in V. apply andb_true_iff in V as [V1 V2]. cbn [pairs_text] in E, K.
    rewrite pair_text_sep, !str_app_assoc, !str_app_cons in E. rewrite pair_text_sep in K.
    pose proof (looks_fwd1 _ _ _ E) as E1. pose proof (first_pairs ls s F) as F1.
    apply (lex_label l 1 n v (pairs_text "," ls +:+ s)); [done|by eapply looks_in| |done..|].
    + assert (IsValid n = true) as Vn by (by apply andb_true_iff in V1 as [[? ?]%andb_true_iff ?]).
      eapply (Runs_go 21 23 l "," _ (fun c => c =? 44)); [done|by rewrite St|done|done|].
      apply (Runs_stop 23 _ _ letter 9 E1); [done|]. destruct n as [|c n]; [done|]. cbn in Vn. apply andb_true_iff in Vn as [Vn _].
      by rewrite <- label_char_first by apply rune_range.
    + apply IH; [done| |done..|].
      * apply (looks_adv _ _ (fwd 1 l) lstateLabels []) in E1. unfold adv in E1. rewrite fwd_fwd in E1. exact E1.
      * rewrite adv_adv. revert K. cbn [all_marks]. rewrite str_length_app. cbn [String.length].
        match goal with |- Lexes (adv l ?a _ ?b) _ _ -> Lexes (adv l ?c _ ?e) _ _ =>
          replace a with c by lia; replace b with e; [done|] end.
        f_equal. f_equal. cbn. lia.
Qed.

(** * A line *)

Definition name_byte (c : Z) : bool := rg (rune "0") (rune ":") c || letter c.

Lemma metric_char_first c : 0 <= c <= 255 -> metric_char true c = chr ":" c || letter c.
Proof. intros C. apply eqb_prop. by apply (for_bytes (fun c => Bool.eqb (metric_char true c) (chr ":" c || letter c))). Qed.

Lemma metric_char_rest c : 0 <= c <= 255 -> metric_char false c = name_byte c.
Proof. intros C. apply eqb_prop. by apply (for_bytes (fun c => Bool.eqb (metric_char false c) (name_byte c))). Qed.

(** The name of the metric. *)
Lemma lex_name l n s t l' :
  lx_state l = lstateInit -> looks l (n +:+ s) -> IsValidMetricName n = true -> first s <> 0 -> name_byte (first s) = false ->
  Lexes (set_mend (lx_i l + String.length n) (adv l (String.length n) lstateName [lx_i l + String.length n]%nat)) t l' -> Lexes l t l'.
Proof.
  intros St E V Z N K. assert (n +:+ s <> "") as NE by by destruct n.
  eapply (Lexes_token l 4 (fwd (String.length n) l)); [by eapply looks_in| |done|done|by destruct l].
  rewrite St. destruct n as [|c n]; [done|]. cbn [IsValidMetricName] in V. apply andb_true_iff in V as [V1 V2].
  rewrite metric_char_first in V1 by apply rune_range. rewrite (str_forall_ext _ _ _ metric_char_rest) in V2.
  rewrite str_app_cons in E. apply (Runs_go 1 6 l c (n +:+ s) (fun c => chr ":" c || letter c)); [done|by rewrite St|done|done|].
  apply (Runs_loop 6 _ n s name_byte); [by eapply looks_fwd1|done..|].
  rewrite fwd_fwd. apply (Runs_stop 6 _ s (fun c => negb (name_byte c))); [|done|by rewrite N].
  by apply (looks_fwd (String c n)).
Qed.

(** The bytes of a number. *)
Definition num_byte (c : Z) : bool :=
  digit c || rg (rune "A") (rune "Z") c || rg (rune "a") (rune "z") c || chr "+" c || chr "-" c || chr "." c.

Lemma fwd_mend m st l : fwd 1 (set_mend m (set_state st (fwd 1 l))) = set_mend m (adv l 2 st []).
Proof. unfold adv. change 2%nat with (1 + 1)%nat. rewrite <- fwd_fwd, app_nil_r. by destruct l. Qed.

(** The brace and the labels behind it. *)
Lemma lex_open l n v ls s t l' :
  lx_state l = lstateName -> looks l (pairs_text "{" ((n, v) :: ls) +:+ s) -> forallb pair_ok ((n, v) :: ls) = true ->
  first s <> 0 -> s <> "" ->
  Lexes (adv l (String.length (pairs_text "{" ((n, v) :: ls))) lstateLabels (all_marks (lx_i l + 1) ((n, v) :: ls))) t l' ->
  Lexes l t l'.
Proof.
  intros St E [V1 V2]%andb_true_iff Fs Ns. cbn [pairs_text all_marks] in *.
  rewrite pair_text_sep, str_length_app, !str_app_cons, !str_app_assoc in *. cbn [String.length Nat.add]. intros K.
  pose proof (looks_fwd1 _ _ _ E) as E1. pose proof (first_pairs ls s Fs) as Fp.
  eapply (Lexes_adv l 5 1 lstateLabels []); [by eapply looks_in| |unfold adv; rewrite app_nil_r; by destruct l|].
  { rewrite St. eapply (Runs_go 7 9 l "{" _ (chr "{")); [done|by rewrite St|done|done|].
    by apply (Runs_stop 9 _ _ any_byte 5 E1). }
  set (l1 := adv l 1 lstateLabels []). assert (looks l1 (label_text n v +:+ pairs_text "," ls +:+ s)) as E0 by exact E1.
  assert (IsValid n = true) as Vn by (by apply andb_true_iff in V1 as [[? ?]%andb_true_iff ?]).
  assert (label_text n v +:+ pairs_text "," ls +:+ s <> "") as NE by by destruct n.
  apply (lex_label l1 0 n v (pairs_text "," ls +:+ s)); [done|by apply (looks_in l1 _ E0)| | |done|done|].
  { rewrite (fwd_0 l1 _ E0 NE). apply (Runs_stop 21 _ _ letter 9 E0); [done|]. destruct n as [|c n]; [done|].
    cbn in Vn. apply andb_true_iff in Vn as [Vn _]. by rewrite <- label_char_first by apply rune_range. }
  { by rewrite (fwd_0 l1 _ E0 NE). }
  unfold l1. rewrite adv_adv. cbn [Nat.add app].
  set (l2 := adv l _ _ _). assert (looks l2 (pairs_text "," ls +:+ s)) as E2.
  { apply (looks_adv _ _ (fwd 1 l) lstateLabels []) in E1. unfold adv in E1. rewrite fwd_fwd in E1. exact E1. }
  apply (lex_pairs ls l2 s); [done..|]. unfold l2. rewrite adv_adv. revert K.
  cbn [lx_i adv fwd set_state set_offsets set_i]. rewrite Nat.add_0_r.
  match goal with |- Lexes (adv l ?a _ (?b ++ all_marks ?p _)) _ _ -> Lexes (adv l ?c _ (_ ++ all_marks ?q _)) _ _ =>
    replace c with a by lia; replace q with p by lia; done end.
Qed.

(** The brace behind the labels and the blank behind it. *)
Lemma lex_close l s t l' :
  lx_state l = lstateLabels -> looks l (String "}" (String " " s)) -> num_byte (first s) = true ->
  Lexes (set_vstart (lx_i l + 2) (set_mend (lx_i l + 1) (adv l 2 lstateValue []))) t l' -> Lexes l t l'.
Proof.
  intros St E B K.
  eapply (Lexes_token l 8 (fwd 1 l)); [by eapply looks_in| |done|done|].
  { rewrite St. apply (Runs_go 21 25 l "}" (String " " s) (chr "}")); [done|by rewrite St|done|done|].
    apply (Runs_stop 25 _ (String " " s) any_byte); [by eapply looks_fwd1|done|done]. }
  set (l4 := set_mend _ _). assert (looks l4 (String " " s)) as E4 by by apply (looks_fwd1 "}"%char _ l).
  eapply (Lexes_token l4 15 (fwd 1 l4)); [by eapply looks_in| |done|done|].
  { apply (Runs_go 10 12 l4 " " s blank); [done| |done|done|].
    - intros _ Z. by rewrite Z in B.
    - apply (Runs_stop 12 _ s num_byte); [by eapply looks_fwd1|done|done]. }
  revert K. unfold l4. rewrite fwd_mend. cbn [lx_i adv fwd set_state set_offsets set_i set_mend]. done.
Qed.

(** The labels and the blank behind them; [mend] is where they end. *)
Lemma lex_labels_text l ls s t l' :
  lx_state l = lstateName -> mend l = lx_i l -> looks l (labels_text ls +:+ String " " s) ->
  forallb pair_ok ls = true -> num_byte (first s) = true ->
  Lexes (set_vstart (lx_i l + String.length (labels_text ls) + 1) (set_mend (lx_i l + String.length (labels_text ls))
    (adv l (String.length (labels_text ls) + 1) lstateValue (all_marks (lx_i l + 1) ls)))) t l' ->
  Lexes l t l'.
Proof.
  intros St M E V B K. destruct ls as [|[n v] ls].
  - cbn in E, K. eapply (Lexes_token l 6 (fwd 1 l)); [by eapply looks_in| |done|done|].
    + rewrite St. apply (Runs_go 7 8 l " " s blank); [done|by rewrite St|done|done|].
      apply (Runs_stop 8 _ s num_byte); [by eapply looks_fwd1|done|done].
    + revert K. rewrite Nat.add_0_r. destruct l; cbn in M; subst. unfold adv. cbn. by rewrite app_nil_r.
  - unfold labels_text in E, K. rewrite str_app_assoc, str_app_cons, str_app_nil_l in E.
    rewrite str_length_app in K. cbn [String.length] in K.
    apply (lex_open l n v ls (String "}" (String " " s))); [done..|].
    apply (lex_close _ s); [done|by apply looks_adv|done|]. rewrite adv_adv, app_nil_r. revert K.
    cbn [lx_i adv fwd set_state set_offsets set_i].
    match goal with |- Lexes (set_vstart ?a (set_mend ?b (adv l ?c _ _))) _ _ -> Lexes (set_vstart ?d (set_mend ?e (adv l ?f _ _))) _ _ =>
      replace d with a by lia; replace e with b by lia; replace f with c by lia; done end.
Qed.
End read.
