(* ===== verification/TextTrip.v ===== *)
(** What the client library writes, the server reads: the text of a metric
    family, given to the parser of the exposition format, comes back as the
    samples of the family. *)

From S2P Require Import Prelude GoString GoFmt Float Duration Labels Relabel TextParse TextFacts RuleFmt TextCreate TextWrite TextRead.
Import textparse.

(** * Escaped values *)

Lemma replace_esc v : replace (esc v) = v.
Proof.
  induction v as [|c v IH]; [done|]. unfold esc. cbn [escapeString]. fold (esc v). unfold escape_byte.
  destruct (rune c =? rune "\") eqn:E1.
  { apply Z.eqb_eq, rune_inj in E1 as ->. rewrite !str_app_cons, str_app_nil_l. cbn [replace]. by rewrite IH. }
  destruct (rune c =? 10) eqn:E2.
  { apply Z.eqb_eq in E2. change 10 with (rune "010") in E2. apply rune_inj in E2 as ->.
    rewrite !str_app_cons, str_app_nil_l. cbn [replace]. by rewrite IH. }
  rewrite andb_true_r. destruct (rune c =? 34) eqn:E3.
  { apply Z.eqb_eq in E3. change 34 with (rune "034") in E3. apply rune_inj in E3 as ->.
    rewrite !str_app_cons, str_app_nil_l. cbn [replace]. by rewrite IH. }
  rewrite str_app_cons, str_app_nil_l. cbn [replace]. by rewrite E1, IH.
Qed.

Lemma esc_plain v : contains_byte (esc v) (rune "\") = false -> esc v = v.
Proof.
  induction v as [|c v IH]; [done|]. unfold esc. cbn [escapeString]. fold (esc v). rewrite contains_byte_app.
  intros [A B]%orb_false_iff. rewrite (IH B). unfold escape_byte in *. by repeat case_match.
Qed.

(** What [Metric] makes of an escaped value. *)
Lemma unescaped v : (if contains_byte (esc v) (rune "\") then replace (esc v) else esc v) = v.
Proof. destruct (contains_byte _ _) eqn:E; [apply replace_esc|by apply esc_plain]. Qed.

(** Escaping keeps UTF-8 well-formed: it only touches bytes of ASCII. *)
Lemma valid_loop_fuel f g s : (String.length s <= f)%nat -> (String.length s <= g)%nat -> valid_loop f s = valid_loop g s.
Proof.
  revert g s. induction f as [|f IH]; intros [|g] [|c s] F G; try done; try (cbn in *; lia).
  cbn [valid_loop]. destruct (DecodeRuneInString (String c s)) as [r w] eqn:D. pose proof (decode_width _ _ _ _ D).
  f_equal. apply IH; rewrite str_length_drop; cbn [String.length] in *; lia.
Qed.

Lemma ValidString_step s r w :
  s <> "" -> DecodeRuneInString s = (r, w) ->
  ValidString s = negb ((r =? RuneError) && (w =? 1)%nat) && ValidString (str_drop w s).
Proof.
  destruct s as [|c s]; [done|]. intros _ D. unfold ValidString. cbn [String.length valid_loop]. rewrite D. f_equal.
  pose proof (decode_width _ _ _ _ D). apply valid_loop_fuel; rewrite str_length_drop; cbn [String.length]; lia.
Qed.

Lemma ValidString_ascii c s : rune c < 0x80 -> ValidString (String c s) = ValidString s.
Proof.
  intros A. rewrite (ValidString_step _ (rune c) 1); [|done|unfold DecodeRuneInString, RuneSelf; by rewrite (proj2 (Z.ltb_lt _ _) A)].
  unfold RuneError. by rewrite (proj2 (Z.eqb_neq _ _)) by (intros ?; lia).
Qed.

Lemma esc_app a b : esc (a +:+ b) = esc a +:+ esc b.
Proof.
  unfold esc. induction a as [|c a IH]; [by rewrite !str_app_nil_l|]. rewrite str_app_cons. cbn [escapeString].
  by rewrite IH, str_app_assoc.
Qed.

Lemma esc_high s : (forall b, b < 0x80 -> contains_byte s b = false) -> esc s = s.
Proof.
  intros H. apply esc_plain. induction s as [|c s IH]; [done|].
  assert (forall b, b < 0x80 -> rune c <> b /\ contains_byte s b = false) as H'.
  { intros b B. specialize (H b B). rewrite contains_byte_cons in H. apply orb_false_iff in H as [? ?]. split; [lia|done]. }
  unfold esc. cbn [escapeString]. fold (esc s). rewrite contains_byte_app, IH by (intros; by apply H'). rewrite orb_false_r.
  unfold escape_byte. change (rune "\") with 92.
  rewrite !(proj2 (Z.eqb_neq _ _)) by (apply H'; lia). cbn [andb]. rewrite contains_byte_cons. cbn [contains_byte].
  by rewrite (proj2 (Z.eqb_neq _ _)) by (apply H'; lia).
Qed.

Lemma ValidString_esc v : ValidString v = true -> ValidString (esc v) = true.
Proof.
  remember (String.length v) as n eqn:L. revert v L. induction n as [n IH] using lt_wf_ind. intros v -> V.
  destruct v as [|c v]; [done|]. destruct (DecodeRuneInString (String c v)) as [r w] eqn:D.
  pose proof (decode_width _ _ _ _ D) as W. rewrite (ValidString_step _ r w) in V by done.
  apply andb_true_iff in V as [V1 V2]. apply negb_true_iff, andb_false_iff in V1.
  assert (String.length (str_drop w (String c v)) < String.length (String c v))%nat as Dec by (rewrite str_length_drop; cbn; lia).
  specialize (IH _ Dec _ eq_refl V2).
  destruct (rune c <? 0x80) eqn:A.
  - unfold DecodeRuneInString, RuneSelf in D. rewrite A in D. injection D as <- <-. cbn [str_drop] in IH.
    unfold esc. cbn [escapeString]. fold (esc v). unfold escape_byte.
    repeat case_match; rewrite ?str_app_cons, ?str_app_nil_l, !ValidString_ascii; try done; by apply Z.ltb_lt.
  - destruct (encode_decode c v r w D) as (E & R & S).
    { destruct V1 as [V1|V1]; [right; by apply Z.eqb_neq|left; by apply Nat.eqb_neq]. }
    assert (0x80 <= r) as Hr.
    { apply Z.nlt_ge. intros B. rewrite EncodeRune_1 in E by lia. destruct w as [|w]; [lia|]. cbn in E. injection E as E _.
      apply Z.ltb_ge in A. rewrite <- E, rune_byte_of in A by lia. lia. }
    rewrite <- (str_take_drop w (String c v)), <- E, esc_app.
    rewrite esc_high by (intros; apply EncodeRune_high; [lia|done|done]).
    rewrite (ValidString_step _ r (String.length (EncodeRune r))); [| |by apply decode_encode].
    + rewrite str_drop_length_app, IH, andb_true_r. apply negb_true_iff, andb_false_iff.
      destruct V1 as [V1|V1]; [by left|right]. apply Nat.eqb_neq in V1. apply Nat.eqb_neq.
      rewrite E, str_length_take. cbn [String.length]. lia.
    + rewrite E. by destruct w; [lia|].
Qed.

(** * Numbers *)

Definition num_text (s : string) : bool := str_forall num_byte s.

Lemma num_byte_lower c : num_byte (rune (lower_byte c)) = num_byte (rune c).
Proof.
  rewrite <- (byte_of_rune c) at 1 2. apply eqb_prop.
  pose proof (for_bytes (fun z => Bool.eqb (num_byte (rune (lower_byte (byte_of z)))) (num_byte (rune (byte_of z)))) (rune c)
    ltac:(vm_compute; reflexivity) (rune_range c)) as B. cbn beta in B. by rewrite byte_of_rune in *.
Qed.

Lemma num_text_lower s : num_text (ToLower s) = num_text s.
Proof. unfold num_text. induction s as [|c s IH]; [done|]. cbn [ToLower str_forall]. by rewrite num_byte_lower, IH. Qed.

Lemma num_byte_digit c : digit c = true -> num_byte c = true.
Proof. unfold num_byte. by intros ->. Qed.

Lemma read_digits_num s a n : num_text (read_digits s a n).2 = num_text s.
Proof.
  revert a n. induction s as [|c s IH]; intros a n; [done|]. cbn [read_digits]. destruct (_ && _) eqn:D; [|done].
  rewrite IH. unfold num_text. cbn [str_forall]. by rewrite (num_byte_digit _ D).
Qed.

Lemma read_exp_num s e : num_text (read_exp s e).2 = num_text s.
Proof.
  revert e. induction s as [|c s IH]; intros e; [done|]. cbn [read_exp]. destruct (_ && _) eqn:D; [|done].
  rewrite IH. unfold num_text. cbn [str_forall]. by rewrite (num_byte_digit _ D).
Qed.

Lemma num_text_cons c s : num_byte (rune c) = true -> num_text (String c s) = num_text s.
Proof. unfold num_text. cbn [str_forall]. by intros ->. Qed.

Lemma num_byte_is c d : rune c =? d = true -> num_byte d = true -> num_byte (rune c) = true.
Proof. by intros ->%Z.eqb_eq. Qed.

(** The exponent of a number, behind its sign. *)
Lemma exp_num s (esign : Z) (k : Z -> option (Z * Z)) r :
  match s with
  | String c2 _ =>
    if (rune "0" <=? rune c2) && (rune c2 <=? rune "9") then
      let '(e, s3) := read_exp s 0 in match s3 with EmptyString => k (e * esign) | _ => None end
    else None
  | EmptyString => None
  end = Some r -> num_text s = true.
Proof.
  destruct s as [|c2 s]; [done|]. destruct (_ && _); [|done].
  pose proof (read_exp_num (String c2 s) 0) as E. destruct (read_exp _ 0) as [e s3]. destruct s3; [|done]. by rewrite <- E.
Qed.

Lemma read_decimal_num s r : read_decimal s = Some r -> num_text s = true.
Proof.
  unfold read_decimal. pose proof (read_digits_num s 0 0) as E. destruct (read_digits s 0 0) as [[m n] s1]. cbn [snd] in E.
  rewrite <- E. clear E s.
  set (dot := match s1 with EmptyString => _ | String c s2 => _ end).
  assert (num_text s1 = num_text dot.2) as ->.
  { unfold dot. destruct s1 as [|c s2]; [done|]. destruct (rune c =? rune ".") eqn:D; [|done].
    rewrite (num_text_cons c s2) by (by eapply num_byte_is). pose proof (read_digits_num s2 m n) as E.
    by destruct (read_digits s2 m n) as [[m' n'] s3]. }
  destruct dot as [[[m' n'] f] s2]. cbn [snd]. clear s1 m n.
  destruct (n' =? 0)%nat; [done|]. destruct s2 as [|c s2]; [done|].
  destruct ((rune c =? rune "e") || (rune c =? rune "E")) eqn:D; [|done].
  rewrite (num_text_cons c s2) by (apply orb_true_iff in D as [D|D]; by eapply num_byte_is).
  destruct s2 as [|c1 s2]; [done|].
  destruct (rune c1 =? rune "+") eqn:D1; [|destruct (rune c1 =? rune "-") eqn:D2].
  - intros H%(exp_num s2 1 (fun e => Some (m', e - Z.of_nat f))). rewrite (num_text_cons c1 s2); [done|by eapply num_byte_is].
  - intros H%(exp_num s2 (-1) (fun e => Some (m', e - Z.of_nat f))). rewrite (num_text_cons c1 s2); [done|by eapply num_byte_is].
  - intros H%(exp_num (String c1 s2) 1 (fun e => Some (m', e - Z.of_nat f))). done.
Qed.

Lemma ParseFloat_num s v : ParseFloat s = Ok v -> s <> "" /\ num_text s = true.
Proof.
  intros H. split; [by intros -> |]. revert H. rewrite <- num_text_lower. unfold ParseFloat.
  destruct (_ || _) eqn:E; [apply orb_true_iff in E as [->%String.eqb_eq | ->%String.eqb_eq]; done|].
  destruct (_ =? "nan")%string eqn:E2; [by apply String.eqb_eq in E2 as ->|].
  rewrite num_text_lower. destruct (read_decimal s) eqn:R; [|done]. intros _. by eapply read_decimal_num.
Qed.

Lemma ParseFloat_signed_num s v : ParseFloat_signed s = Ok v -> s <> "" /\ num_text s = true.
Proof.
  destruct s as [|c s]; [done|]. unfold ParseFloat_signed. destruct (_ || _) eqn:E.
  - destruct (_ =? _)%string; [done|]. destruct (ParseFloat s) as [f|e] eqn:P; [|done]. intros _. split; [done|].
    apply ParseFloat_num in P as [_ P]. rewrite num_text_cons; [done|].
    apply orb_true_iff in E as [E|E]; by eapply num_byte_is.
  - apply ParseFloat_num.
Qed.

(** * The value and the time of a line *)

Lemma num_dark c : 0 <= c <= 255 -> num_byte c = true -> dark c = true.
Proof.
  intros C N. pose proof (for_bytes (fun c => implb (num_byte c) (dark c)) c ltac:(vm_compute; reflexivity) C) as B.
  cbn beta in B. by rewrite N in B.
Qed.

Lemma first_num w s : num_text w = true -> first s <> 0 -> first (w +:+ s) <> 0.
Proof.
  destruct w as [|b w]; [done|]. intros [N _]%andb_true_iff _ X. change (rune b = 0) in X. by rewrite X in N.
Qed.

(** Where a number may end. *)
Definition gap (c : Z) : bool := (c =? 32) || (c =? 10).

Lemma Runs_dark l w s :
  looks l (w +:+ s) -> lx_state l = lstateValue -> num_text w = true -> gap (first s) = true ->
  Runs 11 l (yyrule 17) (fwd (String.length w) l).
Proof.
  intros E St D G. assert (first s <> 0) as Z by (intros Z; by rewrite Z in G).
  apply (Runs_loop 11 l w s num_byte); [done..|].
  by apply (Runs_stop 11 _ s gap); [eapply looks_fwd|vm_compute; reflexivity|].
Qed.

(** One letter of NaN: the automaton goes on to the next, or reads a number. *)
Lemma Runs_letter n n' a rem l w s :
  goes (fun c => c =? rune a) n (yystate n') = true ->
  goes (fun c => num_byte c && negb (c =? rune a)) n (yystate 11) = true ->
  (w = "" -> goes gap n (yyrule 17) = true) ->
  looks l (w +:+ s) -> lx_state l = lstateValue -> num_text w = true -> gap (first s) = true ->
  (forall w', looks (fwd 1 l) (w' +:+ s) -> num_text w' = true ->
    Runs n' (fwd 1 l) (yyrule (if (w' =? rem)%string then 16 else 17)) (fwd (String.length w') (fwd 1 l))) ->
  Runs n l (yyrule (if (w =? String a rem)%string then 16 else 17)) (fwd (String.length w) l).
Proof.
  intros G1 G2 G3 E St D G K. assert (first s <> 0) as Z by (intros Z; by rewrite Z in G).
  destruct w as [|c w].
  - cbn [String.length String.eqb]. rewrite (fwd_0 l s) by (first [done|by intros ->]).
    by apply (Runs_stop n l s gap); [|apply G3|].
  - unfold num_text in D. cbn [str_forall] in D. apply andb_true_iff in D as [D1 D2]. rewrite str_app_cons in E.
    pose proof (first_num w s D2 Z) as Z'.
    cbn [String.length String.eqb]. change (S (String.length w)) with (1 + String.length w)%nat. rewrite <- fwd_fwd.
    destruct (Ascii.eqb_spec c a) as [->|N].
    + apply (Runs_go n n' l a (w +:+ s) _ _ _ E (fun _ => Z') G1); [by apply Z.eqb_eq|]. apply K; [by eapply looks_fwd1|done].
    + apply (Runs_go n 11 l c (w +:+ s) _ _ _ E (fun _ => Z') G2).
      { rewrite D1. apply negb_true_iff, Z.eqb_neq. by intros X%rune_inj. }
      by eapply (Runs_dark (fwd 1 l) w s); [eapply looks_fwd1|..].
Qed.

Lemma Runs_number l w s :
  looks l (w +:+ s) -> lx_state l = lstateValue -> w <> "" -> num_text w = true -> gap (first s) = true ->
  Runs 10 l (yyrule (if (w =? "NaN")%string then 16 else 17)) (fwd (String.length w) l).
Proof.
  intros E St N D G. assert (first s <> 0) as Z by (intros Z; by rewrite Z in G).
  apply (Runs_letter 10 13 "N" "aN" l w s); [vm_compute; reflexivity..|done|done|done|done|done|].
  intros w1 E1 D1. apply (Runs_letter 13 14 "a" "N" _ w1 s); [vm_compute; reflexivity..|done|done|done|done|].
  intros w2 E2 D2. apply (Runs_letter 14 15 "N" "" _ w2 s); [vm_compute; reflexivity..|done|done|done|done|].
  intros w3 E3 D3. destruct w3 as [|c w3].
  - cbn [String.length String.eqb]. rewrite (fwd_0 _ s) by (first [done|by intros ->]).
    by apply (Runs_stop 15 _ s gap); [|vm_compute; reflexivity|].
  - unfold num_text in D3. cbn [str_forall] in D3. apply andb_true_iff in D3 as [D3 D4]. rewrite str_app_cons in E3.
    pose proof (first_num w3 s D4 Z) as Z'.
    cbn [String.length String.eqb]. change (S (String.length w3)) with (1 + String.length w3)%nat. rewrite <- (fwd_fwd (String.length w3) 1).
    apply (Runs_go 15 11 _ c (w3 +:+ s) num_byte _ _ E3 (fun _ => Z')); [vm_compute; reflexivity|done|].
    by eapply (Runs_dark _ w3 s); [eapply looks_fwd1|..].
Qed.

(** No error but the end of the input. *)
Definition quiet (e : option lex_error) : Prop := e = None \/ e = Some EOF.

Lemma quiet_fwd k l : quiet (lx_err l) -> quiet (lx_err (fwd k l)).
Proof. intros Q. unfold fwd. cbn. case_match; [by right|done]. Qed.

Section line.
Context `{UT : UnicodeTables}.

Lemma lex_value l w s v :
  lx_state l = lstateValue -> vstart l = lx_i l -> looks l (w +:+ s) -> ParseFloat_signed w = Ok v -> gap (first s) = true ->
  quiet (lx_err l) ->
  exists e, quiet e /\ forall t l',
    Lexes (set_state lstateTimestamp (set_val v (set_err e (fwd (String.length w) l)))) t l' -> Lexes l t l'.
Proof.
  intros St V E P G Q. destruct (ParseFloat_signed_num _ _ P) as [N D].
  assert (s <> "") as Ns by (by intros ->).
  pose proof (Runs_number l w s E St N D G) as R. destruct (w =? "NaN")%string eqn:W.
  - apply String.eqb_eq in W as ->. exists (lx_err (fwd 3 l)). split; [by apply quiet_fwd|]. intros t l' K.
    eapply (Lexes_token l 16); [by eapply looks_in|by rewrite St|done|done|].
    assert (v = NaN) as -> by (vm_compute in P; by injection P as <-). by destruct l.
  - exists None. split; [by left|]. intros t l' K.
    eapply (Lexes_token l 17 _ (set_state lstateTimestamp (set_val v (set_err None (fwd (String.length w) l)))));
      [eapply looks_in; [done|by destruct w]|by rewrite St| |done|].
    + cbn [rule]. change (vstart (fwd _ l)) with (vstart l). rewrite V. cbn [lx_i lx_b fwd set_i set_err].
      rewrite (slice_looks l w s) by done. cbn. by rewrite P.
    + by destruct l.
Qed.

(** The digits of a time. *)
Lemma parse_digits_10 s a v : parse_digits 10 s a = Ok v -> str_forall digit s = true.
Proof.
  revert a. induction s as [|c s IH]; intros a; [done|]. cbn [parse_digits str_forall].
  pose proof (for_bytes (fun z => match digit_val (byte_of z) with Some d => implb (d <? 10) (digit z) | None => true end) (rune c)
    ltac:(vm_compute; reflexivity) (rune_range c)) as B. cbn beta in B. rewrite byte_of_rune in B.
  destruct (digit_val c) as [d|]; [|done]. destruct (d <? 10); [|done]. cbn in B. rewrite B. cbn [negb andb].
  destruct (_ <? _); [|done]. apply IH.
Qed.

Lemma Itoa_time z : 0 <= z < 2 ^ 63 -> Itoa z <> "" /\ str_forall digit (Itoa z) = true /\ ParseInt10 (Itoa z) = Ok z.
Proof.
  intros Z. pose proof (Itoa_parse z ltac:(lia)) as P. unfold ParseInt10. rewrite P, (proj2 (Z.ltb_lt _ _)) by lia.
  unfold ParseUint10 in P. destruct (Itoa z) as [|c s]; [done|]. split; [done|]. split; [|done]. by eapply parse_digits_10.
Qed.

(** Where a line may go on: not at another newline. *)
Definition no_newline (c : Z) : bool := negb (c =? 10) && negb (c =? 13).

Lemma lex_newline l s :
  lx_state l = lstateTimestamp -> looks l (String "010" s) -> no_newline (first s) = true ->
  Lexes l 1 (set_nextMstart (lx_i l + 1) (fwd 1 l)).
Proof.
  intros St E N. eapply (Lexes_end l 20 (fwd 1 l)); [by eapply looks_in| |by destruct l].
  rewrite St. apply (Runs_go 16 19 l "010" s (fun c => c =? 10)); [done|by rewrite St|vm_compute; reflexivity|done|].
  apply (Runs_stop 19 _ s no_newline); [by eapply looks_fwd1|vm_compute; reflexivity|done].
Qed.

Definition time_ok (t : option Z) : Prop := match t with Some t => 0 <= t < 2 ^ 63 | None => True end.

Lemma lex_time l t s :
  lx_state l = lstateTimestamp -> lx_ts l = None -> looks l (time_text t +:+ String "010" s) -> time_ok t -> no_newline (first s) = true ->
  exists ts, let k := (String.length (time_text t) + 1)%nat in
    Lexes l 1 (set_nextMstart (lx_i l + k) (set_ts t (set_tstart ts (fwd k l)))).
Proof.
  intros St T E O N. destruct t as [z|]; cbn [time_text] in *.
  - destruct (Itoa_time z O) as (Nz & Dz & Pz). set (w := Itoa z) in *. exists (lx_i l + 1)%nat. cbv zeta.
    rewrite str_app_cons, str_app_nil_l in E.
    pose proof (looks_fwd1 _ _ _ E) as E1.
    assert (digit (first (w +:+ String "010" s)) = true) as F.
    { destruct w as [|c w']; [done|]. cbn in Dz. by apply andb_true_iff in Dz as [Dz _]. }
    eapply (Lexes_token l 18 (fwd 1 l)); [by eapply looks_in| |done|done|].
    { rewrite St. apply (Runs_go 16 18 l " " (w +:+ String "010" s) blank); [done|by rewrite St|vm_compute; reflexivity|done|].
      by apply (Runs_stop 18 _ _ digit 18 E1). }
    set (l1 := set_tstart _ (fwd 1 l)). assert (looks l1 (w +:+ String "010" s)) as E2 by exact E1.
    eapply (Lexes_token l1 19 (fwd (String.length w) l1) (set_ts (Some z) (fwd (String.length w) l1)));
      [eapply looks_in; [done|by destruct w]| | |done|].
    { change (lx_state l1) with (lx_state l). rewrite St. destruct w as [|c w'] eqn:W; [done|].
      cbn [str_forall] in Dz. apply andb_true_iff in Dz as [D1 D2].
      apply (Runs_go 16 20 l1 c (w' +:+ String "010" s) digit); [done| |vm_compute; reflexivity|done|].
      { change (lx_state l1) with (lx_state l). by rewrite St. }
      apply (Runs_loop 20 _ w' (String "010" s) digit); [by eapply looks_fwd1|done|done|vm_compute; reflexivity|done|].
      rewrite fwd_fwd. apply (Runs_stop 20 _ (String "010" s) (fun c => c =? 10)); [|vm_compute; reflexivity|done].
      by apply (looks_fwd (String c w')). }
    { cbn [rule]. change (tstart (fwd _ l1)) with (lx_i l1). cbn [lx_i lx_b fwd set_i set_err].
      rewrite (slice_looks l1 w (String "010" s)) by done. cbn. by rewrite Pz. }
    set (l2 := set_ts _ _). assert (looks l2 (String "010" s)) as E3 by by apply (looks_fwd w _ l1).
    pose proof (lex_newline l2 s St E3 N) as L. revert L. unfold l2, l1.
    match goal with |- Lexes _ _ ?a -> Lexes _ _ ?b => replace b with a; [done|] end.
    replace (String.length (" " +:+ w) + 1)%nat with (1 + String.length w + 1)%nat by (rewrite str_length_app; cbn; lia).
    rewrite <- !fwd_fwd. cbn [lx_i fwd set_i set_ts set_tstart set_err]. f_equal. lia.
  - exists (tstart l). cbn. pose proof (lex_newline l s St E N) as L. revert L. destruct l. cbn in T. by subst.
Qed.

(** * The sample of a line *)

Definition label_of (nv : string * string) : Label := mkLabel nv.1 nv.2.

(** What the parser yields for a sample. *)
Definition entry (s : text_sample) : pentry :=
  mkPEntry (metric_text s) (mkLabel MetricName (t_name s) :: sort_labels (map label_of (t_labels s))) (t_time s) (t_value s).

Lemma slice_at i w s b : str_drop i b = w +:+ s -> (i <= String.length b)%nat -> slice i (i + String.length w) b = Some w.
Proof.
  intros E L. rewrite slice_Some; [by rewrite (slice_drop i w s)|].
  pose proof (str_length_drop i b) as D. rewrite E, str_length_app in D. lia.
Qed.

Lemma drop_inside_cons i b a s : str_drop i b = String a s -> (i <= String.length b)%nat.
Proof. intros E. apply Nat.lt_le_incl. by eapply drop_inside. Qed.

(** The labels of a metric, read back from their positions. *)
Lemma metric_labels_marks m base p sep ls tail :
  (base < p)%nat -> str_drop (p - 1 - base) m = pairs_text sep ls +:+ tail ->
  metric_labels m base (all_marks p ls) = Some (map label_of ls).
Proof.
  revert p sep. induction ls as [|[n v] ls IH]; intros p sep B E; [done|].
  cbn [pairs_text] in E. rewrite pair_text_sep, str_app_assoc, str_app_cons in E.
  pose proof (drop_more (String sep "") _ _ _ E) as E1. cbn [String.length] in E1.
  replace (p - 1 - base + 1)%nat with (p - base)%nat in E1 by lia.
  unfold label_text in E1. rewrite !str_app_assoc, !str_app_cons in E1.
  pose proof (drop_more n _ _ _ E1) as E2. pose proof (drop_more (String "=" (String "034" "")) _ _ _ E2) as E3. cbn [String.length] in E3.
  rewrite !str_app_assoc, !str_app_cons, str_app_nil_l in E3.
  cbn [all_marks label_marks app metric_labels].
  assert (exists c r, n +:+ String "=" (String "034" ((esc v +:+ String "034" "") +:+ pairs_text "," ls +:+ tail)) = String c r) as (c & r & Ec)
    by (destruct n; by eexists _, _).
  assert (p - base <= String.length m)%nat as L1 by (rewrite Ec in E1; by eapply drop_inside_cons).
  assert (exists c r, esc v +:+ String "034" (pairs_text "," ls +:+ tail) = String c r) as (c' & r' & Ec')
    by (destruct (esc v); by eexists _, _).
  assert (p - base + String.length n + 2 <= String.length m)%nat as L2 by (rewrite Ec' in E3; by eapply drop_inside_cons).
  replace (p + String.length n - base)%nat with (p - base + String.length n)%nat by lia.
  rewrite (slice_at _ n _ _ E1 L1). cbn [mbind option_bind].
  replace (p + String.length n + 2 + String.length (esc v) - base)%nat with (p - base + String.length n + 2 + String.length (esc v))%nat by lia.
  replace (p + String.length n + 2 - base)%nat with (p - base + String.length n + 2)%nat by lia.
  rewrite (slice_at _ (esc v) _ _ E3 L2). cbn [mbind option_bind]. rewrite unescaped.
  rewrite (IH _ ","%char); [done|lia|].
  pose proof (drop_more (String sep (label_text n v)) _ _ _ E) as E4. rewrite <- E4. f_equal. cbn [String.length].
  rewrite length_label_text. lia.
Qed.

Lemma sample_of_line l i s rest :
  str_drop i (lx_b l) = metric_text s +:+ String " " rest -> mstart l = i -> mend l = (i + String.length (metric_text s))%nat ->
  offsets l = (i + String.length (t_name s))%nat :: all_marks (i + String.length (t_name s) + 1) (t_labels s) ->
  lx_ts l = t_time s -> lx_val l = t_value s -> sample_of l = Some (entry s).
Proof.
  intros E Ms Me Os Ts Vs. unfold sample_of, At, Metric. rewrite Ms, Me.
  assert (i <= String.length (lx_b l))%nat as L.
  { apply Nat.lt_le_incl, (drop_inside _ _ _ E). by destruct (metric_text s). }
  rewrite (slice_at i (metric_text s) (String " " rest)) by done. cbn [mbind option_bind]. rewrite Os.
  replace (i + String.length (t_name s) - i)%nat with (0 + String.length (t_name s))%nat by lia.
  rewrite (slice_at 0 (t_name s) (labels_text (t_labels s))); [|done|lia]. cbn [mbind option_bind].
  rewrite (metric_labels_marks _ i _ "{" _ (match t_labels s with [] => "" | _ => "}" end)); [|lia|].
  - cbn [mbind option_bind fst snd]. by rewrite Ts, Vs.
  - replace (i + String.length (t_name s) + 1 - 1 - i)%nat with (String.length (t_name s)) by lia.
    unfold metric_text. rewrite str_drop_length_app. by destruct (t_labels s).
Qed.

(** A sample that survives: the names are valid, the values of the labels are
    UTF-8 without null bytes, the number reads back from its text and the time
    is not negative. *)
Definition line_ok (s : text_sample) : Prop :=
  IsValidMetricName (t_name s) = true /\ forallb pair_ok (t_labels s) = true /\
  ParseFloat_signed (Sprint_float (t_value s)) = Ok (t_value s) /\ time_ok (t_time s).

(** The lexer in front of a line. *)
Definition fresh (l : lexer) : Prop :=
  lx_state l = lstateInit /\ offsets l = [] /\ mstart l = lx_i l /\ lx_ts l = None /\ quiet (lx_err l).

(** The lexer behind a line, with the text that is left. *)
Definition behind_line (l : lexer) (rest : string) : Prop :=
  looks l rest /\ nextMstart l = lx_i l /\ quiet (lx_err l).

Lemma first_labels ls s :
  first (labels_text ls +:+ String " " s) <> 0 /\ name_byte (first (labels_text ls +:+ String " " s)) = false.
Proof. by destruct ls as [|[n v] ls]. Qed.

Lemma lex_line l s rest :
  fresh l -> looks l (line s +:+ rest) -> line_ok s -> no_newline (first rest) = true ->
  exists l', Lexes l 1 l' /\ behind_line l' rest /\ sample_of l' = Some (entry s).
Proof.
  intros (St & Of & Ms & Ts & Q) E (Vn & Vl & Vv & Vt) N.
  assert (Ed : str_drop (lx_i l) (lx_b l) =
               metric_text s +:+ String " " (Sprint_float (t_value s) +:+ (time_text (t_time s) +:+ String "010" rest))).
  { unfold looks in E. rewrite E. unfold line, newline.
    by repeat first [rewrite str_app_assoc|rewrite str_app_cons|rewrite str_app_nil_l]. }
  set (after := time_text (t_time s) +:+ String "010" rest) in *. set (num := Sprint_float (t_value s)) in *.
  destruct (ParseFloat_signed_num _ _ Vv) as [Nn Dn].
  assert (gap (first after) = true) as Ga by (unfold after; by destruct (t_time s)).
  assert (num_byte (first (num +:+ after)) = true) as Fn.
  { destruct num as [|c w]; [done|]. by apply andb_true_iff in Dn as [? _]. }
  pose proof Ed as E0. unfold metric_text in E0. rewrite str_app_assoc in E0.
  set (l1 := set_mend (lx_i l + String.length (t_name s)) (adv l (String.length (t_name s)) lstateName [lx_i l + String.length (t_name s)]%nat)).
  assert (looks l1 (labels_text (t_labels s) +:+ String " " (num +:+ after))) as E1 by apply (looks_fwd _ _ l E0).
  set (k := String.length (labels_text (t_labels s))).
  set (l2 := set_vstart (lx_i l1 + k + 1) (set_mend (lx_i l1 + k) (adv l1 (k + 1) lstateValue (all_marks (lx_i l1 + 1) (t_labels s))))).
  assert (looks l2 (num +:+ after)) as E2.
  { assert (looks (fwd 1 (fwd k l1)) (num +:+ after)) as X by (eapply looks_fwd1, looks_fwd, E1). by rewrite fwd_fwd in X. }
  assert (vstart l2 = lx_i l2) as V2 by (cbn; lia).
  assert (quiet (lx_err l2)) as Q2 by (apply (quiet_fwd _ l1), (quiet_fwd _ l), Q).
  destruct (lex_value l2 num after (t_value s) eq_refl V2 E2 Vv Ga Q2) as (e & Qe & K3). revert K3.
  set (l3 := set_state lstateTimestamp _). intros K3.
  assert (looks l3 after) as E3 by apply (looks_fwd _ _ l2 E2).
  destruct (lex_time l3 (t_time s) rest eq_refl Ts E3 Vt N) as (ts & K4). cbv zeta in K4. revert K4.
  set (j := (String.length (time_text (t_time s)) + 1)%nat). set (l4 := set_nextMstart _ _). intros K4.
  exists l4. split; [|split].
  - eapply lex_name; [done|exact E0|done|apply first_labels|apply first_labels|]. fold l1.
    by eapply (lex_labels_text l1); [..|by apply K3].
  - split; [|split; [done|apply quiet_fwd, Qe]].
    assert (looks (fwd 1 (fwd (String.length (time_text (t_time s))) l3)) rest) as X by (eapply looks_fwd1, looks_fwd, E3).
    by rewrite fwd_fwd in X.
  - eapply (sample_of_line l4 (lx_i l) s); [exact Ed|exact Ms| | |done|done].
    + cbn. unfold metric_text. rewrite str_length_app. fold k. lia.
    + cbn. by rewrite Of.
Qed.

(** * A body *)

(** The bytes of a comment. *)
Definition comment_byte (c : Z) : bool := negb (c =? 0) && negb (c =? 10) && negb (c =? 13).

(** A body is made of comments and samples. *)
Inductive chunk := Comment (text : string) | Sample (s : text_sample).

Definition chunk_text (c : chunk) : string := match c with Comment w => String "#" (w +:+ newline) | Sample s => line s end.
Fixpoint body_text (cs : list chunk) : string := match cs with [] => "" | c :: cs => chunk_text c +:+ body_text cs end.

Definition chunk_ok (c : chunk) : Prop := match c with Comment w => str_forall comment_byte w = true | Sample s => line_ok s end.
Definition entries (cs : list chunk) : list pentry := omap (fun c => match c with Comment _ => None | Sample s => Some (entry s) end) cs.

Lemma first_body cs : Forall chunk_ok cs -> no_newline (first (body_text cs)) = true.
Proof.
  intros F. destruct F as [|c cs C _]; [done|]. destruct c as [w|s]; [done|]. destruct C as (V & _). unfold body_text, chunk_text, line, metric_text.
  destruct (t_name s) as [|a n]; [done|]. cbn [IsValidMetricName] in V. apply andb_true_iff in V as [V _].
  pose proof (for_bytes (fun c => implb (metric_char true c) (no_newline c)) (rune a) ltac:(vm_compute; reflexivity) (rune_range a)) as B.
  cbn beta in B. rewrite V in B. exact B.
Qed.

Lemma lex_comment l w s t l' :
  lx_state l = lstateInit -> looks l (chunk_text (Comment w) +:+ s) -> str_forall comment_byte w = true ->
  (let k := String.length (chunk_text (Comment w)) in Lexes (set_mstart (lx_i l + k) (fwd k l)) t l') -> Lexes l t l'.
Proof.
  intros St E C K. cbv zeta in K. unfold chunk_text, newline in *. rewrite str_app_cons, str_app_assoc, str_app_cons, str_app_nil_l in E.
  pose proof (looks_fwd1 _ _ _ E) as E1. pose proof (looks_fwd _ _ _ E1) as E2. pose proof (looks_fwd1 _ _ _ E2) as E3.
  assert (String.length (String "#" (w +:+ String "010" "")) = 1 + String.length w + 1)%nat as Lk
    by (cbn [String.length]; rewrite str_length_app; cbn; lia).
  rewrite Lk in K. eapply (Lexes_token l 2 (fwd (1 + String.length w + 1) l)); [by eapply looks_in| |done|done|exact K].
  rewrite St. rewrite <- !fwd_fwd. apply (Runs_go 1 4 l _ _ (chr "#") _ _ E); [by rewrite St|vm_compute; reflexivity|done|].
  apply (Runs_loop 4 _ w (String "010" s) comment_byte); [done|done|done|vm_compute; reflexivity|done|].
  apply (Runs_go 4 5 _ _ _ (fun c => c =? 10) _ _ E2); [intros X; change (in_value (lx_state l) = true) in X; by rewrite St in X|vm_compute; reflexivity|done|].
  by apply (Runs_stop 5 _ s any_byte 2 E3); [vm_compute; reflexivity|].
Qed.

(** Behind the last sample the lexer finds the end of the input. *)
Lemma lex_end l : lx_state l = lstateInit -> lx_i l = len l -> exists l', Lexes l eof l' /\ lx_err l' = Some EOF.
Proof.
  intros St I. exists (set_err (Some EOF) (set_i (S (lx_i l)) l)). split; [|done].
  apply (Lexes_end l 1 (set_err (Some EOF) (set_i (S (lx_i l)) l))); [lia| |done]. rewrite St. exists 1%nat.
  assert (forall i, (len l <= i)%nat -> byte_at i (lx_b l) = 0) as B.
  { intros i L. unfold byte_at. by rewrite (proj2 (get_None i _)). }
  unfold cur. cbn [lx_i lx_b set_i set_err]. rewrite !B by lia. cbn [run delta start]. change (delta 1 0) with (yystate 2).
  unfold next. cbn [next_loop lx_i lx_b set_i]. rewrite (proj2 (get_None (S (lx_i l)) _)) by (unfold len in I; lia). done.
Qed.

(** The lexer skips the comments in front of the next sample. *)
Lemma lex_body cs l :
  fresh l -> looks l (body_text cs) -> (lx_i l <= len l)%nat -> Forall chunk_ok cs ->
  (entries cs = [] /\ exists l', Lexes l eof l' /\ quiet (lx_err l')) \/
  (exists l' s cs', Lexes l 1 l' /\ behind_line l' (body_text cs') /\ sample_of l' = Some (entry s) /\
     entries cs = entry s :: entries cs' /\ Forall chunk_ok cs' /\ (length cs' < length cs)%nat).
Proof.
  intros F E I O. revert l F E I. induction O as [|c cs Oc O IH]; intros l F E I.
  - left. split; [done|]. destruct (lex_end l) as (l' & L & Q); [apply F| |by exists l'; split; [|right]].
    pose proof (str_length_drop (lx_i l) (lx_b l)) as D. unfold looks in E. rewrite E in D. cbn in D. unfold len in *. lia.
  - cbn [body_text] in E. destruct c as [w|s]; cbn [chunk_ok] in Oc.
    + set (k := String.length (chunk_text (Comment w))). pose proof (looks_fwd _ _ _ E) as E1. fold k in E1.
      assert (fresh (set_mstart (lx_i l + k) (fwd k l))) as F1.
      { destruct F as (? & ? & ? & ? & ?). repeat split; try done. by apply quiet_fwd. }
      assert (forall t l', Lexes (set_mstart (lx_i l + k) (fwd k l)) t l' -> Lexes l t l') as K
        by (intros t l'; apply (lex_comment l w (body_text cs) t l'); [apply F|done..]).
      assert (lx_i l + k <= len l)%nat as I1.
      { pose proof (str_length_drop (lx_i l) (lx_b l)) as D. unfold looks in E. rewrite E, str_length_app in D. fold k in D. unfold len in *. lia. }
      destruct (IH _ F1 E1 I1) as [(En & l' & L & Q)|(l' & s & cs' & L & B & S & En & O' & Lc)].
      * left. split; [done|]. exists l'. auto.
      * right. exists l', s, cs'. cbn [length]. split; [auto|]. repeat (split; [done|]). lia.
    + right. destruct (lex_line l s (body_text cs) F E Oc (first_body cs O)) as (l' & L & B & S).
      exists l', s, cs. repeat (split; [done|]). cbn. lia.
Qed.

(** Between tokens the lexer is where a line starts. *)
Lemma parse_body f cs l :
  behind l -> behind_line l (body_text cs) -> Forall chunk_ok cs -> (length cs < f)%nat ->
  parse_loop f l = Some (entries cs, None).
Proof.
  revert cs l. induction f as [|f IH]; intros cs l B (E & Nm & Q) O Lf; [lia|]. cbn [parse_loop]. unfold Next.
  destruct (Lex_ok l B) as (t & l2 & Lx & (B2 & Eb & T) & _). pose proof Lx as Lx2. rewrite Lx.
  assert (forall l, quiet (lx_err l) -> textparse.Err l = None) as Qe by by intros m [X|X]; unfold Err; rewrite X.
  unfold Lex in Lx2. cbn [lx_i lx_b set_state] in Lx2. destruct (String.get (lx_i l) (lx_b l)) as [c|] eqn:G.
  - revert Lx2. set (l1 := set_offsets _ _). intros Lx2.
    assert (fresh l1) as F by (repeat split; done). assert (looks l1 (body_text cs)) as E1 by exact E.
    assert (rune c = cur l1) as Ec by (unfold cur, byte_at; cbn; by rewrite G). rewrite Ec in Lx2.
    assert (lx_i l1 <= len l1)%nat as I1.
    { change (lx_i l <= String.length (lx_b l))%nat. apply Nat.nlt_ge. intros X.
      apply Nat.lt_le_incl, get_None in X. congruence. }
    destruct (lex_body cs l1 F E1 I1 O) as [(En & l' & [g L] & Q')|(l' & s & cs' & [g L] & B' & S & En & O' & Lc)].
    + pose proof (lex_loop_unique _ _ _ _ _ _ Lx2 L) as [= -> ->]. cbn. by rewrite En, Qe.
    + pose proof (lex_loop_unique _ _ _ _ _ _ Lx2 L) as [= -> ->]. cbn. rewrite S. cbn.
      rewrite (IH cs' l'); [|done..|lia]. by rewrite En.
  - injection Lx2 as <- <-. cbn. rewrite Qe by done.
    apply get_None in G. unfold looks in E. rewrite str_drop_all in E by done.
    destruct cs as [|[w|s] cs]; [done|done|]. exfalso. cbn in E. unfold line, metric_text in E.
    apply Forall_cons in O as [(V & _) _]. by destruct (t_name s).
Qed.

Lemma length_body cs : Forall chunk_ok cs -> (length cs <= String.length (body_text cs))%nat.
Proof.
  induction 1 as [|c cs C _ IH]; cbn [length body_text]; [lia|]. rewrite str_length_app.
  assert (0 < String.length (chunk_text c))%nat; [|lia]. destruct c as [w|s]; [cbn; lia|].
  destruct C as (V & _). unfold chunk_text, line, metric_text. destruct (t_name s); [done|]. rewrite !str_app_cons. cbn [String.length]. lia.
Qed.

Lemma textparse_body cs : Forall chunk_ok cs -> read_samples (body_text cs) = Some (entries cs, None).
Proof.
  intros O. unfold read_samples. apply parse_body; [unfold behind; cbn; lia| |done|].
  - split; [done|]. split; [done|by left].
  - pose proof (length_body cs O). lia.
Qed.
End line.

(** * Families *)

Section families.
Context `{UT : UnicodeTables}.

(** Names, values and times that a line of the format can carry. *)
Definition label_ok (nv : string * string) : bool := IsValid nv.1 && ValidString nv.2 && no_nul nv.2.
Definition writable (s : text_sample) : Prop :=
  IsValidMetricName (t_name s) = true /\ forallb label_ok (t_labels s) = true /\
  ParseFloat_signed (Sprint_float (t_value s)) = Ok (t_value s) /\ time_ok (t_time s).

(** A help text without null bytes and carriage returns. *)
Definition help_ok (h : option string) : bool :=
  match h with Some h => str_forall (fun c => negb (c =? 0) && negb (c =? 13)) h | None => true end.

(** A family that [ss] are the samples of, and that can be written. *)
Definition family_ok (m : dto.MetricFamily) (ss : list text_sample) : Prop :=
  dto.MetricFamily_Metric m <> [] /\ IsValidMetricName (dto.get_string (dto.MetricFamily_Name m)) = true /\
  help_ok (dto.MetricFamily_Help m) = true /\ family_samples m = Some ss /\ Forall writable ss.

Lemma writable_line s : writable s -> line_ok s.
Proof.
  intros (? & L & ? & ?). repeat split; try done. apply forallb_forall. intros nv I. rewrite forallb_forall in L.
  specialize (L nv I). unfold label_ok in L. unfold pair_ok.
  apply andb_true_iff in L as [[-> V]%andb_true_iff ->]. by rewrite ValidString_esc.
Qed.

Definition help_comment (name help : string) : string := " HELP " +:+ name +:+ " " +:+ escapeString help false.
Definition type_comment (name : string) (t : dto.MetricType) : string := " TYPE " +:+ name +:+ " " +:+ ToLower (dto.MetricType_String t).

Definition family_chunks (m : dto.MetricFamily) (ss : list text_sample) : list chunk :=
  let name := dto.get_string (dto.MetricFamily_Name m) in
  match dto.MetricFamily_Help m with Some h => [Comment (help_comment name h)] | None => [] end ++
  Comment (type_comment name (dto.GetType m)) :: map Sample ss.

Lemma body_text_app a b : body_text (a ++ b) = body_text a +:+ body_text b.
Proof. induction a as [|c a IH]; [done|]. cbn [body_text app]. by rewrite IH, str_app_assoc. Qed.

Lemma body_text_samples ss : body_text (map Sample ss) = lines ss.
Proof. induction ss as [|s ss IH]; [done|]. cbn [map body_text lines chunk_text]. by rewrite IH. Qed.

Lemma family_chunks_text m ss : body_text (family_chunks m ss) = family_text m ss.
Proof.
  unfold family_chunks, family_text. rewrite body_text_app. cbn [body_text chunk_text]. rewrite body_text_samples.
  unfold help_line, type_line, help_comment, type_comment.
  destruct (dto.MetricFamily_Help m) as [h|]; cbn [body_text chunk_text]; rewrite ?str_app_nil_r;
    by repeat first [rewrite str_app_assoc|rewrite str_app_cons|rewrite str_app_nil_l].
Qed.

Lemma name_comment n : IsValidMetricName n = true -> str_forall comment_byte n = true.
Proof.
  destruct n as [|c n]; [done|]. intros [V1 V2]%andb_true_iff. cbn [str_forall].
  assert (forall f c, 0 <= c <= 255 -> metric_char f c = true -> comment_byte c = true) as M.
  { intros f d D X. pose proof (for_bytes (fun c => implb (metric_char f c) (comment_byte c)) d) as B. cbn beta in B.
    rewrite X in B. apply B; [destruct f; vm_compute; reflexivity|done]. }
  rewrite (M true _ (rune_range c) V1). cbn [andb]. induction n as [|d n IH]; [done|].
  cbn [str_forall] in *. apply andb_true_iff in V2 as [V2 V3]. by rewrite (M false _ (rune_range d) V2), IH.
Qed.

Lemma help_comment_ok h : help_ok (Some h) = true -> str_forall comment_byte (escapeString h false) = true.
Proof.
  unfold help_ok. induction h as [|c h IH]; [done|]. intros [H1 H2]%andb_true_iff. apply andb_true_iff in H1 as [H0 H13].
  cbn [escapeString]. rewrite str_forall_app, IH, andb_true_r by done. unfold escape_byte. rewrite andb_false_r.
  destruct (rune c =? rune "\"); [done|]. destruct (rune c =? 10) eqn:E; [done|]. cbn [str_forall]. unfold comment_byte. by rewrite H0, E, H13.
Qed.

Lemma family_chunks_ok m ss : family_ok m ss -> Forall chunk_ok (family_chunks m ss).
Proof.
  intros (M & N & H & S & W). pose proof (name_comment _ N) as Nc. unfold family_chunks. apply Forall_app. split; [|constructor].
  - destruct (dto.MetricFamily_Help m) as [h|]; constructor; [|constructor]. cbn [chunk_ok]. unfold help_comment.
    rewrite !str_forall_app, Nc, (help_comment_ok h) by done. done.
  - cbn [chunk_ok]. unfold type_comment. rewrite !str_forall_app, Nc. unfold family_samples in S.
    destruct (dto.MetricFamily_Metric m); [done|]. destruct (dto.GetType m); try done.
  - apply Forall_forall. intros c (s & -> & I)%list_elem_of_fmap. rewrite Forall_forall in W. apply (writable_line s), W, I.
Qed.

Lemma entries_app a b : entries (a ++ b) = entries a ++ entries b.
Proof. apply omap_app. Qed.

Lemma family_entries m ss : entries (family_chunks m ss) = map entry ss.
Proof.
  unfold family_chunks. rewrite entries_app.
  assert (entries (map Sample ss) = map entry ss) as E by (induction ss as [|s ss IH]; [done|]; cbn; by f_equal).
  change (entries (Comment _ :: map Sample ss)) with (entries (map Sample ss)). rewrite E. by destruct (dto.MetricFamily_Help m).
Qed.

(** C4: what the client library writes for metric families, one after the
    other, the server's parser reads back: all their samples, in order, with
    their names, label sets, times and values, and nothing else.  The families
    have a valid name and at least one metric, each metric having the field of
    the family's type (counter, gauge, untyped, summary or histogram); help
    texts have no null byte and no carriage return; label names are valid, and
    label values are UTF-8 without null bytes; a metric has no time, or one from
    0 to the last that 63 bits hold; and the printed form of each value parses
    as that value. *)
Theorem exposition_round_trip (ms : list dto.MetricFamily) (sss : list (list text_sample)) :
  Forall2 family_ok ms sss ->
  exists text, for_each MetricFamilyToText ms "" = (String.length text, None, text) /\
    read_samples text = Some (map entry (concat sss), None).
Proof.
  intros F. assert (exists cs, Forall chunk_ok cs /\ writes (for_each MetricFamilyToText ms) (body_text cs) /\
    entries cs = map entry (concat sss)) as (cs & C & W & E).
  { induction F as [|m ss ms sss Fm _ (cs & C & W & E)]; [by exists []; split; [|split; [apply writes_done|]]|].
    exists (family_chunks m ss ++ cs). split; [apply Forall_app; split; [by apply family_chunks_ok|done]|]. split.
    - rewrite body_text_app, family_chunks_text. cbn [for_each]. apply writes_then; [|done].
      destruct Fm as (M & N & H & S & _). apply writes_family; [done| |done]. intros X. by rewrite X in N.
    - rewrite entries_app, family_entries, E. cbn. by rewrite map_app. }
  exists (body_text cs). split; [by rewrite W, str_app_nil_l|]. rewrite <- E. by apply textparse_body.
Qed.
End families.

(** * Concrete families *)

#[local] Instance ascii_tables : UnicodeTables := {| is_print_high _ := false |}.

Definition label_pair (n v : string) : dto.LabelPair := dto.mkLabelPair (Some n) (Some v).

(** A counter with a help text and a label that both have to be escaped. *)
Definition requests : dto.MetricFamily :=
  dto.mkMetricFamily (Some "requests_total") (Some ("all of \the\" +:+ newline +:+ "requests")) (Some dto.COUNTER)
    [dto.mkMetric [label_pair "path" ("C:\new" +:+ String "034" newline); label_pair "code" "200"]
       None (Some (dto.mkCounter (Some (of_Z 1027)))) None None None (Some 1395066363000);
     dto.mkMetric [] None (Some (dto.mkCounter None)) None None None None].

(** A summary that has observed nothing, and a histogram without its last bucket. *)
Definition sizes : dto.MetricFamily :=
  dto.mkMetricFamily (Some "sizes") None (Some dto.SUMMARY)
    [dto.mkMetric [] None None
       (Some (dto.mkSummary None (Some NaN) [dto.mkQuantile (Some (of_decimal false 5 (-1))) (Some NaN)])) None None None].
Definition delays : dto.MetricFamily :=
  dto.mkMetricFamily (Some "delays") None (Some dto.HISTOGRAM)
    [dto.mkMetric [label_pair "host" "a"] None None None None
       (Some (dto.mkHistogram (Some 3) (Some (of_decimal false 25 (-2))) [dto.mkBucket (Some 2) (Some (of_decimal false 1 (-1)))])) None].

Definition samples_in (m : dto.MetricFamily) : list text_sample := default [] (family_samples m).

Instance time_ok_dec t : Decision (time_ok t).
Proof. destruct t; apply _. Defined.
Instance writable_dec s : Decision (writable s).
Proof. unfold writable. apply _. Defined.
Instance text_sample_eq_dec : EqDecision text_sample.
Proof. solve_decision. Defined.
Instance not_nil_dec {A} (l : list A) : Decision (l <> []).
Proof. destruct l; [right; intros X; by apply X|left; done]. Defined.
Instance family_ok_dec m ss : Decision (family_ok m ss).
Proof. unfold family_ok. apply _. Defined.

Lemma exposition_round_trip_witness :
  exists text, for_each MetricFamilyToText [requests; sizes; delays] "" = (String.length text, None, text) /\
    read_samples text = Some (map entry (concat [samples_in requests; samples_in sizes; samples_in delays]), None).
Proof.
  apply exposition_round_trip. constructor; [apply (bool_decide_unpack _); vm_compute; exact I|].
  constructor; [apply (bool_decide_unpack _); vm_compute; exact I|].
  constructor; [apply (bool_decide_unpack _); vm_compute; exact I|constructor].
Defined.
