(* ===== verification/Queue.v ===== *)
(** storage/remote: the sending queue of remote write (queue_manager.go,
    ewma.go) as a system of steps, and the guarantees of its sharding. *)

From Stdlib Require Import SpecFloat.
From S2P Require Import Prelude GoString GoFmt Float Duration Labels LabelsFacts Relabel MapRelabel.

(** * Rates (ewma.go) *)

Record ewmaRate := mkEwma { newEvents : Z; alpha : float64; interval : Duration; lastRate : float64; init : bool }.

Definition newEWMARate (a : float64) (i : Duration) : ewmaRate := mkEwma 0 a i (of_Z 0) false.
Definition rate (r : ewmaRate) : float64 := lastRate r.

(** [Duration.Seconds] *)
Definition Seconds (d : Duration) : float64 :=
  fadd (of_Z (Z.quot d Second)) (fdiv (of_Z (Z.rem d Second)) (of_Z 1000000000)).

Definition tick (r : ewmaRate) : ewmaRate :=
  let instantRate := fdiv (of_Z (newEvents r)) (Seconds (interval r)) in
  mkEwma 0 (alpha r) (interval r)
    (if init r then fadd (lastRate r) (fmul (alpha r) (fsub instantRate (lastRate r))) else instantRate) true.

Definition incr (n : Z) (r : ewmaRate) : ewmaRate :=
  mkEwma (i64 (newEvents r + n)) (alpha r) (interval r) (lastRate r) (init r).

(** * Fingerprints (model/fnv.go, model/signature.go) *)

Definition offset64 : Z := 14695981039346656037.
Definition prime64 : Z := 1099511628211.
Definition hashAddByte (h b : Z) : Z := u64 (Z.lxor h b * prime64).
Fixpoint hashAdd (h : Z) (s : string) : Z :=
  match s with EmptyString => h | String c s' => hashAdd (hashAddByte h (rune c)) s' end.
Definition SeparatorByte : Z := 255.

Definition label_sum (kv : string * string) : Z :=
  hashAdd (hashAddByte (hashAdd offset64 kv.1) SeparatorByte) kv.2.

(** The loop over a map, in the order [kvs]. *)
Definition fingerprint_of (kvs : list (string * string)) : Z :=
  match kvs with [] => offset64 | _ => foldl (fun result kv => Z.lxor result (label_sum kv)) 0 kvs end.
Definition FastFingerprint (m : LabelSet) : Z := fingerprint_of (map_to_list m).

(** * Configuration and samples *)

(** config.QueueConfig *)
Record QueueConfig := mkQueueConfig {
  Capacity : Z; MaxShards : Z; MaxSamplesPerSend : Z; BatchSendDeadline : Duration;
  MaxRetries : Z; MinBackoff : Duration; MaxBackoff : Duration
}.

Definition DefaultQueueConfig : QueueConfig :=
  mkQueueConfig (100 * 1000) 1000 100 (5 * Second) 10 (30 * Millisecond) (100 * Millisecond).

(** model.Sample *)
Record RSample := mkRSample { r_Metric : LabelSet; r_Value : float64; r_Timestamp : Z }.

Definition fp (s : RSample) : Z := FastFingerprint (r_Metric s).

(** * Sending with retries *)

(** What [client.Store] answers: no error, an error that can be retried
    ([recoverableError]), or another one. *)
Inductive store_outcome := Stored | Recoverable | Unrecoverable.

Record send_result := mkSend { calls : nat; sleeps : list Duration; delivered : bool }.

(** The loop of [sendSamplesWithBackoff]: [n] retries are left, and the
    client has been called [k] times. *)
Fixpoint backoff_loop (cfg : QueueConfig) (store : nat -> store_outcome) (n k : nat) (backoff : Duration) : send_result :=
  match n with
  | O => mkSend k [] false
  | S n' =>
    match store k with
    | Stored => mkSend (S k) [] true
    | Unrecoverable => mkSend (S k) [] false
    | Recoverable =>
      let next := i64 (backoff * 2) in
      let next := if MaxBackoff cfg <? next then MaxBackoff cfg else next in
      let r := backoff_loop cfg store n' (S k) next in
      mkSend (calls r) (backoff :: sleeps r) (delivered r)
    end
  end.

Definition sendSamplesWithBackoff (cfg : QueueConfig) (store : nat -> store_outcome) : send_result :=
  backoff_loop cfg store (Z.to_nat (MaxRetries cfg)) 0 (MinBackoff cfg).

(** * Shards *)

(** A queue (the channel's buffer), the samples its goroutine holds, and
    whether the goroutine has returned. *)
Record shard := mkShard { queue : list RSample; pending : list RSample; exited : bool }.

(** [closed]: the channels are closed. *)
Record shards := mkShards { queues : list shard; started : bool; closed : bool }.

Definition newShards (n : Z) : shards :=
  mkShards (repeat (mkShard [] [] false) (Z.to_nat n)) false false.

(** [runShard], one branch of its [select] at a time: the shard afterwards
    and the batch it sends, if any. *)
Definition receive (cfg : QueueConfig) (sh : shard) : option (shard * option (list RSample)) :=
  match queue sh with
  | [] => None
  | s :: q =>
    let p := pending sh ++ [s] in
    if MaxSamplesPerSend cfg <=? Z.of_nat (length p) then
      let n := Z.to_nat (MaxSamplesPerSend cfg) in Some (mkShard q (drop n p) (exited sh), Some (take n p))
    else Some (mkShard q p (exited sh), None)
  end.

Definition flush (sh : shard) : option (list RSample) :=
  if (0 <? length (pending sh))%nat then Some (pending sh) else None.

Definition deadline (sh : shard) : option (shard * option (list RSample)) :=
  Some (mkShard (queue sh) [] (exited sh), flush sh).

(** The channel is closed and empty: flush and return. *)
Definition finish (sh : shard) : option (shard * option (list RSample)) :=
  match queue sh with
  | [] => Some (mkShard [] [] true, flush sh)
  | _ => None
  end.

(** * The manager *)

(** What [reshardLoop] is doing: waiting for a number, holding one it
    received, or in the middle of [reshard], before and after closing the old
    channels. *)
Inductive reshard_state :=
| Waiting | Received (n : Z) | Swapped (old : shards) | Stopping (old : shards).

(** The last three fields are not in the code: the samples put in queues and
    those dropped, and the batches sent with whether the storage took them. *)
Record QueueManager := mkQM {
  cur : shards; reshard : reshard_state; numShards : Z;
  samplesIn : ewmaRate; samplesOut : ewmaRate; samplesOutDuration : ewmaRate; integralAccumulator : float64;
  accepted : list RSample; dropped : list RSample; sent : list (list RSample * bool)
}.

Definition ewmaWeight : float64 := of_decimal false 2 (-1).
Definition shardUpdateDuration : Duration := 10 * Second.

Definition NewQueueManager : QueueManager :=
  let r := newEWMARate ewmaWeight shardUpdateDuration in
  mkQM (newShards 1) Waiting 1 r r r (of_Z 0) [] [] [].

Definition set_cur (f : shards -> shards) (t : QueueManager) : QueueManager :=
  mkQM (f (cur t)) (reshard t) (numShards t) (samplesIn t) (samplesOut t) (samplesOutDuration t)
    (integralAccumulator t) (accepted t) (dropped t) (sent t).
Definition set_reshard (r : reshard_state) (t : QueueManager) : QueueManager :=
  mkQM (cur t) r (numShards t) (samplesIn t) (samplesOut t) (samplesOutDuration t)
    (integralAccumulator t) (accepted t) (dropped t) (sent t).

(** [sendSamples]; it took the time [d]. *)
Definition sendSamples (cfg : QueueConfig) (store : nat -> store_outcome) (d : Duration)
    (batch : list RSample) (t : QueueManager) : QueueManager :=
  mkQM (cur t) (reshard t) (numShards t) (samplesIn t)
    (incr (Z.of_nat (length batch)) (samplesOut t)) (incr d (samplesOutDuration t)) (integralAccumulator t)
    (accepted t) (dropped t) (sent t ++ [(batch, delivered (sendSamplesWithBackoff cfg store))]).

(** * The number of shards *)

(** [math.Ceil] as an integer; [None] for infinities and NaN. *)
Definition ceil (f : float64) : option Z :=
  match num f with
  | S754_zero _ => Some 0
  | S754_finite s m e =>
    let v := if s then Z.neg m else Z.pos m in
    Some (if 0 <=? e then v * 2 ^ e else - ((- v) / 2 ^ (- e)))
  | _ => None
  end.

Section manager.
Context `{RE : Regexp} `{RR : !RegexpReplace} `{M5 : MD5}.
Variable range_map : LabelSet -> list (string * string).

(** What converting a float that no [int] represents gives: the language
    leaves it to the implementation. *)
Variable int_overflow : float64 -> Z.

Definition float_to_int (f : float64) : Z :=
  match ceil f with
  | Some z => if (min_int64 <=? z) && (z <=? max_int64) then z else int_overflow f
  | None => int_overflow f
  end.

Definition clamp_shards (cfg : QueueConfig) (n : Z) : Z :=
  if MaxShards cfg <? n then MaxShards cfg else if n <? 1 then 1 else n.

(** The number of shards that the rates ask for, [None] when there is no
    reason to change. *)
Definition desired_shards (cfg : QueueConfig) (t : QueueManager) : option Z :=
  let si := rate (samplesIn t) in
  let so := rate (samplesOut t) in
  let samplesPending := fsub si so in
  if fle so (of_Z 0) then None
  else
    let timePerSample := fdiv (rate (samplesOutDuration t)) so in
    let desired := fdiv (fmul timePerSample (fadd (fadd si samplesPending) (integralAccumulator t))) (of_Z Second) in
    let lowerBound := fmul (of_Z (numShards t)) (of_decimal false 7 (-1)) in
    let upperBound := fmul (of_Z (numShards t)) (of_decimal false 13 (-1)) in
    if fle lowerBound desired && fle desired upperBound then None
    else
      let n := clamp_shards cfg (float_to_int desired) in
      if n =? numShards t then None else Some n.

(** [calculateDesiredShards]; [ready] is whether [reshardLoop] receives. *)
Definition calculateDesiredShards (cfg : QueueConfig) (ready : bool) (t : QueueManager) : QueueManager :=
  let si := tick (samplesIn t) in
  let so := tick (samplesOut t) in
  let sd := tick (samplesOutDuration t) in
  let samplesPending := fsub (rate si) (rate so) in
  let ia := fadd (integralAccumulator t) (fmul samplesPending (of_decimal false 1 (-1))) in
  let t' := mkQM (cur t) (reshard t) (numShards t) si so sd ia (accepted t) (dropped t) (sent t) in
  match desired_shards cfg t' with
  | Some n => if ready then mkQM (cur t) (Received n) n si so sd ia (accepted t) (dropped t) (sent t) else t'
  | None => t'
  end.

(** * The steps of the system *)

(** One step of the manager's goroutines or of its callers. *)
Inductive which := Cur | Old.
Inductive event :=
| Append (s : RSample)
| Start
| Tick (ready : bool)
| Swap | CloseOld | StartNew
| Receive (w : which) (i : nat) (d : Duration) (store : nat -> store_outcome)
| Deadline (w : which) (i : nat) (d : Duration) (store : nat -> store_outcome)
| Exit (w : which) (i : nat) (d : Duration) (store : nat -> store_outcome)
| Stop.

(** [Disabled]: the step cannot happen in this state. *)
Inductive outcome := Next (t : QueueManager) | Disabled | Panic.

Definition mapi_shard (i : nat) (sh : shard) (g : shards) : shards :=
  mkShards (<[i := sh]> (queues g)) (started g) (closed g).

(** [enqueue]: the remainder of the fingerprint chooses the shard; a full
    queue drops the sample.  With no shards the division panics, and so does
    sending on a closed channel. *)
Definition enqueue (cfg : QueueConfig) (s : RSample) (t : QueueManager) : outcome :=
  let t := mkQM (cur t) (reshard t) (numShards t) (incr 1 (samplesIn t)) (samplesOut t) (samplesOutDuration t)
             (integralAccumulator t) (accepted t) (dropped t) (sent t) in
  match Z.of_nat (length (queues (cur t))) with
  | 0 => Panic
  | n =>
    let i := Z.to_nat (fp s mod n) in
    match queues (cur t) !! i with
    | None => Panic
    | Some sh =>
      if closed (cur t) then Panic
      else if Z.of_nat (length (queue sh)) <? Capacity cfg
      then Next (mkQM (mapi_shard i (mkShard (queue sh ++ [s]) (pending sh) (exited sh)) (cur t)) (reshard t) (numShards t)
                  (samplesIn t) (samplesOut t) (samplesOutDuration t) (integralAccumulator t)
                  (accepted t ++ [s]) (dropped t) (sent t))
      else Next (mkQM (cur t) (reshard t) (numShards t) (samplesIn t) (samplesOut t) (samplesOutDuration t)
                  (integralAccumulator t) (accepted t) (dropped t ++ [s]) (sent t))
    end
  end.

(** [Append]: external labels that the metric lacks, then relabelling. *)
Definition append (cfg : QueueConfig) (externalLabels : LabelSet) (relabelConfigs : list RelabelConfig)
    (s : RSample) (t : QueueManager) : outcome :=
  match process_set range_map (r_Metric s ∪ externalLabels) relabelConfigs with
  | None => Panic
  | Some None => Next t
  | Some (Some m) => enqueue cfg (mkRSample m (r_Value s) (r_Timestamp s)) t
  end.

Definition get_shards (w : which) (t : QueueManager) : option shards :=
  match w, reshard t with
  | Cur, _ => Some (cur t)
  | Old, (Swapped old | Stopping old) => Some old
  | Old, _ => None
  end.

Definition set_shards (w : which) (g : shards) (t : QueueManager) : QueueManager :=
  match w with
  | Cur => set_cur (fun _ => g) t
  | Old => set_reshard (match reshard t with Swapped _ => Swapped g | Stopping _ => Stopping g | r => r end) t
  end.

(** A step of the goroutine of shard [i]. *)
Definition shard_step (cfg : QueueConfig) (w : which) (i : nat) (d : Duration) (store : nat -> store_outcome)
    (op : shard -> option (shard * option (list RSample))) (t : QueueManager) : outcome :=
  match get_shards w t with
  | None => Disabled
  | Some g =>
    match queues g !! i with
    | None => Disabled
    | Some sh =>
      if negb (started g) || exited sh then Disabled
      else match op sh with
           | None => Disabled
           | Some (sh', ob) =>
             let t' := set_shards w (mapi_shard i sh' g) t in
             Next (match ob with Some b => sendSamples cfg store d b t' | None => t' end)
           end
    end
  end.

Definition is_closed (w : which) (t : QueueManager) : bool :=
  match get_shards w t with Some g => closed g | None => false end.

Definition close (g : shards) : shards := mkShards (queues g) (started g) true.
Definition start (g : shards) : shards := mkShards (queues g) true (closed g).

Definition running (t : QueueManager) : bool :=
  negb (closed (cur t)) && match reshard t with Waiting => started (cur t) | _ => true end.

Definition step (cfg : QueueConfig) (externalLabels : LabelSet) (relabelConfigs : list RelabelConfig)
    (ev : event) (t : QueueManager) : outcome :=
  match ev with
  | Append s => append cfg externalLabels relabelConfigs s t
  | Start => match reshard t with
             | Waiting => if started (cur t) || closed (cur t) then Disabled else Next (set_cur start t)
             | _ => Disabled
             end
  | Tick ready =>
    if running t
    then Next (calculateDesiredShards cfg
                 (ready && match reshard t with Waiting => true | _ => false end) t)
    else Disabled
  | Swap => match reshard t with
            | Received n => Next (set_reshard (Swapped (cur t)) (set_cur (fun _ => newShards n) t))
            | _ => Disabled
            end
  | CloseOld => match reshard t with Swapped old => Next (set_reshard (Stopping (close old)) t) | _ => Disabled end
  | StartNew => match reshard t with
                | Stopping old => if forallb exited (queues old) then Next (set_reshard Waiting (set_cur start t)) else Disabled
                | _ => Disabled
                end
  | Receive w i d store => shard_step cfg w i d store (receive cfg) t
  | Deadline w i d store => shard_step cfg w i d store deadline t
  | Exit w i d store => if is_closed w t then shard_step cfg w i d store finish t else Disabled
  | Stop => match reshard t with
            | Waiting => if started (cur t) && negb (closed (cur t)) then Next (set_cur close t) else Disabled
            | _ => Disabled
            end
  end.

Fixpoint run (cfg : QueueConfig) (externalLabels : LabelSet) (relabelConfigs : list RelabelConfig)
    (evs : list event) (t : QueueManager) : outcome :=
  match evs with
  | [] => Next t
  | ev :: evs' =>
    match step cfg externalLabels relabelConfigs ev t with
    | Next t' => run cfg externalLabels relabelConfigs evs' t'
    | o => o
    end
  end.
End manager.
