(* ===== verification/QueueFacts.v ===== *)
(** The guarantees of the remote write queue: batch sizes and queue bounds,
    the number of shards, retries, and the order of each series across
    resharding. *)

From Stdlib Require Import SpecFloat.
From S2P Require Import Prelude GoString GoFmt Float Duration Labels LabelsFacts Relabel MapRelabel Queue.

(** * Fingerprints do not depend on the order of iteration *)

Lemma fingerprint_perm kvs kvs' : kvs ≡ₚ kvs' -> fingerprint_of kvs = fingerprint_of kvs'.
Proof.
  intros P.
  assert (G : forall a, foldl (fun result kv => Z.lxor result (label_sum kv)) a kvs =
              foldl (fun result kv => Z.lxor result (label_sum kv)) a kvs').
  { induction P as [|x l l' P IH|x y l|l l' l'' P1 IH1 P2 IH2]; intros a; cbn; [done|done| |by rewrite IH1].
    f_equal. rewrite !Z.lxor_assoc. f_equal. apply Z.lxor_comm. }
  unfold fingerprint_of. rewrite G. apply Permutation_length in P. by destruct kvs, kvs'.
Qed.

(** * Retries *)

Section backoff.
Variable cfg : QueueConfig.

(** The [k]th pause. *)
Definition pause (k : nat) : Duration :=
  match k with O => MinBackoff cfg | _ => Z.min (MinBackoff cfg * 2 ^ Z.of_nat k) (MaxBackoff cfg) end.

Record valid_backoff : Prop := {
  vb_min : 0 <= MinBackoff cfg; vb_min2 : MinBackoff cfg * 2 <= max_int64;
  vb_max : 0 <= MaxBackoff cfg; vb_max2 : MaxBackoff cfg * 2 <= max_int64
}.
Hypothesis V : valid_backoff.

Lemma pause_bounds k : 0 <= pause k /\ pause k * 2 <= max_int64.
Proof.
  destruct V. unfold pause. destruct k; [lia|].
  assert (0 <= MinBackoff cfg * 2 ^ Z.of_nat (S k)) by (apply Z.mul_nonneg_nonneg; [lia|apply Z.pow_nonneg; lia]). lia.
Qed.

Lemma pause_next k :
  (if MaxBackoff cfg <? i64 (pause k * 2) then MaxBackoff cfg else i64 (pause k * 2)) = pause (S k).
Proof.
  pose proof (pause_bounds k). rewrite i64_id by (unfold min_int64; lia).
  assert (E : Z.min (pause k * 2) (MaxBackoff cfg) = pause (S k)).
  { unfold pause. rewrite Nat2Z.inj_succ, Z.pow_succ_r by lia. destruct k; [change (Z.of_nat 0) with 0; lia|].
    destruct V. set (p := 2 ^ Z.of_nat (S k)). lia. }
  rewrite <- E. destruct (Z.ltb_spec (MaxBackoff cfg) (pause k * 2)); lia.
Qed.

Lemma backoff_loop_spec store n k :
  let r := backoff_loop cfg store n k (pause k) in
  (k <= calls r <= k + n)%nat /\
  (delivered r = true <-> exists j, (k <= j < k + n)%nat /\ store j = Stored /\ calls r = S j /\
                              forall i, (k <= i < j)%nat -> store i = Recoverable) /\
  (delivered r = false -> calls r = (k + n)%nat \/ exists j, calls r = S j /\ store j = Unrecoverable) /\
  (forall j, sleeps r !! j = if decide (j < length (sleeps r))%nat then Some (pause (k + j)) else None) /\
  (forall i, (k <= i)%nat -> (S i < calls r)%nat -> store i = Recoverable) /\
  (length (sleeps r) <= n)%nat.
Proof.
  revert k. induction n as [|n IH]; intros k; cbn [backoff_loop].
  - cbn. split; [lia|]. split; [split; [done|]; intros (j & L & _); lia|]. split; [lia|].
    split; [done|]. split; lia.
  - destruct (store k) eqn:E; cbn.
    + split; [lia|]. split.
      { split; [|done]. intros _. exists k. repeat split; try done; try lia. }
      split; [done|]. split; [done|]. split; lia.
    + rewrite pause_next. destruct (IH (S k)) as (C & D & F & Sl & R & L). set (r := backoff_loop _ _ _ _ _) in *. cbn.
      split; [lia|]. split; [|split; [|split; [|split]]].
      * rewrite D. split; intros (j & Lj & Ej & Ec & Rj); exists j; repeat split; try done; try lia.
        -- intros i Hi. destruct (decide (i = k)) as [->|]; [done|]. apply Rj. lia.
        -- assert (j <> k) by congruence. lia.
        -- intros i Hi. apply Rj. lia.
      * intros X. destruct (F X) as [->|]; [left; lia|by right].
      * intros [|j]; cbn; [by rewrite Nat.add_0_r|]. rewrite Sl.
        replace (k + S j)%nat with (S k + j)%nat by lia. apply decide_ext. lia.
      * intros i Hi Hc. destruct (decide (i = k)) as [->|]; [done|]. apply R; lia.
      * lia.
    + split; [lia|]. split; [split; [done|]|].
      { intros (j & Lj & Ej & Ec & Rj). assert (j = k) by lia. congruence. }
      split; [intros _; right; eauto|]. split; [done|]. split; lia.
Qed.
End backoff.

(** A batch is retried only after recoverable errors, and at most
    [MaxRetries] times in all; it is delivered exactly when the storage takes
    it at a call that all earlier ones let it reach.  The pauses are
    [MinBackoff] doubled each time and, from the second on, never above
    [MaxBackoff]. *)
Theorem sendSamplesWithBackoff_spec (cfg : QueueConfig) (store : nat -> store_outcome) (V : valid_backoff cfg) :
  let r := sendSamplesWithBackoff cfg store in
  Z.of_nat (calls r) <= Z.max 0 (MaxRetries cfg) /\
  (delivered r = true <-> exists j, Z.of_nat j < MaxRetries cfg /\ store j = Stored /\ calls r = S j /\
                              forall i, (i < j)%nat -> store i = Recoverable) /\
  (delivered r = false -> Z.of_nat (calls r) = Z.max 0 (MaxRetries cfg) \/ exists j, calls r = S j /\ store j = Unrecoverable) /\
  (forall i, (S i < calls r)%nat -> store i = Recoverable) /\
  forall j p, sleeps r !! j = Some p -> p = pause cfg j /\ 0 <= p <= Z.max (MinBackoff cfg) (MaxBackoff cfg).
Proof.
  destruct (backoff_loop_spec cfg V store (Z.to_nat (MaxRetries cfg)) 0) as (C & D & F & Sl & R & _).
  unfold sendSamplesWithBackoff. change (MinBackoff cfg) with (pause cfg 0). set (r := backoff_loop _ _ _ _ _) in *.
  split; [lia|]. split; [|split; [|split]].
  - rewrite D. split; intros (j & Lj & Ej & Ec & Rj); exists j; repeat split; try done; try lia; intros i Hi; apply Rj; lia.
  - intros X. destruct (F X); [left; lia|by right].
  - intros i. apply R. lia.
  - intros j p. rewrite Sl. case_decide; [|done]. intros [= <-]. split; [done|].
    pose proof (pause_bounds cfg V (0 + j)). cbn [Nat.add] in *. unfold pause in *. destruct j; lia.
Qed.

(** * The number of shards *)

Section manager.
Context `{RE : Regexp} `{RR : !RegexpReplace} `{M5 : MD5}.
Variable range_map : LabelSet -> list (string * string).
Variable int_overflow : float64 -> Z.
Variable cfg : QueueConfig.

(** The settings the queue needs. *)
Record valid_queue : Prop := {
  vq_shards : 1 <= MaxShards cfg; vq_batch : 1 <= MaxSamplesPerSend cfg; vq_cap : 0 <= Capacity cfg
}.
Hypothesis V : valid_queue.

Lemma clamp_shards_range n : 1 <= clamp_shards cfg n <= MaxShards cfg.
Proof.
  destruct V. unfold clamp_shards. destruct (Z.ltb_spec (MaxShards cfg) n); [lia|]. destruct (Z.ltb_spec n 1); lia.
Qed.

Lemma desired_shards_range t n : desired_shards int_overflow cfg t = Some n -> 1 <= n <= MaxShards cfg /\ n <> numShards t.
Proof.
  unfold desired_shards. destruct (fle _ _); [done|]. destruct (_ && _); [done|].
  destruct (Z.eqb_spec (clamp_shards cfg (float_to_int int_overflow
    (fdiv (fmul (fdiv (rate (samplesOutDuration t)) (rate (samplesOut t)))
      (fadd (fadd (rate (samplesIn t)) (fsub (rate (samplesIn t)) (rate (samplesOut t)))) (integralAccumulator t)))
      (of_Z Second)))) (numShards t)) as [|N]; [done|].
  intros [= <-]. split; [apply clamp_shards_range|done].
Qed.

Lemma calculate_spec ready t :
  let t' := calculateDesiredShards int_overflow cfg ready t in
  cur t' = cur t /\ accepted t' = accepted t /\ sent t' = sent t /\
  (reshard t' = reshard t /\ numShards t' = numShards t \/
   ready = true /\ reshard t' = Received (numShards t') /\ 1 <= numShards t' <= MaxShards cfg /\ numShards t' <> numShards t).
Proof.
  unfold calculateDesiredShards. cbv zeta. destruct (desired_shards _ _ _) as [n|] eqn:E; [|by auto 6].
  apply desired_shards_range in E as [E1 E2]. cbn in E2. destruct ready; cbn; auto 8.
Qed.

(** * Shards and what they hold *)

Definition content (sh : shard) : list RSample := pending sh ++ queue sh.

Definition shard_ok (n i : Z) (sh : shard) : Prop :=
  Forall (fun s => fp s mod n = i) (content sh) /\ Z.of_nat (length (pending sh)) < MaxSamplesPerSend cfg /\
  Z.of_nat (length (queue sh)) <= Capacity cfg /\ (exited sh = true -> content sh = []).

Definition width (g : shards) : Z := Z.of_nat (length (queues g)).

Definition shards_ok (g : shards) : Prop :=
  1 <= width g <= MaxShards cfg /\
  (forall i sh, queues g !! i = Some sh -> shard_ok (width g) (Z.of_nat i) sh) /\
  (started g = false -> forall i sh, queues g !! i = Some sh -> pending sh = []) /\
  (closed g = false \/ started g = false -> forall i sh, queues g !! i = Some sh -> exited sh = false).

(** The samples of a series, in order. *)
Definition of_series (k : Z) (l : list RSample) : list RSample := base.filter (fun s => fp s = k) l.
#[local] Arguments of_series : simpl never.

Definition inflight (k : Z) (g : shards) : list RSample :=
  match queues g !! Z.to_nat (k mod width g) with Some sh => of_series k (content sh) | None => [] end.

(** What the branches of [runShard] have in common: they send the front of
    what the shard holds. *)
Definition sends_front (cl : bool) (op : shard -> option (shard * option (list RSample))) : Prop :=
  forall n i sh sh' ob, shard_ok n i sh -> exited sh = false -> op sh = Some (sh', ob) ->
    shard_ok n i sh' /\ content sh = default [] ob ++ content sh' /\
    (exited sh' = true -> cl = true) /\
    forall b, ob = Some b -> 1 <= Z.of_nat (length b) <= MaxSamplesPerSend cfg.

Lemma shard_ok_intro n i sh sh' b :
  shard_ok n i sh -> content sh = b ++ content sh' ->
  Z.of_nat (length (pending sh')) < MaxSamplesPerSend cfg -> Z.of_nat (length (queue sh')) <= Capacity cfg ->
  (exited sh' = true -> content sh' = []) -> shard_ok n i sh'.
Proof. intros (F & _) E. rewrite E in F. apply Forall_app in F as [_ F]. by repeat split. Qed.

Lemma receive_front cl : sends_front cl (receive cfg).
Proof.
  intros n i sh sh' ob OK X E. pose proof OK as (F & Lp & Lq & _). destruct V as [_ VM VC]. unfold receive in E.
  destruct (queue sh) as [|s q] eqn:Q; [done|]. rewrite length_app in E. cbn [length] in *.
  destruct (Z.leb_spec (MaxSamplesPerSend cfg) (Z.of_nat (length (pending sh) + 1))) as [L|L]; injection E as <- <-.
  - assert (E : content sh = take (Z.to_nat (MaxSamplesPerSend cfg)) (pending sh ++ [s]) ++
              content (mkShard q (drop (Z.to_nat (MaxSamplesPerSend cfg)) (pending sh ++ [s])) (exited sh))).
    { unfold content. cbn. rewrite app_assoc, take_drop, <- app_assoc, Q. done. }
    split; [eapply (shard_ok_intro n i _ _ _ OK E); cbn; try congruence; rewrite ?length_drop, ?length_app; cbn; lia|].
    split; [exact E|]. split; [cbn; congruence|]. intros b [= <-]. rewrite length_take, length_app. cbn. lia.
  - assert (E : content sh = [] ++ content (mkShard q (pending sh ++ [s]) (exited sh))).
    { unfold content. cbn. rewrite <- app_assoc, Q. done. }
    split; [eapply (shard_ok_intro n i _ _ _ OK E); cbn; try congruence; rewrite ?length_app; cbn; lia|].
    split; [exact E|]. split; [cbn; congruence|done].
Qed.

Lemma flush_spec sh b n i : shard_ok n i sh -> flush sh = Some b -> b = pending sh /\ 1 <= Z.of_nat (length b) <= MaxSamplesPerSend cfg.
Proof.
  intros (_ & Lp & _) E. unfold flush in E. destruct (Nat.ltb_spec 0 (length (pending sh))); [|done].
  injection E as <-. split; [done|lia].
Qed.

Lemma flush_default sh : default [] (flush sh) = pending sh.
Proof. unfold flush. by destruct (pending sh). Qed.

Lemma deadline_front cl : sends_front cl deadline.
Proof.
  intros n i sh sh' ob OK X [= <- <-]. destruct V as [_ VM VC].
  assert (E : content sh = default [] (flush sh) ++ content (mkShard (queue sh) [] (exited sh))) by (by rewrite flush_default).
  split; [eapply (shard_ok_intro n i _ _ _ OK E); cbn; try congruence; [lia|apply OK]|].
  split; [exact E|]. split; [cbn; congruence|]. intros b Eb. by eapply flush_spec.
Qed.

Lemma finish_front : sends_front true finish.
Proof.
  intros n i sh sh' ob OK X E. unfold finish in E. destruct (queue sh) eqn:Q; [|done]. injection E as <- <-. destruct V as [_ VM VC].
  assert (E : content sh = default [] (flush sh) ++ content (mkShard [] [] true)) by (rewrite flush_default; unfold content; by rewrite Q).
  split; [eapply (shard_ok_intro n i _ _ _ OK E); cbn; try done; lia|].
  split; [exact E|]. split; [done|]. intros b Eb. by eapply flush_spec.
Qed.

(** ** Replacing one shard *)

Lemma width_mapi i sh g : width (mapi_shard i sh g) = width g.
Proof. unfold width, mapi_shard. cbn. by rewrite length_insert. Qed.

Lemma lookup_mapi i sh sh0 g j :
  queues g !! i = Some sh0 ->
  queues (mapi_shard i sh g) !! j = if decide (j = i) then Some sh else queues g !! j.
Proof.
  intros E. unfold mapi_shard. cbn. case_decide as D.
  - subst. apply list_lookup_insert_eq. by eapply lookup_lt_Some.
  - by rewrite list_lookup_insert_ne.
Qed.

Lemma of_series_app k l l' : of_series k (l ++ l') = of_series k l ++ of_series k l'.
Proof. apply filter_app. Qed.

Lemma of_series_nil k n i l : Forall (fun s => fp s mod n = i) l -> k mod n <> i -> of_series k l = [].
Proof.
  intros F N. unfold of_series. induction F as [|s l E F IH]; [done|]. rewrite filter_cons_False; [done|].
  intros <-. done.
Qed.

(** A step of one shard: what it sends is in front of what is in flight. *)
Lemma shard_replaced g i sh sh' b :
  shards_ok g -> queues g !! i = Some sh -> shard_ok (width g) (Z.of_nat i) sh' ->
  content sh = b ++ content sh' -> started g = true -> (exited sh' = true -> closed g = true) ->
  shards_ok (mapi_shard i sh' g) /\ forall k, inflight k g = of_series k b ++ inflight k (mapi_shard i sh' g).
Proof.
  intros (W & OK & NS & NC) E OK' C ST CL. split; [split; [|split; [|split]]|].
  - by rewrite width_mapi.
  - intros j shj. rewrite width_mapi, (lookup_mapi _ _ _ _ _ E). case_decide as D; [|apply OK].
    subst. by intros [= <-].
  - cbn. congruence.
  - intros [CF|CF]; [|cbn in CF; congruence]. intros j shj. rewrite (lookup_mapi _ _ _ _ _ E). case_decide.
    + intros [= <-]. destruct (exited sh') eqn:X; [|done]. cbn in CF. rewrite CL in CF by done. done.
    + apply NC. by left.
  - intros k. unfold inflight. rewrite width_mapi, (lookup_mapi _ _ _ _ _ E). case_decide as D.
    + rewrite D, E, C. apply of_series_app.
    + destruct (OK i sh E) as (F & _). rewrite C in F. apply Forall_app in F as [F _].
      rewrite (of_series_nil k (width g) (Z.of_nat i) b F); [done|].
      pose proof (Z.mod_pos_bound k (width g) ltac:(lia)). lia.
Qed.

(** Putting a sample in its shard. *)
Lemma shard_enqueued g s sh :
  shards_ok g -> queues g !! Z.to_nat (fp s mod width g) = Some sh -> closed g = false ->
  Z.of_nat (length (queue sh)) < Capacity cfg ->
  let g' := mapi_shard (Z.to_nat (fp s mod width g)) (mkShard (queue sh ++ [s]) (pending sh) (exited sh)) g in
  shards_ok g' /\ forall k, inflight k g' = inflight k g ++ of_series k [s].
Proof.
  intros (W & OK & NS & NC) E CF L. cbn zeta. pose proof (Z.mod_pos_bound (fp s) (width g) ltac:(lia)) as B.
  assert (X : exited sh = false) by (eapply NC; [by left|exact E]).
  assert (CE : content (mkShard (queue sh ++ [s]) (pending sh) (exited sh)) = content sh ++ [s]).
  { unfold content. cbn. by rewrite app_assoc. }
  split; [split; [|split; [|split]]|].
  - by rewrite width_mapi.
  - intros j shj. rewrite width_mapi, (lookup_mapi _ _ _ _ _ E). case_decide as D; [|apply OK].
    intros [= <-]. destruct (OK _ _ E) as (F & Lp & Lq & _). subst j. unfold shard_ok. rewrite CE.
    split; [apply Forall_app; split; [done|]; constructor; [lia|constructor]|].
    split; [done|]. split; [cbn; rewrite length_app; cbn; lia|]. cbn. congruence.
  - intros ST j shj. rewrite (lookup_mapi _ _ _ _ _ E). case_decide; [|by apply NS].
    intros [= <-]. cbn. by eapply NS.
  - intros CC j shj. rewrite (lookup_mapi _ _ _ _ _ E). case_decide; [|by apply NC]. by intros [= <-].
  - intros k. unfold inflight. rewrite width_mapi, (lookup_mapi _ _ _ _ _ E).
    unfold of_series at 3. destruct (decide (fp s = k)) as [<-|N].
    + rewrite decide_True by done. rewrite filter_cons_True by done. rewrite CE, of_series_app, E.
      unfold of_series. by rewrite (filter_cons_True _ s []).
    + rewrite filter_cons_False by done. rewrite filter_nil, app_nil_r.
      case_decide as D; [|done]. rewrite D, E, CE, of_series_app. unfold of_series at 2.
      rewrite filter_cons_False by done. by rewrite filter_nil, app_nil_r.
Qed.

Lemma newShards_ok n : 1 <= n <= MaxShards cfg -> shards_ok (newShards n) /\ width (newShards n) = n /\ forall k, inflight k (newShards n) = [].
Proof.
  intros R. assert (W : width (newShards n) = n) by (unfold width, newShards; cbn; rewrite repeat_length; lia).
  assert (L : forall i sh, queues (newShards n) !! i = Some sh -> sh = mkShard [] [] false).
  { intros i sh E. apply list_elem_of_lookup_2, list_elem_of_In in E. by apply repeat_spec in E. }
  split; [split; [lia|split; [|split]]|split; [done|]].
  - intros i sh E. rewrite (L i sh E). destruct V. by repeat split; cbn; try lia.
  - intros _ i sh E. by rewrite (L i sh E).
  - intros _ i sh E. by rewrite (L i sh E).
  - intros k. unfold inflight. destruct (queues _ !! _) as [sh|] eqn:E; [|done]. by rewrite (L _ sh E).
Qed.

Lemma start_ok g : shards_ok g -> shards_ok (start g).
Proof.
  intros (W & OK & NS & NC). split; [done|]. split; [done|]. split; [done|].
  intros [CF|CF]; [|done]. apply NC. by left.
Qed.

Lemma close_ok g : shards_ok g -> started g = true -> shards_ok (close g).
Proof.
  intros (W & OK & NS & NC) ST. split; [done|]. split; [done|]. split; [done|].
  cbn. intros [CF|CF]; [done|congruence].
Qed.

(** * The invariant *)

Definition old_inflight (k : Z) (t : QueueManager) : list RSample :=
  match get_shards Old t with Some old => inflight k old | None => [] end.

Definition phase_ok (t : QueueManager) : Prop :=
  match reshard t with
  | Waiting => width (cur t) = numShards t
  | Received n => n = numShards t /\ started (cur t) = true /\ closed (cur t) = false
  | Swapped old | Stopping old =>
    shards_ok old /\ started old = true /\ (closed old = match reshard t with Stopping _ => true | _ => false end) /\
    started (cur t) = false /\ closed (cur t) = false /\ width (cur t) = numShards t
  end.

Record inv (t : QueueManager) : Prop := {
  inv_cur : shards_ok (cur t);
  inv_num : 1 <= numShards t <= MaxShards cfg;
  inv_phase : phase_ok t;
  inv_closed : closed (cur t) = true -> started (cur t) = true;
  inv_batches : Forall (fun b => 1 <= Z.of_nat (length b) <= MaxSamplesPerSend cfg) (sent t).*1;
  inv_order : forall k, of_series k (accepted t) =
    of_series k (concat (sent t).*1) ++ old_inflight k t ++ inflight k (cur t)
}.

Lemma inv_init : inv NewQueueManager.
Proof.
  destruct V. destruct (newShards_ok 1) as (OK & W & I); [lia|].
  constructor; [exact OK|cbn; lia|exact W|done|by apply Forall_nil|]. intros k. cbn [cur NewQueueManager]. by rewrite I.
Qed.


Lemma of_series_sent k (l : list (list RSample * bool)) b o :
  of_series k (concat (l ++ [(b, o)]).*1) = of_series k (concat l.*1) ++ of_series k b.
Proof. rewrite fmap_app, concat_app, of_series_app. cbn. by rewrite app_nil_r. Qed.

Lemma sendSamples_fields store d b t :
  let t' := sendSamples cfg store d b t in
  cur t' = cur t /\ reshard t' = reshard t /\ numShards t' = numShards t /\ accepted t' = accepted t /\
  exists o, sent t' = sent t ++ [(b, o)].
Proof. by repeat (split; [done|]); eauto. Qed.

(** Replacing the shards of one generation, and sending a batch. *)
Lemma inv_sent w g g' store d ob t :
  inv t -> get_shards w t = Some g -> shards_ok g' -> started g = true ->
  (started g' = started g /\ closed g' = closed g /\ width g' = width g) ->
  (forall k, inflight k g = of_series k (default [] ob) ++ inflight k g') ->
  (forall b, ob = Some b -> 1 <= Z.of_nat (length b) <= MaxSamplesPerSend cfg) ->
  inv (match ob with Some b => sendSamples cfg store d b (set_shards w g' t) | None => set_shards w g' t end).
Proof.
  intros [IC IN IP ICL IB IO] G OK' ST (ES & EC & EW) FR B.
  assert (BS : forall t', sent t' = sent t ++ (match ob with Some b => [(b, delivered (sendSamplesWithBackoff cfg store))] | None => [] end) ->
    Forall (fun b => 1 <= Z.of_nat (length b) <= MaxSamplesPerSend cfg) (sent t').*1 /\
    forall k, of_series k (concat (sent t').*1) = of_series k (concat (sent t).*1) ++ of_series k (default [] ob)).
  { intros t' ->. destruct ob as [b|]; [|rewrite app_nil_r; split; [done|intros k; by rewrite app_nil_r]].
    split; [|intros k; apply of_series_sent]. rewrite fmap_app. apply Forall_app. split; [done|]. constructor; [by apply B|constructor]. }
  set (t' := match ob with Some b => _ | None => _ end).
  assert (ET : cur t' = cur (set_shards w g' t) /\ reshard t' = reshard (set_shards w g' t) /\ numShards t' = numShards t /\
    accepted t' = accepted t /\ sent t' = sent t ++ (match ob with Some b => [(b, delivered (sendSamplesWithBackoff cfg store))] | None => [] end)).
  { unfold t'. destruct ob, w; cbn; rewrite ?app_nil_r; done. }
  destruct ET as (ECur & ER & EN & EA & ESent). destruct (BS t' ESent) as [BB BO]. clearbody t'.
  destruct w; cbn in G, ECur, ER.
  - injection G as <-. constructor; rewrite ?ECur, ?EN, ?EA; try done.
    + unfold phase_ok in *. rewrite ER, ECur, EN, ES, EC, EW. done.
    + by rewrite EC, ES.
    + intros k. rewrite BO, IO. unfold old_inflight. cbn. rewrite ER. rewrite FR, <- !app_assoc. f_equal.
      unfold phase_ok in IP. destruct (reshard t); try done; destruct IP as (_ & _ & _ & X & _); congruence.
  - destruct (reshard t) as [| |old|old] eqn:R; try done; injection G as <-;
      (constructor; rewrite ?ECur, ?EN, ?EA; try done;
       [unfold phase_ok in *; rewrite R in IP; rewrite ER, ECur, EN; cbn; rewrite ES, EC; tauto|
        intros k; rewrite BO, IO; unfold old_inflight; cbn; rewrite R, ER, FR, <- !app_assoc; done]).
Qed.

Lemma shard_step_inv w i d store cl op t t' :
  inv t -> sends_front cl op -> (cl = true -> is_closed w t = true) ->
  shard_step cfg w i d store op t = Next t' -> inv t'.
Proof.
  intros I FR CL E. unfold shard_step in E. destruct (get_shards w t) as [g|] eqn:G; [|done].
  destruct (queues g !! i) as [sh|] eqn:Q; [|done].
  destruct (negb (started g) || exited sh) eqn:B; [done|]. bool_prop.
  destruct (op sh) as [[sh' ob]|] eqn:O; [|done]. injection E as <-.
  assert (OK : shards_ok g).
  { destruct I as [IC _ IP _ _ _]. unfold phase_ok in IP. destruct w; cbn in G; [by injection G as <-|].
    destruct (reshard t); try done; injection G as <-; tauto. }
  destruct (FR _ _ _ _ _ (proj1 (proj2 OK) i sh Q) ltac:(done) O) as (OK' & C & X & BB).
  destruct (shard_replaced g i sh sh' _ OK Q OK' C ltac:(done)) as [OK2 IF].
  { intros X'. specialize (CL (X X')). unfold is_closed in CL. by rewrite G in CL. }
  eapply inv_sent; try done. repeat (split; [done|]). apply width_mapi.
Qed.

Lemma enqueue_inv s t :
  inv t -> match enqueue cfg s t with Next t' => inv t' | Disabled => False | Panic => closed (cur t) = true end.
Proof.
  intros I. pose proof I as [IC IN IP ICL IB IO]. unfold enqueue. cbn [cur].
  pose proof (proj1 IC) as W. unfold width in W.
  destruct (Z.of_nat (length (queues (cur t)))) as [|n|n] eqn:EW; [lia| |lia].
  pose proof (Z.mod_pos_bound (fp s) (Z.pos n) ltac:(lia)) as B.
  destruct (queues (cur t) !! Z.to_nat (fp s mod Z.pos n)) as [sh|] eqn:Q.
  2:{ apply lookup_ge_None in Q. lia. }
  destruct (closed (cur t)) eqn:CF; [done|].
  destruct (Z.ltb_spec (Z.of_nat (length (queue sh))) (Capacity cfg)) as [L|L].
  - assert (Q' : queues (cur t) !! Z.to_nat (fp s mod width (cur t)) = Some sh) by (unfold width; by rewrite EW).
    destruct (shard_enqueued (cur t) s sh IC Q' CF L) as [OK IF]. unfold width in OK, IF. rewrite EW in OK, IF.
    constructor; cbn [cur numShards accepted sent reshard]; try done.
    + unfold phase_ok in *. cbn [reshard cur]. rewrite width_mapi. exact IP.
    + intros CX. cbn in CX. congruence.
    + intros k. rewrite of_series_app, IO, IF, <- !app_assoc. unfold old_inflight. done.
  - constructor; [exact IC|exact IN|exact IP|exact (inv_closed t I)|exact IB|exact IO].
Qed.

Lemma process_set_total cfgs m : Forall valid_config cfgs -> exists r, process_set range_map m cfgs = Some r.
Proof.
  intros VC. revert m. induction VC as [|c cfgs Vc VC IH]; intros m; cbn; [eauto|].
  assert (E : exists r, relabel_set range_map m c = Some r).
  { unfold relabel_set. destruct (Action c) eqn:A; repeat case_match; eauto. apply Vc in A. bool_prop. done. }
  destruct E as [[m'|] ->]; eauto.
Qed.

Lemma shard_step_case w i d store cl op t (P : Prop) :
  inv t -> sends_front cl op -> (cl = true -> is_closed w t = true) ->
  match shard_step cfg w i d store op t with Next t' => inv t' | Disabled => True | Panic => P end.
Proof.
  intros I FR CL. pose proof (shard_step_inv w i d store cl op t) as H.
  destruct (shard_step cfg w i d store op t) as [t'| |] eqn:E; [eauto|done|].
  exfalso. revert E. unfold shard_step. by repeat case_match.
Qed.

Lemma append_inv ext rcfgs s t :
  inv t -> match append range_map cfg ext rcfgs s t with
           | Next t' => inv t' | Disabled => False
           | Panic => closed (cur t) = true \/ ~ Forall valid_config rcfgs
           end.
Proof.
  intros I. unfold append. destruct (process_set range_map _ rcfgs) as [[m|]|] eqn:E; [|done|].
  - pose proof (enqueue_inv (mkRSample m (r_Value s) (r_Timestamp s)) t I) as H.
    destruct (enqueue _ _ _); auto.
  - right. intros VC. destruct (process_set_total rcfgs (r_Metric s ∪ ext) VC) as [r Er]. congruence.
Qed.

Lemma tick_inv ready t : inv t -> running t = true ->
  inv (calculateDesiredShards int_overflow cfg (ready && match reshard t with Waiting => true | _ => false end) t).
Proof.
  intros [IC IN IP ICL IB IO] R.
  destruct (calculate_spec (ready && match reshard t with Waiting => true | _ => false end) t) as (EC & EA & ES & H).
  set (t' := calculateDesiredShards _ _ _ _) in *. unfold running in R. bool_prop.
  destruct H as [[ER EN]|(RD & ER & RN & NE)].
  - constructor; rewrite ?EC, ?EA, ?ES, ?EN; try done.
    + unfold phase_ok in *. by rewrite ER, EC, EN.
    + intros k. rewrite IO. unfold old_inflight. cbn. by rewrite ER.
  - bool_prop. destruct (reshard t) eqn:RS; try done. constructor; rewrite ?EC, ?EA, ?ES; try done.
    + unfold phase_ok. by rewrite ER, EC.
    + intros k. rewrite IO. unfold old_inflight. cbn. by rewrite ER, RS.
Qed.

(** A generation whose goroutines have all returned holds nothing. *)
Lemma exited_empty g k : shards_ok g -> forallb exited (queues g) = true -> inflight k g = [].
Proof.
  intros (_ & OK & _) F. unfold inflight. destruct (queues g !! _) as [sh|] eqn:E; [|done].
  destruct (OK _ _ E) as (_ & _ & _ & X). rewrite X; [done|].
  rewrite forallb_forall in F. apply F. apply list_elem_of_In. by eapply list_elem_of_lookup_2.
Qed.

Lemma step_inv ext rcfgs ev t :
  inv t -> match step range_map int_overflow cfg ext rcfgs ev t with
           | Next t' => inv t' | Disabled => True
           | Panic => closed (cur t) = true \/ ~ Forall valid_config rcfgs
           end.
Proof.
  intros I. destruct ev as [s| |ready| | | |w i d store|w i d store|w i d store|]; cbn [step].
  - pose proof (append_inv ext rcfgs s t I) as H. by destruct (append _ _ _ _ _ _).
  - destruct I as [IC IN IP ICL IB IO]. destruct (reshard t) eqn:R; try done.
    destruct (started (cur t) || closed (cur t)) eqn:B; [done|]. bool_prop.
    constructor; cbn; try done; [by apply start_ok|]. unfold phase_ok in *. cbn. by rewrite R in IP |- *.
  - destruct (running t) eqn:R; [|done]. by apply tick_inv.
  - destruct I as [IC IN IP ICL IB IO]. unfold phase_ok in IP. destruct (reshard t) eqn:R; try done.
    destruct IP as (-> & ST & CF). destruct (newShards_ok (numShards t) IN) as (OK & W & NI).
    constructor; cbn; try done. intros k. rewrite NI, IO. unfold old_inflight. cbn. by rewrite R, app_nil_r.
  - destruct I as [IC IN IP ICL IB IO]. unfold phase_ok in IP. destruct (reshard t) as [| |old|] eqn:R; try done.
    destruct IP as (OK & ST & CF & X). constructor; cbn; try done.
    + unfold phase_ok. cbn. split; [by apply close_ok|]. done.
    + intros k. rewrite IO. unfold old_inflight. cbn. by rewrite R.
  - destruct I as [IC IN IP ICL IB IO]. unfold phase_ok in IP. destruct (reshard t) as [| | |old] eqn:R; try done.
    destruct IP as (OK & ST & CF & X & Y & W). destruct (forallb exited (queues old)) eqn:F; [|done].
    constructor; cbn; try done; [by apply start_ok|].
    intros k. rewrite IO. unfold old_inflight. cbn. by rewrite R, (exited_empty old k OK F).
  - by apply shard_step_case with false; [|apply receive_front|].
  - by apply shard_step_case with false; [|apply deadline_front|].
  - destruct (is_closed w t) eqn:C; [|done]. by apply shard_step_case with true; [|apply finish_front|].
  - destruct I as [IC IN IP ICL IB IO]. destruct (reshard t) eqn:R; try done.
    destruct (started (cur t) && negb (closed (cur t))) eqn:B; [|done]. bool_prop.
    constructor; cbn; try done; [by apply close_ok|]. unfold phase_ok in *. cbn. by rewrite R in IP |- *.
Qed.

Lemma run_inv ext rcfgs evs t t' :
  inv t -> run range_map int_overflow cfg ext rcfgs evs t = Next t' -> inv t'.
Proof.
  revert t. induction evs as [|ev evs IH]; intros t I E; [by injection E as <-|]. cbn in E.
  pose proof (step_inv ext rcfgs ev t I) as H. destruct (step _ _ _ _ _ _ _) as [t1| |]; [|done..]. by eapply IH.
Qed.

(** * The guarantees *)

Section runs.
Variable externalLabels : LabelSet.
Variable relabelConfigs : list RelabelConfig.

(** The states the manager can be in. *)
Definition reachable (evs : list event) (t : QueueManager) : Prop :=
  run range_map int_overflow cfg externalLabels relabelConfigs evs NewQueueManager = Next t.

Lemma reachable_inv evs t : reachable evs t -> inv t.
Proof. intros E. exact (run_inv _ _ _ _ _ inv_init E). Qed.

(** C13: the samples of a series are sent in the order in which they were
    queued, and none is lost or duplicated by batching, deadlines, resharding
    or shutdown: at any time, those sent, followed by those in the shards
    being replaced and those in the current shards, are those queued. *)
Theorem queue_order evs t k (R : reachable evs t) :
  of_series k (accepted t) = of_series k (concat (sent t).*1) ++ old_inflight k t ++ inflight k (cur t).
Proof. apply (inv_order t (reachable_inv evs t R)). Qed.

(** The number of shards stays between one and [MaxShards]; every batch
    that is sent has between one and [MaxSamplesPerSend] samples; no queue
    holds more than [Capacity] samples, and no shard has a full batch pending. *)
Theorem queue_bounds evs t (R : reachable evs t) :
  1 <= numShards t <= MaxShards cfg /\
  Forall (fun b => 1 <= Z.of_nat (length b) <= MaxSamplesPerSend cfg) (sent t).*1 /\
  forall w g i sh, get_shards w t = Some g -> queues g !! i = Some sh ->
    Z.of_nat (length (queue sh)) <= Capacity cfg /\ Z.of_nat (length (pending sh)) < MaxSamplesPerSend cfg.
Proof.
  destruct (reachable_inv evs t R) as [IC IN IP _ IB _]. split; [done|]. split; [done|]. intros w g i sh G Q.
  assert (OK : shards_ok g).
  { unfold phase_ok in IP. destruct w; cbn in G; [by injection G as <-|].
    destruct (reshard t); try done; injection G as <-; tauto. }
  destruct OK as (_ & OK & _). by destruct (OK i sh Q) as (_ & ? & ? & _).
Qed.

Lemma of_series_split k l x r : of_series k l = x :: r ->
  exists l1 l2, l = l1 ++ x :: l2 /\ of_series k l1 = [] /\ of_series k l2 = r.
Proof.
  induction l as [|y l IH]; [done|]. unfold of_series. rewrite filter_cons. case_decide as D.
  - intros [= -> <-]. by exists [], l.
  - intros E. destruct (IH E) as (l1 & l2 & -> & E1 & E2). exists (y :: l1), l2. split; [done|]. split; [|done].
    unfold of_series. by rewrite filter_cons_False.
Qed.

Lemma of_series_perm l l' : (forall k, of_series k l = of_series k l') -> l ≡ₚ l'.
Proof.
  revert l'. induction l as [|x l IH]; intros l' E.
  - destruct l' as [|y l']; [done|]. specialize (E (fp y)). unfold of_series in E.
    by rewrite filter_cons_True in E.
  - assert (Ex : of_series (fp x) l' = x :: of_series (fp x) l) by (rewrite <- E; unfold of_series; by rewrite filter_cons_True).
    apply of_series_split in Ex as (l1 & l2 & -> & E1 & E2). rewrite <- Permutation_middle. constructor. apply IH.
    intros k. specialize (E k). rewrite of_series_app in E |- *. unfold of_series in E at 1 3. rewrite !filter_cons in E.
    case_decide as D; [|exact E]. subst k. rewrite E1 in E |- *. cbn in E. by injection E.
Qed.

Lemma inv_drained t : inv t -> closed (cur t) = true -> forallb exited (queues (cur t)) = true ->
  concat (sent t).*1 ≡ₚ accepted t /\ forall k, of_series k (concat (sent t).*1) = of_series k (accepted t).
Proof.
  intros [IC IN IP ICL _ IO] C X.
  assert (E : forall k, of_series k (concat (sent t).*1) = of_series k (accepted t)).
  { intros k. rewrite IO, (exited_empty _ k IC X). unfold old_inflight. unfold phase_ok in IP. cbn.
    destruct (reshard t); rewrite ?app_nil_r; try done; destruct IP as (_ & _ & _ & _ & F & _); congruence. }
  split; [|exact E]. by apply of_series_perm.
Qed.

(** Once the manager has been stopped and its goroutines have returned,
    exactly the queued samples have been sent, each series in order. *)
Theorem queue_drained evs t (R : reachable evs t)
    (C : closed (cur t) = true) (X : forallb exited (queues (cur t)) = true) :
  concat (sent t).*1 ≡ₚ accepted t /\ forall k, of_series k (concat (sent t).*1) = of_series k (accepted t).
Proof. apply inv_drained; [by apply (reachable_inv evs)|done..]. Qed.

(** The samples given to [Append]. *)
Definition appended (evs : list event) : list RSample := omap (fun ev => match ev with Append s => Some s | _ => None end) evs.

(** What a step that drops no sample puts in the queues. *)
Lemma step_accepts ev t t' : step range_map int_overflow cfg externalLabels relabelConfigs ev t = Next t' ->
  exists d, dropped t' = dropped t ++ d /\ (d = [] -> accepted t' = accepted t ++
    match ev with
    | Append s => match process_set range_map (r_Metric s ∪ externalLabels) relabelConfigs with
                  | Some (Some m) => [mkRSample m (r_Value s) (r_Timestamp s)]
                  | _ => []
                  end
    | _ => []
    end).
Proof.
  assert (K : forall a, accepted a = accepted t -> dropped a = dropped t ->
    exists d, dropped a = dropped t ++ d /\ (d = [] -> accepted a = accepted t ++ [])).
  { intros a -> ->. exists []. by rewrite !app_nil_r. }
  assert (SS : forall w i d store op, shard_step cfg w i d store op t = Next t' -> accepted t' = accepted t /\ dropped t' = dropped t).
  { intros w i d store op. unfold shard_step, set_shards. destruct (get_shards w t) as [g|]; [|done].
    destruct (queues g !! i); [|done]. destruct (_ || _); [done|]. destruct (op s) as [[sh' ob]|]; [|done].
    intros [= <-]. by destruct w, ob. }
  destruct ev as [s| |ready| | | |w i d store|w i d store|w i d store|]; cbn [step].
  - unfold append. destruct (process_set _ _ _) as [[m|]|]; [|intros [= <-]; by apply K|done].
    unfold enqueue. cbn [cur]. destruct (Z.of_nat (length (queues (cur t)))) as [|n|n]; [done|..];
      (destruct (queues (cur t) !! _); [|done]; destruct (closed _); [done|]; destruct (_ <? _); intros [= <-]; cbn;
       [exists []; by rewrite app_nil_r|eexists; split; [done|by intros [=]]]).
  - destruct (reshard t); try done. destruct (_ || _); [done|]. intros [= <-]. by apply K.
  - destruct (running t); [|done]. intros [= <-]. apply K; [apply calculate_spec|]. unfold calculateDesiredShards. cbv zeta. destruct (desired_shards _ _ _); [|done]. by destruct (_ && _).
  - destruct (reshard t); try done. intros [= <-]. by apply K.
  - destruct (reshard t); try done. intros [= <-]. by apply K.
  - destruct (reshard t); try done. destruct (forallb _ _); [|done]. intros [= <-]. by apply K.
  - intros []%SS. by apply K.
  - intros []%SS. by apply K.
  - destruct (is_closed w t); [|done]. intros []%SS. by apply K.
  - destruct (reshard t); try done. destruct (_ && _); [|done]. intros [= <-]. by apply K.
Qed.

(** With no write relabelling, and no sample dropped, the queue takes every
    sample with the external labels that it lacks. *)
Lemma run_accepts evs : forall t t', relabelConfigs = [] ->
  run range_map int_overflow cfg externalLabels relabelConfigs evs t = Next t' -> 
  exists d, dropped t' = dropped t ++ d /\ (d = [] ->
    accepted t' = accepted t ++ map (fun s => mkRSample (r_Metric s ∪ externalLabels) (r_Value s) (r_Timestamp s)) (appended evs)).
Proof.
  induction evs as [|ev evs IH]; intros t t' N; cbn [run]; [intros [= <-]; exists []; by rewrite !app_nil_r|].
  destruct (step _ _ _ _ _ ev t) as [t1| |] eqn:E; [|done..]. intros R. apply step_accepts in E as (d1 & D1 & A1).
  destruct (IH t1 t' N R) as (d2 & D2 & A2). exists (d1 ++ d2). split; [by rewrite D2, D1, app_assoc|].
  intros [-> ->]%app_nil. rewrite A2, A1 by done. rewrite N. rewrite <- app_assoc. f_equal. by destruct ev.
Qed.

(** Only [Stop] closes the current shards. *)
Lemma step_keeps_open ev t t' :
  step range_map int_overflow cfg externalLabels relabelConfigs ev t = Next t' ->
  ev <> Stop -> closed (cur t) = false -> closed (cur t') = false.
Proof.
  assert (SS : forall w i d store op, shard_step cfg w i d store op t = Next t' -> closed (cur t) = false -> closed (cur t') = false).
  { intros w i d store op. unfold shard_step. destruct (get_shards w t) as [g|] eqn:G; [|done].
    destruct (queues g !! i); [|done]. destruct (_ || _); [done|]. destruct (op s) as [[sh' ob]|]; [|done].
    intros [= <-] CF. destruct w; cbn in G.
    - injection G as <-. by destruct ob.
    - by destruct ob. }
  intros E N CF. destruct ev as [s| |ready| | | |w i d store|w i d store|w i d store|]; cbn [step] in E.
  - unfold append in E. destruct (process_set _ _ _) as [[m|]|]; [|by injection E as <-|done].
    unfold enqueue in E. cbn [cur] in E. rewrite CF in E.
    destruct (Z.of_nat (length (queues (cur t)))); try done;
      (destruct (queues (cur t) !! _); [|done]); destruct (_ <? _); by injection E as <-.
  - destruct (reshard t); try done. destruct (_ || _); [done|]. by injection E as <-.
  - destruct (running t); [|done]. injection E as <-.
    by rewrite (proj1 (calculate_spec _ t)).
  - destruct (reshard t); try done. by injection E as <-.
  - destruct (reshard t); try done. by injection E as <-.
  - destruct (reshard t); try done. destruct (forallb _ _); [|done]. by injection E as <-.
  - by eapply SS.
  - by eapply SS.
  - destruct (is_closed w t); [|done]. by eapply SS.
  - done.
Qed.

Lemma run_no_panic evs t :
  Forall valid_config relabelConfigs -> inv t -> closed (cur t) = false -> Stop ∉ evs ->
  run range_map int_overflow cfg externalLabels relabelConfigs evs t <> Panic.
Proof.
  intros VC. revert t. induction evs as [|ev evs IH]; intros t I CF NS; [done|]. cbn [run].
  apply not_elem_of_cons in NS as [N NS]. pose proof (step_inv externalLabels relabelConfigs ev t I) as H.
  pose proof (step_keeps_open ev t) as K.
  destruct (step _ _ _ _ _ _ _) as [t'| |] eqn:E; [|done|].
  - apply IH; [done| |done]. by apply K.
  - destruct H as [H|H]; [congruence|done].
Qed.

(** With valid relabelling configurations, no step panics before the
    manager is stopped: the division by the number of shards, the choice of
    the shard and the send on its channel are safe, also during resharding. *)
Theorem queue_no_panic evs (VC : Forall valid_config relabelConfigs) (NS : Stop ∉ evs) :
  run range_map int_overflow cfg externalLabels relabelConfigs evs NewQueueManager <> Panic.
Proof. by apply run_no_panic; [|apply inv_init|..]. Qed.
End runs.
End manager.

(** * Instances *)

(** A storage that fails once and then takes the batch. *)
Definition second_time (k : nat) : store_outcome := match k with O => Recoverable | _ => Stored end.

Lemma sendSamplesWithBackoff_spec_witness :
  valid_backoff DefaultQueueConfig /\
  (delivered (sendSamplesWithBackoff DefaultQueueConfig second_time) = true /\
   calls (sendSamplesWithBackoff DefaultQueueConfig second_time) = 2%nat) /\
  Z.of_nat (calls (sendSamplesWithBackoff DefaultQueueConfig second_time)) <= 10.
Proof.
  assert (V : valid_backoff DefaultQueueConfig) by (by constructor).
  split; [exact V|]. split; [done|].
  destruct (sendSamplesWithBackoff_spec DefaultQueueConfig second_time V) as [L _]. exact L.
Defined.

Definition small_queue : QueueConfig := mkQueueConfig 3 4 2 (5 * Second) 3 (30 * Millisecond) (100 * Millisecond).

Lemma small_queue_valid : valid_queue small_queue.
Proof. by constructor. Qed.

Definition sample_of (job : string) (v : Z) : RSample := mkRSample {["job" := job]} (of_Z v) v.

(** Two series; the manager reshards while samples wait, and is stopped. *)
Definition up_to_tick : list event :=
  [Start; Append (sample_of "a" 1); Append (sample_of "b" 2); Append (sample_of "a" 3);
   Receive Cur 0 0 second_time; Receive Cur 0 (100 * Second) second_time; Tick true].
Definition resharding : list event :=
  up_to_tick ++
  [Append (sample_of "a" 4); Swap; Append (sample_of "a" 5); Append (sample_of "b" 6); CloseOld;
   Receive Old 0 0 second_time; Receive Old 0 0 second_time; Exit Old 0 0 second_time; StartNew].
Definition shutdown : list event :=
  resharding ++ [Stop; Receive Cur 0 0 second_time; Receive Cur 1 0 second_time;
                 Exit Cur 0 0 second_time; Exit Cur 1 0 second_time; Exit Cur 2 0 second_time; Exit Cur 3 0 second_time].

Definition run_small (evs : list event) : outcome :=
  @run literal_regexp literal_replace zero_md5 backwards (fun _ => 0) small_queue ∅ [] evs NewQueueManager.

Definition state_of (o : outcome) : QueueManager := match o with Next t => t | _ => NewQueueManager end.

Lemma queue_order_witness :
  let t := state_of (run_small resharding) in
  run_small resharding = Next t /\
  length (of_series (fp (sample_of "a" 0)) (accepted t)) = 4%nat /\
  of_series (fp (sample_of "a" 0)) (accepted t) =
    of_series (fp (sample_of "a" 0)) (concat (sent t).*1) ++ old_inflight (fp (sample_of "a" 0)) t ++
    inflight (fp (sample_of "a" 0)) (cur t).
Proof.
  assert (R : run_small resharding = Next (state_of (run_small resharding))) by (vm_compute; reflexivity).
  split; [exact R|]. split; [vm_compute; reflexivity|].
  exact (@queue_order literal_regexp literal_replace zero_md5 backwards (fun _ => 0) small_queue small_queue_valid ∅ []
           resharding _ (fp (sample_of "a" 0)) R).
Defined.

Lemma queue_bounds_witness :
  let t := state_of (run_small resharding) in
  run_small resharding = Next t /\ numShards t = 4 /\ 1 <= numShards t <= 4.
Proof.
  assert (R : run_small resharding = Next (state_of (run_small resharding))) by (vm_compute; reflexivity).
  split; [exact R|]. split; [vm_compute; reflexivity|].
  exact (proj1 (@queue_bounds literal_regexp literal_replace zero_md5 backwards (fun _ => 0) small_queue small_queue_valid ∅ []
           resharding _ R)).
Defined.

Lemma queue_drained_witness :
  let t := state_of (run_small shutdown) in
  run_small shutdown = Next t /\ length (accepted t) = 6%nat /\ concat (sent t).*1 ≡ₚ accepted t.
Proof.
  assert (R : run_small shutdown = Next (state_of (run_small shutdown))) by (vm_compute; reflexivity).
  split; [exact R|]. split; [vm_compute; reflexivity|].
  assert (C : closed (cur (state_of (run_small shutdown))) = true) by (vm_compute; reflexivity).
  assert (X : forallb exited (queues (cur (state_of (run_small shutdown)))) = true) by (vm_compute; reflexivity).
  exact (proj1 (@queue_drained literal_regexp literal_replace zero_md5 backwards (fun _ => 0) small_queue small_queue_valid ∅ []
           shutdown _ R C X)).
Defined.

Lemma queue_no_panic_witness :
  Stop ∉ resharding /\ run_small resharding <> Panic.
Proof.
  assert (NS : Stop ∉ resharding) by (cbn; repeat (apply not_elem_of_cons; split; [discriminate|]); apply not_elem_of_nil).
  split; [exact NS|].
  apply (@queue_no_panic literal_regexp literal_replace zero_md5 backwards (fun _ => 0) small_queue small_queue_valid ∅ []
           resharding); [constructor|exact NS].
Defined.
