(* ===== verification/Remote.v ===== *)
(** storage/remote: the codec of the remote protocol, the client of an endpoint
    and the queriers that stand between the engine and it (codec.go, client.go,
    read.go, and the read side of storage.go).

    The queriers built for an endpoint share the slice of its required
    matchers, and [Select] writes to it: the backing arrays of those slices are
    a store that [Select] takes and returns. *)

From S2P Require Import Prelude GoString GoFmt Float Duration Labels Quantile Relabel RuleFmt Storage Engine Buffer Merge Queue.

(** * Messages (prompb) *)

(** A [prompb.Sample] is a pair of a time and a value, like [sample]. *)
Inductive LabelMatcher_Type := EQ | NEQ | RE | NRE | LabelMatcher_other (n : Z).

Record pb_Label := mkPbLabel { pb_Name : string; pb_Value : string }.
Record LabelMatcher := mkLabelMatcher { lm_Type : LabelMatcher_Type; lm_Name : string; lm_Value : string }.
Record ReadHints := mkReadHints { StepMs : Z; Func : string }.
Record Query := mkQuery { StartTimestampMs : Z; EndTimestampMs : Z; q_Matchers : list LabelMatcher; Hints : ReadHints }.
Record TimeSeries := mkTimeSeries { ts_Labels : list pb_Label; ts_Samples : list sample }.
Record QueryResult := mkQueryResult { Timeseries : list TimeSeries }.

(** * Labels and matchers *)

Definition labelProtosToLabels (labelPairs : list pb_Label) : Labels :=
  sort_labels (map (fun l => mkLabel (pb_Name l) (pb_Value l)) labelPairs).
Definition labelsToLabelsProto (ls : Labels) : list pb_Label := map (fun l => mkPbLabel (Name l) (Value l)) ls.
Definition labelsToMetric (ls : Labels) : gmap string string := foldl (fun m l => <[Name l := Value l]> m) ∅ ls.
Definition LabelProtosToMetric (labelPairs : list pb_Label) : gmap string string :=
  foldl (fun m l => <[pb_Name l := pb_Value l]> m) ∅ labelPairs.

(** [sort.Slice] by name. *)
Fixpoint insert_pair (l : pb_Label) (ls : list pb_Label) : list pb_Label :=
  match ls with
  | [] => [l]
  | l' :: ls' => if String.ltb (pb_Name l') (pb_Name l) then l' :: insert_pair l ls' else l :: ls
  end.
Definition MetricToLabelProtos `{MapOrder} (metric : gmap string string) : list pb_Label :=
  foldr insert_pair [] (map (fun kv => mkPbLabel kv.1 kv.2) (map_order metric)).

(** [ToWriteRequest], of the samples of the write queue. *)
Definition ToWriteRequest `{MapOrder} (samples : list RSample) : list TimeSeries :=
  map (fun s => mkTimeSeries (MetricToLabelProtos (r_Metric s)) [mkSample (r_Timestamp s) (r_Value s)]) samples.

(** * The client *)

(** An answer: the status and what could be read of the body, with the error
    that ended the reading. *)
Record Response := mkResponse { StatusCode : Z; Status : string; Body : string; Body_err : option string }.

(** Protocol buffers, snappy and HTTP; [http_Do] is given the headers, the
    address and the body. *)
Class Wire := {
  Marshal_write : list TimeSeries -> result string string;
  Marshal_read : list Query -> result string string;
  Unmarshal_read : string -> result string (list QueryResult);
  snappy_Encode : string -> string;
  snappy_Decode : string -> result string string;
  NewRequest : string -> option string;
  http_Do : list (string * string) -> string -> string -> result string Response
}.

Section client.
Context `{Wire}.

(** [Client]; the timeout is part of [http_Do]. *)
Record Client := mkClient { c_index : Z; c_url : string }.

Definition Client_Name (c : Client) : string := Itoa (c_index c) +:+ ":" +:+ c_url c.

Definition maxErrMsgLen : nat := 256.

(** The first line of the answer, as [bufio.Scanner] splits it. *)
Fixpoint line_of (s : string) : string :=
  match s with
  | "" => ""
  | String c s => if (c =? "010")%char then "" else String c (line_of s)
  end.
Fixpoint dropCR (s : string) : string :=
  match s with
  | "" => ""
  | String c "" => if (c =? "013")%char then "" else s
  | String c s => String c (dropCR s)
  end.
Definition scan_line (body : string) : string := dropCR (line_of (str_take maxErrMsgLen body)).

(** An error of [Store], with whether it is a [recoverableError]. *)
Definition Client_Store (c : Client) (req : list TimeSeries) : option (bool * string) :=
  match Marshal_write req with
  | Err e => Some (false, e)
  | Ok data =>
    let compressed := snappy_Encode data in
    match NewRequest (c_url c) with
    | Some e => Some (false, e)
    | None =>
      match http_Do [("Content-Encoding", "snappy"); ("Content-Type", "application/x-protobuf");
                     ("X-Prometheus-Remote-Write-Version", "0.1.0")] (c_url c) compressed with
      | Err e => Some (true, e)
      | Ok httpResp =>
        let err := if negb (Z.quot (StatusCode httpResp) 100 =? 2)
                   then Some ("server returned HTTP status " +:+ Status httpResp +:+ ": " +:+ scan_line (Body httpResp))
                   else None in
        if Z.quot (StatusCode httpResp) 100 =? 5 then Some (true, default "" err) else (fun e => (false, e)) <$> err
      end
    end
  end.

(** What [sendSamplesWithBackoff] looks at. *)
Definition store_outcome_of (e : option (bool * string)) : store_outcome :=
  match e with None => Stored | Some (true, _) => Recoverable | Some (false, _) => Unrecoverable end.

Definition Client_Read (c : Client) (query : Query) : result string QueryResult :=
  match Marshal_read [query] with
  | Err e => Err ("unable to marshal read request: " +:+ e)
  | Ok data =>
    let compressed := snappy_Encode data in
    match NewRequest (c_url c) with
    | Some e => Err ("unable to create request: " +:+ e)
    | None =>
      match http_Do [("Content-Encoding", "snappy"); ("Content-Type", "application/x-protobuf");
                     ("X-Prometheus-Remote-Read-Version", "0.1.0")] (c_url c) compressed with
      | Err e => Err ("error sending request: " +:+ e)
      | Ok httpResp =>
        if negb (Z.quot (StatusCode httpResp) 100 =? 2) then Err ("server returned HTTP status " +:+ Status httpResp)
        else match Body_err httpResp with
        | Some e => Err ("error reading response: " +:+ e)
        | None =>
          match snappy_Decode (Body httpResp) with
          | Err e => Err ("error reading response: " +:+ e)
          | Ok uncompressed =>
            match Unmarshal_read uncompressed with
            | Err e => Err ("unable to unmarshal response body: " +:+ e)
            | Ok [r] => Ok r
            | Ok rs => Err ("responses: want 1, got " +:+ Itoa (Z.of_nat (length rs)))
            end
          end
        end
      end
    end
  end.
End client.

Section remote.
Context `{RE : Regexp} `{UT : UnicodeTables} `{MO : MapOrder}.

Definition matcher_type (t : MatchType) : LabelMatcher_Type :=
  match t with MatchEqual => EQ | MatchNotEqual => NEQ | MatchRegexp => Remote.RE | MatchNotRegexp => NRE end.
Definition toLabelMatchers (matchers : list Matcher) : list LabelMatcher :=
  map (fun m => mkLabelMatcher (matcher_type (m_Type m)) (m_Name m) (m_Value m)) matchers.

Definition match_type (t : LabelMatcher_Type) : option MatchType :=
  match t with
  | EQ => Some MatchEqual | NEQ => Some MatchNotEqual | Remote.RE => Some MatchRegexp | NRE => Some MatchNotRegexp
  | LabelMatcher_other _ => None
  end.
Fixpoint fromLabelMatchers (matchers : list LabelMatcher) : result string (list Matcher) :=
  match matchers with
  | [] => Ok []
  | m :: matchers =>
    match match_type (lm_Type m) with
    | None => Err "invalid matcher type"
    | Some mtype =>
      match NewMatcher mtype (lm_Name m) (lm_Value m) with
      | Err e => Err e
      | Ok matcher => match fromLabelMatchers matchers with Err e => Err e | Ok r => Ok (matcher :: r) end
      end
    end
  end.

Definition ToQuery (from to : Z) (matchers : list Matcher) (p : SelectParams) : Query :=
  mkQuery from to (toLabelMatchers matchers) (mkReadHints (sp_Step p) (sp_Func p)).
Definition FromQuery (req : Query) : result string (Z * Z * list Matcher) :=
  match fromLabelMatchers (q_Matchers req) with
  | Err e => Err e
  | Ok matchers => Ok (StartTimestampMs req, EndTimestampMs req, matchers)
  end.

Fixpoint validateLabelsAndMetricName (ls : Labels) : option string :=
  match ls with
  | [] => None
  | l :: ls =>
    if (Name l =? MetricName)%string && negb (IsValidMetricName (Value l)) then Some ("Invalid metric name: " +:+ Value l)
    else if negb (IsValid (Name l)) then Some ("Invalid label name: " +:+ Name l)
    else if negb (LabelValue_IsValid (Value l)) then Some ("Invalid label value: " +:+ Value l)
    else validateLabelsAndMetricName ls
  end.

(** * Series *)

Record concreteSeries := mkConcrete { c_labels : Labels; c_samples : list sample }.

Definition concrete_Labels (c : concreteSeries) : Labels := New (c_labels c).

(** [concreteSeriesIterator]; [cur] is -1 at the start. *)
Record concreteSeriesIterator := mkConcreteIt { ci_cur : Z; ci_series : concreteSeries }.

Definition newConcreteSeriersIterator (s : concreteSeries) : concreteSeriesIterator := mkConcreteIt (-1) s.

Definition ci_len (c : concreteSeriesIterator) : nat := length (c_samples (ci_series c)).

Definition concrete_Seek (x : Z) (c : concreteSeriesIterator) : bool * concreteSeriesIterator :=
  let cur := Search (ci_len c) (fun n => x <=? t (default zero_sample (c_samples (ci_series c) !! n))) in
  ((cur <? ci_len c)%nat, mkConcreteIt (Z.of_nat cur) (ci_series c)).
Definition concrete_At (c : concreteSeriesIterator) : sample :=
  default zero_sample (c_samples (ci_series c) !! Z.to_nat (ci_cur c)).
Definition concrete_Next (c : concreteSeriesIterator) : bool * concreteSeriesIterator :=
  let cur := ci_cur c + 1 in (cur <? Z.of_nat (ci_len c), mkConcreteIt cur (ci_series c)).

#[export] Instance concrete_SeriesIterator : SeriesIterator concreteSeriesIterator :=
  { it_Seek := concrete_Seek; it_At := concrete_At; it_Next := concrete_Next }.

(** The series a set returns: one of the answer, or one of those with labels
    taken away ([seriesFilter]). *)
Inductive series := Concrete (c : concreteSeries) | Filtered (s : series) (toFilter : gmap string string).

Fixpoint series_Labels (s : series) : Labels :=
  match s with
  | Concrete c => concrete_Labels c
  | Filtered s toFilter => List.filter (fun l => match toFilter !! Name l with Some _ => false | None => true end) (series_Labels s)
  end.
Fixpoint series_Iterator (s : series) : concreteSeriesIterator :=
  match s with Concrete c => newConcreteSeriersIterator c | Filtered s _ => series_Iterator s end.

(** * Sets of series *)

Record concreteSeriesSet := mkConcreteSet { cs_cur : nat; cs_series : list concreteSeries }.

(** The sets [Select] returns. *)
Inductive series_set :=
| ConcreteSet (c : concreteSeriesSet)
| errSeriesSet (e : string)
| NoopSeriesSet
| seriesSetFilter (s : series_set) (toFilter : gmap string string).

Fixpoint set_Next (s : series_set) : bool * series_set :=
  match s with
  | ConcreteSet c => ((cs_cur c <? length (cs_series c))%nat, ConcreteSet (mkConcreteSet (Datatypes.S (cs_cur c)) (cs_series c)))
  | errSeriesSet _ | NoopSeriesSet => (false, s)
  | seriesSetFilter s toFilter => let (b, s) := set_Next s in (b, seriesSetFilter s toFilter)
  end.

(** The value of [At] in front of the first [Next], where the code panics or
    returns nil. *)
Definition no_series : series := Concrete (mkConcrete [] []).

Fixpoint set_At (s : series_set) : series :=
  match s with
  | ConcreteSet c => match cs_series c !! (cs_cur c - 1)%nat with Some x => Concrete x | None => no_series end
  | errSeriesSet _ | NoopSeriesSet => no_series
  | seriesSetFilter s toFilter => Filtered (set_At s) toFilter
  end.
Fixpoint set_Err (s : series_set) : option string :=
  match s with errSeriesSet e => Some e | seriesSetFilter s _ => set_Err s | _ => None end.

#[export] Instance series_set_Cursor : Cursor series_set series := { c_Next := set_Next; c_At := set_At }.

(** [sort.Sort(byLabel(series))] *)
Fixpoint insert_series (s : concreteSeries) (ss : list concreteSeries) : list concreteSeries :=
  match ss with
  | [] => [s]
  | s' :: ss' => if Compare (concrete_Labels s') (concrete_Labels s) <? 0 then s' :: insert_series s ss' else s :: ss
  end.
Definition sort_series (ss : list concreteSeries) : list concreteSeries := foldr insert_series [] ss.

Fixpoint result_series (ts : list TimeSeries) : result string (list concreteSeries) :=
  match ts with
  | [] => Ok []
  | x :: ts =>
    let ls := labelProtosToLabels (ts_Labels x) in
    match validateLabelsAndMetricName ls with
    | Some e => Err e
    | None => match result_series ts with Err e => Err e | Ok ss => Ok (mkConcrete ls (ts_Samples x) :: ss) end
    end
  end.
Definition FromQueryResult (res : QueryResult) : series_set :=
  match result_series (Timeseries res) with
  | Err e => errSeriesSet e
  | Ok ss => ConcreteSet (mkConcreteSet 0 (sort_series ss))
  end.

(** [ToQueryResult] of any set of series: [None] when the loops run out of
    fuel. *)
Section encode.
Context {SS S It : Type} `{CS : Cursor SS S} `{CI : Cursor It sample}.
Variables (ss_Err : SS -> option string) (s_Labels : S -> Labels) (s_Iterator : S -> It) (i_Err : It -> option string).

Fixpoint collect_samples (fuel : nat) (it : It) : option (list sample * It) :=
  match fuel with
  | O => None
  | Datatypes.S f =>
    let (b, it) := c_Next it in
    if b : bool then r ← collect_samples f it; Some (c_At it :: r.1, r.2) else Some ([], it)
  end.
Fixpoint ToQueryResult (fuel : nat) (ss : SS) : option (result string QueryResult) :=
  match fuel with
  | O => None
  | Datatypes.S f =>
    let (b, ss) := c_Next ss in
    if b : bool then
      let s := c_At ss in
      r ← collect_samples fuel (s_Iterator s);
      match i_Err r.2 with
      | Some e => Some (Err e)
      | None =>
        rest ← ToQueryResult f ss;
        Some (match rest with
              | Err e => Err e
              | Ok q => Ok (mkQueryResult (mkTimeSeries (labelsToLabelsProto (s_Labels s)) r.1 :: Timeseries q))
              end)
      end
    else match ss_Err ss with Some e => Some (Err e) | None => Some (Ok (mkQueryResult [])) end
  end.
End encode.

(** * Queriers *)

(** The answer of the endpoint to a query: an HTTP request. *)
Definition client : Type := Query -> result string QueryResult.

(** The queryables of [ApplyConfig]; the required matchers are a slice of the
    store, given by its number. *)
Inductive queryable :=
| QueryableClient (c : client)
| ExternablLabelsHandler (next : queryable) (externalLabels : gmap string string)
| RequiredMatchersFilter (next : queryable) (required : nat)
| PreferLocalStorageFilter (next : queryable) (cb : result string Z).

Inductive querier :=
| ClientQuerier (mint maxt : Z) (c : client)
| externalLabelsQuerier (q : querier) (externalLabels : gmap string string)
| requiredMatchersQuerier (q : querier) (required : nat)
| NoopQuerier.

Fixpoint Querier_ (qa : queryable) (mint maxt : Z) : result string querier :=
  match qa with
  | QueryableClient c => Ok (ClientQuerier mint maxt c)
  | ExternablLabelsHandler next ext =>
    match Querier_ next mint maxt with Err e => Err e | Ok q => Ok (externalLabelsQuerier q ext) end
  | RequiredMatchersFilter next required =>
    match Querier_ next mint maxt with Err e => Err e | Ok q => Ok (requiredMatchersQuerier q required) end
  | PreferLocalStorageFilter next cb =>
    match cb with
    | Err e => Err e
    | Ok localStartTime =>
      if localStartTime <? mint then Ok NoopQuerier
      else Querier_ next mint (if localStartTime <? maxt then localStartTime else maxt)
    end
  end.

(** [addExternalLabels]: the matchers with those of the labels the user did not
    ask for, and those labels. *)
Definition addExternalLabels (externalLabels : gmap string string) (ms : list Matcher) : list Matcher * gmap string string :=
  let el := foldl (fun el m => delete (m_Name m) el) externalLabels ms in
  (ms ++ map (fun kv => mkMatcher MatchEqual kv.1 kv.2 None) (map_order el), el).

(** Whether a matcher of the query is a required one. *)
Definition same_matcher (m r : Matcher) : bool :=
  bool_decide (m_Type m = MatchEqual) && (m_Name m =? m_Name r)%string && (m_Value m =? m_Value r)%string.

Fixpoint find_required (m : Matcher) (ms : list Matcher) (i : nat) : option nat :=
  match ms with
  | [] => None
  | r :: ms => if same_matcher m r then Some i else find_required m ms (Datatypes.S i)
  end.

(** The loop over the matchers: [ms] is the prefix of length [n] of [arr], the
    backing array, and [append(ms[:i], ms[i+1:]...)] moves the elements behind
    [i] in that array. *)
Definition remove_at (arr : list Matcher) (n i : nat) : list Matcher :=
  take i arr ++ drop (Datatypes.S i) (take n arr) ++ drop (n - 1) arr.
Fixpoint required_loop (matchers : list Matcher) (arr : list Matcher) (n : nat) : list Matcher * nat :=
  match matchers with
  | [] => (arr, n)
  | m :: matchers =>
    let (arr, n) := match find_required m (take n arr) 0 with
                    | Some i => (remove_at arr n i, (n - 1)%nat)
                    | None => (arr, n)
                    end in
    if (n =? 0)%nat then (arr, n) else required_loop matchers arr n
  end.

Fixpoint Select (q : querier) (p : SelectParams) (matchers : list Matcher) (store : list (list Matcher))
  : result string series_set * list (list Matcher) :=
  match q with
  | ClientQuerier mint maxt c =>
    (match c (ToQuery mint maxt matchers p) with Err e => Err e | Ok res => Ok (FromQueryResult res) end, store)
  | externalLabelsQuerier q ext =>
    let (m, added) := addExternalLabels ext matchers in
    match Select q p m store with
    | (Err e, store) => (Err e, store)
    | (Ok s, store) => (Ok (seriesSetFilter s added), store)
    end
  | requiredMatchersQuerier q required =>
    let arr := default [] (store !! required) in
    let (arr, n) := required_loop matchers arr (length arr) in
    let store := <[required := arr]> store in
    if (0 <? n)%nat then (Ok NoopSeriesSet, store) else Select q p matchers store
  | NoopQuerier => (Ok NoopSeriesSet, store)
  end.

Definition labelsToEqualityMatchers (ls : gmap string string) : list Matcher :=
  map (fun kv => mkMatcher MatchEqual kv.1 kv.2 None) (map_order ls).

(** [RemoteReadConfig], with the client made for it. *)
Record RemoteReadConfig := mkReadConfig { rr_client : result string client; RequiredMatchers : gmap string string; ReadRecent : bool }.

(** The queryable of an endpoint, the [i]th; the required matchers go to the
    slot [i] of the store. *)
Definition read_queryable (ext : gmap string string) (cb : result string Z) (c : client) (rr : RemoteReadConfig) (i : nat) : queryable :=
  let q := ExternablLabelsHandler (QueryableClient c) ext in
  let q := if (0 <? size (RequiredMatchers rr))%nat then RequiredMatchersFilter q i else q in
  if negb (ReadRecent rr) then PreferLocalStorageFilter q cb else q.

(** The queryables that [ApplyConfig] leaves, and its error: those of the
    endpoints in front of one whose client cannot be made stay. It panics at a
    nil endpoint. *)
Fixpoint read_queryables (ext : gmap string string) (cb : result string Z) (rrs : list (option RemoteReadConfig)) (i : nat)
  : option (list queryable * list (list Matcher) * option string) :=
  match rrs with
  | [] => Some ([], [], None)
  | None :: _ => None
  | Some rr :: rrs =>
    match rr_client rr with
    | Err e => Some ([], [], Some e)
    | Ok c =>
      '(qs, store, err) ← read_queryables ext cb rrs (Datatypes.S i);
      Some (read_queryable ext cb c rr i :: qs, labelsToEqualityMatchers (RequiredMatchers rr) :: store, err)
    end
  end.

(** The queriers that [Storage.Querier] merges. *)
Fixpoint all_queriers (qs : list queryable) (mint maxt : Z) : result string (list querier) :=
  match qs with
  | [] => Ok []
  | qa :: qs =>
    match Querier_ qa mint maxt with
    | Err e => Err e
    | Ok q => match all_queriers qs mint maxt with Err e => Err e | Ok r => Ok (q :: r) end
    end
  end.
End remote.
