(* ===== verification/RemoteFacts.v ===== *)
(** Remote read: what a query through an endpoint returns, the round trips of
    the codec, and where the queriers do not keep what they are given. *)

From S2P Require Import Prelude GoString GoFmt Float Duration Labels LabelsFacts Parser Quantile Relabel RuleFmt Storage Engine Buffer Merge Queue Remote.
From Stdlib Require Import Sorting.Sorted.

(** * Reading a cursor to its end *)

(** [Next] goes through [vs], then stops in the state [c']. *)
Fixpoint reads `{Cursor C V} (c : C) (vs : list V) (c' : C) : Prop :=
  match vs with
  | [] => c_Next c = (false, c')
  | v :: vs => exists c1, c_Next c = (true, c1) /\ c_At c1 = v /\ reads c1 vs c'
  end.

Lemma reads_yields `{Cursor C V} (vs : list V) : forall c c', reads c vs c' -> yields c vs.
Proof.
  induction vs as [|v vs IH]; intros c c'; cbn; [by intros ->|].
  intros (c1 & -> & E & R). split; [done|]. split; [done|]. by apply (IH _ c').
Qed.

#[export] Instance concrete_cursor : Cursor concreteSeriesIterator sample := { c_Next := concrete_Next; c_At := concrete_At }.

(** ** The iterator of a series *)

Lemma concrete_reads_from cs pre rest :
  c_samples cs = pre ++ rest ->
  reads (mkConcreteIt (Z.of_nat (length pre) - 1) cs) rest (mkConcreteIt (Z.of_nat (length (pre ++ rest))) cs).
Proof.
  revert pre. induction rest as [|s rest IH]; intros pre E; cbn [reads c_Next concrete_cursor concrete_Next ci_cur ci_series];
    unfold concrete_Next, ci_len; cbn [ci_cur ci_series]; rewrite E, length_app, Z.sub_add.
  - rewrite Nat.add_0_r. by rewrite Z.ltb_irrefl.
  - eexists. split; [f_equal; apply Z.ltb_lt; cbn [length]; lia|]. split.
    + cbn [c_At concrete_cursor]. unfold concrete_At. cbn [ci_cur ci_series]. rewrite Nat2Z.id, E. by rewrite list_lookup_middle.
    + replace (Z.of_nat (length pre)) with (Z.of_nat (length (pre ++ [s])) - 1) by (rewrite length_app; cbn; lia).
      rewrite <- length_app. change (s :: rest) with ([s] ++ rest). rewrite app_assoc. apply IH. by rewrite <- app_assoc.
Qed.

Lemma concrete_reads cs :
  reads (newConcreteSeriersIterator cs) (c_samples cs) (mkConcreteIt (Z.of_nat (length (c_samples cs))) cs).
Proof. exact (concrete_reads_from cs [] (c_samples cs) eq_refl). Qed.

(** ** A set of series *)

Lemma set_reads_from pre rest :
  reads (ConcreteSet (mkConcreteSet (length pre) (pre ++ rest))) (map Concrete rest)
        (ConcreteSet (mkConcreteSet (Datatypes.S (length (pre ++ rest))) (pre ++ rest))).
Proof.
  revert pre. induction rest as [|s rest IH]; intros pre; cbn [map reads c_Next series_set_Cursor set_Next cs_cur cs_series];
    rewrite length_app.
  - cbn [length]. by rewrite Nat.add_0_r, Nat.ltb_irrefl.
  - eexists. split; [f_equal; apply Nat.ltb_lt; cbn [length]; lia|]. split.
    + cbn [c_At series_set_Cursor set_At cs_cur cs_series]. by rewrite Nat.sub_succ, Nat.sub_0_r, list_lookup_middle.
    + replace (Datatypes.S (length pre)) with (length (pre ++ [s])) by (rewrite length_app; cbn; lia).
      rewrite <- length_app. change (s :: rest) with ([s] ++ rest). rewrite app_assoc. apply IH.
Qed.

Lemma set_reads ss :
  reads (ConcreteSet (mkConcreteSet 0 ss)) (map Concrete ss) (ConcreteSet (mkConcreteSet (Datatypes.S (length ss)) ss)).
Proof. exact (set_reads_from [] ss). Qed.

Lemma filter_reads toFilter xs : forall s s', reads s xs s' ->
  reads (seriesSetFilter s toFilter) (map (fun x => Filtered x toFilter) xs) (seriesSetFilter s' toFilter).
Proof.
  induction xs as [|x xs IH]; intros s s'; cbn [map reads c_Next c_At series_set_Cursor set_Next].
  - by intros ->.
  - intros (s1 & -> & E & R). eexists. split; [done|]. cbn [set_At]. rewrite E. auto.
Qed.

(** * The codec *)

Lemma labels_proto_roundtrip ls : wf_labels ls -> labelProtosToLabels (labelsToLabelsProto ls) = ls.
Proof.
  intros W. unfold labelProtosToLabels, labelsToLabelsProto. rewrite map_map.
  rewrite (map_ext _ id) by (by intros []). rewrite map_id.
  symmetry. apply sorted_unique; [by apply wf_names|done|done].
Qed.

Section codec.
Context `{RE : Regexp}.

(** A matcher as [NewMatcher] builds it. *)
Definition built (m : Matcher) : Prop := NewMatcher (m_Type m) (m_Name m) (m_Value m) = Ok m.

Lemma matchers_roundtrip ms : Forall built ms -> fromLabelMatchers (toLabelMatchers ms) = Ok ms.
Proof.
  induction 1 as [|m ms B _ IH]; [done|]. unfold built in B. unfold toLabelMatchers in *.
  cbn [map fromLabelMatchers lm_Type lm_Name lm_Value].
  assert (match_type (matcher_type (m_Type m)) = Some (m_Type m)) as -> by (by destruct (m_Type m)).
  by rewrite B, IH.
Qed.

Lemma query_roundtrip from to ms p : Forall built ms -> FromQuery (ToQuery from to ms p) = Ok (from, to, ms).
Proof. intros B. unfold FromQuery, ToQuery. cbn. by rewrite matchers_roundtrip. Qed.

Definition encode (c : concreteSeries) : TimeSeries := mkTimeSeries (labelsToLabelsProto (c_labels c)) (c_samples c).

(** Labels in order that [FromQueryResult] lets through. *)
Definition acceptable (ls : Labels) : Prop := wf_labels ls /\ validateLabelsAndMetricName ls = None.

Lemma result_series_encode cs : Forall (fun c => acceptable (c_labels c)) cs -> result_series (map encode cs) = Ok cs.
Proof.
  induction 1 as [|c cs [W V] _ IH]; [done|]. cbn [map result_series encode ts_Labels ts_Samples].
  rewrite labels_proto_roundtrip, V, IH by done. by destruct c.
Qed.

Lemma concrete_Labels_wf c : wf_labels (c_labels c) -> concrete_Labels c = c_labels c.
Proof. intros W. symmetry. apply sorted_unique; [by apply wf_names|done|done]. Qed.

Definition series_lt (a b : concreteSeries) : Prop := Compare (c_labels a) (c_labels b) < 0.

Lemma sort_series_sorted cs : Forall (fun c => wf_labels (c_labels c)) cs -> StronglySorted series_lt cs -> sort_series cs = cs.
Proof.
  intros W O. induction O as [|c cs O IH F]; [done|]. inversion_clear W as [|? ? W1 W2]. cbn [sort_series foldr].
  unfold sort_series in IH. rewrite IH by done. destruct cs as [|d cs]; [done|]. cbn [insert_series].
  inversion_clear F as [|? ? L _]. inversion_clear W2. rewrite !concrete_Labels_wf by done.
  unfold series_lt in L. rewrite Compare_opp in L. by destruct (Z.ltb_spec (Compare (c_labels d) (c_labels c)) 0); [lia|].
Qed.

Lemma insert_series_perm s ss : insert_series s ss ≡ₚ s :: ss.
Proof. induction ss as [|x ss IH]; cbn; [done|]. case_match; [|done]. rewrite IH. apply perm_swap. Qed.

Lemma sort_series_perm ss : sort_series ss ≡ₚ ss.
Proof. induction ss as [|s ss IH]; cbn; [done|]. by rewrite insert_series_perm, IH. Qed.

Section answer.
Context {SS S It : Type} `{CS : Cursor SS S} `{CI : Cursor It sample}.
Variables (ss_Err : SS -> option string) (s_Labels : S -> Labels) (s_Iterator : S -> It) (i_Err : It -> option string).

Lemma collect_reads fuel : forall it xs it', reads it xs it' -> (length xs < fuel)%nat -> collect_samples fuel it = Some (xs, it').
Proof.
  induction fuel as [|fuel IH]; intros it [|x xs] it' R L; cbn [length reads collect_samples] in *; try lia; [by rewrite R|].
  destruct R as (c1 & -> & E & R). rewrite (IH _ _ _ R) by lia. cbn. by rewrite E.
Qed.

(** A series of the set with its samples, which are read without an error. *)
Definition has_samples (s : S) (c : concreteSeries) (bound : nat) : Prop :=
  c_labels c = s_Labels s /\ (length (c_samples c) < bound)%nat /\
  exists it', reads (s_Iterator s) (c_samples c) it' /\ i_Err it' = None.

Lemma ToQueryResult_reads cs : forall fuel ss xs ss', reads ss xs ss' ->
  Forall2 (fun x c => has_samples x c (fuel - length xs)) xs cs -> (length xs < fuel)%nat ->
  ToQueryResult ss_Err s_Labels s_Iterator i_Err fuel ss =
  Some (match ss_Err ss' with Some e => Err e | None => Ok (mkQueryResult (map encode cs)) end).
Proof.
  induction cs as [|c cs IH]; intros [|fuel] ss xs ss' R F L; [lia| |lia|]; inversion F as [|x ? xs' ? [EL [B (it' & RI & EI)]] F']; subst;
    cbn [length reads ToQueryResult] in *.
  - rewrite R. by case_match.
  - destruct R as (s1 & -> & <- & R). rewrite (collect_reads _ _ _ _ RI) by lia. cbn [mbind option_bind snd fst]. rewrite EI.
    rewrite (IH fuel s1 xs' ss' R F' ltac:(lia)). cbn [mbind option_bind]. rewrite <- EL. by destruct (ss_Err ss').
Qed.
End answer.
End codec.

(** * What an endpoint returns *)

Section read.
Context `{RE : Regexp} `{MO : MapOrder}.

Definition selected (ms : list Matcher) (ls : Labels) : bool :=
  forallb (fun m => bool_decide (Matches m (Get ls (m_Name m)) = Some true)) ms.

(** The samples of a series from [mint] to [maxt]. *)
Definition restrict (mint maxt : Z) (c : concreteSeries) : concreteSeries :=
  mkConcrete (c_labels c) (List.filter (fun s => (mint <=? t s) && (t s <=? maxt)) (c_samples c)).
Definition nonempty (c : concreteSeries) : bool := match c_samples c with [] => false | _ => true end.

(** The series of [db] that match, with their samples in range, without those
    that have none. *)
Definition in_answer (mint maxt : Z) (ms : list Matcher) (c : concreteSeries) : bool :=
  selected ms (c_labels c) && nonempty (restrict mint maxt c).
Definition answer (db : list concreteSeries) (mint maxt : Z) (ms : list Matcher) : list concreteSeries :=
  map (restrict mint maxt) (List.filter (in_answer mint maxt ms) db).

(** The endpoint of [c] stores [db] and answers queries from it, in any order. *)
Definition serves (c : client) (db : list concreteSeries) : Prop :=
  forall q mint maxt ms, FromQuery q = Ok (mint, maxt, ms) ->
  exists cs, c q = Ok (mkQueryResult (map encode cs)) /\ cs ≡ₚ answer db mint maxt ms.

Lemma answer_labels db mint maxt ms (P : Labels -> Prop) :
  Forall (fun c => P (c_labels c)) db -> Forall (fun c => P (c_labels c)) (answer db mint maxt ms).
Proof.
  intros F. apply Forall_map, Forall_forall. intros c I. apply list_elem_of_In, filter_In in I as [I _].
  rewrite Forall_forall in F. exact (F c (proj2 (list_elem_of_In _ _) I)).
Qed.

(** ** In label order *)

Definition series_le (a b : concreteSeries) : Prop := Compare (c_labels a) (c_labels b) <= 0.

Lemma insert_series_sorted s ss : Forall (fun c => wf_labels (c_labels c)) (s :: ss) ->
  StronglySorted series_le ss -> StronglySorted series_le (insert_series s ss).
Proof.
  intros W O. inversion_clear W as [|? ? Ws W']. induction O as [|x ss O IH F]; [by repeat constructor|].
  inversion_clear W' as [|? ? Wx W]. cbn [insert_series]. rewrite !concrete_Labels_wf by done.
  assert (T : forall a b, Compare (c_labels a) (c_labels b) = - Compare (c_labels b) (c_labels a)) by (intros; apply Compare_opp).
  destruct (Z.ltb_spec (Compare (c_labels x) (c_labels s)) 0).
  - constructor; [auto|]. rewrite insert_series_perm. constructor; [unfold series_le; lia|done].
  - assert (series_le s x) by (unfold series_le; rewrite T; lia). constructor; [by constructor|]. constructor; [done|].
    eapply Forall_impl; [exact F|]. intros y. by apply Compare_le_trans.
Qed.

Lemma sort_series_wf ss : Forall (fun c => wf_labels (c_labels c)) ss -> StronglySorted series_le (sort_series ss).
Proof.
  induction 1 as [|s ss W F IH]; [constructor|]. apply insert_series_sorted; [|done]. constructor; [done|].
  by rewrite sort_series_perm.
Qed.

(** ** The external labels *)

Lemma deleted_lookup (ms : list Matcher) : forall (ext : gmap string string) k v,
  foldl (fun el m => delete (m_Name m) el) ext ms !! k = Some v <-> ext !! k = Some v /\ k ∉ map m_Name ms.
Proof.
  induction ms as [|m ms IH]; intros ext k v; cbn [foldl map]; [by rewrite elem_of_nil; naive_solver|].
  rewrite IH, lookup_delete_Some, not_elem_of_cons. naive_solver.
Qed.

(** A series carries the labels [el]. *)
Definition carries (el : gmap string string) (ls : Labels) : bool :=
  bool_decide (map_Forall (fun k v => Get ls k = v) el).

Definition ext_matchers (el : gmap string string) : list Matcher :=
  map (fun kv => mkMatcher MatchEqual kv.1 kv.2 None) (map_order el).

Lemma ext_matchers_built el : Forall built (ext_matchers el).
Proof. apply Forall_map, Forall_forall. by intros. Qed.

Lemma selected_app ms ms' ls : selected (ms ++ ms') ls = selected ms ls && selected ms' ls.
Proof. apply forallb_app. Qed.

Lemma selected_ext el ls : selected (ext_matchers el) ls = carries el ls.
Proof.
  apply eq_true_iff_eq. unfold selected, carries, ext_matchers. rewrite forallb_forall, bool_decide_eq_true.
  setoid_rewrite in_map_iff. split.
  - intros H k v E. specialize (H (mkMatcher MatchEqual k v None)). cbn in H.
    assert (I : In (k, v) (map_order el)) by (apply list_elem_of_In, elem_of_map_order; done).
    specialize (H ltac:(by exists (k, v))). apply bool_decide_eq_true in H. injection H as H. by apply String.eqb_eq in H.
  - intros F m ((k & v) & <- & I). apply list_elem_of_In, elem_of_map_order in I. specialize (F k v I). cbn in F |- *.
    apply bool_decide_eq_true. by rewrite F, String.eqb_refl.
Qed.

Lemma Select_client mint maxt c db p ms store : serves c db -> Forall built ms -> Forall (fun x => acceptable (c_labels x)) db ->
  exists cs, Select (ClientQuerier mint maxt c) p ms store = (Ok (ConcreteSet (mkConcreteSet 0 cs)), store) /\
    cs ≡ₚ answer db mint maxt ms /\ StronglySorted series_le cs.
Proof.
  intros S B A. destruct (S _ _ _ _ (query_roundtrip mint maxt ms p B)) as (cs & E & P).
  assert (AC : Forall (fun x => acceptable (c_labels x)) cs) by (rewrite P; by apply answer_labels).
  exists (sort_series cs). cbn [Select]. rewrite E. unfold FromQueryResult. cbn [Timeseries].
  rewrite result_series_encode by done. split; [done|]. split; [by rewrite sort_series_perm|].
  apply sort_series_wf. eapply Forall_impl; [done|]. by intros x [].
Qed.

(** The external labels for which a matcher is added. *)
Definition added (ext : gmap string string) (ms : list Matcher) : gmap string string :=
  filter (fun kv => kv.1 ∉ map m_Name ms) ext.

Lemma addExternalLabels_eq ext ms : addExternalLabels ext ms = (ms ++ ext_matchers (added ext ms), added ext ms).
Proof.
  unfold addExternalLabels, ext_matchers.
  assert (foldl (fun el m => delete (m_Name m) el) ext ms = added ext ms) as ->; [|done].
  apply map_eq. intros k. apply option_eq. intros v. unfold added. rewrite deleted_lookup. by rewrite map_lookup_filter_Some.
Qed.

(** The labels that are left when those of [el] are taken away. *)
Definition strip (el : gmap string string) (ls : Labels) : Labels :=
  List.filter (fun l => bool_decide (el !! Name l = None)) ls.

(** A series as the engine sees it. *)
Definition shows (x : series) (r : Labels * list sample) : Prop :=
  series_Labels x = r.1 /\ exists it', reads (series_Iterator x) r.2 it'.

Lemma Filtered_shows c el : wf_labels (c_labels c) -> shows (Filtered (Concrete c) el) (strip el (c_labels c), c_samples c).
Proof.
  intros W. split; [|eexists; apply concrete_reads]. cbn [series_Labels fst]. rewrite concrete_Labels_wf by done.
  apply filter_ext. intros l. by destruct (el !! Name l).
Qed.

Lemma Filtered_all_show cs el : Forall (fun c => wf_labels (c_labels c)) cs ->
  Forall2 shows (map (fun x => Filtered x el) (map Concrete cs)) (map (fun c => (strip el (c_labels c), c_samples c)) cs).
Proof. induction 1; constructor; [by apply Filtered_shows|done]. Qed.

Lemma answer_ext db mint maxt ms el :
  answer db mint maxt (ms ++ ext_matchers el) =
  map (restrict mint maxt) (List.filter (fun c => in_answer mint maxt ms c && carries el (c_labels c)) db).
Proof.
  unfold answer. f_equal. apply filter_ext. intros c. unfold in_answer. rewrite selected_app, selected_ext.
  destruct (selected ms _), (carries el _), (nonempty _); done.
Qed.

(** [Select] of the querier of an endpoint, before its labels are looked at. *)
Lemma external_Select c db ext mint maxt p ms store :
  serves c db -> Forall (fun x => acceptable (c_labels x)) db -> Forall built ms ->
  exists cs s', let s := seriesSetFilter (ConcreteSet (mkConcreteSet 0 cs)) (added ext ms) in
    Select (externalLabelsQuerier (ClientQuerier mint maxt c) ext) p ms store = (Ok s, store) /\
    cs ≡ₚ answer db mint maxt (ms ++ ext_matchers (added ext ms)) /\ StronglySorted series_le cs /\
    reads s (map (fun x => Filtered x (added ext ms)) (map Concrete cs)) s' /\ set_Err s' = None /\
    Forall2 shows (map (fun x => Filtered x (added ext ms)) (map Concrete cs)) (map (fun c => (strip (added ext ms) (c_labels c), c_samples c)) cs).
Proof.
  intros S A B.
  destruct (Select_client mint maxt c db p (ms ++ ext_matchers (added ext ms)) store S) as (cs & E & P & O); [|done|].
  { apply Forall_app. split; [done|apply ext_matchers_built]. }
  exists cs. eexists. cbv zeta. cbn [Select]. rewrite addExternalLabels_eq. cbn [Select] in E |- *. injection E as E. rewrite E.
  split; [done|]. split; [done|]. split; [done|]. split; [apply filter_reads, set_reads|]. split; [done|].
  apply Filtered_all_show. rewrite P. apply (answer_labels db _ _ _ wf_labels). eapply Forall_impl; [exact A|]. by intros x [].
Qed.


(** ** Written, then read *)

Lemma strip_written (m ext : gmap string string) : m ##ₘ ext -> strip ext (FromMap (m ∪ ext)) = FromMap m.
Proof.
  intros D. apply Map_inj; [apply wf_filter, FromMap_wf|apply FromMap_wf|]. rewrite Map_FromMap.
  apply map_eq. intros k. apply option_eq. intros v.
  rewrite Map_lookup by (apply wf_names, wf_filter, FromMap_wf). unfold strip. rewrite list_elem_of_In, filter_In, <- list_elem_of_In.
  rewrite <- (Map_lookup (FromMap (m ∪ ext))) by (apply wf_names, FromMap_wf). cbn [Name].
  rewrite Map_FromMap, bool_decide_eq_true, lookup_union_Some by done.
  split; [intros [[H|H] N]; congruence|]. intros H. split; [by left|]. by apply (map_disjoint_Some_l m ext k v).
Qed.

Lemma Get_written (m ext : gmap string string) k : ext !! k = None -> Get (FromMap (m ∪ ext)) k = Get (FromMap m) k.
Proof.
  intros N. rewrite !Get_Map by (apply wf_names, FromMap_wf). rewrite !Map_FromMap.
  by rewrite (lookup_union_l m ext) by done.
Qed.

Lemma carries_written (m ext : gmap string string) : m ##ₘ ext -> carries ext (FromMap (m ∪ ext)) = true.
Proof.
  intros D. apply bool_decide_eq_true. intros k v E. rewrite Get_Map by (apply wf_names, FromMap_wf).
  rewrite Map_FromMap. by rewrite (lookup_union_Some_r m ext k v).
Qed.

Lemma selected_written ms (m ext : gmap string string) : Forall (fun x => ext !! m_Name x = None) ms ->
  selected ms (FromMap (m ∪ ext)) = selected ms (FromMap m).
Proof. induction 1 as [|x ms N _ IH]; [done|]. cbn. unfold selected in IH. by rewrite Get_written, IH. Qed.

Lemma insert_pair_perm l ls : insert_pair l ls ≡ₚ l :: ls.
Proof. induction ls as [|x ls IH]; cbn; [done|]. case_match; [|done]. rewrite IH. apply perm_swap. Qed.

(** The labels of a metric, sent and unpacked. *)
Lemma metric_proto_roundtrip m : labelProtosToLabels (MetricToLabelProtos m) = FromMap m.
Proof.
  assert (P : MetricToLabelProtos m ≡ₚ map (fun kv => mkPbLabel kv.1 kv.2) (map_to_list m)).
  { unfold MetricToLabelProtos. rewrite <- map_order_perm. generalize (map (fun kv => mkPbLabel kv.1 kv.2) (map_order m)).
    induction l as [|x l IH]; cbn; [done|]. by rewrite insert_pair_perm, IH. }
  unfold labelProtosToLabels, FromMap, New.
  assert (Q : map (fun l => mkLabel (pb_Name l) (pb_Value l)) (MetricToLabelProtos m) ≡ₚ map (fun kv => mkLabel kv.1 kv.2) (map_to_list m)).
  { rewrite P, map_map. done. }
  apply sorted_unique; [apply map_to_list_labels|by rewrite sort_labels_perm|].
  apply sort_labels_wf. rewrite (names_perm _ _ Q). apply map_to_list_labels.
Qed.

(** What an endpoint keeps of the samples sent to it: a series for each metric,
    with the labels of its [ToWriteRequest]. *)
Definition kept_series (ext : gmap string string) (w : gmap string string * list sample) : concreteSeries :=
  mkConcrete (labelProtosToLabels (MetricToLabelProtos (w.1 ∪ ext))) w.2.

Lemma kept_labels ext w : c_labels (kept_series ext w) = FromMap (w.1 ∪ ext).
Proof. apply metric_proto_roundtrip. Qed.

(** An endpoint that keeps samples with external labels, queried by matchers
    that do not name these labels, returns the metrics that satisfy them as they
    were without them. *)
Lemma kept_read (c : client) (ext : gmap string string) (written : list (gmap string string * list sample))
  (mint maxt : Z) (p : SelectParams) (ms : list Matcher) (store : list (list Matcher))
  (S : serves c (map (kept_series ext) written)) (D : Forall (fun w => w.1 ##ₘ ext) written)
  (V : Forall (fun w => validateLabelsAndMetricName (FromMap (w.1 ∪ ext)) = None) written)
  (B : Forall built ms) (N : Forall (fun x => ext !! m_Name x = None) ms) :
  exists q s xs s' rs,
    Querier_ (ExternablLabelsHandler (QueryableClient c) ext) mint maxt = Ok q /\
    Select q p ms store = (Ok s, store) /\
    reads s xs s' /\ set_Err s' = None /\ Forall2 shows xs rs /\
    rs ≡ₚ map (fun w => (FromMap w.1, c_samples (restrict mint maxt (mkConcrete [] w.2))))
              (List.filter (fun w => in_answer mint maxt ms (mkConcrete (FromMap w.1) w.2)) written).
Proof.
  assert (E : added ext ms = ext).
  { apply map_filter_id. intros k v L I. cbn [fst] in I. apply list_elem_of_fmap in I as (x & -> & I). rewrite Forall_forall in N.
    specialize (N x I). congruence. }
  destruct (external_Select c _ ext mint maxt p ms store S) as (cs & s' & ES & P & _ & R & NE & F); [|done|].
  { apply Forall_map. eapply Forall_impl; [exact V|]. intros w Vw. unfold compose. rewrite kept_labels.
    split; [apply FromMap_wf|done]. }
  eexists _, _, _, s', _. split; [done|]. split; [exact ES|]. split; [exact R|]. split; [done|]. split; [exact F|].
  rewrite P, answer_ext, map_map, E. clear -D N. induction D as [|w ws D _ IH]; [done|]. cbn [map List.filter].
  assert (in_answer mint maxt ms (kept_series ext w) && carries ext (c_labels (kept_series ext w)) =
          in_answer mint maxt ms (mkConcrete (FromMap w.1) w.2)) as ->.
  { unfold in_answer. rewrite kept_labels, carries_written, selected_written, andb_true_r by done. done. }
  destruct (in_answer _ _ _ _); cbn [map]; [|exact IH]. rewrite IH. cbn [restrict c_labels]. by rewrite kept_labels, strip_written.
Qed.
End read.

(** * Required matchers *)

Section required.
Context `{RE : Regexp} `{MO : MapOrder}.

Lemma find_required_spec m l : forall k,
  match find_required m l k with
  | Some i => exists a r b, l = a ++ r :: b /\ i = (k + length a)%nat /\ same_matcher m r = true
  | None => Forall (fun r => same_matcher m r = false) l
  end.
Proof.
  induction l as [|x l IH]; intros k; cbn; [done|]. destruct (same_matcher m x) eqn:E.
  - exists [], x, l. cbn. repeat split; [lia|done].
  - specialize (IH (Datatypes.S k)). destruct (find_required _ _ _).
    + destruct IH as (a & r & b & -> & -> & Er). exists (x :: a), r, b. cbn. repeat split; [lia|done].
    + by constructor.
Qed.

Lemma find_required_repeat m z n k : same_matcher m z = false -> find_required m (repeat z n) k = None.
Proof. intros E. revert k. induction n as [|n IH]; intros k; cbn; [done|]. by rewrite E. Qed.

(** The required matchers that none of [M] is. *)
Definition unmet (M : list Matcher) (rs : list Matcher) : list Matcher :=
  List.filter (fun r => negb (existsb (fun m => same_matcher m r) M)) rs.

Lemma same_matcher_name m r : same_matcher m r = true -> m_Name m = m_Name r.
Proof. unfold same_matcher. intros H. apply andb_true_iff in H as [H _]. apply andb_true_iff in H as [_ H]. by apply String.eqb_eq. Qed.

Lemma unmet_cons_none m M rs : Forall (fun r => same_matcher m r = false) rs -> unmet (m :: M) rs = unmet M rs.
Proof.
  intros F. apply filter_ext_in. intros r I. cbn [existsb]. rewrite List.Forall_forall in F. by rewrite (F r I).
Qed.

(** A matcher of the query takes one matcher away. *)
Lemma unmet_cons_one m M a r b : NoDup (map m_Name (a ++ r :: b)) -> same_matcher m r = true ->
  unmet (m :: M) (a ++ r :: b) = unmet M (a ++ b).
Proof.
  intros N E. rewrite map_app in N. cbn in N. apply NoDup_app in N as (_ & Na & Nb). apply NoDup_cons in Nb as [Nb _].
  assert (O : forall l, m_Name r ∉ map m_Name l -> Forall (fun x => same_matcher m x = false) l).
  { intros l I. apply Forall_forall. intros x X. apply not_true_is_false. intros C. apply I, list_elem_of_fmap.
    exists x. split; [|done]. by rewrite <- (same_matcher_name m r E), <- (same_matcher_name m x C). }
  assert (A : forall M x y, unmet M (x ++ y) = unmet M x ++ unmet M y) by (intros; apply List.filter_app).
  rewrite !A. change (r :: b) with ([r] ++ b). rewrite A. unfold unmet at 2. cbn [List.filter existsb]. rewrite E. cbn [orb negb app].
  rewrite !unmet_cons_none; [done|by apply O|]. apply O. intros I. apply (Na _ I). apply list_elem_of_here.
Qed.

Lemma take_remove_at arr a r b n : take n arr = a ++ r :: b -> (n <= length arr)%nat ->
  length (remove_at arr n (length a)) = length arr /\ take (n - 1) (remove_at arr n (length a)) = a ++ b.
Proof.
  intros E L. assert (LN : n = (length a + Datatypes.S (length b))%nat).
  { pose proof (f_equal length E) as LE. rewrite length_take, length_app in LE. cbn in LE. lia. }
  unfold remove_at. rewrite E.
  assert (TA : take (length a) arr = a).
  { rewrite <- (firstn_all2 (n := length a) (take (length a) arr)) by (rewrite length_take; lia).
    replace (take (length a) arr) with (take (length a) (take n arr)) by (rewrite take_take; f_equal; lia).
    rewrite E, take_app_length. by rewrite firstn_all. }
  rewrite TA. replace (drop (Datatypes.S (length a)) (a ++ r :: b)) with b.
  2:{ replace (Datatypes.S (length a)) with (length (a ++ [r])) by (rewrite length_app; cbn; lia).
      change (a ++ r :: b) with (a ++ [r] ++ b). by rewrite app_assoc, drop_app_length. }
  split; [rewrite !length_app, length_drop; lia|]. rewrite app_assoc. apply take_app_length'. rewrite length_app. lia.
Qed.

(** The loop over a slice that no query has written to: what is left are the
    required matchers that the query does not have. *)
Lemma required_loop_spec M : forall arr n, (n <= length arr)%nat -> NoDup (map m_Name (take n arr)) ->
  snd (required_loop M arr n) = length (unmet M (take n arr)).
Proof.
  induction M as [|m M IH]; intros arr n L N; cbn [required_loop].
  - unfold unmet. cbn [existsb negb]. rewrite List.filter_true, length_take. cbn. lia.
  - pose proof (find_required_spec m (take n arr) 0) as F. destruct (find_required _ _ _) as [i|].
    + destruct F as (a & r & b & E & -> & S). cbn [Nat.add]. destruct (take_remove_at _ _ _ _ _ E L) as [LR T].
      rewrite E, (unmet_cons_one m M a r b) by (done || by rewrite <- E). rewrite <- T.
      assert (N' : NoDup (map m_Name (take (n - 1) (remove_at arr n (length a))))).
      { rewrite T. rewrite E in N. rewrite !map_app in *. cbn in N. by apply NoDup_ListNoDup, (List.NoDup_remove_1 _ _ (m_Name r)), NoDup_ListNoDup. }
      destruct (Nat.eqb_spec (n - 1) 0) as [Z|]; [by rewrite Z|]. apply IH; [lia|done].
    + rewrite unmet_cons_none by done. destruct (Nat.eqb_spec n 0) as [->|]; [done|]. by apply IH.
Qed.

Definition equality (m : Matcher) : Prop := m_Type m = MatchEqual.

Lemma same_matcher_self m : equality m -> same_matcher m m = true.
Proof. intros E. unfold same_matcher. by rewrite bool_decide_eq_true_2, !String.eqb_refl. Qed.

(** A query that has the required matchers first and in their order: each is
    found in front and the rest is moved over it, until the slice holds copies
    of the last one. *)
Lemma required_loop_in_order z rest l : forall k, last l = Some z -> Forall equality l ->
  required_loop (l ++ rest) (l ++ repeat z k) (length l) = (repeat z (length l + k), O).
Proof.
  induction l as [|x l IH]; intros k La F; [done|]. inversion_clear F as [|? ? Ex F'].
  cbn [app length take required_loop find_required]. rewrite same_matcher_self by done.
  assert (R : remove_at (x :: l ++ repeat z k) (Datatypes.S (length l)) 0 = l ++ repeat z (Datatypes.S k)).
  { unfold remove_at. cbn [take drop app]. rewrite drop_0, take_app_length. f_equal. rewrite Nat.sub_succ, Nat.sub_0_r.
    destruct (exists_last (l := x :: l)) as (l' & y & E); [done|]. rewrite E, last_snoc in La. injection La as ->.
    change (x :: l ++ repeat z k) with ((x :: l) ++ repeat z k). rewrite E, <- app_assoc.
    assert (length l = length l') as -> by (pose proof (f_equal length E) as LE; rewrite length_app in LE; cbn in LE; lia).
    by rewrite drop_app_length. }
  rewrite R, Nat.sub_succ, Nat.sub_0_r. destruct l as [|y l].
  - done.
  - cbn [length Nat.eqb]. rewrite Nat.add_succ_l, <- Nat.add_succ_r. by apply (IH (Datatypes.S k)).
Qed.

(** On copies of one matcher. *)
Lemma required_loop_copies M z k : forall n, (n <= k)%nat -> (length (List.filter (fun m => same_matcher m z) M) < n)%nat ->
  required_loop M (repeat z k) n = (repeat z k, (n - length (List.filter (fun m => same_matcher m z) M))%nat).
Proof.
  induction M as [|m M IH]; intros n L C; cbn [required_loop List.filter] in *; [f_equal; cbn; lia|].
  destruct n as [|n]; [lia|]. assert (T : take (Datatypes.S n) (repeat z k) = z :: repeat z n).
  { replace k with (Datatypes.S n + (k - Datatypes.S n))%nat by lia. rewrite repeat_app. by rewrite take_app_length' by (by rewrite repeat_length). }
  rewrite T. cbn [find_required].
  destruct (same_matcher m z) eqn:Ez; cbn [length] in *.
  - assert (R : remove_at (repeat z k) (Datatypes.S n) 0 = repeat z k).
    { unfold remove_at. rewrite T, take_0. cbn [drop app]. rewrite drop_0, Nat.sub_succ, Nat.sub_0_r.
      replace k with (n + (k - n))%nat at 1 by lia. rewrite repeat_app, drop_app_length' by (by rewrite repeat_length).
      rewrite <- repeat_app. f_equal. lia. }
    rewrite R, Nat.sub_succ, Nat.sub_0_r. destruct (Nat.eqb_spec n 0) as [->|]; [lia|]. rewrite IH by lia. f_equal. 
  - rewrite find_required_repeat by done. cbn [Nat.eqb]. by rewrite IH by lia.
Qed.

Lemma same_name_once z M : NoDup (map m_Name M) -> (length (List.filter (fun m => same_matcher m z) M) <= 1)%nat.
Proof.
  induction M as [|m M IH]; cbn [map List.filter]; [cbn; lia|]. intros [N1 N2]%NoDup_cons.
  destruct (same_matcher m z) eqn:E; [|by apply IH]. cbn [length].
  enough (List.filter (fun m => same_matcher m z) M = []) as -> by (cbn; lia).
  apply filter_none. intros x I. apply not_true_is_false. intros Ex. apply N1, list_elem_of_fmap. exists x.
  split; [|done]. by rewrite (same_matcher_name m z E), (same_matcher_name x z Ex).
Qed.

Lemma unmet_nil M rs : (length (unmet M rs) =? 0)%nat = forallb (fun r => existsb (fun m => same_matcher m r) M) rs.
Proof. unfold unmet. induction rs as [|r rs IH]; [done|]. cbn [List.filter forallb]. by destruct (existsb _ _). Qed.

(** The querier of an endpoint does not look at the store. *)
Lemma external_keeps_store mint maxt c ext p M store :
  Select (externalLabelsQuerier (ClientQuerier mint maxt c) ext) p M store =
  (fst (Select (externalLabelsQuerier (ClientQuerier mint maxt c) ext) p M []), store).
Proof. cbn [Select]. rewrite addExternalLabels_eq. by destruct (c _). Qed.

(** The required matchers of an endpoint. On the slice that [ApplyConfig]
    made, a query is passed on exactly when it has every required matcher,
    and is answered with no series otherwise. But the slice is shared and
    written to: when the required matchers are two or more and the query has
    them in the order of the slice, the same query asked again is answered
    with no series. *)
Theorem required_matchers_once (c : client) (ext : gmap string string) (mint maxt : Z) (p : SelectParams)
  (ms : list Matcher) (store : list (list Matcher)) (i : nat) (L : store !! i = Some ms) (N : NoDup (map m_Name ms)) :
  let inner := externalLabelsQuerier (ClientQuerier mint maxt c) ext in
  let q := requiredMatchersQuerier inner i in
  (forall M, fst (Select q p M store) =
     if forallb (fun r => existsb (fun m => same_matcher m r) M) ms then fst (Select inner p M store) else Ok NoopSeriesSet) /\
  (forall rest, Forall equality ms -> (2 <= length ms)%nat -> Forall (fun m => m_Name m ∉ map m_Name ms) rest ->
     let (s, store') := Select q p (ms ++ rest) store in
     s = fst (Select inner p (ms ++ rest) store) /\ fst (Select q p (ms ++ rest) store') = Ok NoopSeriesSet).
Proof.
  intros inner q. assert (SQ : forall M st, Select q p M st =
    let (arr, n) := required_loop M (default [] (st !! i)) (length (default [] (st !! i))) in
    if (0 <? n)%nat then (Ok NoopSeriesSet, <[i := arr]> st) else Select inner p M (<[i := arr]> st)) by done.
  assert (SI : forall M st st', fst (Select inner p M st) = fst (Select inner p M st')).
  { intros. unfold inner. by rewrite (external_keeps_store _ _ _ _ _ _ st), (external_keeps_store _ _ _ _ _ _ st'). }
  split.
  - intros M. rewrite SQ, L. cbn [default id]. pose proof (required_loop_spec M ms (length ms) ltac:(lia)) as R.
    rewrite firstn_all in R. specialize (R N). rewrite <- unmet_nil, <- R. destruct (required_loop _ _ _) as [arr n]. cbn [snd].
    destruct n; [apply SI|done].
  - intros rest F L2 NR. destruct (last ms) as [z|] eqn:La; [|apply last_None in La; subst; cbn in L2; lia].
    pose proof (required_loop_in_order z rest ms 0 La F) as R. cbn [repeat] in R. rewrite app_nil_r, Nat.add_0_r in R.
    rewrite SQ, L. cbn [default id]. rewrite R. cbn [Nat.ltb Nat.leb]. unfold inner. rewrite external_keeps_store.
    cbn [fst]. split; [by rewrite (external_keeps_store _ _ _ _ _ _ store)|].
    rewrite SQ, list_lookup_insert_eq by (by eapply lookup_lt_Some). cbn [default id]. rewrite repeat_length.
    assert (C : (length (List.filter (fun m => same_matcher m z) (ms ++ rest)) < length ms)%nat).
    { rewrite List.filter_app, length_app. pose proof (same_name_once z ms N).
      enough (List.filter (fun m => same_matcher m z) rest = []) as -> by (cbn; lia).
      apply filter_none. intros x I. apply not_true_is_false. intros Ex. rewrite Forall_forall in NR. apply (NR x I).
      rewrite (same_matcher_name x z Ex). apply list_elem_of_fmap. exists z. split; [done|]. by apply last_Some_elem_of. }
    rewrite required_loop_copies by (done || lia). by destruct (Nat.ltb_spec 0 (length ms - length (List.filter (fun m => same_matcher m z) (ms ++ rest)))); [|lia].
Qed.
End required.

(** * Round trip of an answer *)

(** The codec of remote read. The matchers and the range of a query come
    out of [FromQuery] as they went into [ToQuery]. A set of series in label
    order that is read to its end without an error, written by
    [ToQueryResult] and unpacked by [FromQueryResult], is the same series
    again, in the same order, with the same labels and samples; the fuel needed
    is the number of series and the samples of one of them. *)
Theorem remote_codec_roundtrip `{RE : Regexp} {SS S It : Type} `{CS : Cursor SS S} `{CI : Cursor It sample}
  (ss_Err : SS -> option string) (s_Labels : S -> Labels) (s_Iterator : S -> It) (i_Err : It -> option string)
  (from to : Z) (ms : list Matcher) (p : SelectParams) (ss ss' : SS) (xs : list S) (cs : list concreteSeries) (fuel : nat)
  (B : Forall built ms) (R : reads ss xs ss') (E : ss_Err ss' = None)
  (H : Forall2 (fun x c => has_samples s_Labels s_Iterator i_Err x c (fuel - length xs)) xs cs) (F : (length xs < fuel)%nat)
  (A : Forall (fun c => acceptable (c_labels c)) cs) (O : StronglySorted series_lt cs) :
  FromQuery (ToQuery from to ms p) = Ok (from, to, ms) /\
  exists res s', ToQueryResult ss_Err s_Labels s_Iterator i_Err fuel ss = Some (Ok res) /\
    reads (FromQueryResult res) (map Concrete cs) s' /\ set_Err s' = None /\
    Forall2 (fun x c => series_Labels (Concrete c) = s_Labels x /\
      exists it it', reads (s_Iterator x) (c_samples c) it /\ reads (series_Iterator (Concrete c)) (c_samples c) it') xs cs.
Proof.
  split; [by apply query_roundtrip|].
  assert (W : Forall (fun c => wf_labels (c_labels c)) cs) by (eapply Forall_impl; [exact A|]; by intros c []).
  eexists _, _. rewrite (ToQueryResult_reads _ _ _ _ cs fuel ss xs ss' R H F), E. split; [done|].
  unfold FromQueryResult. cbn [Timeseries]. rewrite result_series_encode, sort_series_sorted by done.
  split; [apply set_reads|]. split; [done|]. clear -H W.
  induction H as [|x c xs0 cs0 [EL [_ (it & RI & _)]] _ IH]; [done|]. inversion_clear W. constructor; [|by apply IH].
  cbn [series_Labels]. rewrite concrete_Labels_wf by done. split; [done|]. exists it. eexists. split; [done|]. apply concrete_reads.
Qed.

(** * The iterator of a series moves both ways *)

Lemma time_sorted_at xs : time_sorted xs -> forall a b u w, xs !! a = Some u -> xs !! b = Some w -> (a < b)%nat -> t u <= t w.
Proof.
  induction 1 as [|s xs O IH F]; intros a b u w Ea Eb L; [done|]. destruct b as [|b]; [lia|].
  destruct a as [|a]; cbn in Ea, Eb; [|by apply (IH a b); [..|lia]]. injection Ea as ->.
  rewrite Forall_forall in F. by apply F, (list_elem_of_lookup_2 _ b).
Qed.

(** [Seek] of the iterator of a series, from wherever it stands: it stops at
    the first sample of the series that is not before [x], also when this is
    behind the current one, where [storage.SeriesIterator] says forward. *)
Lemma concrete_Seek_first (x : Z) (it : concreteSeriesIterator) :
  time_sorted (c_samples (ci_series it)) ->
  let (b, it') := concrete_Seek x it in
  let n := seek_index x (c_samples (ci_series it)) 0 in
  ci_series it' = ci_series it /\ ci_cur it' = Z.of_nat n /\ b = (n <? length (c_samples (ci_series it)))%nat.
Proof.
  intros O. unfold concrete_Seek, ci_len. cbn [ci_series ci_cur]. set (xs := c_samples (ci_series it)) in *.
  set (f n := x <=? t (default zero_sample (xs !! n))).
  enough (Search (length xs) f = seek_index x xs 0) as -> by done.
  assert (M : forall a b, (a <= b)%nat -> (b < length xs)%nat -> f a = true -> f b = true).
  { intros a b L Lb. unfold f. destruct (lookup_lt_is_Some_2 xs a ltac:(lia)) as [u Eu], (lookup_lt_is_Some_2 xs b Lb) as [w Ew].
    rewrite Eu, Ew. cbn. intros X%Z.leb_le. apply Z.leb_le. destruct (decide (a = b)) as [->|]; [congruence|].
    pose proof (time_sorted_at xs O a b u w Eu Ew ltac:(lia)). lia. }
  destruct (Search_first (length xs) f M) as (S1 & S2 & S3). destruct (seek_index_spec x xs 0) as (I1 & I2 & I3 & I4).
  revert S1 S2 S3. generalize (Search (length xs) f). intros k S1 S2 S3. cbn [Nat.add] in *. rewrite Nat.sub_0_r in I3.
  destruct (Nat.lt_trichotomy k (seek_index x xs 0)) as [C|[C|C]]; [|done|].
  - specialize (S3 ltac:(lia)). destruct (lookup_lt_is_Some_2 xs k ltac:(lia)) as [u Eu].
    specialize (I2 _ _ Eu C). unfold f in S3. rewrite Eu in S3. cbn in S3. apply Z.leb_le in S3. lia.
  - specialize (S2 _ C). destruct (lookup_lt_is_Some_2 xs (seek_index x xs 0) ltac:(lia)) as [u Eu].
    specialize (I3 _ Eu). unfold f in S2. rewrite Eu in S2. cbn in S2. apply Z.leb_gt in S2. lia.
Qed.

(** * Witnesses *)

#[local] Existing Instance no_regexp.
#[local] Existing Instance tree_order.

(** An endpoint that answers from [db]. *)
Definition server `{RE : Regexp} (db : list concreteSeries) : client := fun q =>
  match FromQuery q with
  | Err e => Err e
  | Ok (mint, maxt, ms) => Ok (mkQueryResult (map encode (answer db mint maxt ms)))
  end.

Lemma server_serves `{RE : Regexp} db : serves (server db) db.
Proof. intros q mint maxt ms E. exists (answer db mint maxt ms). unfold server. by rewrite E. Qed.

Definition eu : gmap string string := {[ "dc" := "eu" ]}.
Definition m_matcher `{RE : Regexp} : Matcher := mkMatcher MatchEqual "__name__" "m" None.
Definition m_metric : gmap string string := {[ "__name__" := "m" ]}.
Definition m_200 : gmap string string := <["code" := "200"]> m_metric.
Definition two_metrics : list (gmap string string * list sample) :=
  [(m_metric, [mkSample 5 (of_Z 1); mkSample 15 (of_Z 2)]); (m_200, [mkSample 7 (of_Z 3)])].
Definition no_params : SelectParams := mkSelectParams 0 "".

Lemma m_matcher_built `{RE : Regexp} : Forall built [m_matcher].
Proof. by repeat constructor. Qed.


Lemma required_matchers_once_witness :
  let a := mkMatcher MatchEqual "a" "1" None in let b := mkMatcher MatchEqual "b" "2" None in
  let c := server [] in
  let q := requiredMatchersQuerier (externalLabelsQuerier (ClientQuerier 0 10 c) eu) 0 in
  NoDup (map m_Name [a; b]) /\
  let (s, store') := Select q no_params [a; b; m_matcher] [[a; b]] in
  s = Ok (seriesSetFilter (ConcreteSet (mkConcreteSet 0 [])) eu) /\
  fst (Select q no_params [a; b; m_matcher] store') = Ok NoopSeriesSet.
Proof.
  intros a b c q.
  assert (N : NoDup (map m_Name [a; b])) by (apply (bool_decide_unpack _); reflexivity).
  split; [exact N|].
  destruct (required_matchers_once c eu 0 10 no_params [a; b] [[a; b]] 0 eq_refl N) as [_ H].
  specialize (H [m_matcher]). cbv zeta in H.
  assert (D : Forall (fun m => m_Name m ∉ map m_Name [a; b]) [m_matcher]) by (apply (bool_decide_unpack _); reflexivity).
  specialize (H ltac:(repeat constructor) ltac:(cbn; lia) D). exact H.
Defined.

Lemma remote_codec_roundtrip_witness :
  let cs := [mkConcrete [mkLabel "__name__" "m"] [mkSample 5 (of_Z 1); mkSample 6 (of_Z 2)];
             mkConcrete [mkLabel "__name__" "n"] [mkSample 5 (of_Z 3)]] in
  exists res s', ToQueryResult set_Err series_Labels series_Iterator (fun _ => None) 5 (ConcreteSet (mkConcreteSet 0 cs)) = Some (Ok res) /\
    reads (FromQueryResult res) (map Concrete cs) s' /\ set_Err s' = None.
Proof.
  intros cs.
  destruct (remote_codec_roundtrip set_Err series_Labels series_Iterator (fun _ => None) 0 10 [m_matcher] no_params
    (ConcreteSet (mkConcreteSet 0 cs)) (ConcreteSet (mkConcreteSet 3 cs)) (map Concrete cs) cs 5) as (_ & res & s' & E & R & N & _).
  - apply m_matcher_built.
  - apply set_reads.
  - reflexivity.
  - repeat constructor; try (cbn; lia); eexists; split; try apply concrete_reads; reflexivity.
  - cbn. lia.
  - repeat constructor.
  - repeat constructor.
  - exists res, s'. split; [exact E|]. split; [exact R|exact N].
Defined.

(** * External labels and the order of a set *)

(** The label sets a merged set returns, [n] at most. *)
Fixpoint label_sets {C S} `{Cursor C S} (labels_of : S -> Labels) (n : nat) (m : mergeSeriesSet) : list Labels :=
  match n with
  | O => []
  | Datatypes.S n =>
    let (b, m) := Merge.set_Next labels_of m in
    if b : bool then match Merge.set_At m with inl s => labels_of s | inr (ls, _) => ls end :: label_sets labels_of n m else []
  end.

(** An example: the series of an endpoint are in the order of the labels they have
    there; without the external labels they need not be in order any more,
    and [mergeSeriesSet] relies on it. With the series [m] and [m{code}] both
    in the local storage and at the endpoint, the merged set returns [m] twice
    instead of one series with the samples of both. *)
Example external_labels_break_order :
  let db := map (kept_series eu) two_metrics in
  let local := map (fun w => mkConcrete (FromMap w.1) w.2) two_metrics in
  exists s m, Select (externalLabelsQuerier (ClientQuerier 0 10 (server db)) eu) no_params [m_matcher] [] = (Ok s, []) /\
    NewMergeSeriesSet series_Labels [ConcreteSet (mkConcreteSet 0 (sort_series local)); s] = inr m /\
    label_sets series_Labels 10 m = [FromMap m_metric; FromMap m_200; FromMap m_metric].
Proof.
  intros db local. eexists (seriesSetFilter (ConcreteSet (mkConcreteSet 0 _)) _), _.
  split; [vm_compute; reflexivity|]. split; [reflexivity|]. vm_compute. reflexivity.
Qed.
