(* ===== verification/RemoteTrip.v ===== *)
(** Remote write and remote read together: from the samples appended to a queue,
    through its shards, requests and an endpoint that keeps what it receives, to
    the series that a query through the endpoint returns. *)

From S2P Require Import Prelude GoString Float Duration Labels LabelsFacts Relabel MapRelabel Storage Engine Buffer Merge Queue QueueFacts Remote RemoteFacts.

(** * An endpoint *)

(** The labels of a time series, as [LabelProtosToMetric] unpacks them. *)
Definition key (ts : TimeSeries) : Labels := FromMap (LabelProtosToMetric (ts_Labels ts)).

(** What an endpoint keeps of the time series it receives: for each label set
    the samples, in the order in which they arrive. *)
Definition keep (rq : list TimeSeries) : list concreteSeries :=
  map (fun ls => mkConcrete ls (flat_map ts_Samples (base.filter (fun ts => key ts = ls) rq))) (remove_dups (map key rq)).

Definition sample_of_queue (s : RSample) : sample := mkSample (r_Timestamp s) (r_Value s).

(** The samples of a metric. *)
Definition of_metric (m : gmap string string) (l : list RSample) : list RSample := base.filter (fun s => r_Metric s = m) l.

(** The metrics that samples have, each with its samples in order. *)
Definition by_metric (l : list RSample) : list (gmap string string * list sample) :=
  map (fun m => (m, map sample_of_queue (of_metric m l))) (remove_dups (map r_Metric l)).

(** * Lists *)

Lemma remove_dups_perm `{EqDecision A} (l k : list A) : l ≡ₚ k -> remove_dups l ≡ₚ remove_dups k.
Proof. intros P. apply NoDup_Permutation; [apply NoDup_remove_dups..|]. intros x. by rewrite !elem_of_remove_dups, P. Qed.

Lemma remove_dups_map `{EqDecision A, EqDecision B} (f : A -> B) (l : list A) :
  (forall x y, x ∈ l -> y ∈ l -> f x = f y -> x = y) -> remove_dups (map f l) ≡ₚ map f (remove_dups l).
Proof.
  intros I. apply NoDup_Permutation; [apply NoDup_remove_dups| |].
  - apply NoDup_fmap_2_strong; [|apply NoDup_remove_dups]. intros x y Hx Hy. rewrite elem_of_remove_dups in Hx, Hy. by apply I.
  - intros y. rewrite elem_of_remove_dups, !list_elem_of_map. by setoid_rewrite elem_of_remove_dups.
Qed.

Lemma List_filter_perm {A} (f : A -> bool) (l k : list A) : l ≡ₚ k -> List.filter f l ≡ₚ List.filter f k.
Proof.
  induction 1 as [|x l k P IH|x y l|l k m P1 IH1 P2 IH2]; [done| | |by rewrite IH1]; cbn.
  - destruct (f x); by rewrite IH.
  - destruct (f x), (f y); try done. apply perm_swap.
Qed.

Section trip.
Context `{RE : Regexp} `{RR : !RegexpReplace} `{M5 : MD5} `{MO : MapOrder}.

(** * Requests *)

Lemma LabelProtosToMetric_lookup ls k v : NoDup (map pb_Name ls) -> LabelProtosToMetric ls !! k = Some v <-> mkPbLabel k v ∈ ls.
Proof.
  intros N. unfold LabelProtosToMetric.
  enough (forall acc : gmap string string, foldl (fun m l => <[pb_Name l := pb_Value l]> m) acc ls !! k = Some v <->
            mkPbLabel k v ∈ ls \/ k ∉ map pb_Name ls /\ acc !! k = Some v) as ->.
  { rewrite lookup_empty. naive_solver. }
  induction ls as [|[a b] ls IH]; intros acc; cbn [foldl map pb_Name pb_Value] in *; [set_solver|].
  apply NoDup_cons in N as [NI N]. rewrite IH by done. rewrite elem_of_cons, not_elem_of_cons. destruct (decide (a = k)) as [->|D].
  - rewrite lookup_insert_eq. split; [intros [I|[_ [= ->]]]; auto|]. intros [[[= ->]|I]|[[? _] _]]; [by right|by left|done].
  - rewrite lookup_insert_ne by done. naive_solver.
Qed.

Lemma metric_proto_map m : LabelProtosToMetric (MetricToLabelProtos m) = m.
Proof.
  assert (P : MetricToLabelProtos m ≡ₚ map (fun kv => mkPbLabel kv.1 kv.2) (map_to_list m)).
  { unfold MetricToLabelProtos. rewrite <- map_order_perm. generalize (map (fun kv => mkPbLabel kv.1 kv.2) (map_order m)).
    induction l as [|x l IH]; cbn; [done|]. by rewrite insert_pair_perm, IH. }
  apply map_eq. intros k. apply option_eq. intros v. rewrite LabelProtosToMetric_lookup.
  - rewrite P, list_elem_of_map. split.
    + intros ([k' v'] & [= -> ->] & I). by apply elem_of_map_to_list.
    + intros E. exists (k, v). split; [done|]. by apply elem_of_map_to_list.
  - rewrite P, map_map. apply NoDup_fst_map_to_list.
Qed.

Lemma map_key_written l : map key (ToWriteRequest l) = map (fun s => FromMap (r_Metric s)) l.
Proof. unfold ToWriteRequest. rewrite map_map. apply map_ext. intros s. unfold key. cbn. by rewrite metric_proto_map. Qed.

Lemma FromMap_inj m m' : FromMap m = FromMap m' -> m = m'.
Proof. intros E. apply (f_equal Map) in E. by rewrite !Map_FromMap in E. Qed.

(** The samples that an endpoint has of a metric. *)
Lemma kept_samples m l :
  flat_map ts_Samples (base.filter (fun ts => key ts = FromMap m) (ToWriteRequest l)) = map sample_of_queue (of_metric m l).
Proof.
  unfold of_metric, ToWriteRequest. induction l as [|s l IH]; [done|]. cbn [map].
  assert (key (mkTimeSeries (MetricToLabelProtos (r_Metric s)) [mkSample (r_Timestamp s) (r_Value s)]) = FromMap (r_Metric s)) as K.
  { unfold key. cbn [ts_Labels]. by rewrite metric_proto_map. }
  rewrite !filter_cons. destruct (decide (r_Metric s = m)) as [<-|D].
  - rewrite decide_True by done. cbn [flat_map map ts_Samples app]. by rewrite IH.
  - rewrite decide_False by (rewrite K; intros E; by apply FromMap_inj in E). exact IH.
Qed.

Lemma keep_requests l : keep (ToWriteRequest l) ≡ₚ map (fun w => mkConcrete (FromMap w.1) w.2) (by_metric l).
Proof.
  unfold keep, by_metric. rewrite map_key_written, map_map.
  rewrite <- (map_map r_Metric FromMap). rewrite remove_dups_map by (intros x y _ _; apply FromMap_inj). rewrite map_map.
  apply Permutation_refl'. apply map_ext. intros m. cbn. by rewrite kept_samples.
Qed.

(** * The queue *)

Lemma of_metric_perm_series m l : of_metric m l = of_metric m (of_series (FastFingerprint m) l).
Proof.
  unfold of_metric, of_series. induction l as [|s l IH]; [done|]. rewrite !filter_cons. destruct (decide (r_Metric s = m)) as [D|D].
  - rewrite (decide_True (P := fp s = _)) by (unfold fp; by rewrite D). rewrite filter_cons, decide_True by done. by rewrite IH.
  - destruct (decide (fp s = _)); [rewrite filter_cons, decide_False by done|]; exact IH.
Qed.

Lemma by_metric_perm l l' : l ≡ₚ l' -> (forall k, of_series k l = of_series k l') -> by_metric l ≡ₚ by_metric l'.
Proof.
  intros P O. unfold by_metric. rewrite (remove_dups_perm (map r_Metric l) (map r_Metric l')) by (by rewrite P).
  apply Permutation_refl'. apply map_ext. intros m. by rewrite of_metric_perm_series, O, <- of_metric_perm_series.
Qed.

Definition outgoing (ext : gmap string string) (s : RSample) : RSample := mkRSample (r_Metric s ∪ ext) (r_Value s) (r_Timestamp s).

Lemma union_ext_inj (m m' ext : gmap string string) : m ##ₘ ext -> m' ##ₘ ext -> m ∪ ext = m' ∪ ext -> m = m'.
Proof. intros D D' E. by apply (map_union_cancel_r m m' ext). Qed.

Lemma of_metric_outgoing ext m l : m ##ₘ ext -> Forall (fun s => r_Metric s ##ₘ ext) l ->
  map sample_of_queue (of_metric (m ∪ ext) (map (outgoing ext) l)) = map sample_of_queue (of_metric m l).
Proof.
  intros D F. unfold of_metric. induction F as [|s l Ds F IH]; [done|]. cbn [map]. rewrite !filter_cons. cbn [outgoing r_Metric].
  destruct (decide (r_Metric s = m)) as [->|N].
  - rewrite decide_True by done. cbn [map]. by rewrite IH.
  - rewrite decide_False by (intros E; by apply union_ext_inj in E). exact IH.
Qed.

Lemma by_metric_outgoing ext l : Forall (fun s => r_Metric s ##ₘ ext) l ->
  by_metric (map (outgoing ext) l) ≡ₚ map (fun w => (w.1 ∪ ext, w.2)) (by_metric l).
Proof.
  intros F. unfold by_metric. rewrite (map_map (outgoing ext) r_Metric).
  change (fun x => r_Metric (outgoing ext x)) with (fun x => r_Metric x ∪ ext). rewrite <- (map_map r_Metric (fun m => m ∪ ext)).
  assert (D : forall m, m ∈ map r_Metric l -> m ##ₘ ext).
  { intros m (s & -> & I)%list_elem_of_map. by eapply Forall_forall in F. }
  rewrite remove_dups_map by (intros x y Hx Hy; apply union_ext_inj; by apply D). rewrite !map_map. cbn [fst snd].
  apply Permutation_refl'. apply map_ext_in. intros m I. apply list_elem_of_In in I. rewrite elem_of_remove_dups in I. f_equal. apply of_metric_outgoing; [by apply D|done].
Qed.

(** The time series of the requests that the endpoint took. *)
Definition received (t : QueueManager) : list TimeSeries := concat (map (fun b : list RSample * bool => if b.2 then ToWriteRequest b.1 else []) (sent t)).

Lemma received_all t : Forall (fun b : list RSample * bool => b.2 = true) (sent t) -> received t = ToWriteRequest (concat (sent t).*1).
Proof.
  unfold received, ToWriteRequest. induction 1 as [|[b d] bs E _ IH]; [done|]. cbn in E. subst d. cbn [map concat fmap list_fmap fst snd].
  by rewrite map_app, IH.
Qed.

Lemma serves_perm c db db' : db ≡ₚ db' -> serves c db -> serves c db'.
Proof.
  intros P S q mint maxt ms E. destruct (S q mint maxt ms E) as (cs & C & A). exists cs. split; [done|]. rewrite A.
  unfold answer. apply Permutation_map. by apply List_filter_perm.
Qed.

(** C11: remote write and remote read together. A queue with sensible settings,
    with external labels and without write relabelling is given samples, and is then stopped; in any
    interleaving of its goroutines with the callers, its shards and reshardings.
    When the queue dropped no sample, every batch was taken and the goroutines
    have returned, an endpoint that keeps what the write requests hold and
    answers queries from it, queried through the queriers of remote read by
    matchers that [NewMatcher] made and that do not name the external labels,
    gives back every metric that
    was appended and satisfies them, as it was in front of the queue, with exactly
    its samples in range, in order. The metrics must be valid and must not have
    an external label of their own, since reading takes those labels away. *)
Theorem remote_write_read (range_map : gmap string string -> list (string * string)) (int_overflow : float64 -> Z) (cfg : QueueConfig)
  (c : client) (ext : gmap string string) (evs : list Queue.event) (t : QueueManager)
  (mint maxt : Z) (p : SelectParams) (ms : list Matcher) (store : list (list Matcher))
  (Q : valid_queue cfg) (R : Queue.run range_map int_overflow cfg ext [] evs NewQueueManager = Next t)
  (C : closed (cur t) = true) (X : forallb exited (queues (cur t)) = true)
  (ND : dropped t = []) (AD : Forall (fun b : list RSample * bool => b.2 = true) (sent t))
  (S : serves c (keep (received t)))
  (D : Forall (fun s => r_Metric s ##ₘ ext) (appended evs))
  (V : Forall (fun s => validateLabelsAndMetricName (FromMap (r_Metric s ∪ ext)) = None) (appended evs))
  (B : Forall built ms) (N : Forall (fun x => ext !! m_Name x = None) ms) :
  exists q s xs s' rs,
    Querier_ (ExternablLabelsHandler (QueryableClient c) ext) mint maxt = Ok q /\
    Select q p ms store = (Ok s, store) /\
    reads s xs s' /\ set_Err s' = None /\ Forall2 shows xs rs /\
    rs ≡ₚ map (fun w => (FromMap w.1, List.filter (fun s => (mint <=? Buffer.t s) && (Buffer.t s <=? maxt)) w.2))
              (List.filter (fun w => in_answer mint maxt ms (mkConcrete (FromMap w.1) w.2)) (by_metric (appended evs))).
Proof.
  destruct (queue_drained range_map int_overflow cfg Q ext [] evs t R C X) as [P O].
  destruct (run_accepts range_map int_overflow cfg Q ext [] evs NewQueueManager t eq_refl R) as (d & Dd & A).
  cbn [accepted dropped NewQueueManager app] in *. rewrite ND in Dd. specialize (A (eq_sym Dd)). change (fun s => mkRSample _ _ _) with (outgoing ext) in A.
  assert (K : serves c (map (kept_series ext) (by_metric (appended evs)))).
  { eapply serves_perm; [|exact S]. rewrite received_all by done. rewrite keep_requests, (by_metric_perm _ (accepted t)) by done.
    rewrite A, by_metric_outgoing by done. rewrite map_map. apply Permutation_refl'. apply map_ext. intros [m xs]. cbn [fst snd].
    unfold kept_series. by rewrite metric_proto_roundtrip. }
  assert (M : forall w (P : gmap string string -> Prop), Forall (fun s => P (r_Metric s)) (appended evs) -> w ∈ by_metric (appended evs) -> P w.1).
  { intros w P' F (m & -> & I)%list_elem_of_map. rewrite elem_of_remove_dups in I. apply list_elem_of_map in I as (s & -> & I).
    cbn. by eapply Forall_forall in F. }
  destruct (kept_read c ext (by_metric (appended evs)) mint maxt p ms store K) as (q & s & xs & s' & rs & E1 & E2 & E3 & E4 & E5 & E6); [| |done..|].
  - apply Forall_forall. intros w I. exact (M w (fun m => m ##ₘ ext) D I).
  - apply Forall_forall. intros w I. exact (M w (fun m => validateLabelsAndMetricName (FromMap (m ∪ ext)) = None) V I).
  - by exists q, s, xs, s', rs.
Qed.
End trip.

(** * A queue that is stopped, and its endpoint *)

#[local] Existing Instances literal_regexp literal_replace zero_md5 tree_order.

Definition short_run : list Queue.event :=
  [Start; Append (sample_of "a" 1); Append (sample_of "b" 2); Append (sample_of "a" 3); Stop;
   Receive Cur 0 0 second_time; Receive Cur 0 0 second_time; Receive Cur 0 0 second_time; Exit Cur 0 0 second_time].

Lemma remote_write_read_witness :
  exists t, Queue.run backwards (fun _ => 0) small_queue eu [] short_run NewQueueManager = Next t /\
    exists q s xs s' rs,
      Querier_ (ExternablLabelsHandler (QueryableClient (server (keep (received t)))) eu) 2 10 = Ok q /\
      Select q no_params [] [] = (Ok s, []) /\ reads s xs s' /\ set_Err s' = None /\ Forall2 shows xs rs /\
      rs ≡ₚ [([mkLabel "job" "a"], [mkSample 3 (of_Z 3)]); ([mkLabel "job" "b"], [mkSample 2 (of_Z 2)])].
Proof.
  assert (R : Queue.run backwards (fun _ => 0) small_queue eu [] short_run NewQueueManager =
              Next (state_of (Queue.run backwards (fun _ => 0) small_queue eu [] short_run NewQueueManager))) by (vm_compute; reflexivity).
  set (t := state_of _) in R. exists t. split; [exact R|].
  destruct (remote_write_read backwards (fun _ => 0) small_queue (server (keep (received t))) eu short_run t 2 10 no_params [] [])
    as (q & s & xs & s' & rs & E1 & E2 & E3 & E4 & E5 & P).
  - exact small_queue_valid.
  - exact R.
  - vm_compute; reflexivity.
  - vm_compute; reflexivity.
  - vm_compute; reflexivity.
  - apply (bool_decide_unpack _). vm_compute. exact I.
  - apply server_serves.
  - assert (D : forall m : gmap string string, m !! "dc" = None -> m ##ₘ eu) by (intros m N; by apply map_disjoint_singleton_r).
    repeat (apply List.Forall_cons; [apply D; reflexivity|]). apply List.Forall_nil.
  - apply (bool_decide_unpack _). vm_compute. exact I.
  - apply List.Forall_nil.
  - apply List.Forall_nil.
  - exists q, s, xs, s', rs. repeat (split; [assumption|]). rewrite P. vm_compute. first [reflexivity | apply perm_swap].
Defined.
