(* ===== verification/RemoteStorage.v ===== *)
(** storage/remote: the storage that writes every sample to the queue of each
    endpoint and reads from all of them (storage.go, write.go).

    The goroutines of the queues run on between the calls: the whole is a system
    whose steps are the calls and the steps of the queues, of those that
    [ApplyConfig] has stopped and which still send what they hold, too. *)

From S2P Require Import Prelude GoString Float Labels Relabel MapRelabel Storage Engine Buffer Merge Fanout Queue QueueFacts Remote.

Section remote_storage.
Context `{RE : Regexp} `{RR : !RegexpReplace} `{M5 : MD5} `{MO : MapOrder}.
Variable range_map : LabelSet -> list (string * string).
Variable int_overflow : float64 -> Z.

(** A queue manager with what [NewQueueManager] was given. *)
Record endpoint := mkEndpoint { e_cfg : QueueConfig; e_ext : LabelSet; e_rcs : list RelabelConfig; e_q : QueueManager }.

(** [RemoteWriteConfig], with the error of making its client. *)
Record RemoteWriteConfig := mkWriteConfig { rw_client : option string; QueueConfig_ : QueueConfig; WriteRelabelConfigs : list RelabelConfig }.

(** The part of [config.Config] that [ApplyConfig] reads; the endpoints are
    pointers, which can be nil. *)
Record Config := mkConfig {
  ExternalLabels : LabelSet; RemoteWriteConfigs : list (option RemoteWriteConfig); RemoteReadConfigs : list (option RemoteReadConfig)
}.

(** [Storage]; the slots are the slices of required matchers that the
    queryables share. *)
Record remote_Storage := mkRemoteStorage {
  rs_queues : list endpoint; rs_queryables : list queryable; rs_slots : list (list Matcher); localStartTimeCallback : result string Z
}.

Definition NewStorage (stCallback : result string Z) : remote_Storage := mkRemoteStorage [] [] [] stCallback.

(** A call returns, waits for a step of a goroutine, or panics. *)
Inductive call A := Returns (a : A) | Waits | Panics.
Arguments Returns {A} a. Arguments Waits {A}. Arguments Panics {A}.

Definition queue_step (ev : Queue.event) (e : endpoint) : call endpoint :=
  match Queue.step range_map int_overflow (e_cfg e) (e_ext e) (e_rcs e) ev (e_q e) with
  | Next q => Returns (mkEndpoint (e_cfg e) (e_ext e) (e_rcs e) q)
  | Disabled => Waits
  | Panic => Panics
  end.

Fixpoint each_queue (f : endpoint -> call endpoint) (es : list endpoint) : call (list endpoint) :=
  match es with
  | [] => Returns []
  | e :: es =>
    match f e with
    | Returns e => match each_queue f es with Returns es => Returns (e :: es) | Waits => Waits | Panics => Panics end
    | Waits => Waits
    | Panics => Panics
    end
  end.

(** [QueueManager.Stop]: stopping twice closes a closed channel. *)
Definition stop_queue (e : endpoint) : call endpoint := if closed (cur (e_q e)) then Panics else queue_step Stop e.

(** The new queue managers, or the error of the first client that cannot be
    made; [None] is the panic at a nil endpoint. *)
Fixpoint new_queues (ext : LabelSet) (rws : list (option RemoteWriteConfig)) : option (result string (list endpoint)) :=
  match rws with
  | [] => Some (Ok [])
  | None :: _ => None
  | Some rw :: rws =>
    match rw_client rw with
    | Some e => Some (Err e)
    | None =>
      r ← new_queues ext rws;
      match r with
      | Err e => Some (Err e)
      | Ok es => Some (Ok (mkEndpoint (QueueConfig_ rw) ext (WriteRelabelConfigs rw) NewQueueManager :: es))
      end
    end
  end.

(** [ApplyConfig]: the error, the storage, and the queues that were stopped. *)
Definition ApplyConfig (conf : Config) (s : remote_Storage) : call (option string * remote_Storage * list endpoint) :=
  match new_queues (ExternalLabels conf) (RemoteWriteConfigs conf) with
  | None => Panics
  | Some (Err e) => Returns (Some e, s, [])
  | Some (Ok newQueues) =>
    match each_queue stop_queue (rs_queues s) with
    | Panics => Panics
    | Waits => Waits
    | Returns stopped =>
      match each_queue (queue_step Start) newQueues with
      | Panics => Panics
      | Waits => Waits
      | Returns queues =>
        match read_queryables (ExternalLabels conf) (localStartTimeCallback s) (RemoteReadConfigs conf) 0 with
        | None => Panics
        | Some (qs, slots, err) => Returns (err, mkRemoteStorage queues qs slots (localStartTimeCallback s), stopped)
        end
      end
    end
  end.

Definition set_queues (es : list endpoint) (s : remote_Storage) : remote_Storage :=
  mkRemoteStorage es (rs_queryables s) (rs_slots s) (localStartTimeCallback s).

Definition StartTime (s : remote_Storage) : Z * option error := (Latest, None).
Definition Querier (s : remote_Storage) (mint maxt : Z) : result string (list querier) := all_queriers (rs_queryables s) mint maxt.

Definition Close (s : remote_Storage) : call (option error * remote_Storage) :=
  match each_queue stop_queue (rs_queues s) with
  | Returns es => Returns (None, set_queues es s)
  | Waits => Waits
  | Panics => Panics
  end.

(** write.go: the storage is its own appender. *)
Definition Add (l : Labels) (t : Z) (v : float64) (s : remote_Storage) : call ((Z * option error) * remote_Storage) :=
  match each_queue (queue_step (Append (mkRSample (labelsToMetric l) v t))) (rs_queues s) with
  | Returns es => Returns ((0, None), set_queues es s)
  | Waits => Waits
  | Panics => Panics
  end.
Definition AddFast (l : Labels) (ref t : Z) (v : float64) (s : remote_Storage) : call (option error * remote_Storage) :=
  match Add l t v s with Returns ((_, err), s) => Returns (err, s) | Waits => Waits | Panics => Panics end.
Definition Commit (s : remote_Storage) : option error * remote_Storage := (None, s).
Definition Rollback (s : remote_Storage) : option error * remote_Storage := (None, s).

(** * The system *)

Record system := mkSystem { live : remote_Storage; retired : list endpoint }.

(** The steps that a queue's own goroutines take. *)
Definition internal (ev : Queue.event) : bool := match ev with Append _ | Start | Stop => false | _ => true end.

Inductive op :=
| OAdd (l : Labels) (t : Z) (v : float64)
| OApply (conf : Config)
| OClose
| OQueue (i : nat) (ev : Queue.event)
| ORetired (i : nat) (ev : Queue.event).

Definition step_at (i : nat) (ev : Queue.event) (es : list endpoint) : call (list endpoint) :=
  if internal ev then
    match es !! i with
    | None => Waits
    | Some e => match queue_step ev e with Returns e => Returns (<[i := e]> es) | Waits => Waits | Panics => Panics end
    end
  else Waits.

Definition step (o : op) (s : system) : call system :=
  match o with
  | OAdd l t v => match Add l t v (live s) with Returns (_, r) => Returns (mkSystem r (retired s)) | Waits => Waits | Panics => Panics end
  | OApply conf =>
    match ApplyConfig conf (live s) with
    | Returns (_, r, stopped) => Returns (mkSystem r (retired s ++ stopped))
    | Waits => Waits
    | Panics => Panics
    end
  | OClose => match Close (live s) with Returns (_, r) => Returns (mkSystem r (retired s)) | Waits => Waits | Panics => Panics end
  | OQueue i ev =>
    match step_at i ev (rs_queues (live s)) with
    | Returns es => Returns (mkSystem (set_queues es (live s)) (retired s))
    | Waits => Waits
    | Panics => Panics
    end
  | ORetired i ev =>
    match step_at i ev (retired s) with Returns es => Returns (mkSystem (live s) es) | Waits => Waits | Panics => Panics end
  end.

Fixpoint run (os : list op) (s : system) : call system :=
  match os with
  | [] => Returns s
  | o :: os => match step o s with Returns s => run os s | Waits => Waits | Panics => Panics end
  end.
End remote_storage.
Arguments Returns {A} a. Arguments Waits {A}. Arguments Panics {A}.
