(* ===== verification/RemoteStorageFacts.v ===== *)
(** The remote storage as a whole: every sample reaches the queue of every
    endpoint, and stopping and replacing the queues loses nothing they hold. *)

From S2P Require Import Prelude GoString Float Labels Relabel MapRelabel Storage Engine Buffer Merge Fanout Queue QueueFacts Remote RemoteStorage.

Section storage_facts.
Context `{RE : Regexp} `{RR : !RegexpReplace} `{M5 : MD5} `{MO : MapOrder}.
Variable range_map : LabelSet -> list (string * string).
Variable int_overflow : float64 -> Z.

Local Notation queue_step := (queue_step range_map int_overflow).
Local Notation step := (RemoteStorage.step range_map int_overflow).
Local Notation run := (RemoteStorage.run range_map int_overflow).

(** ** One endpoint *)

(** What [Append] makes of a sample: nothing, when relabelling drops it. *)
Definition processed (e : endpoint) (s : RSample) : list RSample :=
  match process_set range_map (r_Metric s ∪ e_ext e) (e_rcs e) with
  | Some (Some m) => [mkRSample m (r_Value s) (r_Timestamp s)]
  | _ => []
  end.

(** The samples that were queued or, the queue being full, dropped. *)
Definition taken (q : QueueManager) : list RSample := accepted q ++ dropped q.

(** The settings of an endpoint are valid, and its queue is in a state that
    its own steps reach. *)
Record good (e : endpoint) : Prop := {
  g_cfg : valid_queue (e_cfg e);
  g_rcs : Forall valid_config (e_rcs e);
  g_inv : inv (e_cfg e) (e_q e)
}.

Definition is_open (e : endpoint) : Prop := closed (cur (e_q e)) = false.

(** The endpoint is the same, its queue has gone on. *)
Definition same (e e' : endpoint) : Prop := e_cfg e' = e_cfg e /\ e_ext e' = e_ext e /\ e_rcs e' = e_rcs e.

Lemma same_good e e' : same e e' -> good e -> inv (e_cfg e) (e_q e') -> good e'.
Proof. intros (E1 & _ & E2) [G1 G2 G3] I. constructor; rewrite ?E1, ?E2; done. Qed.

Lemma sendSamples_taken cfg store d b t : taken (sendSamples cfg store d b t) = taken t.
Proof. done. Qed.

Lemma internal_taken cfg ext rcs ev t t' : internal ev = true ->
  Queue.step range_map int_overflow cfg ext rcs ev t = Next t' -> taken t' = taken t.
Proof.
  assert (SS : forall w i d store op, shard_step cfg w i d store op t = Next t' -> taken t' = taken t).
  { intros w i d store op. unfold shard_step. destruct (get_shards w t) as [g|]; [|done].
    destruct (queues g !! i); [|done]. destruct (_ || _); [done|]. destruct (op s) as [[sh' ob]|]; [|done].
    intros [= <-]. by destruct ob, w. }
  intros I E. destruct ev as [s| |ready| | | |w i d store|w i d store|w i d store|]; try done; cbn [Queue.step] in E.
  - destruct (running t); [|done]. injection E as <-. unfold calculateDesiredShards.
    destruct (desired_shards _ _ _); [|done]. by destruct (_ && _).
  - destruct (reshard t); try done. by injection E as <-.
  - destruct (reshard t); try done. by injection E as <-.
  - destruct (reshard t); try done. destruct (forallb _ _); [|done]. by injection E as <-.
  - by eapply SS.
  - by eapply SS.
  - destruct (is_closed w t); [|done]. by eapply SS.
Qed.

Lemma append_taken cfg ext rcs s t t' : append range_map cfg ext rcs s t = Next t' ->
  taken t' ≡ₚ taken t ++ processed (mkEndpoint cfg ext rcs t) s.
Proof.
  unfold append, processed. cbn [e_ext e_rcs]. destruct (process_set _ _ _) as [[m|]|]; [|intros [= <-]; by rewrite app_nil_r|done].
  unfold enqueue. cbn [cur]. destruct (Z.of_nat _); try done; (destruct (queues (cur t) !! _); [|done]); (destruct (closed _); [done|]);
    destruct (_ <? _); intros [= <-]; unfold taken; cbn; rewrite <- ?app_assoc; try done; by rewrite (Permutation_app_comm (dropped t)).
Qed.

Lemma internal_no_panic cfg ext rcs ev t : internal ev = true -> Queue.step range_map int_overflow cfg ext rcs ev t <> Panic.
Proof.
  assert (SS : forall w i d store op, shard_step cfg w i d store op t <> Panic) by (intros; unfold shard_step; repeat case_match; done).
  intros I E. destruct ev; try done; cbn [Queue.step] in E; try (by eapply SS); repeat case_match; try done; by eapply SS.
Qed.

(** A step of a queue that is not [Stop] does not panic while the queue is
    open. *)
Lemma queue_step_good ev e : good e ->
  match queue_step ev e with
  | Returns e' => same e e' /\ good e' /\ (ev <> Stop -> is_open e -> is_open e') /\
      taken (e_q e') ≡ₚ taken (e_q e) ++ match ev with Append s => processed e s | _ => [] end
  | Waits => match ev with Append _ => False | _ => True end
  | Panics => closed (cur (e_q e)) = true /\ internal ev = false
  end.
Proof.
  intros [G1 G2 G3]. unfold RemoteStorage.queue_step.
  pose proof (step_inv range_map int_overflow (e_cfg e) G1 (e_ext e) (e_rcs e) ev (e_q e) G3) as I.
  pose proof (step_keeps_open range_map int_overflow (e_cfg e) G1 (e_ext e) (e_rcs e) ev (e_q e)) as K.
  destruct (Queue.step _ _ _ _ _ _ _) as [q| |] eqn:E.
  - split; [done|]. split; [by constructor|]. split; [intros N O; by apply (K q)|]. cbn [e_q].
    destruct (internal ev) eqn:IE.
    { rewrite (internal_taken _ _ _ _ _ _ IE E). destruct ev; try done; by rewrite app_nil_r. }
    destruct ev; try done; cbn [Queue.step] in E.
    + rewrite (append_taken _ _ _ _ _ _ E). by destruct e.
    + destruct (reshard _); try done. destruct (_ || _); [done|]. injection E as <-. by rewrite app_nil_r.
    + destruct (reshard _); try done. destruct (_ && _); [|done]. injection E as <-. by rewrite app_nil_r.
  - destruct ev; try done. cbn [Queue.step] in E.
    pose proof (append_inv range_map (e_cfg e) (e_ext e) (e_rcs e) s (e_q e) G3) as A. by rewrite E in A.
  - destruct I as [I|I]; [|done]. split; [done|]. destruct (internal ev) eqn:IE; [|done]. by apply internal_no_panic in E.
Qed.

Lemma each_queue_all f (P : endpoint -> endpoint -> Prop) (Q : endpoint -> Prop) :
  (forall e, Q e -> match f e with Returns e' => P e e' | Waits => True | Panics => False end) ->
  forall es, Forall Q es -> match each_queue f es with Returns es' => Forall2 P es es' | Waits => True | Panics => False end.
Proof.
  intros H es F. induction F as [|e es Qe F IH]; cbn [each_queue]; [constructor|]. specialize (H e Qe).
  destruct (f e); [|done..]. destruct (each_queue f es); [|done..]. by constructor.
Qed.

(** ** The system *)

Definition ready (e : endpoint) : Prop := good e /\ is_open e.

(** The invariant: the queues in use are open. *)
Record sys_ok (s : system) : Prop := {
  so_live : Forall ready (rs_queues (live s));
  so_retired : Forall good (retired s)
}.

(** A configuration with valid queue settings and relabelling, and no nil
    endpoint. *)
Definition valid_write (o : option RemoteWriteConfig) : Prop :=
  exists rw, o = Some rw /\ valid_queue (QueueConfig_ rw) /\ Forall valid_config (WriteRelabelConfigs rw).
Definition valid_conf (conf : Config) : Prop := Forall valid_write (RemoteWriteConfigs conf) /\ Forall is_Some (RemoteReadConfigs conf).
Definition has_client (o : option RemoteWriteConfig) : Prop := forall rw, o = Some rw -> rw_client rw = None.

(** A call that goes through valid configurations and does not close the
    storage. *)
Definition valid_op (o : op) : Prop := match o with OApply conf => valid_conf conf | OClose => False | _ => True end.

(** The endpoint has gone on, taking [log]. *)
Definition forwards (log : list RSample) (e e' : endpoint) : Prop :=
  same e e' /\ ready e' /\ taken (e_q e') ≡ₚ taken (e_q e) ++ concat (map (processed e) log).

Lemma forwards_all_ready log es es' : Forall2 (forwards log) es es' -> Forall ready es'.
Proof. intros F. apply (Forall2_right _ _ _ _ F). by intros e e' (_ & ? & _). Qed.

Lemma step_at_spec i ev es (G : Forall good es) :
  match step_at range_map int_overflow i ev es with
  | Returns es' => Forall good es' /\ (Forall ready es -> Forall2 (forwards []) es es')
  | Waits => True
  | Panics => False
  end.
Proof.
  unfold step_at. destruct (internal ev) eqn:IE; [|done]. destruct (es !! i) as [e|] eqn:L; [|done].
  assert (Ge : good e) by (by apply (Forall_lookup_1 _ _ _ _ G L)).
  pose proof (queue_step_good ev e Ge) as H. destruct (queue_step ev e) as [e'| |]; [|done|by destruct H; congruence].
  destruct H as (S & Ge' & O & T). split; [by apply Forall_insert|]. intros R.
  assert (NS : ev <> Stop) by (by intros ->). assert (NA : match ev with Append s => processed e s | _ => [] end = []) by (by destruct ev).
  assert (D : Forall2 (forwards []) es es).
  { clear -R. induction R; constructor; [|done]. split; [done|]. split; [done|]. cbn. by rewrite app_nil_r. }
  rewrite <- (list_insert_id es i e L) at 1. apply Forall2_insert; [done|]. split; [done|]. split.
  - split; [done|]. apply O; [done|]. apply (Forall_lookup_1 _ _ _ _ R L).
  - cbn. by rewrite T, NA.
Qed.

(** A step of an open queue. *)
Lemma open_step ev e : ready e ->
  match queue_step ev e with
  | Returns e' => same e e' /\ good e' /\ (ev <> Stop -> is_open e') /\
      taken (e_q e') ≡ₚ taken (e_q e) ++ match ev with Append s => processed e s | _ => [] end
  | Waits => True
  | Panics => False
  end.
Proof.
  intros [G O]. pose proof (queue_step_good ev e G) as Q. destruct (queue_step ev e); [|done|destruct Q; unfold is_open in O; congruence].
  destruct Q as (S & G' & K & T). auto 10.
Qed.

Lemma Add_spec l t v r : Forall ready (rs_queues r) ->
  match Add range_map int_overflow l t v r with
  | Returns (_, r') => Forall2 (forwards [mkRSample (labelsToMetric l) v t]) (rs_queues r) (rs_queues r')
  | Waits => True
  | Panics => False
  end.
Proof.
  intros R. unfold Add.
  enough (H : forall e, ready e -> match queue_step (Append (mkRSample (labelsToMetric l) v t)) e with
      Returns e' => forwards [mkRSample (labelsToMetric l) v t] e e' | Waits => True | Panics => False end).
  { pose proof (each_queue_all _ _ ready H _ R) as F. by destruct (each_queue _ _). }
  intros e Re. pose proof (open_step (Append (mkRSample (labelsToMetric l) v t)) e Re) as Q.
  destruct (queue_step _ e); [|done..]. destruct Q as (S & G & K & T). split; [done|]. split; [split; [done|by apply K]|].
  cbn [map concat]. by rewrite app_nil_r.
Qed.

Lemma stop_good e : ready e -> match stop_queue range_map int_overflow e with Returns e' => good e' | Waits => True | Panics => False end.
Proof.
  intros R. pose proof (open_step Stop e R) as Q. destruct R as [_ O]. unfold stop_queue. rewrite O.
  destruct (queue_step Stop e); [by destruct Q as (_ & ? & _)|done..].
Qed.

Lemma start_ready e : ready e -> match queue_step Start e with
  | Returns e' => same e e' /\ ready e' /\ taken (e_q e') ≡ₚ taken (e_q e) | Waits => True | Panics => False end.
Proof.
  intros R. pose proof (open_step Start e R) as Q. destruct (queue_step Start e); [|done..].
  destruct Q as (S & G & K & T). rewrite app_nil_r in T. split; [done|]. split; [split; [done|by apply K]|done].
Qed.

(** The queues that [ApplyConfig] makes. *)
Definition fresh (ext : LabelSet) (o : option RemoteWriteConfig) (e : endpoint) : Prop :=
  (exists rw, o = Some rw /\ e_cfg e = QueueConfig_ rw /\ e_rcs e = WriteRelabelConfigs rw) /\ e_ext e = ext /\ taken (e_q e) ≡ₚ [] /\ ready e.

Lemma read_queryables_returns ext cb rrs : Forall is_Some rrs -> forall i, exists r, read_queryables ext cb rrs i = Some r.
Proof.
  induction 1 as [|o rrs [rr ->] _ IH]; intros i; cbn [read_queryables]; [by eexists|]. destruct (rr_client rr); [|by eexists].
  destruct (IH (S i)) as [[[qs st] err] ->]. by eexists.
Qed.

Lemma new_queues_spec ext rws : Forall valid_write rws ->
  match new_queues ext rws with
  | Some (Ok es) => Forall2 (fun o e => exists rw, o = Some rw /\ e = mkEndpoint (QueueConfig_ rw) ext (WriteRelabelConfigs rw) NewQueueManager) rws es /\ Forall ready es
  | Some (Err _) => ~ Forall has_client rws
  | None => False
  end.
Proof.
  induction 1 as [|o rws (rw & -> & V1 & V2) _ IH]; cbn [new_queues]; [by split; constructor|].
  destruct (rw_client rw) eqn:C.
  - intros N. inversion_clear N as [|? ? N1 N2]. specialize (N1 rw eq_refl). congruence.
  - destruct (new_queues _ rws) as [[es|e]|]; cbn; [|intros N; inversion N; contradiction|done].
    destruct IH as [F1 F2]. split; (constructor; [|done]); [by exists rw|]. split; [|done]. constructor; [done..|]. by apply inv_init.
Qed.

Lemma ApplyConfig_spec conf r : valid_conf conf -> Forall ready (rs_queues r) ->
  match ApplyConfig range_map int_overflow conf r with
  | Returns (err, r', stopped) =>
    Forall good stopped /\ Forall ready (rs_queues r') /\
    (Forall has_client (RemoteWriteConfigs conf) ->
     Forall2 (fresh (ExternalLabels conf)) (RemoteWriteConfigs conf) (rs_queues r'))
  | Waits => True
  | Panics => False
  end.
Proof.
  intros [V VR] R. unfold ApplyConfig. pose proof (new_queues_spec (ExternalLabels conf) _ V) as NQ.
  destruct (new_queues _ _) as [[es|e]|]; [|by split; [constructor|]; split|done].
  destruct NQ as [F1 F2].
  pose proof (each_queue_all _ _ ready stop_good _ R) as HS. destruct (each_queue (stop_queue _ _) _) as [stopped| |]; [|done..].
  pose proof (each_queue_all _ _ ready start_ready _ F2) as HN. destruct (each_queue (queue_step Start) es) as [qs| |]; [|done..].
  destruct (read_queryables_returns (ExternalLabels conf) (localStartTimeCallback r) _ VR 0) as [[[? ?] err] ->]. cbn [rs_queues].
  split; [by apply (Forall2_right _ _ _ _ HS)|]. split.
  - apply (Forall2_right _ _ _ _ HN). by intros e e' (_ & ? & _).
  - intros _. clear -F1 HN. revert qs HN. induction F1 as [|o e rws es (rw & -> & ->) F1 IH]; intros qs HN; inversion HN as [|? e' ? qs' [(S1 & S2 & S3) [RE' T]] HN']; subst; constructor; [|by apply IH].
    split; [by exists rw|]. split; [done|]. split; [|done]. by rewrite T.
Qed.

Lemma step_ok o s : valid_op o -> sys_ok s ->
  match step o s with Returns s' => sys_ok s' | Waits => True | Panics => False end.
Proof.
  intros V [L R]. assert (GL : Forall good (rs_queues (live s))) by (eapply Forall_impl; [exact L|]; by intros e []).
  destruct o as [l t v|conf| |i ev|i ev]; cbn [RemoteStorage.step].
  - pose proof (Add_spec l t v (live s) L) as H. destruct (Add _ _ _ _ _ _) as [[? r]| |]; [|done..].
    constructor; [by apply forwards_all_ready in H|done].
  - pose proof (ApplyConfig_spec conf (live s) V L) as H. destruct (ApplyConfig _ _ _ _) as [[[? r] st]| |]; [|done..].
    destruct H as (H1 & H2 & _). constructor; [done|]. by apply Forall_app.
  - done.
  - pose proof (step_at_spec i ev _ GL) as H. destruct (step_at _ _ _ _ _); [|done..]. destruct H as [_ H].
    constructor; [|done]. cbn. eapply forwards_all_ready. by apply H.
  - pose proof (step_at_spec i ev _ R) as H. destruct (step_at _ _ _ _ _); [|done..]. by constructor; [|destruct H].
Qed.

Lemma run_sys_ok os : forall s, Forall valid_op os -> sys_ok s ->
  match run os s with Returns s' => sys_ok s' | Waits => True | Panics => False end.
Proof.
  induction os as [|o os IH]; intros s V I; [done|]. inversion_clear V as [|? ? V1 V2]. cbn [RemoteStorage.run].
  pose proof (step_ok o s V1 I) as H. destruct (step o s); [|done..]. by apply IH.
Qed.

Lemma storage_run_app os os' s : run (os ++ os') s = match run os s with Returns s => run os' s | Waits => Waits | Panics => Panics end.
Proof. revert s. induction os as [|o os IH]; intros s; [done|]. cbn. destruct (step o s); [apply IH|done..]. Qed.

(** The samples added by the calls. *)
Definition adds (os : list op) : list RSample :=
  concat (map (fun o => match o with OAdd l t v => [mkRSample (labelsToMetric l) v t] | _ => [] end) os).

Definition no_config (o : op) : Prop := match o with OApply _ | OClose => False | _ => True end.

Lemma forwards_trans log log' e1 e2 e3 : forwards log e1 e2 -> forwards log' e2 e3 -> forwards (log ++ log') e1 e3.
Proof.
  intros (S1 & _ & T1) (S2 & R2 & T2). assert (S : same e1 e3) by (unfold same in *; intuition congruence).
  split; [done|]. split; [done|]. rewrite T2, T1, map_app, concat_app, app_assoc.
  assert (processed e2 = processed e1) as -> by (destruct S1 as (_ & E1 & E2); unfold processed; by rewrite E1, E2). done.
Qed.

Lemma forwards_all_trans log log' es1 : forall es2 es3, Forall2 (forwards log) es1 es2 -> Forall2 (forwards log') es2 es3 -> Forall2 (forwards (log ++ log')) es1 es3.
Proof.
  induction es1 as [|e1 es1 IH]; intros es2 es3 F G; inversion F; subst; inversion G; subst; constructor; [by eapply forwards_trans|by eapply IH].
Qed.

Lemma run_forwards os : forall s, Forall no_config os -> sys_ok s ->
  match run os s with
  | Returns s' => Forall2 (forwards (adds os)) (rs_queues (live s)) (rs_queues (live s'))
  | _ => True
  end.
Proof.
  assert (RF : forall es, Forall ready es -> Forall2 (forwards []) es es).
  { induction 1; constructor; [|done]. split; [done|]. split; [done|]. cbn. by rewrite app_nil_r. }
  induction os as [|o os IH]; intros s N I; cbn [RemoteStorage.run]; [apply RF; by destruct I|].
  inversion_clear N as [|? ? N1 N2]. assert (V : valid_op o) by (by destruct o). pose proof (step_ok o s V I) as OK.
  assert (F : match step o s with Returns s' => Forall2 (forwards (adds [o])) (rs_queues (live s)) (rs_queues (live s')) | _ => True end).
  { destruct I as [L R]. assert (GL : Forall good (rs_queues (live s))) by (eapply Forall_impl; [exact L|]; by intros e []).
    destruct o as [l t v|conf| |i ev|i ev]; try done; cbn [RemoteStorage.step].
    - pose proof (Add_spec l t v (live s) L) as H. by destruct (Add _ _ _ _ _ _) as [[? r]| |].
    - pose proof (step_at_spec i ev _ GL) as H. destruct (step_at _ _ _ _ _); [|done..]. by apply H.
    - destruct (step_at _ _ _ _ _); [|done..]. by apply RF. }
  destruct (step o s) as [s1| |]; [|done..]. specialize (IH s1 N2 OK). destruct (run os s1) as [s2| |]; [|done..].
  change (adds (o :: os)) with (adds ([o] ++ os)). unfold adds at 1. rewrite map_app, concat_app. by eapply forwards_all_trans.
Qed.

(** C14: the remote storage, over any calls and steps of its queues that do not
    close it, with valid configurations (sensible queue settings, hashmod rules
    with a modulus, no nil endpoint): it never panics; after [ApplyConfig] has
    started a queue for each endpoint, that queue has taken
    exactly the samples added since, with the external labels and relabelled
    (put into the queue, or dropped because it was full); and a queue that
    was replaced has sent all it had accepted once its goroutines have
    returned. *)
Theorem remote_storage_forwards (cb : result string Z) (before after : list op) (conf : Config)
  (VB : Forall valid_op before) (VC : valid_conf conf) (NA : Forall no_config after)
  (CL : Forall has_client (RemoteWriteConfigs conf)) :
  match run (before ++ OApply conf :: after) (mkSystem (NewStorage cb) []) with
  | Returns s =>
    Forall2 (fun o e => (exists rw, o = Some rw /\ e_cfg e = QueueConfig_ rw /\ e_rcs e = WriteRelabelConfigs rw) /\ e_ext e = ExternalLabels conf /\
                         accepted (e_q e) ++ dropped (e_q e) ≡ₚ concat (map (processed e) (adds after)))
            (RemoteWriteConfigs conf) (rs_queues (live s)) /\
    Forall (fun e => closed (cur (e_q e)) = true -> forallb exited (Queue.queues (cur (e_q e))) = true ->
                     concat (sent (e_q e)).*1 ≡ₚ accepted (e_q e)) (retired s)
  | Waits => True
  | Panics => False
  end.
Proof.
  assert (I0 : sys_ok (mkSystem (NewStorage cb) [])) by (constructor; constructor).
  rewrite storage_run_app. pose proof (run_sys_ok before _ VB I0) as IB. destruct (run before _) as [s| |]; [|done..].
  cbn [RemoteStorage.run]. pose proof (step_ok (OApply conf) s VC IB) as I1.
  destruct IB as [L R]. pose proof (ApplyConfig_spec conf (live s) VC L) as A. cbn [RemoteStorage.step] in I1 |- *.
  destruct (ApplyConfig _ _ _ _) as [[[err r] st]| |]; [|done..]. destruct A as (_ & _ & A). specialize (A CL).
  assert (VA : Forall valid_op after) by (eapply Forall_impl; [exact NA|]; by intros []).
  pose proof (run_sys_ok after _ VA I1) as I2. pose proof (run_forwards after _ NA I1) as F.
  destruct (run after _) as [s'| |]; [|done..]. cbn [live] in F. split.
  - clear -A F. revert F. generalize (rs_queues (live s')). induction A as [|o e rws es ((rw & F0 & F1 & F3) & F2 & F4 & _) A IH]; intros es' F;
      inversion F as [|? e' ? es'' ((S1 & S2 & S3) & _ & T) F']; subst; constructor; [|by apply IH].
    split; [exists rw; split_and!; congruence|]. split; [congruence|]. change (taken (e_q e') ≡ₚ concat (map (processed e') (adds after))). rewrite T, F4.
    assert (processed e' = processed e) as -> by (unfold processed; by rewrite S2, S3). done.
  - eapply Forall_impl; [exact (so_retired _ I2)|]. intros e [G1 _ G3] C X. by apply (inv_drained (e_cfg e)).
Qed.
End storage_facts.

(** * A run *)

#[local] Existing Instances literal_regexp literal_replace zero_md5 tree_order.

Definition eu_endpoint : Config := mkConfig {["dc" := "eu"]} [Some (mkWriteConfig None small_queue [])] [].
Definition job_labels : Labels := [mkLabel "job" "a"].

Definition before_reload : list op := [OApply eu_endpoint; OAdd job_labels 1 (of_Z 1)].
Definition after_reload : list op :=
  [ORetired 0 (Receive Cur 0 0 second_time); OAdd job_labels 2 (of_Z 2); ORetired 0 (Exit Cur 0 0 second_time);
   OQueue 0 (Receive Cur 0 0 second_time)].

Definition run_eu (os : list op) : call system :=
  RemoteStorage.run backwards (fun _ => 0) os (mkSystem (NewStorage (Ok 0)) []).

Lemma remote_storage_forwards_witness :
  match run_eu (before_reload ++ OApply eu_endpoint :: after_reload) with
  | Returns s => map (fun e => length (concat (sent (e_q e)).*1)) (retired s) = [1%nat] /\
      Forall2 (fun o e => (exists rw, o = Some rw /\ e_cfg e = QueueConfig_ rw /\ e_rcs e = WriteRelabelConfigs rw) /\ e_ext e = ExternalLabels eu_endpoint /\
                 accepted (e_q e) ++ dropped (e_q e) ≡ₚ concat (map (processed backwards e) (adds after_reload)))
              (RemoteWriteConfigs eu_endpoint) (rs_queues (live s))
  | _ => False
  end.
Proof.
  assert (E : exists s, run_eu (before_reload ++ OApply eu_endpoint :: after_reload) = Returns s /\
    map (fun e => length (concat (sent (e_q e)).*1)) (retired s) = [1%nat]) by (eexists; split; vm_compute; reflexivity).
  destruct E as (s & E & L).
  pose proof (remote_storage_forwards backwards (fun _ => 0) (Ok 0) before_reload after_reload eu_endpoint) as T.
  fold (run_eu (before_reload ++ OApply eu_endpoint :: after_reload)) in T. rewrite E in T |- *. split; [exact L|].
  assert (VC : valid_conf eu_endpoint) by (split; [apply List.Forall_cons; [eexists; split; [reflexivity|split; [exact small_queue_valid|constructor]]|constructor]|constructor]).
  apply T; [apply List.Forall_cons; [exact VC|repeat constructor]|exact VC|repeat constructor|apply List.Forall_cons; [by intros rw [= <-]|constructor]].
Defined.
