(* ===== verification/Config.v ===== *)
(** config/config.go: reading a configuration.

    The YAML decoder is a parameter, as in the code: every [UnmarshalYAML] gets
    from it the function that fills a value from a node of the document, and
    the value that this function is called with holds the defaults.  Of the
    configurations that other packages declare, the fields that the code looks
    at are written out; the others are values of a type [X].  Lists of pointers
    are lists of options: a null item of the document is a nil pointer, at which
    the code panics when it looks at a field. *)

From S2P Require Import Prelude GoString GoFmt Duration Labels Relabel Pattern Target Queue FileSD.

(** * Patterns *)

Definition patRulePath : re := Seq (Star (not_lit "*")) (opt (Seq (lit "*") (Star (not_lit "/")))).

Definition relabelTarget : re :=
  plus (Seq (plus (Alt (Chr letter_) (Seq (lit "$") (Alt (Seq (lit "{") (Seq (plus (Chr word)) (lit "}"))) (plus (Chr word)))))) (Star (Chr word))).

(** * path/filepath *)

(** [strings.Split] by one byte. *)
Fixpoint Split (s : string) (b : ascii) : list string :=
  match s with
  | EmptyString => [""]
  | String c s =>
    match Split s b with
    | w :: ws => if Ascii.eqb c b then "" :: w :: ws else String c w :: ws
    | [] => []
    end
  end.

Definition IsAbs (path : string) : bool := String.prefix "/" path.

(** [Clean]: the elements of a path, last first, without empty ones, dots and
    what two dots take back. *)
Definition clean_step (rooted : bool) (acc : list string) (e : string) : list string :=
  if (e =? "")%string || (e =? ".")%string then acc
  else if (e =? "..")%string then
    match acc with
    | [] => if rooted then [] else [".."]
    | x :: acc' => if (x =? "..")%string then ".." :: acc else acc'
    end
  else e :: acc.
Definition Clean (path : string) : string :=
  let out := str_join "/" (rev (foldl (clean_step (IsAbs path)) [] (Split path "/"))) in
  if IsAbs path then "/" +:+ out else if (out =? "")%string then "." else out.

(** [Join] of a directory, which is not empty, and a path. *)
Definition Join (dir fp : string) : string := Clean (dir +:+ "/" +:+ fp).

(** [Dir] *)
Definition Dir (path : string) : string := Clean (str_take (Z.to_nat (last_index path (rune "/") + 1)) path).

(** The items of a list of pointers, if none is nil; a loop over all of them
    that panics at a nil one. *)
Definition present {A} (l : list (option A)) : option (list A) := mapM id l.
Definition each {A} (f : A -> option A) (l : list (option A)) : option (list (option A)) := mapM (fun o => x ← o; Some <$> f x) l.

Section config.
Context `{RE : Regexp} `{UT : UnicodeTables} {X : Type}.

(** * Configurations of other packages *)

Record TLSConfig := mkTLS { CAFile : string; CertFile : string; KeyFile : string }.
Record HTTPClientConfig := mkHTTP { BearerTokenFile : string; TLSConfig_ : TLSConfig; http_rest : X }.
Record KubernetesSD := mkKubernetes { k_BearerTokenFile : string; k_TLSConfig : TLSConfig; k_rest : X }.
Record MarathonSD := mkMarathon { AuthTokenFile : string; m_HTTPClientConfig : HTTPClientConfig; m_rest : X }.
Record ConsulSD := mkConsul { c_TLSConfig : TLSConfig; c_rest : X }.
Record ServiceDiscoveryConfig := mkSD {
  StaticConfigs : list (option TargetGroup); FileSDConfigs : list (option SDConfig); ConsulSDConfigs : list (option ConsulSD);
  MarathonSDConfigs : list (option MarathonSD); KubernetesSDConfigs : list (option KubernetesSD); other_sd : X
}.

(** [HTTPClientConfig.Validate], and the zero values. *)
Variable Validate : HTTPClientConfig -> option string.
Variable zero_http : HTTPClientConfig.
Variable zero_sd : ServiceDiscoveryConfig.

(** * Relabelling *)

(** [Regexp] *)
Definition NewRegexp (s : string) : result string regexp := regexp_Compile ("^(?:" +:+ s +:+ ")$").
Definition Regexp_UnmarshalYAML (unmarshal : result string string) : result string regexp :=
  match unmarshal with Err e => Err e | Ok s => NewRegexp s end.

Definition RelabelAction_String (a : RelabelAction) : string :=
  match a with
  | RelabelReplace => "replace" | RelabelKeep => "keep" | RelabelDrop => "drop" | RelabelHashMod => "hashmod"
  | RelabelLabelMap => "labelmap" | RelabelLabelDrop => "labeldrop" | RelabelLabelKeep => "labelkeep"
  end.
Definition relabel_actions : list RelabelAction :=
  [RelabelReplace; RelabelKeep; RelabelDrop; RelabelHashMod; RelabelLabelMap; RelabelLabelDrop; RelabelLabelKeep].

Definition RelabelAction_UnmarshalYAML (unmarshal : result string string) : result string RelabelAction :=
  match unmarshal with
  | Err e => Err e
  | Ok s =>
    match List.find (fun a => (RelabelAction_String a =? ToLower s)%string) relabel_actions with
    | Some act => Ok act
    | None => Err ("unknown relabel action " +:+ Quote s)
    end
  end.

(** [RelabelConfig] while it is decoded: its regexp and its list of labels can
    be nil. *)
Record plain_RelabelConfig := mkPlain {
  p_SourceLabels : option (list string); p_Separator : string; p_Regex : option regexp; p_Modulus : Z;
  p_TargetLabel : string; p_Replacement : string; p_Action : RelabelAction
}.

Definition compiled (s : string) : option regexp := match NewRegexp s with Ok r => Some r | Err _ => None end.
Definition DefaultRelabelConfig : plain_RelabelConfig := mkPlain None ";" (compiled "(.*)") 0 "" "$1" RelabelReplace.

(** The checks, in their order. *)
Definition relabel_error (c : plain_RelabelConfig) : option string :=
  let acts a := bool_decide (p_Action c = a) in
  let action := RelabelAction_String (p_Action c) in
  if (p_Modulus c =? 0) && acts RelabelHashMod then Some "relabel configuration for hashmod requires non-zero modulus"
  else if (acts RelabelReplace || acts RelabelHashMod) && (p_TargetLabel c =? "")%string then
    Some ("relabel configuration for " +:+ action +:+ " action requires 'target_label' value")
  else if acts RelabelReplace && negb (matches relabelTarget (p_TargetLabel c)) then
    Some (Quote (p_TargetLabel c) +:+ " is invalid 'target_label' for " +:+ action +:+ " action")
  else if acts RelabelLabelMap && negb (matches relabelTarget (p_Replacement c)) then
    Some (Quote (p_Replacement c) +:+ " is invalid 'replacement' for " +:+ action +:+ " action")
  else if acts RelabelHashMod && negb (IsValid (p_TargetLabel c)) then
    Some (Quote (p_TargetLabel c) +:+ " is invalid 'target_label' for " +:+ action +:+ " action")
  else if (acts RelabelLabelDrop || acts RelabelLabelKeep) &&
          (negb (bool_decide (p_SourceLabels c = None)) || negb (p_TargetLabel c =? p_TargetLabel DefaultRelabelConfig)%string ||
           negb (p_Modulus c =? p_Modulus DefaultRelabelConfig) || negb (p_Separator c =? p_Separator DefaultRelabelConfig)%string ||
           negb (p_Replacement c =? p_Replacement DefaultRelabelConfig)%string) then
    Some (action +:+ " action requires only 'regex', and no other fields")
  else None.

(** [UnmarshalYAML]; [None] is the panic of [MustNewRegexp]. *)
Definition RelabelConfig_UnmarshalYAML (unmarshal : plain_RelabelConfig -> result string plain_RelabelConfig) : option (result string RelabelConfig) :=
  match unmarshal DefaultRelabelConfig with
  | Err e => Some (Err e)
  | Ok c =>
    regex ← match p_Regex c with Some r => Some r | None => compiled "" end;
    match relabel_error c with
    | Some e => Some (Err e)
    | None =>
      Some (Ok (mkRelabelConfig _ (default [] (p_SourceLabels c)) (p_Separator c) regex (p_Modulus c) (p_TargetLabel c) (p_Replacement c) (p_Action c)))
    end
  end.

(** * Global settings *)

(** The external labels are [None] when the map is nil. *)
Record GlobalConfig := mkGlobal {
  g_ScrapeInterval : Duration; g_ScrapeTimeout : Duration; EvaluationInterval : Duration; ExternalLabels : option (gmap string string)
}.
Definition DefaultGlobalConfig : GlobalConfig := mkGlobal (1 * Minute) (10 * Second) (1 * Minute) None.
Definition zero_GlobalConfig : GlobalConfig := mkGlobal 0 0 0 None.

(** A timeout that is not set is the default one, or the interval when that
    is shorter. *)
Definition timeout_within (timeout dflt interval : Duration) : Duration :=
  if timeout =? 0 then if interval <? dflt then interval else dflt else timeout.

Definition GlobalConfig_UnmarshalYAML (unmarshal : GlobalConfig -> result string GlobalConfig) : result string GlobalConfig :=
  match unmarshal zero_GlobalConfig with
  | Err e => Err e
  | Ok gc =>
    let interval := if g_ScrapeInterval gc =? 0 then g_ScrapeInterval DefaultGlobalConfig else g_ScrapeInterval gc in
    if interval <? g_ScrapeTimeout gc then Err "global scrape timeout greater than scrape interval"
    else
      Ok (mkGlobal interval (timeout_within (g_ScrapeTimeout gc) (g_ScrapeTimeout DefaultGlobalConfig) interval)
            (if EvaluationInterval gc =? 0 then EvaluationInterval DefaultGlobalConfig else EvaluationInterval gc) (ExternalLabels gc))
  end.

Definition isZero (c : GlobalConfig) : bool :=
  bool_decide (ExternalLabels c = None) && (g_ScrapeInterval c =? 0) && (g_ScrapeTimeout c =? 0) && (EvaluationInterval c =? 0).

(** * Scrape and Alertmanager configurations *)

Record ScrapeConfig := mkScrape {
  JobName : string; HonorLabels : bool; Params : gmap string (list string);
  ScrapeInterval : Duration; ScrapeTimeout : Duration; MetricsPath : string; Scheme : string; SampleLimit : Z;
  s_SD : ServiceDiscoveryConfig; s_HTTP : HTTPClientConfig;
  RelabelConfigs : list (option RelabelConfig); MetricRelabelConfigs : list (option RelabelConfig)
}.
Definition DefaultScrapeConfig : ScrapeConfig := mkScrape "" false ∅ 0 0 "/metrics" "http" 0 zero_sd zero_http [] [].

(** What the scrape manager works with, when no rule is nil. *)
Definition scrape (c : ScrapeConfig) : option Target.ScrapeConfig :=
  rs ← present (RelabelConfigs c); ms ← present (MetricRelabelConfigs c);
  Some (mkScrapeConfig _ (JobName c) (HonorLabels c) (Params c) (ScrapeInterval c) (ScrapeTimeout c) (MetricsPath c) (Scheme c) (SampleLimit c) rs ms).

(** The check for URLs in the groups that are written out; [None] is the panic
    at a nil group. *)
Definition target_error (ts : list (gmap string string)) : option string :=
  foldr (fun t e => match CheckTargetAddress (default "" (t !! AddressLabel)) with Some err => Some err | None => e end) None ts.
Fixpoint static_error (tgs : list (option TargetGroup)) : option (option string) :=
  match tgs with
  | [] => Some None
  | None :: _ => None
  | Some tg :: tgs => match target_error (tg_Targets tg) with Some e => Some (Some e) | None => static_error tgs end
  end.
Definition check_statics (rcs : list (option RelabelConfig)) (sd : ServiceDiscoveryConfig) : option (option string) :=
  if (length rcs =? 0)%nat then static_error (StaticConfigs sd) else Some None.

Definition ScrapeConfig_UnmarshalYAML (unmarshal : ScrapeConfig -> result string ScrapeConfig) : option (result string ScrapeConfig) :=
  match unmarshal DefaultScrapeConfig with
  | Err e => Some (Err e)
  | Ok c =>
    if (String.length (JobName c) =? 0)%nat then Some (Err "job_name is empty")
    else
      match Validate (s_HTTP c) with
      | Some e => Some (Err e)
      | None => err ← check_statics (RelabelConfigs c) (s_SD c); Some (match err with Some e => Err e | None => Ok c end)
      end
  end.

Record AlertmanagerConfig := mkAlertmanager {
  a_SD : ServiceDiscoveryConfig; a_HTTP : HTTPClientConfig; a_Scheme : string; PathPrefix : string; a_Timeout : Duration;
  a_RelabelConfigs : list (option RelabelConfig)
}.
Definition DefaultAlertmanagerConfig : AlertmanagerConfig := mkAlertmanager zero_sd zero_http "http" "" (10 * Second) [].

Definition AlertmanagerConfig_UnmarshalYAML (unmarshal : AlertmanagerConfig -> result string AlertmanagerConfig) : option (result string AlertmanagerConfig) :=
  match unmarshal DefaultAlertmanagerConfig with
  | Err e => Some (Err e)
  | Ok c =>
    match Validate (a_HTTP c) with
    | Some e => Some (Err e)
    | None => err ← check_statics (a_RelabelConfigs c) (a_SD c); Some (match err with Some e => Err e | None => Ok c end)
    end
  end.

Record AlertingConfig := mkAlerting { AlertRelabelConfigs : list (option RelabelConfig); AlertmanagerConfigs : list (option AlertmanagerConfig) }.
Definition AlertingConfig_UnmarshalYAML (unmarshal : AlertingConfig -> result string AlertingConfig) : result string AlertingConfig :=
  unmarshal (mkAlerting [] []).

(** * Remote storage *)

Record RemoteWriteConfig := mkRemoteWrite {
  w_URL : option string; w_RemoteTimeout : Duration; WriteRelabelConfigs : list (option RelabelConfig); w_HTTP : HTTPClientConfig; w_QueueConfig : QueueConfig
}.
Definition DefaultRemoteWriteConfig : RemoteWriteConfig := mkRemoteWrite None (30 * Second) [] zero_http DefaultQueueConfig.

Definition RemoteWriteConfig_UnmarshalYAML (unmarshal : RemoteWriteConfig -> result string RemoteWriteConfig) : result string RemoteWriteConfig :=
  match unmarshal DefaultRemoteWriteConfig with
  | Err e => Err e
  | Ok c =>
    if bool_decide (w_URL c = None) then Err "url for remote_write is empty"
    else match Validate (w_HTTP c) with Some e => Err e | None => Ok c end
  end.

Record RemoteReadConfig := mkRemoteRead {
  r_URL : option string; r_RemoteTimeout : Duration; ReadRecent : bool; r_HTTP : HTTPClientConfig; RequiredMatchers : gmap string string
}.
Definition DefaultRemoteReadConfig : RemoteReadConfig := mkRemoteRead None (1 * Minute) false zero_http ∅.

Definition RemoteReadConfig_UnmarshalYAML (unmarshal : RemoteReadConfig -> result string RemoteReadConfig) : result string RemoteReadConfig :=
  match unmarshal DefaultRemoteReadConfig with
  | Err e => Err e
  | Ok c =>
    if bool_decide (r_URL c = None) then Err "url for remote_read is empty"
    else match Validate (r_HTTP c) with Some e => Err e | None => Ok c end
  end.

(** * The whole configuration *)

Record Config := mkConfig {
  GlobalConfig_ : GlobalConfig; AlertingConfig_ : AlertingConfig; RuleFiles : list string; ScrapeConfigs : list (option ScrapeConfig);
  RemoteWriteConfigs : list (option RemoteWriteConfig); RemoteReadConfigs : list (option RemoteReadConfig); original : string
}.
Definition DefaultConfig : Config := mkConfig DefaultGlobalConfig (mkAlerting [] []) [] [] [] [] "".

Definition set_durations (interval timeout : Duration) (c : ScrapeConfig) : ScrapeConfig :=
  mkScrape (JobName c) (HonorLabels c) (Params c) interval timeout (MetricsPath c) (Scheme c) (SampleLimit c) (s_SD c) (s_HTTP c)
    (RelabelConfigs c) (MetricRelabelConfigs c).
Definition set_clients (sd : ServiceDiscoveryConfig) (http : HTTPClientConfig) (c : ScrapeConfig) : ScrapeConfig :=
  mkScrape (JobName c) (HonorLabels c) (Params c) (ScrapeInterval c) (ScrapeTimeout c) (MetricsPath c) (Scheme c) (SampleLimit c) sd http
    (RelabelConfigs c) (MetricRelabelConfigs c).

(** The loop over the scrape configurations; a null one makes it panic. *)
Fixpoint scrape_loop (g : GlobalConfig) (jobNames : gset string) (scfgs : list (option ScrapeConfig)) : option (result string (list (option ScrapeConfig))) :=
  match scfgs with
  | [] => Some (Ok [])
  | None :: _ => None
  | Some c :: scfgs =>
    let interval := if ScrapeInterval c =? 0 then g_ScrapeInterval g else ScrapeInterval c in
    if interval <? ScrapeTimeout c then
      Some (Err ("scrape timeout greater than scrape interval for scrape config with job name " +:+ Quote (JobName c)))
    else
      let timeout := timeout_within (ScrapeTimeout c) (g_ScrapeTimeout g) interval in
      if bool_decide (JobName c ∈ jobNames) then Some (Err ("found multiple scrape configs with job name " +:+ Quote (JobName c)))
      else
        r ← scrape_loop g ({[JobName c]} ∪ jobNames) scfgs;
        match r with Err e => Some (Err e) | Ok ss => Some (Ok (Some (set_durations interval timeout c) :: ss)) end
  end.

Definition Config_UnmarshalYAML (unmarshal : Config -> result string Config) : option (result string Config) :=
  match unmarshal DefaultConfig with
  | Err e => Some (Err e)
  | Ok c =>
    let g := if isZero (GlobalConfig_ c) then DefaultGlobalConfig else GlobalConfig_ c in
    match List.find (fun rf => negb (matches patRulePath rf)) (RuleFiles c) with
    | Some rf => Some (Err ("invalid rule file path " +:+ Quote rf))
    | None =>
      r ← scrape_loop g ∅ (ScrapeConfigs c);
      match r with
      | Err e => Some (Err e)
      | Ok ss => Some (Ok (mkConfig g (AlertingConfig_ c) (RuleFiles c) ss (RemoteWriteConfigs c) (RemoteReadConfigs c) (original c)))
      end
    end
  end.

Definition set_original (s : string) (c : Config) : Config :=
  mkConfig (GlobalConfig_ c) (AlertingConfig_ c) (RuleFiles c) (ScrapeConfigs c) (RemoteWriteConfigs c) (RemoteReadConfigs c) s.

(** The decoder: what fills the root from a document, [None] for an empty one,
    for which [UnmarshalYAML] is not called. *)
Variable document : string -> option (Config -> result string Config).

Definition Load (s : string) : option (result string Config) :=
  r ← match document s with None => Some (Ok DefaultConfig) | Some unmarshal => Config_UnmarshalYAML unmarshal end;
  match r with Err e => Some (Err e) | Ok cfg => Some (Ok (set_original s cfg)) end.

(** ** Paths *)

Definition join_path (baseDir fp : string) : string :=
  if negb (fp =? "")%string && negb (IsAbs fp) then Join baseDir fp else fp.
Definition join_tls (b : string) (t : TLSConfig) : TLSConfig :=
  mkTLS (join_path b (CAFile t)) (join_path b (CertFile t)) (join_path b (KeyFile t)).
Definition clientPaths (b : string) (h : HTTPClientConfig) : HTTPClientConfig :=
  mkHTTP (join_path b (BearerTokenFile h)) (join_tls b (TLSConfig_ h)) (http_rest h).
Definition sdPaths (b : string) (sd : ServiceDiscoveryConfig) : option ServiceDiscoveryConfig :=
  ks ← each (fun k => Some (mkKubernetes (join_path b (k_BearerTokenFile k)) (join_tls b (k_TLSConfig k)) (k_rest k))) (KubernetesSDConfigs sd);
  ms ← each (fun m => Some (mkMarathon (join_path b (AuthTokenFile m)) (clientPaths b (m_HTTPClientConfig m)) (m_rest m))) (MarathonSDConfigs sd);
  cs ← each (fun c => Some (mkConsul (join_tls b (c_TLSConfig c)) (c_rest c))) (ConsulSDConfigs sd);
  fs ← each (fun f => Some (mkSDConfig (map (join_path b) (Files f)) (RefreshInterval f))) (FileSDConfigs sd);
  Some (mkSD (StaticConfigs sd) fs cs ms ks (other_sd sd)).

Definition scrapePaths (b : string) (s : ScrapeConfig) : option ScrapeConfig :=
  sd ← sdPaths b (s_SD s); Some (set_clients sd (clientPaths b (s_HTTP s)) s).
Definition alertmanagerPaths (b : string) (a : AlertmanagerConfig) : option AlertmanagerConfig :=
  sd ← sdPaths b (a_SD a);
  Some (mkAlertmanager sd (clientPaths b (a_HTTP a)) (a_Scheme a) (PathPrefix a) (a_Timeout a) (a_RelabelConfigs a)).

(** [None] is the panic at a nil item. *)
Definition resolveFilepaths (b : string) (cfg : Config) : option Config :=
  ss ← each (scrapePaths b) (ScrapeConfigs cfg);
  ams ← each (alertmanagerPaths b) (AlertmanagerConfigs (AlertingConfig_ cfg));
  Some (mkConfig (GlobalConfig_ cfg) (mkAlerting (AlertRelabelConfigs (AlertingConfig_ cfg)) ams) (map (join_path b) (RuleFiles cfg)) ss
          (RemoteWriteConfigs cfg) (RemoteReadConfigs cfg) (original cfg)).

(** [LoadFile], given what reading the file gives. *)
Definition LoadFile (filename : string) (ReadFile : result string string) : option (result string Config) :=
  match ReadFile with
  | Err e => Some (Err e)
  | Ok content =>
    r ← Load content;
    match r with
    | Err e => Some (Err ("parsing YAML file " +:+ filename +:+ ": " +:+ e))
    | Ok cfg => Ok <$> resolveFilepaths (Dir filename) cfg
    end
  end.
End config.
