(* ===== verification/ConfigFacts.v ===== *)
(** Configurations that are accepted: what the parts of the server may rely on,
    and what is not checked. *)

From S2P Require Import Prelude GoString GoFmt Float Duration Labels LabelsFacts Relabel MapRelabel Alerting Pattern Target ScrapePool Discovery Queue QueueFacts FileSD FileSDFacts Remote RemoteStorage RemoteStorageFacts Config.

(** * Patterns *)

Lemma lang_star_chr p s : lang (Star (Chr p)) s <-> str_forall p s = true.
Proof.
  induction s as [|c s IH]; [by split|]. rewrite lang_star_cons. cbn [str_forall]. rewrite andb_true_iff, <- IH. split.
  - intros (s1 & s2 & -> & A & B). inversion A; subst. by rewrite str_app_nil_l.
  - intros [P L]. exists "", s. by auto.
Qed.

Lemma not_lit_forall b s : str_forall (fun x => negb (x =? rune b)) s = true <-> contains_byte s (rune b) = false.
Proof. induction s as [|c s IH]; [done|]. cbn [str_forall contains_byte]. rewrite andb_true_iff, orb_false_iff, negb_true_iff, IH. tauto. Qed.

(** What follows a star is in the last element of the path. *)
Definition star_in_last (f : string) : Prop := forall a b, f = a +:+ "*" +:+ b -> contains_byte b (rune "/") = false.

Lemma split_at_star x y a b : contains_byte x (rune "*") = false -> x +:+ y = a +:+ "*" +:+ b -> exists a', y = a' +:+ "*" +:+ b.
Proof.
  revert a. induction x as [|c x IH]; intros a N E; [by exists a|]. cbn [contains_byte] in N. apply orb_false_iff in N as [N1 N2].
  destruct a as [|d a]; [rewrite str_app_nil_l, !str_app_cons in E; injection E as -> _; by rewrite Z.eqb_refl in N1|].
  rewrite !str_app_cons in E. injection E as _ E. by apply (IH a).
Qed.

Lemma patRulePath_star f : matches patRulePath f = true -> star_in_last f.
Proof.
  rewrite matches_lang. unfold patRulePath, opt. rewrite lang_seq_iff. intros (x & y & -> & A & B) a b E.
  apply lang_star_chr, not_lit_forall in A. apply split_at_star in E as (a' & ->); [|done].
  apply lang_alt in B as [B|B]; [|apply lang_eps_iff in B; by destruct a'].
  apply lang_seq_iff in B as (s & z & E & S & Z). apply lang_lit in S as ->.
  change (String "*" "" +:+ z) with (String "*" z) in E. change ("*" +:+ b) with (String "*" b) in E.
  apply lang_star_chr, not_lit_forall in Z. destruct a' as [|d a']; [rewrite str_app_nil_l in E; by injection E as ->|].
  rewrite str_app_cons in E. injection E as _ E. rewrite <- E, contains_byte_app in Z. apply orb_false_iff in Z as [_ Z].
  cbn [contains_byte] in Z. by apply orb_false_iff in Z as [_ Z].
Qed.

(** ** Targets without references *)

Lemma lang_star_forall p r : (forall t, lang r t -> contains_byte t (rune "$") = false -> str_forall p t = true) ->
  forall t, lang (Star r) t -> contains_byte t (rune "$") = false -> str_forall p t = true.
Proof.
  intros P t LS. remember (Star r) as q eqn:Q. induction LS as [| | | | | |r' s1 s2 A _ B IH]; try discriminate; [done|]. injection Q as ->.
  rewrite contains_byte_app, str_forall_app. intros [N1 N2]%orb_false_iff. by rewrite P, IH.
Qed.

Lemma letter_first c : letter_ (rune c) = true -> label_char true (rune c) = true.
Proof. unfold letter_, lower, upper, label_char. intros H. rewrite !orb_true_iff in *. tauto. Qed.

Lemma word_label t : str_forall word t = true -> str_forall (label_char false) t = true.
Proof.
  induction t as [|c t IH]; [done|]. cbn [str_forall]. rewrite !andb_true_iff. intros [A B]. split; [|by apply IH].
  unfold word, letter_, lower, upper, dec, label_char in *. rewrite andb_true_r. rewrite !orb_true_iff in *. tauto.
Qed.

(** One letter or reference, and a run of them with what follows. *)
Definition target_atom : re :=
  Alt (Chr letter_) (Seq (lit "$") (Alt (Seq (lit "{") (Seq (plus (Chr word)) (lit "}"))) (plus (Chr word)))).
Definition target_group : re := Seq (plus target_atom) (Star (Chr word)).

Lemma atom_literal t : lang target_atom t -> contains_byte t (rune "$") = false -> exists c, t = String c "" /\ letter_ (rune c) = true.
Proof.
  intros A C. apply lang_alt in A as [A|A]; [inversion A; subst; eauto|]. apply lang_seq_iff in A as (x & y & -> & X & _).
  apply lang_lit in X as ->. by rewrite contains_byte_app in C.
Qed.

Lemma letter_label c : letter_ (rune c) = true -> str_forall (label_char false) (String c "") = true.
Proof. intros L. apply word_label. cbn [str_forall]. unfold word. by rewrite L. Qed.

Lemma group_literal t : lang target_group t -> contains_byte t (rune "$") = false ->
  exists c u, t = String c u /\ letter_ (rune c) = true /\ str_forall (label_char false) u = true.
Proof.
  intros G C. apply lang_seq_iff in G as (x & y & -> & X & Y). rewrite contains_byte_app in C. apply orb_false_iff in C as [C1 C2].
  apply lang_seq_iff in X as (x1 & x2 & -> & X1 & X2). rewrite contains_byte_app in C1. apply orb_false_iff in C1 as [C1 C3].
  destruct (atom_literal x1 X1 C1) as (c & -> & Lc). exists c, (x2 +:+ y). split; [done|]. split; [done|].
  rewrite str_forall_app. apply andb_true_iff. split; [|by apply word_label, lang_star_chr].
  eapply lang_star_forall; [|exact X2|done]. intros t A N. destruct (atom_literal t A N) as (d & -> & Ld). by apply letter_label.
Qed.

(** A target without references is a label name. *)
Lemma relabelTarget_literal s : matches relabelTarget s = true -> contains_byte s (rune "$") = false -> IsValid s = true.
Proof.
  rewrite matches_lang. intros L N. change relabelTarget with (plus target_group) in L.
  apply lang_seq_iff in L as (x & y & -> & X & Y). rewrite contains_byte_app in N. apply orb_false_iff in N as [N1 N2].
  destruct (group_literal x X N1) as (c & u & -> & Lc & U). rewrite str_app_cons. cbn [IsValid]. rewrite (letter_first c Lc), str_forall_app, U. cbn [andb].
  eapply lang_star_forall; [|exact Y|done]. intros t T C. destruct (group_literal t T C) as (d & v & -> & Ld & V). cbn [str_forall].
  rewrite V, andb_true_r. pose proof (letter_label d Ld) as W. cbn [str_forall] in W. by rewrite andb_true_r in W.
Qed.

Section accepted.
Context `{RE : Regexp} `{UT : UnicodeTables} {X : Type}.
Variable Validate : @HTTPClientConfig X -> option string.
Variable zero_http : @HTTPClientConfig X.
Variable zero_sd : @ServiceDiscoveryConfig X.

Local Notation Config := (@Config.Config _ X).

(** * What the decoder guarantees

    It fills every value of a type with an [UnmarshalYAML] by calling that
    method, or leaves it as it was; a null item of a list of pointers is nil. *)

(** All items that are there. *)
Definition items {A} (P : A -> Prop) (l : list (option A)) : Prop := forall x, Some x ∈ l -> P x.

Lemma items_impl {A} (P Q : A -> Prop) l : (forall x, P x -> Q x) -> items P l -> items Q l.
Proof. intros I H x Hx. apply I. by apply H. Qed.

Lemma items_cons {A} (P : A -> Prop) x l : items P (x :: l) <-> (forall y, x = Some y -> P y) /\ items P l.
Proof.
  unfold items. setoid_rewrite elem_of_cons. split; [intros H; split; [intros y ->; apply H; by left|intros y Hy; apply H; by right]|].
  intros [H1 H2] y [E|Hy]; [by apply H1|by apply H2].
Qed.

Lemma items_present {A} (P : A -> Prop) l xs : present l = Some xs -> items P l -> Forall P xs.
Proof.
  intros M%mapM_Some_1 H. induction M as [|o x l xs E _ IH]; [done|]. apply items_cons in H as [H1 H2]. constructor; [by apply H1|by apply IH].
Qed.

Definition decoded_rule (r : RelabelConfig) : Prop := exists u, RelabelConfig_UnmarshalYAML u = Some (Ok r).
Definition decoded_global (g : GlobalConfig) : Prop :=
  g = DefaultGlobalConfig \/ g = zero_GlobalConfig \/ exists u, GlobalConfig_UnmarshalYAML u = Ok g.
Definition decoded_scrape (s : @ScrapeConfig _ X) : Prop :=
  (exists u, ScrapeConfig_UnmarshalYAML Validate zero_http zero_sd u = Some (Ok s)) /\
  items decoded_rule (RelabelConfigs s) /\ items decoded_rule (MetricRelabelConfigs s).
Definition decoded_write (w : @Config.RemoteWriteConfig _ X) : Prop :=
  (exists u, RemoteWriteConfig_UnmarshalYAML Validate zero_http u = Ok w) /\ items decoded_rule (Config.WriteRelabelConfigs w).
Definition decoded (c : Config) : Prop :=
  decoded_global (GlobalConfig_ c) /\ items decoded_scrape (ScrapeConfigs c) /\
  items decoded_rule (AlertRelabelConfigs (AlertingConfig_ c)) /\ items decoded_write (Config.RemoteWriteConfigs c).

(** * Rules *)

(** What relabelling may rely on. *)
Record rule_ok (r : RelabelConfig) : Prop := {
  rule_modulus : valid_config r;
  rule_hashmod : Action r = RelabelHashMod -> IsValid (TargetLabel r) = true;
  rule_target : Action r = RelabelReplace -> lang relabelTarget (TargetLabel r);
  rule_literal : Action r = RelabelReplace -> contains_byte (TargetLabel r) (rune "$") = false -> IsValid (TargetLabel r) = true;
  rule_replacement : Action r = RelabelLabelMap -> lang relabelTarget (Replacement r);
  rule_names : Action r = RelabelLabelDrop \/ Action r = RelabelLabelKeep -> SourceLabels r = [] /\ TargetLabel r = "" /\ Modulus r = 0
}.

Lemma decoded_rule_ok r : decoded_rule r -> rule_ok r.
Proof.
  intros [u U]. unfold RelabelConfig_UnmarshalYAML in U. destruct (u _) as [c|]; [|done].
  destruct (match p_Regex c with Some _ => _ | None => _ end) as [re|]; [|done]. cbn [mbind option_bind] in U.
  destruct (relabel_error c) eqn:E; [done|]. injection U as <-. unfold relabel_error in E.
  destruct ((p_Modulus c =? 0) && _) eqn:E1; [done|]. destruct ((_ || _) && (p_TargetLabel c =? "")%string) eqn:E2; [done|].
  destruct (_ && negb (matches relabelTarget (p_TargetLabel c))) eqn:E3; [done|].
  destruct (_ && negb (matches relabelTarget (p_Replacement c))) eqn:E4; [done|].
  destruct (_ && negb (IsValid _)) eqn:E5; [done|]. destruct (_ && _) eqn:E6 in E; [done|].
  assert (p_Action c = RelabelReplace -> matches relabelTarget (p_TargetLabel c) = true) as T.
  { intros A. rewrite A in E3. by apply negb_false_iff in E3. }
  split; cbn; unfold valid_config; cbn; intros A.
  - rewrite A in E1. rewrite andb_true_r in E1. by bool_prop.
  - rewrite A in E5. by apply negb_false_iff in E5.
  - by apply matches_lang, T.
  - intros N. apply relabelTarget_literal; auto.
  - rewrite A in E4. apply matches_lang. by apply negb_false_iff in E4.
  - assert (bool_decide (p_Action c = RelabelLabelDrop) || bool_decide (p_Action c = RelabelLabelKeep) = true) as B by (by destruct A as [-> | ->]).
    rewrite B in E6. cbn [andb] in E6. apply orb_false_iff in E6 as [E6 _]. apply orb_false_iff in E6 as [E6 _].
    apply orb_false_iff in E6 as [E6 M]. apply orb_false_iff in E6 as [S L]. apply negb_false_iff in S, L, M.
    apply bool_decide_eq_true in S as ->. apply String.eqb_eq in L as ->. by apply Z.eqb_eq in M as ->.
Qed.

(** * Intervals and names *)

Lemma timeout_within_spec t d i : t <= i -> d <> 0 -> i <> 0 -> timeout_within t d i <= i /\ timeout_within t d i <> 0.
Proof. intros. unfold timeout_within. destruct (Z.eqb_spec t 0), (Z.ltb_spec i d); lia. Qed.

Definition global_ok (g : GlobalConfig) : Prop :=
  g_ScrapeInterval g <> 0 /\ g_ScrapeTimeout g <> 0 /\ g_ScrapeTimeout g <= g_ScrapeInterval g /\ EvaluationInterval g <> 0.

Lemma decoded_global_ok g : decoded_global g -> global_ok (if isZero g then DefaultGlobalConfig else g).
Proof.
  intros [-> | [-> |[u U]]]; [by vm_compute..|]. destruct (isZero g); [by vm_compute|]. unfold GlobalConfig_UnmarshalYAML in U.
  destruct (u _) as [gc|]; [|done]. set (i := if g_ScrapeInterval gc =? 0 then _ else _) in U.
  assert (i <> 0) as I by (unfold i; destruct (Z.eqb_spec (g_ScrapeInterval gc) 0); [vm_compute|]; done).
  destruct (Z.ltb_spec i (g_ScrapeTimeout gc)); [done|]. injection U as <-. unfold global_ok. cbn [g_ScrapeInterval g_ScrapeTimeout EvaluationInterval].
  destruct (timeout_within_spec (g_ScrapeTimeout gc) (g_ScrapeTimeout DefaultGlobalConfig) i); [done|by vm_compute|done|].
  split_and!; [done..|]. destruct (Z.eqb_spec (EvaluationInterval gc) 0); [vm_compute|]; done.
Qed.

(** A scrape configuration as the server uses it. *)
Record scrape_ok (s : @ScrapeConfig _ X) : Prop := {
  job_named : JobName s <> "";
  interval_set : ScrapeInterval s <> 0;
  timeout_set : ScrapeTimeout s <> 0;
  timeout_le : ScrapeTimeout s <= ScrapeInterval s;
  rules_ok : items rule_ok (RelabelConfigs s) /\ items rule_ok (MetricRelabelConfigs s);
  hosts_ok : RelabelConfigs s = [] -> Forall is_Some (StaticConfigs (s_SD s)) /\
    forall tg t, Some tg ∈ StaticConfigs (s_SD s) -> t ∈ tg_Targets tg -> ContainsRune (default "" (t !! AddressLabel)) (rune "/") = false
}.

Lemma target_error_none ts : target_error ts = None -> forall t, t ∈ ts -> ContainsRune (default "" (t !! AddressLabel)) (rune "/") = false.
Proof.
  induction ts as [|x ts IH]; [by intros _ ? ?%elem_of_nil|]. unfold target_error. cbn [foldr]. unfold CheckTargetAddress at 1.
  destruct (ContainsRune (default "" (x !! AddressLabel)) _) eqn:C; [done|]. intros E t [-> |I]%elem_of_cons; [done|by apply IH].
Qed.

Lemma static_error_none tgs : static_error tgs = Some None ->
  Forall is_Some tgs /\ forall tg t, Some tg ∈ tgs -> t ∈ tg_Targets tg -> ContainsRune (default "" (t !! AddressLabel)) (rune "/") = false.
Proof.
  induction tgs as [|[x|] tgs IH]; cbn [static_error]; [intros _; split; [done|by intros ? ? ?%elem_of_nil]| |done].
  destruct (target_error (tg_Targets x)) eqn:T; [done|]. intros E. destruct (IH E) as [I1 I2]. split; [by constructor|].
  intros tg t [[= ->]|I]%elem_of_cons; [by apply target_error_none|by apply I2].
Qed.

Lemma decoded_scrape_ok s i t : decoded_scrape s -> i <> 0 -> t <> 0 -> t <= i -> scrape_ok (set_durations i t s).
Proof.
  intros ([u U] & R & M) I T L. unfold ScrapeConfig_UnmarshalYAML in U. destruct (u _) as [c|]; [|done].
  destruct (String.length (JobName c) =? 0)%nat eqn:J; [done|]. destruct (Validate _); [done|].
  destruct (check_statics _ _) as [[e|]|] eqn:C; [done| |done]. injection U as ->. split; cbn; try done.
  - intros E. by rewrite E in J.
  - split; (eapply items_impl; [apply decoded_rule_ok|done]).
  - intros E. unfold check_statics in C. rewrite E in C. by apply static_error_none.
Qed.

(** The loop: all configurations are there, with names of their own. *)
Lemma scrape_loop_ok g : global_ok g -> forall scfgs names ss,
  items decoded_scrape scfgs -> scrape_loop g names scfgs = Some (Ok ss) ->
  exists l, ss = map Some l /\ Forall scrape_ok l /\ NoDup (map JobName l) /\ Forall (fun s => JobName s ∉ names) l.
Proof.
  intros (G1 & G2 & _). induction scfgs as [|[s|] scfgs IH]; intros names ss D E; cbn [scrape_loop] in E; [injection E as <-; exists []; by repeat constructor| |done].
  set (i := if ScrapeInterval s =? 0 then _ else _) in E.
  assert (i <> 0) as I by (unfold i; by destruct (Z.eqb_spec (ScrapeInterval s) 0)).
  destruct (Z.ltb_spec i (ScrapeTimeout s)); [done|]. destruct (bool_decide _) eqn:B; [done|]. apply bool_decide_eq_false in B.
  destruct (scrape_loop g _ scfgs) as [[ss'|]|] eqn:E'; [|done..]. cbn [mbind option_bind] in E. injection E as <-.
  apply items_cons in D as [D1 D2]. destruct (IH _ _ D2 E') as (l & -> & O & N & F).
  destruct (timeout_within_spec (ScrapeTimeout s) (g_ScrapeTimeout g) i) as [T1 T2]; [lia|done|done|].
  eexists (_ :: l). split; [reflexivity|]. split; [constructor; [by apply decoded_scrape_ok; [apply D1|..]|done]|].
  split; [constructor; [|done]|constructor; [done|]].
  - cbn. intros (s' & Es & Hs)%list_elem_of_map. eapply Forall_forall in F; [|exact Hs]. set_solver.
  - eapply Forall_impl; [exact F|]. set_solver.
Qed.
(** * Whole configurations *)

Lemma accepted_config u c : (forall c', u DefaultConfig = Ok c' -> decoded c') -> Config_UnmarshalYAML u = Some (Ok c) ->
  global_ok (GlobalConfig_ c) /\ Forall star_in_last (RuleFiles c) /\ items rule_ok (AlertRelabelConfigs (AlertingConfig_ c)) /\
  items decoded_write (Config.RemoteWriteConfigs c) /\
  exists ss, ScrapeConfigs c = map Some ss /\ Forall scrape_ok ss /\ NoDup (map JobName ss).
Proof.
  intros D E. unfold Config_UnmarshalYAML in E. destruct (u DefaultConfig) as [c'|]; [|done]. destruct (D c' eq_refl) as (G & S & A & W).
  destruct (List.find _ _) eqn:F; [done|]. destruct (scrape_loop _ _ _) as [[ss|]|] eqn:L; [|done..]. cbn [mbind option_bind] in E. injection E as <-.
  cbn [GlobalConfig_ RuleFiles AlertingConfig_ Config.RemoteWriteConfigs ScrapeConfigs]. apply decoded_global_ok in G.
  destruct (scrape_loop_ok _ G _ _ _ S L) as (l & -> & O & N & _). split_and!; [done| | |done|by exists l].
  - apply find_none_forall in F. eapply Forall_impl; [exact F|]. intros f H. by apply patRulePath_star, negb_false_iff.
  - eapply items_impl; [apply decoded_rule_ok|exact A].
Qed.

Variable document : string -> option (Config -> result string Config).

Lemma loaded_config s c : (forall u c', document s = Some u -> u DefaultConfig = Ok c' -> decoded c') -> Load document s = Some (Ok c) ->
  global_ok (GlobalConfig_ c) /\ Forall star_in_last (RuleFiles c) /\ items rule_ok (AlertRelabelConfigs (AlertingConfig_ c)) /\
  items decoded_write (Config.RemoteWriteConfigs c) /\
  exists ss, ScrapeConfigs c = map Some ss /\ Forall scrape_ok ss /\ NoDup (map JobName ss).
Proof.
  intros D L. unfold Load in L. destruct (document s) as [u|].
  - destruct (Config_UnmarshalYAML u) as [[c'|]|] eqn:E; [|done..]. cbn in L. injection L as <-.
    apply accepted_config in E; [exact E|]. intros c'' U. by apply (D u c'').
  - injection L as <-. split_and!; [by vm_compute|constructor|by intros ? ?%elem_of_nil..|]. exists []; split_and!; [done|constructor..].
Qed.

(** Inserting under distinct names. *)
Lemma lookup_named {A B} (name : A -> string) (val : A -> B) l (m : gmap string B) : NoDup (map name l) ->
  forall a, a ∈ l -> foldl (fun m a => <[name a := val a]> m) m l !! name a = Some (val a).
Proof.
  assert (forall l (m : gmap string B) k, k ∉ map name l -> foldl (fun m a => <[name a := val a]> m) m l !! k = m !! k) as Other.
  { induction l0 as [|x l0 IH]; intros m0 k N; [done|]. cbn in N |- *. apply not_elem_of_cons in N as [N1 N2]. by rewrite IH, lookup_insert_ne. }
  revert m. induction l as [|x l IH]; intros m N a I; [by apply elem_of_nil in I|]. cbn in N |- *. apply NoDup_cons in N as [N1 N2].
  apply elem_of_cons in I as [-> |I]; [by rewrite Other, lookup_insert_eq|by apply IH].
Qed.

Lemma scrape_JobName (sc : @ScrapeConfig _ X) t : scrape sc = Some t -> Target.JobName t = JobName sc.
Proof. unfold scrape. intros (rs & _ & E)%bind_Some. apply bind_Some in E as (ms & _ & E). by injection E as <-. Qed.


(** * The remote storage under loaded configurations *)

Context `{RR : !RegexpReplace} `{M5 : MD5} `{MO : MapOrder}.
Variable range_map : LabelSet -> list (string * string).
Variable int_overflow : float64 -> Z.

(** Making the clients. *)
Variable new_write : @Config.RemoteWriteConfig _ X -> option string.
Variable new_read : @Config.RemoteReadConfig X -> result string client.

(** What [Storage.ApplyConfig] reads of a configuration, if none of the rules
    for the endpoints is nil. *)
Definition write_config (w : @Config.RemoteWriteConfig _ X) : option RemoteStorage.RemoteWriteConfig :=
  rs ← present (Config.WriteRelabelConfigs w); Some (mkWriteConfig (new_write w) (w_QueueConfig w) rs).
Definition read_config (r : @Config.RemoteReadConfig X) : Remote.RemoteReadConfig :=
  mkReadConfig (new_read r) (Config.RequiredMatchers r) (Config.ReadRecent r).
Definition remote_config (c : Config) : option RemoteStorage.Config :=
  ws ← mapM (fun o => match o with Some w => Some <$> write_config w | None => Some None end) (Config.RemoteWriteConfigs c);
  Some (RemoteStorage.mkConfig (default ∅ (Config.ExternalLabels (GlobalConfig_ c))) ws (map (option_map read_config) (Config.RemoteReadConfigs c))).

(** Calls that apply loaded configurations with sensible queue settings and
    without null items, and do not close the storage. *)
Definition loaded_op (o : op) : Prop :=
  match o with
  | OApply conf => exists s c, Load document s = Some (Ok c) /\ remote_config c = Some conf /\
                               Forall is_Some (Config.RemoteWriteConfigs c) /\ Forall is_Some (Config.RemoteReadConfigs c) /\
                               items (fun w => valid_queue (w_QueueConfig w)) (Config.RemoteWriteConfigs c)
  | OClose => False
  | _ => True
  end.

Lemma write_configs_valid os ws : mapM (fun o => match o with Some w => Some <$> write_config w | None => Some None end) os = Some ws ->
  Forall is_Some os -> items decoded_write os -> items (fun w => valid_queue (w_QueueConfig w)) os -> Forall valid_write ws.
Proof.
  intros M%mapM_Some_1. induction M as [|o x os ws E _ IH]; [by constructor|]. intros [So F]%Forall_cons [D1 D2]%items_cons [V1 V2]%items_cons.
  constructor; [|by apply IH]. destruct So as [w ->]. apply fmap_Some in E as (y & E & ->). unfold write_config in E.
  destruct (present _) as [rs|] eqn:P; [|done]. injection E as <-. eexists. split; [done|]. cbn. split; [by apply V1|].
  eapply Forall_impl; [apply (items_present decoded_rule _ _ P); by apply D1|]. intros r R. by apply rule_modulus, decoded_rule_ok.
Qed.

Lemma nil_endpoint_panics conf ws rest st : RemoteStorage.RemoteWriteConfigs conf = map Some ws ++ None :: rest ->
  Forall (fun w => rw_client w = None) ws -> RemoteStorage.step range_map int_overflow (OApply conf) st = Panics.
Proof.
  intros E F. cbn [RemoteStorage.step]. unfold RemoteStorage.ApplyConfig. rewrite E.
  assert (new_queues (RemoteStorage.ExternalLabels conf) (map Some ws ++ None :: rest) = None) as ->; [|done].
  clear E. induction F as [|w ws C _ IH]; [done|]. cbn. by rewrite C, IH.
Qed.

(** C20: however often the configuration is reloaded, and however the queues'
    goroutines interleave with the samples that are added, the remote storage
    never panics under configurations that [Load] accepts, from a decoder that
    fills values by their [UnmarshalYAML], if their queue settings are sensible
    and they have no null item among the endpoints and the endpoints'
    relabelling rules: what else it needs of the rules is what loading checks.
    A null item of remote_write does make it panic, whatever the storage holds,
    unless the client of an endpoint in front of it cannot be made. *)
Theorem loaded_configs_run (cb : result string Z) (os : list op)
  (Dec : forall s u c, document s = Some u -> u DefaultConfig = Ok c -> decoded c) (V : Forall loaded_op os) :
  RemoteStorage.run range_map int_overflow os (mkSystem (NewStorage cb) []) <> Panics /\
  forall conf ws rest st, RemoteStorage.RemoteWriteConfigs conf = map Some ws ++ None :: rest -> Forall (fun w => rw_client w = None) ws ->
    RemoteStorage.step range_map int_overflow (OApply conf) st = Panics.
Proof.
  split; [|by apply nil_endpoint_panics].
  intros P. assert (Forall valid_op os) as V'.
  { eapply Forall_impl; [exact V|]. intros [| conf| | |]; try done. intros (s & c & L & E & NW & NR & Q).
    destruct (loaded_config s c (Dec s) L) as (_ & _ & _ & W & _). unfold remote_config in E. apply bind_Some in E as (ws & Ew & E). injection E as <-.
    split; cbn; [by eapply write_configs_valid|]. apply Forall_map. eapply Forall_impl; [exact NR|]. intros o [r ->]. by eexists. }
  pose proof (run_sys_ok range_map int_overflow os (mkSystem (NewStorage cb) []) V' ltac:(by split)) as H. by rewrite P in H.
Qed.
End accepted.

(** * Paths *)

Lemma IsAbs_cons p : IsAbs p = true <-> exists q, p = String "/" q.
Proof.
  unfold IsAbs. destruct p as [|c p]; cbn [String.prefix]; [split; [done|by intros [q ?]]|].
  destruct (Ascii.ascii_dec "/" c) as [E|N]; [split; [subst c; by exists p|by destruct p]|]. split; [done|]. intros [q [= E _]]. by destruct N.
Qed.

Lemma IsAbs_Clean p : IsAbs p = true -> IsAbs (Clean p) = true.
Proof. intros A. unfold Clean. rewrite A. apply IsAbs_cons. rewrite str_app_cons. by eexists. Qed.

Lemma IsAbs_Dir f : IsAbs f = true -> IsAbs (Dir f) = true.
Proof.
  intros (q & ->)%IsAbs_cons. apply IsAbs_Clean, IsAbs_cons. cbn [last_index]. rewrite Z.eqb_refl.
  destruct (Z.leb_spec 0 (last_index q (rune "/"))).
  - replace (Z.to_nat _) with (S (Z.to_nat (last_index q (rune "/") + 1))) by lia. cbn [str_take]. by eexists.
  - cbn. by eexists.
Qed.

(** A path that is resolved against an absolute directory stays as it is. *)
Lemma join_path_twice b b' p : IsAbs b = true -> join_path b' (join_path b p) = join_path b p.
Proof.
  intros A. unfold join_path at 2 3. destruct (negb (p =? "")%string && negb (IsAbs p)) eqn:E.
  - assert (IsAbs (Join b p) = true) as J.
    { apply IsAbs_Clean. apply IsAbs_cons in A as (q & ->). apply IsAbs_cons. rewrite str_app_cons. by eexists. }
    unfold join_path. by rewrite J, andb_false_r.
  - unfold join_path. by rewrite E.
Qed.

Section paths.
Context `{RE : Regexp} `{UT : UnicodeTables} {X : Type}.
Implicit Types (h : @HTTPClientConfig X).

Lemma join_tls_twice b b' t : IsAbs b = true -> join_tls b' (join_tls b t) = join_tls b t.
Proof. intros A. unfold join_tls. cbn. by rewrite !join_path_twice. Qed.
Lemma clientPaths_twice b b' h : IsAbs b = true -> clientPaths b' (clientPaths b h) = clientPaths b h.
Proof. intros A. unfold clientPaths. cbn. by rewrite join_path_twice, join_tls_twice. Qed.

(** A loop that changes nothing in what it has made. *)
Lemma each_twice {A} (f g : A -> option A) l l' : each f l = Some l' -> (forall x y, f x = Some y -> g y = Some y) -> each g l' = Some l'.
Proof.
  intros E%mapM_Some_1 H. apply mapM_Some_2. induction E as [|o x l l' E _ IH]; [done|]. constructor; [|done].
  apply bind_Some in E as (z & _ & E). apply fmap_Some in E as (y & E & ->). cbn. by rewrite (H _ _ E).
Qed.

Lemma each_related {A B} (f : A -> option A) (h : A -> B) l l' : (forall x y, f x = Some y -> h y = h x) -> each f l = Some l' ->
  map (option_map h) l' = map (option_map h) l.
Proof.
  intros H E%mapM_Some_1. induction E as [|o x l l' E _ IH]; [done|]. apply bind_Some in E as (z & -> & E). apply fmap_Some in E as (y & E & ->).
  cbn. by rewrite IH, (H _ _ E).
Qed.

Lemma sdPaths_twice b b' (sd sd' : @Config.ServiceDiscoveryConfig X) : IsAbs b = true -> sdPaths b sd = Some sd' -> sdPaths b' sd' = Some sd'.
Proof.
  intros A. unfold sdPaths. intros (ks & K & E)%bind_Some. apply bind_Some in E as (ms & M & E). apply bind_Some in E as (cs & C & E).
  apply bind_Some in E as (fs & F & E). injection E as <-.
  cbn [KubernetesSDConfigs MarathonSDConfigs ConsulSDConfigs FileSDConfigs StaticConfigs other_sd].
  rewrite (each_twice _ _ _ ks K) by (intros x y [= <-]; cbn; by rewrite join_path_twice, join_tls_twice). cbn [mbind option_bind].
  rewrite (each_twice _ _ _ ms M) by (intros x y [= <-]; cbn; by rewrite join_path_twice, clientPaths_twice). cbn [mbind option_bind].
  rewrite (each_twice _ _ _ cs C) by (intros x y [= <-]; cbn; by rewrite join_tls_twice). cbn [mbind option_bind].
  rewrite (each_twice _ _ _ fs F); [done|]. intros x y [= <-]. cbn. rewrite map_map. do 2 f_equal. apply map_ext. intros f. by apply join_path_twice.
Qed.

Lemma scrapePaths_twice b b' (x y : @ScrapeConfig _ X) : IsAbs b = true -> scrapePaths b x = Some y -> scrapePaths b' y = Some y.
Proof.
  intros A. unfold scrapePaths. intros (sd & S & E)%bind_Some. injection E as <-. cbn.
  rewrite (sdPaths_twice b b' _ sd A S). cbn. by rewrite clientPaths_twice.
Qed.
Lemma alertmanagerPaths_twice b b' (x y : @AlertmanagerConfig _ X) : IsAbs b = true -> alertmanagerPaths b x = Some y -> alertmanagerPaths b' y = Some y.
Proof.
  intros A. unfold alertmanagerPaths. intros (sd & S & E)%bind_Some. injection E as <-. cbn.
  rewrite (sdPaths_twice b b' _ sd A S). cbn. by rewrite clientPaths_twice.
Qed.

(** After [LoadFile] of a file with an absolute name, every path of the
    rule files, of the clients of the scrape and Alertmanager configurations
    and of their discovery is absolute or not set: resolving once more,
    against whatever directory, changes nothing; and resolving leaves all but
    these paths as [Load] has read it. *)
Theorem LoadFile_paths (Validate : @HTTPClientConfig X -> option string) (zero_http : @HTTPClientConfig X) (zero_sd : @Config.ServiceDiscoveryConfig X)
  (document : string -> option (@Config.Config _ X -> result string (@Config.Config _ X))) (filename content : string) (c : @Config.Config _ X)
  (A : IsAbs filename = true) (L : LoadFile document filename (Ok content) = Some (Ok c)) :
  (forall b, resolveFilepaths b c = Some c) /\
  exists c0, Load document content = Some (Ok c0) /\ resolveFilepaths (Dir filename) c0 = Some c /\ GlobalConfig_ c = GlobalConfig_ c0 /\
    Config.RemoteWriteConfigs c = Config.RemoteWriteConfigs c0 /\ Config.RemoteReadConfigs c = Config.RemoteReadConfigs c0 /\
    map (option_map scrape) (ScrapeConfigs c) = map (option_map scrape) (ScrapeConfigs c0).
Proof.
  unfold LoadFile in L. destruct (Load document content) as [[c0|]|]; [|done..]. cbn in L.
  apply fmap_Some in L as (c' & E & [= <-]). apply IsAbs_Dir in A. pose proof E as E0. unfold resolveFilepaths in E.
  apply bind_Some in E as (ss & S & E). apply bind_Some in E as (ams & M & E). injection E as <-. split.
  - intros b. unfold resolveFilepaths. cbn [ScrapeConfigs AlertingConfig_ AlertmanagerConfigs].
    rewrite (each_twice _ (scrapePaths b) _ ss S) by (intros; by eapply scrapePaths_twice). cbn [mbind option_bind].
    rewrite (each_twice _ (alertmanagerPaths b) _ ams M) by (intros; by eapply alertmanagerPaths_twice). cbn.
    rewrite map_map. do 2 f_equal. apply map_ext. intros x. by apply join_path_twice.
  - exists c0. split_and!; [done..|]. cbn. eapply each_related; [|exact S]. intros x y (sd & _ & E)%bind_Some. by injection E as <-.
Qed.
End paths.

(** * A configuration *)

#[local] Existing Instances literal_regexp literal_replace zero_md5 tree_order any_print.

Definition no_tls : TLSConfig := mkTLS "" "" "".
Definition no_http : @HTTPClientConfig unit := mkHTTP "" no_tls tt.
Definition no_sd : @Config.ServiceDiscoveryConfig unit := mkSD [] [] [] [] [] tt.
Definition accept_http (h : @HTTPClientConfig unit) : option string := None.

Definition drop_job : RelabelConfig := mkRelabelConfig _ ["job"] ";" "^(?:(.*))$" 0 "" "$1" RelabelDrop.
Definition job_a : ScrapeConfig :=
  mkScrape "a" false ∅ 0 0 "/metrics" "http" 0
    (mkSD [Some (mkTargetGroup [{["__address__" := "h:1"]}] ∅ "")] [Some (mkSDConfig ["targets/*.json"] (5 * Minute))] [] [] [] tt) no_http [Some drop_job] [].

Definition endpoint_with (q : QueueConfig) : Config.RemoteWriteConfig := mkRemoteWrite (Some "http://r/") (30 * Second) [Some drop_job] no_http q.

(** One job and one endpoint, whose queue settings are [q]. *)
Definition server_config (q : QueueConfig) : @Config.Config _ unit :=
  Config.mkConfig DefaultGlobalConfig (mkAlerting [] []) ["rules/*.yml"] [Some job_a]
    [Some (endpoint_with q)] [] "".
Definition server_document (q : QueueConfig) (s : string) : option (@Config.Config _ unit -> result string (@Config.Config _ unit)) :=
  if (s =? "server")%string then Some (fun _ => Ok (server_config q)) else None.

Lemma server_decoded q s u c : server_document q s = Some u -> u DefaultConfig = Ok c -> decoded accept_http no_http no_sd c.
Proof.
  unfold server_document. destruct (_ =? _)%string; [|done]. intros [= <-] [= <-].
  assert (decoded_rule drop_job) as K.
  { exists (fun c => Ok (mkPlain (Some ["job"]) ";" (p_Regex c) 0 "" "$1" RelabelDrop)). vm_compute. reflexivity. }
  assert (items decoded_rule [Some drop_job]) as KS by (apply items_cons; split; [by intros ? [= <-]|by intros ? ?%elem_of_nil]).
  split; [by left|]. split_and!; [|by intros ? ?%elem_of_nil|]; (apply items_cons; split; [|by intros ? ?%elem_of_nil]); intros s' [= <-].
  - split; [by exists (fun _ => Ok job_a)|]. split; [exact KS|by intros ? ?%elem_of_nil].
  - split; [by exists (fun _ => Ok (endpoint_with q))|exact KS].
Qed.


Definition one_client (_ : @Config.RemoteWriteConfig _ unit) : option string := None.
Definition no_reader (_ : @Config.RemoteReadConfig unit) : result string client := Err "none".
Definition remote_of (q : QueueConfig) : RemoteStorage.Config :=
  RemoteStorage.mkConfig ∅ [Some (mkWriteConfig None q [drop_job])] [].

(** Samples go through the queue, which takes long, and are reloaded. *)
Definition loaded_ops (q : QueueConfig) : list op :=
  [OApply (remote_of q); OAdd job_labels 1 (of_Z 1); OAdd job_labels 2 (of_Z 2)].

Lemma loaded_configs_run_witness :
  RemoteStorage.run backwards (fun _ => 0) (loaded_ops small_queue) (mkSystem (NewStorage (Ok 0)) []) <> Panics.
Proof.
  refine (proj1 (loaded_configs_run accept_http no_http no_sd (server_document small_queue) backwards (fun _ => 0) one_client no_reader (Ok 0) _ _ _)).
  - exact (server_decoded small_queue).
  - apply List.Forall_cons; [|repeat constructor]. eexists "server", _. split; [vm_compute; reflexivity|]. split; [reflexivity|].
    split; [repeat constructor; by eexists|]. split; [constructor|]. apply items_cons. split; [|by intros ? ?%elem_of_nil].
    intros w [= <-]. exact small_queue_valid.
Defined.

Lemma LoadFile_paths_witness :
  exists c, LoadFile (server_document small_queue) "/etc/prometheus.yml" (Ok "server") = Some (Ok c) /\
    RuleFiles c = ["/etc/rules/*.yml"] /\ forall b, resolveFilepaths b c = Some c.
Proof.
  eexists. split; [vm_compute; reflexivity|]. split; [vm_compute; reflexivity|].
  destruct (LoadFile_paths accept_http no_http no_sd (server_document small_queue) "/etc/prometheus.yml" "server" _ eq_refl
    ltac:(vm_compute; reflexivity)) as [P _].
  exact P.
Defined.

(** * What loading does not check *)

(** The settings of [small_queue], with no shards at all. *)
Definition no_shards : QueueConfig := mkQueueConfig 3 0 2 (5 * Second) 3 (30 * Millisecond) (100 * Millisecond).

Definition run_out_of_shards : list op :=
  loaded_ops no_shards ++
  [OQueue 0 (Receive Cur 0 0 second_time); OQueue 0 (Receive Cur 0 (100 * Second) second_time); OQueue 0 (Tick true); OQueue 0 Swap].

(** The queue settings of an accepted configuration are not sensible by
    themselves: with max_shards 0 the server starts and forwards samples until
    the queue is resharded, to no shards, and the next sample that is added
    divides by zero. *)
Example queue_settings_unchecked :
  (exists c, Load (server_document no_shards) "server" = Some (Ok c) /\ remote_config one_client no_reader c = Some (remote_of no_shards)) /\
  exists st, RemoteStorage.run backwards (fun _ => 0) run_out_of_shards (mkSystem (NewStorage (Ok 0)) []) = Returns st /\
    forall t v, RemoteStorage.step backwards (fun _ => 0) (OAdd job_labels t v) st = Panics.
Proof.
  split; [eexists; split; vm_compute; reflexivity|]. eexists. split; [vm_compute; reflexivity|]. intros t v. vm_compute. reflexivity.
Qed.

(** A null endpoint is accepted, and then makes the remote storage panic
    ([nil_endpoint_panics]). *)
Definition null_endpoint : @Config.Config _ unit := Config.mkConfig DefaultGlobalConfig (mkAlerting [] []) [] [] [None] [] "".

Example null_endpoint_accepted :
  exists c conf, Load (fun _ => Some (fun _ => Ok null_endpoint)) "remote_write: [null]" = Some (Ok c) /\
    remote_config one_client no_reader c = Some conf /\
    RemoteStorage.run backwards (fun _ => 0) [OApply conf] (mkSystem (NewStorage (Ok 0)) []) = Panics.
Proof. eexists _, _. split; [vm_compute; reflexivity|]. split; vm_compute; reflexivity. Qed.
